(* ===== verification/_CoqProject ===== *)
-Q . S2P
Prelude.v
Effect.v
MemTrack.v
MemChunk.v
TcpMessage.v
Lymsg.v
Framing.v
SocketPoll.v
Epoll.v
WriteSide.v
TcpUser.v
SocketUtils.v
TcpClient.v
TcpPool.v
SafeQueue.v
AsyncClient.v
AsyncLife.v
AsioUser.v
AsioServer.v
AsioLife.v
Timer.v
TimerLife.v
Stat.v
Dispatch.v
TcpServer.v
Worker.v
ServerLife.v
Text.v
Config.v
Encode.v
LymsgText.v
Logger.v
Signals.v
SocketSetup.v
Serialize.v
DbReq.v
BsonOwn.v
Random.v
Openssl.v
Handshake.v
HandshakeKeys.v
Shards.v
NetServer.v
NetLife.v
Gate.v
DbPool.v
DbDirect.v
DbProxy.v
ProxyLife.v
RedisClient.v
RedisCommands.v
MysqlClient.v
MongoClient.v
MongoPool.v
MongoPrefs.v
DbClient.v
CurlHelper.v
