(* ===== verification/Prelude.v ===== *)
(** * TSZY-ULT: a verification library

    TSZY-ULT is a C++ library for servers: a TCP transport ([src/zbf]), a layer
    of requests and responses on top of it ([src/lygc]), helpers for encryption
    and serialization ([src/fszm]) and connection pools for databases
    ([src/wjp]). This development models its own logic and proves what makes it
    correct; operating system, OpenSSL, the database drivers and the handlers an
    application installs are interfaces with the laws the code relies on.

    ** How the program fits together

    A client packs a message with [lymsg_helper::packMsg] and posts it. The
    transport keeps it in a send queue ([post]) which the I/O thread empties
    whenever the poller says the socket is writable ([sendData]). The receiver's
    I/O thread appends what [recv] returns to the receive buffer ([onRecv]),
    cuts complete messages off it ([getRecvMsg]), and gives each to a worker's
    queue ([dispatchMsg]), chosen by the message's type. The worker calls
    [onRecvMsg] of the connection, where [NetServer] looks up a handler, or
    [GateServer] first decrypts. A handler may answer at once or save the
    request and answer later by its id, as the database proxies do when a pool's
    worker calls them back. A monitor thread closes silent connections and
    reports closed ones.

    ** Files

    Foundations
    - [Prelude] (this file): bytes, machine integers, loops and traces, tactics.
    - [Effect]: computations with a state, exits, and rules for them.
    - [MemChunk]: [zbf/memchunk.hpp], the receive buffer [memchunk], [push], [pop].
    - [TcpMessage]: [zbf/tcp_message.hpp], the class [tcp_message_protocol] as
      the record [protocol] with [ProtocolLaws], and the default protocol.
    - [Lymsg]: [lygc/lymsg_protocol.hpp], header, byte order, [packMsg],
      [unpackMsg], [lymsg_protocol]; [LymsgText]: what is printed of a message.
    - [SafeQueue]: [zbf/safequeue.hpp], both variants.
    - [Timer]: [zbf/timer_helper.hpp], the slots and rounds of [timerProc];
      [TimerLife]: its thread, started and stopped, interleaved.
    - [Stat]: [zbf/request_stat.hpp], [Histogram], [RequestStat], the bills.
    - [MemTrack]: [zbf/mem_alloc.hpp], the table of the blocks in use.
    - [Logger]: [zbf/log_utils.hpp], how a line is made and when it is written.
    - [Signals]: [zbf/signal_utils.hpp], the handlers of a process.

    Transport ([zbf/socket_tcp_v5.hpp] where no other file is named)
    - [Framing]: [_PopMsg] and the receive loop.
    - [SocketPoll]: [zbf/socket_poll.hpp], the class [Poller] and the Windows
      implementation; [Epoll]: the one for Linux, over the class [EpollApi].
    - [WriteSide]: the send queue ([post], [joinMonitor], [leaveMonitor],
      [enableWrite], [sendData]) of [tcpsock_user] and [tcpsock_asynclt].
    - [TcpUser]: [tcpsock_user] and [zbf/heartbeat_helper.hpp].
    - [Dispatch]: [configSwimlanes], [dispatchMsg] and the worker queues.
    - [TcpServer]: [tcpsock_server]'s connections: I/O thread, monitor, close.
    - [Worker]: the worker threads and the statistics logger, interleaved with
      the I/O thread and the monitor.
    - [ServerLife]: [open], [start], [stop], [serveUtilStop], [close].
    - [SocketUtils]: [zbf/socket_utils.hpp], blocking send and receive, over the
      class [Sys] of system calls with [SysLaws]; [SocketSetup]: addresses,
      options and datagrams, over the class [SockApi].
    - [TcpClient], [TcpPool]: [tcpsock_client], [tcpsock_cltpool],
      [tcpsock_ha_cltpool].
    - [AsyncClient]: [tcpsock_asynclt], [tcpsock_ha_asynclt],
      [async_client_manager]; [AsyncLife]: starting and shutting them down.
    - [AsioUser], [AsioServer]: the second transport, [zbf/asio_socket_tcp.hpp]
      and [zbf/asio_worker.hpp]: connections, server and client; [AsioLife]:
      the threads that run them, starting and stopping, TLS.

    Data and cryptography
    - [Serialize]: [fszm/serialize_helper.hpp]; the class [Codec].
    - [DbReq]: [wjp/mysql_client_req.hpp], [wjp/redis_client_req.hpp],
      [wjp/mongo_client_req.hpp]; [BsonOwn]: who destroys the documents of the
      last one, on a store of blocks.
    - [Config]: [lygc/lyserver_config.hpp], [lygc/central_server.hpp] and
      [lygc/central_client.hpp], over the class [Json] with [JsonLaws].
    - [Text]: what is used of the C++ library's text functions.
    - [Random]: [fszm/random_utils.hpp].
    - [Openssl]: [fszm/openssl_utils_v2.hpp] over the class [OpenSSL] with
      [CipherLaws] and [KeyLaws], and a concrete instance for the witnesses.
    - [Encode]: digests, hexadecimal and base64 text of the same file, over the
      class [OpensslText] with [Base64Laws], and a base64 for the witnesses.
    - [Handshake]: [lygc/handshake_helper_v2.hpp]; [HandshakeKeys]: loading its
      keys and freeing them.

    Requests
    - [Shards]: the 16 locked maps of pending requests, with the class
      [PendStore] that their users are proved against.
    - [NetServer]: [lygc/net_server.hpp], server and client; [NetLife]: adding
      clients, starting and stopping, over [ServerLife], [AsyncLife] and [Timer].
    - [Gate]: [lygc/gate_server.hpp], an extension of the state of [NetServer].
    - [DbPool]: the pools of [wjp/mysql_client.hpp] and [wjp/redis_client.hpp];
      [DbDirect]: [execQuery], in the caller's thread, interleaved with the pool.
    - [DbProxy]: [lygc/dbproxy_base.hpp], [dbproxy_mysql.hpp], [dbproxy_redis.hpp],
      [dbproxy_mongo.hpp]; [ProxyLife]: starting and stopping them.
    - [DbClient]: [lygc/dbclient_mysql.hpp], [dbclient_redis.hpp],
      [dbclient_mongo.hpp], over the class [DbMessages].
    - [RedisClient], [RedisCommands]: [redis_client], over the class [Hiredis] of
      the driver's calls, and the pool's [handleRequest]; [RedisStrings] is what
      is assumed of a server.
    - [MysqlClient]: [mysql_client], over the class [MySQL] of the driver's calls,
      and the pool's [handleRequest].
    - [MongoClient]: [mongo_client], over the class [Mongoc] of the driver's calls,
      the pool's [handleRequest], and the functions that make requests;
      [MongoPool]: [mongo_client_pool]; [MongoPrefs]: the methods of
      [mongo_client] that the pool does not call, with the read preferences.
    - [CurlHelper]: [fszm/curl_helper.hpp], over the class [Curl] of the calls of
      libcurl with [CurlLaws], and [central_client] over it.

    ** Conventions

    A C++ object is a record of its fields; a method is a function from the
    object (and what it gets from outside) to its result and the new object,
    with the source's name. [None], or a [Fault], is undefined behaviour or an
    uncaught exception; a C++ return code is its number. Integers are [Z] with
    their wrap-around written out ([wrap], [wrapS]) where the code can reach it.
    Objects that several parts of the program refer to live in a store (a [gmap]
    from identifiers) and the parts hold identifiers.

    Threads interleave at the granularity of the code's critical sections: a
    relation [step] (with a prefix) has one rule for each, and the results of
    system calls, times and addresses are arguments of its rules, so that a
    theorem about [rtc step] holds for every schedule and every behaviour of the
    environment. Some states carry a log, or a ghost field named in its file,
    that the program does not have and no operation reads.

    ** What the theorems show

    - Transport: bytes go out in the order they were posted, whatever is
      interleaved ([WriteSide.stream_in_order]), and waiting bytes are never
      forgotten ([no_lost_wakeup]); however they are cut into [recv] calls the
      receiver sees the same frames ([TcpUser.receive_any_chunking]), or fails on
      one that is larger than 10 MB less one read; composed, what is dispatched
      is a prefix of what was posted ([TcpUser.delivery_in_order]). Queues and
      shards refine the plain queue or map they stand for; so does the buffer,
      while what it holds and one block stay below 2^31 bytes
      ([MemChunk.chunk_refines_queue]).
    - Sockets: the pollers of both systems keep what the transport relies on
      ([WinPoll.win_poller_laws], [Epoll.epoll_poller_laws]); a datagram socket
      that is not returned is closed ([SocketSetup.udp_socket_exact]).
    - Connections: the callbacks of a connection come once, and in order unless
      the monitor finds it silent while the I/O thread has not told its user yet
      ([TcpServer.connection_lifecycle], [disconnected_before_connected]), one sweep of the monitor suffices
      ([monitor_sweep]), limits hold; pools never hand a client to two threads
      ([TcpPool.pool_exclusive]); a request is never sent twice in full
      ([TcpClient.send_at_most_once]).
    - Dispatching: lanes and worker queues stay in range ([Dispatch]); a
      message cut off a stream reaches its handler at most once and only if a
      queue accepted it ([Worker.handled_at_most_once]), in order where one
      worker serves its type ([one_worker_in_order]); what the logger reports is
      what the workers did ([statistics_exact]), and a percentile lies in the
      bucket it stands for ([Stat]).
    - Timer: a slot that divides the longest one is due at its period
      ([Timer.slot_period]); the thread does these rounds ([TimerLife.timer_rounds]),
      and [stop] returns within six steps of it ([stop_returns]).
    - Life cycle: a server starts with its lanes and stops with every thread
      joined ([ServerLife.start_then_stop]), once only ([restart_cannot_stop]);
      asynchronous clients are all closed at the end
      ([AsyncLife.shutdown_closes_all]); a request server leaves no thread (the
      statistics logger's included), client or handler behind
      ([NetLife.net_run]), a proxy no pool that has a slot
      ([ProxyLife.proxy_run]).
    - ASIO: on the same bytes both transports cut the same messages, up to the
      first that is too large for the other one's cache
      ([AsioUser.transports_agree]); bytes go out in order ([asio_send]),
      messages reach the worker in order ([asio_receive]); [async_connect]
      reports at most one result ([AsioServer.async_connect_result]). A server
      that is stopped while its acceptor and its timer wait ends all its threads
      ([AsioLife.stop_ends]); where they do not, it never does
      ([stop_never_ends]), and a client waits for its peer ([client_stop_waits]).
    - Requests: a call comes back once, to its handler ([NetServer.rpc_sync]);
      a saved request is answered at most once, on its own connection
      ([answered_once]). The same holds behind the gate with encryption
      ([Gate.encrypted_call]), and for databases ([DbProxy.proxy_answers_once],
      [DbPool], [MongoPool]), where the pools are proved to refine, a step at a
      time, the view [DbProxy] has of them ([pool_refines_view]); composed, a database call gives its handler the pool's response
      ([DbClient.database_call]).
    - Databases: a transaction is always ended, and reported as a success if and
      only if it was committed ([MysqlClient.request_transaction]); every request
      is answered ([request_answered]); a Redis command ends with a reply or an
      error and leaks no connection ([RedisClient.command_contract]), what was
      stored is read ([RedisCommands.set_then_get]); a MongoDB request does what
      its type says, on the collection it names ([MongoClient.mongo_request_acts]), and closes what it opened
      ([serve_closes]); what it owned is destroyed once, without deep recursion
      ([BsonOwn.delete_exact], [bson_ptr_safe]). A query in the caller's thread
      shares no connection with the pool ([DbDirect.direct_exclusive]) unless the
      pool is taken down meanwhile ([execQuery_race]).
    - HTTP: whatever fails, a request releases what it took
      ([CurlHelper.requests_release]); what one process registers with the central
      server another gets ([register_get_over_http]); a form is never sent
      ([form_undefined]).
    - Cryptography: both sides of a handshake agree ([handshake_agreement]),
      encryption is inverted up to padding, for texts whose padded length is an
      [int] ([symmetric_roundtrip]), sessions in use always have keys of the right
      length ([Gate.sessions_usable]), unless a type is configured between the two
      reads of a handshake ([type_between_reads]); a helper
      frees the keys it points to ([HandshakeKeys.destroy_exact]), not those it
      pointed to before ([second_key_lost]).
    - Configuration: what is written is read ([Config.config_roundtrip]), groups
      are loaded as the document has them ([load_exact]), and the central server
      tells the last registration ([central_serves]).
    - Text: base64 and hexadecimal text can be read back
      ([Encode.base64_roundtrip], [hex_roundtrip]); a line of the log fits its
      buffer and is written at its level ([Logger.log_line], [log_filtered]); so
      does the description of a header ([LymsgText.lymsg_desc_full]).
    - Memory: between the calls, the table is what was given out
      ([MemTrack.table_exact]), unless a block comes back while a [realloc] of it
      is on its way ([realloc_race]).
    - Errors: some theorems state what the code does where it fails, such as
      [Gate.hostile_hello], [Openssl.aes_overread_iff],
      [DbProxy.early_answer_lost], [AsyncClient.reconnect_joins_streams],
      [AsioServer.idle_connections_stay].

    ** Fuel and bounds

    Recursion that is not structural takes fuel, and [None] says that it ran
    out; each time the fuel that suffices is proved. The receive loops
    ([Framing.drain], [TcpUser.recv_loop], [AsyncClient.a_recv_loop]) use the
    size of the receive block plus one, which is more than the bytes it holds,
    because each frame is at least its header, which is not empty
    ([Framing.drain_total]). [AsioUser.chunks] uses the length of the queue it
    cuts ([chunks_spec]). [DbReq.mongo_deserialize_rest] uses the length
    of the input plus one, each element taking at least one byte
    ([mongo_rest_total]). [SocketUtils.send_loop] uses the bytes to send times
    the retries of one step ([send_with_retry_spec]). [MysqlClient.drain_results]
    reads results while the driver has more ([drain_eventually]). [SafeQueue.pop_ncv] waits
    for the environment, and has no bound: theorems quantify over its fuel.
    Loops with a counter ([Prelude.cursor_loop], the rounds of [Timer]) recurse
    on what the counter has left.

    ** Not modelled

    - Of libmysqlclient, the options that are set before a connection is made;
      of [mongo_client], the second overload of [find], which differs from the
      first in the container of its results.
    - What the libraries do inside: ASIO's strands, composed operations and name
      resolution, the driver's and libcurl's transfers and OpenSSL's primitives
      are interfaces, used through what their documentation promises.
    - The messages that the program writes to its log, where no other result
      depends on them, and the [desc] and [status] of the other classes.
    - The programs under [src/examples], which use the library and have no logic
      of their own.
    - Memory orderings: an atomic operation is one step. Data races are not a
      notion of the model, except where a step is split to show one. *)

From Stdlib Require Export ZArith Lia.
From Stdlib Require Export Strings.Byte.
From stdpp Require Export base list gmap relations.
From stdpp Require Import option.
#[global] Open Scope Z_scope.

(** ** Bytes and machine integers *)

(** A [std::string], or any raw buffer, is a list of bytes. *)
Abbreviation bytes := (list byte).

#[export] Instance byte_eq_dec : EqDecision byte := Byte.byte_eq_dec.
#[export] Instance byte_inhabited : Inhabited byte := populate x00.

(** [std::string::size()] and [std::vector::size()]. *)
Definition size_of {A} (l : list A) : Z := Z.of_nat (length l).

Definition Z_of_byte (b : byte) : Z := Z.of_N (Byte.to_N b).

(** The cast to [uint8_t] of any integer. *)
Definition byte_of_Z (z : Z) : byte :=
  match Byte.of_N (Z.to_N (z mod 256)) with
  | Some b => b
  | None => x00
  end.

(** Conversion to a [w]-bit unsigned integer. *)
Definition wrap (w z : Z) : Z := z mod 2 ^ w.

(** Conversion to a [w]-bit two's complement integer. *)
Definition swrap (w z : Z) : Z := (z + 2 ^ (w - 1)) mod 2 ^ w - 2 ^ (w - 1).

(** The value fits in a [w]-bit unsigned integer. *)
Definition in_uint (w z : Z) : Prop := 0 <= z < 2 ^ w.

(** The value fits in a [w]-bit signed integer. *)
Definition in_sint (w z : Z) : Prop := - 2 ^ (w - 1) <= z < 2 ^ (w - 1).

(** The object representation of an [n]-byte unsigned integer on a
    little-endian host, and the integer read back from it. *)
Fixpoint le_bytes (n : nat) (z : Z) : bytes :=
  match n with
  | O => []
  | S n => byte_of_Z z :: le_bytes n (z / 256)
  end.

Fixpoint le_val (bs : bytes) : Z :=
  match bs with
  | [] => 0
  | b :: bs => Z_of_byte b + 256 * le_val bs
  end.

(** The same in network byte order. *)
Definition be_bytes (n : nat) (z : Z) : bytes := reverse (le_bytes n z).
Definition be_val (bs : bytes) : Z := le_val (reverse bs).

(** [htons]/[htonl] (and [ntohs]/[ntohl]) on a little-endian host: the
    integer whose object representation is the reversed one. *)
Definition bswap (n : nat) (z : Z) : Z := be_val (le_bytes n z).

(** [n]-byte slices of a buffer: [memcpy] out of it, [substr]. *)
Definition sub_bytes (off n : Z) (bs : bytes) : bytes :=
  take (Z.to_nat n) (drop (Z.to_nat off) bs).

(** ** Automation *)

Create HintDb tszy.
Create Rewrite HintDb sizes.

(** Case analysis on the conditions the code tests. *)
Ltac case_if :=
  match goal with
  | |- context [if ?c then _ else _] => destruct c eqn:?
  | H : context [if ?c then _ else _] |- _ => destruct c eqn:?
  end.

Ltac case_match_in H :=
  match type of H with
  | context [match ?x with _ => _ end] => destruct x eqn:?
  end.

(** Boolean comparisons on [Z] to propositions. *)
Ltac bool_Z :=
  repeat match goal with
  | H : (_ <? _) = true |- _ => apply Z.ltb_lt in H
  | H : (_ <? _) = false |- _ => apply Z.ltb_ge in H
  | H : (_ <=? _) = true |- _ => apply Z.leb_le in H
  | H : (_ <=? _) = false |- _ => apply Z.leb_gt in H
  | H : (_ =? _) = true |- _ => apply Z.eqb_eq in H
  | H : (_ =? _) = false |- _ => apply Z.eqb_neq in H
  | H : (_ >? _) = _ |- _ => rewrite Z.gtb_ltb in H
  | H : (_ >=? _) = _ |- _ => rewrite Z.geb_leb in H
  | H : (_ && _) = true |- _ => apply andb_prop in H as [? ?]
  | H : (_ || _) = false |- _ => apply orb_false_elim in H as [? ?]
  | H : negb _ = true |- _ => apply negb_true_iff in H
  | H : negb _ = false |- _ => apply negb_false_iff in H
  end.

Ltac invert H := inversion H; clear H; simplify_eq.

(** ** Sizes *)

Lemma size_of_nonneg {A} (l : list A) : 0 <= size_of l.
Proof. unfold size_of. lia. Qed.

Lemma size_of_app {A} (l k : list A) : size_of (l ++ k) = size_of l + size_of k.
Proof. unfold size_of. rewrite length_app. lia. Qed.

Lemma size_of_cons {A} (x : A) l : size_of (x :: l) = 1 + size_of l.
Proof. unfold size_of. simpl. lia. Qed.

Lemma size_of_nil {A} : size_of (@nil A) = 0.
Proof. reflexivity. Qed.

Lemma size_of_take {A} n (l : list A) :
  0 <= n <= size_of l -> size_of (take (Z.to_nat n) l) = n.
Proof. unfold size_of. intros. rewrite length_take. lia. Qed.

Lemma size_of_drop {A} n (l : list A) :
  0 <= n <= size_of l -> size_of (drop (Z.to_nat n) l) = size_of l - n.
Proof. unfold size_of. intros. rewrite length_drop. lia. Qed.

Lemma size_of_zero {A} (l : list A) : size_of l = 0 -> l = [].
Proof. unfold size_of. destruct l; simpl; [done | lia]. Qed.

#[export] Hint Rewrite @size_of_app @size_of_cons @size_of_nil : sizes.
#[export] Hint Resolve size_of_nonneg : tszy.

Lemma take_size_app {A} (l k : list A) : take (Z.to_nat (size_of l)) (l ++ k) = l.
Proof. unfold size_of. rewrite Nat2Z.id. apply take_app_length. Qed.

Lemma drop_size_app {A} (l k : list A) : drop (Z.to_nat (size_of l)) (l ++ k) = k.
Proof. unfold size_of. rewrite Nat2Z.id. apply drop_app_length. Qed.

Lemma take_Z_app_le {A} n (l k : list A) :
  0 <= n <= size_of l -> take (Z.to_nat n) (l ++ k) = take (Z.to_nat n) l.
Proof. unfold size_of. intros. apply take_app_le. lia. Qed.

Lemma drop_Z_app_le {A} n (l k : list A) :
  0 <= n <= size_of l -> drop (Z.to_nat n) (l ++ k) = drop (Z.to_nat n) l ++ k.
Proof. unfold size_of. intros. apply drop_app_le. lia. Qed.

(** ** Machine integers *)

Lemma wrap_range w z : 0 <= w -> in_uint w (wrap w z).
Proof. intros. apply Z.mod_pos_bound. lia. Qed.

Lemma wrap_id w z : in_uint w z -> wrap w z = z.
Proof. intros. by apply Z.mod_small. Qed.

Lemma swrap_id w z : 0 < w -> in_sint w z -> swrap w z = z.
Proof.
  unfold in_sint, swrap. intros Hw Hz.
  assert (2 ^ w = 2 * 2 ^ (w - 1)) as E.
  { rewrite <- Z.pow_succ_r by lia. f_equal. lia. }
  rewrite Z.mod_small; lia.
Qed.

Lemma swrap_range w z : 0 < w -> in_sint w (swrap w z).
Proof.
  intros Hw. unfold in_sint, swrap. pose proof (Z.mod_pos_bound (z + 2 ^ (w - 1)) (2 ^ w) ltac:(lia)).
  assert (2 ^ w = 2 * 2 ^ (w - 1)) as E by (rewrite <- Z.pow_succ_r by lia; f_equal; lia). lia.
Qed.

Lemma swrap_wrap w z : 0 < w -> swrap w (wrap w z) = swrap w z.
Proof.
  intros Hw. unfold swrap, wrap. rewrite Zplus_mod_idemp_l. done.
Qed.

Lemma wrap_swrap w z : 0 < w -> wrap w (swrap w z) = wrap w z.
Proof.
  intros Hw. unfold swrap, wrap.
  rewrite Zminus_mod_idemp_l. f_equal. lia.
Qed.

(** ** Bytes *)

Lemma Z_of_byte_range b : 0 <= Z_of_byte b < 256.
Proof. unfold Z_of_byte. pose proof (Byte.to_N_bounded b). lia. Qed.

Lemma byte_of_Z_of_byte b : byte_of_Z (Z_of_byte b) = b.
Proof.
  unfold byte_of_Z. rewrite Z.mod_small by apply Z_of_byte_range.
  unfold Z_of_byte. rewrite N2Z.id, Byte.of_to_N. done.
Qed.

Lemma Z_of_byte_of_Z z : Z_of_byte (byte_of_Z z) = z mod 256.
Proof.
  unfold byte_of_Z.
  pose proof (Z.mod_pos_bound z 256 ltac:(lia)) as Hr.
  destruct (Byte.of_N (Z.to_N (z mod 256))) as [b|] eqn:E.
  - apply Byte.to_of_N in E. unfold Z_of_byte. rewrite E. lia.
  - apply Byte.of_N_None_iff in E. lia.
Qed.

Lemma length_le_bytes n z : length (le_bytes n z) = n.
Proof. revert z. induction n; intros; simpl; congruence. Qed.

Lemma length_be_bytes n z : length (be_bytes n z) = n.
Proof. unfold be_bytes. by rewrite length_reverse, length_le_bytes. Qed.

Lemma size_be_bytes n z : size_of (be_bytes n z) = Z.of_nat n.
Proof. unfold size_of. by rewrite length_be_bytes. Qed.

#[export] Hint Rewrite length_le_bytes length_be_bytes : sizes.
#[export] Hint Rewrite size_be_bytes : sizes.

Lemma le_val_range bs : 0 <= le_val bs < 2 ^ (8 * size_of bs).
Proof.
  induction bs as [|b bs IH]; [done|].
  rewrite size_of_cons. pose proof (Z_of_byte_range b). pose proof (size_of_nonneg bs).
  replace (8 * (1 + size_of bs)) with (8 + 8 * size_of bs) by lia.
  rewrite Z.pow_add_r by lia. cbn [le_val]. lia.
Qed.

Lemma be_val_range bs : 0 <= be_val bs < 2 ^ (8 * size_of bs).
Proof.
  unfold be_val. pose proof (le_val_range (reverse bs)) as H.
  unfold size_of in *. by rewrite length_reverse in H.
Qed.

Lemma le_val_le_bytes n z : le_val (le_bytes n z) = z mod 2 ^ (8 * Z.of_nat n).
Proof.
  revert z. induction n as [|n IH]; intros z; cbn [le_bytes le_val].
  - by rewrite Z.mod_1_r.
  - rewrite IH, Z_of_byte_of_Z.
    replace (8 * Z.of_nat (S n)) with (8 + 8 * Z.of_nat n) by lia.
    rewrite Z.pow_add_r by lia. change (2 ^ 8) with 256.
    rewrite Z.rem_mul_r by lia. done.
Qed.

Lemma le_bytes_le_val bs : le_bytes (length bs) (le_val bs) = bs.
Proof.
  induction bs as [|b bs IH]; cbn [length le_bytes le_val]; [done|].
  pose proof (Z_of_byte_range b).
  f_equal.
  - rewrite <- (byte_of_Z_of_byte b) at 2. unfold byte_of_Z.
    replace ((Z_of_byte b + 256 * le_val bs) mod 256) with (Z_of_byte b mod 256); [done|].
    rewrite Z.mul_comm, Z.mod_add; lia.
  - replace ((Z_of_byte b + 256 * le_val bs) / 256) with (le_val bs); [done|].
    rewrite Z.mul_comm, Z.div_add by lia. rewrite Z.div_small; lia.
Qed.

Lemma be_val_be_bytes n z : be_val (be_bytes n z) = z mod 2 ^ (8 * Z.of_nat n).
Proof. unfold be_val, be_bytes. rewrite reverse_involutive. apply le_val_le_bytes. Qed.

Lemma be_bytes_be_val bs : be_bytes (length bs) (be_val bs) = bs.
Proof.
  unfold be_val, be_bytes. rewrite <- (length_reverse bs), le_bytes_le_val.
  apply reverse_involutive.
Qed.

(** Storing a swapped integer writes the network byte order. *)
Lemma le_bytes_bswap n z : le_bytes n (bswap n z) = be_bytes n z.
Proof.
  unfold bswap, be_val, be_bytes.
  rewrite <- (length_le_bytes n z) at 1. rewrite <- (length_reverse (le_bytes n z)).
  apply le_bytes_le_val.
Qed.

(** Swapping what was loaded reads the network byte order. *)
Lemma bswap_le_val bs : bswap (length bs) (le_val bs) = be_val bs.
Proof. unfold bswap. by rewrite le_bytes_le_val. Qed.

Lemma bswap_range n z : in_uint (8 * Z.of_nat n) (bswap n z).
Proof.
  unfold bswap, in_uint. pose proof (be_val_range (le_bytes n z)) as H.
  unfold size_of in H. by rewrite length_le_bytes in H.
Qed.

Lemma bswap_involutive n z : bswap n (bswap n z) = z mod 2 ^ (8 * Z.of_nat n).
Proof. unfold bswap at 1. rewrite le_bytes_bswap. apply be_val_be_bytes. Qed.

Lemma be_bytes_wrap n z : be_bytes n (z mod 2 ^ (8 * Z.of_nat n)) = be_bytes n z.
Proof.
  rewrite <- be_val_be_bytes. rewrite <- (length_be_bytes n z) at 1.
  apply be_bytes_be_val.
Qed.

(** ** Bit fields *)

Lemma lor_shiftl_add t k n : 0 <= k -> 0 <= n < 2 ^ k -> Z.lor (Z.shiftl t k) n = t * 2 ^ k + n.
Proof.
  intros Hk Hn. rewrite <- Z.shiftl_mul_pow2 by done.
  rewrite <- Z.lxor_lor, <- Z.add_nocarry_lxor; [done|..].
  all: apply Z.bits_inj'; intros i Hi; rewrite Z.land_spec, Z.bits_0.
  all: destruct (Z.ltb_spec i k); [by rewrite Z.shiftl_spec_low|].
  all: apply andb_false_iff; right.
  all: rewrite Z.testbit_eqb by lia; apply Z.eqb_neq.
  all: rewrite Z.div_small; [done|].
  all: split; [lia|]; apply Z.lt_le_trans with (2 ^ k); [lia|]; apply Z.pow_le_mono_r; lia.
Qed.

Lemma shiftr_high_field hdr k w :
  0 <= k -> 0 <= w -> in_uint (k + w) hdr ->
  Z.shiftr (Z.land hdr (Z.shiftl (Z.ones w) k)) k = hdr / 2 ^ k.
Proof.
  intros Hk Hw [H0 H1]. rewrite Z.shiftr_land, Z.shiftr_shiftl_l, Z.sub_diag, Z.shiftl_0_r by lia.
  rewrite Z.land_ones, Z.shiftr_div_pow2 by lia. apply Z.mod_small. split.
  - apply Z.div_pos; lia.
  - apply Z.div_lt_upper_bound; [lia|]. by rewrite <- Z.pow_add_r.
Qed.

(** Reading a list from the front of a longer one. *)
Lemma take_prefix {A} (l k : list A) n : Z.of_nat n = size_of l -> take n (l ++ k) = l.
Proof. unfold size_of. intros. apply take_app_length'. lia. Qed.

Lemma drop_prefix {A} (l k : list A) n : Z.of_nat n = size_of l -> drop n (l ++ k) = k.
Proof. unfold size_of. intros. apply drop_app_length'. lia. Qed.

Lemma lor_range k a b : 0 <= k -> in_uint k a -> in_uint k b -> in_uint k (Z.lor a b).
Proof.
  intros Hk Ha Hb. rewrite <- (wrap_id k a), <- (wrap_id k b) by done. unfold wrap.
  rewrite <- !Z.land_ones, <- Z.land_lor_distr_l, Z.land_ones by done.
  by apply wrap_range.
Qed.

Lemma land_range k a b : 0 <= k -> in_uint k b -> in_uint k (Z.land a b).
Proof.
  intros Hk Hb. rewrite <- (wrap_id k b) by done. unfold wrap.
  rewrite <- Z.land_ones, Z.land_assoc, Z.land_ones by done.
  by apply wrap_range.
Qed.

(** ** Splitting byte images *)

Lemma le_bytes_app n m z :
  le_bytes (n + m) z = le_bytes n z ++ le_bytes m (z / 2 ^ (8 * Z.of_nat n)).
Proof.
  revert z. induction n as [|n IH]; intros z; cbn [Nat.add le_bytes app].
  - change (2 ^ (8 * Z.of_nat 0)) with 1. by rewrite Z.div_1_r.
  - rewrite IH, Z.div_div by lia.
    replace (8 * Z.of_nat (S n)) with (8 + 8 * Z.of_nat n) by lia.
    rewrite Z.pow_add_r by lia. done.
Qed.

Lemma le_bytes_wrap n z : le_bytes n (z mod 2 ^ (8 * Z.of_nat n)) = le_bytes n z.
Proof.
  rewrite <- le_val_le_bytes. rewrite <- (length_le_bytes n z) at 1. apply le_bytes_le_val.
Qed.

Lemma le_val_app l k : le_val (l ++ k) = le_val l + 2 ^ (8 * size_of l) * le_val k.
Proof.
  induction l as [|b l IH]; cbn [app le_val].
  - change (2 ^ (8 * size_of (@nil byte))) with 1. lia.
  - rewrite IH, size_of_cons. pose proof (size_of_nonneg l).
    replace (8 * (1 + size_of l)) with (8 + 8 * size_of l) by lia.
    rewrite Z.pow_add_r by lia. lia.
Qed.

Lemma be_val_app l k : be_val (l ++ k) = be_val l * 2 ^ (8 * size_of k) + be_val k.
Proof.
  unfold be_val. rewrite reverse_app, le_val_app. unfold size_of. rewrite length_reverse. lia.
Qed.

Lemma bswap_app n m z :
  bswap (n + m) z = bswap n z * 2 ^ (8 * Z.of_nat m) + bswap m (z / 2 ^ (8 * Z.of_nat n)).
Proof.
  unfold bswap. rewrite le_bytes_app, be_val_app. unfold size_of. by rewrite length_le_bytes.
Qed.

Lemma bswap_wrap n z : bswap n (z mod 2 ^ (8 * Z.of_nat n)) = bswap n z.
Proof. unfold bswap. by rewrite le_bytes_wrap. Qed.

(** Slices of a concatenation. *)
Lemma sub_bytes_here off n l k : off = 0 -> n = size_of l -> sub_bytes off n (l ++ k) = l.
Proof. intros -> ->. unfold sub_bytes. rewrite drop_0. apply take_size_app. Qed.

Lemma sub_bytes_skip off n l k :
  size_of l <= off -> sub_bytes off n (l ++ k) = sub_bytes (off - size_of l) n k.
Proof.
  intros Hle. pose proof (size_of_nonneg l). unfold sub_bytes. f_equal.
  rewrite drop_app_ge by (unfold size_of in *; lia). f_equal. unfold size_of. lia.
Qed.

Lemma size_le_bytes n z : size_of (le_bytes n z) = Z.of_nat n.
Proof. unfold size_of. by rewrite length_le_bytes. Qed.
#[export] Hint Rewrite size_le_bytes : sizes.

#[global] Arguments le_bytes : simpl never.
#[global] Arguments le_val : simpl never.
#[global] Arguments be_bytes : simpl never.
#[global] Arguments be_val : simpl never.
#[global] Arguments bswap : simpl never.
#[global] Arguments size_of : simpl never.
#[global] Arguments wrap : simpl never.
#[global] Arguments swrap : simpl never.

(** ** Cyclic scans

    [for (i < n) { if (cursor == v.size()) cursor = 0; x = v[cursor++];
    if (ok(x)) break; }]: the position of the element found and the cursor, an
    [int]; [None] when the code indexes outside the vector. *)

Fixpoint cursor_loop {A} (ok : A -> bool) (n : nat) (l : list A) (cursor : Z) : option (option nat * Z) :=
  match n with
  | O => Some (None, cursor)
  | S n =>
      let cursor := if cursor =? size_of l then 0 else cursor in
      match l !! Z.to_nat cursor with
      | None => None
      | Some x =>
          let cursor' := swrap 32 (cursor + 1) in
          if ok x then Some (Some (Z.to_nat cursor), cursor') else cursor_loop ok n l cursor'
      end
  end.

(** The element at position [z], cyclically, is not accepted. *)
Definition refused_at {A} (ok : A -> bool) (l : list A) (z : Z) : Prop :=
  exists x, l !! Z.to_nat (z mod size_of l) = Some x /\ ok x = false.

Lemma cursor_loop_spec {A} (ok : A -> bool) n (l : list A) cursor :
  0 <= cursor <= size_of l -> size_of l < 2 ^ 31 - 1 -> (0 < n)%nat -> 0 < size_of l ->
  exists r cursor', cursor_loop ok n l cursor = Some (r, cursor') /\ 0 <= cursor' <= size_of l /\
    match r with
    | Some i => exists j x, 0 <= j < Z.of_nat n /\ i = Z.to_nat ((cursor + j) mod size_of l) /\
        l !! i = Some x /\ ok x = true /\ (forall j', 0 <= j' < j -> refused_at ok l (cursor + j'))
    | None => forall j', 0 <= j' < Z.of_nat n -> refused_at ok l (cursor + j')
    end.
Proof.
  intros Hc Hmax Hn Hpos. revert cursor Hc. induction n as [|n IH]; [lia|]. intros cursor Hc. cbn [cursor_loop].
  assert ((if cursor =? size_of l then 0 else cursor) = cursor mod size_of l) as ->.
  { destruct (Z.eqb_spec cursor (size_of l)) as [->|]; [by rewrite Z_mod_same_full|].
    symmetry. apply Z.mod_small. lia. }
  pose proof (Z.mod_pos_bound cursor (size_of l) Hpos) as Hm. set (m := cursor mod size_of l) in *.
  destruct (l !! Z.to_nat m) as [x|] eqn:Hl.
  2:{ apply lookup_ge_None in Hl. unfold size_of in Hm. lia. }
  rewrite swrap_id; [|done|unfold in_sint; change (2 ^ (32 - 1)) with (2 ^ 31); lia].
  destruct (ok x) eqn:Hv.
  - exists (Some (Z.to_nat m)), (m + 1). split; [done|]. split; [lia|].
    exists 0, x. rewrite Z.add_0_r. split_and!; try done; try lia.
  - assert (refused_at ok l (cursor + 0)) as H0 by (exists x; by rewrite Z.add_0_r).
    assert (forall j, (m + 1 + j) mod size_of l = (cursor + (j + 1)) mod size_of l) as Hj.
    { intros j. unfold m. rewrite <- Z.add_assoc, Zplus_mod_idemp_l. f_equal. lia. }
    assert (forall j, refused_at ok l (m + 1 + j) -> refused_at ok l (cursor + (j + 1))) as Hi.
    { intros j (y & H1 & H2). rewrite Hj in H1. by exists y. }
    destruct n as [|n'].
    + exists None, (m + 1). split; [done|]. split; [lia|]. intros j' ?. by replace j' with 0 by lia.
    + destruct (IH ltac:(lia) (m + 1)) as (r & cursor' & -> & Hc' & Hr); [lia|].
      exists r, cursor'. do 2 (split; [done|]). destruct r as [i|].
      * destruct Hr as (j & y & Hj1 & -> & Hl' & Hv' & Hall). exists (j + 1), y. rewrite Hj in *.
        split_and!; try done; try lia. intros j' ?. destruct (decide (j' = 0)) as [->|]; [done|].
        replace j' with (j' - 1 + 1) by lia. apply Hi, Hall. lia.
      * intros j' ?. destruct (decide (j' = 0)) as [->|]; [done|].
        replace j' with (j' - 1 + 1) by lia. apply Hi, Hr. lia.
Qed.

(** A scan of the whole vector finds the first element accepted, or none is. *)
Lemma cursor_scan {A} (ok : A -> bool) (l : list A) cursor :
  0 <= cursor <= size_of l -> size_of l < 2 ^ 31 - 1 ->
  exists r cursor', cursor_loop ok (length l) l cursor = Some (r, cursor') /\ 0 <= cursor' <= size_of l /\
    match r with
    | Some i => exists j x, 0 <= j < size_of l /\ i = Z.to_nat ((cursor + j) mod size_of l) /\
        l !! i = Some x /\ ok x = true /\ (forall j', 0 <= j' < j -> refused_at ok l (cursor + j'))
    | None => Forall (fun x => ok x = false) l
    end.
Proof.
  intros Hc Hmax. destruct (decide (l = [])) as [->|E].
  - exists None, cursor. split; [done|]. done.
  - assert (0 < size_of l) as Hpos.
    { destruct l as [|a l]; [done|]. rewrite size_of_cons. pose proof (size_of_nonneg l). lia. }
    destruct (cursor_loop_spec ok (length l) l cursor) as (r & c' & -> & Hc' & Hr);
      try done; [unfold size_of in Hpos; lia|].
    exists r, c'. do 2 (split; [done|]). destruct r as [i|]; [exact Hr|].
    apply Forall_lookup. intros i x Hl.
    destruct (Hr ((Z.of_nat i - cursor) mod size_of l)) as (y & Hl' & Hv); [by apply Z.mod_pos_bound|].
    rewrite Zplus_mod_idemp_r in Hl'. replace (cursor + (Z.of_nat i - cursor)) with (Z.of_nat i) in Hl' by lia.
    apply lookup_lt_Some in Hl as Hlt. rewrite Z.mod_small, Nat2Z.id in Hl' by (unfold size_of; lia). congruence.
Qed.

(** What holds of every element and what is before it still holds when one is
    added at the end. *)
Lemma snoc_events {E} (P : list E -> E -> Prop) (l : list E) e :
  (forall pre x post, l = pre ++ x :: post -> P pre x) -> P l e ->
  forall pre x post, l ++ [e] = pre ++ x :: post -> P pre x.
Proof.
  intros Hl He pre x post Heq. destruct (decide (length post = 0%nat)) as [Hp|Hp].
  - destruct post; [|done]. by apply app_inj_tail in Heq as [<- <-].
  - destruct (exists_last (l := post)) as (post' & y & ->); [by intros ->|].
    rewrite app_comm_cons, app_assoc in Heq. apply app_inj_tail in Heq as [Heq _]. by eapply Hl.
Qed.
