(* ===== verification/Effect.v ===== *)
(** * Computations with a state

    [eff S A]: a computation on a state [S] that returns an [A], or does not
    return ([None]: undefined behaviour, or fuel that did not suffice). [exc] is
    a computation that may also jump to the end with a code, as [goto exit]
    does. [spec] states what holds if a computation returns, [eventually] that
    it returns with enough fuel. *)

From S2P Require Import Prelude.

Definition eff (S A : Type) : Type := S -> option (A * S).

Section effects.
Context {S : Type}.

Definition ret {A} (a : A) : eff S A := fun s => Some (a, s).
Definition bind {A B} (m : eff S A) (f : A -> eff S B) : eff S B :=
  fun s => match m s with Some (a, s) => f a s | None => None end.
Definition undefined {A} : eff S A := fun _ => None.
Definition of_option {A} (o : option A) : eff S A := match o with Some a => ret a | None => undefined end.
Definition gets {A} (f : S -> A) : eff S A := fun s => Some (f s, s).
Definition modify (f : S -> S) : eff S unit := fun s => Some (tt, f s).

Definition exc (A : Type) : Type := eff S (Z + A).
Definition continue {A} (a : A) : exc A := ret (inr a).
Definition exit_with {A} (code : Z) : exc A := ret (inl code).
Definition ebind {A B} (m : exc A) (f : A -> exc B) : exc B :=
  bind m (fun r => match r with inl code => ret (inl code) | inr a => f a end).
End effects.
Arguments exc : clear implicits.

Declare Scope effect_scope.
Delimit Scope effect_scope with effect.
Notation "'let*' x ':=' m 'in' k" := (bind m (fun x => k)) (at level 10, x name, k at level 200) : effect_scope.
Notation "'let^' x ':=' m 'in' k" := (ebind m (fun x => k)) (at level 10, x name, k at level 200) : effect_scope.
Notation "m ';;' k" := (bind m (fun _ => k)) (at level 100, k at level 200, right associativity) : effect_scope.

(** ** What holds when a computation returns *)

Section rules.
Context {S : Type}.

Definition spec {A} (m : eff S A) (s : S) (Q : A -> S -> Prop) : Prop :=
  forall a s', m s = Some (a, s') -> Q a s'.

Lemma spec_ret {A} (a : A) s Q : Q a s -> spec (ret a) s Q.
Proof. by intros H ? ? [= <- <-]. Qed.

Lemma spec_bind {A B} (m : eff S A) (f : A -> eff S B) s Q :
  spec m s (fun a s' => spec (f a) s' Q) -> spec (bind m f) s Q.
Proof. intros H b s' E. unfold bind in E. destruct (m s) as [[a s1]|] eqn:Em; [|done]. by eapply H. Qed.

Lemma spec_undefined {A} s (Q : A -> S -> Prop) : spec undefined s Q.
Proof. done. Qed.

Lemma spec_of_option {A} (o : option A) s (Q : A -> S -> Prop) : (forall a, o = Some a -> Q a s) -> spec (of_option o) s Q.
Proof. destruct o as [a|]; [|done]. intros H. apply spec_ret. by apply H. Qed.

Lemma spec_mono {A} (m : eff S A) s (Q Q' : A -> S -> Prop) :
  spec m s Q -> (forall a s', Q a s' -> Q' a s') -> spec m s Q'.
Proof. intros H HQ a s' E. apply HQ. by apply H. Qed.

Lemma spec_gets {A} (f : S -> A) s Q : Q (f s) s -> spec (gets f) s Q.
Proof. by intros H ? ? [= <- <-]. Qed.

Lemma spec_modify (f : S -> S) s (Q : unit -> S -> Prop) : Q tt (f s) -> spec (modify f) s Q.
Proof. by intros H ? ? [= <- <-]. Qed.

Lemma spec_ebind {A B} (m : exc S A) (f : A -> exc S B) s Q :
  spec m s (fun r s' => match r with inl code => Q (inl code) s' | inr a => spec (f a) s' Q end) ->
  spec (ebind m f) s Q.
Proof.
  intros H. apply spec_bind. eapply spec_mono; [exact H|]. intros [code|a] s' Hq; [by apply spec_ret|done].
Qed.

(** ** Computations that return *)

Lemma bind_eq {A B} (m : eff S A) (k : A -> eff S B) s a s' : m s = Some (a, s') -> bind m k s = k a s'.
Proof. unfold bind. by intros ->. Qed.

Lemma some_bind {A B} (m : eff S A) (k : A -> eff S B) s :
  is_Some (m s) -> (forall a s', m s = Some (a, s') -> is_Some (k a s')) -> is_Some (bind m k s).
Proof. intros [[a s'] E] H. unfold bind. rewrite E. by apply H. Qed.

Lemma some_ebind {A B} (m : exc S A) (k : A -> exc S B) s :
  is_Some (m s) -> (forall a s', m s = Some (inr a, s') -> is_Some (k a s')) -> is_Some (ebind m k s).
Proof. intros Hm H. apply some_bind; [done|]. intros [code|a] s' E; [by eexists|by apply H]. Qed.

(** With enough fuel, [m] returns, always the same. *)
Definition eventually {A} (m : nat -> eff S A) (s : S) : Prop :=
  exists f0 a s', forall f, (f0 <= f)%nat -> m f s = Some (a, s').

Lemma eventually_now {A} (m : eff S A) s : is_Some (m s) -> eventually (fun _ => m) s.
Proof. intros [[a s'] E]. by exists O, a, s'. Qed.

Lemma eventually_bind {A B} (m : nat -> eff S A) (k : nat -> A -> eff S B) s :
  eventually m s -> (forall f a s', m f s = Some (a, s') -> eventually (fun f => k f a) s') ->
  eventually (fun f => bind (m f) (k f)) s.
Proof.
  intros (f0 & a & s1 & H) Hk. destruct (Hk f0 a s1 (H f0 (le_n _))) as (f1 & b & s2 & H').
  exists (f0 + f1)%nat, b, s2. intros f Hf. unfold bind. rewrite H by lia. apply H'. lia.
Qed.
End rules.
