(* ===== verification/MemTrack.v ===== *)
(** * Memory accounting ([zbf/mem_alloc.hpp], with [ZBF_TRACE_MEMORY])

    The table of the blocks in use, the allocating functions around it, and
    what threads make of them together: a call of the C library and the critical
    section on the table are two steps. [live] is a ghost, the blocks that the C
    library has given out, with what the table should say of them. *)

From S2P Require Import Prelude.

(** [s_memTrackTable]: the place of the allocation, and the size as an [int]. *)
Abbreviation entry := (bytes * Z)%type.
Abbreviation table := (gmap Z entry).

Definition entry_of (size : Z) (tag : bytes) : entry := (tag, swrap 32 size).

(** [_TRACK_MEM], [_RETRACK_MEM], [_UNTRACK_MEM]. An entry that is there stays. *)
Definition TRACK_MEM (mem size : Z) (tag : bytes) (t : table) : table :=
  match t !! mem with Some _ => t | None => <[mem := entry_of size tag]> t end.
Definition RETRACK_MEM (mem : option Z) (new_mem size : Z) (tag : bytes) (t : table) : table :=
  TRACK_MEM new_mem size tag (match mem with Some m => delete m t | None => t end).
Definition UNTRACK_MEM (mem : Z) (t : table) : table := delete mem t.

(** The functions, by one thread; [mem] is what the C library returned, and
    [None] as a result is [exit(1)]. *)
Definition malloc (mem : option Z) (size : Z) (tag : bytes) (t : table) : option (Z * table) :=
  match mem with Some m => Some (m, TRACK_MEM m size tag t) | None => None end.
Definition realloc (old mem : option Z) (size : Z) (tag : bytes) (t : table) : option (Z * table) :=
  match mem with Some m => Some (m, RETRACK_MEM old m size tag t) | None => None end.
Definition calloc (mem : option Z) (n size : Z) (tag : bytes) (t : table) : option (Z * table) :=
  match mem with Some m => Some (m, TRACK_MEM m (wrap 64 (n * size)) tag t) | None => None end.
Definition free (mem : option Z) (t : table) : table := match mem with Some m => UNTRACK_MEM m t | None => t end.

(** ** Threads *)

(** A thread between the call of the C library and the critical section, or,
    in [free] and the destructor, between the critical section and the call. *)
Inductive flight :=
| ToTrack (mem size : Z) (tag : bytes)
| ToRetrack (mem : option Z) (new_mem size : Z) (tag : bytes)
| ToFree (mem : Z).

Record memory := MkMemory { live : gmap Z entry; tracked : table; flying : list flight }.

(** The addresses a flight is about. *)
Definition about (f : flight) : list Z :=
  match f with
  | ToTrack m _ _ => [m]
  | ToRetrack old m _ _ => match old with Some o => if decide (o = m) then [m] else [o; m] | None => [m] end
  | ToFree m => [m]
  end.
Definition in_flight (s : memory) : list Z := concat (map about (flying s)).

(** The block that a [realloc] in flight has given back. *)
Definition given_back (s : memory) : list Z :=
  concat (map (fun f => match f with ToRetrack (Some o) m _ _ => if decide (o = m) then [] else [o] | _ => [] end) (flying s)).

(** A program uses a block after it was returned to it and before it is freed.
    [reuse]: the C library may give out a block again whose [realloc] has not yet
    reached the table. Objects with an [object_tracker] are blocks as well, made
    by [new]. *)
Inductive mstep (reuse : bool) : memory -> memory -> Prop :=
| ms_alloc s m size tag : live s !! m = None -> (reuse = true \/ m ∉ given_back s) ->
    mstep reuse s (MkMemory (<[m := entry_of size tag]> (live s)) (tracked s) (ToTrack m size tag :: flying s))
| ms_track s f1 m size tag f2 : flying s = f1 ++ ToTrack m size tag :: f2 ->
    mstep reuse s (MkMemory (live s) (TRACK_MEM m size tag (tracked s)) (f1 ++ f2))
| ms_realloc s old m size tag : (forall o, old = Some o -> is_Some (live s !! o) /\ o ∉ in_flight s) ->
    (old = Some m \/ live s !! m = None /\ (reuse = true \/ m ∉ given_back s)) ->
    mstep reuse s (MkMemory (<[m := entry_of size tag]> (match old with Some o => delete o (live s) | None => live s end))
                     (tracked s) (ToRetrack old m size tag :: flying s))
| ms_retrack s f1 old m size tag f2 : flying s = f1 ++ ToRetrack old m size tag :: f2 ->
    mstep reuse s (MkMemory (live s) (RETRACK_MEM old m size tag (tracked s)) (f1 ++ f2))
| ms_untrack s m : is_Some (live s !! m) -> m ∉ in_flight s ->
    mstep reuse s (MkMemory (live s) (UNTRACK_MEM m (tracked s)) (ToFree m :: flying s))
| ms_free s f1 m f2 : flying s = f1 ++ ToFree m :: f2 ->
    mstep reuse s (MkMemory (delete m (live s)) (tracked s) (f1 ++ f2)).

Definition no_memory : memory := MkMemory ∅ ∅ [].

(** ** The table is exact *)

Definition flight_ok (s : memory) (f : flight) : Prop :=
  match f with
  | ToTrack m size tag => live s !! m = Some (entry_of size tag) /\ tracked s !! m = None
  | ToRetrack old m size tag => live s !! m = Some (entry_of size tag) /\
      (old <> Some m -> tracked s !! m = None) /\ (forall o, old = Some o -> o <> m -> live s !! o = None)
  | ToFree m => is_Some (live s !! m) /\ tracked s !! m = None
  end.

Record mem_inv (s : memory) : Prop := {
  me_rest : forall a, a ∉ in_flight s -> tracked s !! a = live s !! a;
  me_once : NoDup (in_flight s);
  me_flights : Forall (flight_ok s) (flying s);
}.

Lemma flight_split (s : memory) f1 f f2 : flying s = f1 ++ f :: f2 ->
  in_flight s ≡ₚ about f ++ concat (map about (f1 ++ f2)).
Proof. unfold in_flight. intros ->. rewrite !map_app, !concat_app. cbn. solve_Permutation. Qed.

(** A flight is about its own addresses only. *)
Lemma flight_ok_frame s s' f :
  (forall a, a ∈ about f -> live s' !! a = live s !! a /\ tracked s' !! a = tracked s !! a) -> flight_ok s f -> flight_ok s' f.
Proof.
  intros H. destruct f as [m size tag|[o|] m size tag|m]; cbn in *.
  - destruct (H m) as [-> ->]; [set_solver|done].
  - destruct (decide (o = m)) as [->|Hne]; cbn in *.
    + destruct (H m) as [-> ->]; [set_solver|]. intros (? & ? & ?). split_and!; [done|done|]. intros o [= <-]. done.
    + destruct (H m) as [-> ->]; [set_solver|]. destruct (H o) as [Ho _]; [set_solver|].
      intros (? & ? & Hx). split_and!; [done|done|]. intros o' [= <-] Hn. rewrite Ho. by apply Hx.
  - destruct (H m) as [-> ->]; [set_solver|]. intros (? & ? & ?). split_and!; [done..|]. by intros o.
  - destruct (H m) as [-> ->]; [set_solver|done].
Qed.

Lemma about_in s f a : f ∈ flying s -> a ∈ about f -> a ∈ in_flight s.
Proof.
  intros Hf Ha. unfold in_flight. apply list_elem_of_In, in_concat. exists (about f).
  split; [by apply in_map, list_elem_of_In|by apply list_elem_of_In].
Qed.

(** Something takes off: its addresses were at rest. *)
Lemma take_off s s' f :
  mem_inv s -> flying s' = f :: flying s -> NoDup (about f) -> (forall a, a ∈ about f -> a ∉ in_flight s) ->
  (forall a, a ∉ about f -> live s' !! a = live s !! a /\ tracked s' !! a = tracked s !! a) ->
  flight_ok s' f -> mem_inv s'.
Proof.
  intros [H1 H2 H3] Hf Hnd Hnew Hsame Hok.
  assert (in_flight s' = about f ++ in_flight s) as Hin by (unfold in_flight; by rewrite Hf).
  split; rewrite ?Hin, ?Hf.
  - intros a [Ha Hb]%not_elem_of_app. destruct (Hsame a Ha) as [-> ->]. by apply H1.
  - apply NoDup_app. split_and!; done.
  - constructor; [done|]. rewrite Forall_forall in *. intros g Hg. eapply flight_ok_frame; [|by apply H3].
    intros a Ha. apply Hsame. intros Hx. apply (Hnew a Hx). by eapply about_in.
Qed.

(** Something lands: its addresses are at rest. *)
Lemma land s s' f1 f f2 :
  mem_inv s -> flying s = f1 ++ f :: f2 -> flying s' = f1 ++ f2 ->
  (forall a, a ∉ about f -> live s' !! a = live s !! a /\ tracked s' !! a = tracked s !! a) ->
  (forall a, a ∈ about f -> tracked s' !! a = live s' !! a) -> mem_inv s'.
Proof.
  intros [H1 H2 H3] Hf Hf' Hsame Hrest. pose proof (flight_split s _ _ _ Hf) as Hp.
  assert (in_flight s' = concat (map about (f1 ++ f2))) as Hin by (unfold in_flight; by rewrite Hf').
  rewrite Hp in H2. apply NoDup_app in H2 as (_ & Hd & Hn). split; rewrite ?Hin, ?Hf'.
  - intros a Ha. destruct (decide (a ∈ about f)) as [Hx|Hx]; [by apply Hrest|]. destruct (Hsame a Hx) as [-> ->].
    apply H1. rewrite Hp. apply not_elem_of_app. by split.
  - done.
  - rewrite Hf in H3. rewrite Forall_app, Forall_cons in H3. destruct H3 as (H3 & _ & H3').
    assert (Forall (flight_ok s) (f1 ++ f2)) as Hall by (by apply Forall_app).
    rewrite Forall_forall in *. intros g Hg. eapply flight_ok_frame; [|by apply Hall].
    intros a Ha. apply Hsame. intros Hx. apply (Hd a Hx). rewrite <- Hin. eapply about_in; [|exact Ha]. by rewrite Hf'.
Qed.

(** An address that is not live is in flight only as one given back. *)
Lemma not_live_free s a : mem_inv s -> live s !! a = None -> a ∉ given_back s -> a ∉ in_flight s.
Proof.
  intros [_ _ H3] Hl Hg Hin. unfold in_flight, given_back in *. induction H3 as [|f fs Hf _ IH]; [by apply not_elem_of_nil in Hin|].
  cbn in *. apply not_elem_of_app in Hg as [Hg1 Hg2]. apply elem_of_app in Hin as [Hin|Hin]; [|by apply IH].
  destruct f as [m size tag|[o|] m size tag|m]; cbn in *.
  - apply list_elem_of_singleton in Hin as ->. destruct Hf. congruence.
  - destruct Hf as (Hm & _ & _). destruct (decide (o = m)); [|]; set_solver.
  - apply list_elem_of_singleton in Hin as ->. destruct Hf. congruence.
  - apply list_elem_of_singleton in Hin as ->. destruct Hf as [[? ?] _]. congruence.
Qed.

Lemma memory_step_inv s s' : mem_inv s -> mstep false s s' -> mem_inv s'.
Proof.
  intros Hinv Hs. destruct Hs as [s m size tag Hl [?|Hg]|s f1 m size tag f2 Hf|s old m size tag Ho Hm|s f1 old m size tag f2 Hf|s m Hl Hn|s f1 m f2 Hf];
    try done.
  - pose proof (not_live_free s m Hinv Hl Hg) as Hnew.
    apply (take_off s _ (ToTrack m size tag)); try done; cbn.
    + apply NoDup_singleton.
    + by intros a ->%list_elem_of_singleton.
    + intros a Ha%not_elem_of_cons. rewrite lookup_insert_ne; [done|]. intros ->. by destruct Ha.
    + rewrite lookup_insert_eq. split; [done|]. by rewrite (me_rest _ Hinv).
  - pose proof (me_flights _ Hinv) as H3. rewrite Hf, Forall_app, Forall_cons in H3. destruct H3 as (_ & [Hl Ht] & _).
    apply (land s _ f1 (ToTrack m size tag) f2); try done; cbn; unfold TRACK_MEM; rewrite Ht.
    + intros a Ha%not_elem_of_cons. rewrite lookup_insert_ne; [done|]. intros ->. by destruct Ha.
    + intros a ->%list_elem_of_singleton. by rewrite lookup_insert_eq, Hl.
  - assert ((m ∉ in_flight s) /\ (old <> Some m -> live s !! m = None)) as [Hnew Hdead].
    { destruct Hm as [->|[Hl [?|Hg]]]; [|done|].
      - split; [by apply Ho|done].
      - split; [by apply not_live_free|done]. }
    apply (take_off s _ (ToRetrack old m size tag)); try done.
    + cbn. destruct old as [o|]; [|apply NoDup_singleton]. case_decide; [apply NoDup_singleton|].
      apply NoDup_cons. split; [by rewrite list_elem_of_singleton|apply NoDup_singleton].
    + cbn. destruct old as [o|]; [|by intros a ->%list_elem_of_singleton].
      case_decide; [by intros a ->%list_elem_of_singleton|]. intros a. rewrite !elem_of_cons. intros [->|[->|[]%elem_of_nil]]; [by apply Ho|done].
    + cbn. intros a Ha. destruct old as [o|]; [case_decide|]; set_unfold; rewrite lookup_insert_ne by naive_solver;
        rewrite ?lookup_delete_ne by naive_solver; done.
    + cbn. rewrite lookup_insert_eq. split; [done|]. split.
      * intros Hne. rewrite (me_rest _ Hinv) by done. by apply Hdead.
      * intros o -> Hne. rewrite lookup_insert_ne by done. apply lookup_delete_eq.
  - pose proof (me_flights _ Hinv) as H3. rewrite Hf, Forall_app, Forall_cons in H3. destruct H3 as (_ & (Hl & Ht & Hdead) & _).
    apply (land s _ f1 (ToRetrack old m size tag) f2); try done; cbn; unfold RETRACK_MEM, TRACK_MEM.
    + intros a Ha. assert (match old with Some o => delete o (tracked s) | None => tracked s end !! m = None) as ->.
      { destruct old as [o|]; [|by apply Ht]. destruct (decide (o = m)) as [->|]; [apply lookup_delete_eq|].
        rewrite lookup_delete_ne by done. apply Ht. congruence. }
      destruct old as [o|]; [case_decide|]; set_unfold; rewrite lookup_insert_ne by naive_solver;
        rewrite ?lookup_delete_ne by naive_solver; done.
    + intros a Ha. assert (match old with Some o => delete o (tracked s) | None => tracked s end !! m = None) as ->.
      { destruct old as [o|]; [|by apply Ht]. destruct (decide (o = m)) as [->|]; [apply lookup_delete_eq|].
        rewrite lookup_delete_ne by done. apply Ht. congruence. }
      destruct (decide (a = m)) as [->|Hne]; [by rewrite lookup_insert_eq, Hl|]. rewrite lookup_insert_ne by done.
      destruct old as [o|]; [|set_solver]. assert (a = o) as -> by (case_decide; set_solver).
      rewrite lookup_delete_eq. symmetry. by apply Hdead.
  - apply (take_off s _ (ToFree m)); try done; cbn.
    + apply NoDup_singleton.
    + by intros a ->%list_elem_of_singleton.
    + intros a Ha%not_elem_of_cons. unfold UNTRACK_MEM. rewrite lookup_delete_ne; [done|]. intros ->. by destruct Ha.
    + split; [done|apply lookup_delete_eq].
  - pose proof (me_flights _ Hinv) as H3. rewrite Hf, Forall_app, Forall_cons in H3. destruct H3 as (_ & [Hl Ht] & _).
    apply (land s _ f1 (ToFree m) f2); try done; cbn.
    + intros a Ha%not_elem_of_cons. rewrite lookup_delete_ne; [done|]. intros ->. by destruct Ha.
    + intros a ->%list_elem_of_singleton. by rewrite lookup_delete_eq, Ht.
Qed.

(** Whatever the threads allocate, move and free, the table has exactly the
    blocks in use that no thread is about to enter, to move or to free, each with
    its size, as an [int], and the place it comes from; when no thread is between
    two steps it has exactly the blocks in use. This takes that no block is given
    out again whose [realloc] has not yet reached the table. *)
Theorem table_exact s :
  rtc (mstep false) no_memory s ->
  (forall a, a ∉ in_flight s -> tracked s !! a = live s !! a) /\ (flying s = [] -> tracked s = live s).
Proof.
  intros Hr. assert (mem_inv no_memory) as Hi by (split; [done|apply NoDup_nil_2|constructor]).
  assert (mem_inv s) as [H1 H2 H3] by (clear - Hi Hr; induction Hr; eauto using memory_step_inv).
  split; [done|]. intros Hf. apply map_eq. intros a. apply H1. unfold in_flight. rewrite Hf. apply not_elem_of_nil.
Qed.

(** By one thread: a block is in the table from its allocation on until it is
    freed, and moves with its [realloc]. *)
Theorem sequential_exact m m' size size' tag tag' (t : table) :
  t !! m = None -> m' = m \/ t !! m' = None ->
  exists t1 t2, malloc (Some m) size tag t = Some (m, t1) /\ t1 = <[m := entry_of size tag]> t /\
    realloc (Some m) (Some m') size' tag' t1 = Some (m', t2) /\ t2 = <[m' := entry_of size' tag']> t /\
    free (Some m) t1 = t /\ free (Some m') t2 = t.
Proof.
  intros Hm Hm'. assert (t !! m' = None) as Hn by (destruct Hm' as [->|?]; done).
  eexists _, _. unfold malloc, realloc, free, RETRACK_MEM, TRACK_MEM, UNTRACK_MEM. rewrite Hm.
  split; [reflexivity|]. split; [done|]. rewrite delete_insert_id by done. rewrite Hn. split; [reflexivity|]. split; [done|].
  by rewrite !delete_insert_id.
Qed.

(** A size of 2 GB or more is entered as a negative number. *)
Example large_block_negative : snd (entry_of (2 ^ 31) []) = - 2 ^ 31.
Proof. reflexivity. Qed.

(** ** A block given out again too early *)

(** One thread has moved block 1 to 2, and not yet entered it; another is given
    block 1: its entry is refused, because the old one is still there, and then
    taken out. The block is in use and not in the table. *)
Theorem realloc_race : exists s, rtc (mstep true) no_memory s /\ flying s = [] /\ live s !! 1 = Some (entry_of 8 []) /\ tracked s !! 1 = None.
Proof.
  eexists. split.
  - eapply rtc_l; [apply (ms_alloc true no_memory 1 4 []); [done|by left]|].
    eapply rtc_l; [eapply (ms_track true _ [] 1 4 [] []); reflexivity|].
    eapply rtc_l; [apply (ms_realloc true _ (Some 1) 2 16 []); [|right; split; [done|by left]]|].
    { intros o [= <-]. split; [by eexists|]. cbn. apply not_elem_of_nil. }
    eapply rtc_l; [apply (ms_alloc true _ 1 8 []); [done|by left]|].
    eapply rtc_l; [eapply (ms_track true _ [] 1 8 [] _); reflexivity|].
    eapply rtc_l; [eapply (ms_retrack true _ [] (Some 1) 2 16 [] []); reflexivity|]. apply rtc_refl.
  - vm_compute. done.
Qed.

Lemma table_exact_witness : forall s, s = MkMemory {[1 := entry_of 4 []]} {[1 := entry_of 4 []]} [] -> tracked s = live s.
Proof.
  intros s ->. apply table_exact; [|done]. 
  eapply rtc_l; [apply (ms_alloc false no_memory 1 4 []); [done|right; apply not_elem_of_nil]|].
  eapply rtc_l; [eapply (ms_track false _ [] 1 4 [] []); reflexivity|]. apply rtc_refl.
Defined.

Lemma sequential_exact_witness : free (Some 5) (<[5 := entry_of 8 []]> ∅) = ∅.
Proof.
  destruct (sequential_exact 5 5 8 8 [] [] ∅ (lookup_empty 5) (or_introl eq_refl)) as (t1 & t2 & _ & -> & _ & _ & H & _). exact H.
Defined.
