(* ===== verification/MemChunk.v ===== *)
(** * The growable receive buffer ([zbf/memchunk.hpp])

    [memchunk] is the C++ struct: the allocated block, its size and how much of
    it holds data. [push] and [pop] are the two methods; both return the C++
    [int] result, and [None] stands for undefined behaviour (a copy outside the
    block). The content of freshly allocated memory is the parameter [fresh].
    [content] is the abstraction: the byte queue the buffer holds. *)

From S2P Require Import Prelude.

(** ** Data and operations *)

Record memchunk := MkChunk {
  buffer : bytes;       (* the allocated block *)
  buffersize : Z;       (* unsigned int *)
  datasize : Z;         (* unsigned int *)
  blocksize : Z;        (* unsigned int *)
}.

(** [memcpy(block + off, src, size)]; copying outside the block is undefined. *)
Definition memcpy_at (block : bytes) (off : Z) (src : bytes) : option bytes :=
  if off + size_of src <=? size_of block
  then Some (take (Z.to_nat off) block ++ src ++ drop (Z.to_nat (off + size_of src)) block)
  else None.

(** [realloc]: the common prefix is kept, the rest is unspecified. *)
Definition realloc (fresh : Z -> bytes) (block : bytes) (n : Z) : bytes :=
  take (Z.to_nat n) (block ++ drop (length block) (fresh n)).

(** The constructor [memchunk(blksz)]. *)
Definition new_chunk (fresh : Z -> bytes) (blksz : Z) : memchunk :=
  MkChunk (fresh blksz) blksz 0 blksz.

(** [int push(unsigned char* data, unsigned int sz)]: a null [data] is [None].
    The buffer is never null after it, the allocator exits instead. *)
Definition push (fresh : Z -> bytes) (c : memchunk) (data : option bytes) (sz : Z)
  : option (Z * memchunk) :=
  match data with
  | None => Some (-1, c)
  | Some d =>
      if sz =? 0 then Some (-1, c)
      else
        let target_datasize := wrap 32 (datasize c + sz) in
        let c1 :=
          if buffersize c <? target_datasize then
            let bs := wrap 32 ((target_datasize / blocksize c + 1) * blocksize c) in
            MkChunk (realloc fresh (buffer c) bs) bs (datasize c) (blocksize c)
          else c in
        match memcpy_at (buffer c1) (datasize c1) (take (Z.to_nat sz) d) with
        | None => None
        | Some b => Some (swrap 32 target_datasize, MkChunk b (buffersize c1) target_datasize (blocksize c1))
        end
  end.

(** [int pop(unsigned int sz)]. *)
Definition pop (c : memchunk) (sz : Z) : Z * memchunk :=
  if (datasize c <? sz) || (sz =? 0) then (-1, c)
  else
    let b :=
      if sz =? datasize c
      then replicate (Z.to_nat (datasize c)) x00 ++ drop (Z.to_nat (datasize c)) (buffer c)
      else
        let n := datasize c - sz in
        take (Z.to_nat n) (drop (Z.to_nat sz) (buffer c)) ++ drop (Z.to_nat n) (buffer c) in
    (swrap 32 (datasize c - sz), MkChunk b (buffersize c) (datasize c - sz) (blocksize c)).

#[global] Arguments push : simpl never.
#[global] Arguments pop : simpl never.

(** ** Abstraction and invariant *)

Definition content (c : memchunk) : bytes := take (Z.to_nat (datasize c)) (buffer c).

Record chunk_wf (c : memchunk) : Prop := {
  wf_block : size_of (buffer c) = buffersize c;
  wf_data : 0 <= datasize c <= buffersize c;
  wf_size : buffersize c < 2 ^ 32;
  wf_blk : 0 < blocksize c;
}.

(** What the allocator promises: a block of the requested size. *)
Class Allocator (fresh : Z -> bytes) : Prop := {
  fresh_size : forall n, 0 <= n -> size_of (fresh n) = n;
}.

(** ** Abstract specification: a byte queue *)

Inductive chunk_op :=
| OpPush (d : bytes)
| OpPop (n : Z).

Definition queue_step (q : bytes) (o : chunk_op) : Z * bytes :=
  match o with
  | OpPush d => if size_of d =? 0 then (-1, q) else (size_of q + size_of d, q ++ d)
  | OpPop n => if (size_of q <? n) || (n =? 0) then (-1, q)
               else (size_of q - n, drop (Z.to_nat n) q)
  end.

Fixpoint queue_run (q : bytes) (os : list chunk_op) : list Z * bytes :=
  match os with
  | [] => ([], q)
  | o :: os => let '(r, q1) := queue_step q o in
               let '(rs, q2) := queue_run q1 os in (r :: rs, q2)
  end.

Definition chunk_step (fresh : Z -> bytes) (c : memchunk) (o : chunk_op) : option (Z * memchunk) :=
  match o with
  | OpPush d => push fresh c (Some d) (size_of d)
  | OpPop n => Some (pop c n)
  end.

Fixpoint chunk_run (fresh : Z -> bytes) (c : memchunk) (os : list chunk_op)
  : option (list Z * memchunk) :=
  match os with
  | [] => Some ([], c)
  | o :: os =>
      match chunk_step fresh c o with
      | None => None
      | Some (r, c1) =>
          match chunk_run fresh c1 os with
          | None => None
          | Some (rs, c2) => Some (r :: rs, c2)
          end
      end
  end.

(** A run that stays in bounds: whenever something is pushed, what the queue
    holds then, and a block more, is below the limit of [int]. What was popped
    does not count. *)
Fixpoint in_bounds (blk : Z) (q : bytes) (os : list chunk_op) : Prop :=
  match os with
  | [] => True
  | o :: os =>
      match o with OpPush d => size_of q + size_of d + blk < 2 ^ 31 | OpPop _ => True end /\
      in_bounds blk (snd (queue_step q o)) os
  end.

(** The amounts a run pops are [unsigned int]s. *)
Definition op_ok (o : chunk_op) : Prop :=
  match o with OpPush _ => True | OpPop n => 0 <= n end.

(** ** Lemmas *)

Lemma size_content c : chunk_wf c -> size_of (content c) = datasize c.
Proof. intros [Hb Hd _ _]. unfold content. rewrite size_of_take; lia. Qed.

Lemma memcpy_at_spec block off src :
  0 <= off -> off + size_of src <= size_of block ->
  exists b, memcpy_at block off src = Some b /\ size_of b = size_of block /\
    take (Z.to_nat (off + size_of src)) b = take (Z.to_nat off) block ++ src.
Proof.
  intros Hoff Hle. pose proof (size_of_nonneg src).
  unfold memcpy_at. rewrite (proj2 (Z.leb_le _ _)) by lia.
  eexists; split; [done|]. split.
  - rewrite !size_of_app, size_of_take, size_of_drop; lia.
  - rewrite app_assoc. replace (off + size_of src)
      with (size_of (take (Z.to_nat off) block ++ src)) at 1.
    + apply take_size_app.
    + rewrite size_of_app, size_of_take; lia.
Qed.

Section alloc.
Context (fresh : Z -> bytes) `{Allocator fresh}.

Lemma new_chunk_wf blksz : 0 < blksz < 2 ^ 32 -> chunk_wf (new_chunk fresh blksz).
Proof. intros Hb. constructor; simpl; [apply fresh_size; lia | lia..]. Qed.

Lemma content_new blksz : content (new_chunk fresh blksz) = [].
Proof. done. Qed.

Lemma realloc_spec block n :
  size_of block <= n ->
  size_of (realloc fresh block n) = n /\
  forall k, 0 <= k <= size_of block ->
    take (Z.to_nat k) (realloc fresh block n) = take (Z.to_nat k) block.
Proof.
  intros Hn. pose proof (size_of_nonneg block). unfold realloc. split.
  - pose proof (fresh_size n ltac:(lia)) as Hf. apply size_of_take. rewrite size_of_app.
    unfold size_of in *. rewrite length_drop. lia.
  - intros k Hk. rewrite take_take, Nat.min_l by lia. by apply take_Z_app_le.
Qed.

(** Pushing appends to the content, inside the block, as long as the block
    size fits in [unsigned int]. *)
Lemma push_spec c d :
  chunk_wf c -> 0 < size_of d ->
  datasize c + size_of d + blocksize c < 2 ^ 32 ->
  exists c', push fresh c (Some d) (size_of d) = Some (swrap 32 (datasize c + size_of d), c') /\
    chunk_wf c' /\ content c' = content c ++ d /\
    datasize c' = datasize c + size_of d /\ blocksize c' = blocksize c.
Proof.
  intros [Hb Hd Hs Hk] Hd0 Hmax. unfold push.
  rewrite (proj2 (Z.eqb_neq _ _)) by lia.
  rewrite (wrap_id 32 (datasize c + size_of d)) by (unfold in_uint; lia).
  set (t := datasize c + size_of d) in *.
  pose proof (Z.div_mod t (blocksize c) ltac:(lia)) as Hdm.
  pose proof (Z.mod_pos_bound t (blocksize c) Hk) as Hm.
  set (bs := (t / blocksize c + 1) * blocksize c) in *.
  assert (t < bs <= t + blocksize c) as Hbs by (subst bs; nia).
  rewrite (wrap_id 32 bs) by (unfold in_uint; lia).
  rewrite (firstn_all2 (n := Z.to_nat (size_of d)) d) by (unfold size_of; lia).
  destruct (Z.ltb_spec (buffersize c) t) as [Hgrow|Hfit]; cbn [buffer datasize buffersize blocksize].
  - destruct (realloc_spec (buffer c) bs ltac:(lia)) as [Hrs Hrp].
    destruct (memcpy_at_spec (realloc fresh (buffer c) bs) (datasize c) d)
      as (b & -> & Hsz & Htk); [lia..|].
    eexists; split; [done|]. split; [constructor; simpl; lia|].
    unfold content; simpl. split; [|done]. unfold t. rewrite Htk, Hrp; [done|lia].
  - destruct (memcpy_at_spec (buffer c) (datasize c) d) as (b & -> & Hsz & Htk); [lia..|].
    eexists; split; [done|]. split; [constructor; simpl; lia|].
    unfold content; simpl. split; [|done]. exact Htk.
Qed.

End alloc.

(** Popping drops a prefix of the content, or changes nothing. *)
Lemma pop_spec c n :
  chunk_wf c -> 0 < n <= datasize c ->
  pop c n = (swrap 32 (datasize c - n), snd (pop c n)) /\
  chunk_wf (snd (pop c n)) /\
  content (snd (pop c n)) = drop (Z.to_nat n) (content c) /\
  datasize (snd (pop c n)) = datasize c - n /\ blocksize (snd (pop c n)) = blocksize c.
Proof.
  intros [Hb Hd Hs Hk] Hn. unfold pop.
  rewrite (proj2 (Z.ltb_ge _ _)) by lia. rewrite (proj2 (Z.eqb_neq n 0)) by lia.
  cbn [orb fst snd datasize blocksize]. split; [done|].
  destruct (Z.eqb_spec n (datasize c)) as [->|Hne]; unfold content;
    cbn [buffer datasize blocksize].
  - split; [|split; [|lia]].
    + constructor; simpl; [|lia..]. rewrite size_of_app, size_of_drop by lia.
      unfold size_of at 1. rewrite length_replicate. lia.
    + rewrite Z.sub_diag. symmetry. apply drop_ge. rewrite length_take. unfold size_of in *. lia.
  - split; [|split; [|lia]].
    + constructor; simpl; [|lia..]. rewrite size_of_app, size_of_take, size_of_drop; [lia|lia|].
      rewrite size_of_drop; lia.
    + rewrite skipn_firstn_comm, take_app_length'.
      * f_equal. lia.
      * rewrite length_take, length_drop. unfold size_of in *. lia.
Qed.

Lemma pop_invalid c n : datasize c < n \/ n = 0 -> pop c n = (-1, c).
Proof.
  intros Hn. unfold pop.
  destruct (Z.ltb_spec (datasize c) n); [done|].
  destruct (Z.eqb_spec n 0); [done|lia].
Qed.

Section refine.
Context (fresh : Z -> bytes) `{Allocator fresh}.

(** One operation of the buffer simulates the queue's. *)
Lemma chunk_step_refines c o :
  chunk_wf c -> datasize c < 2 ^ 31 -> op_ok o -> in_bounds (blocksize c) (content c) [o] ->
  exists c', chunk_step fresh c o = Some (fst (queue_step (content c) o), c') /\
    chunk_wf c' /\ datasize c' < 2 ^ 31 /\ content c' = snd (queue_step (content c) o) /\ blocksize c' = blocksize c.
Proof.
  intros Hwf Hlt Hok [Hmax _]. pose proof Hwf as [Hb Hd Hs Hk].
  destruct o as [d|n]; simpl in *; rewrite size_content in * by done.
  - pose proof (size_of_nonneg d).
    destruct (Z.eqb_spec (size_of d) 0) as [E|E].
    + exists c. unfold push. by rewrite E.
    + destruct (push_spec fresh c d) as (c' & -> & Hwf' & Hc & Hds & Hbk); [done|lia..|].
      exists c'. rewrite swrap_id by (unfold in_sint; lia). split_and!; [done|done|lia|done|done].
  - destruct ((datasize c <? n) || (n =? 0)) eqn:E.
    + exists c. rewrite pop_invalid; [done|apply orb_prop in E as []; bool_Z; lia].
    + bool_Z. destruct (pop_spec c n Hwf ltac:(lia)) as (Hp & Hwf' & Hc & Hds & Hbk).
      exists (snd (pop c n)). rewrite Hp at 1. rewrite swrap_id by (unfold in_sint; lia).
      split_and!; [done|done|lia|done|done].
Qed.

(** C31: The growable buffer implements the byte queue: any sequence of [push]
    and [pop] calls, however long, in which no push takes what is held, and a block
    more, to the limit of [int] runs without a copy outside the block, returns the
    same results as the queue, and leaves the same content. *)
Theorem chunk_refines_queue c os :
  chunk_wf c -> datasize c < 2 ^ 31 -> Forall op_ok os -> in_bounds (blocksize c) (content c) os ->
  exists c', chunk_run fresh c os = Some (fst (queue_run (content c) os), c') /\
    chunk_wf c' /\ content c' = snd (queue_run (content c) os).
Proof.
  revert c. induction os as [|o os IH]; intros c Hwf Hlt Hok Hmax; cbn [chunk_run queue_run].
  - by exists c.
  - apply Forall_cons in Hok as [Ho Hos]. destruct Hmax as [Hm Hmax].
    destruct (chunk_step_refines c o Hwf Hlt Ho (conj Hm I)) as (c1 & -> & Hwf1 & Hlt1 & Hc1 & Hbk).
    rewrite <- Hc1, <- Hbk in Hmax.
    destruct (IH c1 Hwf1 Hlt1 Hos Hmax) as (c2 & -> & Hwf2 & Hc2).
    destruct (queue_step (content c) o) as [r q1] eqn:E1; simpl in *. subst q1.
    destruct (queue_run (content c1) os) as [rs q2] eqn:E2; simpl in *.
    by exists c2.
Qed.

End refine.

(** [push] adds [datasize] and [sz] as [unsigned int]: when the sum reaches
    2^32 the wrapped total looks small enough, the block is not grown, and the
    copy leaves the block (undefined behaviour) -- for every well-formed buffer
    and every such size. *)
Theorem push_wraps_undefined fresh c d :
  chunk_wf c -> size_of d < 2 ^ 32 -> 2 ^ 32 <= datasize c + size_of d ->
  push fresh c (Some d) (size_of d) = None.
Proof.
  intros [Hb Hd Hs Hk] Hlt Hge. unfold push. rewrite (proj2 (Z.eqb_neq _ _)) by lia.
  assert (wrap 32 (datasize c + size_of d) = datasize c + size_of d - 2 ^ 32) as ->.
  { unfold wrap. rewrite <- (Z.mod_small (datasize c + size_of d - 2 ^ 32) (2 ^ 32)) by lia.
    rewrite Zminus_mod, Z.mod_same, Z.sub_0_r, Zmod_mod by lia. done. }
  rewrite (proj2 (Z.ltb_ge _ _)) by lia.
  unfold memcpy_at. rewrite (firstn_all2 (n := Z.to_nat (size_of d)) d) by (unfold size_of; lia).
  rewrite (proj2 (Z.leb_gt _ _)) by lia. done.
Qed.

(** ** Witnesses *)

Definition zero_fresh (n : Z) : bytes := replicate (Z.to_nat n) x00.

#[export] Instance zero_fresh_ok : Allocator zero_fresh.
Proof. constructor. intros n Hn. unfold zero_fresh, size_of. rewrite length_replicate. lia. Qed.

(** A three-byte block that has to grow. *)
Lemma chunk_refines_queue_witness :
  chunk_wf (new_chunk zero_fresh 3) /\
  exists c', chunk_run zero_fresh (new_chunk zero_fresh 3)
      [OpPush [x01; x02]; OpPush [x03; x04]; OpPop 3; OpPop 2] = Some ([2; 4; 1; -1], c') /\
    content c' = [x04].
Proof.
  assert (chunk_wf (new_chunk zero_fresh 3)) as Hwf.
  { apply new_chunk_wf; [apply _ | lia]. }
  split; [done|].
  destruct (chunk_refines_queue zero_fresh (new_chunk zero_fresh 3)
    [OpPush [x01; x02]; OpPush [x03; x04]; OpPop 3; OpPop 2] Hwf) as (c' & E & _ & Hc).
  - vm_compute. reflexivity.
  - repeat constructor; simpl; lia.
  - vm_compute. repeat split.
  - exists c'. split; [exact E | exact Hc].
Defined.

(** A well-formed buffer whose block nearly fills the address range of
    [unsigned int]; lists of that length are never evaluated. *)
Definition huge_chunk : memchunk :=
  MkChunk (replicate (Z.to_nat (2 ^ 32 - 1)) x00) (2 ^ 32 - 1) (2 ^ 32 - 1) 1024.

Lemma push_wraps_undefined_witness :
  push zero_fresh huge_chunk (Some [x01]) (size_of [x01]) = None.
Proof.
  apply push_wraps_undefined.
  - unfold huge_chunk. constructor; cbn [buffer buffersize datasize blocksize]; [|lia..].
    unfold size_of. rewrite length_replicate. lia.
  - rewrite size_of_cons, size_of_nil. lia.
  - unfold huge_chunk. cbn [datasize]. rewrite size_of_cons, size_of_nil. lia.
Defined.
