(* ===== verification/TcpMessage.v ===== *)
(** * Messages and framing protocols ([zbf/tcp_message.hpp])

    A [tcp_message] is its [data] string; a [tcp_message*] that may be null is
    an [option]. The abstract class [tcp_message_protocol] is the record
    [protocol] of its virtual methods; [ProtocolLaws] states what the transport
    relies on, and is proved here for [default_msg_proto] and in [Lymsg] for
    [lymsg_protocol]. *)

From S2P Require Import Prelude.

(** ** The interface *)

Record protocol := MkProtocol {
  genHeartbeat : option bytes;
  isHeartbeat : option bytes -> bool;
  type : option bytes -> Z;
  headerSize : Z;
  bodySize : option bytes -> Z;
  MaxBodySize : Z;
}.

Definition Type_NaN : Z := 0x00.
Definition Heartbeat : Z := 0x01.

(** [tcp_message_protocol::MaxBodySize()], which no subclass overrides. *)
Definition default_MaxBodySize : Z := 1048576 * 16.

(** What the code that frames a stream needs of a protocol: the header is not
    empty, decides the body size on its own, and the sizes add up within
    [uint32_t]; the heartbeat it generates is a frame it recognises. *)
Class ProtocolLaws (p : protocol) : Prop := {
  header_pos : 0 < headerSize p;
  max_nonneg : 0 <= MaxBodySize p;
  frame_range : headerSize p + MaxBodySize p < 2 ^ 31;
  body_range : forall m, in_uint 32 (bodySize p m);
  body_of_header : forall h m, size_of h = headerSize p ->
    bodySize p (Some (h ++ m)) = bodySize p (Some h);
  heartbeat_frame : exists m, genHeartbeat p = Some m /\
    isHeartbeat p (Some m) = true /\ type p (Some m) = Heartbeat /\
    bodySize p (Some m) <= MaxBodySize p /\
    size_of m = headerSize p + bodySize p (Some m);
}.

(** ** [default_msg_proto]: header[4] | body[size] *)

Definition extract_uint32 (data : bytes) : Z :=
  if size_of data <? 4 then 0 else bswap 4 (le_val (take 4 data)).

Definition append_uint32 (data : bytes) (val : Z) : bytes :=
  data ++ le_bytes 4 (bswap 4 val).

Definition default_type (msg : option bytes) : Z :=
  match msg with
  | None => Type_NaN
  | Some data =>
      if size_of data <? 4 then Type_NaN
      else Z.shiftr (Z.land (extract_uint32 data) 0xFF000000) 24
  end.

Definition default_isHeartbeat (msg : option bytes) : bool := default_type msg =? Heartbeat.

Definition default_headerSize : Z := 4.

Definition default_bodySize (msg : option bytes) : Z :=
  match msg with
  | None => 0
  | Some data => if size_of data <? 4 then 0 else Z.land (extract_uint32 data) 0xFFFFFF
  end.

(** [genMessage(uint8_t type, const std::string& body)]. *)
Definition genMessage (typ : Z) (body : bytes) : option bytes :=
  if default_MaxBodySize <? size_of body then None
  else
    let hdr := wrap 32 (Z.lor (wrap 32 (Z.shiftl (wrap 8 typ) 24)) (size_of body)) in
    Some (append_uint32 [] hdr ++ body).

Definition default_genHeartbeat : option bytes := genMessage Heartbeat [].

Definition default_msg_proto : protocol := {|
  genHeartbeat := default_genHeartbeat;
  isHeartbeat := default_isHeartbeat;
  type := default_type;
  headerSize := default_headerSize;
  bodySize := default_bodySize;
  MaxBodySize := default_MaxBodySize;
|}.

(** ** Lemmas *)

Lemma append_uint32_be data val : append_uint32 data val = data ++ be_bytes 4 val.
Proof. unfold append_uint32. by rewrite le_bytes_bswap. Qed.

Lemma extract_uint32_be h m : size_of h = 4 -> extract_uint32 (h ++ m) = be_val h.
Proof.
  intros Hh. unfold extract_uint32. rewrite size_of_app, Hh.
  pose proof (size_of_nonneg m). rewrite (proj2 (Z.ltb_ge _ _)) by lia.
  rewrite take_prefix by lia. unfold size_of in Hh.
  replace 4%nat with (length h) by lia. apply bswap_le_val.
Qed.

Lemma extract_append val m : extract_uint32 (append_uint32 [] val ++ m) = wrap 32 val.
Proof.
  rewrite append_uint32_be, app_nil_l, extract_uint32_be by apply size_be_bytes.
  apply be_val_be_bytes.
Qed.

Lemma default_type_be h m : size_of h = 4 -> default_type (Some (h ++ m)) = be_val h / 2 ^ 24.
Proof.
  intros Hh. unfold default_type. rewrite extract_uint32_be by done.
  pose proof (size_of_nonneg m). rewrite size_of_app, (proj2 (Z.ltb_ge _ _)) by lia.
  apply (shiftr_high_field _ 24 8); [lia|lia|].
  pose proof (be_val_range h) as Hr. rewrite Hh in Hr. exact Hr.
Qed.

Lemma default_bodySize_be h m :
  size_of h = 4 -> default_bodySize (Some (h ++ m)) = be_val h mod 2 ^ 24.
Proof.
  intros Hh. unfold default_bodySize. rewrite extract_uint32_be by done.
  pose proof (size_of_nonneg m). rewrite size_of_app, (proj2 (Z.ltb_ge _ _)) by lia.
  apply (Z.land_ones _ 24). lia.
Qed.

(** The header [genMessage] writes, as a number. *)
Lemma genMessage_header typ body :
  size_of body <= default_MaxBodySize ->
  exists h, genMessage typ body = Some (h ++ body) /\ size_of h = 4 /\
    be_val h = wrap 32 (Z.lor (wrap 8 typ * 2 ^ 24) (size_of body)).
Proof.
  intros Hsz. unfold genMessage. rewrite (proj2 (Z.ltb_ge _ _)) by lia.
  eexists; split; [done|]. rewrite append_uint32_be, app_nil_l. split; [apply size_be_bytes|].
  rewrite be_val_be_bytes. change (8 * Z.of_nat 4) with 32.
  rewrite Z.shiftl_mul_pow2, (wrap_id 32 (wrap 8 typ * 2 ^ 24)) by
    (try lia; pose proof (wrap_range 8 typ ltac:(lia)) as []; unfold in_uint; lia).
  apply Z.mod_mod. lia.
Qed.

(** [genMessage] and the readers of [default_msg_proto] are inverse for
    every type and every body shorter than 16M: the frame is the 4-byte header
    followed by the body, and the header reads back as that type and size. *)
Theorem genMessage_roundtrip typ body :
  in_uint 8 typ -> size_of body < default_MaxBodySize ->
  exists msg, genMessage typ body = Some msg /\ drop 4 msg = body /\
    size_of msg = default_headerSize + size_of body /\
    default_type (Some msg) = typ /\ default_bodySize (Some msg) = size_of body.
Proof.
  intros Ht Hsz. pose proof (size_of_nonneg body).
  destruct (genMessage_header typ body) as (h & -> & Hh & Hv); [lia|].
  unfold default_MaxBodySize, in_uint in *.
  rewrite (wrap_id 8) in Hv by done.
  rewrite <- Z.shiftl_mul_pow2, lor_shiftl_add, wrap_id in Hv by (unfold in_uint; lia).
  exists (h ++ body). split; [done|]. split; [by apply drop_prefix; lia|].
  rewrite size_of_app, default_type_be, default_bodySize_be, Hv, Hh by done.
  split; [done|]. rewrite Z.div_add_l, Z.div_small, (Z.add_comm (typ * _)), Z.mod_add, Z.mod_small by lia.
  lia.
Qed.

(** The size guard of [genMessage] lets a body of exactly 16M through,
    whose size does not fit the 24-bit field: the frame announces an empty body
    and the overflowing bit is or-ed into the type, so an even type is read
    back as the next odd one (type 0 as a heartbeat). *)
Theorem genMessage_size_limit typ body :
  in_uint 8 typ -> size_of body = default_MaxBodySize ->
  exists msg, genMessage typ body = Some msg /\
    default_bodySize (Some msg) = 0 /\ default_type (Some msg) = Z.lor typ 1.
Proof.
  intros Ht Hsz. destruct (genMessage_header typ body) as (h & -> & Hh & Hv); [lia|].
  exists (h ++ body). split; [done|].
  rewrite default_bodySize_be, default_type_be by done. rewrite Hv, Hsz, (wrap_id 8) by done.
  change default_MaxBodySize with (1 * 2 ^ 24).
  rewrite <- !Z.shiftl_mul_pow2, <- Z.shiftl_lor by lia. rewrite Z.shiftl_mul_pow2 by lia.
  assert (in_uint 8 (Z.lor typ 1)) as [Hl0 Hl1] by (apply lor_range; unfold in_uint in *; lia).
  rewrite wrap_id by (unfold in_uint; lia). rewrite Z.mod_mul, Z.div_mul by lia. done.
Qed.

#[export] Instance default_laws : ProtocolLaws default_msg_proto.
Proof.
  constructor; cbn [default_msg_proto genHeartbeat isHeartbeat type headerSize bodySize MaxBodySize].
  - done.
  - done.
  - done.
  - intros [m|]; [|done]. unfold default_bodySize, extract_uint32. case_if; [done|].
    change 0xFFFFFF with (Z.ones 24). rewrite Z.land_ones by lia.
    unfold in_uint. pose proof (Z.mod_pos_bound (bswap 4 (le_val (take 4 m))) (2 ^ 24)). lia.
  - intros h m Hh. rewrite default_bodySize_be by done.
    pose proof (default_bodySize_be h [] Hh) as E. by rewrite app_nil_r in E.
  - by eexists.
Qed.

Lemma genMessage_roundtrip_witness :
  exists msg, genMessage 7 [x61; x62] = Some msg /\ drop 4 msg = [x61; x62] /\
    default_type (Some msg) = 7 /\ default_bodySize (Some msg) = 2.
Proof.
  destruct (genMessage_roundtrip 7 [x61; x62]) as (m & H1 & H2 & _ & H3 & H4).
  - split; reflexivity || discriminate.
  - reflexivity.
  - exists m. split; [exact H1|]. split; [exact H2|]. split; [exact H3 | exact H4].
Defined.

Lemma genMessage_size_limit_witness :
  exists body msg, size_of body = default_MaxBodySize /\
    genMessage 0 body = Some msg /\ default_bodySize (Some msg) = 0 /\
    default_isHeartbeat (Some msg) = true.
Proof.
  assert (size_of (replicate (Z.to_nat default_MaxBodySize) x00) = default_MaxBodySize) as Hs.
  { unfold size_of. rewrite length_replicate. unfold default_MaxBodySize. lia. }
  destruct (genMessage_size_limit 0 (replicate (Z.to_nat default_MaxBodySize) x00))
    as (m & H1 & H2 & H3).
  - split; reflexivity || discriminate.
  - exact Hs.
  - exists (replicate (Z.to_nat default_MaxBodySize) x00), m.
    split; [exact Hs|]. split; [exact H1|]. split; [exact H2|].
    unfold default_isHeartbeat. rewrite H3. reflexivity.
Defined.
