(* ===== verification/Lymsg.v ===== *)
(** * The cluster message protocol ([lygc/lymsg_protocol.hpp])

    [lymsg_header] is the packed 20-byte struct, [header_image] its object
    representation on the little-endian host the code is written for, and
    [load_header] the [memcpy] back. [hton]/[ntoh], [htonll]/[ntohll], the
    subclass [lymsg_protocol] and the helpers [packMsg]/[unpackMsg] follow the
    source with [LYMSG_NETWORK_BYTE_ORDER] defined, as the file defines it. *)

From S2P Require Import Prelude TcpMessage.

(** ** Data *)

Record lymsg_header := MkHeader {
  origin : Z;    (* uint16_t *)
  reserve : Z;   (* uint16_t *)
  htype : Z;     (* uint32_t type *)
  serial : Z;    (* uint64_t *)
  hsize : Z;     (* uint32_t size, body size *)
}.

Record header_ok (h : lymsg_header) : Prop := {
  origin_ok : in_uint 16 (origin h);
  reserve_ok : in_uint 16 (reserve h);
  htype_ok : in_uint 32 (htype h);
  serial_ok : in_uint 64 (serial h);
  hsize_ok : in_uint 32 (hsize h);
}.

Definition LYMSG_TYPE_REQ : Z := 0x00000000.
Definition LYMSG_TYPE_RESP : Z := 0x80000000.
Definition LYMSG_TYPE_ENC : Z := 0x40000000.
Definition LYMSG_TYPE_HANDSHAKE : Z := 0x00000011.
Definition LYMSG_TYPE_DB_MYSQL : Z := 0x00000021.
Definition LYMSG_TYPE_DB_MONGO : Z := 0x00000022.
Definition LYMSG_TYPE_DB_REDIS : Z := 0x00000023.
Definition LYMSG_TYPE_RESERVE : Z := 0x000000FF.

(** [sizeof(lymsg_header)] under [#pragma pack(1)]. *)
Definition sizeof_header : Z := 20.

Definition header_image (h : lymsg_header) : bytes :=
  le_bytes 2 (origin h) ++ le_bytes 2 (reserve h) ++ le_bytes 4 (htype h) ++
  le_bytes 8 (serial h) ++ le_bytes 4 (hsize h).

Definition load_header (bs : bytes) : lymsg_header := {|
  origin := le_val (sub_bytes 0 2 bs);
  reserve := le_val (sub_bytes 2 2 bs);
  htype := le_val (sub_bytes 4 4 bs);
  serial := le_val (sub_bytes 8 8 bs);
  hsize := le_val (sub_bytes 16 4 bs);
|}.

(** ** Byte order *)

Definition htons (z : Z) : Z := bswap 2 z.
Definition ntohs (z : Z) : Z := bswap 2 z.
Definition htonl (z : Z) : Z := bswap 4 z.
Definition ntohl (z : Z) : Z := bswap 4 z.

Definition htonll (host : Z) : Z :=
  let lo := wrap 32 (Z.land host 0xFFFFFFFF) in
  let hi := wrap 32 (Z.shiftr host 32) in
  Z.lor (wrap 64 (Z.shiftl (htonl lo) 32)) (htonl hi).

Definition ntohll (net : Z) : Z :=
  let lo := wrap 32 (Z.land net 0xFFFFFFFF) in
  let hi := wrap 32 (Z.shiftr net 32) in
  Z.lor (wrap 64 (Z.shiftl (ntohl hi) 32)) (ntohl lo).

Definition hton (h : lymsg_header) : lymsg_header := {|
  origin := htons (origin h);
  reserve := htons (reserve h);
  htype := htonl (htype h);
  serial := htonll (serial h);
  hsize := htonl (hsize h);
|}.

Definition ntoh (h : lymsg_header) : lymsg_header := {|
  origin := ntohs (origin h);
  reserve := ntohs (reserve h);
  htype := ntohl (htype h);
  serial := ntohll (serial h);
  hsize := ntohl (hsize h);
|}.

(** ** [lymsg_protocol] *)

Definition lymsg_type (msg : option bytes) : Z :=
  match msg with
  | None => Type_NaN
  | Some data =>
      if size_of data <? sizeof_header then Type_NaN
      else ntohl (htype (load_header data))
  end.

Definition lymsg_isHeartbeat (msg : option bytes) : bool :=
  match msg with
  | None => false
  | Some _ => lymsg_type msg =? Heartbeat
  end.

Definition lymsg_headerSize : Z := sizeof_header.

Definition lymsg_bodySize (msg : option bytes) : Z :=
  match msg with
  | None => 0
  | Some data =>
      if size_of data <? sizeof_header then 0
      else ntohl (hsize (load_header data))
  end.

Definition lymsg_genHeartbeat : option bytes :=
  Some (header_image (hton (MkHeader 0 0 Heartbeat 0 0))).

Definition lymsg_protocol : protocol := {|
  genHeartbeat := lymsg_genHeartbeat;
  isHeartbeat := lymsg_isHeartbeat;
  type := lymsg_type;
  headerSize := lymsg_headerSize;
  bodySize := lymsg_bodySize;
  MaxBodySize := default_MaxBodySize;
|}.

(** ** [lymsg_helper] *)

Definition packMsg (header : lymsg_header) (data : bytes) : bytes :=
  let h := MkHeader (origin header) (reserve header) (htype header) (serial header)
                    (wrap 32 (size_of data)) in
  header_image (hton h) ++ data.

(** [None] is the return value -1. *)
Definition unpackMsg (msg : option bytes) : option (lymsg_header * bytes) :=
  match msg with
  | None => None
  | Some data =>
      if size_of data <? sizeof_header then None
      else Some (ntoh (load_header data), drop (Z.to_nat sizeof_header) data)
  end.

Definition copyHeader (header : lymsg_header) : lymsg_header :=
  MkHeader (origin header) (reserve header) (htype header) (serial header) (hsize header).

(** The 32-bit halves of a 64-bit integer exchanged. *)
Definition swap_halves (x : Z) : Z := (x mod 2 ^ 32) * 2 ^ 32 + x / 2 ^ 32.

Definition set_serial (h : lymsg_header) (s : Z) : lymsg_header :=
  MkHeader (origin h) (reserve h) (htype h) s (hsize h).
Definition set_hsize (h : lymsg_header) (n : Z) : lymsg_header :=
  MkHeader (origin h) (reserve h) (htype h) (serial h) n.

(** The header in network byte order, all fields big-endian. *)
Definition wire_header (h : lymsg_header) : bytes :=
  be_bytes 2 (origin h) ++ be_bytes 2 (reserve h) ++ be_bytes 4 (htype h) ++
  be_bytes 8 (serial h) ++ be_bytes 4 (hsize h).

(** ** Lemmas *)

Lemma lo_word x : wrap 32 (Z.land x 0xFFFFFFFF) = x mod 2 ^ 32.
Proof.
  change 0xFFFFFFFF with (Z.ones 32). rewrite Z.land_ones by lia.
  apply wrap_id, Z.mod_pos_bound. lia.
Qed.

Lemma hi_word x : in_uint 64 x -> wrap 32 (Z.shiftr x 32) = x / 2 ^ 32.
Proof.
  intros [H0 H1]. rewrite Z.shiftr_div_pow2 by lia. apply wrap_id. split.
  - apply Z.div_pos; lia.
  - apply Z.div_lt_upper_bound; lia.
Qed.

Lemma join_words a b :
  in_uint 32 a -> in_uint 32 b -> Z.lor (wrap 64 (Z.shiftl a 32)) b = a * 2 ^ 32 + b.
Proof.
  intros [Ha0 Ha1] Hb. rewrite wrap_id.
  - by apply lor_shiftl_add.
  - rewrite Z.shiftl_mul_pow2 by lia. unfold in_uint. lia.
Qed.

Lemma bswap4_range z : in_uint 32 (bswap 4 z).
Proof. apply (bswap_range 4). Qed.
#[export] Hint Resolve bswap4_range : tszy.

(** [htonll] is the 8-byte swap. *)
Lemma htonll_bswap x : in_uint 64 x -> htonll x = bswap 8 x.
Proof.
  intros Hx. unfold htonll, htonl. rewrite lo_word, hi_word, join_words by eauto with tszy.
  rewrite (bswap_app 4 4), (bswap_wrap 4). done.
Qed.

Lemma swap_halves_range x : in_uint 64 x -> in_uint 64 (swap_halves x).
Proof.
  intros [H0 H1]. unfold swap_halves, in_uint.
  pose proof (Z.mod_pos_bound x (2 ^ 32) ltac:(lia)).
  assert (0 <= x / 2 ^ 32 < 2 ^ 32) by (split; [apply Z.div_pos | apply Z.div_lt_upper_bound]; lia).
  lia.
Qed.

Lemma swap_halves_involutive x : in_uint 64 x -> swap_halves (swap_halves x) = x.
Proof.
  intros [H0 H1]. unfold swap_halves.
  assert (0 <= x / 2 ^ 32 < 2 ^ 32) by (split; [apply Z.div_pos | apply Z.div_lt_upper_bound]; lia).
  rewrite (Z.add_comm _ (x / 2 ^ 32)) at 1. rewrite Z.mod_add, Z.mod_small by lia.
  rewrite Z.div_add_l, (Z.div_small (x / 2 ^ 32)), Z.add_0_r by lia.
  pose proof (Z.div_mod x (2 ^ 32)). lia.
Qed.

(** [ntohll] does not undo [htonll]: it exchanges the halves. *)
Lemma ntohll_htonll x : in_uint 64 x -> ntohll (htonll x) = swap_halves x.
Proof.
  intros Hx. rewrite htonll_bswap by done.
  pose proof (bswap_range 8 x) as Hr. change (8 * Z.of_nat 8) with 64 in Hr.
  unfold ntohll, ntohl. rewrite lo_word, hi_word, join_words by eauto with tszy.
  rewrite (bswap_app 4 4). change (8 * Z.of_nat 4) with 32.
  pose proof (bswap4_range (x / 2 ^ 32)) as [Hb0 Hb1].
  rewrite Z.div_add_l, (Z.div_small (bswap 4 (x / 2 ^ 32))), Z.add_0_r by lia.
  rewrite (Z.add_comm (bswap 4 x * _)), Z.mod_add, (Z.mod_small (bswap 4 _)) by lia.
  rewrite !bswap_involutive. change (8 * Z.of_nat 4) with 32. unfold swap_halves.
  destruct Hx. rewrite (Z.mod_small (x / 2 ^ 32)); [done|].
  split; [apply Z.div_pos | apply Z.div_lt_upper_bound]; lia.
Qed.

(** The struct image of a swapped header is the wire header. *)
Lemma header_image_hton h : header_ok h -> header_image (hton h) = wire_header h.
Proof.
  intros [Ho Hr Ht Hs Hz]. unfold header_image, hton, wire_header.
  cbn [origin reserve htype serial hsize].
  rewrite htonll_bswap by done. unfold htons, htonl. by rewrite !le_bytes_bswap.
Qed.

Lemma size_header_image h : size_of (header_image h) = sizeof_header.
Proof. unfold header_image, size_of. rewrite !length_app, !length_le_bytes. done. Qed.

(** [memcpy] into and out of the struct. *)
Lemma load_header_image h d :
  load_header (header_image h ++ d) =
  MkHeader (wrap 16 (origin h)) (wrap 16 (reserve h)) (wrap 32 (htype h))
           (wrap 64 (serial h)) (wrap 32 (hsize h)).
Proof.
  unfold load_header, header_image. rewrite <- !app_assoc.
  f_equal; repeat (rewrite sub_bytes_skip by (rewrite ?size_le_bytes; lia));
    rewrite sub_bytes_here by (rewrite ?size_le_bytes; lia);
    apply le_val_le_bytes.
Qed.

(** [packMsg] writes every header field, and the body size, in network
    byte order, followed by the body: the wire layout is big-endian. *)
Theorem packMsg_wire h d :
  header_ok h ->
  packMsg h d = wire_header (set_hsize h (size_of d mod 2 ^ 32)) ++ d.
Proof.
  intros [Ho Hr Ht Hs _]. unfold packMsg. rewrite header_image_hton; [done|].
  constructor; try done. by apply wrap_range.
Qed.

Lemma ntohs_wrap_htons z : in_uint 16 z -> ntohs (wrap 16 (htons z)) = z.
Proof.
  intros Hz. pose proof (bswap_range 2 z) as Hr. change (8 * Z.of_nat 2) with 16 in Hr.
  unfold htons. rewrite wrap_id by done. unfold ntohs. rewrite bswap_involutive. by apply wrap_id.
Qed.

Lemma ntohl_wrap_htonl z : in_uint 32 z -> ntohl (wrap 32 (htonl z)) = z.
Proof.
  intros Hz. unfold htonl. rewrite wrap_id by apply bswap4_range.
  unfold ntohl. rewrite bswap_involutive. by apply wrap_id.
Qed.

Lemma size_packMsg h d : size_of (packMsg h d) = sizeof_header + size_of d.
Proof. unfold packMsg. by rewrite size_of_app, size_header_image. Qed.

Lemma unpack_pack h d :
  header_ok h -> size_of d < 2 ^ 32 ->
  unpackMsg (Some (packMsg h d)) =
  Some (set_serial (set_hsize h (size_of d)) (swap_halves (serial h)), d).
Proof.
  intros [Ho Hr Ht Hs _] Hd. pose proof (size_of_nonneg d).
  unfold unpackMsg. rewrite size_packMsg, (proj2 (Z.ltb_ge _ _)) by (unfold sizeof_header; lia).
  unfold packMsg. rewrite drop_prefix by (rewrite size_header_image; done).
  rewrite load_header_image. unfold ntoh, hton, set_serial, set_hsize.
  cbn [origin reserve htype serial hsize].
  rewrite !ntohs_wrap_htons, !ntohl_wrap_htonl by (done || by apply wrap_range).
  rewrite (wrap_id 64) by (rewrite htonll_bswap by done; apply (bswap_range 8)).
  rewrite ntohll_htonll, wrap_id by done. done.
Qed.

(** [unpackMsg] after [packMsg] gives back the body and every header field,
    with the size set to the body's -- except the 64-bit serial, whose 32-bit
    halves come back exchanged, because [ntohll] does not invert [htonll]. *)
Theorem unpack_packMsg h d :
  header_ok h -> size_of d < 2 ^ 32 ->
  unpackMsg (Some (packMsg h d)) =
  Some (set_serial (set_hsize h (size_of d)) (swap_halves (serial h)), d).
Proof. apply unpack_pack. Qed.

(** A server's answer to a request: the serial it received, other fields its own. *)
Definition echo_serial (h : lymsg_header) (req : lymsg_header) : lymsg_header :=
  set_serial h (serial req).

(** A serial that a server copies from the request it received into its
    answer reaches the client unchanged: the two exchanges cancel, so request
    and response are matched although each side reads the serial exchanged. *)
Theorem echo_restores_serial hreq dreq hresp dresp :
  header_ok hreq -> header_ok hresp -> size_of dreq < 2 ^ 32 -> size_of dresp < 2 ^ 32 ->
  exists rh rd ch cd,
    unpackMsg (Some (packMsg hreq dreq)) = Some (rh, rd) /\
    unpackMsg (Some (packMsg (echo_serial hresp rh) dresp)) = Some (ch, cd) /\
    serial ch = serial hreq /\ cd = dresp.
Proof.
  intros Hq Hp Hdq Hdp. pose proof Hq as [_ _ _ Hs _].
  rewrite unpack_pack by done. do 2 eexists.
  set (rh := set_serial _ _).
  assert (header_ok (echo_serial hresp rh)) as He.
  { destruct Hp. constructor; try done. by apply swap_halves_range. }
  rewrite unpack_pack by done. do 2 eexists. split; [done|]. split; [done|].
  split; [|done]. by apply swap_halves_involutive.
Qed.

(** A message too short to hold a header is rejected. *)
Lemma unpack_short msg :
  unpackMsg msg = None <-> match msg with None => True | Some d => size_of d < sizeof_header end.
Proof.
  destruct msg as [d|]; simpl; [|done].
  destruct (Z.ltb_spec (size_of d) sizeof_header); split; done || lia.
Qed.

(** ** The protocol interface *)

Lemma load_hsize h m :
  size_of h = sizeof_header -> hsize (load_header (h ++ m)) = hsize (load_header h).
Proof.
  intros Hh. unfold load_header. cbn [hsize]. f_equal. unfold sub_bytes.
  rewrite drop_Z_app_le by (unfold sizeof_header in *; lia).
  apply take_app_le. rewrite length_drop. unfold size_of, sizeof_header in *. lia.
Qed.

#[export] Instance lymsg_laws : ProtocolLaws lymsg_protocol.
Proof.
  constructor; cbn [lymsg_protocol genHeartbeat isHeartbeat type headerSize bodySize MaxBodySize].
  - done.
  - done.
  - done.
  - intros [m|]; [|done]. unfold lymsg_bodySize. case_if; [done|]. apply bswap4_range.
  - intros h m Hh. unfold lymsg_bodySize. rewrite size_of_app, Hh.
    pose proof (size_of_nonneg m). unfold lymsg_headerSize in *.
    rewrite (proj2 (Z.ltb_ge _ _)) by lia. rewrite (proj2 (Z.ltb_ge _ _)) by lia.
    by rewrite load_hsize.
  - eexists; split; [done|]. vm_compute. done.
Qed.

(** [packMsg] produces exactly one frame of the protocol. *)
Lemma packMsg_frame h d :
  header_ok h -> size_of d < 2 ^ 32 ->
  lymsg_bodySize (Some (packMsg h d)) = size_of d /\ lymsg_type (Some (packMsg h d)) = htype h.
Proof.
  intros Hh Hd. pose proof (unpack_pack h d Hh Hd) as Hu. unfold unpackMsg in Hu.
  unfold lymsg_bodySize, lymsg_type. case_if; [done|].
  apply (inj Some), (f_equal fst) in Hu. cbn [fst] in Hu. split.
  - exact (f_equal hsize Hu).
  - exact (f_equal htype Hu).
Qed.

(** ** Witnesses *)

Definition sample_header : lymsg_header := MkHeader 16 0 5 101 0.

Lemma sample_header_ok : header_ok sample_header.
Proof. constructor; simpl; split; reflexivity || discriminate. Qed.

Lemma packMsg_wire_witness :
  packMsg sample_header [x61] =
  [x00; x10; x00; x00; x00; x00; x00; x05; x00; x00; x00; x00; x00; x00; x00; x65;
   x00; x00; x00; x01; x61].
Proof. rewrite (packMsg_wire sample_header [x61] sample_header_ok). reflexivity. Defined.

(** Serial 101 arrives as 101 * 2^32. *)
Lemma unpack_packMsg_witness :
  unpackMsg (Some (packMsg sample_header [x61])) =
  Some (MkHeader 16 0 5 433791696896 1, [x61]).
Proof. rewrite (unpack_packMsg sample_header [x61] sample_header_ok); reflexivity. Defined.

Lemma echo_restores_serial_witness :
  exists rh rd ch cd,
    unpackMsg (Some (packMsg sample_header [x61])) = Some (rh, rd) /\
    unpackMsg (Some (packMsg (echo_serial sample_header rh) [])) = Some (ch, cd) /\
    serial ch = 101 /\ cd = [].
Proof.
  exact (echo_restores_serial sample_header [x61] sample_header []
    sample_header_ok sample_header_ok eq_refl eq_refl).
Defined.
