(* ===== verification/Framing.v ===== *)
(** * Cutting the byte stream into messages ([_PopMsg] of [zbf/socket_tcp_v5.hpp])

    [_PopMsg] takes one message off the receive cache; [drain] is the loop
    [while ((msg = getRecvMsg()) != nullptr)] that both I/O threads run on it.
    [split] is the reference: how a byte stream divides into frames,
    independently of how it arrived. *)

From S2P Require Import Prelude MemChunk TcpMessage.

(** ** The code *)

Definition _PopMsg (recvCache : memchunk) (proto : option protocol) : option bytes * memchunk :=
  match proto with
  | None => (None, recvCache)
  | Some p =>
      let headerSz := headerSize p in
      if datasize recvCache <? headerSz then (None, recvCache)
      else
        let tmpMsg := take (Z.to_nat headerSz) (buffer recvCache) in
        let bodySz := bodySize p (Some tmpMsg) in
        if MaxBodySize p <? bodySz
        then (None, snd (pop recvCache (datasize recvCache)))
        else
          let totalSz := wrap 32 (headerSz + bodySz) in
          if totalSz <=? datasize recvCache
          then (Some (take (Z.to_nat totalSz) (buffer recvCache)), snd (pop recvCache totalSz))
          else (None, recvCache)
  end.

(** The receive loop; [None] when the fuel does not suffice. *)
Fixpoint drain (fuel : nat) (c : memchunk) (proto : option protocol) : option (list bytes * memchunk) :=
  match fuel with
  | O => None
  | S fuel =>
      match _PopMsg c proto with
      | (None, c1) => Some ([], c1)
      | (Some m, c1) =>
          match drain fuel c1 proto with
          | None => None
          | Some (ms, c2) => Some (m :: ms, c2)
          end
      end
  end.

(** ** The reference: frames of a stream *)

Inductive peek_result :=
| NeedMore
| TooLarge
| FrameOf (n : Z).

Definition peek (p : protocol) (s : bytes) : peek_result :=
  if size_of s <? headerSize p then NeedMore
  else
    let b := bodySize p (Some (take (Z.to_nat (headerSize p)) s)) in
    if MaxBodySize p <? b then TooLarge
    else if headerSize p + b <=? size_of s then FrameOf (headerSize p + b) else NeedMore.

(** Complete frames and the incomplete rest; [None] if a frame announces a body
    above the protocol's maximum. *)
Fixpoint split_fuel (fuel : nat) (p : protocol) (s : bytes) : option (list bytes * bytes) :=
  match peek p s with
  | NeedMore => Some ([], s)
  | TooLarge => None
  | FrameOf n =>
      match fuel with
      | O => None
      | S fuel =>
          match split_fuel fuel p (drop (Z.to_nat n) s) with
          | None => None
          | Some (ms, r) => Some (take (Z.to_nat n) s :: ms, r)
          end
      end
  end.

Definition split (p : protocol) (s : bytes) : option (list bytes * bytes) :=
  split_fuel (length s) p s.

(** A string that is exactly one frame. *)
Definition is_frame (p : protocol) (m : bytes) : Prop :=
  headerSize p <= size_of m /\ bodySize p (Some m) <= MaxBodySize p /\
  size_of m = headerSize p + bodySize p (Some m).

Definition prepend (ms : list bytes) (r : option (list bytes * bytes)) : option (list bytes * bytes) :=
  match r with
  | None => None
  | Some (ms', r') => Some (ms ++ ms', r')
  end.

(** ** Lemmas on the reference *)

Section laws.
Context (p : protocol) `{ProtocolLaws p}.

Lemma body_of_take s t :
  headerSize p <= size_of s ->
  bodySize p (Some (s ++ t)) = bodySize p (Some (take (Z.to_nat (headerSize p)) s)).
Proof.
  intros Hs. pose proof header_pos.
  rewrite <- (take_drop (Z.to_nat (headerSize p)) s) at 1. rewrite <- app_assoc.
  apply body_of_header. apply size_of_take. lia.
Qed.

Lemma peek_frame_range s n : peek p s = FrameOf n -> 0 < n <= size_of s.
Proof.
  unfold peek. pose proof header_pos.
  pose proof (body_range (Some (take (Z.to_nat (headerSize p)) s))) as [? _].
  repeat case_if; try discriminate. intros [= <-]. bool_Z. lia.
Qed.

Lemma peek_app_frame s t n : peek p s = FrameOf n -> peek p (s ++ t) = FrameOf n.
Proof.
  unfold peek. pose proof header_pos. pose proof (size_of_nonneg t).
  destruct (Z.ltb_spec (size_of s) (headerSize p)); [done|].
  rewrite size_of_app, (proj2 (Z.ltb_ge (size_of s + size_of t) _)) by lia.
  rewrite take_Z_app_le by lia. case_if; [done|].
  destruct (Z.leb_spec (headerSize p + bodySize p (Some (take (Z.to_nat (headerSize p)) s))) (size_of s)); [|done].
  rewrite (proj2 (Z.leb_le _ (size_of s + size_of t))) by lia. done.
Qed.

Lemma peek_frame_shrink s t n :
  n <= size_of s -> peek p (s ++ t) = FrameOf n -> peek p s = FrameOf n.
Proof.
  intros Hn Hp. pose proof (peek_frame_range _ _ Hp). revert Hp.
  unfold peek. pose proof header_pos.
  set (b := fun x => bodySize p (Some (take (Z.to_nat (headerSize p)) x))).
  assert (forall x, 0 <= b x) as Hb by (intros x; apply body_range).
  fold (b s) (b (s ++ t)). case_if; [done|]. case_if; [done|]. case_if; [|done]. intros [= Hn'].
  assert (b (s ++ t) = b s) as Eb.
  { unfold b. rewrite take_Z_app_le; [done|]. specialize (Hb (s ++ t)). lia. }
  rewrite Eb in *. bool_Z. specialize (Hb s). rewrite (proj2 (Z.ltb_ge _ (headerSize p))) by lia.
  rewrite (proj2 (Z.ltb_ge _ (b s))) by lia. by rewrite (proj2 (Z.leb_le _ _)), Hn' by lia.
Qed.

Lemma peek_app_large s t : peek p s = TooLarge -> peek p (s ++ t) = TooLarge.
Proof.
  unfold peek. pose proof header_pos. pose proof (size_of_nonneg t).
  destruct (Z.ltb_spec (size_of s) (headerSize p)); [done|].
  rewrite size_of_app, (proj2 (Z.ltb_ge (size_of s + size_of t) _)) by lia.
  rewrite take_Z_app_le by lia. case_if; [done|]. by case_if.
Qed.

Lemma length_drop_frame s n :
  peek p s = FrameOf n -> (length (drop (Z.to_nat n) s) < length s)%nat.
Proof. intros Hp%peek_frame_range. rewrite length_drop. unfold size_of in *. lia. Qed.

(** Any fuel above the length gives the same result. *)
Lemma split_fuel_enough f s : (length s <= f)%nat -> split_fuel f p s = split p s.
Proof.
  unfold split. revert s. induction f as [f IH] using lt_wf_ind. intros s Hf.
  destruct f as [|f]; destruct (length s) as [|k] eqn:Hk; cbn [split_fuel]; try lia; [done|..].
  all: destruct (peek p s) as [| |n] eqn:Hp; try done.
  - apply peek_frame_range in Hp. unfold size_of in Hp. lia.
  - apply length_drop_frame in Hp. rewrite Hk in Hp.
    rewrite (IH f), (IH k) by lia. done.
Qed.

Lemma split_unfold s :
  split p s = match peek p s with
              | NeedMore => Some ([], s)
              | TooLarge => None
              | FrameOf n => prepend [take (Z.to_nat n) s] (split p (drop (Z.to_nat n) s))
              end.
Proof.
  unfold split at 1. destruct (length s) as [|k] eqn:Hk; cbn [split_fuel];
    destruct (peek p s) as [| |n] eqn:Hp; try done.
  - apply peek_frame_range in Hp. unfold size_of in Hp. lia.
  - apply length_drop_frame in Hp. rewrite split_fuel_enough by lia.
    by destruct (split p (drop (Z.to_nat n) s)) as [[??]|].
Qed.

Lemma split_need s : peek p s = NeedMore -> split p s = Some ([], s).
Proof. intros Hp. by rewrite split_unfold, Hp. Qed.

(** What is left over is always an incomplete frame. *)
Lemma split_rest s ms r : split p s = Some (ms, r) -> peek p r = NeedMore.
Proof.
  revert ms. induction s as [s IH] using (induction_ltof1 _ (@length byte)); unfold ltof in IH.
  intros ms. rewrite split_unfold. destruct (peek p s) as [| |n] eqn:Hp; [congruence|done|].
  destruct (split p (drop (Z.to_nat n) s)) as [[ms' r']|] eqn:E; [|done].
  intros [= _ <-]. eapply IH; [|done]. by apply length_drop_frame.
Qed.

(** Splitting is compositional: what has been cut stays cut. *)
Lemma split_app s t ms r : split p s = Some (ms, r) -> split p (s ++ t) = prepend ms (split p (r ++ t)).
Proof.
  revert ms. induction s as [s IH] using (induction_ltof1 _ (@length byte)); unfold ltof in IH.
  intros ms. rewrite split_unfold. destruct (peek p s) as [| |n] eqn:Hp; [|done|].
  - intros [= <- <-]. by destruct (split p (s ++ t)) as [[??]|].
  - destruct (split p (drop (Z.to_nat n) s)) as [[ms' r']|] eqn:E; [|done].
    intros [= <- <-]. pose proof (peek_frame_range _ _ Hp).
    rewrite split_unfold, (peek_app_frame _ _ _ Hp), take_Z_app_le, drop_Z_app_le by lia.
    rewrite (IH (drop (Z.to_nat n) s) (length_drop_frame _ _ Hp) ms' E).
    by destruct (split p (r' ++ t)) as [[??]|].
Qed.

(** Nothing is lost or invented. *)
Lemma split_concat s ms r : split p s = Some (ms, r) -> concat ms ++ r = s.
Proof.
  revert ms. induction s as [s IH] using (induction_ltof1 _ (@length byte)); unfold ltof in IH.
  intros ms. rewrite split_unfold. destruct (peek p s) as [| |n] eqn:Hp; [|done|].
  - by intros [= <- <-].
  - destruct (split p (drop (Z.to_nat n) s)) as [[ms' r']|] eqn:E; [|done].
    intros [= <- <-]. cbn [app concat]. rewrite <- app_assoc.
    rewrite (IH _ (length_drop_frame _ _ Hp) ms' E). apply take_drop.
Qed.

Lemma peek_is_frame m t : is_frame p m -> peek p (m ++ t) = FrameOf (size_of m).
Proof.
  intros (Hh & Hb & Hs). apply peek_app_frame. unfold peek. pose proof header_pos.
  rewrite (proj2 (Z.ltb_ge _ _)) by lia.
  rewrite <- (body_of_take m []), app_nil_r by done.
  rewrite (proj2 (Z.ltb_ge _ _)) by lia. rewrite (proj2 (Z.leb_le _ _)) by lia. by rewrite <- Hs.
Qed.

Lemma split_app_None s t : split p s = None -> split p (s ++ t) = None.
Proof.
  induction s as [s IH] using (induction_ltof1 _ (@length byte)); unfold ltof in IH.
  rewrite split_unfold. destruct (peek p s) as [| |n] eqn:Hp; [done| |].
  - intros _. by rewrite split_unfold, (peek_app_large _ _ Hp).
  - destruct (split p (drop (Z.to_nat n) s)) as [[ms' r']|] eqn:E; [done|]. intros _.
    pose proof (peek_frame_range _ _ Hp).
    rewrite split_unfold, (peek_app_frame _ _ _ Hp), take_Z_app_le, drop_Z_app_le by lia.
    by rewrite (IH _ (length_drop_frame _ _ Hp) E).
Qed.

(** A strict prefix of a frame is an incomplete frame. *)
Lemma peek_prefix_frame m s t :
  is_frame p m -> m = s ++ t -> size_of s < size_of m -> peek p s = NeedMore.
Proof.
  intros Hm Heq Hlt. pose proof (peek_is_frame m [] Hm) as Hp. rewrite app_nil_r in Hp.
  destruct (peek p s) as [| |n] eqn:E; [done| |]; subst m.
  - by rewrite (peek_app_large _ _ E) in Hp.
  - rewrite (peek_app_frame _ _ _ E) in Hp. injection Hp as ->.
    apply peek_frame_range in E. lia.
Qed.

(** Concatenated frames, followed by an incomplete one, split back. *)
Lemma split_frames ms t :
  Forall (is_frame p) ms -> peek p t = NeedMore -> split p (concat ms ++ t) = Some (ms, t).
Proof.
  intros Hms Ht. induction Hms as [|m ms Hm Hms IH]; cbn [concat app].
  - by apply split_need.
  - rewrite <- app_assoc, split_unfold, peek_is_frame, take_size_app, drop_size_app, IH by done. done.
Qed.

Lemma peek_nil : peek p [] = NeedMore.
Proof.
  unfold peek. pose proof header_pos. rewrite (proj2 (Z.ltb_lt _ _)); [done|].
  change (size_of (@nil byte)) with 0. lia.
Qed.

(** A prefix of a stream of frames splits into the first frames. *)
Lemma split_prefix ms s n :
  0 <= n -> Forall (is_frame p) ms -> Forall (fun m => size_of m <= n) ms -> s `prefix_of` concat ms ->
  exists ms1 r, split p s = Some (ms1, r) /\ ms1 `prefix_of` ms /\ size_of r <= n.
Proof.
  intros Hn Hms. revert s. induction Hms as [|m ms Hm Hms IH]; intros s Hsz Hpre; cbn [concat] in Hpre.
  - apply prefix_nil_inv in Hpre as ->. exists [], []. rewrite split_need by apply peek_nil. done.
  - apply Forall_cons in Hsz as [Hm' Hsz]. destruct Hpre as [t Ht].
    destruct (Z.lt_ge_cases (size_of s) (size_of m)) as [Hlt|Hge].
    + exists [], s. rewrite split_need; [split_and!; [done|apply prefix_nil|lia]|].
      apply (peek_prefix_frame m s (drop (length s) m)); [done| |done].
      apply (f_equal (take (length m))) in Ht. rewrite take_app_length in Ht.
      rewrite take_app_ge in Ht by (unfold size_of in *; lia).
      apply (f_equal (drop (length s))) in Ht as Hd. rewrite drop_app_length in Hd.
      rewrite Hd. by rewrite Ht at 1.
    + destruct (IH (drop (length m) s) Hsz) as (ms1 & r & Hs1 & [k Hk] & Hr).
      { exists t. apply (f_equal (drop (length m))) in Ht. rewrite drop_app_length in Ht.
        rewrite drop_app_le in Ht; [done|]. unfold size_of in *. lia. }
      assert (s = m ++ drop (length m) s) as Es.
      { rewrite <- (take_drop (length m) s) at 1. f_equal.
        apply (f_equal (take (length m))) in Ht. rewrite take_app_length in Ht.
        rewrite take_app_le in Ht; [done|]. unfold size_of in *. lia. }
      rewrite Es, split_unfold, peek_is_frame, take_size_app, drop_size_app by done.
      rewrite Hs1. exists (m :: ms1), r. subst ms. split_and!; [done| |done].
      by exists k.
Qed.

(** ** The code against the reference *)

Lemma _PopMsg_peek c :
  chunk_wf c -> datasize c < 2 ^ 31 ->
  match peek p (content c) with
  | NeedMore => _PopMsg c (Some p) = (None, c)
  | TooLarge => exists c', _PopMsg c (Some p) = (None, c') /\ chunk_wf c' /\
      content c' = [] /\ blocksize c' = blocksize c
  | FrameOf n => exists c', _PopMsg c (Some p) = (Some (take (Z.to_nat n) (content c)), c') /\
      chunk_wf c' /\ content c' = drop (Z.to_nat n) (content c) /\ blocksize c' = blocksize c
  end.
Proof.
  intros Hwf Hlt. pose proof header_pos. pose proof max_nonneg. pose proof frame_range.
  pose proof (size_content c Hwf) as Hsz.
  assert (forall n, 0 <= n <= datasize c ->
    take (Z.to_nat n) (buffer c) = take (Z.to_nat n) (content c)) as Htk.
  { intros n Hn. unfold content. rewrite take_take. f_equal. lia. }
  unfold peek, _PopMsg. rewrite Hsz.
  destruct (Z.ltb_spec (datasize c) (headerSize p)); [done|].
  rewrite Htk by lia.
  set (b := bodySize p _). assert (in_uint 32 b) as [Hb0 _] by apply body_range.
  destruct (Z.ltb_spec (MaxBodySize p) b).
  - destruct (pop_spec c (datasize c) Hwf ltac:(lia)) as (_ & Hwf' & Hc & _ & Hbk).
    eexists; split; [done|]. split; [done|]. split; [|done]. rewrite Hc.
    apply drop_ge. unfold size_of in Hsz. lia.
  - rewrite wrap_id by (unfold in_uint; lia).
    destruct (Z.leb_spec (headerSize p + b) (datasize c)); [|done].
    rewrite Htk by lia.
    destruct (pop_spec c (headerSize p + b) Hwf ltac:(lia)) as (_ & Hwf' & Hc & _ & Hbk).
    by eexists.
Qed.

(** The loop ends, and returns the frames of the reference. *)
Lemma drain_split fuel c ms r :
  chunk_wf c -> datasize c < 2 ^ 31 -> (length (content c) < fuel)%nat ->
  split p (content c) = Some (ms, r) ->
  exists c', drain fuel c (Some p) = Some (ms, c') /\ chunk_wf c' /\ content c' = r /\
    blocksize c' = blocksize c.
Proof.
  revert c ms. induction fuel as [|fuel IH]; [lia|]. intros c ms Hwf Hlt Hf. cbn [drain].
  pose proof (_PopMsg_peek c Hwf Hlt) as Hp. rewrite split_unfold.
  destruct (peek p (content c)) as [| |n] eqn:E; [|done|].
  - rewrite Hp. intros [= <- <-]. by exists c.
  - destruct Hp as (c1 & -> & Hwf1 & Hc1 & Hb1).
    destruct (split p (drop (Z.to_nat n) (content c))) as [[ms' r']|] eqn:E2; [|done].
    intros [= <- <-]. rewrite <- Hc1 in E2.
    pose proof (size_content c Hwf) as Hs. pose proof (size_content c1 Hwf1) as Hs1.
    pose proof (length_drop_frame _ _ E) as Hl. rewrite <- Hc1 in Hl. unfold size_of in *.
    destruct (IH c1 ms' Hwf1 ltac:(lia) ltac:(lia) E2) as (c2 & -> & Hwf2 & Hc2 & Hb2).
    exists c2. split; [done|]. split; [done|]. split; [done|]. congruence.
Qed.

(** The loop ends whatever the cache holds. *)
Lemma drain_total fuel c :
  chunk_wf c -> datasize c < 2 ^ 31 -> (length (content c) < fuel)%nat ->
  exists ms c', drain fuel c (Some p) = Some (ms, c') /\ chunk_wf c' /\ blocksize c' = blocksize c /\
    peek p (content c') = NeedMore.
Proof.
  revert c. induction fuel as [|fuel IH]; [lia|]. intros c Hwf Hlt Hf. cbn [drain].
  pose proof (_PopMsg_peek c Hwf Hlt) as Hp.
  destruct (peek p (content c)) as [| |n] eqn:E.
  - rewrite Hp. by exists [], c.
  - destruct Hp as (c1 & -> & Hwf1 & Hc1 & Hb1). exists [], c1.
    split; [done|]. split; [done|]. split; [done|]. rewrite Hc1. apply peek_nil.
  - destruct Hp as (c1 & -> & Hwf1 & Hc1 & Hb1).
    pose proof (size_content c Hwf) as Hs. pose proof (size_content c1 Hwf1) as Hs1.
    pose proof (length_drop_frame _ _ E) as Hl. rewrite <- Hc1 in Hl. unfold size_of in *.
    destruct (IH c1 Hwf1 ltac:(lia) ltac:(lia)) as (ms & c2 & -> & Hwf2 & Hb2 & Hn).
    exists (take (Z.to_nat n) (content c) :: ms), c2.
    split; [done|]. split; [done|]. split; [congruence|done].
Qed.

End laws.
