(* ===== verification/SocketPoll.v ===== *)
(** * The poller ([zbf/socket_poll.hpp])

    The transport talks to [socket_poll] through five static functions.
    [Poller] is that interface, with the laws its users rely on: which
    descriptors are registered and with which interest. On Linux the functions
    are one system call each ([epoll_ctl] and friends, not modelled); for
    Windows the file implements them over [WSAPoll], and [WinPoll] is that
    implementation, proved to satisfy the interface. *)

From S2P Require Import Prelude.

Definition INVALID_SOCK : Z := -1.
Definition MAX_EVENT : Z := 64.

(** [struct event], without the user pointer [ud]. *)
Record event := MkEvent {
  ev_fd : Z;
  ev_read : bool;
  ev_write : bool;
  ev_error : bool;
  ev_eof : bool;
}.

(** ** The interface *)

Class Poller (P : Type) := {
  sp_add : P -> Z -> Z -> bool -> Z * P;
  sp_del : P -> Z -> Z -> P;
  sp_enable : P -> Z -> Z -> bool -> bool -> Z * P;
  (** The interest (read, write) registered for a descriptor on an instance. *)
  interest : P -> Z -> Z -> option (bool * bool);
}.

Class PollerLaws (P : Type) `{Poller P} : Prop := {
  add_fresh : forall p efd fd w, interest p efd fd = None ->
    fst (sp_add p efd fd w) = 0 /\
    interest (snd (sp_add p efd fd w)) efd fd = Some (true, w);
  add_taken : forall p efd fd w, interest p efd fd <> None ->
    fst (sp_add p efd fd w) <> 0 /\ snd (sp_add p efd fd w) = p;
  enable_known : forall p efd fd r w, interest p efd fd <> None ->
    fst (sp_enable p efd fd r w) = 0 /\
    interest (snd (sp_enable p efd fd r w)) efd fd = Some (r, w);
  enable_unknown : forall p efd fd r w, interest p efd fd = None ->
    fst (sp_enable p efd fd r w) <> 0 /\ snd (sp_enable p efd fd r w) = p;
  del_gone : forall p efd fd, interest (sp_del p efd fd) efd fd = None;
  add_frame : forall p efd fd w e f, (e, f) <> (efd, fd) ->
    interest (snd (sp_add p efd fd w)) e f = interest p e f;
  enable_frame : forall p efd fd r w e f, (e, f) <> (efd, fd) ->
    interest (snd (sp_enable p efd fd r w)) e f = interest p e f;
  del_frame : forall p efd fd e f, (e, f) <> (efd, fd) ->
    interest (sp_del p efd fd) e f = interest p e f;
}.

(** Creating and releasing instances. *)
Class PollerFactory (P : Type) := {
  sp_create : P -> Z * P;
  sp_invalid : Z -> bool;
  sp_release : P -> Z -> P;
}.

(** ** The Windows implementation *)

Module WinPoll.

Record fd_entry := MkEntry { fd : Z; events : Z (* short *) }.

Record state := MkState { _instances : gmap Z (list fd_entry); _next_id : Z }.

Definition sp_invalid (efd : Z) : bool := efd =? 0.

Fixpoint _find_fd (entries : list fd_entry) (f : Z) : option fd_entry :=
  match entries with
  | [] => None
  | e :: es => if fd e =? f then Some e else _find_fd es f
  end.

(** Assignment through the pointer [_find_fd] returns: the first entry with
    that descriptor changes. *)
Fixpoint set_events (entries : list fd_entry) (f ev : Z) : list fd_entry :=
  match entries with
  | [] => []
  | e :: es => if fd e =? f then MkEntry (fd e) ev :: es else e :: set_events es f ev
  end.

Definition sp_create (s : state) : Z * state :=
  let id := _next_id s + 1 in (id, MkState (<[id := []]> (_instances s)) id).

Definition sp_release (s : state) (efd : Z) : state :=
  MkState (delete efd (_instances s)) (_next_id s).

(** [_instances[efd]] creates a missing instance. *)
Definition entries_of (s : state) (efd : Z) : list fd_entry := default [] (_instances s !! efd).

Section flags.
(** The [winsock2.h] flag values. *)
Context (POLLIN POLLOUT POLLERR POLLHUP : Z).

Definition flag_bits (r w : bool) : Z :=
  swrap 16 (Z.lor (if r then POLLIN else 0) (if w then POLLOUT else 0)).

Definition sp_add_ex (s : state) (efd f : Z) (write_enable : bool) : Z * state :=
  let entries := entries_of s efd in
  match _find_fd entries f with
  | Some _ => (1, MkState (<[efd := entries]> (_instances s)) (_next_id s))
  | None => (0, MkState (<[efd := entries ++ [MkEntry f (flag_bits true write_enable)]]> (_instances s)) (_next_id s))
  end.

Definition sp_del (s : state) (efd f : Z) : state :=
  match _instances s !! efd with
  | None => s
  | Some entries =>
      MkState (<[efd := filter (fun e => fd e <> f) entries]> (_instances s)) (_next_id s)
  end.

Definition sp_enable_ex (s : state) (efd f : Z) (r w : bool) : Z * state :=
  match _instances s !! efd with
  | None => (1, s)
  | Some entries =>
      match _find_fd entries f with
      | None => (1, s)
      | Some _ => (0, MkState (<[efd := set_events entries f (flag_bits r w)]> (_instances s)) (_next_id s))
      end
  end.

Definition has_flag (rev flag : Z) : bool := negb (Z.land rev flag =? 0).

(** The loop of [sp_wait] over the polled descriptors and their [revents]. *)
Fixpoint collect (polled : list (fd_entry * Z)) (count max : Z) : list event :=
  match polled with
  | [] => []
  | (e, rev) :: rest =>
      if count <? max then
        if rev =? 0 then collect rest count max
        else MkEvent (fd e) (has_flag rev POLLIN) (has_flag rev POLLOUT)
               (has_flag rev POLLERR) (has_flag rev POLLHUP) :: collect rest (count + 1) max
      else []
  end.

(** [WSAPoll] is the parameter [poll]: its return value and the [revents]. The
    result is the return value and the events written. *)
Definition sp_wait (poll : list fd_entry -> Z * list Z) (s : state) (efd max : Z) : Z * list event :=
  let max := if MAX_EVENT <? max then MAX_EVENT else max in
  match _instances s !! efd with
  | None => (-1, [])
  | Some snapshot =>
      if size_of snapshot =? 0 then (0, [])
      else
        let '(n, revents) := poll snapshot in
        if n <=? 0 then (n, [])
        else let evs := collect (zip snapshot revents) 0 max in (size_of evs, evs)
  end.

Definition win_interest (s : state) (efd f : Z) : option (bool * bool) :=
  e ← _find_fd (entries_of s efd) f;
  Some (has_flag (events e) POLLIN, has_flag (events e) POLLOUT).

#[export] Instance win_poller : Poller state := {|
  SocketPoll.sp_add := sp_add_ex;
  SocketPoll.sp_del := sp_del;
  SocketPoll.sp_enable := sp_enable_ex;
  SocketPoll.interest := win_interest;
|}.

End flags.

(** What the interface needs of the flag values: distinct bits of a [short]. *)
Definition flags_ok (POLLIN POLLOUT : Z) : Prop :=
  forall r w,
    has_flag (flag_bits POLLIN POLLOUT r w) POLLIN = r /\
    has_flag (flag_bits POLLIN POLLOUT r w) POLLOUT = w.

(** ** Lemmas *)

Lemma find_fd_app es f e :
  _find_fd es f = None -> _find_fd (es ++ [e]) f = if fd e =? f then Some e else None.
Proof.
  induction es as [|e' es IH]; cbn [_find_fd app]; [done|].
  by destruct (Z.eqb_spec (fd e') f).
Qed.

Lemma find_fd_app_ne es f e : fd e <> f -> _find_fd (es ++ [e]) f = _find_fd es f.
Proof.
  intros Hne. induction es as [|e' es IH]; cbn [_find_fd app].
  - by rewrite (proj2 (Z.eqb_neq _ _)).
  - by rewrite IH.
Qed.

Lemma find_set_events es f ev e :
  _find_fd es f = Some e -> _find_fd (set_events es f ev) f = Some (MkEntry (fd e) ev).
Proof.
  induction es as [|e' es IH]; cbn [_find_fd set_events]; [done|].
  destruct (Z.eqb_spec (fd e') f) as [E|E]; cbn [_find_fd fd].
  - intros [= ->]. by rewrite (proj2 (Z.eqb_eq _ _) E).
  - rewrite (proj2 (Z.eqb_neq _ _) E). done.
Qed.

Lemma find_set_events_ne es f ev g : f <> g -> _find_fd (set_events es f ev) g = _find_fd es g.
Proof.
  intros Hne. induction es as [|e' es IH]; cbn [_find_fd set_events]; [done|].
  destruct (Z.eqb_spec (fd e') f) as [E|E]; cbn [_find_fd fd]; [|by rewrite IH].
  by rewrite (proj2 (Z.eqb_neq (fd e') g)) by congruence.
Qed.

Lemma find_filter_ne es f g : f <> g -> _find_fd (filter (fun e => fd e <> f) es) g = _find_fd es g.
Proof.
  intros Hne. induction es as [|e' es IH]; [done|]. rewrite filter_cons.
  cbn [_find_fd]. case_decide as E; cbn [_find_fd]; rewrite IH; [done|].
  assert (fd e' = f) as -> by (destruct (Z.eq_dec (fd e') f); [done|contradiction]).
  by rewrite (proj2 (Z.eqb_neq _ _)).
Qed.

Lemma find_filter es f : _find_fd (filter (fun e => fd e <> f) es) f = None.
Proof.
  induction es as [|e' es IH]; [done|]. rewrite filter_cons.
  case_decide as E; cbn [_find_fd]; [|done]. by rewrite (proj2 (Z.eqb_neq _ _)).
Qed.

Lemma entries_of_insert s efd es e n :
  entries_of (MkState (<[efd := es]> (_instances s)) n) e = if decide (efd = e) then es else entries_of s e.
Proof. unfold entries_of; simpl. rewrite lookup_insert. by case_decide. Qed.

Lemma insert_entries_id s efd :
  _instances s !! efd = Some (entries_of s efd) ->
  MkState (<[efd := entries_of s efd]> (_instances s)) (_next_id s) = s.
Proof. intros Hl. rewrite insert_id by done. by destruct s. Qed.

Lemma find_entries_Some s efd f e :
  _find_fd (entries_of s efd) f = Some e -> _instances s !! efd = Some (entries_of s efd).
Proof. unfold entries_of. by destruct (_instances s !! efd). Qed.

(** Descriptors are registered at most once per instance. *)
Definition state_wf (s : state) : Prop :=
  forall efd es, _instances s !! efd = Some es -> NoDup (map fd es).

Lemma find_fd_None es f : _find_fd es f = None <-> f ∉ map fd es.
Proof.
  induction es as [|e es IH]; cbn [_find_fd map].
  - split; [|done]. intros _ Hin. by apply elem_of_nil in Hin.
  - rewrite not_elem_of_cons. destruct (Z.eqb_spec (fd e) f) as [E|E].
    + split; [done|]. intros [Hn _]. congruence.
    + rewrite IH. split; [intros Hn; split; [congruence|done] | by intros []].
Qed.

Lemma map_fd_set_events es f ev : map fd (set_events es f ev) = map fd es.
Proof.
  induction es as [|e es IH]; cbn [set_events map]; [done|].
  destruct (fd e =? f); cbn [map]; [done|]. by rewrite IH.
Qed.

Lemma collect_count IN OUT ERR HUP polled count max :
  size_of (collect IN OUT ERR HUP polled count max) <= Z.max 0 (max - count).
Proof.
  revert count. induction polled as [|[e rev] rest IH]; intros count; cbn [collect].
  - change (size_of (@nil event)) with 0. lia.
  - destruct (Z.ltb_spec count max).
    + case_if; [apply IH|]. rewrite size_of_cons. specialize (IH (count + 1)). lia.
    + change (size_of (@nil event)) with 0. lia.
Qed.

Lemma collect_fds IN OUT ERR HUP polled count max ev :
  ev ∈ collect IN OUT ERR HUP polled count max ->
  exists e rev, (e, rev) ∈ polled /\ rev <> 0 /\ fd e = ev_fd ev.
Proof.
  revert count. induction polled as [|[e rev] rest IH]; intros count; cbn [collect].
  - by intros ?%elem_of_nil.
  - case_if; [|by intros ?%elem_of_nil]. destruct (Z.eqb_spec rev 0).
    + intros (e' & r' & ? & ?)%IH. exists e', r'. rewrite elem_of_cons. auto.
    + rewrite elem_of_cons. intros [->|(e' & r' & ? & ?)%IH].
      * exists e, rev. rewrite elem_of_cons. auto.
      * exists e', r'. rewrite elem_of_cons. auto.
Qed.

Section laws.
Context (POLLIN POLLOUT : Z) (Hflags : flags_ok POLLIN POLLOUT).
#[local] Instance local_poller : Poller state := win_poller POLLIN POLLOUT.

Lemma win_laws : PollerLaws state.
Proof.
  assert (forall e, has_flag (flag_bits POLLIN POLLOUT true e) POLLIN = true) as Hr by apply Hflags.
  constructor; unfold SocketPoll.sp_add, SocketPoll.sp_enable, SocketPoll.sp_del, interest,
    local_poller, win_poller, win_interest, sp_add_ex, sp_enable_ex, sp_del; cbn [fst snd].
  - intros s efd f w Hn. destruct (_find_fd (entries_of s efd) f) as [e|] eqn:E; [done|]. split; [done|].
    cbn [snd]. rewrite entries_of_insert, decide_True, find_fd_app by done. cbn [fd].
    rewrite Z.eqb_refl. cbn. by destruct (Hflags true w) as [-> ->].
  - intros s efd f w Hn. destruct (_find_fd (entries_of s efd) f) as [e|] eqn:E; [|done]. split; [done|].
    eapply insert_entries_id, find_entries_Some, E.
  - intros s efd f r w Hn. destruct (_find_fd (entries_of s efd) f) as [e|] eqn:E; [|done].
    rewrite (find_entries_Some _ _ _ _ E), E. split; [done|]. cbn [snd].
    rewrite entries_of_insert, decide_True, (find_set_events _ _ _ e) by done.
    cbn. by destruct (Hflags r w) as [-> ->].
  - intros s efd f r w Hn. destruct (_find_fd (entries_of s efd) f) as [e|] eqn:E; [done|].
    destruct (_instances s !! efd) as [es|] eqn:El; [|done].
    unfold entries_of in E. rewrite El in E. cbn in E. by rewrite E.
  - intros s efd f. destruct (_instances s !! efd) as [es|] eqn:El.
    + by rewrite entries_of_insert, decide_True, find_filter.
    + unfold entries_of. by rewrite El.
  - intros s efd f w e g Hne. destruct (_find_fd (entries_of s efd) f) as [x|] eqn:E; cbn [snd];
      rewrite entries_of_insert; case_decide as Hd; try done; subst e; [done|].
    rewrite find_fd_app_ne; [done|]. cbn. congruence.
  - intros s efd f r w e g Hne. destruct (_instances s !! efd) as [es|] eqn:El; [|done].
    destruct (_find_fd es f) as [x|] eqn:E; [|done]. cbn [snd].
    rewrite entries_of_insert. case_decide as Hd; [|done]. subst e.
    rewrite find_set_events_ne by congruence. unfold entries_of. by rewrite El.
  - intros s efd f e g Hne. destruct (_instances s !! efd) as [es|] eqn:El; [|done].
    rewrite entries_of_insert. case_decide as Hd; [|done]. subst e.
    rewrite find_filter_ne by congruence. unfold entries_of. by rewrite El.
Qed.

(** The Windows implementation satisfies the poller interface: [sp_add]
    registers a new descriptor with the requested interest and refuses a
    registered one without changing anything, [sp_enable] changes the interest
    of a registered descriptor and refuses an unknown one, [sp_del] removes it,
    and no call touches another descriptor or another instance. *)
Theorem win_poller_laws : PollerLaws state.
Proof. exact win_laws. Qed.

End laws.

(** [sp_wait] reports at most [min(max, MAX_EVENT)] events, each for a
    descriptor registered on the instance that the system call marked. *)
Theorem sp_wait_bounded IN OUT ERR HUP poll s efd max n evs :
  sp_wait IN OUT ERR HUP poll s efd max = (n, evs) ->
  size_of evs <= Z.max 0 (Z.min max MAX_EVENT) /\
  (0 < n -> n = size_of evs) /\
  forall ev, ev ∈ evs -> ev_fd ev ∈ map fd (entries_of s efd).
Proof.
  unfold sp_wait, entries_of.
  set (m := if MAX_EVENT <? max then MAX_EVENT else max).
  assert (m = Z.min max MAX_EVENT) as Hm by (unfold m; case_if; bool_Z; lia).
  destruct (_instances s !! efd) as [es|] eqn:El; cbn [default].
  2: { intros [= <- <-]. split; [change (size_of (@nil event)) with 0; lia|].
       split; [lia|]. by intros ev ?%elem_of_nil. }
  case_if; [intros [= <- <-]; split; [change (size_of (@nil event)) with 0; lia|];
            split; [lia|]; by intros ev ?%elem_of_nil|].
  destruct (poll es) as [k revents]. destruct (Z.leb_spec k 0).
  { intros [= <- <-]. split; [change (size_of (@nil event)) with 0; lia|].
    split; [lia|]. by intros ev ?%elem_of_nil. }
  intros [= <- <-]. split; [|split; [done|]].
  - pose proof (collect_count IN OUT ERR HUP (zip es revents) 0 m). lia.
  - intros ev (e & rev & Hin & _ & <-)%collect_fds.
    apply elem_of_zip_l in Hin. by apply list_elem_of_fmap_2.
Qed.

(** ** Witnesses, with the flag values of [winsock2.h] *)

Lemma winsock_flags : flags_ok 0x0300 0x0010.
Proof. intros [] []; vm_compute; done. Qed.

#[export] Instance winsock_laws : @PollerLaws state (win_poller 0x0300 0x0010).
Proof. exact (win_laws 0x0300 0x0010 winsock_flags). Qed.

Lemma win_poller_laws_witness :
  flags_ok 0x0300 0x0010 /\ @PollerLaws state (win_poller 0x0300 0x0010).
Proof. split; [exact winsock_flags | exact (win_poller_laws 0x0300 0x0010 winsock_flags)]. Defined.

Lemma sp_wait_bounded_witness :
  size_of [MkEvent 7 true false false false] <= Z.max 0 (Z.min 100 MAX_EVENT) /\
  (0 < 1 -> 1 = size_of [MkEvent 7 true false false false]) /\
  forall ev, ev ∈ [MkEvent 7 true false false false] ->
    ev_fd ev ∈ map fd (entries_of (MkState {[1 := [MkEntry 5 0x0300; MkEntry 7 0x0300]]} 1) 1).
Proof.
  apply (sp_wait_bounded 0x0300 0x0010 0x0001 0x0002 (fun _ => (1, [0; 0x0100]))
    (MkState {[1 := [MkEntry 5 0x0300; MkEntry 7 0x0300]]} 1) 1 100 1).
  vm_compute. reflexivity.
Defined.

End WinPoll.

#[export] Instance win_factory : PollerFactory WinPoll.state := {
  sp_create := WinPoll.sp_create;
  sp_invalid := WinPoll.sp_invalid;
  sp_release := WinPoll.sp_release;
}.
