(* ===== verification/Epoll.v ===== *)
(** * The poller on Linux ([zbf/socket_poll.hpp], the second half)

    Each function is a system call of the interface [EpollApi], with the
    documented behaviour of [epoll_ctl] and [epoll_wait] as [EpollLaws]. The
    [data] of an event is a union of a pointer and an [int]: 64 bits, of which
    [data.fd] writes the low half; [junk] is what the other half of the
    uninitialised structure holds. [EpollSet] is a kernel for the witnesses. *)

From S2P Require Import Prelude SocketPoll.

Definition EPOLLIN : Z := 1.
Definition EPOLLOUT : Z := 4.
Definition EPOLLERR : Z := 8.
Definition EPOLLHUP : Z := 16.
Definition EPOLLRDHUP : Z := 8192.
Inductive epoll_op := EPOLL_CTL_ADD | EPOLL_CTL_DEL | EPOLL_CTL_MOD.

Record epoll_event := MkEpollEvent { ep_events : Z; ep_data : Z }.

(** The union: [data.fd] and [data.ptr]. *)
Definition data_fd (d : Z) : Z := swrap 32 d.
Definition set_fd (junk fd : Z) : Z := junk * 2 ^ 32 + wrap 32 fd.

Class EpollApi (K : Type) := {
  epoll_create1 : K -> Z * K;
  close : K -> Z -> K;
  epoll_ctl : K -> Z -> epoll_op -> Z -> option epoll_event -> Z * K;
  epoll_wait : K -> Z -> Z -> Z -> Z * list epoll_event;
  (* ghost: the interest list, and that the two descriptors are open, the second
     can be watched and there is memory for it *)
  item : K -> Z -> Z -> option epoll_event;
  may_watch : K -> Z -> Z -> Prop;
}.

Class EpollLaws (K : Type) `{EpollApi K} : Prop := {
  ctl_result k efd op fd ev : fst (epoll_ctl k efd op fd ev) = 0 \/ fst (epoll_ctl k efd op fd ev) = -1;
  ctl_fails k efd op fd ev : fst (epoll_ctl k efd op fd ev) = -1 -> snd (epoll_ctl k efd op fd ev) = k;
  ctl_add k efd fd ev : fst (epoll_ctl k efd EPOLL_CTL_ADD fd (Some ev)) = 0 ->
    item k efd fd = None /\ item (snd (epoll_ctl k efd EPOLL_CTL_ADD fd (Some ev))) efd fd = Some ev;
  ctl_mod k efd fd ev : fst (epoll_ctl k efd EPOLL_CTL_MOD fd (Some ev)) = 0 ->
    item k efd fd <> None /\ item (snd (epoll_ctl k efd EPOLL_CTL_MOD fd (Some ev))) efd fd = Some ev;
  ctl_del k efd fd : item (snd (epoll_ctl k efd EPOLL_CTL_DEL fd None)) efd fd = None;
  ctl_frame k efd op fd ev e f : (e, f) <> (efd, fd) -> item (snd (epoll_ctl k efd op fd ev)) e f = item k e f;
  ctl_add_ok k efd fd ev : may_watch k efd fd -> item k efd fd = None -> fst (epoll_ctl k efd EPOLL_CTL_ADD fd (Some ev)) = 0;
  ctl_mod_ok k efd fd ev : item k efd fd <> None -> fst (epoll_ctl k efd EPOLL_CTL_MOD fd (Some ev)) = 0;
  wait_result k efd max timeout : 0 < max -> let '(n, evs) := epoll_wait k efd max timeout in
    n <= max /\ (n = -1 /\ evs = [] \/ n = size_of evs) /\
    forall ev, ev ∈ evs -> exists fd it, item k efd fd = Some it /\ ep_data ev = ep_data it;
}.

(** ** The functions *)

Section linux.
Context {K : Type} {EA : EpollApi K}.

Definition sp_invalid (efd : Z) : bool := efd =? -1.
Definition sp_create (k : K) : Z * K := epoll_create1 k.
Definition sp_release (k : K) (efd : Z) : K := close k efd.

Definition ep_flags (r w : bool) : Z := Z.lor (if r then EPOLLIN else 0) (if w then EPOLLOUT else 0).

(** [epoll_ctl(..) == -1] is 1. *)
Definition ctl (k : K) (efd : Z) (op : epoll_op) (fd : Z) (ev : epoll_event) : Z * K :=
  let '(rc, k) := epoll_ctl k efd op fd (Some ev) in (if rc =? -1 then 1 else 0, k).

Definition sp_add (junk : Z) (k : K) (efd fd : Z) (write_enable : bool) : Z * K :=
  ctl k efd EPOLL_CTL_ADD fd (MkEpollEvent (ep_flags true write_enable) (set_fd junk fd)).
Definition sp_add_ex (k : K) (efd fd ud : Z) (write_enable : bool) : Z * K :=
  ctl k efd EPOLL_CTL_ADD fd (MkEpollEvent (ep_flags true write_enable) ud).
Definition sp_del (k : K) (efd fd : Z) : K := snd (epoll_ctl k efd EPOLL_CTL_DEL fd None).
Definition sp_enable (junk : Z) (k : K) (efd fd : Z) (read_enable write_enable : bool) : Z * K :=
  ctl k efd EPOLL_CTL_MOD fd (MkEpollEvent (ep_flags read_enable write_enable) (set_fd junk fd)).
Definition sp_enable_ex (k : K) (efd fd ud : Z) (read_enable write_enable : bool) : Z * K :=
  ctl k efd EPOLL_CTL_MOD fd (MkEpollEvent (ep_flags read_enable write_enable) ud).

(** What is written to [e[i]]: [ud] and the rest. *)
Definition event_of (ev : epoll_event) : Z * event :=
  let has f := negb (Z.land (ep_events ev) f =? 0) in
  (ep_data ev, MkEvent (data_fd (ep_data ev)) (has EPOLLIN) (has EPOLLOUT) (has EPOLLERR) (has (Z.lor EPOLLHUP EPOLLRDHUP))).

(** [None]: the array on the stack would have no elements. *)
Definition sp_wait (k : K) (efd max timeout : Z) : option (Z * list (Z * event)) :=
  let max := if MAX_EVENT <? max then MAX_EVENT else max in
  if max <=? 0 then None
  else let '(n, evs) := epoll_wait k efd max timeout in Some (n, map event_of (take (Z.to_nat n) evs)).

(** The interest of a descriptor. *)
Definition ep_interest (k : K) (efd fd : Z) : option (bool * bool) :=
  it ← item k efd fd; Some (negb (Z.land (ep_events it) EPOLLIN =? 0), negb (Z.land (ep_events it) EPOLLOUT =? 0)).

(** Everything watched under an instance was registered by its descriptor. *)
Definition by_fd (k : K) (efd : Z) : Prop := forall fd it, item k efd fd = Some it -> data_fd (ep_data it) = fd.
End linux.

(** ** Lemmas *)

Lemma set_fd_data junk fd : in_sint 32 fd -> data_fd (set_fd junk fd) = fd.
Proof.
  intros Hfd. unfold data_fd, set_fd. rewrite <- (swrap_wrap 32) by lia. unfold wrap at 1.
  rewrite Z.add_comm, Z.mod_add by lia. fold (wrap 32 (wrap 32 fd)). rewrite !swrap_wrap by lia. by apply swrap_id.
Qed.

Lemma ep_flags_has r w : Z.land (ep_flags r w) EPOLLIN = (if r then 1 else 0) /\ Z.land (ep_flags r w) EPOLLOUT = (if w then 4 else 0).
Proof. by destruct r, w. Qed.

Section laws.
Context {K : Type} {EA : EpollApi K} {EL : EpollLaws K}.

(** One call of [epoll_ctl], on both of its outcomes. *)
Lemma ctl_cases k efd op fd ev rc k' :
  ctl k efd op fd ev = (rc, k') ->
  rc = 0 /\ fst (epoll_ctl k efd op fd (Some ev)) = 0 /\ k' = snd (epoll_ctl k efd op fd (Some ev)) \/
  rc = 1 /\ fst (epoll_ctl k efd op fd (Some ev)) = -1 /\ k' = k.
Proof.
  unfold ctl. intros H. pose proof (ctl_result k efd op fd (Some ev)) as Hr. pose proof (ctl_fails k efd op fd (Some ev)) as Hf.
  destruct (epoll_ctl k efd op fd (Some ev)) as [r k1]. cbn [fst snd] in *. destruct Hr as [-> | ->]; cbn in H; injection H as <- <-.
  - by left.
  - right. split; [done|]. split; [done|by apply Hf].
Qed.

Lemma interest_item k efd fd r w d :
  item k efd fd = Some (MkEpollEvent (ep_flags r w) d) -> ep_interest k efd fd = Some (r, w).
Proof.
  intros H. unfold ep_interest. rewrite H. cbn [mbind option_bind ep_events]. destruct (ep_flags_has r w) as [-> ->]. by destruct r, w.
Qed.

Lemma interest_None k efd fd : ep_interest k efd fd = None <-> item k efd fd = None.
Proof. unfold ep_interest. by destruct (item k efd fd). Qed.

Lemma interest_ext k k' efd fd : item k efd fd = item k' efd fd -> ep_interest k efd fd = ep_interest k' efd fd.
Proof. unfold ep_interest. by intros ->. Qed.

(** [sp_add], [sp_enable] and [sp_del] on every branch. A registration is
    refused, with 1 and without a trace, for a descriptor that is registered and
    never for another that can be watched; a change is refused exactly for one
    that is not registered; in all cases the rest of the list is what it was. *)
Theorem epoll_exact junk k efd fd r w :
  let '(rc, k1) := sp_add junk k efd fd w in
  let '(rc2, k2) := sp_enable junk k efd fd r w in
  (rc = 0 /\ ep_interest k efd fd = None /\ ep_interest k1 efd fd = Some (true, w) \/ rc = 1 /\ k1 = k) /\
  (may_watch k efd fd -> rc = 0 <-> ep_interest k efd fd = None) /\
  (rc2 = 0 /\ ep_interest k2 efd fd = Some (r, w) \/ rc2 = 1 /\ k2 = k) /\
  (rc2 = 0 <-> ep_interest k efd fd <> None) /\
  ep_interest (sp_del k efd fd) efd fd = None /\
  forall e f, (e, f) <> (efd, fd) ->
    ep_interest k1 e f = ep_interest k e f /\ ep_interest k2 e f = ep_interest k e f /\
    ep_interest (sp_del k efd fd) e f = ep_interest k e f.
Proof.
  destruct (sp_add junk k efd fd w) as [rc k1] eqn:E1, (sp_enable junk k efd fd r w) as [rc2 k2] eqn:E2.
  apply ctl_cases in E1, E2. rewrite interest_None.
  assert (forall e f, (e, f) <> (efd, fd) -> item k1 e f = item k e f /\ item k2 e f = item k e f) as Hf.
  { intros e f Hne. destruct E1 as [(_ & _ & ->)|(_ & _ & ->)], E2 as [(_ & _ & ->)|(_ & _ & ->)];
      split; try done; by apply ctl_frame. }
  split_and!.
  - destruct E1 as [(-> & H & ->)|(-> & _ & ->)]; [left|by right]. apply ctl_add in H as [? ?].
    split; [done|]. split; [done|by eapply interest_item].
  - intros Hw. split.
    + intros ->. destruct E1 as [(_ & H & _)|(? & _)]; [by apply ctl_add in H as [? _]|done].
    + intros Hn. destruct E1 as [(? & _)|(_ & H & _)]; [done|]. by rewrite ctl_add_ok in H.
  - destruct E2 as [(-> & H & ->)|(-> & _ & ->)]; [left|by right]. apply ctl_mod in H as [_ ?]. split; [done|by eapply interest_item].
  - split.
    + intros ->. destruct E2 as [(_ & H & _)|(? & _)]; [by apply ctl_mod in H as [? _]|done].
    + intros Hn. destruct E2 as [(? & _)|(_ & H & _)]; [done|]. by rewrite ctl_mod_ok in H.
  - apply interest_None, ctl_del.
  - intros e f Hne. destruct (Hf e f Hne) as [? ?]. split_and!; apply interest_ext; [done|done|by apply ctl_frame].
Qed.

Lemma by_fd_ctl junk k efd op fd r w rc k' e :
  (op = EPOLL_CTL_ADD \/ op = EPOLL_CTL_MOD) -> in_sint 32 fd -> by_fd k e ->
  ctl k efd op fd (MkEpollEvent (ep_flags r w) (set_fd junk fd)) = (rc, k') -> by_fd k' e.
Proof.
  intros Hop Hfd Hb [(_ & H & ->)|(_ & _ & ->)]%ctl_cases; [|done]. intros f it Hi.
  destruct (decide ((e, f) = (efd, fd))) as [[= -> ->]|Hne]; [|by rewrite ctl_frame in Hi; [apply Hb|]].
  assert (it = MkEpollEvent (ep_flags r w) (set_fd junk fd)) as ->; [|by apply set_fd_data].
  destruct Hop as [-> | ->]; [apply ctl_add in H as [_ H]|apply ctl_mod in H as [_ H]]; congruence.
Qed.

(** Registering, changing and removing by descriptor keeps the list by
    descriptor, whatever the unset half of the union holds. *)
Theorem by_fd_kept junk k efd fd r w e : in_sint 32 fd -> by_fd k e ->
  by_fd (snd (sp_add junk k efd fd w)) e /\ by_fd (snd (sp_enable junk k efd fd r w)) e /\ by_fd (sp_del k efd fd) e.
Proof.
  intros Hfd Hb. split_and!.
  - destruct (sp_add junk k efd fd w) as [rc k1] eqn:E. eapply by_fd_ctl, E; [by left|done|done].
  - destruct (sp_enable junk k efd fd r w) as [rc k1] eqn:E. eapply by_fd_ctl, E; [by right|done|done].
  - intros f it Hi. unfold sp_del in Hi. destruct (decide ((e, f) = (efd, fd))) as [[= -> ->]|Hne].
    + by rewrite ctl_del in Hi.
    + rewrite ctl_frame in Hi by done. by apply Hb.
Qed.

(** What [sp_wait] reports: as many events as it says, at most [MAX_EVENT], each
    for a descriptor that is registered. *)
Theorem sp_wait_fds k efd max timeout : 0 < max -> by_fd k efd -> exists n evs,
  sp_wait k efd max timeout = Some (n, evs) /\ n <= Z.min max MAX_EVENT /\
  (n = -1 /\ evs = [] \/ n = size_of evs) /\ forall ev, ev ∈ evs -> ep_interest k efd (ev_fd (snd ev)) <> None.
Proof.
  intros Hmax Hb. unfold sp_wait. set (m := if MAX_EVENT <? max then MAX_EVENT else max).
  assert (m = Z.min max MAX_EVENT /\ 0 < m) as [Hm Hpos] by (unfold m, MAX_EVENT; destruct (Z.ltb_spec 64 max); lia).
  rewrite (proj2 (Z.leb_gt _ _)) by done. pose proof (wait_result k efd m timeout Hpos) as Hw.
  destruct (epoll_wait k efd m timeout) as [n evs]. destruct Hw as (Hn & Hsz & Hev). exists n, (map event_of (take (Z.to_nat n) evs)).
  split; [done|]. split; [lia|]. split.
  - destruct Hsz as [(-> & ->)| ->]; [by left|right]. unfold size_of. by rewrite Nat2Z.id, firstn_all, length_map.
  - intros e (ev & -> & Hin)%list_elem_of_fmap. destruct (Hev ev) as (fd & it & Hi & E).
    { eapply elem_of_submseteq; [done|]. apply sublist_submseteq, sublist_take. }
    cbn [snd event_of ev_fd]. rewrite E, (Hb fd it Hi). rewrite interest_None. congruence.
Qed.

(** ** The interface *)

#[local] Instance epoll_poller junk : Poller K := {|
  SocketPoll.sp_add := sp_add junk;
  SocketPoll.sp_del := sp_del;
  SocketPoll.sp_enable := sp_enable junk;
  SocketPoll.interest := ep_interest;
|}.

(** Where every descriptor can be watched, the Linux functions keep the laws
    that the transport relies on, as the Windows ones do. *)
Theorem epoll_poller_laws junk : (forall k efd fd, may_watch k efd fd) -> @PollerLaws K (epoll_poller junk).
Proof.
  intros Hw. constructor; unfold SocketPoll.sp_add, SocketPoll.sp_enable, SocketPoll.sp_del, interest, epoll_poller;
    intros k efd fd; [intros w|intros w|intros r w|intros r w| |intros w e f Hne|intros r w e f Hne|intros e f Hne].
  1,2: pose proof (ctl_add_ok k efd fd (MkEpollEvent (ep_flags true w) (set_fd junk fd)) (Hw _ _ _)) as Hok.
  3,4: pose proof (ctl_mod_ok k efd fd (MkEpollEvent (ep_flags r w) (set_fd junk fd))) as Hok.
  5: by apply interest_None, ctl_del.
  5,6: unfold sp_add, sp_enable, ctl; by destruct (epoll_ctl _ _ _ _ _) as [rc k1] eqn:E; cbn [snd];
      apply interest_ext; replace k1 with (snd (rc, k1)) by done; rewrite <- E; apply ctl_frame.
  5: by apply interest_ext, ctl_frame.
  all: rewrite interest_None; intros Hi.
  - destruct (sp_add junk k efd fd w) as [rc k1] eqn:E. specialize (Hok Hi).
    apply ctl_cases in E as [(-> & H & ->)|(_ & H & _)]; [|congruence]. split; [done|]. apply ctl_add in H as [_ H]. by eapply interest_item.
  - destruct (sp_add junk k efd fd w) as [rc k1] eqn:E.
    apply ctl_cases in E as [(_ & H & _)|(-> & _ & ->)]; [by apply ctl_add in H as [H _]|done].
  - destruct (sp_enable junk k efd fd r w) as [rc k1] eqn:E. specialize (Hok Hi).
    apply ctl_cases in E as [(-> & H & ->)|(_ & H & _)]; [|congruence]. split; [done|]. apply ctl_mod in H as [_ H]. by eapply interest_item.
  - destruct (sp_enable junk k efd fd r w) as [rc k1] eqn:E.
    apply ctl_cases in E as [(_ & H & _)|(-> & _ & ->)]; [by apply ctl_mod in H as [H _]|done].
Qed.
End laws.

(** ** A kernel for the witnesses *)

Module EpollSet.
(** Readiness is not modelled: whatever is watched can be read. *)
Definition items : Type := gmap (Z * Z) epoll_event.

Definition ctl_set (k : items) (efd : Z) (op : epoll_op) (fd : Z) (ev : option epoll_event) : Z * items :=
  match op, k !! (efd, fd), ev with
  | EPOLL_CTL_ADD, None, Some ev => (0, <[(efd, fd) := ev]> k)
  | EPOLL_CTL_MOD, Some _, Some ev => (0, <[(efd, fd) := ev]> k)
  | EPOLL_CTL_DEL, Some _, _ => (0, delete (efd, fd) k)
  | _, _, _ => (-1, k)
  end.
Definition ready (k : items) (efd : Z) : list epoll_event :=
  (fun p => MkEpollEvent EPOLLIN (ep_data (snd p))) <$> filter (fun p => fst (fst p) = efd) (map_to_list k).

#[export] Instance set_api : EpollApi items := {
  epoll_create1 k := (3, k);
  close k efd := filter (fun p => fst (fst p) <> efd) k;
  epoll_ctl := ctl_set;
  epoll_wait k efd max _ := let evs := take (Z.to_nat max) (ready k efd) in (size_of evs, evs);
  item k efd fd := k !! (efd, fd);
  may_watch _ _ _ := True;
}.

#[export] Instance set_laws : EpollLaws items.
Proof.
  constructor; cbn [epoll_ctl epoll_wait item may_watch set_api]; unfold ctl_set.
  - intros k efd op fd ev. destruct op, (k !! _), ev; cbn; auto.
  - intros k efd op fd ev. by destruct op, (k !! _), ev.
  - intros k efd fd ev. destruct (k !! _); [done|]. intros _. cbn. split; [done|apply lookup_insert_eq].
  - intros k efd fd ev. destruct (k !! _); [|done]. intros _. cbn. split; [done|apply lookup_insert_eq].
  - intros k efd fd. destruct (k !! _) eqn:E; cbn; [apply lookup_delete_eq|done].
  - intros k efd op fd ev e f Hne. destruct op, (k !! (efd, fd)), ev; cbn; try done;
      first [by apply lookup_insert_ne|by apply lookup_delete_ne].
  - intros k efd fd ev _ E. by rewrite E.
  - intros k efd fd ev E. by destruct (k !! _).
  - intros k efd max timeout Hm. split; [unfold size_of; rewrite length_take; lia|]. split; [by right|].
    intros ev Hin. assert (ev ∈ ready k efd) as Hin2 by (rewrite <- (take_drop (Z.to_nat max)); apply elem_of_app; by left). clear Hin. rename Hin2 into Hin. apply list_elem_of_fmap in Hin as ([[e f] it] & -> & Hin).
    apply list_elem_of_filter in Hin as [He Hin]. cbn in He. subst e. apply elem_of_map_to_list in Hin. by exists f, it.
Qed.

Definition one : items := {[ (3, 7) := MkEpollEvent EPOLLIN (set_fd 5 7) ]}.

Lemma one_by_fd : by_fd one 3.
Proof.
  intros fd it. cbn [item set_api]. unfold one. intros [[= <-] <-]%lookup_singleton_Some. by vm_compute.
Qed.

Lemma by_fd_kept_witness :
  by_fd (snd (sp_add 9 one 3 8 true)) 3 /\ by_fd (snd (sp_enable 9 one 3 8 false true)) 3 /\ by_fd (sp_del one 3 8) 3.
Proof. apply by_fd_kept; [unfold in_sint; lia|exact one_by_fd]. Defined.

Lemma sp_wait_fds_witness : exists n evs,
  sp_wait one 3 100 50 = Some (n, evs) /\ n <= Z.min 100 MAX_EVENT /\
  (n = -1 /\ evs = [] \/ n = size_of evs) /\ forall ev, ev ∈ evs -> ep_interest one 3 (ev_fd (snd ev)) <> None.
Proof. apply (sp_wait_fds one 3 100 50); [lia|exact one_by_fd]. Defined.

Lemma epoll_poller_laws_witness : @PollerLaws items (epoll_poller 9).
Proof. by apply (epoll_poller_laws 9). Defined.

(** "ud or fd can only check one": of a descriptor registered with a pointer the
    event names another. *)
Example ud_hides_fd :
  let '(_, k) := sp_add_ex (one : items) 4 8 4294967303 false in
  option_map (fun p => map (fun e => (fst e, ev_fd (snd e))) (snd p)) (sp_wait k 4 64 0) = Some [(4294967303, 7)].
Proof. by vm_compute. Qed.
End EpollSet.
