(* ===== verification/WriteSide.v ===== *)
(** * The send queue of a connection ([zbf/socket_tcp_v5.hpp])

    [tcpsock_user] and [tcpsock_asynclt] keep the same four fields and the same
    methods for sending: the queue [_wrQueue], the write-interest flag
    [_enableWrite] and the poller instance [_efd] for the socket [_fd]. The
    methods are [enableWrite], [post], [joinMonitor], [leaveMonitor] and
    [sendData] over [_SendMsg]/[_SendData]. [step] interleaves them at the
    granularity of the code's critical sections: posts may happen while the I/O
    thread holds a message it took off the queue, and between the two stores of
    [leaveMonitor]. *)

From S2P Require Import Prelude SocketPoll.

Definition SEND_SUCCESS : Z := 0.
Definition SEND_FAIL : Z := 1.
Definition SOCK_CLOSED : Z := 2.
Definition QUEUE_EMPTY : Z := 3.
Definition RECV_FAIL : Z := 4.
Definition SEND_TIMEOUT : Z := 5.
Definition POOL_INVALID : Z := 6.

Definition MaxPendingMsg : Z := 256.

Record wstate := MkW {
  w_fd : Z;               (* _fd *)
  w_efd : Z;              (* _efd *)
  w_enable : bool;        (* _enableWrite *)
  w_queue : list bytes;   (* _wrQueue *)
}.

Definition set_enable (s : wstate) (e : bool) : wstate := MkW (w_fd s) (w_efd s) e (w_queue s).
Definition set_queue (s : wstate) (q : list bytes) : wstate := MkW (w_fd s) (w_efd s) (w_enable s) q.
Definition set_efd (s : wstate) (e : Z) : wstate := MkW (w_fd s) e (w_enable s) (w_queue s).

(** [_SendMsg]: one [socket_utils::send]; the rest of it is logging. *)
Definition _SendMsg (send : bytes -> Z) (msg : bytes) : Z := send msg.

(** The first critical section of [_SendData]. *)
Definition SendData_pop (queue : list bytes) : option (bytes * list bytes) :=
  match queue with
  | [] => None
  | m :: q => Some (m, q)
  end.

(** What [_SendData] does with the result of the send: the return code and the
    queue after the second critical section. *)
Definition SendData_finish (sendlen : Z) (msg : bytes) (queue : list bytes) : Z * list bytes :=
  if sendlen <=? 0 then
    if negb (sendlen =? -2) then (SEND_FAIL, queue) else (SEND_SUCCESS, msg :: queue)
  else if sendlen <? swrap 32 (size_of msg)
  then (SEND_SUCCESS, drop (Z.to_nat sendlen) msg :: queue)
  else (SEND_SUCCESS, queue).

Definition _SendData (send : bytes -> Z) (queue : list bytes) : Z * list bytes :=
  match SendData_pop queue with
  | None => (QUEUE_EMPTY, queue)
  | Some (m, q) => SendData_finish (_SendMsg send m) m q
  end.

Section poller.
Context {P : Type} {PI : Poller P}.

Definition enableWrite (p : P) (s : wstate) (enable : bool) : P * wstate :=
  if (w_fd s =? INVALID_SOCK) || (w_efd s =? INVALID_SOCK) then (p, s)
  else if Bool.eqb (w_enable s) (negb enable)
  then (snd (sp_enable p (w_efd s) (w_fd s) true enable), set_enable s enable)
  else (p, s).

Definition post (p : P) (s : wstate) (msg : bytes) : Z * P * wstate :=
  if MaxPendingMsg <? size_of (w_queue s) then (1, p, s)
  else
    let '(p', s') := enableWrite p (set_queue s (w_queue s ++ [msg])) true in
    (0, p', s').

Definition joinMonitor (p : P) (s : wstate) (efd : Z) : P * wstate :=
  let s1 := set_efd (set_enable s false) efd in
  match w_queue s1 with
  | [] => (p, s1)
  | _ => enableWrite p s1 true
  end.

Definition leaveMonitor (s : wstate) : wstate := set_enable (set_efd s INVALID_SOCK) false.

(** The tail of [sendData] after [QUEUE_EMPTY]. *)
Definition sendData_empty (p : P) (s : wstate) : P * wstate :=
  match w_queue s with
  | [] => enableWrite p s false
  | _ => (p, s)
  end.

Definition sendData (closed : bool) (send : bytes -> Z) (p : P) (s : wstate) : Z * P * wstate :=
  if closed then (SOCK_CLOSED, p, s)
  else
    let '(rc, q) := _SendData send (w_queue s) in
    let s1 := set_queue s q in
    if rc =? QUEUE_EMPTY
    then let '(p', s') := sendData_empty p s1 in (rc, p', s')
    else (rc, p, s1).

(** ** One connection, shared between its I/O thread and the posting threads *)

Inductive io_pc :=
| IOIdle
| IOInFlight (m : bytes)   (* between the two critical sections of _SendData *)
| IOSawEmpty.              (* after QUEUE_EMPTY, before the tail *)

Record conn := MkConn {
  c_poll : P;
  c_w : wstate;
  c_closed : bool;
  c_pc : io_pc;
  c_leaving : bool;        (* between the two stores of leaveMonitor *)
  c_failed : bool;         (* a send failed *)
  c_wire : bytes;          (* ghost: bytes the kernel accepted *)
  c_posted : bytes;        (* ghost: accepted posts, in order *)
}.

Definition in_flight (c : conn) : bytes :=
  match c_pc c with IOInFlight m => m | _ => [] end.

Definition joined (c : conn) : Prop :=
  w_fd (c_w c) <> INVALID_SOCK /\ w_efd (c_w c) <> INVALID_SOCK.

Definition interest_of (c : conn) : option (bool * bool) :=
  interest (c_poll c) (w_efd (c_w c)) (w_fd (c_w c)).

Inductive step : conn -> conn -> Prop :=
| step_post c m p' w' :
    (* _SendData compares sizes as int *)
    in_sint 32 (size_of m) ->
    post (c_poll c) (c_w c) m = (0, p', w') ->
    step c (MkConn p' w' (c_closed c) (c_pc c) (c_leaving c) (c_failed c) (c_wire c) (c_posted c ++ m))
| step_post_full c m rc p' w' :
    post (c_poll c) (c_w c) m = (rc, p', w') -> rc <> 0 ->
    step c (MkConn p' w' (c_closed c) (c_pc c) (c_leaving c) (c_failed c) (c_wire c) (c_posted c))
| step_join c efd p' w' :
    c_pc c = IOIdle -> c_closed c = false -> c_leaving c = false ->
    w_efd (c_w c) = INVALID_SOCK ->
    (* registered just before, with sp_add(efd, fd, false) *)
    interest (c_poll c) efd (w_fd (c_w c)) = Some (true, false) ->
    joinMonitor (c_poll c) (c_w c) efd = (p', w') ->
    step c (MkConn p' w' false IOIdle false (c_failed c) (c_wire c) (c_posted c))
| step_leave1 c :
    step c (MkConn (c_poll c) (set_efd (c_w c) INVALID_SOCK) true (c_pc c) true
              (c_failed c) (c_wire c) (c_posted c))
| step_leave2 c :
    c_leaving c = true ->
    step c (MkConn (c_poll c) (set_enable (c_w c) false) (c_closed c) (c_pc c) false
              (c_failed c) (c_wire c) (c_posted c))
| step_other c p' :
    (* other connections, and sp_del after leaving *)
    (joined c -> interest p' (w_efd (c_w c)) (w_fd (c_w c)) = interest_of c) ->
    step c (MkConn p' (c_w c) (c_closed c) (c_pc c) (c_leaving c) (c_failed c) (c_wire c) (c_posted c))
| step_send_pop c m q :
    c_pc c = IOIdle -> c_closed c = false ->
    SendData_pop (w_queue (c_w c)) = Some (m, q) ->
    step c (MkConn (c_poll c) (set_queue (c_w c) q) false (IOInFlight m) (c_leaving c)
              (c_failed c) (c_wire c) (c_posted c))
| step_send_empty c :
    c_pc c = IOIdle -> c_closed c = false -> SendData_pop (w_queue (c_w c)) = None ->
    step c (MkConn (c_poll c) (c_w c) false IOSawEmpty (c_leaving c)
              (c_failed c) (c_wire c) (c_posted c))
| step_send_done c m n q :
    (* the kernel took n bytes; 0 and -1 are errors, -2 means try again *)
    c_pc c = IOInFlight m -> n <= size_of m ->
    SendData_finish n m (w_queue (c_w c)) = (SEND_SUCCESS, q) ->
    step c (MkConn (c_poll c) (set_queue (c_w c) q) (c_closed c) IOIdle (c_leaving c)
              (c_failed c) (c_wire c ++ take (Z.to_nat n) m) (c_posted c))
| step_send_fail c m n q :
    (* the I/O thread closes the connection before it sends again *)
    c_pc c = IOInFlight m ->
    SendData_finish n m (w_queue (c_w c)) = (SEND_FAIL, q) ->
    step c (MkConn (c_poll c) (set_queue (c_w c) q) true IOIdle (c_leaving c)
              true (c_wire c) (c_posted c))
| step_empty_tail c p' w' :
    c_pc c = IOSawEmpty -> sendData_empty (c_poll c) (c_w c) = (p', w') ->
    step c (MkConn p' w' (c_closed c) IOIdle (c_leaving c) (c_failed c) (c_wire c) (c_posted c)).

(** A connection before it joins a poller. *)
Definition fresh_conn (p : P) (fd : Z) : conn :=
  MkConn p (MkW fd INVALID_SOCK false []) false IOIdle false false [] [].

Definition reachable (c : conn) : Prop := exists p fd, rtc step (fresh_conn p fd) c.

(** ** Lemmas *)

Lemma reachable_ind (I : conn -> Prop) :
  (forall p fd, I (fresh_conn p fd)) -> (forall c c', I c -> step c c' -> I c') ->
  forall c, reachable c -> I c.
Proof.
  intros H0 Hs c (p & fd & Hr). remember (fresh_conn p fd) as c0 eqn:E.
  assert (I c0) as Hi by (subst; apply H0). clear E. induction Hr; eauto.
Qed.

Lemma enableWrite_queue p s e : w_queue (snd (enableWrite p s e)) = w_queue s.
Proof. unfold enableWrite. by repeat case_if. Qed.

Lemma enableWrite_ids p s e :
  w_fd (snd (enableWrite p s e)) = w_fd s /\ w_efd (snd (enableWrite p s e)) = w_efd s.
Proof. unfold enableWrite. by repeat case_if. Qed.

Lemma post_ok p s m p' s' :
  post p s m = (0, p', s') ->
  size_of (w_queue s) <= MaxPendingMsg /\ w_queue s' = w_queue s ++ [m] /\
  (p', s') = enableWrite p (set_queue s (w_queue s ++ [m])) true.
Proof.
  unfold post. destruct (Z.ltb_spec MaxPendingMsg (size_of (w_queue s))); [done|].
  destruct (enableWrite _ _ _) as [p1 s1] eqn:E. intros [= <- <-]. split; [done|]. split; [|done].
  pose proof (enableWrite_queue p (set_queue s (w_queue s ++ [m])) true) as Hq. by rewrite E in Hq.
Qed.

Lemma post_refused p s m rc p' s' : post p s m = (rc, p', s') -> rc <> 0 -> p' = p /\ s' = s.
Proof.
  unfold post. destruct (Z.ltb_spec MaxPendingMsg (size_of (w_queue s))).
  - by intros [= <- <- <-].
  - destruct (enableWrite _ _ _). by intros [= <- <- <-].
Qed.

Lemma join_eq p s efd p' s' :
  joinMonitor p s efd = (p', s') -> w_queue s' = w_queue s /\ w_fd s' = w_fd s /\ w_efd s' = efd.
Proof.
  unfold joinMonitor. set (s1 := set_efd (set_enable s false) efd).
  pose proof (enableWrite_queue p s1 true). pose proof (enableWrite_ids p s1 true).
  destruct (w_queue s1) eqn:E.
  - intros [= <- <-]. done.
  - intros Heq. rewrite Heq in *; cbn [snd] in *. rewrite <- E in *. intuition congruence.
Qed.

Lemma join_nonempty p fd efd0 e m q efd :
  fd <> INVALID_SOCK -> efd <> INVALID_SOCK ->
  joinMonitor p (MkW fd efd0 e (m :: q)) efd =
  (snd (sp_enable p efd fd true true), MkW fd efd true (m :: q)).
Proof.
  intros Hf He. unfold joinMonitor, enableWrite, set_efd, set_enable. cbn [w_fd w_efd w_enable w_queue].
  by rewrite (proj2 (Z.eqb_neq _ _) Hf), (proj2 (Z.eqb_neq _ _) He).
Qed.

Lemma post_enabled p fd efd q m :
  size_of q <= MaxPendingMsg ->
  post p (MkW fd efd true q) m = (0, p, MkW fd efd true (q ++ [m])).
Proof.
  intros Hq. unfold post. cbn [w_queue]. rewrite (proj2 (Z.ltb_ge _ _) Hq).
  unfold enableWrite, set_queue. cbn. by case_if.
Qed.

Lemma sendData_empty_queue p s p' s' : sendData_empty p s = (p', s') -> w_queue s' = w_queue s.
Proof.
  unfold sendData_empty. destruct (w_queue s) eqn:E.
  - intros H. rewrite <- E. pose proof (enableWrite_queue p s false) as Hq. by rewrite H in Hq.
  - by intros [= <- <-].
Qed.

Lemma finish_ok n m q q' :
  n <= size_of m -> in_sint 32 (size_of m) -> SendData_finish n m q = (SEND_SUCCESS, q') ->
  take (Z.to_nat n) m ++ concat q' = m ++ concat q.
Proof.
  intros Hn Hm. unfold SendData_finish. pose proof (size_of_nonneg m).
  rewrite swrap_id by done.
  destruct (Z.leb_spec n 0).
  - case_if; [done|]. bool_Z. intros [= <-]. replace (Z.to_nat n) with 0%nat by lia. done.
  - destruct (Z.ltb_spec n (size_of m)); intros [= <-]; cbn [concat].
    + by rewrite app_assoc, take_drop.
    + rewrite take_ge; [done|]. unfold size_of in *. lia.
Qed.

(** What a send leaves at the head of the queue is a suffix of the message. *)
Lemma finish_queue n m q rc q' :
  SendData_finish n m q = (rc, q') ->
  q' = q \/ exists k, q' = drop k m :: q.
Proof.
  unfold SendData_finish. intros H.
  repeat case_if; invert H; eauto. right. by exists 0%nat.
Qed.

(** ** The invariants *)

(** The stream: what is on the wire, in the I/O thread's hands and in the
    queue is what was posted, in order. *)
Definition stream_ok (c : conn) : Prop :=
  if c_failed c
  then c_closed c = true /\ c_pc c <> IOInFlight (in_flight c) /\ c_wire c `prefix_of` c_posted c
  else c_wire c ++ in_flight c ++ concat (w_queue (c_w c)) = c_posted c.

Definition sizes_ok (c : conn) : Prop :=
  Forall (fun m => in_sint 32 (size_of m)) (in_flight c :: w_queue (c_w c)).

Lemma drop_size_ok k (m : bytes) : in_sint 32 (size_of m) -> in_sint 32 (size_of (drop k m)).
Proof. unfold in_sint, size_of. rewrite length_drop. lia. Qed.

Lemma sizes_step c c' : sizes_ok c -> step c c' -> sizes_ok c'.
Proof.
  unfold sizes_ok, in_flight. intros H Hs.
  assert (in_sint 32 (size_of (@nil byte))) as H0 by done.
  destruct Hs; cbn in *;
    repeat match goal with
    | E : post _ _ _ = (0, _, _) |- _ => apply post_ok in E as (? & -> & _)
    | E : post _ _ _ = _, N : _ <> 0 |- _ => apply (post_refused _ _ _ _ _ _ E) in N as [-> ->]
    | E : joinMonitor _ _ _ = _ |- _ => apply join_eq in E as (-> & _)
    | E : sendData_empty _ _ = _ |- _ => apply sendData_empty_queue in E as ->
    | E : SendData_finish _ _ _ = _ |- _ => apply finish_queue in E as [->|[k ->]]
    | E : SendData_pop ?q = _ |- _ => destruct q; invert E
    | E : c_pc _ = _ |- _ => rewrite E in *
    end; rewrite ?Forall_cons, ?Forall_app, ?Forall_nil in *; intuition auto using drop_size_ok.
Qed.

Lemma stream_step c c' : sizes_ok c -> stream_ok c -> step c c' -> stream_ok c'.
Proof.
  unfold stream_ok, sizes_ok, in_flight. intros Hz H Hs. apply Forall_cons in Hz as [Hz _].
  destruct Hs; cbn in *;
    repeat match goal with
    | E : post _ _ _ = (0, _, _) |- _ => apply post_ok in E as (? & -> & _)
    | E : post _ _ _ = _, N : _ <> 0 |- _ => apply (post_refused _ _ _ _ _ _ E) in N as [-> ->]
    | E : joinMonitor _ _ _ = _ |- _ => apply join_eq in E as (-> & _)
    | E : sendData_empty _ _ = _ |- _ => apply sendData_empty_queue in E as ->
    | E : SendData_pop ?q = _ |- _ => destruct q; invert E
    | E : c_pc _ = _ |- _ => rewrite E in *
    end; try (destruct (c_failed c); intuition (try congruence); fail).
  - destruct (c_failed c).
    + destruct H as (-> & ? & ?). split_and!; try done. by apply prefix_app_r.
    + rewrite <- H, concat_app. cbn [concat]. by rewrite app_nil_r, !app_assoc.
  - destruct (c_failed c); [by destruct H as (_ & [] & _)|].
    rewrite <- H. cbn. rewrite <- app_assoc. f_equal. by eapply finish_ok.
  - destruct (c_failed c); [by destruct H as (_ & [] & _)|].
    split_and!; try done. rewrite <- H. by apply prefix_app_r.
Qed.

Lemma stream_reachable c : reachable c -> sizes_ok c /\ stream_ok c.
Proof.
  apply (reachable_ind (fun c => sizes_ok c /\ stream_ok c)).
  - intros p fd. split; [|done]. apply Forall_cons. split; [done|apply Forall_nil, I].
  - intros ?? [? ?] ?. split; eauto using sizes_step, stream_step.
Qed.

(** The queue: one more post than the limit, and the requeued message. *)
Definition queue_inv (c : conn) : Prop :=
  size_of (w_queue (c_w c)) + (match c_pc c with IOInFlight _ => 1 | _ => 0 end) <= MaxPendingMsg + 2.

Lemma queue_step c c' : queue_inv c -> step c c' -> queue_inv c'.
Proof.
  unfold queue_inv, MaxPendingMsg. intros H Hs.
  destruct Hs; cbn in *;
    repeat match goal with
    | E : post _ _ _ = (0, _, _) |- _ => apply post_ok in E as (? & -> & _); unfold MaxPendingMsg in *
    | E : post _ _ _ = _, N : _ <> 0 |- _ => apply (post_refused _ _ _ _ _ _ E) in N as [-> ->]
    | E : joinMonitor _ _ _ = _ |- _ => apply join_eq in E as (-> & _)
    | E : sendData_empty _ _ = _ |- _ => apply sendData_empty_queue in E as ->
    | E : SendData_finish _ _ _ = _ |- _ => apply finish_queue in E as [->|[k ->]]
    | E : SendData_pop ?q = _ |- _ => destruct q; invert E
    | E : c_pc _ = _ |- _ => rewrite E in *
    end; rewrite ?size_of_app, ?size_of_cons, ?size_of_nil in *;
    repeat case_match; lia.
Qed.

(** The write interest. *)
Definition holds_message (c : conn) : Prop :=
  w_queue (c_w c) <> [] \/ exists m, c_pc c = IOInFlight m.

Record wake_inv (c : conn) : Prop := {
  wk_leaving : c_leaving c = true -> w_efd (c_w c) = INVALID_SOCK;
  wk_known : joined c -> interest_of c = Some (true, w_enable (c_w c));
  wk_wanted : joined c -> holds_message c -> w_enable (c_w c) = true;
}.

Lemma enableWrite_out p s e :
  w_fd s = INVALID_SOCK \/ w_efd s = INVALID_SOCK -> enableWrite p s e = (p, s).
Proof. unfold enableWrite. by intros [-> | ->]; rewrite Z.eqb_refl, ?orb_true_r. Qed.

Lemma enableWrite_in `{!PollerLaws P} p s e p' s' :
  w_fd s <> INVALID_SOCK -> w_efd s <> INVALID_SOCK ->
  interest p (w_efd s) (w_fd s) = Some (true, w_enable s) ->
  enableWrite p s e = (p', s') ->
  w_enable s' = e /\ interest p' (w_efd s) (w_fd s) = Some (true, e).
Proof.
  intros Hf He Hi. unfold enableWrite.
  rewrite (proj2 (Z.eqb_neq _ _) Hf), (proj2 (Z.eqb_neq _ _) He). cbn [orb].
  destruct (Bool.eqb _ _) eqn:E.
  - intros [= <- <-]. split; [done|]. apply enable_known. by rewrite Hi.
  - apply eqb_false_iff in E. intros [= <- <-]. destruct (w_enable s), e; done.
Qed.

Lemma set_enable_same s e : w_enable s = e -> set_enable s e = s.
Proof. destruct s. cbn. by intros ->. Qed.

Lemma wake_init p fd : wake_inv (fresh_conn p fd).
Proof. split; unfold joined; cbn; [done| |]; by intros [_ []]. Qed.

Lemma joined_dec c : joined c \/ ~ joined c.
Proof. unfold joined. destruct (decide (w_fd (c_w c) = INVALID_SOCK)), (decide (w_efd (c_w c) = INVALID_SOCK)); tauto. Qed.

(** Turning the interest on or off keeps the invariant. *)
Lemma wake_enable `{!PollerLaws P} c s0 e p' w' pc closed failed wire posted :
  wake_inv c -> w_fd s0 = w_fd (c_w c) -> w_efd s0 = w_efd (c_w c) -> w_enable s0 = w_enable (c_w c) ->
  enableWrite (c_poll c) s0 e = (p', w') ->
  (e = false -> w_queue s0 = [] /\ forall m, pc <> IOInFlight m) ->
  wake_inv (MkConn p' w' closed pc (c_leaving c) failed wire posted).
Proof.
  intros [Hl Hk Hw] Ef Ee Eb He Hout.
  pose proof (enableWrite_queue (c_poll c) s0 e) as Hq.
  pose proof (enableWrite_ids (c_poll c) s0 e) as [Hf1 He1]. rewrite He in *; cbn [snd] in *.
  split; unfold joined, interest_of, holds_message in *; cbn in *; rewrite ?Hf1, ?He1, ?Hq, ?Ef, ?Ee.
  - done.
  - intros [Jf Je]. eapply (enableWrite_in _ s0) in He; rewrite ?Ef, ?Ee, ?Eb in *; auto.
    destruct He as [-> He]. done.
  - intros [Jf Je] Hold. eapply (enableWrite_in _ s0) in He; rewrite ?Ef, ?Ee, ?Eb in *; auto.
    destruct He as [-> _]. destruct e; [done|]. destruct (Hout eq_refl) as [Hnil Hn].
    rewrite Hnil in Hold. destruct Hold as [[]|[m Hm]]; [done|]. by destruct (Hn m).
Qed.

(** Joining with messages waiting turns the interest on at once. *)
Lemma wake_enable_join `{!PollerLaws P} p s p' w' closed pc leaving failed wire posted :
  leaving = false -> interest p (w_efd s) (w_fd s) = Some (true, w_enable s) ->
  enableWrite p s true = (p', w') ->
  wake_inv (MkConn p' w' closed pc leaving failed wire posted).
Proof.
  intros -> Hi He. pose proof (enableWrite_ids p s true) as [Hf1 He1]. rewrite He in *; cbn [snd] in *.
  split; unfold joined, interest_of; cbn; rewrite ?Hf1, ?He1; [done| |];
    intros [Jf Je]; eapply enableWrite_in in He; eauto; destruct He as [-> He]; done.
Qed.

Lemma wake_step `{!PollerLaws P} c c' : wake_inv c -> step c c' -> wake_inv c'.
Proof.
  intros Hinv Hs. destruct Hs as [c m p' w' _ Hp|c m rc p' w' Hp Hrc|c efd p' w' Hpc Hcl Hlv He Hi Hj
    |c|c Hlv|c p' Hfr|c m q Hpc Hcl Hpop|c Hpc Hcl Hpop|c m n q Hpc Hn Hfin|c m n q Hpc Hfin|c p' w' Hpc Ht].
  - apply post_ok in Hp as (_ & _ & Heq). symmetry in Heq.
    by eapply (wake_enable c _ true); [| | | |exact Heq|].
  - apply (post_refused _ _ _ _ _ _ Hp) in Hrc as [-> ->]. by destruct c.
  - revert Hj. unfold joinMonitor. destruct (w_queue _) eqn:Eq; cbn in Eq.
    + intros [= <- <-]. split; unfold joined, interest_of, holds_message; cbn; [done|done|].
      rewrite Eq. by intros _ [[]|[m ?]].
    + intros Hj. by eapply wake_enable_join; [| |exact Hj].
  - destruct Hinv as [Hl Hk Hw]. split; unfold joined; cbn; [done|by intros [_ []]..].
  - destruct Hinv as [Hl Hk Hw]. specialize (Hl Hlv).
    split; unfold joined; cbn; [done|by intros [_ []]..].
  - destruct Hinv as [Hl Hk Hw]. split; unfold joined, interest_of, holds_message in *; cbn in *; [done| |done].
    intros J. rewrite Hfr by done. by apply Hk.
  - destruct Hinv as [Hl Hk Hw]. split; unfold joined, interest_of, holds_message in *; cbn in *; [done|done|].
    intros J _. apply Hw; [done|]. left. by destruct (w_queue (c_w c)).
  - destruct Hinv as [Hl Hk Hw]. split; unfold joined, interest_of, holds_message in *; cbn in *; [done|done|].
    intros J Hold. apply Hw; [done|]. destruct Hold as [?|[m ?]]; [by left|done].
  - destruct Hinv as [Hl Hk Hw]. split; unfold joined, interest_of, holds_message in *; cbn in *; [done|done|].
    intros J _. apply Hw; eauto.
  - destruct Hinv as [Hl Hk Hw]. split; unfold joined, interest_of, holds_message in *; cbn in *; [done|done|].
    intros J _. apply Hw; eauto.
  - revert Ht. unfold sendData_empty. destruct (w_queue (c_w c)) eqn:Eq.
    + intros Ht. eapply (wake_enable c); [done..|exact Ht|]. done.
    + intros [= <- <-]. destruct Hinv as [Hl Hk Hw].
      split; unfold joined, interest_of, holds_message in *; cbn in *; [done|done|].
      intros J _. apply Hw; [done|]. left. by rewrite Eq.
Qed.

(** ** Properties *)

(** C1: at every moment of every interleaving of posts, joins, leaves and
    sends, the bytes the kernel accepted, the message in the I/O thread's hands
    and the queue are, in this order, exactly the bytes of the accepted posts,
    in the order of the posts; after a failed send the connection is closed and
    the wire stays a prefix of them. Nothing is lost, duplicated or reordered,
    partial writes and EAGAIN included. *)
Theorem stream_in_order c :
  reachable c ->
  c_wire c `prefix_of` c_posted c /\
  (c_failed c = false -> c_wire c ++ in_flight c ++ concat (w_queue (c_w c)) = c_posted c) /\
  (c_failed c = true -> c_closed c = true).
Proof.
  intros [_ H]%stream_reachable. revert H. unfold stream_ok.
  destruct (c_failed c); [by intros (? & _ & ?)|].
  intros <-. split; [by apply prefix_app_r|done].
Qed.

(** C4: no lost wakeup. As long as a connection is joined and has bytes to
    send (in the queue or in the I/O thread's hands), the poller watches its
    descriptor for writing, for any poller that satisfies the interface. *)
Theorem no_lost_wakeup `{!PollerLaws P} c :
  reachable c -> joined c -> holds_message c -> interest_of c = Some (true, true).
Proof.
  intros Hr. assert (wake_inv c) as [Hl Hk Hw].
  { revert c Hr. apply reachable_ind; [apply wake_init|apply wake_step]. }
  intros J Hold. rewrite Hk, Hw; auto.
Qed.

Lemma step_post_to c c' m p' w' :
  in_sint 32 (size_of m) -> post (c_poll c) (c_w c) m = (0, p', w') ->
  c' = MkConn p' w' (c_closed c) (c_pc c) (c_leaving c) (c_failed c) (c_wire c) (c_posted c ++ m) ->
  step c c'.
Proof. intros ?? ->. by apply step_post. Qed.

(** Posting [n] messages to a connection outside any poller. *)
Lemma post_many p fd n :
  (n <= 257)%nat ->
  rtc step (fresh_conn p fd)
    (MkConn p (MkW fd INVALID_SOCK false (replicate n [])) false IOIdle false false [] []).
Proof.
  induction n as [|n IH]; intros Hn; [apply rtc_refl|].
  eapply rtc_r; [apply IH; lia|].
  replace (replicate (S n) []) with (replicate n ([] : bytes) ++ [[]]) by (by rewrite <- replicate_cons_app).
  eapply (step_post_to _ _ []); [done| |reflexivity]. unfold post. cbn [c_w c_poll w_queue].
  rewrite (proj2 (Z.ltb_ge _ _)).
  2:{ unfold size_of, MaxPendingMsg. rewrite length_replicate. lia. }
  by rewrite enableWrite_out by (by right).
Qed.

(** the queue never holds more than [MaxPendingMsg + 2] messages - the
    test is [>] and the I/O thread may put one back - and a connection that is
    joined can reach that bound: the limit of 256 is exceeded by two. *)
Theorem queue_bound `{!PollerLaws P} p fd efd :
  fd <> INVALID_SOCK -> efd <> INVALID_SOCK -> interest p efd fd = Some (true, false) ->
  (forall c, reachable c -> size_of (w_queue (c_w c)) <= MaxPendingMsg + 2) /\
  exists c, reachable c /\ joined c /\ size_of (w_queue (c_w c)) = MaxPendingMsg + 2.
Proof.
  intros Hf He Hi. split.
  { intros c Hr. cut (queue_inv c); [unfold queue_inv; case_match; lia|].
    revert c Hr. apply reachable_ind; [done|apply queue_step]. }
  set (p1 := snd (sp_enable p efd fd true true)).
  exists (MkConn p1 (MkW fd efd true (replicate 258 [])) false IOIdle false false [] []).
  split; [|split; [done|by vm_compute]].
  exists p, fd. etrans; [apply (post_many p fd 257); lia|].
  eapply rtc_l; [eapply (step_join _ efd p1 (MkW fd efd true (replicate 257 []))); try done|].
  { by apply join_nonempty. }
  eapply rtc_l; [by eapply (step_send_pop _ [])|]. cbn.
  eapply rtc_l; [eapply (step_post_to _ _ []); [done|by apply post_enabled|reflexivity]|]. cbn.
  eapply rtc_l; [by eapply (step_send_done _ [] (-2)); [| |cbn]|]. apply rtc_refl.
Qed.

End poller.

(** ** Witnesses, on the Windows poller *)

#[local] Instance sample_poller : Poller WinPoll.state := WinPoll.win_poller 0x0300 0x0010.
#[local] Instance sample_laws : PollerLaws WinPoll.state := WinPoll.winsock_laws.

Definition sample_poll : WinPoll.state :=
  snd (WinPoll.sp_add_ex 0x0300 0x0010 (snd (WinPoll.sp_create (WinPoll.MkState ∅ 0))) 1 5 false).

(** Descriptor 5 after posting "ab", joining instance 1 and a partial write. *)
Definition sample_conn : conn :=
  MkConn (snd (sp_enable sample_poll 1 5 true true)) (MkW 5 1 true [[x62]])
    false IOIdle false false [x61] [x61; x62].

Lemma sample_conn_reachable : reachable sample_conn.
Proof.
  exists sample_poll, 5.
  eapply rtc_l; [by eapply (step_post_to _ _ [x61; x62])|].
  eapply rtc_l; [by eapply (step_join _ 1)|]. cbn.
  eapply rtc_l; [by eapply (step_send_pop _ [x61; x62])|]. cbn.
  eapply rtc_l; [by eapply (step_send_done _ [x61; x62] 1)|]. apply rtc_refl.
Qed.

Lemma stream_in_order_witness :
  [x61] `prefix_of` [x61; x62] /\
  (false = false -> [x61] ++ [] ++ concat [[x62]] = [x61; x62]) /\ (false = true -> false = true).
Proof. exact (stream_in_order sample_conn sample_conn_reachable). Defined.

Lemma no_lost_wakeup_witness : interest_of sample_conn = Some (true, true).
Proof.
  apply (no_lost_wakeup sample_conn sample_conn_reachable); [split; discriminate|left; discriminate].
Defined.

Lemma queue_bound_witness :
  (forall c : conn, reachable c -> size_of (w_queue (c_w c)) <= 258) /\
  exists c : conn, reachable c /\ joined c /\ size_of (w_queue (c_w c)) = 258.
Proof. apply (queue_bound sample_poll 5 1); [discriminate|discriminate|reflexivity]. Defined.
