(* ===== verification/TcpUser.v ===== *)
(** * A server-side connection ([tcpsock_user] of [zbf/socket_tcp_v5.hpp])

    [user] is the state of one [tcpsock_user]; the sending half is the
    [wstate] of [WriteSide]. [on_read] is what the I/O thread does with the
    bytes of one successful [recv]: [onRecv], then [getRecvMsg] until it returns
    null. [recv_session] runs it over a sequence of chunks. *)

From S2P Require Import Prelude MemChunk TcpMessage Lymsg Framing SocketPoll WriteSide.

Definition BufferSize : Z := 1024.
Definition MaxPendingSize : Z := 10485760.
Definition UserTimeout : Z := 90.
(** The I/O thread's own chunk. *)
Definition IOBufferSize : Z := 4096.

(** [heartbeat_helper]: threshold and time of the last update, both [int]. *)
Record heartbeat_helper := MkHb { _threshold : Z; _lastTime : Z }.

Definition hb_update (now : Z) (h : heartbeat_helper) : heartbeat_helper := MkHb (_threshold h) now.
Definition isExceed (h : heartbeat_helper) (now : Z) : bool := _threshold h <=? now - _lastTime h.

Record user := MkUser {
  u_peerAddr : bytes;
  u_peerPort : Z;
  u_seq : Z;                 (* unsigned long long *)
  u_recvCache : memchunk;
  u_wr : wstate;
  u_closed : bool;
  u_started : bool;
  u_hb : heartbeat_helper;
  u_protocol : option protocol;
}.

Definition set_recvCache (u : user) (c : memchunk) : user :=
  MkUser (u_peerAddr u) (u_peerPort u) (u_seq u) c (u_wr u) (u_closed u) (u_started u) (u_hb u) (u_protocol u).
Definition set_wr (u : user) (w : wstate) : user :=
  MkUser (u_peerAddr u) (u_peerPort u) (u_seq u) (u_recvCache u) w (u_closed u) (u_started u) (u_hb u) (u_protocol u).
Definition set_hb (u : user) (h : heartbeat_helper) : user :=
  MkUser (u_peerAddr u) (u_peerPort u) (u_seq u) (u_recvCache u) (u_wr u) (u_closed u) (u_started u) h (u_protocol u).

Definition new_user (fresh : Z -> bytes) : user :=
  MkUser [] 0 0 (new_chunk fresh BufferSize) (MkW INVALID_SOCK INVALID_SOCK false [])
    false false (MkHb UserTimeout 0) None.

(** The clock value of [_hbhelper.update()] is the argument [now]. *)
Definition init (now : Z) (addr : bytes) (port fd seq : Z) (u : user) : user :=
  MkUser addr port seq (u_recvCache u)
    (MkW fd (w_efd (u_wr u)) (w_enable (u_wr u)) (w_queue (u_wr u)))
    (u_closed u) (u_started u) (hb_update now (u_hb u)) (u_protocol u).

Definition setClose (u : user) : user :=
  MkUser (u_peerAddr u) (u_peerPort u) (u_seq u) (u_recvCache u) (u_wr u) true (u_started u) (u_hb u) (u_protocol u).
Definition isClosed (u : user) : bool := u_closed u.
Definition setStart (u : user) : user :=
  MkUser (u_peerAddr u) (u_peerPort u) (u_seq u) (u_recvCache u) (u_wr u) (u_closed u) true (u_hb u) (u_protocol u).
Definition isStarted (u : user) : bool := u_started u.
Definition setProtocol (u : user) (p : protocol) : user :=
  MkUser (u_peerAddr u) (u_peerPort u) (u_seq u) (u_recvCache u) (u_wr u) (u_closed u) (u_started u) (u_hb u) (Some p).

Definition isExpired (u : user) (now : Z) : bool := isExceed (u_hb u) now.

(** [uninit]: the descriptor to close, if there is one, and the state after. *)
Definition uninit (u : user) : option Z * user :=
  (if w_fd (u_wr u) =? INVALID_SOCK then None else Some (w_fd (u_wr u)),
   set_wr u (MkW INVALID_SOCK (w_efd (u_wr u)) (w_enable (u_wr u)) [])).

Section receive.
Context (fresh : Z -> bytes).

(** [onRecv]: result code and state; [None] is undefined behaviour in
    [memchunk::push]. *)
Definition onRecv (u : user) (chunk : bytes) : option (Z * user) :=
  if isClosed u then Some (1, u)
  else
    match push fresh (u_recvCache u) (Some chunk) (size_of chunk) with
    | None => None
    | Some (rc, c) =>
        let u1 := set_recvCache u c in
        if rc <? 0 then Some (2, u1)
        else if MaxPendingSize <? datasize c then Some (3, u1)
        else Some (0, u1)
    end.

Definition getRecvMsg (now : Z) (u : user) : option bytes * user :=
  if isClosed u then (None, u)
  else
    let '(msg, c) := _PopMsg (u_recvCache u) (u_protocol u) in
    let u1 := set_recvCache u c in
    match msg with
    | Some m => (Some m, set_hb u1 (hb_update now (u_hb u)))
    | None => (None, u1)
    end.

(** [while ((msg = user->getRecvMsg()) != nullptr) dispatchMsg(msg, user)]. *)
Fixpoint recv_loop (fuel : nat) (now : Z) (u : user) : option (list bytes * user) :=
  match fuel with
  | O => None
  | S fuel =>
      match getRecvMsg now u with
      | (None, u1) => Some ([], u1)
      | (Some m, u1) =>
          match recv_loop fuel now u1 with
          | None => None
          | Some (ms, u2) => Some (m :: ms, u2)
          end
      end
  end.

(** One read event with [recvLen > 0]: the code of [onRecv], which the caller
    answers with [onIOError] unless it is 0, and the dispatched messages. *)
Definition on_read (now : Z) (u : user) (chunk : bytes) : option (Z * list bytes * user) :=
  match onRecv u chunk with
  | None => None
  | Some (rc, u1) =>
      if rc =? 0 then
        match recv_loop (S (length (buffer (u_recvCache u1)))) now u1 with
        | None => None
        | Some (ms, u2) => Some (0, ms, u2)
        end
      else Some (rc, [], u1)
  end.

(** A sequence of read events; the connection is closed at the first error. *)
Fixpoint recv_session (now : Z) (u : user) (chunks : list bytes) : option (Z * list bytes * user) :=
  match chunks with
  | [] => Some (0, [], u)
  | c :: cs =>
      match on_read now u c with
      | None => None
      | Some (rc, ms, u1) =>
          if rc =? 0 then
            match recv_session now u1 cs with
            | None => None
            | Some (rc', ms', u2) => Some (rc', ms ++ ms', u2)
            end
          else Some (rc, ms, u1)
      end
  end.

(** ** Lemmas *)

(** A connection that reads protocol [p]. *)
Record reading (p : protocol) (u : user) : Prop := {
  rd_wf : chunk_wf (u_recvCache u);
  rd_block : blocksize (u_recvCache u) = BufferSize;
  rd_open : u_closed u = false;
  rd_proto : u_protocol u = Some p;
}.

(** What [recv] hands over: between 1 and [IOBufferSize] bytes. *)
Definition recv_chunk (c : bytes) : Prop := 0 < size_of c <= IOBufferSize.

Context (p : protocol) `{!ProtocolLaws p} `{!Allocator fresh}.

Lemma onRecv_spec u chunk :
  reading p u -> recv_chunk chunk -> datasize (u_recvCache u) <= MaxPendingSize ->
  exists u', content (u_recvCache u') = content (u_recvCache u) ++ chunk /\ reading p u' /\
    onRecv u chunk =
      Some (if MaxPendingSize <? size_of (content (u_recvCache u) ++ chunk) then 3 else 0, u').
Proof.
  intros [Hwf Hb Ho Hp] Hc Hd. unfold recv_chunk, IOBufferSize, MaxPendingSize in *.
  destruct (push_spec fresh (u_recvCache u) chunk) as (c' & Hpush & Hwf' & Hcon & Hd' & Hb');
    [done|lia| |].
  { rewrite Hb. unfold BufferSize. destruct Hwf. lia. }
  exists (set_recvCache u c'). split; [done|]. split; [split; cbn; congruence|].
  unfold onRecv, isClosed. rewrite Ho, Hpush.
  pose proof (size_content _ Hwf') as Hs. rewrite Hcon in Hs.
  destruct Hwf. rewrite swrap_id by (unfold in_sint; change (2 ^ (32 - 1)) with 2147483648; lia).
  rewrite (proj2 (Z.ltb_ge _ 0)) by lia. unfold MaxPendingSize. rewrite Hs. by case_if.
Qed.

Lemma onRecv_hb u chunk :
  match onRecv u chunk with Some (_, u') => u_hb u' = u_hb u | None => True end.
Proof. unfold onRecv. repeat case_match; by simplify_eq. Qed.

Lemma recv_loop_drain fuel now u ms c' :
  u_closed u = false -> drain fuel (u_recvCache u) (u_protocol u) = Some (ms, c') ->
  exists u', recv_loop fuel now u = Some (ms, u') /\ u_recvCache u' = c' /\
    u_closed u' = false /\ u_protocol u' = u_protocol u /\
    u_hb u' = (if ms is [] then u_hb u else hb_update now (u_hb u)).
Proof.
  revert u ms. induction fuel as [|fuel IH]; [done|]. intros u ms Ho. cbn [drain recv_loop].
  unfold getRecvMsg, isClosed. rewrite Ho.
  destruct (_PopMsg (u_recvCache u) (u_protocol u)) as [[m|] c1] eqn:E.
  - set (u1 := set_hb _ _). change (u_protocol u) with (u_protocol u1). change c1 with (u_recvCache u1).
    destruct (drain fuel (u_recvCache u1) (u_protocol u1)) as [[ms1 c2]|] eqn:E1; [|done].
    intros [= <- <-]. destruct (IH u1 ms1 Ho E1) as (u' & -> & ? & ? & ? & Ht).
    exists u'. split_and!; try done. rewrite Ht. by destruct ms1.
  - intros [= <- <-]. by exists (set_recvCache u c1).
Qed.

(** One read event against the reference. *)
Lemma on_read_spec now u chunk ms r :
  reading p u -> recv_chunk chunk ->
  size_of (content (u_recvCache u) ++ chunk) <= MaxPendingSize ->
  split p (content (u_recvCache u) ++ chunk) = Some (ms, r) ->
  exists u', on_read now u chunk = Some (0, ms, u') /\ reading p u' /\
    content (u_recvCache u') = r.
Proof.
  intros Hr Hc Hmax Hs.
  assert (datasize (u_recvCache u) <= MaxPendingSize) as Hd.
  { rewrite <- (size_content _ (rd_wf _ _ Hr)). rewrite size_of_app in Hmax. unfold recv_chunk in Hc. lia. }
  destruct (onRecv_spec u chunk Hr Hc Hd) as (u1 & Hcon & Hr1 & Ho). unfold on_read. rewrite Ho.
  rewrite (proj2 (Z.ltb_ge MaxPendingSize _)) by done. cbn [Z.eqb].
  destruct Hr1 as [Hwf1 Hb1 Ho1 Hp1]. rewrite <- Hcon in Hs.
  pose proof (size_content _ Hwf1) as Hsz. rewrite Hcon in Hsz.
  destruct (drain_split p (S (length (buffer (u_recvCache u1)))) (u_recvCache u1) ms r)
    as (c2 & Hdr & Hwf2 & Hc2 & Hb2); [done| | |done|].
  { unfold MaxPendingSize in *. lia. }
  { unfold content. rewrite length_take. lia. }
  rewrite <- Hp1 in Hdr. destruct (recv_loop_drain _ now u1 ms c2 Ho1 Hdr) as (u2 & -> & Hc3 & Ho2 & Hp2 & _).
  exists u2. split; [done|]. subst c2. split; [|done]. split; congruence.
Qed.

(** A read event that takes the cache above the limit is an error. *)
Lemma on_read_over now u chunk :
  reading p u -> recv_chunk chunk -> datasize (u_recvCache u) <= MaxPendingSize ->
  MaxPendingSize < size_of (content (u_recvCache u) ++ chunk) ->
  exists u', on_read now u chunk = Some (3, [], u').
Proof.
  intros Hr Hc Hd Hmax. destruct (onRecv_spec u chunk Hr Hc Hd) as (u1 & _ & _ & Ho).
  unfold on_read. rewrite Ho, (proj2 (Z.ltb_lt MaxPendingSize _)) by done. by exists u1.
Qed.

(** A partial frame is shorter than the frame it starts. *)
Lemma rest_bound r t ms r' n :
  peek p r = NeedMore -> split p (r ++ t) = Some (ms, r') ->
  Forall (fun m => size_of m <= n) ms -> size_of r' <= n -> size_of r <= n.
Proof.
  intros Hn Hs Hms Hr'. rewrite split_unfold in Hs by done.
  destruct (peek p (r ++ t)) as [| |k] eqn:E; [|done|].
  - injection Hs as <- <-. rewrite size_of_app in Hr'. pose proof (size_of_nonneg t). lia.
  - destruct (split p (drop (Z.to_nat k) (r ++ t))) as [[ms1 r1]|]; [|done].
    injection Hs as <- <-. apply Forall_cons in Hms as [Hm _].
    pose proof (peek_frame_range p _ _ E). rewrite size_of_take in Hm by lia.
    destruct (Z.le_gt_cases (size_of r) k); [lia|].
    assert (peek p r = FrameOf k); [|congruence]. eapply (peek_frame_shrink p r t); [lia|exact E].
Qed.

(** The largest frame a connection can receive whatever the chunking. *)
Definition MaxSafeFrame : Z := MaxPendingSize - IOBufferSize.

(** Some of these is above it. *)
Definition oversized (ms : list bytes) : Prop := Exists (fun m => MaxSafeFrame < size_of m) ms.

Lemma not_oversized ms : ~ oversized ms -> Forall (fun m => size_of m <= MaxSafeFrame) ms.
Proof.
  intros H. apply Forall_forall. intros m Hm. destruct (Z.le_gt_cases (size_of m) MaxSafeFrame) as [|Hgt]; [done|].
  destruct H. apply Exists_exists. exists m. split; [done|lia].
Qed.

#[local] Instance oversized_dec ms : Decision (oversized ms).
Proof. unfold oversized. apply _. Defined.

(** What a session over any stream of frames comes to: all of them, or the first
    of them and the code of a full cache. *)
Lemma receive_chunks now u chunks : forall ms r,
  reading p u -> Forall recv_chunk chunks -> datasize (u_recvCache u) <= MaxPendingSize ->
  split p (content (u_recvCache u) ++ concat chunks) = Some (ms, r) ->
  peek p (content (u_recvCache u)) = NeedMore ->
  exists rc got u', recv_session now u chunks = Some (rc, got, u') /\ got `prefix_of` ms /\
    (rc = 0 /\ got = ms /\ reading p u' /\ content (u_recvCache u') = r \/ rc = 3 /\ oversized (ms ++ [r])).
Proof.
  intros ms r Hr Hcs. revert u ms Hr. induction Hcs as [|c cs Hc Hcs IH]; intros u ms Hr Hd Hs Hn.
  - cbn [concat] in Hs. rewrite app_nil_r, (split_need p _ Hn) in Hs. injection Hs as <- <-.
    exists 0, [], u. split_and!; [done|done|by left].
  - cbn [concat recv_session] in *. rewrite app_assoc in Hs.
    destruct (Z.lt_ge_cases MaxPendingSize (size_of (content (u_recvCache u) ++ c))) as [Hov|Hfit].
    { destruct (on_read_over now u c Hr Hc Hd Hov) as (u1 & ->). exists 3, [], u1. split_and!; [done|apply prefix_nil|].
      right. split; [done|]. destruct (decide (oversized (ms ++ [r]))) as [|Hno]; [done|exfalso].
      apply not_oversized, Forall_app in Hno as [Hms Hrs]. rewrite Forall_singleton in Hrs.
      rewrite <- app_assoc in Hs. pose proof (rest_bound (content (u_recvCache u)) (c ++ concat cs) ms r MaxSafeFrame Hn Hs Hms Hrs) as Hb.
      rewrite size_of_app in Hov. unfold recv_chunk, MaxSafeFrame in *. lia. }
    destruct (split p (content (u_recvCache u) ++ c)) as [[ms1 r1]|] eqn:E1.
    2:{ by rewrite (split_app_None p _ _ E1) in Hs. }
    rewrite (split_app p _ _ _ _ E1) in Hs.
    destruct (split p (r1 ++ concat cs)) as [[ms2 r2]|] eqn:E2; [|done]. injection Hs as <- <-.
    destruct (on_read_spec now u c ms1 r1 Hr Hc Hfit E1) as (u1 & -> & Hr1 & Hc1).
    cbn [Z.eqb]. rewrite <- Hc1 in E2.
    destruct (IH u1 ms2 Hr1) as (rc & got & u2 & -> & Hg & Hres); [|done|by rewrite Hc1; eapply split_rest|].
    { rewrite <- (size_content _ (rd_wf _ _ Hr1)), Hc1. rewrite <- (split_concat p _ _ _ E1), size_of_app in Hfit.
      pose proof (size_of_nonneg (concat ms1)). lia. }
    exists rc, (ms1 ++ got), u2. split_and!; [done|by apply prefix_app|].
    destruct Hres as [(-> & -> & ? & ?)|[-> Hbig]]; [by left|right]. split; [done|].
    unfold oversized in *. rewrite <- app_assoc, Exists_app. by right.
Qed.

(** Where nothing is that large. *)
Lemma receive_small now u chunks ms r :
  reading p u -> Forall recv_chunk chunks ->
  split p (content (u_recvCache u) ++ concat chunks) = Some (ms, r) ->
  ~ oversized (ms ++ [r]) -> peek p (content (u_recvCache u)) = NeedMore ->
  exists u', recv_session now u chunks = Some (0, ms, u') /\ reading p u' /\ content (u_recvCache u') = r.
Proof.
  intros Hr Hcs Hs Hno Hn. destruct (receive_chunks now u chunks ms r Hr Hcs) as (rc & got & u' & E & _ & Hres); try done.
  - apply not_oversized, Forall_app in Hno as [Hms Hrs]. rewrite Forall_singleton in Hrs.
    pose proof (rest_bound _ (concat chunks) ms r MaxSafeFrame Hn Hs Hms Hrs) as Hb.
    rewrite (size_content _ (rd_wf _ _ Hr)) in Hb. unfold MaxSafeFrame, IOBufferSize in Hb. lia.
  - destruct Hres as [(-> & -> & ? & ?)|[_ ?]]; [by exists u'|done].
Qed.

(** ** Properties *)

(** C3: whatever the division of the byte stream into [recv] calls, what is
    dispatched is a prefix of the frames of the stream, in order. It is all of them,
    with the incomplete rest [r] kept in the cache, unless a frame, or what has
    arrived of the last one, is larger than [MaxSafeFrame] (10 MB less one read):
    only then may the cache be full, which ends the connection with code 3. *)
Theorem receive_any_chunking now u chunks ms r :
  reading p u -> Forall recv_chunk chunks -> datasize (u_recvCache u) <= MaxPendingSize ->
  split p (content (u_recvCache u) ++ concat chunks) = Some (ms, r) ->
  peek p (content (u_recvCache u)) = NeedMore ->
  exists rc got u', recv_session now u chunks = Some (rc, got, u') /\ got `prefix_of` ms /\
    (rc = 0 /\ got = ms /\ reading p u' /\ content (u_recvCache u') = r \/ rc = 3 /\ oversized (ms ++ [r])).
Proof. apply receive_chunks. Qed.

(** a frame larger than the cache limit is never delivered, although the
    protocol may allow it: the connection fails with code 3 while it arrives. *)
Theorem oversize_frame_refused now u chunks m :
  reading p u -> content (u_recvCache u) = [] -> Forall recv_chunk chunks ->
  concat chunks = m -> is_frame p m -> MaxPendingSize < size_of m ->
  exists u', recv_session now u chunks = Some (3, [], u').
Proof.
  intros Hr H0 Hcs Hm Hf Hbig. assert (m = content (u_recvCache u) ++ concat chunks) as Ha by (by rewrite H0).
  assert (datasize (u_recvCache u) <= MaxPendingSize) as Hd.
  { rewrite <- (size_content _ (rd_wf _ _ Hr)), H0. done. }
  clear Hm H0. revert u Hr Ha Hd. induction Hcs as [|c cs Hc Hcs IH]; intros u Hr Ha Hd.
  - cbn [concat] in Ha. rewrite app_nil_r in Ha. rewrite <- (size_content _ (rd_wf _ _ Hr)), <- Ha in Hd. lia.
  - cbn [concat recv_session] in *. rewrite app_assoc in Ha.
    destruct (Z.lt_ge_cases MaxPendingSize (size_of (content (u_recvCache u) ++ c))) as [Hov|Hov].
    + destruct (on_read_over now u c Hr Hc Hd Hov) as (u1 & ->). by exists u1.
    + assert (peek p (content (u_recvCache u) ++ c) = NeedMore) as Hn.
      { apply (peek_prefix_frame p m _ (concat cs) Hf Ha). lia. }
      destruct (on_read_spec now u c [] _ Hr Hc Hov (split_need p _ Hn)) as (u1 & -> & Hr1 & Hc1).
      cbn [Z.eqb]. rewrite <- Hc1 in Ha. destruct (IH u1 Hr1 Ha) as (u2 & ->); [|by exists u2].
      rewrite <- (size_content _ (rd_wf _ _ Hr1)), Hc1. done.
Qed.

(** C2: from [post] on one side to [dispatchMsg] on the other. Whatever the
    interleaving on the sender, the partial writes and the division of what has
    arrived into [recv] calls, the messages dispatched are a prefix of the messages
    posted, in order and byte for byte. The receiver fails (code 3) only if some
    message is larger than [MaxSafeFrame]; if it does not fail, and all that was
    posted has left the sender and arrived, all messages are dispatched. *)
Theorem delivery_in_order {P} {PI : Poller P} now (c : conn (P:=P)) u chunks sent :
  reachable c -> c_posted c = concat sent -> Forall (is_frame p) sent ->
  reading p u -> content (u_recvCache u) = [] ->
  Forall recv_chunk chunks -> concat chunks `prefix_of` c_wire c ->
  exists rc got u', recv_session now u chunks = Some (rc, got, u') /\ got `prefix_of` sent /\
    (rc = 0 \/ rc = 3 /\ oversized sent) /\
    (rc = 0 -> concat chunks = c_wire c -> c_failed c = false -> in_flight c = [] -> w_queue (c_w c) = [] -> got = sent).
Proof.
  intros Hreach Hpost Hf Hr H0 Hcs Hw. destruct (stream_reachable c Hreach) as [_ Hst].
  assert (c_wire c `prefix_of` concat sent) as Hwire.
  { rewrite <- Hpost. revert Hst. unfold stream_ok. destruct (c_failed c); [by intros (_ & _ & ?)|].
    intros <-. by apply prefix_app_r. }
  assert (concat chunks `prefix_of` concat sent) as Hpre by (by etrans).
  assert (exists got r, split p (concat chunks) = Some (got, r) /\ got `prefix_of` sent /\
            (oversized (got ++ [r]) -> oversized sent)) as (ms & r & Hs & Hg & Hbig).
  { destruct (decide (oversized sent)) as [Hov|Hno].
    - destruct (split_prefix p sent (concat chunks) (size_of (concat sent))) as (ms & r & ? & ? & _);
        [apply size_of_nonneg|done| |done|by eauto 6].
      apply Forall_forall. intros m Hm. apply list_elem_of_split in Hm as (l1 & l2 & ->).
      rewrite concat_app. cbn [concat]. rewrite !size_of_app. pose proof (size_of_nonneg (concat l1)).
      pose proof (size_of_nonneg (concat l2)). lia.
    - apply not_oversized in Hno.
      destruct (split_prefix p sent (concat chunks) MaxSafeFrame) as (ms & r & ? & Hms & Hrs); [done..|].
      exists ms, r. split_and!; [done|done|]. intros Hov. exfalso. destruct Hms as [k ->].
      apply Forall_app in Hno as [Hno _]. apply Exists_app in Hov as [Hov|Hov].
      + apply Exists_exists in Hov as (m & Hm & Hgt). rewrite Forall_forall in Hno. specialize (Hno m Hm). lia.
      + inversion Hov as [? ? Hgt|? ? Hnil]; [lia|by inversion Hnil]. }
  destruct (receive_chunks now u chunks ms r Hr Hcs) as (rc & got & u' & Hses & Hgot & Hres).
  { by rewrite <- (size_content _ (rd_wf _ _ Hr)), H0. }
  { by rewrite H0. }
  { rewrite H0. by apply peek_nil. }
  exists rc, got, u'. split_and!; [done|by etrans|destruct Hres as [(-> & _)|[-> ?]]; [by left|right; auto]|].
  intros -> Hall Hfail Hfl Hq. destruct Hres as [(_ & -> & _)|[? _]]; [|done].
  unfold stream_ok in Hst. rewrite Hfail, Hfl, Hq, Hpost in Hst. cbn in Hst. rewrite app_nil_r in Hst.
  rewrite Hall, Hst in Hs. pose proof (split_frames p sent [] Hf (peek_nil p)) as Hfr.
  rewrite app_nil_r in Hfr. congruence.
Qed.

(** only complete messages keep a connection alive. A read event that
    delivers a message makes the connection expire [UserTimeout] seconds after
    it; one that delivers none, however many bytes it brings, leaves the expiry
    where it was. *)
Theorem expiry_counts_messages now u chunk ms u' t :
  reading p u -> recv_chunk chunk -> _threshold (u_hb u) = UserTimeout ->
  size_of (content (u_recvCache u) ++ chunk) <= MaxPendingSize ->
  on_read now u chunk = Some (0, ms, u') ->
  isExpired u' t = (if ms is [] then isExpired u t else UserTimeout <=? t - now).
Proof.
  intros Hr Hc Hth Hmax Hrd.
  assert (datasize (u_recvCache u) <= MaxPendingSize) as Hd.
  { rewrite <- (size_content _ (rd_wf _ _ Hr)). rewrite size_of_app in Hmax. unfold recv_chunk in Hc. lia. }
  destruct (onRecv_spec u chunk Hr Hc Hd) as (u1 & Hcon & Hr1 & Ho).
  pose proof (onRecv_hb u chunk) as Hhb. unfold on_read in Hrd. rewrite Ho in Hrd, Hhb.
  rewrite (proj2 (Z.ltb_ge MaxPendingSize _)) in Hrd by done. cbn [Z.eqb] in Hrd.
  destruct Hr1 as [Hwf1 _ Ho1 Hp1]. pose proof (size_content _ Hwf1) as Hsz. rewrite Hcon in Hsz.
  destruct (drain_total p (S (length (buffer (u_recvCache u1)))) (u_recvCache u1))
    as (ms1 & c2 & Hdr & _); [done| | |].
  { unfold MaxPendingSize in *. lia. }
  { unfold content. rewrite length_take. lia. }
  rewrite <- Hp1 in Hdr. destruct (recv_loop_drain _ now u1 ms1 c2 Ho1 Hdr) as (u2 & Hl & _ & _ & _ & Ht).
  rewrite Hl in Hrd. injection Hrd as -> ->. unfold isExpired. rewrite Ht, Hhb.
  destruct ms; [done|]. unfold isExceed, hb_update. cbn. by rewrite Hth.
Qed.

End receive.

(** Messages packed by [lymsg_helper] are frames of its protocol. *)
Lemma packMsg_is_frame h d :
  header_ok h -> size_of d <= default_MaxBodySize -> is_frame lymsg_protocol (packMsg h d).
Proof.
  intros Hh Hd. destruct (packMsg_frame h d Hh) as [Hb _]; [unfold default_MaxBodySize in Hd; lia|].
  unfold is_frame. cbn [lymsg_protocol headerSize bodySize MaxBodySize].
  rewrite size_packMsg, Hb. pose proof (size_of_nonneg d). unfold lymsg_headerSize in *. lia.
Qed.

(** Cutting a string into pieces of [n] bytes. *)
Fixpoint chop (fuel n : nat) (s : bytes) : list bytes :=
  match fuel, s with
  | O, _ | _, [] => []
  | S fuel, s => take n s :: chop fuel n (drop n s)
  end.

Lemma chop_ok fuel n s :
  (0 < n)%nat -> Z.of_nat n <= IOBufferSize -> (length s <= fuel)%nat ->
  concat (chop fuel n s) = s /\ Forall recv_chunk (chop fuel n s).
Proof.
  intros Hn Hb. revert s. induction fuel as [|fuel IH]; intros s Hf.
  - by destruct s; cbn in Hf; [|lia].
  - destruct s as [|b s]; [done|]. set (l := b :: s) in *.
    assert (0 < length l)%nat as Hl by (cbn; lia).
    change (concat (chop (S fuel) n l)) with (take n l ++ concat (chop fuel n (drop n l))).
    change (chop (S fuel) n l) with (take n l :: chop fuel n (drop n l)).
    destruct (IH (drop n l)) as [-> Hall]; [rewrite length_drop; lia|].
    split; [apply take_drop|]. apply Forall_cons. split; [|done].
    unfold recv_chunk, size_of. rewrite length_take. lia.
Qed.

(** Concrete messages are not that large. *)
Ltac refute_oversized H :=
  exfalso; vm_compute in H; repeat (apply Exists_cons in H as [H|H]; [discriminate H|]); by apply Exists_nil in H.

(** ** Witnesses *)

Definition sample_user : user :=
  setStart (setProtocol (init 1000 [] 8080 5 1 (new_user zero_fresh)) lymsg_protocol).

Lemma sample_reading : reading lymsg_protocol sample_user.
Proof. split; [apply new_chunk_wf; [apply _|done]|done..]. Qed.

(** Two messages in three chunks, and the first byte of a third. *)
Lemma receive_any_chunking_witness :
  exists u', recv_session zero_fresh 1001 sample_user
      (let s := packMsg sample_header [x61] ++ packMsg sample_header [x62; x63] ++ [x00] in
       [take 1 s; take 29 (drop 1 s); drop 30 s]) =
    Some (0, [packMsg sample_header [x61]; packMsg sample_header [x62; x63]], u') /\
    reading lymsg_protocol u' /\ content (u_recvCache u') = [x00].
Proof.
  destruct (receive_any_chunking zero_fresh lymsg_protocol 1001 sample_user
    (let s := packMsg sample_header [x61] ++ packMsg sample_header [x62; x63] ++ [x00] in
       [take 1 s; take 29 (drop 1 s); drop 30 s])
    [packMsg sample_header [x61]; packMsg sample_header [x62; x63]] [x00])
    as (rc & got & u' & E & _ & [(-> & -> & Hr & Hc)|[_ Hbig]]).
  - exact sample_reading.
  - repeat constructor; done.
  - vm_compute. discriminate.
  - vm_compute. reflexivity.
  - reflexivity.
  - exists u'. split; [exact E|]. split; [exact Hr|exact Hc].
  - refute_oversized Hbig.
Defined.

Definition huge_frame : bytes := packMsg sample_header (replicate (Z.to_nat 11000000) x00).

Lemma oversize_frame_refused_witness :
  exists u', recv_session zero_fresh 1001 sample_user
    (chop (length huge_frame) (Z.to_nat 4096) huge_frame) = Some (3, [], u').
Proof.
  assert (size_of (replicate (Z.to_nat 11000000) x00) = 11000000) as Hsz.
  { unfold size_of. rewrite length_replicate. lia. }
  destruct (chop_ok (length huge_frame) (Z.to_nat 4096) huge_frame) as [Hcat Hall]; [lia|done|lia|].
  apply (oversize_frame_refused zero_fresh lymsg_protocol 1001 sample_user _ huge_frame
    sample_reading eq_refl Hall Hcat).
  - apply packMsg_is_frame; [exact sample_header_ok|]. rewrite Hsz. done.
  - unfold huge_frame. rewrite size_packMsg, Hsz. done.
Defined.

(** A sender that posted two messages and got 30 bytes of them out. *)
#[local] Instance sender_poller : Poller WinPoll.state := WinPoll.win_poller 0x0300 0x0010.

Definition frame1 : bytes := packMsg sample_header [x61].
Definition frame2 : bytes := packMsg sample_header [x62; x63].

Definition sender : conn :=
  MkConn sample_poll (MkW 5 INVALID_SOCK false [drop 9 frame2]) false IOIdle false false
    (frame1 ++ take 9 frame2) (frame1 ++ frame2).

Lemma sender_reachable : reachable sender.
Proof.
  exists sample_poll, 5.
  eapply rtc_l; [by eapply (step_post_to _ _ frame1)|].
  eapply rtc_l; [by eapply (step_post_to _ _ frame2)|]. 
  eapply rtc_l; [by eapply (step_send_pop _ frame1)|].
  eapply rtc_l; [by eapply (step_send_done _ frame1 21)|].
  eapply rtc_l; [by eapply (step_send_pop _ frame2)|].
  eapply rtc_l; [by eapply (step_send_done _ frame2 9)|]. apply rtc_refl.
Qed.

Lemma delivery_in_order_witness :
  exists got u', recv_session zero_fresh 1001 sample_user [frame1 ++ take 9 frame2] = Some (0, got, u') /\
    got `prefix_of` [frame1; frame2] /\
    (c_failed sender = false -> in_flight sender = [] -> w_queue (c_w sender) = [] -> got = [frame1; frame2]).
Proof.
  destruct (delivery_in_order zero_fresh lymsg_protocol 1001 sender sample_user
    [frame1 ++ take 9 frame2] [frame1; frame2] sender_reachable)
    as (rc & got & u' & E & Hg & [->|[_ Hbig]] & Hall).
  - reflexivity.
  - repeat constructor; (discriminate || reflexivity).
  - exact sample_reading.
  - reflexivity.
  - repeat constructor; (discriminate || reflexivity).
  - exists []. by rewrite app_nil_r.
  - exists got, u'. split; [exact E|]. split; [exact Hg|]. by apply Hall.
  - refute_oversized Hbig.
Defined.

Lemma expiry_counts_messages_witness :
  exists u', on_read zero_fresh 1050 sample_user frame1 = Some (0, [frame1], u') /\
    forall t, isExpired u' t = (UserTimeout <=? t - 1050).
Proof.
  assert (recv_chunk frame1) as Hc by (split; [reflexivity|discriminate]).
  assert (size_of (content (u_recvCache sample_user) ++ frame1) <= MaxPendingSize) as Hm
    by (vm_compute; discriminate).
  destruct (on_read_spec zero_fresh lymsg_protocol 1050 sample_user frame1 [frame1] [] sample_reading Hc Hm)
    as (u' & E & _); [vm_compute; reflexivity|].
  exists u'. split; [exact E|]. intros t.
  exact (expiry_counts_messages zero_fresh lymsg_protocol 1050 sample_user frame1 [frame1] u' t
    sample_reading Hc eq_refl Hm E).
Defined.
