(* ===== verification/SocketUtils.v ===== *)
(** * Blocking socket helpers ([zbf/socket_utils.hpp])

    The operating system is the interface [Sys]: one operation per system call
    the code makes, on an abstract world [W]. [k_view] observes the world: the
    open connections by descriptor, each with the bytes the kernel accepted for
    sending and the bytes it handed over by [recv], and the connections closed
    so far. [SysLaws] states what POSIX says of each call. *)

From S2P Require Import Prelude SocketPoll.

(** A call that returns a value, fails with [EAGAIN] or [EINTR], or fails. *)
Inductive sysret (A : Type) :=
| SysOk (a : A)
| SysAgain
| SysErr.
Arguments SysOk {A}.
Arguments SysAgain {A}.
Arguments SysErr {A}.

(** Linux values. *)
Definition EINTR : Z := 4.
Definition EINPROGRESS : Z := 115.

(** Bytes accepted for sending and bytes handed over, of one connection. *)
Abbreviation conn_io := (bytes * bytes)%type.

Record kernel_view := MkView {
  v_conn : gmap Z conn_io;
  v_done : list conn_io;
}.

Definition add_out (d : bytes) (io : conn_io) : conn_io := (fst io ++ d, snd io).
Definition add_in (d : bytes) (io : conn_io) : conn_io := (fst io, snd io ++ d).
Definition took (fd : Z) (d : bytes) (v : kernel_view) : kernel_view :=
  MkView (alter (add_out d) fd (v_conn v)) (v_done v).
Definition gave (fd : Z) (d : bytes) (v : kernel_view) : kernel_view :=
  MkView (alter (add_in d) fd (v_conn v)) (v_done v).
Definition opened (fd : Z) (v : kernel_view) : kernel_view :=
  MkView (<[fd := ([], [])]> (v_conn v)) (v_done v).
Definition closed (fd : Z) (v : kernel_view) : kernel_view :=
  MkView (delete fd (v_conn v)) (v_done v ++ option_list (v_conn v !! fd)).

Class Sys (W : Type) := {
  sys_send : W -> Z -> bytes -> sysret Z * W;
  sys_recv : W -> Z -> Z -> sysret bytes * W;
  sys_socket : W -> Z * W;
  sys_close : W -> Z -> W;
  sys_getaddrinfo : W -> bytes -> Z -> bool * W;   (* an address was found *)
  sys_connect : W -> Z -> (Z * Z) * W;             (* result and errno *)
  sys_select : W -> Z -> Z -> Z -> (Z * bool) * W; (* result and FD_ISSET *)
  sys_soerror : W -> Z -> option Z * W;            (* None: getsockopt failed *)
  sys_now : W -> Z;
  k_view : W -> kernel_view;
}.

Class SysLaws (W : Type) `{Sys W} : Prop := {
  law_send w fd d r w' : sys_send w fd d = (r, w') ->
    match r with
    | SysOk n => 0 <= n <= size_of d /\ k_view w' = took fd (take (Z.to_nat n) d) (k_view w)
    | _ => k_view w' = k_view w
    end;
  law_recv w fd n r w' : sys_recv w fd n = (r, w') ->
    match r with
    | SysOk d => size_of d <= n /\ k_view w' = gave fd d (k_view w)
    | _ => k_view w' = k_view w
    end;
  law_socket w fd w' : sys_socket w = (fd, w') ->
    (fd = INVALID_SOCK /\ k_view w' = k_view w) \/
    (0 <= fd /\ v_conn (k_view w) !! fd = None /\ k_view w' = opened fd (k_view w));
  law_close w fd : k_view (sys_close w fd) = closed fd (k_view w);
  law_getaddrinfo w a p : k_view (snd (sys_getaddrinfo w a p)) = k_view w;
  law_connect w fd : k_view (snd (sys_connect w fd)) = k_view w;
  law_select w fd s t : k_view (snd (sys_select w fd s t)) = k_view w;
  law_soerror w fd : k_view (snd (sys_soerror w fd)) = k_view w;
}.

Section helpers.
Context {W : Type} {SW : Sys W}.

(** ** The code *)

(** [send_with_retry_]: one round per [::send]; [None] when the fuel does not
    suffice. *)
Fixpoint send_loop (fuel : nat) (w : W) (fd : Z) (data : bytes) (size max_retry total_sent rest offset retry : Z)
  : option (Z * W) :=
  match fuel with
  | O => None
  | S fuel =>
      match sys_send w fd (sub_bytes offset rest data) with
      | (SysAgain, w1) =>
          let retry := retry + 1 in
          if max_retry <=? retry then Some (total_sent, w1)
          else if total_sent <? size
          then send_loop fuel w1 fd data size max_retry total_sent rest offset retry
          else Some (size, w1)
      | (SysErr, w1) => Some (-1, w1)
      | (SysOk sent, w1) =>
          if sent =? 0 then Some (0, w1)
          else
            let total_sent := total_sent + sent in
            if total_sent <? size
            then send_loop fuel w1 fd data size max_retry total_sent (rest - sent) (offset + sent) 0
            else Some (size, w1)
      end
  end.

Definition send_with_retry_ (fuel : nat) (w : W) (fd : Z) (data : bytes) (size max_retry : Z) : option (Z * W) :=
  send_loop fuel w fd data size max_retry 0 size 0 0.

Definition send_with_retry (fuel : nat) (w : W) (fd : Z) (data : bytes) (size : Z) : option (Z * W) :=
  send_with_retry_ fuel w fd data size 10.

(** [recv_with_retry_]: result code, the bytes put into the buffer. *)
Fixpoint recv_with_retry_ (fuel : nat) (w : W) (fd buf_size max_retry retry : Z) : option (Z * bytes * W) :=
  match fuel with
  | O => None
  | S fuel =>
      match sys_recv w fd buf_size with
      | (SysAgain, w1) =>
          let retry := retry + 1 in
          if max_retry <=? retry then Some (0, [], w1)
          else recv_with_retry_ fuel w1 fd buf_size max_retry retry
      | (SysErr, w1) => Some (-1, [], w1)
      | (SysOk d, w1) => if size_of d =? 0 then Some (0, [], w1) else Some (size_of d, d, w1)
      end
  end.

Definition recv_with_retry (fuel : nat) (w : W) (fd buf_size : Z) : option (Z * bytes * W) :=
  recv_with_retry_ fuel w fd buf_size 10 0.

(** [recv_all]: [retry] is not reset by progress. *)
Definition recv_max_retry : Z := 50.

Fixpoint recv_loop (fuel : nat) (w : W) (fd size left retry : Z) (got : bytes) : option (Z * bytes * W) :=
  match fuel with
  | O => None
  | S fuel =>
      if 0 <? left then
        match sys_recv w fd left with
        | (SysOk d, w1) =>
            if size_of d =? 0 then Some (-2, got, w1)
            else recv_loop fuel w1 fd size (left - size_of d) retry (got ++ d)
        | (SysAgain, w1) =>
            let retry := retry + 1 in
            if recv_max_retry <=? retry then Some (size - left, got, w1)
            else recv_loop fuel w1 fd size left retry got
        | (SysErr, w1) => Some (-1, got, w1)
        end
      else Some (size - left, got, w)
  end.

Definition recv_all (fuel : nat) (w : W) (fd size : Z) : option (Z * bytes * W) :=
  recv_loop fuel w fd size size 0 [].

Definition checkConnError (rc err : Z) : bool :=
  if rc =? 0 then false else negb (err =? EINPROGRESS) && negb (err =? EINTR).

Definition checkSockStat (w : W) (fd status timeout : Z) : bool * W :=
  let '((rc, isset), w1) := sys_select w fd status timeout in
  (if rc <=? 0 then false else isset, w1).

Definition checkSoError (w : W) (fd : Z) : Z * W :=
  match sys_soerror w fd with
  | (None, w1) => (-1, w1)
  | (Some err, w1) => (err, w1)
  end.

(** ** Fuel: every round makes progress or uses up a retry *)

Definition send_fuel (size max_retry : Z) : nat := Z.to_nat ((size + 1) * (max_retry + 1) + 1).
Definition recv_fuel (size : Z) : nat := Z.to_nat (size + recv_max_retry + 2).

Context `{!SysLaws W}.

Lemma alter_equal {A} (f g : A -> A) fd (m : gmap Z A) : (forall x, f x = g x) -> alter f fd m = alter g fd m.
Proof.
  intros Hf. apply map_eq. intros i. destruct (decide (i = fd)) as [->|?].
  - rewrite !lookup_alter_eq. destruct (m !! fd) as [x|]; [|done]. cbn. by rewrite Hf.
  - by rewrite !lookup_alter_ne.
Qed.

Lemma alter_same {A} (f : A -> A) fd (m : gmap Z A) : (forall x, f x = x) -> alter f fd m = m.
Proof. intros Hf. rewrite (alter_equal f id) by done. apply alter_id. by intros. Qed.

Lemma took_nil fd v : took fd [] v = v.
Proof.
  destruct v. unfold took. cbn. rewrite alter_same; [done|]. intros []. unfold add_out. cbn. by rewrite app_nil_r.
Qed.

Lemma gave_nil fd v : gave fd [] v = v.
Proof.
  destruct v. unfold gave. cbn. rewrite alter_same; [done|]. intros []. unfold add_in. cbn. by rewrite app_nil_r.
Qed.

Lemma took_app fd d1 d2 v : took fd d2 (took fd d1 v) = took fd (d1 ++ d2) v.
Proof.
  unfold took. cbn. rewrite alter_alter_eq. f_equal. apply alter_equal. intros []. unfold add_out. cbn.
  by rewrite app_assoc.
Qed.

Lemma gave_app fd d1 d2 v : gave fd d2 (gave fd d1 v) = gave fd (d1 ++ d2) v.
Proof.
  unfold gave. cbn. rewrite alter_alter_eq. f_equal. apply alter_equal. intros []. unfold add_in. cbn.
  by rewrite app_assoc.
Qed.

(** What a send says about the kernel: [rc] is returned and [k] bytes taken. *)
Definition sent_ok (size rc k : Z) : Prop :=
  0 <= k <= size /\ -1 <= rc <= size /\ (rc = size <-> k = size) /\ (0 < rc -> rc = k).

Lemma take_sub_bytes n a (data : bytes) :
  0 <= n -> 0 <= a ->
  take (Z.to_nat a) data ++ take (Z.to_nat n) (drop (Z.to_nat a) data) = take (Z.to_nat (a + n)) data.
Proof.
  intros. rewrite Z2Nat.inj_add by lia. set (x := Z.to_nat a). set (y := Z.to_nat n).
  clearbody x y. revert x. induction data; intros [|x]; cbn; rewrite ?take_nil, ?drop_nil, ?take_nil; try done.
  f_equal. auto.
Qed.

Lemma send_loop_spec fuel w fd data max_retry total retry :
  let size := size_of data in
  0 < size -> 0 <= total < size -> 0 <= retry < max_retry ->
  (size - total) * (max_retry + 1) + (max_retry - retry) < Z.of_nat fuel ->
  exists rc k w', send_loop fuel w fd data size max_retry total (size - total) total retry = Some (rc, w') /\
    total <= k <= size /\ -1 <= rc <= size /\ (rc = size <-> k = size) /\ (0 < rc -> rc = k) /\
    k_view w' = took fd (take (Z.to_nat (k - total)) (drop (Z.to_nat total) data)) (k_view w).
Proof.
  intros size Hs. unfold size in *. clear size. set (size := size_of data) in *.
  revert w total retry. induction fuel as [|fuel IH]; intros w total retry Ht Hr Hf; [nia|].
  cbn [send_loop].
  destruct (sys_send w fd (sub_bytes total (size - total) data)) as [r w1] eqn:E.
  pose proof (law_send _ _ _ _ _ E) as L. destruct r as [sent| |].
  - destruct L as [Hsz L].
    assert (size_of (sub_bytes total (size - total) data) <= size - total) as Hb.
    { unfold sub_bytes, size_of. rewrite length_take. lia. }
    replace (take (Z.to_nat sent) (sub_bytes total (size - total) data))
      with (take (Z.to_nat sent) (drop (Z.to_nat total) data)) in L.
    2:{ unfold sub_bytes. rewrite take_take. f_equal. lia. }
    destruct (Z.eqb_spec sent 0) as [->|Hne].
    + exists 0, total, w1. split_and!; try done; try lia.
      rewrite Z.sub_diag. exact L.
    + destruct (Z.ltb_spec (total + sent) size).
      * replace (size - total - sent) with (size - (total + sent)) by lia.
        destruct (IH w1 (total + sent) 0) as (rc & k & w' & -> & Hk & Hrc & Hiff & Hp & Hc); [lia|lia|nia|].
        exists rc, k, w'. split_and!; try done; try lia. rewrite Hc, L, took_app. f_equal.
        replace (k - total) with (sent + (k - (total + sent))) by lia.
        rewrite <- (take_sub_bytes (k - (total + sent)) sent) by lia.
        rewrite drop_drop. do 4 f_equal. lia.
      * exists size, size, w1. split_and!; try done; try lia. rewrite L. do 3 f_equal. lia.
  - destruct (Z.leb_spec max_retry (retry + 1)).
    + exists total, total, w1. split_and!; try done; try lia. by rewrite Z.sub_diag, took_nil.
    + rewrite (proj2 (Z.ltb_lt total size)) by lia.
      destruct (IH w1 total (retry + 1)) as (rc & k & w' & -> & Hk & Hrc & Hiff & Hp & Hc); [lia|lia|nia|].
      rewrite L in Hc. exists rc, k, w'. by split_and!; try lia.
  - exists (-1), total, w1. split_and!; try done; try lia. by rewrite Z.sub_diag, took_nil.
Qed.

Lemma send_spec w fd data :
  0 < size_of data ->
  exists rc k w', send_with_retry (send_fuel (size_of data) 10) w fd data (size_of data) = Some (rc, w') /\
    sent_ok (size_of data) rc k /\
    k_view w' = took fd (take (Z.to_nat k) data) (k_view w).
Proof.
  intros Hs. destruct (send_loop_spec (send_fuel (size_of data) 10) w fd data 10 0 0)
    as (rc & k & w' & E & Hk & Hrc & Hiff & Hp & Hc); [lia|lia|lia|unfold send_fuel; lia|].
  rewrite !Z.sub_0_r in *. change (drop (Z.to_nat 0) data) with data in Hc.
  exists rc, k, w'. split; [exact E|]. by split.
Qed.

Lemma recv_loop_spec fuel w fd size left retry got :
  0 <= left <= size -> size_of got = size - left -> 0 <= retry < recv_max_retry ->
  left + (recv_max_retry - retry) < Z.of_nat fuel ->
  exists rc d w', recv_loop fuel w fd size left retry got = Some (rc, got ++ d, w') /\
    size_of d <= left /\ k_view w' = gave fd d (k_view w) /\
    (rc = -2 \/ rc = -1 \/ rc = size_of (got ++ d)).
Proof.
  revert w left retry got. induction fuel as [|fuel IH]; intros w left retry got Hl Hg Hr Hf; [lia|].
  cbn [recv_loop].
  assert (forall rc w1, k_view w1 = k_view w -> rc = -2 \/ rc = -1 \/ rc = size - left ->
    exists rc' d w', Some (rc, got, w1) = Some (rc', got ++ d, w') /\ size_of d <= left /\
      k_view w' = gave fd d (k_view w) /\
      (rc' = -2 \/ rc' = -1 \/ rc' = size_of (got ++ d))) as Hstop.
  { intros rc w1 Hc Hrc. exists rc, [], w1. rewrite app_nil_r, gave_nil, Hg, size_of_nil. split_and!; try done; lia. }
  destruct (Z.ltb_spec 0 left) as [Hpos|]; [|apply Hstop; auto].
  destruct (sys_recv w fd left) as [r w1] eqn:E. pose proof (law_recv _ _ _ _ _ E) as L.
  destruct r as [d| |].
  - destruct L as [Hd L]. pose proof (size_of_nonneg d). destruct (Z.eqb_spec (size_of d) 0) as [H0|].
    + apply size_of_zero in H0 as ->. rewrite gave_nil in L. apply Hstop; auto.
    + destruct (IH w1 (left - size_of d) retry (got ++ d)) as (rc & d' & w' & -> & Hd' & Hc & Hrc);
        [lia|rewrite size_of_app; lia|lia|lia|].
      exists rc, (d ++ d'), w'. rewrite app_assoc. split_and!; try done.
      * rewrite size_of_app. lia.
      * by rewrite Hc, L, gave_app.
  - destruct (Z.leb_spec recv_max_retry (retry + 1)); [apply Hstop; auto|].
    destruct (IH w1 left (retry + 1) got) as (rc & d' & w' & -> & Hd' & Hc & Hrc); [done|done|lia|lia|].
    exists rc, d', w'. by rewrite <- L.
  - apply Hstop; auto.
Qed.

Lemma recv_all_ok w fd size :
  0 <= size ->
  exists rc d w', recv_all (recv_fuel size) w fd size = Some (rc, d, w') /\
    size_of d <= size /\ k_view w' = gave fd d (k_view w) /\
    (rc = -2 \/ rc = -1 \/ rc = size_of d).
Proof.
  intros Hs. destruct (recv_loop_spec (recv_fuel size) w fd size size 0 [])
    as (rc & d & w' & E & ? & ? & ?);
    [lia|rewrite size_of_nil; lia|done|unfold recv_fuel, recv_max_retry; lia|]. by exists rc, d, w'.
Qed.

(** ** Properties *)

(** C40: the blocking send. Whatever the kernel does, [send_with_retry] returns;
    it returns the size of the data exactly when the kernel took all of it, in
    order; any positive result is the number of bytes taken, and on an error or
    a closed peer only a strict prefix was taken. *)
Theorem send_with_retry_spec w fd data :
  0 < size_of data ->
  exists rc k w', send_with_retry (send_fuel (size_of data) 10) w fd data (size_of data) = Some (rc, w') /\
    sent_ok (size_of data) rc k /\
    k_view w' = took fd (take (Z.to_nat k) data) (k_view w).
Proof. apply send_spec. Qed.

(** the blocking read. [recv_all] returns; it takes at most [size] bytes
    off the connection, stores exactly those, and returns [size] only when all
    of them have arrived. *)
Theorem recv_all_spec w fd size :
  0 <= size ->
  exists rc d w', recv_all (recv_fuel size) w fd size = Some (rc, d, w') /\
    size_of d <= size /\ k_view w' = gave fd d (k_view w) /\
    (rc = -2 \/ rc = -1 \/ rc = size_of d).
Proof. apply recv_all_ok. Qed.

End helpers.

(** ** A scripted kernel

    The results of the calls in order; what a call asks for beyond the script
    fails. [now] is constant. *)

Inductive answer :=
| AnsSend (r : sysret Z)
| AnsRecv (r : sysret bytes)
| AnsSocket (fd : Z)
| AnsConnect (rc err : Z)
| AnsSelect (rc : Z) (isset : bool)
| AnsSoError (err : option Z).

Record script := MkScript { script_answers : list answer; script_view : kernel_view }.

Definition script_next (w : script) : option answer * script :=
  match script_answers w with
  | [] => (None, w)
  | a :: l => (Some a, MkScript l (script_view w))
  end.

Definition script_update (f : kernel_view -> kernel_view) (w : script) : script :=
  MkScript (script_answers w) (f (script_view w)).

#[export] Instance script_sys : Sys script := {
  sys_send w fd d :=
    match script_next w with
    | (Some (AnsSend (SysOk n)), w1) =>
        let n := Z.max 0 (Z.min n (size_of d)) in
        (SysOk n, script_update (took fd (take (Z.to_nat n) d)) w1)
    | (Some (AnsSend r), w1) => (r, w1)
    | (_, w1) => (SysErr, w1)
    end;
  sys_recv w fd n :=
    match script_next w with
    | (Some (AnsRecv (SysOk d)), w1) =>
        if size_of d <=? n then (SysOk d, script_update (gave fd d) w1) else (SysErr, w1)
    | (Some (AnsRecv r), w1) => (r, w1)
    | (_, w1) => (SysErr, w1)
    end;
  sys_socket w :=
    match script_next w with
    | (Some (AnsSocket fd), w1) =>
        if (0 <=? fd) && bool_decide (v_conn (script_view w) !! fd = None)
        then (fd, script_update (opened fd) w1)
        else (INVALID_SOCK, w1)
    | (_, w1) => (INVALID_SOCK, w1)
    end;
  sys_close w fd := script_update (closed fd) w;
  sys_getaddrinfo w _ _ := (true, w);
  sys_connect w _ :=
    match script_next w with
    | (Some (AnsConnect rc err), w1) => ((rc, err), w1)
    | (_, w1) => ((-1, 0), w1)
    end;
  sys_select w _ _ _ :=
    match script_next w with
    | (Some (AnsSelect rc b), w1) => ((rc, b), w1)
    | (_, w1) => ((-1, false), w1)
    end;
  sys_soerror w _ :=
    match script_next w with
    | (Some (AnsSoError r), w1) => (r, w1)
    | (_, w1) => (None, w1)
    end;
  sys_now _ := 0;
  k_view := script_view;
}.

Lemma script_next_conn w a w' : script_next w = (a, w') -> script_view w' = script_view w.
Proof. unfold script_next. destruct (script_answers w); by intros [= <- <-]. Qed.

#[export] Instance script_laws : SysLaws script.
Proof.
  split; intros w; cbn [sys_send sys_recv sys_socket sys_close sys_getaddrinfo sys_connect sys_select
    sys_soerror k_view script_sys]; try done;
    destruct (script_next w) as [a w1] eqn:E; apply script_next_conn in E.
  - intros fd d r w'. destruct a as [[[n| |]| | | | |]|]; intros [= <- <-]; cbn; rewrite ?E; try done.
    split; [|done]. pose proof (size_of_nonneg d). lia.
  - intros fd n r w'. destruct a as [[|[d| |]| | | |]|]; try (intros [= <- <-]; cbn; by rewrite ?E).
    destruct (Z.leb_spec (size_of d) n); intros [= <- <-]; cbn; rewrite ?E; done.
  - intros fd w'. destruct a as [[| |fd'| | |]|]; try (intros [= <- <-]; left; cbn; by rewrite ?E).
    case_if; intros [= <- <-]; [|by left]. right. bool_Z.
    match goal with H : bool_decide _ = true |- _ => apply bool_decide_eq_true in H end.
    split; [lia|]. split; [done|]. cbn. by rewrite E.
  - intros fd. destruct a as [[| | | | |]|]; done.
  - intros fd s t. destruct a as [[| | | | |]|]; done.
  - intros fd. destruct a as [[| | | | |]|]; done.
Qed.

(** Three bytes sent in two parts with an interruption between them. *)
Definition sample_script : script :=
  MkScript [AnsSend (SysOk 1); AnsSend SysAgain; AnsSend (SysOk 2)] (MkView {[ 7 := ([], []) ]} []).

Lemma send_with_retry_spec_witness :
  exists rc k w', send_with_retry (send_fuel 3 10) sample_script 7 [x01; x02; x03] 3 = Some (rc, w') /\
    sent_ok 3 rc k /\ k_view w' = took 7 (take (Z.to_nat k) [x01; x02; x03]) (k_view sample_script).
Proof. apply (send_with_retry_spec sample_script 7 [x01; x02; x03]). reflexivity. Defined.

Lemma recv_all_spec_witness :
  exists rc d w', recv_all (recv_fuel 4) sample_script 7 4 = Some (rc, d, w') /\
    size_of d <= 4 /\ k_view w' = gave 7 d (k_view sample_script) /\
    (rc = -2 \/ rc = -1 \/ rc = size_of d).
Proof. apply (recv_all_spec sample_script 7 4). lia. Defined.
