(* ===== verification/TcpClient.v ===== *)
(** * The blocking client ([tcpsock_client] of [zbf/socket_tcp_v5.hpp])

    [client] is the state of one [tcpsock_client]; its methods take the world
    of [SocketUtils] and return it. [innerSend] is one request with its reply,
    [send] adds the reconnection. *)

From S2P Require Import Prelude TcpMessage Framing SocketPoll WriteSide TcpUser SocketUtils.

Definition HeartbeatTime : Z := 30.

Record client := MkClient {
  c_addr : bytes;
  c_port : Z;
  c_seq : Z;
  c_fd : Z;
  c_closed : bool;
  c_hb : heartbeat_helper;
}.

Definition set_cfd (c : client) (fd : Z) : client :=
  MkClient (c_addr c) (c_port c) (c_seq c) fd (c_closed c) (c_hb c).
Definition set_cclosed (c : client) (b : bool) : client :=
  MkClient (c_addr c) (c_port c) (c_seq c) (c_fd c) b (c_hb c).

Definition new_client (addr : bytes) (port seq : Z) : client :=
  MkClient addr port seq INVALID_SOCK false (MkHb HeartbeatTime 0).

Definition flushAlive (now : Z) (c : client) : client :=
  MkClient (c_addr c) (c_port c) (c_seq c) (c_fd c) (c_closed c) (hb_update now (c_hb c)).
Definition isConnected (c : client) : bool := negb (c_fd c =? INVALID_SOCK).
Definition isClosed (c : client) : bool := c_closed c.
Definition setClose (c : client) : client := set_cclosed c true.
Definition needHeartbeat (now : Z) (c : client) : bool := isExceed (c_hb c) now.

Section client.
Context {W : Type} {SW : Sys W} (p : protocol).

Definition disconnect (c : client) (w : W) : client * W :=
  if c_fd c =? INVALID_SOCK then (c, w) else (set_cfd c INVALID_SOCK, sys_close w (c_fd c)).

(** The non-blocking connect: 0, or the code it fails with. *)
Definition connect_socket (fd timeout_ms : Z) (w : W) : Z * W :=
  let '((conn, err), w1) := sys_connect w fd in
  if conn =? 0 then (0, w1)
  else if checkConnError conn err then (-3, w1)
  else
    let '(writable, w2) := checkSockStat w1 fd 2 timeout_ms in
    if negb writable then (-4, w2)
    else
      let '(soerr, w3) := checkSoError w2 fd in
      if negb (soerr =? 0) then (-5, w3) else (0, w3).

Definition connect (timeout_ms : Z) (c : client) (w : W) : Z * client * W :=
  let '(c1, w1) := disconnect (set_cclosed c false) w in
  match sys_getaddrinfo w1 (c_addr c1) (c_port c1) with
  | (false, w2) => (-1, c1, w2)
  | (true, w2) =>
      let '(fd, w3) := sys_socket w2 in
      let '(rc, w4) := if fd <? 0 then (-2, w3) else connect_socket fd timeout_ms w3 in
      if rc =? 0 then (0, flushAlive (sys_now w4) (set_cfd c1 fd), w4)
      else (rc, c1, if fd =? INVALID_SOCK then w4 else sys_close w4 fd)
  end.

(** The reply: the code and the message. *)
Definition recv_reply (fd : Z) (w : W) : option (Z * option bytes * W) :=
  let headerSz := headerSize p in
  match recv_all (recv_fuel headerSz) w fd (swrap 32 headerSz) with
  | None => None
  | Some (recvlen, hdrBuf, w1) =>
      if negb (recvlen =? swrap 32 headerSz) then Some (RECV_FAIL, None, w1)
      else
        let bodySz := bodySize p (Some hdrBuf) in
        if MaxBodySize p <? bodySz then Some (RECV_FAIL, None, w1)
        else if 0 <? bodySz then
          match recv_all (recv_fuel bodySz) w1 fd (swrap 32 bodySz) with
          | None => None
          | Some (recvlen, body, w2) =>
              if recvlen <? swrap 32 bodySz then Some (RECV_FAIL, None, w2)
              else Some (SEND_SUCCESS, Some (hdrBuf ++ body), w2)
          end
        else Some (SEND_SUCCESS, Some hdrBuf, w1)
  end.

(** [innerSend(req, ack)]; [want] is [ack != nullptr]. [None] when the fuel of
    a system call loop does not suffice. *)
Definition innerSend (want : bool) (req : bytes) (c : client) (w : W)
  : option (Z * option bytes * client * W) :=
  if negb (isConnected c) then Some (SEND_FAIL, None, c, w)
  else
    let size := swrap 32 (size_of req) in
    match send_with_retry (send_fuel (size_of req) 10) w (c_fd c) req size with
    | None => None
    | Some (sent, w1) =>
        let done rc ack w2 :=
          if negb (rc =? SEND_SUCCESS)
          then let '(c1, w3) := disconnect c w2 in Some (rc, None, c1, w3)
          else Some (rc, ack, flushAlive (sys_now w2) c, w2) in
        if sent <? size then done SEND_FAIL None w1
        else if negb want then done SEND_SUCCESS None w1
        else
          match recv_reply (c_fd c) w1 with
          | None => None
          | Some (rc, ack, w2) => done rc ack w2
          end
    end.

Definition send (want : bool) (req : bytes) (c : client) (w : W)
  : option (Z * option bytes * client * W) :=
  match innerSend want req c w with
  | None => None
  | Some (rc, ack, c1, w1) =>
      if rc =? SEND_FAIL then
        let '(c2, w2) := disconnect c1 w1 in
        let '(rc2, c3, w3) := connect 1000 c2 w2 in
        if rc2 =? 0 then innerSend want req c3 w3 else Some (rc, ack, c3, w3)
      else Some (rc, ack, c1, w1)
  end.

(** ** Lemmas *)

Context `{!SysLaws W, !ProtocolLaws p}.

(** The client holds an open connection, or none. *)
Definition owns (c : client) (v : kernel_view) : Prop :=
  c_fd c = INVALID_SOCK \/ is_Some (v_conn v !! c_fd c).

(** The view after [disconnect]. *)
Definition hung_up (c : client) (v : kernel_view) : kernel_view :=
  if c_fd c =? INVALID_SOCK then v else closed (c_fd c) v.

Lemma disconnect_spec c w :
  exists c' w', disconnect c w = (c', w') /\ c_fd c' = INVALID_SOCK /\
    k_view w' = hung_up c (k_view w).
Proof.
  unfold disconnect, hung_up. destruct (Z.eqb_spec (c_fd c) INVALID_SOCK).
  - by exists c, w.
  - exists (set_cfd c INVALID_SOCK), (sys_close w (c_fd c)). by rewrite law_close.
Qed.

Lemma connect_socket_view fd t w : k_view (snd (connect_socket fd t w)) = k_view w.
Proof.
  unfold connect_socket, checkSockStat, checkSoError.
  pose proof (law_connect w fd) as E1. destruct (sys_connect w fd) as [[conn err] w1]. cbn in E1.
  repeat case_if; cbn; try done.
  pose proof (law_select w1 fd 2 t) as E2. destruct (sys_select w1 fd 2 t) as [[rc b] w2]. cbn in E2.
  pose proof (law_soerror w2 fd) as E3. destruct (sys_soerror w2 fd) as [[e|] w3]; cbn in E3;
    repeat case_if; cbn; congruence.
Qed.

Lemma closed_opened fd v :
  v_conn v !! fd = None -> closed fd (opened fd v) = MkView (v_conn v) (v_done v ++ [([], [])]).
Proof.
  intros E. unfold closed, opened. cbn. rewrite lookup_insert_eq, delete_insert_eq, delete_id; done.
Qed.

(** [connect] holds one descriptor when it succeeds, none when it fails. *)
Lemma connect_spec t c w :
  exists rc c' w', connect t c w = (rc, c', w') /\
    let v := hung_up c (k_view w) in
    if rc =? 0
    then v_conn v !! c_fd c' = None /\ 0 <= c_fd c' /\ k_view w' = opened (c_fd c') v
    else c_fd c' = INVALID_SOCK /\ v_conn (k_view w') = v_conn v /\
      (v_done (k_view w') = v_done v \/ v_done (k_view w') = v_done v ++ [([], [])]).
Proof.
  unfold connect.
  destruct (disconnect_spec (set_cclosed c false) w) as (c1 & w1 & -> & Hf & Hv).
  change (hung_up (set_cclosed c false) (k_view w)) with (hung_up c (k_view w)) in Hv.
  set (v := hung_up c (k_view w)) in *.
  pose proof (law_getaddrinfo w1 (c_addr c1) (c_port c1)) as Ea.
  destruct (sys_getaddrinfo _ _ _) as [[] w2]; cbn in Ea.
  2:{ exists (-1), c1, w2. cbn. rewrite Ea, Hv. auto. }
  destruct (sys_socket w2) as [fd w3] eqn:Es. apply law_socket in Es. rewrite Ea, Hv in Es.
  destruct Es as [[-> Es]|(Hfd & Hn & Es)].
  - exists (-2), c1, w3. cbn. rewrite Es. auto.
  - rewrite (proj2 (Z.ltb_ge fd 0)) by done.
    pose proof (connect_socket_view fd t w3) as Ec. destruct (connect_socket fd t w3) as [rc w4]. cbn in Ec.
    destruct (Z.eqb_spec rc 0) as [->|Hrc].
    + exists 0, (flushAlive (sys_now w4) (set_cfd c1 fd)), w4. cbn. by rewrite Ec, Es.
    + exists rc, c1, (if fd =? INVALID_SOCK then w4 else sys_close w4 fd).
      rewrite (proj2 (Z.eqb_neq rc 0)) by done. split; [done|].
      rewrite (proj2 (Z.eqb_neq fd INVALID_SOCK)) by (unfold INVALID_SOCK; lia).
      rewrite law_close, Ec, Es, closed_opened by done. cbn. auto.
Qed.

Lemma header_int : swrap 32 (headerSize p) = headerSize p.
Proof.
  pose proof header_pos. pose proof max_nonneg. pose proof frame_range.
  apply swrap_id; [done|]. unfold in_sint. change (2 ^ (32 - 1)) with 2147483648. lia.
Qed.

Lemma body_int b : 0 <= b <= MaxBodySize p -> swrap 32 b = b.
Proof.
  intros. pose proof header_pos. pose proof frame_range.
  apply swrap_id; [done|]. unfold in_sint. change (2 ^ (32 - 1)) with 2147483648. lia.
Qed.

(** A reply that is accepted is exactly one frame. *)
Lemma recv_reply_spec fd w :
  exists rc m got w', recv_reply fd w = Some (rc, m, w') /\ k_view w' = gave fd got (k_view w) /\
    ((rc = SEND_SUCCESS /\ m = Some got /\ is_frame p got) \/ (rc = RECV_FAIL /\ m = None)).
Proof.
  pose proof header_pos. unfold recv_reply. rewrite header_int.
  destruct (recv_all_ok w fd (headerSize p)) as (rc & hdr & w1 & -> & Hle & Hv & Hrc); [lia|].
  destruct (Z.eqb_spec rc (headerSize p)) as [->|]; cbn [negb]; [|by exists RECV_FAIL, None, hdr, w1; auto].
  assert (size_of hdr = headerSize p) as Hh by lia.
  pose proof (body_of_header hdr [] Hh) as _.
  pose proof (body_range (Some hdr)) as [Hb _]. set (b := bodySize p (Some hdr)) in *.
  destruct (Z.ltb_spec (MaxBodySize p) b); [by exists RECV_FAIL, None, hdr, w1; auto|].
  destruct (Z.ltb_spec 0 b).
  - rewrite body_int by lia.
    destruct (recv_all_ok w1 fd b) as (rc2 & body & w2 & -> & Hle2 & Hv2 & Hrc2); [lia|].
    rewrite Hv, gave_app in Hv2.
    destruct (Z.ltb_spec rc2 b); [by exists RECV_FAIL, None, (hdr ++ body), w2; auto|].
    exists SEND_SUCCESS, (Some (hdr ++ body)), (hdr ++ body), w2. do 2 (split; [done|]). left.
    split_and!; try done. unfold is_frame. rewrite body_of_header, size_of_app by done. fold b. lia.
  - exists SEND_SUCCESS, (Some hdr), hdr, w1. do 2 (split; [done|]). left. split_and!; try done.
    unfold is_frame. fold b. lia.
Qed.

(** What one [innerSend] on an open connection does to the kernel. *)
Definition exchanged (want : bool) (req : bytes) (fd : Z) (v : kernel_view) (rc : Z) (ack : option bytes)
    (c' : client) (v' : kernel_view) : Prop :=
  (rc = SEND_SUCCESS /\ c_fd c' = fd /\
     v' = gave fd (default [] ack) (took fd req v) /\
     match ack with Some m => want = true /\ is_frame p m | None => want = false end) \/
  (rc = SEND_FAIL /\ ack = None /\ c_fd c' = INVALID_SOCK /\
     exists n, 0 <= n < size_of req /\ v' = closed fd (took fd (take (Z.to_nat n) req) v)) \/
  (rc = RECV_FAIL /\ ack = None /\ c_fd c' = INVALID_SOCK /\ want = true /\
     exists got, v' = closed fd (gave fd got (took fd req v))).

Lemma exchange want req c w :
  0 < size_of req -> in_sint 32 (size_of req) -> c_fd c <> INVALID_SOCK ->
  exists rc ack c' w', innerSend want req c w = Some (rc, ack, c', w') /\
    exchanged want req (c_fd c) (k_view w) rc ack c' (k_view w').
Proof.
  intros Hs Hi Hc. unfold innerSend, isConnected. rewrite (proj2 (Z.eqb_neq _ _) Hc). cbn [negb].
  rewrite swrap_id by done.
  destruct (send_spec w (c_fd c) req Hs) as (sent & k & w1 & -> & (Hk & Hr & Hiff & Hp) & Hv).
  assert (forall wx, exists c1 wy, disconnect c wx = (c1, wy) /\ c_fd c1 = INVALID_SOCK /\
    k_view wy = closed (c_fd c) (k_view wx)) as Hd.
  { intros wx. destruct (disconnect_spec c wx) as (c1 & wy & E & Hf & Hvy). exists c1, wy.
    split_and!; try done. unfold hung_up in Hvy. by rewrite (proj2 (Z.eqb_neq _ _) Hc) in Hvy. }
  destruct (Z.ltb_spec sent (size_of req)).
  - cbn [SEND_FAIL SEND_SUCCESS Z.eqb negb]. destruct (Hd w1) as (c1 & w3 & -> & Hf & Hvy).
    exists SEND_FAIL, None, c1, w3. split; [done|]. right; left. split_and!; try done.
    exists k. split; [lia|]. by rewrite Hvy, Hv.
  - assert (k = size_of req) as -> by lia. rewrite take_ge in Hv by (unfold size_of; lia).
    destruct want; cbn [negb].
    + destruct (recv_reply_spec (c_fd c) w1) as (rc & m & got & w2 & -> & Hv2 & [(-> & -> & Hm)|(-> & ->)]);
        rewrite Hv in Hv2.
      * cbn. eexists _, _, _, _. split; [done|]. by left.
      * cbn [RECV_FAIL SEND_SUCCESS Z.eqb negb]. destruct (Hd w2) as (c1 & w3 & -> & Hf & Hvy).
        exists RECV_FAIL, None, c1, w3. split; [done|]. right; right. split_and!; try done.
        exists got. by rewrite Hvy, Hv2.
    + cbn. eexists _, _, _, _. split; [done|]. left. cbn. by rewrite gave_nil.
Qed.

(** [io] is what a connection that carried [o] before carried after part of
    [req] was written: never all of it. *)
Definition partial (o req : bytes) (io : conn_io) : Prop :=
  exists n, 0 <= n < size_of req /\ fst io = o ++ take (Z.to_nat n) req.

(** The outcome of [send] on connections: [o] is what the old one carried. *)
Record send_outcome (want : bool) (o req : bytes) (v : kernel_view) (rc : Z) (ack : option bytes)
    (c' : client) (v' : kernel_view) : Prop := {
  so_codes : rc = SEND_SUCCESS \/ rc = SEND_FAIL \/ rc = RECV_FAIL;
  so_owns : owns c' v';
  so_success : rc = SEND_SUCCESS ->
    exists l io o', v_done v' = v_done v ++ l /\ Forall (fun x => partial o req x \/ partial [] req x) l /\
      v_conn v' !! c_fd c' = Some io /\ (o' = o \/ o' = []) /\ fst io = o' ++ req;
  so_send_fail : rc = SEND_FAIL ->
    exists l, v_done v' = v_done v ++ l /\ Forall (fun x => partial o req x \/ partial [] req x) l;
  so_recv_fail : rc = RECV_FAIL ->
    c_fd c' = INVALID_SOCK /\
    exists l x o', v_done v' = v_done v ++ l ++ [x] /\
      Forall (fun x => partial o req x \/ partial [] req x) l /\ (o' = o \/ o' = []) /\ fst x = o' ++ req;
  so_reply : match ack with
    | Some m => rc = SEND_SUCCESS /\ want = true /\ is_frame p m /\
        exists io i, v_conn v' !! c_fd c' = Some io /\ snd io = i ++ m
    | None => rc = SEND_SUCCESS -> want = false
    end;
}.

Lemma outcome_of_exchange want req fd v o i rc ack c' v' :
  v_conn v !! fd = Some (o, i) ->
  exchanged want req fd v rc ack c' v' -> send_outcome want o req v rc ack c' v'.
Proof.
  intros Hl [(-> & Hf & -> & Hm)|[(-> & -> & Hf & n & Hn & ->)|(-> & -> & Hf & -> & got & ->)]].
  - assert (v_conn (gave fd (default [] ack) (took fd req v)) !! fd = Some (o ++ req, i ++ default [] ack)) as Hio.
    { cbn. by rewrite !lookup_alter_eq, Hl. }
    split; rewrite ?Hf; try done.
    + by left.
    + right. rewrite Hf, Hio. by eexists.
    + intros _. exists [], (o ++ req, i ++ default [] ack), o. rewrite Hio. split_and!; auto. cbn. by rewrite app_nil_r.
    + destruct ack as [m|]; [|done]. destruct Hm as [-> Hm]. split_and!; try done.
      by exists (o ++ req, i ++ m), i.
  - split; try done; [auto|by left|]. intros _. exists [(o ++ take (Z.to_nat n) req, i)].
    cbn. rewrite lookup_alter_eq, Hl. cbn. split; [done|]. apply Forall_singleton. left. by exists n.
  - split; try done; [auto|by left|]. intros _. split; [done|].
    exists [], (o ++ req, i ++ got), o. cbn. rewrite !lookup_alter_eq, Hl. cbn. auto.
Qed.

(** The connections closed before the exchange. *)
Lemma outcome_later want o req v l v1 rc ack c' v' :
  v_done v1 = v_done v ++ l -> Forall (fun x => partial o req x \/ partial [] req x) l ->
  send_outcome want [] req v1 rc ack c' v' -> send_outcome want o req v rc ack c' v'.
Proof.
  intros Hd Hl [H1 H2 H3 H4 H5 H6]. split; try done.
  - intros E. destruct (H3 E) as (l' & io & o' & Hd' & Hl' & Hio & Ho & Hf).
    exists (l ++ l'), io, []. rewrite Hd', Hd, app_assoc. split_and!; try done; auto.
    + apply Forall_app. split; [done|]. eapply Forall_impl; [exact Hl'|]. naive_solver.
    + destruct Ho as [->| ->]; done.
  - intros E. destruct (H4 E) as (l' & Hd' & Hl'). exists (l ++ l'). rewrite Hd', Hd, app_assoc.
    split; [done|]. apply Forall_app. split; [done|]. eapply Forall_impl; [exact Hl'|]. naive_solver.
  - intros E. destruct (H5 E) as (Hf & l' & x & o' & Hd' & Hl' & Ho & Hx). split; [done|].
    exists (l ++ l'), x, []. rewrite Hd', Hd, !app_assoc. split_and!; try done; auto.
    + apply Forall_app. split; [done|]. eapply Forall_impl; [exact Hl'|]. naive_solver.
    + destruct Ho as [->| ->]; done.
Qed.

(** The other connections are left alone, and the client's is its own. *)
Definition kept (c : client) (v : kernel_view) (c' : client) (v' : kernel_view) : Prop :=
  (forall fd io, fd <> INVALID_SOCK -> fd <> c_fd c -> v_conn v !! fd = Some io ->
     v_conn v' !! fd = Some io /\ fd <> c_fd c') /\ owns c' v'.

Lemma kept_trans c v c1 v1 c2 v2 : kept c v c1 v1 -> kept c1 v1 c2 v2 -> kept c v c2 v2.
Proof.
  intros [H1 _] [H2 Ho]. split; [|done]. intros fd io Hi Hne Hl.
  destruct (H1 _ _ Hi Hne Hl) as [Hl' Hne']. by apply H2.
Qed.

Lemma kept_hung_up c c' v : c_fd c' = INVALID_SOCK -> kept c v c' (hung_up c v).
Proof.
  intros Hf. split; [|by left]. intros fd io Hi Hne Hl. rewrite Hf. split; [|done].
  unfold hung_up. case_if; [done|]. cbn. by rewrite lookup_delete_ne by done.
Qed.

Lemma kept_disconnect c w c' w' : disconnect c w = (c', w') -> kept c (k_view w) c' (k_view w').
Proof.
  destruct (disconnect_spec c w) as (c1 & w1 & -> & Hf & Hv). intros [= <- <-]. rewrite Hv. by apply kept_hung_up.
Qed.

Lemma kept_connect t c w rc c' w' : connect t c w = (rc, c', w') -> kept c (k_view w) c' (k_view w').
Proof.
  destruct (connect_spec t c w) as (rc1 & c1 & w1 & -> & H). intros [= <- <- <-]. cbn zeta in H.
  pose proof (kept_hung_up c (set_cfd c INVALID_SOCK) (k_view w) eq_refl) as [Hk _].
  destruct (rc1 =? 0).
  - destruct H as (Hn & Hfd & Hv). rewrite Hv. split; [|right; cbn; by rewrite lookup_insert_eq].
    intros fd io Hi Hne Hl. destruct (Hk fd io Hi Hne Hl) as [Hl' _]. cbn.
    assert (fd <> c_fd c1) by congruence. by rewrite lookup_insert_ne by done.
  - destruct H as (Hf & Hv & _). split; [|by left]. intros fd io Hi Hne Hl. rewrite Hv, Hf.
    by destruct (Hk fd io Hi Hne Hl).
Qed.

Lemma kept_exchange want req c v rc ack c' v' :
  owns c v -> c_fd c <> INVALID_SOCK ->
  exchanged want req (c_fd c) v rc ack c' v' -> kept c v c' v'.
Proof.
  intros [|[io0 Ho]] Hc; [done|]. intros [(-> & Hf & -> & Hm)|[(-> & -> & Hf & n & Hn & ->)|(-> & -> & Hf & -> & got & ->)]].
  - split.
    + intros fd io Hi Hne Hl. rewrite Hf. cbn. by rewrite !lookup_alter_ne by done.
    + right. rewrite Hf. cbn. rewrite !lookup_alter_eq, Ho. by eexists.
  - split; [|by left]. intros fd io Hi Hne Hl. rewrite Hf. cbn.
    by rewrite lookup_delete_ne, !lookup_alter_ne by done.
  - split; [|by left]. intros fd io Hi Hne Hl. rewrite Hf. cbn.
    by rewrite lookup_delete_ne, !lookup_alter_ne by done.
Qed.

Lemma hung_up_done c v : exists l, v_done (hung_up c v) = v_done v ++ l /\ (c_fd c = INVALID_SOCK -> l = []).
Proof.
  unfold hung_up. destruct (Z.eqb_spec (c_fd c) INVALID_SOCK).
  - exists []. by rewrite app_nil_r.
  - exists (option_list (v_conn v !! c_fd c)). done.
Qed.

Lemma send_spec_gen want req c w :
  0 < size_of req -> in_sint 32 (size_of req) -> owns c (k_view w) ->
  exists rc ack c' w', send want req c w = Some (rc, ack, c', w') /\
    kept c (k_view w) c' (k_view w') /\
    send_outcome want (from_option fst [] (v_conn (k_view w) !! c_fd c)) req (k_view w) rc ack c' (k_view w').
Proof.
  intros Hs Hi Ho. unfold send.
  (* the first attempt *)
  assert (exists rc ack c1 w1, innerSend want req c w = Some (rc, ack, c1, w1) /\
    kept c (k_view w) c1 (k_view w1) /\ (rc = SEND_FAIL -> c_fd c1 = INVALID_SOCK /\ ack = None) /\
    send_outcome want (from_option fst [] (v_conn (k_view w) !! c_fd c)) req (k_view w) rc ack c1 (k_view w1))
    as (rc & ack & c1 & w1 & -> & Hk & Hfail & Hout).
  { destruct (decide (c_fd c = INVALID_SOCK)) as [Hc|Hc].
    - exists SEND_FAIL, None, c, w. unfold innerSend, isConnected. rewrite Hc. split; [done|].
      split; [split; [|done]; intros; by rewrite Hc|]. split; [done|].
      split; try done; [auto|]. intros _. exists []. by rewrite app_nil_r.
    - destruct (exchange want req c w Hs Hi Hc) as (rc & ack & c1 & w1 & -> & Hex).
      exists rc, ack, c1, w1. split; [done|]. split; [by eapply kept_exchange|]. split.
      + intros ->. by destruct Hex as [(? & _)|[(_ & ? & ? & _)|(? & _)]].
      + destruct Ho as [|[[o i] Hl]]; [done|]. rewrite Hl. cbn. by eapply outcome_of_exchange. }
  destruct (Z.eqb_spec rc SEND_FAIL) as [->|]; [|by exists rc, ack, c1, w1].
  destruct (Hfail eq_refl) as [Hc1 ->].
  destruct (disconnect c1 w1) as [c2 w2] eqn:Ed. pose proof (kept_disconnect _ _ _ _ Ed) as Hk2.
  unfold disconnect in Ed. rewrite Hc1 in Ed. injection Ed as <- <-.
  destruct (connect_spec 1000 c1 w1) as (rc2 & c3 & w3 & Ec & Hv). rewrite Ec.
  pose proof (kept_connect _ _ _ _ _ _ Ec) as Hk3. cbn zeta in Hv.
  assert (hung_up c1 (k_view w1) = k_view w1) as Hh by (unfold hung_up; by rewrite Hc1). rewrite Hh in Hv.
  destruct (so_send_fail _ _ _ _ _ _ _ _ Hout eq_refl) as (l & Hd & Hl).
  destruct (Z.eqb_spec rc2 0) as [->|].
  - destruct Hv as (Hn & Hge & Hv).
    assert (c_fd c3 <> INVALID_SOCK) as Hc3 by (unfold INVALID_SOCK; lia).
    destruct (exchange want req c3 w3 Hs Hi Hc3) as (rc & ack & c4 & w4 & -> & Hex).
    exists rc, ack, c4, w4. split; [done|].
    assert (owns c3 (k_view w3)) by apply Hk3.
    split; [by eapply kept_trans, kept_trans, kept_exchange|].
    eapply (outcome_later _ _ _ _ l (k_view w3)); [rewrite Hv; done|done|].
    eapply outcome_of_exchange; [|exact Hex]. rewrite Hv. cbn. by rewrite lookup_insert_eq.
  - destruct Hv as (Hf & _ & Hdone). exists SEND_FAIL, None, c3, w3. split; [done|].
    split; [by eapply kept_trans|]. split; try done; [auto|by left|]. intros _.
    destruct Hdone as [->| ->]; [by exists l|]. exists (l ++ [([], [])]). rewrite Hd, app_assoc. split; [done|].
    apply Forall_app. split; [done|]. apply Forall_singleton. right. by exists 0.
Qed.

(** ** Several clients *)

(** Every client holds its own open connection or none. *)
Definition heap_ok (h : gmap nat client) (v : kernel_view) : Prop :=
  (forall id c, h !! id = Some c -> owns c v) /\
  (forall i j ci cj, h !! i = Some ci -> h !! j = Some cj -> c_fd ci = c_fd cj ->
     c_fd ci <> INVALID_SOCK -> i = j).

Lemma heap_ok_update h v id c c' v' :
  heap_ok h v -> h !! id = Some c -> kept c v c' v' -> heap_ok (<[id := c']> h) v'.
Proof.
  intros [Ho Hf] Hc [Hk Ho']. split.
  - intros i ci. rewrite lookup_insert. case_decide as E; [by intros [= <-]|].
    intros Hi. destruct (decide (c_fd ci = INVALID_SOCK)) as [|Hv]; [by left|].
    destruct (Ho _ _ Hi) as [|[io Hio]]; [done|]. right.
    destruct (Hk (c_fd ci) io Hv) as [-> _]; [|done|by eexists].
    intros Heq. apply E. symmetry. by eapply Hf.
  - assert (forall j cj, j <> id -> h !! j = Some cj -> c_fd cj <> INVALID_SOCK -> c_fd cj <> c_fd c') as Hne.
    { intros j cj Hj Hcj Hv. destruct (Ho _ _ Hcj) as [|[io Hio]]; [done|].
      destruct (Hk (c_fd cj) io Hv) as [_ ?]; try done. intros Heq. apply Hj. by eapply Hf. }
    intros i j ci cj. rewrite !lookup_insert. repeat case_decide; subst; try done.
    + intros [= <-] Hj Heq Hv. destruct (Hne j cj); congruence.
    + intros Hi [= <-] Heq Hv. destruct (Hne i ci); congruence.
    + apply Hf.
Qed.

Lemma heap_ok_delete h v id : heap_ok h v -> heap_ok (delete id h) v.
Proof.
  intros [Ho Hf]. split.
  - intros i ci [_ Hi]%lookup_delete_Some. by eapply Ho.
  - intros i j ci cj [_ Hi]%lookup_delete_Some [_ Hj]%lookup_delete_Some. by apply Hf.
Qed.

Lemma heap_ok_alloc h v id addr port seq : heap_ok h v -> heap_ok (<[id := new_client addr port seq]> h) v.
Proof.
  intros [Ho Hf]. split.
  - intros i ci. rewrite lookup_insert. case_decide; [|apply Ho]. intros [= <-]. by left.
  - intros i j ci cj. rewrite !lookup_insert. repeat case_decide; subst; try done; intros Hi Hj Heq Hv.
    + injection Hi as <-. done.
    + injection Hj as <-. by destruct Hv.
    + by eapply Hf.
Qed.

(** ** Properties *)

(** one request on an open connection. [innerSend] always returns. When it
    reports success the whole request went out on the client's connection and,
    if a reply was asked for, exactly one frame of the protocol was taken off
    it, which is the reply handed out; in every other case the connection is
    closed, so that a late reply can never answer a later request. *)
Theorem request_reply want req c w :
  0 < size_of req -> in_sint 32 (size_of req) -> c_fd c <> INVALID_SOCK ->
  exists rc ack c' w', innerSend want req c w = Some (rc, ack, c', w') /\
    exchanged want req (c_fd c) (k_view w) rc ack c' (k_view w').
Proof. apply exchange. Qed.

(** C27: at most one delivery. [send], with its reconnection, returns for every
    behaviour of the kernel. The request is resent only after a connection that
    did not take all of it: whatever [send] reports, at most one connection has
    carried the whole request, exactly one if it reports success or a missing
    reply, and none if it reports that sending failed. Other connections are
    left alone, and the client ends with one open connection or none. *)
Theorem send_at_most_once want req c w :
  0 < size_of req -> in_sint 32 (size_of req) -> owns c (k_view w) ->
  exists rc ack c' w', send want req c w = Some (rc, ack, c', w') /\
    kept c (k_view w) c' (k_view w') /\
    send_outcome want (from_option fst [] (v_conn (k_view w) !! c_fd c)) req (k_view w) rc ack c' (k_view w').
Proof. apply send_spec_gen. Qed.

(** a connect never leaks a descriptor: it closes the one it held, ends
    with a new open one exactly when it reports 0, and on each of its failure
    codes has closed what it opened. *)
Theorem connect_owns_one t c w :
  exists rc c' w', connect t c w = (rc, c', w') /\
    let v := hung_up c (k_view w) in
    if rc =? 0
    then v_conn v !! c_fd c' = None /\ 0 <= c_fd c' /\ k_view w' = opened (c_fd c') v
    else c_fd c' = INVALID_SOCK /\ v_conn (k_view w') = v_conn v /\
      (v_done (k_view w') = v_done v \/ v_done (k_view w') = v_done v ++ [([], [])]).
Proof. apply connect_spec. Qed.

End client.

(** ** Witnesses *)

Definition sample_client : client := set_cfd (new_client [] 8080 1) 7.

(** A connection broken half-way through the request, a new one, and a reply. *)
Definition resend_script : script :=
  MkScript
    [AnsSend (SysOk 2); AnsSend SysErr; AnsSocket 8; AnsConnect (-1) EINPROGRESS; AnsSelect 1 true;
     AnsSoError (Some 0); AnsSend (SysOk 5); AnsRecv (SysOk [x02; x00]); AnsRecv SysAgain;
     AnsRecv (SysOk [x00; x01]); AnsRecv (SysOk [x41])]
    (MkView {[ 7 := ([], []) ]} []).

Definition sample_req : bytes := [x02; x00; x00; x01; x42].

Lemma request_reply_witness :
  exists rc ack c' w', innerSend default_msg_proto true sample_req sample_client resend_script = Some (rc, ack, c', w') /\
    exchanged default_msg_proto true sample_req (c_fd sample_client) (k_view resend_script) rc ack c' (k_view w').
Proof. by apply (request_reply default_msg_proto true sample_req sample_client resend_script). Defined.

Lemma send_at_most_once_witness :
  (exists rc ack c' w', send default_msg_proto true sample_req sample_client resend_script = Some (rc, ack, c', w') /\
    kept sample_client (k_view resend_script) c' (k_view w') /\
    send_outcome default_msg_proto true (from_option fst [] (v_conn (k_view resend_script) !! c_fd sample_client))
      sample_req (k_view resend_script) rc ack c' (k_view w')) /\
  (exists w', send default_msg_proto true sample_req sample_client resend_script =
    Some (SEND_SUCCESS, Some [x02; x00; x00; x01; x41], flushAlive 0 (set_cfd sample_client 8), w')).
Proof.
  split; [|by eexists; vm_compute].
  apply (send_at_most_once default_msg_proto true sample_req sample_client resend_script); try done.
  right. by eexists.
Defined.
