(* ===== verification/TcpPool.v ===== *)
(** * Connection pools ([tcpsock_cltpool], [tcpsock_ha_cltpool] of
      [zbf/socket_tcp_v5.hpp])

    [pool] is a [tcpsock_cltpool]; client objects live in [p_heap] and the two
    lists hold references. Each critical section is one definition, and the
    methods compose them as the code does. [pstep] interleaves the critical
    sections of any number of threads and keeps, for the proofs, which client a
    thread has taken and what for. [ha_pool] is the [tcpsock_ha_cltpool] in
    front of several pools. *)

From S2P Require Import Prelude TcpMessage Framing SocketPoll WriteSide TcpUser SocketUtils TcpClient.

Record pool := MkPool {
  p_addr : bytes;
  p_port : Z;
  p_size : Z;                   (* _poolSize, int *)
  p_seq : Z;
  p_heap : gmap nat client;
  p_next : nat;                 (* fresh addresses *)
  p_clients : list nat;
  p_idle : list nat;
  p_invalid : bool;
}.

(** The constructor. *)
Definition new_pool : pool := MkPool [] 0 0 1 ∅ 0 [] [] false.

Definition set_objects (pl : pool) (h : gmap nat client) : pool :=
  MkPool (p_addr pl) (p_port pl) (p_size pl) (p_seq pl) h (p_next pl) (p_clients pl) (p_idle pl) (p_invalid pl).
Definition set_lists (pl : pool) (clients idle : list nat) : pool :=
  MkPool (p_addr pl) (p_port pl) (p_size pl) (p_seq pl) (p_heap pl) (p_next pl) clients idle (p_invalid pl).
Definition updatePoolState (rc : Z) (pl : pool) : pool :=
  MkPool (p_addr pl) (p_port pl) (p_size pl) (p_seq pl) (p_heap pl) (p_next pl) (p_clients pl) (p_idle pl)
    (negb (rc =? SEND_SUCCESS)).
Definition isInvalid (pl : pool) : bool := p_invalid pl.

(** [new tcpsock_client(..., clientSeq(), ...)]. *)
Definition alloc_client (pl : pool) : nat * pool :=
  (p_next pl,
   MkPool (p_addr pl) (p_port pl) (p_size pl) (wrap 64 (p_seq pl + 1))
     (<[p_next pl := new_client (p_addr pl) (p_port pl) (p_seq pl)]> (p_heap pl)) (S (p_next pl))
     (p_clients pl) (p_idle pl) (p_invalid pl)).

Section pool.
Context {W : Type} {SW : Sys W} (proto : protocol).

(** [clt->connect(100)] and [updatePoolState(rc)]; [None]: no such object. *)
Definition link (id : nat) (pl : pool) (w : W) : option (Z * pool * W) :=
  match p_heap pl !! id with
  | None => None
  | Some c =>
      let '(rc, c1, w1) := connect 100 c w in
      Some (rc, updatePoolState rc (set_objects pl (<[id := c1]> (p_heap pl))), w1)
  end.

Definition createClient (pl : pool) (w : W) : option (nat * pool * W) :=
  let '(id, pl1) := alloc_client pl in
  match link id pl1 w with
  | None => None
  | Some (_, pl2, w1) => Some (id, pl2, w1)
  end.

(** [addr = None] is a null [serverAddr]. *)
Definition open (addr : option bytes) (port poolSize : Z) (pl : pool) (w : W) : option (Z * pool * W) :=
  match addr with
  | None => Some (-1, pl, w)
  | Some a =>
      if (port =? 0) || (poolSize =? 0) then Some (-1, pl, w)
      else
        let pl1 := MkPool a port poolSize (p_seq pl) (p_heap pl) (p_next pl) (p_clients pl) (p_idle pl) (p_invalid pl) in
        match createClient pl1 w with
        | None => None
        | Some (id, pl2, w1) => Some (0, set_lists pl2 (p_clients pl2 ++ [id]) (p_idle pl2 ++ [id]), w1)
        end
  end.

Fixpoint close_all (ids : list nat) (h : gmap nat client) (w : W) : gmap nat client * W :=
  match ids with
  | [] => (h, w)
  | id :: ids =>
      match h !! id with
      | None => close_all ids h w
      | Some c => let '(_, w1) := disconnect c w in close_all ids (delete id h) w1
      end
  end.

Definition close (pl : pool) (w : W) : pool * W :=
  let '(h, w1) := close_all (p_clients pl) (p_heap pl) w in
  (set_lists (set_objects pl h) [] [], w1).

(** The critical sections of [popIdleClient]: reserving a place, settling the
    new client, taking an idle one. *)
Definition reserve (pl : pool) : option nat * pool :=
  if (Z.of_nat (length (p_clients pl)) <? wrap 64 (p_size pl)) && bool_decide (p_idle pl = []) then
    let '(id, pl1) := alloc_client pl in
    (Some id, set_lists pl1 (p_clients pl1 ++ [id]) (p_idle pl1))
  else (None, pl).

(** [_clients.erase(std::find(..., newClt))]. *)
Fixpoint erase_first (id : nat) (l : list nat) : list nat :=
  match l with
  | [] => []
  | x :: l => if decide (x = id) then l else x :: erase_first id l
  end.

Definition settle (id : nat) (rc : Z) (pl : pool) : pool :=
  if rc =? 0 then set_lists pl (p_clients pl) (p_idle pl ++ [id])
  else set_objects (set_lists pl (erase_first id (p_clients pl)) (p_idle pl)) (delete id (p_heap pl)).

Definition take_idle (pl : pool) : option nat * pool :=
  match p_idle pl with
  | [] => (None, pl)
  | id :: idle => (Some id, set_lists pl (p_clients pl) idle)
  end.

(** [popIdleClient(wait_ms)]; [during] is what other threads do to the pool
    while [wait_for] has released the lock. *)
Definition popIdleClient (during : pool -> W -> pool * W) (wait_ms : Z) (pl : pool) (w : W)
  : option (option nat * pool * W) :=
  match
    match reserve pl with
    | (None, pl1) => Some (pl1, w)
    | (Some id, pl1) =>
        match link id pl1 w with
        | None => None
        | Some (rc, pl2, w1) => Some (settle id rc pl2, w1)
        end
    end
  with
  | None => None
  | Some (pl1, w1) =>
      match take_idle pl1 with
      | (Some id, pl2) => Some (Some id, pl2, w1)
      | (None, _) =>
          if 0 <? wait_ms then
            let '(pl2, w2) := during pl1 w1 in
            let '(r, pl3) := take_idle pl2 in Some (r, pl3, w2)
          else Some (None, pl1, w1)
      end
  end.

Definition pushClientBack (id : nat) (pl : pool) : pool :=
  set_lists pl (p_clients pl) (p_idle pl ++ [id]).

(** [clt->send(req, ack)] on a client of the pool. *)
Definition client_send (want : bool) (req : bytes) (id : nat) (pl : pool) (w : W)
  : option (Z * option bytes * pool * W) :=
  match p_heap pl !! id with
  | None => None
  | Some c =>
      match TcpClient.send proto want req c w with
      | None => None
      | Some (rc, ack, c1, w1) => Some (rc, ack, set_objects pl (<[id := c1]> (p_heap pl)), w1)
      end
  end.

Definition pool_send (during : pool -> W -> pool * W) (want : bool) (req : bytes) (wait_max : Z) (pl : pool) (w : W)
  : option (Z * option bytes * pool * W) :=
  match popIdleClient during wait_max pl w with
  | None => None
  | Some (None, pl1, w1) => Some (SEND_TIMEOUT, None, pl1, w1)
  | Some (Some id, pl1, w1) =>
      match client_send want req id pl1 w1 with
      | None => None
      | Some (rc, ack, pl2, w2) => Some (rc, ack, pushClientBack id (updatePoolState rc pl2), w2)
      end
  end.

(** The three parts of [keepAlive]. *)
Fixpoint collect (n : nat) (now : Z) (h : gmap nat client) (idle hbList : list nat) : list nat * list nat :=
  match n with
  | O => (idle, hbList)
  | S n =>
      match idle with
      | [] => (idle, hbList)
      | id :: rest =>
          match h !! id with
          | None => (idle, hbList)    (* a deleted object: excluded below *)
          | Some c =>
              if needHeartbeat now c then collect n now h rest (hbList ++ [id])
              else collect n now h (rest ++ [id]) hbList
          end
      end
  end.

Definition heartbeat : bytes := default [] (genHeartbeat proto).

Fixpoint beat_all (ids : list nat) (pl : pool) (w : W) : option (pool * W) :=
  match ids with
  | [] => Some (pl, w)
  | id :: ids =>
      match client_send false heartbeat id pl w with
      | None => None
      | Some (_, _, pl1, w1) => beat_all ids pl1 w1
      end
  end.

Definition restore (hbList : list nat) (pl : pool) : pool :=
  set_lists pl (p_clients pl) (p_idle pl ++ hbList).

Definition keepAlive (pl : pool) (w : W) : option (pool * W) :=
  let '(idle, hbList) := collect (length (p_idle pl)) (sys_now w) (p_heap pl) (p_idle pl) [] in
  match beat_all hbList (set_lists pl (p_clients pl) idle) w with
  | None => None
  | Some (pl1, w1) => Some (restore hbList pl1, w1)
  end.

(** ** Several pools *)

Record ha_pool := MkHa {
  ha_pools : list pool;
  ha_cursor : Z;               (* _poolCursor, int *)
}.

Definition new_ha : ha_pool := MkHa [] 0.
Definition addPool (pl : pool) (h : ha_pool) : ha_pool := MkHa (ha_pools h ++ [pl]) (ha_cursor h).

Definition addConnectPool (addr : option bytes) (port poolSize : Z) (h : ha_pool) (w : W) : option (ha_pool * W) :=
  match open addr port poolSize new_pool w with
  | None => None
  | Some (rc, pl, w1) => Some (if rc =? 0 then addPool pl h else h, w1)
  end.

Fixpoint close_pools (pls : list pool) (w : W) : W :=
  match pls with
  | [] => w
  | pl :: pls => close_pools pls (snd (close pl w))
  end.

Definition clearPools (h : ha_pool) (w : W) : ha_pool * W :=
  (MkHa [] (ha_cursor h), close_pools (ha_pools h) w).

(** [getPool]: the pool's position; [None] when the code indexes outside the
    vector. *)
Definition valid (pl : pool) : bool := negb (isInvalid pl).

Definition getPool (h : ha_pool) : option (option nat * ha_pool) :=
  match cursor_loop valid (length (ha_pools h)) (ha_pools h) (ha_cursor h) with
  | None => None
  | Some (r, cursor) => Some (r, MkHa (ha_pools h) cursor)
  end.

Definition ha_send (during : pool -> W -> pool * W) (want : bool) (req : bytes) (wait_max : Z) (h : ha_pool) (w : W)
  : option (Z * option bytes * ha_pool * W) :=
  match getPool h with
  | None => None
  | Some (None, h1) => Some (POOL_INVALID, None, h1, w)
  | Some (Some i, h1) =>
      match ha_pools h1 !! i with
      | None => None
      | Some pl =>
          match pool_send during want req wait_max pl w with
          | None => None
          | Some (rc, ack, pl1, w1) => Some (rc, ack, MkHa (<[i := pl1]> (ha_pools h1)) (ha_cursor h1), w1)
          end
      end
  end.

Fixpoint keepAlive_pools (pls : list pool) (w : W) : option (list pool * W) :=
  match pls with
  | [] => Some ([], w)
  | pl :: pls =>
      match keepAlive pl w with
      | None => None
      | Some (pl1, w1) =>
          match keepAlive_pools pls w1 with
          | None => None
          | Some (pls1, w2) => Some (pl1 :: pls1, w2)
          end
      end
  end.

Definition ha_keepAlive (h : ha_pool) (w : W) : option (ha_pool * W) :=
  match keepAlive_pools (ha_pools h) w with
  | None => None
  | Some (pls, w1) => Some (MkHa pls (ha_cursor h), w1)
  end.

(** Any use of an [ha_pool] after it has been set up. *)
Inductive ha_use : ha_pool * W -> ha_pool * W -> Prop :=
| use_send h w during want req wait rc ack h' w' :
    ha_send during want req wait h w = Some (rc, ack, h', w') -> ha_use (h, w) (h', w')
| use_keepAlive h w h' w' : ha_keepAlive h w = Some (h', w') -> ha_use (h, w) (h', w')
| use_add h w pl : ha_use (h, w) (addPool pl h, w)
| use_world h w w' : ha_use (h, w) (h, w').

(** ** Interleavings *)

(** What a thread is doing with a client it holds. *)
Inductive hold := HNew | HLinked (rc : Z) | HUse | HBeat.

Record pstate := MkPst {
  ps_pool : pool;
  ps_w : W;
  ps_held : list (nat * hold);
}.

Inductive pstep : pstate -> pstate -> Prop :=
| ps_reserve pl w h id pl' :
    reserve pl = (Some id, pl') -> pstep (MkPst pl w h) (MkPst pl' w ((id, HNew) :: h))
| ps_link pl w h h1 id rc pl' w' :
    h ≡ₚ (id, HNew) :: h1 -> link id pl w = Some (rc, pl', w') ->
    pstep (MkPst pl w h) (MkPst pl' w' ((id, HLinked rc) :: h1))
| ps_settle pl w h h1 id rc :
    h ≡ₚ (id, HLinked rc) :: h1 -> pstep (MkPst pl w h) (MkPst (settle id rc pl) w h1)
| ps_take pl w h id pl' :
    take_idle pl = (Some id, pl') -> pstep (MkPst pl w h) (MkPst pl' w ((id, HUse) :: h))
| ps_send pl w h h1 id want req rc ack pl' w' :
    0 < size_of req -> in_sint 32 (size_of req) ->
    h ≡ₚ (id, HUse) :: h1 -> client_send want req id pl w = Some (rc, ack, pl', w') ->
    pstep (MkPst pl w h) (MkPst (updatePoolState rc pl') w' h)
| ps_push pl w h h1 id :
    h ≡ₚ (id, HUse) :: h1 -> pstep (MkPst pl w h) (MkPst (pushClientBack id pl) w h1)
| ps_collect pl w h idle hb :
    collect (length (p_idle pl)) (sys_now w) (p_heap pl) (p_idle pl) [] = (idle, hb) ->
    pstep (MkPst pl w h) (MkPst (set_lists pl (p_clients pl) idle) w (map (fun id => (id, HBeat)) hb ++ h))
| ps_beat pl w h h1 id rc ack pl' w' :
    h ≡ₚ (id, HBeat) :: h1 -> client_send false heartbeat id pl w = Some (rc, ack, pl', w') ->
    pstep (MkPst pl w h) (MkPst pl' w' h)
| ps_restore pl w h h1 hb :
    h ≡ₚ map (fun id => (id, HBeat)) hb ++ h1 -> pstep (MkPst pl w h) (MkPst (restore hb pl) w h1)
| ps_world pl w h w' :
    (* the rest of the process leaves the clients' descriptors alone *)
    (forall id c, p_heap pl !! id = Some c -> c_fd c <> INVALID_SOCK ->
       v_conn (k_view w') !! c_fd c = v_conn (k_view w) !! c_fd c) ->
    pstep (MkPst pl w h) (MkPst pl w' h).

(** A pool that has been opened, before any thread uses it. *)
Definition pool_opened (s : pstate) : Prop :=
  exists a port size w, 0 < size < 2 ^ 31 /\
    open (Some a) port size new_pool w = Some (0, ps_pool s, ps_w s) /\ ps_held s = [].

Definition pool_reachable (s : pstate) : Prop := exists s0, pool_opened s0 /\ rtc pstep s0 s.

(** ** The invariant *)

Context `{!SysLaws W, !ProtocolLaws proto}.

Record pool_inv (s : pstate) : Prop := {
  pi_split : p_clients (ps_pool s) ≡ₚ p_idle (ps_pool s) ++ map fst (ps_held s);
  pi_nodup : NoDup (p_clients (ps_pool s));
  pi_dom : forall id, id ∈ p_clients (ps_pool s) <-> is_Some (p_heap (ps_pool s) !! id);
  pi_next : forall id, is_Some (p_heap (ps_pool s) !! id) -> (id < p_next (ps_pool s))%nat;
  pi_heap : heap_ok (p_heap (ps_pool s)) (k_view (ps_w s));
  pi_size : Z.of_nat (length (p_clients (ps_pool s))) <= p_size (ps_pool s) < 2 ^ 31;
}.

(** Only lists and the holds change, within the same set of clients. *)
Lemma inv_lists pl w h idle h' :
  pool_inv (MkPst pl w h) -> idle ++ map fst h' ≡ₚ p_idle pl ++ map fst h ->
  pool_inv (MkPst (set_lists pl (p_clients pl) idle) w h').
Proof. intros [H1 H2 H3 H4 H5 H6] Hp. split; try done. cbn in *. by rewrite Hp. Qed.

(** One client changes, as its methods change it. *)
Lemma inv_client pl w h id c c1 w1 b h' :
  pool_inv (MkPst pl w h) -> p_heap pl !! id = Some c -> kept c (k_view w) c1 (k_view w1) ->
  map fst h' ≡ₚ map fst h ->
  pool_inv (MkPst (MkPool (p_addr pl) (p_port pl) (p_size pl) (p_seq pl) (<[id := c1]> (p_heap pl)) (p_next pl)
    (p_clients pl) (p_idle pl) b) w1 h').
Proof.
  intros [H1 H2 H3 H4 H5 H6] Hc Hk Hp. cbn in *. split; cbn; try done.
  - by rewrite Hp.
  - intros i. rewrite H3, lookup_insert. case_decide; [|done]. subst. rewrite Hc. by split; eexists.
  - intros i. rewrite lookup_insert. case_decide; [|auto]. subst. intros _. apply H4. by eexists.
  - by eapply heap_ok_update.
Qed.

Lemma held_perm (id : nat) (x : hold) h h1 : h ≡ₚ (id, x) :: h1 -> map fst h ≡ₚ id :: map fst h1.
Proof. intros ->. done. Qed.

Lemma map_fst_hold (x : hold) (l : list nat) h : map fst (map (fun id => (id, x)) l ++ h) = l ++ map fst h.
Proof. rewrite map_app, map_map. cbn. by rewrite map_id. Qed.

Lemma link_kept id pl w rc pl' w' :
  link id pl w = Some (rc, pl', w') ->
  exists c c1, p_heap pl !! id = Some c /\ kept c (k_view w) c1 (k_view w') /\
    pl' = updatePoolState rc (set_objects pl (<[id := c1]> (p_heap pl))).
Proof.
  unfold link. destruct (p_heap pl !! id) as [c|]; [|done].
  destruct (connect 100 c w) as [[rc1 c1] w1] eqn:E. intros [= <- <- <-].
  apply kept_connect in E. by exists c, c1.
Qed.

Lemma client_send_kept want req id pl w :
  0 < size_of req -> in_sint 32 (size_of req) -> is_Some (p_heap pl !! id) ->
  heap_ok (p_heap pl) (k_view w) ->
  exists rc ack pl' w' c c1, client_send want req id pl w = Some (rc, ack, pl', w') /\
    p_heap pl !! id = Some c /\ kept c (k_view w) c1 (k_view w') /\
    pl' = set_objects pl (<[id := c1]> (p_heap pl)).
Proof.
  intros Hs Hi [c Hc] [Ho _]. unfold client_send. rewrite Hc.
  destruct (send_spec_gen proto want req c w Hs Hi (Ho _ _ Hc)) as (rc & ack & c1 & w1 & -> & Hk & _).
  by eexists _, _, _, _, c, c1.
Qed.

Lemma heartbeat_ok : 0 < size_of heartbeat /\ in_sint 32 (size_of heartbeat).
Proof.
  pose proof header_pos. pose proof frame_range. pose proof max_nonneg.
  destruct heartbeat_frame as (m & Hm & Hf). unfold heartbeat. rewrite Hm. cbn. unfold in_sint.
  change (2 ^ (32 - 1)) with 2147483648. revert Hf. pose proof (body_range (Some m)) as [? _]. lia.
Qed.

Lemma reserve_spec pl id pl' :
  reserve pl = (Some id, pl') ->
  Z.of_nat (length (p_clients pl)) < wrap 64 (p_size pl) /\ id = p_next pl /\
  pl' = MkPool (p_addr pl) (p_port pl) (p_size pl) (wrap 64 (p_seq pl + 1))
     (<[p_next pl := new_client (p_addr pl) (p_port pl) (p_seq pl)]> (p_heap pl)) (S (p_next pl))
     (p_clients pl ++ [p_next pl]) (p_idle pl) (p_invalid pl).
Proof.
  unfold reserve. destruct (Z.ltb_spec (Z.of_nat (length (p_clients pl))) (wrap 64 (p_size pl))); [|done].
  cbn [andb]. case_bool_decide; [|done]. by intros [= <- <-].
Qed.

Lemma reserve_inv pl w h id pl' :
  pool_inv (MkPst pl w h) -> reserve pl = (Some id, pl') -> pool_inv (MkPst pl' w ((id, HNew) :: h)).
Proof.
  intros [H1 H2 H3 H4 H5 H6] (Hlt & -> & ->)%reserve_spec. cbn in *.
  assert (p_next pl ∉ p_clients pl) as Hn. { intros Hin%H3. apply H4 in Hin. lia. }
  rewrite wrap_id in Hlt by (unfold in_uint; lia).
  split; cbn; try done.
  - rewrite H1. solve_Permutation.
  - apply NoDup_app. split; [done|]. split; [|apply NoDup_singleton]. intros x Hx ->%list_elem_of_singleton. done.
  - intros i. rewrite elem_of_app, list_elem_of_singleton, H3, lookup_insert. case_decide; [|naive_solver].
    subst. split; [by eexists|by right].
  - intros i. rewrite lookup_insert. case_decide; [lia|]. intros Hi%H4. lia.
  - by apply heap_ok_alloc.
  - rewrite length_app. cbn. lia.
Qed.

Lemma erase_first_perm id l : id ∈ l -> l ≡ₚ id :: erase_first id l.
Proof.
  induction l as [|x l IH]; [set_solver|]. cbn. case_decide as E; [by subst|].
  intros [?|Hin]%elem_of_cons; [done|]. rewrite (IH Hin) at 1. apply perm_swap.
Qed.

Lemma settle_inv pl w h h1 id rc :
  pool_inv (MkPst pl w h) -> h ≡ₚ (id, HLinked rc) :: h1 -> pool_inv (MkPst (settle id rc pl) w h1).
Proof.
  intros Hinv Hp%held_perm. unfold settle. case_if.
  - eapply inv_lists; [done|]. rewrite Hp. solve_Permutation.
  - destruct Hinv as [H1 H2 H3 H4 H5 H6]. cbn in *.
    assert (id ∈ p_clients pl) as Hin by (rewrite H1, Hp; set_solver).
    pose proof (erase_first_perm _ _ Hin) as He.
    set (cl := erase_first id (p_clients pl)) in *. clearbody cl. rewrite He in H2. apply NoDup_cons in H2 as [Hnin Hnd].
    split; cbn; try done.
    + apply (Permutation_cons_inv (a := id)). rewrite <- He, H1, Hp. solve_Permutation.
    + intros i. rewrite lookup_delete_is_Some, <- H3, He, elem_of_cons.
      split; [|naive_solver]. intros Hi. split; [|by right]. by intros ->.
    + intros i [_ Hi]%lookup_delete_is_Some. by apply H4.
    + by apply heap_ok_delete.
    + rewrite He in H6. cbn in H6. lia.
Qed.

Lemma collect_perm n now h idle hb idle' hb' :
  collect n now h idle hb = (idle', hb') -> idle' ++ hb' ≡ₚ idle ++ hb.
Proof.
  revert idle hb. induction n as [|n IH]; intros idle hb; cbn [collect]; [by intros [= <- <-]|].
  destruct idle as [|id idle]; [by intros [= <- <-]|].
  destruct (h !! id) as [c|]; [|by intros [= <- <-]]. case_if; intros Hc%IH; rewrite Hc; solve_Permutation.
Qed.

Lemma pstep_inv s s' : pool_inv s -> pstep s s' -> pool_inv s'.
Proof.
  intros Hinv Hs. destruct Hs as
    [pl w h id pl' Hr|pl w h h1 id rc pl' w' Hp Hl|pl w h h1 id rc Hp|pl w h id pl' Ht
    |pl w h h1 id want req rc ack pl' w' Hsz Hi Hp Hc|pl w h h1 id Hp|pl w h idle hb Hc
    |pl w h h1 id rc ack pl' w' Hp Hc|pl w h h1 hb Hp|pl w h w' Hw].
  - by eapply reserve_inv.
  - destruct (link_kept _ _ _ _ _ _ Hl) as (c & c1 & Hlk & Hk & ->).
    apply (inv_client pl w h id c c1 w' (negb (rc =? SEND_SUCCESS))); try done.
    apply held_perm in Hp. by rewrite Hp.
  - by eapply settle_inv.
  - unfold take_idle in Ht. destruct (p_idle pl) as [|id0 idle] eqn:E; [done|]. injection Ht as <- <-.
    eapply inv_lists; [done|]. rewrite E. cbn. solve_Permutation.
  - assert (is_Some (p_heap pl !! id)) as Hh.
    { apply held_perm in Hp. apply (pi_dom _ Hinv). rewrite (pi_split _ Hinv). cbn. rewrite Hp. set_solver. }
    destruct (client_send_kept want req id pl w Hsz Hi Hh (pi_heap _ Hinv))
      as (rc0 & ack0 & pl0 & w0 & c & c1 & E & Hlk & Hk & ->). rewrite E in Hc. injection Hc as <- <- <- <-.
    by apply (inv_client pl w h id c c1 w0 (negb (rc0 =? SEND_SUCCESS)) h).
  - eapply inv_lists; [done|]. apply held_perm in Hp. rewrite Hp. solve_Permutation.
  - apply collect_perm in Hc. eapply inv_lists; [done|]. rewrite map_fst_hold, app_assoc, Hc. by rewrite app_nil_r.
  - assert (is_Some (p_heap pl !! id)) as Hh.
    { apply held_perm in Hp. apply (pi_dom _ Hinv). rewrite (pi_split _ Hinv). cbn. rewrite Hp. set_solver. }
    destruct heartbeat_ok as [Hsz Hi].
    destruct (client_send_kept false heartbeat id pl w Hsz Hi Hh (pi_heap _ Hinv))
      as (rc0 & ack0 & pl0 & w0 & c & c1 & E & Hlk & Hk & ->). rewrite E in Hc. injection Hc as <- <- <- <-.
    by apply (inv_client pl w h id c c1 w0 (p_invalid pl) h).
  - eapply inv_lists; [done|]. rewrite Hp, map_fst_hold. solve_Permutation.
  - destruct Hinv as [H1 H2 H3 H4 [H5 H5'] H6]. split; try done. split; [|done]. cbn in *.
    intros id c Hl. destruct (decide (c_fd c = INVALID_SOCK)) as [|Hne]; [by left|].
    right. rewrite (Hw _ _ Hl Hne). by destruct (H5 _ _ Hl).
Qed.

Lemma opened_inv s : pool_opened s -> pool_inv s.
Proof.
  intros (a & port & size & w & Hsz & Ho & Hh). destruct s as [pl w1 h]. cbn in *. subst h.
  unfold open in Ho. case_if; [done|]. unfold createClient in Ho. cbn [alloc_client] in Ho.
  set (pl2 := MkPool _ _ _ _ _ _ _ _ _) in Ho.
  destruct (link _ pl2 w) as [[[rc pl3] w2]|] eqn:El; [|done]. injection Ho as <- <-.
  apply link_kept in El as (c & c1 & Hc & Hk & ->).
  assert (heap_ok (p_heap pl2) (k_view w)) as Hok.
  { apply heap_ok_alloc. split; intros *; by rewrite lookup_empty. }
  pose proof (heap_ok_update _ _ _ _ _ _ Hok Hc Hk) as Hok'.
  cbn in Hok' |- *. split; cbn; try done.
  - apply NoDup_singleton.
  - intros i. rewrite list_elem_of_singleton, lookup_insert. case_decide; [subst; split; [by eexists|done]|].
    rewrite lookup_insert_ne, lookup_empty by done. split; [congruence|by intros []].
  - intros i. rewrite lookup_insert. case_decide; [lia|]. rewrite lookup_insert_ne, lookup_empty by done.
    by intros [].
  - lia.
Qed.

Lemma pool_reachable_inv s : pool_reachable s -> pool_inv s.
Proof.
  intros (s0 & Ho & Hr). apply opened_inv in Ho. induction Hr; [done|]. eauto using pstep_inv.
Qed.

(** ** The methods as runs of steps *)

(** Other threads, while the lock is released, take steps of their own. *)
Definition during_ok (during : pool -> W -> pool * W) (h : list (nat * hold)) : Prop :=
  forall pl w, pool_inv (MkPst pl w h) ->
    rtc pstep (MkPst pl w h) (MkPst (fst (during pl w)) (snd (during pl w)) h).

Lemma rtc_inv s s' : pool_inv s -> rtc pstep s s' -> pool_inv s'.
Proof. intros Hi Hr. induction Hr; [done|]. eauto using pstep_inv. Qed.

Lemma link_total id pl w : is_Some (p_heap pl !! id) -> is_Some (link id pl w).
Proof.
  intros [c Hc]. unfold link. rewrite Hc. destruct (connect 100 c w) as [[rc c1] w1]. by eexists.
Qed.

Lemma take_idle_step pl w h id pl' :
  take_idle pl = (Some id, pl') -> rtc pstep (MkPst pl w h) (MkPst pl' w ((id, HUse) :: h)).
Proof. intros. by apply rtc_once, ps_take. Qed.

Lemma take_idle_none pl pl' : take_idle pl = (None, pl') -> pl' = pl.
Proof. unfold take_idle. by destruct (p_idle pl); intros [= <-]. Qed.

Lemma pop_steps during wait pl w h :
  pool_inv (MkPst pl w h) -> during_ok during h ->
  exists r pl' w', popIdleClient during wait pl w = Some (r, pl', w') /\
    rtc pstep (MkPst pl w h) (MkPst pl' w' (match r with Some id => [(id, HUse)] | None => [] end ++ h)).
Proof.
  intros Hinv Hdur. unfold popIdleClient.
  assert (exists pl1 w1, match reserve pl with
    | (None, pl1) => Some (pl1, w)
    | (Some id, pl1) =>
        match link id pl1 w with None => None | Some (rc, pl2, w1) => Some (settle id rc pl2, w1) end
    end = Some (pl1, w1) /\ rtc pstep (MkPst pl w h) (MkPst pl1 w1 h)) as (pl1 & w1 & -> & Hr1).
  { destruct (reserve pl) as [[id|] pl1] eqn:E.
    - pose proof (reserve_inv _ w h _ _ Hinv E) as Hinv1.
      destruct (link_total id pl1 w) as [[[rc pl2] w1] El].
      { apply (pi_dom _ Hinv1), (elem_of_Permutation_proper id _ _ (pi_split _ Hinv1)). set_solver. }
      rewrite El. exists (settle id rc pl2), w1. split; [done|].
      eapply rtc_l; [by apply ps_reserve|]. eapply rtc_l; [by eapply ps_link|].
      apply rtc_once. by eapply ps_settle.
    - exists pl, w. unfold reserve in E. case_if; [by destruct (alloc_client pl)|]. by injection E as <-. }
  pose proof (rtc_inv _ _ Hinv Hr1) as Hinv1.
  destruct (take_idle pl1) as [[id|] pl2] eqn:Et.
  - exists (Some id), pl2, w1. split; [done|]. etrans; [done|]. by apply take_idle_step.
  - apply take_idle_none in Et as ->. case_if; [|by exists None, pl1, w1].
    specialize (Hdur _ _ Hinv1). destruct (during pl1 w1) as [pl2 w2]. cbn in Hdur.
    destruct (take_idle pl2) as [[id|] pl3] eqn:Et.
    + exists (Some id), pl3, w2. split; [done|]. etrans; [done|].
      etrans; [done|]. by apply take_idle_step.
    + apply take_idle_none in Et as ->. exists None, pl2, w2. split; [done|]. by etrans.
Qed.

Lemma pool_send_run during want req wait pl w h :
  pool_inv (MkPst pl w h) -> during_ok during h -> 0 < size_of req -> in_sint 32 (size_of req) ->
  exists rc ack pl' w', pool_send during want req wait pl w = Some (rc, ack, pl', w') /\
    rtc pstep (MkPst pl w h) (MkPst pl' w' h) /\
    (rc = SEND_TIMEOUT \/ p_invalid pl' = negb (rc =? SEND_SUCCESS)).
Proof.
  intros Hinv Hdur Hs Hi. unfold pool_send.
  destruct (pop_steps during wait pl w h Hinv Hdur) as ([id|] & pl1 & w1 & -> & Hr).
  - pose proof (rtc_inv _ _ Hinv Hr) as Hinv1.
    destruct (client_send_kept want req id pl1 w1 Hs Hi) as (rc & ack & pl2 & w2 & c & c1 & E & _);
      [|apply (pi_heap _ Hinv1)|].
    { apply (pi_dom _ Hinv1), (elem_of_Permutation_proper id _ _ (pi_split _ Hinv1)). set_solver. }
    rewrite E. eexists rc, ack, _, w2. split; [done|]. split; [|by right].
    etrans; [done|]. eapply rtc_l; [by apply (ps_send _ _ _ h id want req rc ack pl2 w2)|]. apply rtc_once. by apply ps_push.
  - by exists SEND_TIMEOUT, None, pl1, w1; auto.
Qed.

Lemma beat_run ids hb pl w h :
  pool_inv (MkPst pl w (map (fun id => (id, HBeat)) hb ++ h)) -> ids ⊆ hb ->
  exists pl' w', beat_all ids pl w = Some (pl', w') /\
    p_invalid pl' = p_invalid pl /\ p_idle pl' = p_idle pl /\
    rtc pstep (MkPst pl w (map (fun id => (id, HBeat)) hb ++ h)) (MkPst pl' w' (map (fun id => (id, HBeat)) hb ++ h)).
Proof.
  revert pl w. induction ids as [|id ids IH]; intros pl w Hinv Hsub; cbn [beat_all]; [by exists pl, w|].
  destruct heartbeat_ok as [Hs Hi]. assert (id ∈ hb) as Hid by set_solver.
  destruct (client_send_kept false heartbeat id pl w Hs Hi) as (rc & ack & pl1 & w1 & c & c1 & E & _ & _ & Hpl);
    [|apply (pi_heap _ Hinv)|].
  { apply (pi_dom _ Hinv), (elem_of_Permutation_proper id _ _ (pi_split _ Hinv)). cbn.
    rewrite map_fst_hold. set_solver. }
  rewrite E. apply list_elem_of_split in Hid as (l1 & l2 & ->).
  assert (pstep (MkPst pl w (map (fun id => (id, HBeat)) (l1 ++ id :: l2) ++ h))
    (MkPst pl1 w1 (map (fun id => (id, HBeat)) (l1 ++ id :: l2) ++ h))) as Hst.
  { eapply (ps_beat _ _ _ (map (fun id => (id, HBeat)) (l1 ++ l2) ++ h)); [|done].
    rewrite !map_app. cbn. solve_Permutation. }
  destruct (IH pl1 w1) as (pl2 & w2 & -> & Hb & Hb' & Hr); [by eapply pstep_inv|set_solver|].
  exists pl2, w2. rewrite Hb, Hb', Hpl. split_and!; try done. by eapply rtc_l.
Qed.

Lemma keepAlive_run pl w h :
  pool_inv (MkPst pl w h) ->
  exists pl' w', keepAlive pl w = Some (pl', w') /\ rtc pstep (MkPst pl w h) (MkPst pl' w' h) /\
    p_idle pl' ≡ₚ p_idle pl /\ p_invalid pl' = p_invalid pl.
Proof.
  intros Hinv. unfold keepAlive.
  destruct (collect _ _ _ _ _) as [idle hb] eqn:Ec.
  pose proof (ps_collect pl w h idle hb Ec) as Hst. pose proof (pstep_inv _ _ Hinv Hst) as Hinv1.
  destruct (beat_run hb hb _ _ _ Hinv1) as (pl1 & w1 & -> & Hb & Hb' & Hr); [done|].
  exists (restore hb pl1), w1. split; [done|].
  assert (rtc pstep (MkPst pl w h) (MkPst (restore hb pl1) w1 h)) as Hrun.
  { eapply rtc_l; [done|]. eapply rtc_r; [done|]. by apply ps_restore. }
  split; [done|]. split; [|done]. cbn. rewrite Hb'. apply collect_perm in Ec. by rewrite Ec, app_nil_r.
Qed.

(** ** Choosing a pool *)

(** A cursor in range, and a vector an [int] can index. *)
Definition ha_ok (h : ha_pool) : Prop :=
  0 <= ha_cursor h <= size_of (ha_pools h) /\ size_of (ha_pools h) < 2 ^ 31 - 1.

Lemma getPool_spec h :
  ha_ok h ->
  exists r h', getPool h = Some (r, h') /\ ha_pools h' = ha_pools h /\ ha_ok h' /\
    match r with
    | Some i => exists j pl, 0 <= j < size_of (ha_pools h) /\
        i = Z.to_nat ((ha_cursor h + j) mod size_of (ha_pools h)) /\
        ha_pools h !! i = Some pl /\ valid pl = true /\
        (forall j', 0 <= j' < j -> refused_at valid (ha_pools h) (ha_cursor h + j'))
    | None => Forall (fun pl => valid pl = false) (ha_pools h)
    end.
Proof.
  intros [Hc Hmax]. unfold getPool.
  destruct (cursor_scan valid (ha_pools h) (ha_cursor h) Hc Hmax) as (r & c' & -> & Hc' & Hr).
  by exists r, (MkHa (ha_pools h) c').
Qed.

Lemma keepAlive_invalid pl w pl' w' : keepAlive pl w = Some (pl', w') -> p_invalid pl' = p_invalid pl.
Proof.
  unfold keepAlive. destruct (collect _ _ _ _ _) as [idle hb].
  assert (forall ids pl0 w0 pl1 w1, beat_all ids pl0 w0 = Some (pl1, w1) -> p_invalid pl1 = p_invalid pl0) as Hb.
  { induction ids as [|id ids IH]; intros pl0 w0 pl1 w1; cbn [beat_all]; [by intros [= <- <-]|].
    unfold client_send. destruct (p_heap pl0 !! id) as [c|]; [|done].
    destruct (TcpClient.send _ _ _ _ _) as [[[[rc ack] c1] w2]|]; [|done]. by intros ->%IH. }
  destruct (beat_all _ _ _) as [[pl1 w1]|] eqn:E; [|done]. intros [= <- <-]. by apply Hb in E.
Qed.

Lemma keepAlive_pools_lookup pls w pls' w' i pl :
  keepAlive_pools pls w = Some (pls', w') -> pls !! i = Some pl ->
  exists pl', pls' !! i = Some pl' /\ p_invalid pl' = p_invalid pl.
Proof.
  revert w pls' i. induction pls as [|pl0 pls IH]; intros w pls' i; cbn [keepAlive_pools]; [done|].
  destruct (keepAlive pl0 w) as [[pl1 w1]|] eqn:E; [|done].
  destruct (keepAlive_pools pls w1) as [[pls1 w2]|] eqn:E1; [|done]. intros [= <- <-].
  destruct i as [|i]; cbn.
  - intros [= <-]. apply keepAlive_invalid in E. by exists pl1.
  - by apply (IH w1).
Qed.

Lemma keepAlive_pools_size pls w pls' w' : keepAlive_pools pls w = Some (pls', w') -> size_of pls' = size_of pls.
Proof.
  revert w pls'. induction pls as [|pl0 pls IH]; intros w pls'; cbn [keepAlive_pools]; [by intros [= <- <-]|].
  destruct (keepAlive pl0 w) as [[pl1 w1]|]; [|done].
  destruct (keepAlive_pools pls w1) as [[pls1 w2]|] eqn:E1; [|done]. intros [= <- <-].
  rewrite !size_of_cons. by rewrite (IH _ _ E1).
Qed.

Lemma use_invalid s s' i pl :
  ha_use s s' -> 0 <= ha_cursor (fst s) <= size_of (ha_pools (fst s)) -> size_of (ha_pools (fst s')) < 2 ^ 31 - 1 ->
  ha_pools (fst s) !! i = Some pl -> isInvalid pl = true ->
  ha_ok (fst s') /\ exists pl', ha_pools (fst s') !! i = Some pl' /\ isInvalid pl' = true.
Proof.
  intros Hu Hc Hmax Hl Hv. destruct Hu as [h w during want req wait rc ack h' w' Hs|h w h' w' Hk|h w pl0|h w w'];
    cbn [fst] in *.
  - unfold ha_send in Hs.
    assert (size_of (ha_pools h) = size_of (ha_pools h') /\ ha_ok h) as [Hsz Hok].
    { unfold ha_ok. destruct (getPool h) as [[[j|] h1]|] eqn:E; [| |done]; unfold getPool in E;
        destruct (cursor_loop _ _ _ _) as [[r c]|]; try done; injection E as -> <-; cbn in Hs.
      - destruct (ha_pools h !! j); [|done]. destruct (pool_send _ _ _ _ _ _) as [[[[? ?] ?] ?]|]; [|done].
        injection Hs as <- <- <- <-. cbn in *. unfold size_of in *. rewrite length_insert in *. lia.
      - injection Hs as <- <- <- <-. cbn in *. done. }
    destruct (getPool_spec h Hok) as (r & h1 & E & Hp1 & Hok1 & Hr). rewrite E in Hs. destruct r as [j|].
    + destruct Hr as (k & plj & _ & _ & Hlj & Hvj & _). rewrite Hp1, Hlj in Hs.
      destruct (pool_send _ _ _ _ _ _) as [[[[rc1 ack1] pl1] w1]|]; [|done]. injection Hs as <- <- <- <-.
      split.
      * unfold ha_ok in *. cbn in *. unfold size_of in *. rewrite length_insert, Hp1 in *. lia.
      * exists pl. cbn. rewrite list_lookup_insert_ne; [done|]. intros ->. rewrite Hl in Hlj. injection Hlj as <-. unfold valid in Hvj. by rewrite Hv in Hvj.
    + injection Hs as <- <- <- <-. split; [done|]. exists pl. by rewrite Hp1.
  - unfold ha_keepAlive in Hk. destruct (keepAlive_pools _ _) as [[pls w1]|] eqn:E; [|done]. injection Hk as <- <-.
    destruct (keepAlive_pools_lookup _ _ _ _ _ _ E Hl) as (pl' & Hl' & Hv').
    split; [|exists pl'; split; [done|]; unfold isInvalid in *; congruence].
    apply keepAlive_pools_size in E. unfold ha_ok. cbn in *. lia.
  - split.
    + unfold ha_ok. cbn in *. rewrite size_of_app in *. change (size_of [pl0]) with 1 in *. lia.
    + exists pl. cbn. split; [|done]. by apply lookup_app_l_Some.
  - split; [done|]. by exists pl.
Qed.

Lemma use_grows s s' : ha_use s s' -> size_of (ha_pools (fst s)) <= size_of (ha_pools (fst s')).
Proof.
  intros [h w during want req wait rc ack h' w' Hs|h w h' w' Hk|h w pl0|h w w']; cbn.
  - unfold ha_send, getPool in Hs. destruct (cursor_loop _ _ _ _) as [[[j|] c]|]; [| |done]; cbn in Hs.
    + destruct (ha_pools h !! j); [|done]. destruct (pool_send _ _ _ _ _ _) as [[[[? ?] ?] ?]|]; [|done].
      injection Hs as <- <- <- <-. cbn. unfold size_of. rewrite length_insert. lia.
    + injection Hs as <- <- <- <-. done.
  - unfold ha_keepAlive in Hk. destruct (keepAlive_pools _ _) as [[pls w1]|] eqn:E; [|done]. injection Hk as <- <-.
    apply keepAlive_pools_size in E. cbn. lia.
  - rewrite size_of_app. pose proof (size_of_nonneg [pl0]). lia.
  - lia.
Qed.

Lemma uses_invalid s s' i pl :
  rtc ha_use s s' -> 0 <= ha_cursor (fst s) <= size_of (ha_pools (fst s)) -> size_of (ha_pools (fst s')) < 2 ^ 31 - 1 ->
  ha_pools (fst s) !! i = Some pl -> isInvalid pl = true ->
  ha_ok (fst s') /\ exists pl', ha_pools (fst s') !! i = Some pl' /\ isInvalid pl' = true.
Proof.
  intros Hr. revert pl. induction Hr as [s|s s1 s' Hu Hr IH]; intros pl Hc Hmax Hl Hv; [split; [done|by exists pl]|].
  assert (size_of (ha_pools (fst s1)) <= size_of (ha_pools (fst s'))) as Hle.
  { clear -Hr. induction Hr as [|x y z Hxy]; [lia|]. apply use_grows in Hxy. lia. }
  destruct (use_invalid s s1 i pl Hu Hc ltac:(lia) Hl Hv) as ([Hc1 _] & pl1 & Hl1 & Hv1).
  by eapply IH.
Qed.

(** ** Properties *)

(** C26: exclusive use. In every interleaving of threads that send, keep the
    connections alive and create new ones, a client of the pool is idle or in
    the hands of exactly one thread; the pool never holds more clients than its
    size; and every client has a connection of its own, or none. *)
Theorem pool_exclusive s :
  pool_reachable s ->
  NoDup (p_idle (ps_pool s) ++ map fst (ps_held s)) /\
  Z.of_nat (length (p_clients (ps_pool s))) <= p_size (ps_pool s) /\
  heap_ok (p_heap (ps_pool s)) (k_view (ps_w s)).
Proof.
  intros Hinv%pool_reachable_inv. split_and!; try apply Hinv. rewrite <- (pi_split _ Hinv). apply Hinv.
Qed.

(** [send] on a pool always returns, with the request sent by one client or
    [SEND_TIMEOUT], and gives back the client it took: it is a run of the
    pool's critical sections that starts and ends with the same clients in use;
    the pool's state flag is set from the result. *)
Theorem pool_send_returns during want req wait pl w h :
  pool_reachable (MkPst pl w h) -> during_ok during h -> 0 < size_of req -> in_sint 32 (size_of req) ->
  exists rc ack pl' w', pool_send during want req wait pl w = Some (rc, ack, pl', w') /\
    rtc pstep (MkPst pl w h) (MkPst pl' w' h) /\
    (rc = SEND_TIMEOUT \/ p_invalid pl' = negb (rc =? SEND_SUCCESS)).
Proof. intros Hr%pool_reachable_inv. by apply pool_send_run. Qed.

(** [keepAlive] always returns, is a run of the pool's critical sections,
    keeps the same idle clients and leaves the pool's state flag as it was,
    whether the heartbeats could be sent or not. *)
Theorem pool_keepAlive_returns pl w h :
  pool_reachable (MkPst pl w h) ->
  exists pl' w', keepAlive pl w = Some (pl', w') /\ rtc pstep (MkPst pl w h) (MkPst pl' w' h) /\
    p_idle pl' ≡ₚ p_idle pl /\ p_invalid pl' = p_invalid pl.
Proof. intros Hr%pool_reachable_inv. by apply keepAlive_run. Qed.

(** [getPool] with a cursor in range picks the first valid pool in cyclic
    order from the cursor, leaves the cursor in range, and fails only when
    every pool is invalid. *)
Theorem getPool_first_valid h :
  ha_ok h ->
  exists r h', getPool h = Some (r, h') /\ ha_pools h' = ha_pools h /\ ha_ok h' /\
    match r with
    | Some i => exists j pl, 0 <= j < size_of (ha_pools h) /\
        i = Z.to_nat ((ha_cursor h + j) mod size_of (ha_pools h)) /\
        ha_pools h !! i = Some pl /\ valid pl = true /\
        (forall j', 0 <= j' < j -> refused_at valid (ha_pools h) (ha_cursor h + j'))
    | None => Forall (fun pl => valid pl = false) (ha_pools h)
    end.
Proof. apply getPool_spec. Qed.

(** a pool that has become invalid stays so: whatever is sent afterwards,
    however often [keepAlive] runs and reconnects its clients, and whatever
    pools are added, it is never chosen again. *)
Theorem invalid_pool_abandoned s s' i pl :
  rtc ha_use s s' -> 0 <= ha_cursor (fst s) <= size_of (ha_pools (fst s)) -> size_of (ha_pools (fst s')) < 2 ^ 31 - 1 ->
  ha_pools (fst s) !! i = Some pl -> isInvalid pl = true ->
  exists r h', getPool (fst s') = Some (r, h') /\ r <> Some i /\
    exists pl', ha_pools (fst s') !! i = Some pl' /\ isInvalid pl' = true.
Proof.
  intros Hr Hc Hm Hl Hv. destruct (uses_invalid s s' i pl Hr Hc Hm Hl Hv) as (Hok & pl' & Hl' & Hv').
  destruct (getPool_spec _ Hok) as (r & h' & E & _ & _ & Hx). exists r, h'. split; [done|]. split; [|by exists pl'].
  intros ->. destruct Hx as (j & pl'' & _ & _ & Hl'' & Hv'' & _). unfold valid in Hv''. simplify_eq.
  by rewrite Hv' in Hv''.
Qed.

(** [clearPools] leaves the cursor: with the cursor beyond the pools added
    afterwards, [getPool] indexes outside the vector. *)
Theorem clearPools_stale_cursor h w pl :
  1 < ha_cursor h < 2 ^ 31 -> getPool (addPool pl (fst (clearPools h w))) = None.
Proof.
  intros Hc. unfold getPool, clearPools, addPool. cbn.
  change (size_of [pl]) with 1. rewrite (proj2 (Z.eqb_neq _ _)) by lia.
  destruct (Z.to_nat (ha_cursor h)) as [|[|k]] eqn:E; [lia|lia|done].
Qed.

End pool.

(** ** Witnesses *)

(** A pool of two, whose first client connects and then loses its connection. *)
Definition sample_world : script :=
  MkScript [AnsSocket 7; AnsConnect 0 0; AnsSend (SysOk 5)] (MkView ∅ []).

Definition sample_pool : pstate :=
  match open (Some [x61]) 8080 2 new_pool sample_world with
  | Some (_, pl, w) => MkPst pl w []
  | None => MkPst new_pool sample_world []
  end.

Lemma sample_pool_reachable : pool_reachable default_msg_proto sample_pool.
Proof.
  exists sample_pool. split; [|done]. exists [x61], 8080, 2, sample_world.
  split; [lia|]. split; [reflexivity|done].
Qed.

Lemma pool_exclusive_witness :
  NoDup (p_idle (ps_pool sample_pool) ++ map fst (ps_held sample_pool)) /\
  Z.of_nat (length (p_clients (ps_pool sample_pool))) <= p_size (ps_pool sample_pool) /\
  heap_ok (p_heap (ps_pool sample_pool)) (k_view (ps_w sample_pool)).
Proof. apply (pool_exclusive default_msg_proto sample_pool), sample_pool_reachable. Defined.

Lemma pool_send_returns_witness :
  exists rc ack pl' w', pool_send default_msg_proto pair false sample_req 2000 (ps_pool sample_pool) (ps_w sample_pool) =
      Some (rc, ack, pl', w') /\
    rtc (pstep default_msg_proto) (MkPst (ps_pool sample_pool) (ps_w sample_pool) []) (MkPst pl' w' []) /\
    (rc = SEND_TIMEOUT \/ p_invalid pl' = negb (rc =? SEND_SUCCESS)).
Proof.
  apply (pool_send_returns default_msg_proto pair false sample_req 2000);
    [apply sample_pool_reachable|intros pl w _; apply rtc_refl|reflexivity|done].
Defined.

Lemma pool_keepAlive_returns_witness :
  exists pl' w', keepAlive default_msg_proto (ps_pool sample_pool) (ps_w sample_pool) = Some (pl', w') /\
    rtc (pstep default_msg_proto) (MkPst (ps_pool sample_pool) (ps_w sample_pool) []) (MkPst pl' w' []) /\
    p_idle pl' ≡ₚ p_idle (ps_pool sample_pool) /\ p_invalid pl' = p_invalid (ps_pool sample_pool).
Proof. apply (pool_keepAlive_returns default_msg_proto), sample_pool_reachable. Defined.

(** The first of two pools invalid, the cursor behind the second. *)
Definition sample_ha : ha_pool := MkHa [updatePoolState SEND_FAIL new_pool; new_pool] 2.

Lemma sample_ha_ok : ha_ok sample_ha.
Proof. unfold ha_ok, size_of. cbn. lia. Qed.

Lemma getPool_first_valid_witness :
  (exists r h', getPool sample_ha = Some (r, h') /\ ha_pools h' = ha_pools sample_ha /\ ha_ok h' /\
    match r with
    | Some i => exists j pl, 0 <= j < size_of (ha_pools sample_ha) /\
        i = Z.to_nat ((ha_cursor sample_ha + j) mod size_of (ha_pools sample_ha)) /\
        ha_pools sample_ha !! i = Some pl /\ valid pl = true /\
        (forall j', 0 <= j' < j -> refused_at valid (ha_pools sample_ha) (ha_cursor sample_ha + j'))
    | None => Forall (fun pl => valid pl = false) (ha_pools sample_ha)
    end) /\ fmap fst (getPool sample_ha) = Some (Some 1%nat).
Proof. split; [apply (getPool_first_valid sample_ha), sample_ha_ok|reflexivity]. Defined.

Lemma invalid_pool_abandoned_witness :
  exists r h', getPool sample_ha = Some (r, h') /\ r <> Some 0%nat /\
    exists pl', ha_pools sample_ha !! 0%nat = Some pl' /\ isInvalid pl' = true.
Proof.
  destruct sample_ha_ok as [H1 H2].
  apply (invalid_pool_abandoned default_msg_proto (sample_ha, sample_world) (sample_ha, sample_world) 0%nat
    (updatePoolState SEND_FAIL new_pool)); [apply rtc_refl|exact H1|exact H2|reflexivity|reflexivity].
Defined.

Lemma clearPools_stale_cursor_witness :
  getPool (addPool new_pool (fst (clearPools sample_ha sample_world))) = None.
Proof. apply clearPools_stale_cursor. cbn. lia. Defined.
