(* ===== verification/SafeQueue.v ===== *)
(** * The bounded queue between threads ([zbf/safequeue.hpp])

    [squeue] is the state of a [SafeQueue<T, Cap, UseCV>]. Every method locks
    the mutex around its whole effect, so a concurrent execution is a sequence
    of critical sections: [op] names them and [run] executes a sequence. The
    waiting methods are split at the points where they release the mutex:
    [pop_wake] is what [pop] does when it holds the mutex ([None]: it waits),
    and the polling variants take the environment's effect between two
    critical sections as an argument. *)

From S2P Require Import Prelude.

Definition SQ_POP_SUCCESS : Z := 0.
Definition SQ_TIMEOUT : Z := 1.
Definition SQ_EXIT : Z := 2.
Definition SLEEP_TIME : Z := 5.

Section queue.
Context {T : Type} (Cap : Z).

Record squeue := MkQueue { _queue : list T; _exit : bool }.

Definition empty_queue : squeue := MkQueue [] false.

Definition push (q : squeue) (item : T) : bool * squeue :=
  if size_of (_queue q) <? Cap
  then (true, MkQueue (_queue q ++ [item]) (_exit q))
  else (false, q).

Definition requeue (q : squeue) (item : T) : squeue := MkQueue (item :: _queue q) (_exit q).
Definition stop (q : squeue) : squeue := MkQueue (_queue q) true.
Definition is_stop (q : squeue) : bool := _exit q.
Definition size (q : squeue) : Z := size_of (_queue q).
Definition empty (q : squeue) : bool := match _queue q with [] => true | _ => false end.
Definition clear (q : squeue) : squeue := MkQueue [] (_exit q).

(** [front] and [pop_front]; also the body of [raw_pop]. *)
Definition raw_pop (q : squeue) : option T * squeue :=
  match _queue q with
  | [] => (None, q)
  | x :: xs => (Some x, MkQueue xs (_exit q))
  end.

(** [pop] with the condition variable, each time it holds the mutex: [None]
    while it waits. *)
Definition pop_wake (q : squeue) : option (Z * option T * squeue) :=
  if empty q && negb (_exit q) then None
  else if _exit q then Some (SQ_EXIT, None, q)
  else let '(x, q') := raw_pop q in Some (SQ_POP_SUCCESS, x, q').

(** [pop_timeout] with the condition variable, when the wait is over: the
    predicate holds or the time is up. *)
Definition pop_timeout_wake (q : squeue) : Z * option T * squeue :=
  let ok := negb (empty q) || _exit q in
  if _exit q then (SQ_EXIT, None, q)
  else if negb ok then (SQ_TIMEOUT, None, q)
  else let '(x, q') := raw_pop q in (SQ_POP_SUCCESS, x, q').

(** ** The polling variants

    [env k q] is the queue after what other threads did between two critical
    sections of this thread; [k] counts them. *)
Section polling.
Context (env : nat -> squeue -> squeue).

(** One round of the loop: [is_stop()], then a locked look at the queue. *)
Definition poll_round (k : nat) (q : squeue) : option (Z * option T) * squeue :=
  if is_stop q then (Some (SQ_EXIT, None), q)
  else
    let q1 := env k q in
    match raw_pop q1 with
    | (Some x, q2) => (Some (SQ_POP_SUCCESS, Some x), q2)
    | (None, q2) => (None, q2)
    end.

(** [pop_ncv]: [None] when the fuel does not suffice. *)
Fixpoint pop_ncv (fuel : nat) (k : nat) (q : squeue) : option (Z * option T * squeue) :=
  match fuel with
  | O => None
  | S fuel =>
      match poll_round k q with
      | (Some (rc, x), q1) => Some (rc, x, q1)
      | (None, q1) => pop_ncv fuel (S (S k)) (env (S k) q1)
      end
  end.

(** The loop of [pop_timeout_ncv] and the last look after it. *)
Fixpoint pop_timeout_loop (sleep_times : nat) (k : nat) (q : squeue) : Z * option T * squeue :=
  match sleep_times with
  | O =>
      match poll_round k q with
      | (Some (rc, x), q1) => (rc, x, q1)
      | (None, q1) => (SQ_TIMEOUT, None, q1)
      end
  | S n =>
      match poll_round k q with
      | (Some (rc, x), q1) => (rc, x, q1)
      | (None, q1) => pop_timeout_loop n (S (S k)) (env (S k) q1)
      end
  end.

Definition pop_timeout_ncv (timeout_ms : Z) (q : squeue) : Z * option T * squeue :=
  pop_timeout_loop (Z.to_nat (Z.max 1 (Z.quot timeout_ms SLEEP_TIME))) 0 q.
End polling.

(** ** Executions *)

Inductive op :=
| Push (x : T)
| Pop            (* a pop of any variant, at the moment it takes an item or returns *)
| RawPop
| Requeue (x : T)
| Stop
| Clear.

(** What an operation hands to its caller, and whether a push was accepted. *)
Definition op_step (q : squeue) (o : op) : squeue * list T * list T :=
  match o with
  | Push x => let '(ok, q') := push q x in (q', if ok then [x] else [], [])
  | Pop => let '(_, x, q') := pop_timeout_wake q in (q', [], option_list x)
  | RawPop => let '(x, q') := raw_pop q in (q', [], option_list x)
  | Requeue x => (requeue q x, [], [])
  | Stop => (stop q, [], [])
  | Clear => (clear q, [], [])
  end.

(** The queue, the accepted items and the delivered items, in order. *)
Fixpoint run (q : squeue) (os : list op) : squeue * list T * list T :=
  match os with
  | [] => (q, [], [])
  | o :: os =>
      let '(q1, a1, d1) := op_step q o in
      let '(q2, a2, d2) := run q1 os in (q2, a1 ++ a2, d1 ++ d2)
  end.

Definition plain (o : op) : Prop :=
  match o with Requeue _ | Clear => False | _ => True end.
Definition stopping (o : op) : Prop := match o with Stop => True | _ => False end.

(** ** Lemmas *)

Lemma raw_pop_spec q x q' :
  raw_pop q = (x, q') -> option_list x ++ _queue q' = _queue q /\ _exit q' = _exit q.
Proof. unfold raw_pop. destruct q as [[|y ys] e]; intros [= <- <-]; done. Qed.

Lemma pop_wake_spec q rc x q' :
  pop_timeout_wake q = (rc, x, q') -> option_list x ++ _queue q' = _queue q /\ _exit q' = _exit q.
Proof.
  unfold pop_timeout_wake. destruct (_exit q) eqn:E; [by intros [= <- <- <-]|].
  case_if; [by intros [= <- <- <-]|]. destruct (raw_pop q) eqn:Er. intros [= <- <- <-].
  apply raw_pop_spec in Er. by rewrite E in Er.
Qed.

Lemma op_step_fifo q o q' a d :
  plain o -> op_step q o = (q', a, d) -> d ++ _queue q' = _queue q ++ a.
Proof.
  destruct o; cbn; intros Hp; try done.
  - unfold push. case_if; intros [= <- <- <-]; cbn; by rewrite ?app_nil_r.
  - destruct (pop_timeout_wake q) as [[rc y] q1] eqn:E. intros [= <- <- <-].
    apply pop_wake_spec in E as [<- _]. by rewrite app_nil_r.
  - destruct (raw_pop q) as [y q1] eqn:E. intros [= <- <- <-].
    apply raw_pop_spec in E as [<- _]. by rewrite app_nil_r.
  - intros [= <- <- <-]. cbn. by rewrite app_nil_r.
Qed.

Lemma op_step_size q o q' a d :
  0 <= Cap -> op_step q o = (q', a, d) ->
  size q' <= Z.max (Z.max Cap (size q)) (size q + match o with Requeue _ => 1 | _ => 0 end).
Proof.
  intros Hc. unfold size. pose proof (size_of_nonneg (_queue q)). destruct o; cbn.
  - unfold push. destruct (Z.ltb_spec (size_of (_queue q)) Cap); intros [= <- <- <-]; [|lia].
    cbn [_queue]. rewrite size_of_app, size_of_cons, size_of_nil. lia.
  - destruct (pop_timeout_wake q) as [[rc y] q1] eqn:E. intros [= <- <- <-].
    apply pop_wake_spec in E as [<- _]. rewrite size_of_app. pose proof (size_of_nonneg (option_list y)). lia.
  - destruct (raw_pop q) as [y q1] eqn:E. intros [= <- <- <-].
    apply raw_pop_spec in E as [<- _]. rewrite size_of_app. pose proof (size_of_nonneg (option_list y)). lia.
  - intros [= <- <- <-]. cbn [requeue _queue]. rewrite size_of_cons. lia.
  - intros [= <- <- <-]. cbn. lia.
  - intros [= <- <- <-]. cbn. change (size_of (@nil T)) with 0. lia.
Qed.

Lemma raw_pop_None q : raw_pop q = (None, q) <-> empty q = true.
Proof. unfold raw_pop, empty. by destruct q as [[|y ys] e]. Qed.

Lemma poll_round_quiet env k q :
  (forall k q, env k q = q) ->
  poll_round env k q =
    match pop_timeout_wake q with
    | (rc, x, q') => if rc =? SQ_TIMEOUT then (None, q') else (Some (rc, x), q')
    end.
Proof.
  intros Henv. unfold poll_round, pop_timeout_wake, is_stop, raw_pop, empty. rewrite Henv.
  destruct q as [[|y ys] []]; done.
Qed.

(** ** Properties *)

(** C30: every item that is accepted is delivered exactly once, in the order of
    the pushes, or still in the queue; no matter how pushes, pops (waiting,
    timed, raw) and [stop] interleave. The queue never grows past [Cap]. *)
Theorem queue_fifo q os q' acc del :
  0 <= Cap -> Forall plain os -> run q os = (q', acc, del) ->
  del ++ _queue q' = _queue q ++ acc /\ size q' <= Z.max Cap (size q).
Proof.
  intros Hc Hos. revert q acc del. induction Hos as [|o os Ho Hos IH]; intros q acc del; cbn [run].
  - intros [= <- <- <-]. rewrite app_nil_r. split; [done|lia].
  - destruct (op_step q o) as [[q1 a1] d1] eqn:E1. destruct (run q1 os) as [[q2 a2] d2] eqn:E2.
    intros [= <- <- <-]. destruct (IH _ _ _ E2) as [H2 Hs2]. pose proof (op_step_fifo _ _ _ _ _ Ho E1) as H1.
    pose proof (op_step_size _ _ _ _ _ Hc E1) as Hs1. split.
    + rewrite <- app_assoc, H2, !app_assoc. by rewrite H1.
    + destruct o; try done; lia.
Qed.

(** after [stop] every waiting method returns [SQ_EXIT] at once and takes
    nothing, items left in the queue included: they stay for [raw_pop]. No
    later operation reopens the queue. *)
Theorem stop_is_final q os q' acc del env timeout_ms :
  _exit q = true -> run q os = (q', acc, del) ->
  _exit q' = true /\ pop_wake q' = Some (SQ_EXIT, None, q') /\
  pop_timeout_wake q' = (SQ_EXIT, None, q') /\
  pop_ncv env 1 0 q' = Some (SQ_EXIT, None, q') /\
  pop_timeout_ncv env timeout_ms q' = (SQ_EXIT, None, q').
Proof.
  intros He Hr. assert (_exit q' = true) as He'.
  { revert q acc del He Hr. induction os as [|o os IH]; intros q acc del He; cbn [run].
    - by intros [= <- <- <-].
    - destruct (op_step q o) as [[q1 a1] d1] eqn:E1. destruct (run q1 os) as [[q2 a2] d2] eqn:E2.
      intros [= <- <- <-]. eapply IH; [|done]. revert E1. destruct o; cbn.
      + unfold push. case_if; by intros [= <- _ _].
      + destruct (pop_timeout_wake q) as [[??]?] eqn:E. intros [= <- _ _]. apply pop_wake_spec in E as [_ ?].
        congruence.
      + destruct (raw_pop q) eqn:E. intros [= <- _ _]. apply raw_pop_spec in E as [_ ?]. congruence.
      + by intros [= <- _ _].
      + by intros [= <- _ _].
      + by intros [= <- _ _]. }
  split; [done|]. unfold pop_wake, pop_timeout_wake. rewrite He'. rewrite andb_false_r.
  split; [done|]. split; [done|].
  assert (forall k, poll_round env k q' = (Some (SQ_EXIT, None), q')) as Hround
    by (intros k; unfold poll_round, is_stop; by rewrite He').
  split; [cbn [pop_ncv]; by rewrite Hround|].
  unfold pop_timeout_ncv. destruct (Z.to_nat _); cbn [pop_timeout_loop]; by rewrite Hround.
Qed.

(** the polling variant, used when condition variables are switched off,
    returns what the condition-variable variant returns when no other thread
    interferes: the head, [SQ_EXIT] or, after all its rounds, [SQ_TIMEOUT]. *)
Theorem polling_agrees env timeout_ms q :
  (forall k q, env k q = q) ->
  pop_timeout_ncv env timeout_ms q = pop_timeout_wake q /\
  (forall r, pop_wake q = Some r -> pop_ncv env 1 0 q = Some r).
Proof.
  intros Henv. split.
  - unfold pop_timeout_ncv. generalize 0%nat as k. induction (Z.to_nat _) as [|n IH]; intros k;
      cbn [pop_timeout_loop]; rewrite poll_round_quiet by done;
      destruct (pop_timeout_wake q) as [[rc x] q1] eqn:E; destruct (Z.eqb_spec rc SQ_TIMEOUT) as [->|]; try done.
    + unfold pop_timeout_wake in E. repeat case_if; try discriminate; simplify_eq; try done.
      by destruct (raw_pop q).
    + rewrite Henv. assert (q1 = q /\ x = None) as [-> ->]; [|by rewrite IH].
      unfold pop_timeout_wake in E. repeat case_if; try discriminate; simplify_eq; try done.
      by destruct (raw_pop q).
  - intros r. unfold pop_wake. cbn [pop_ncv]. rewrite poll_round_quiet by done.
    unfold pop_timeout_wake. destruct (_exit q) eqn:E; cbn; [by rewrite andb_false_r|].
    rewrite andb_true_r, orb_false_r. destruct (empty q); [done|]. cbn. by destruct (raw_pop q).
Qed.

End queue.
Arguments squeue : clear implicits.
Arguments op : clear implicits.

(** ** Witnesses *)

Lemma queue_fifo_witness :
  [1; 2] ++ [4] = [] ++ [1; 2; 4] /\
  size (MkQueue [4] true) <= Z.max 2 (size (empty_queue : squeue Z)).
Proof.
  apply (queue_fifo 2 empty_queue
    [Push 1; Push 2; Push 3; Pop; Push 4; Stop; Pop; RawPop] (MkQueue [4] true) [1; 2; 4] [1; 2]).
  - discriminate.
  - repeat constructor.
  - reflexivity.
Defined.

Lemma stop_is_final_witness :
  _exit (MkQueue [1; 2] true) = true /\ pop_wake (MkQueue [1; 2] true) = Some (SQ_EXIT, None, MkQueue [1; 2] true) /\
  pop_timeout_wake (MkQueue [1; 2] true) = (SQ_EXIT, None, MkQueue [1; 2] true) /\
  pop_ncv (fun _ q => q) 1 0 (MkQueue [1; 2] true) = Some (SQ_EXIT, None, MkQueue [1; 2] true) /\
  pop_timeout_ncv (fun _ q => q) 100 (MkQueue [1; 2] true) = (SQ_EXIT, None, MkQueue [1; 2] true).
Proof.
  exact (stop_is_final 8 (MkQueue [1] true) [Push 2; Pop] (MkQueue [1; 2] true) [2] []
    (fun _ q => q) 100 eq_refl eq_refl).
Defined.

Lemma polling_agrees_witness :
  pop_timeout_ncv (fun _ q => q) 100 (MkQueue [7; 8] false) = (SQ_POP_SUCCESS, Some 7, MkQueue [8] false).
Proof. exact (proj1 (polling_agrees (fun _ q => q) 100 (MkQueue [7; 8] false) (fun _ _ => eq_refl))). Defined.
