(* ===== verification/AsyncClient.v ===== *)
(** * The asynchronous clients ([tcpsock_asynclt], [tcpsock_ha_asynclt],
      [async_client_manager] of [zbf/socket_tcp_v5.hpp])

    [asynclt] is a client with the send queue of [WriteSide] and a receive
    cache; its methods are those of [tcpsock_user], on a connection that is
    made again when it breaks. [ha_asynclt] is a group of clients for one
    service; [manager] runs them: the I/O thread's event handler, the monitor's
    handling of one client and the worker threads are the steps of [astep].
    Only the I/O thread takes a client out of the monitored table and only the
    monitor puts one in, so each handler is one step. *)

From S2P Require Import Prelude MemChunk TcpMessage Framing SocketPoll WriteSide TcpUser SocketUtils TcpClient.
From S2P Require SafeQueue.

Record asynclt := MkAsync {
  a_clt : client;
  a_cache : memchunk;         (* _recvCache *)
  a_queue : list bytes;       (* _wrQueue *)
  a_enable : bool;            (* _enableWrite *)
  a_efd : Z;                  (* _efd *)
  a_ha : nat;                 (* _ha *)
}.

Definition set_clt (a : asynclt) (c : client) : asynclt :=
  MkAsync c (a_cache a) (a_queue a) (a_enable a) (a_efd a) (a_ha a).
Definition set_cache (a : asynclt) (c : memchunk) : asynclt :=
  MkAsync (a_clt a) c (a_queue a) (a_enable a) (a_efd a) (a_ha a).

(** The sending half, as a [wstate]. *)
Definition a_wr (a : asynclt) : wstate := MkW (c_fd (a_clt a)) (a_efd a) (a_enable a) (a_queue a).
Definition set_awr (a : asynclt) (s : wstate) : asynclt :=
  MkAsync (a_clt a) (a_cache a) (w_queue s) (w_enable s) (w_efd s) (a_ha a).

Definition new_asynclt (fresh : Z -> bytes) (ha : nat) (addr : bytes) (port seq : Z) : asynclt :=
  MkAsync (new_client addr port seq) (new_chunk fresh BufferSize) [] false INVALID_SOCK ha.

Section asynclt.
Context {P : Type} {PI : Poller P} (fresh : Z -> bytes) (proto : protocol).

(** [post], [joinMonitor] and [leaveMonitor] are those of [WriteSide]. *)
Definition a_post (p : P) (a : asynclt) (msg : bytes) : Z * P * asynclt :=
  let '(rc, p1, s) := post p (a_wr a) msg in (rc, p1, set_awr a s).
Definition a_joinMonitor (p : P) (a : asynclt) (efd : Z) : P * asynclt :=
  let '(p1, s) := joinMonitor p (a_wr a) efd in (p1, set_awr a s).
Definition a_leaveMonitor (a : asynclt) : asynclt := set_awr a (leaveMonitor (a_wr a)).

Definition a_sendData (now : Z) (send : bytes -> Z) (p : P) (a : asynclt) : Z * P * asynclt :=
  let '(rc, p1, s) := sendData (c_closed (a_clt a)) send p (a_wr a) in
  let a1 := set_awr a s in
  (rc, p1, if rc =? SEND_SUCCESS then set_clt a1 (flushAlive now (a_clt a1)) else a1).

Definition a_onRecv (a : asynclt) (chunk : bytes) : option (Z * asynclt) :=
  if isClosed (a_clt a) then Some (1, a)
  else
    match push fresh (a_cache a) (Some chunk) (size_of chunk) with
    | None => None
    | Some (rc, c) =>
        let a1 := set_cache a c in
        if rc <? 0 then Some (2, a1)
        else if MaxPendingSize <? datasize c then Some (3, a1)
        else Some (0, a1)
    end.

Definition a_getRecvMsg (a : asynclt) : option bytes * asynclt :=
  if isClosed (a_clt a) then (None, a)
  else let '(msg, c) := _PopMsg (a_cache a) (Some proto) in (msg, set_cache a c).

(** [while ((msg = asynclt->getRecvMsg()) != nullptr)]. *)
Fixpoint a_recv_loop (fuel : nat) (a : asynclt) : option (list bytes * asynclt) :=
  match fuel with
  | O => None
  | S fuel =>
      match a_getRecvMsg a with
      | (None, a1) => Some ([], a1)
      | (Some m, a1) =>
          match a_recv_loop fuel a1 with
          | None => None
          | Some (ms, a2) => Some (m :: ms, a2)
          end
      end
  end.

Definition a_on_read (a : asynclt) (chunk : bytes) : option (Z * list bytes * asynclt) :=
  match a_onRecv a chunk with
  | None => None
  | Some (rc, a1) =>
      if rc =? 0 then
        match a_recv_loop (S (length (buffer (a_cache a1)))) a1 with
        | None => None
        | Some (ms, a2) => Some (0, ms, a2)
        end
      else Some (rc, [], a1)
  end.

(** Successive read events on one connection. *)
Fixpoint a_recv_session (a : asynclt) (chunks : list bytes) : option (Z * list bytes * asynclt) :=
  match chunks with
  | [] => Some (0, [], a)
  | c :: cs =>
      match a_on_read a c with
      | None => None
      | Some (rc, ms, a1) =>
          if rc =? 0 then
            match a_recv_session a1 cs with
            | None => None
            | Some (rc', ms', a2) => Some (rc', ms ++ ms', a2)
            end
          else Some (rc, ms, a1)
      end
  end.

Definition a_connect {W} `{Sys W} (timeout_ms : Z) (a : asynclt) (w : W) : Z * asynclt * W :=
  let '(rc, c, w1) := connect timeout_ms (a_clt a) w in (rc, set_clt a c, w1).

(** ** The receive path is that of [tcpsock_user] *)

Definition as_user (h : heartbeat_helper) (a : asynclt) : user :=
  MkUser [] 0 0 (a_cache a) (a_wr a) (c_closed (a_clt a)) false h (Some proto).

(** The same state, with some heartbeat time: [asynclt] does not count what it
    receives as a sign of life. *)
Definition matches (u : user) (a a' : asynclt) : Prop :=
  exists h c, u = as_user h a' /\ a' = set_cache a c.

Lemma recv_loop_user h fuel a ms u :
  TcpUser.recv_loop fuel 0 (as_user h a) = Some (ms, u) ->
  exists a', a_recv_loop fuel a = Some (ms, a') /\ matches u a a'.
Proof.
  revert h a ms. induction fuel as [|fuel IH]; intros h a ms; [done|]. cbn [TcpUser.recv_loop a_recv_loop].
  unfold getRecvMsg, a_getRecvMsg, TcpUser.isClosed, isClosed. cbn [u_closed u_recvCache u_protocol as_user].
  destruct (c_closed (a_clt a)) eqn:Ec.
  - intros [= <- <-]. exists a. split; [done|]. exists h, (a_cache a). by destruct a.
  - destruct (_PopMsg (a_cache a) (Some proto)) as [[m|] c].
    + destruct (TcpUser.recv_loop fuel 0 _) as [[ms1 u1]|] eqn:E; [|done]. intros [= <- <-].
      destruct (IH (hb_update 0 h) (set_cache a c) ms1 E) as (a' & -> & h' & c' & -> & ->). eexists. split; [done|].
      by exists h', c'.
    + intros [= <- <-]. eexists. split; [done|]. by exists h, c.
Qed.

Lemma on_read_user h a chunk rc ms u :
  on_read fresh 0 (as_user h a) chunk = Some (rc, ms, u) ->
  exists a', a_on_read a chunk = Some (rc, ms, a') /\ matches u a a'.
Proof.
  unfold on_read, a_on_read, onRecv, a_onRecv, TcpUser.isClosed, isClosed. cbn [u_closed u_recvCache as_user].
  destruct (c_closed (a_clt a)) eqn:Ec.
  - cbn. intros [= <- <- <-]. exists a. split; [done|]. exists h, (a_cache a). by destruct a.
  - destruct (push fresh (a_cache a) (Some chunk) (size_of chunk)) as [[rc1 c]|]; [|done].
    assert (matches (as_user h (set_cache a c)) a (set_cache a c)) as Hm by (by exists h, c).
    destruct (rc1 <? 0); [intros [= <- <- <-]; by eexists|].
    destruct (MaxPendingSize <? datasize c); [intros [= <- <- <-]; by eexists|].
    cbn [Z.eqb]. change (set_recvCache (as_user h a) c) with (as_user h (set_cache a c)).
    change (buffer (u_recvCache (as_user h (set_cache a c)))) with (buffer (a_cache (set_cache a c))).
    destruct (TcpUser.recv_loop _ 0 _) as [[ms1 u1]|] eqn:E; [|done]. intros [= <- <- <-].
    destruct (recv_loop_user _ _ _ _ _ E) as (a' & -> & h' & c' & -> & ->). eexists. split; [done|].
    by exists h', c'.
Qed.

Lemma session_user h a chunks rc ms u :
  recv_session fresh 0 (as_user h a) chunks = Some (rc, ms, u) ->
  exists a', a_recv_session a chunks = Some (rc, ms, a') /\ matches u a a'.
Proof.
  revert h a rc ms u. induction chunks as [|c cs IH]; intros h a rc ms u; cbn [recv_session a_recv_session].
  - intros [= <- <- <-]. exists a. split; [done|]. exists h, (a_cache a). by destruct a.
  - destruct (on_read fresh 0 (as_user h a) c) as [[[rc1 ms1] u1]|] eqn:E; [|done].
    destruct (on_read_user _ _ _ _ _ _ E) as (a1 & -> & Hm). case_if.
    + destruct Hm as (h1 & c1 & -> & ->).
      destruct (recv_session _ _ _ _) as [[[rc2 ms2] u2]|] eqn:E2; [|done]. intros [= <- <- <-].
      destruct (IH _ _ _ _ _ E2) as (a2 & -> & h2 & c2 & -> & ->). eexists. split; [done|]. by exists h2, c2.
    + intros [= <- <- <-]. by eexists.
Qed.

Context `{!ProtocolLaws proto, !Allocator fresh}.

(** A client whose cache is in order and which is not marked closed. *)
Record async_reading (a : asynclt) : Prop := {
  ar_wf : chunk_wf (a_cache a);
  ar_block : blocksize (a_cache a) = BufferSize;
  ar_open : c_closed (a_clt a) = false;
}.

Lemma async_receive a chunks ms r :
  async_reading a -> Forall recv_chunk chunks ->
  split proto (content (a_cache a) ++ concat chunks) = Some (ms, r) ->
  ~ oversized (ms ++ [r]) ->
  peek proto (content (a_cache a)) = NeedMore ->
  exists a', a_recv_session a chunks = Some (0, ms, a') /\ content (a_cache a') = r /\ async_reading a' /\
    a_clt a' = a_clt a /\ a_queue a' = a_queue a.
Proof.
  intros [H1 H2 H3] Hcs Hs Hno Hn.
  destruct (receive_small fresh proto 0 (as_user (MkHb 0 0) a) chunks ms r) as (u & E & Hrd & Hc); try done.
  destruct (session_user _ _ _ _ _ _ E) as (a' & Ea & h & c & -> & ->). exists (set_cache a c).
  destruct Hrd. cbn in *. by split_and!.
Qed.

Lemma connect_carries {W} `{Sys W} t a (w : W) rc a' w' :
  a_connect t a w = (rc, a', w') ->
  a_cache a' = a_cache a /\ a_queue a' = a_queue a /\ c_closed (a_clt a') = false.
Proof.
  unfold a_connect, connect. destruct (disconnect (set_cclosed (a_clt a) false) w) as [c1 w1] eqn:Ed.
  assert (c_closed c1 = false) as Hc.
  { unfold disconnect in Ed. case_if; by injection Ed as <- _. }
  destruct (sys_getaddrinfo _ _ _) as [[] w2]; [|by intros [= <- <- <-]].
  destruct (sys_socket w2) as [fd w3]. destruct (if fd <? 0 then _ else _) as [rc1 w4].
  case_if; by intros [= <- <- <-].
Qed.

(** a client whose cache has once exceeded the limit never delivers a
    message again: the cache survives the reconnections, so that every later
    read event fails with code 3 and only makes it longer. *)
Theorem full_cache_is_forever {W} `{Sys W} t a (w : W) rc a1 w1 chunk :
  chunk_wf (a_cache a) -> blocksize (a_cache a) = BufferSize -> MaxPendingSize < datasize (a_cache a) ->
  datasize (a_cache a) + 2 * IOBufferSize < 2 ^ 31 -> recv_chunk chunk ->
  a_connect t a w = (rc, a1, w1) ->
  exists a2, a_on_read a1 chunk = Some (3, [], a2) /\ chunk_wf (a_cache a2) /\
    blocksize (a_cache a2) = BufferSize /\ MaxPendingSize < datasize (a_cache a2).
Proof.
  intros H1 H2 H3 H4 Hc (Ha & _ & Ho)%connect_carries. rewrite <- Ha in *. unfold recv_chunk, IOBufferSize in *.
  destruct (push_spec fresh (a_cache a1) chunk) as (c' & Hp & Hwf & _ & Hd & Hb); [done|lia| |].
  { rewrite H2. unfold BufferSize. lia. }
  exists (set_cache a1 c'). unfold a_on_read, a_onRecv, isClosed. rewrite Ho, Hp.
  rewrite swrap_id; [|done|destruct H1; unfold in_sint; change (2 ^ (32 - 1)) with (2 ^ 31); lia].
  destruct H1. rewrite (proj2 (Z.ltb_ge _ 0)), (proj2 (Z.ltb_lt MaxPendingSize (datasize c'))) by lia.
  cbn. split_and!; try done; [congruence|lia].
Qed.

(** a reconnection keeps the receive cache. The frames dispatched from a new
    connection are those of the bytes left over from the old one followed by
    the new stream, not those of the new stream. *)
Theorem reconnect_joins_streams {W} `{Sys W} t a (w : W) rc a1 w1 chunks ms r :
  chunk_wf (a_cache a) -> blocksize (a_cache a) = BufferSize ->
  peek proto (content (a_cache a)) = NeedMore ->
  a_connect t a w = (rc, a1, w1) -> Forall recv_chunk chunks ->
  split proto (content (a_cache a) ++ concat chunks) = Some (ms, r) ->
  ~ oversized (ms ++ [r]) ->
  exists a', a_recv_session a1 chunks = Some (0, ms, a') /\ content (a_cache a') = r.
Proof.
  intros H1 H2 Hn (Hc & _ & Ho)%connect_carries Hcs Hs Hno. rewrite <- Hc in *.
  destruct (async_receive a1 chunks ms r) as (a' & E & Hr' & _); try done. by exists a'.
Qed.

(** a reconnection keeps the send queue. What is left of a message cut by a
    partial write is the first thing sent on the new connection. *)
Theorem reconnect_resumes_midway {W} `{Sys W} t m q n rc0 (a : asynclt) (w : W) rc a1 w1 send :
  in_sint 32 (size_of m) -> 0 < n < size_of m ->
  (rc0, a_queue a) = SendData_finish n m q ->
  a_connect t a w = (rc, a1, w1) -> 0 < send (drop (Z.to_nat n) m) < size_of m - n ->
  rc0 = SEND_SUCCESS /\
  _SendData send (a_queue a1) =
    (SEND_SUCCESS, drop (Z.to_nat (send (drop (Z.to_nat n) m))) (drop (Z.to_nat n) m) :: q).
Proof.
  intros Hi Hn Hf (_ & Hq & _)%connect_carries Hs. rewrite Hq.
  unfold SendData_finish in Hf. rewrite swrap_id in Hf by done.
  rewrite (proj2 (Z.leb_gt n 0)), (proj2 (Z.ltb_lt n (size_of m))) in Hf by lia. injection Hf as -> ->.
  split; [done|]. unfold _SendData, SendData_pop, SendData_finish, _SendMsg.
  rewrite (proj2 (Z.leb_gt (send _) 0)) by lia. rewrite swrap_id; [|done|].
  - rewrite size_of_drop by lia. by rewrite (proj2 (Z.ltb_lt _ _)) by lia.
  - by apply drop_size_ok.
Qed.

End asynclt.

(** ** Groups of clients *)

Record ha_asynclt := MkHaAsync {
  h_clients : list nat;
  h_cursor : Z;               (* _cltCursor, int *)
  h_seq : Z;                  (* _cltSeq *)
  h_workerIdx : Z;            (* _workerIdx *)
}.

Definition new_ha_asynclt : ha_asynclt := MkHaAsync [] 0 1 0.
Definition set_workerIdx (h : ha_asynclt) (i : Z) : ha_asynclt :=
  MkHaAsync (h_clients h) (h_cursor h) (h_seq h) i.

Definition POST_SUCCESS : Z := 0.
Definition POST_FAIL : Z := 1.

(** [async_client_manager]'s own constants. *)
Definition AsyncMaxWorkers : Z := 16.
Definition AsyncMaxPendingMsg : Z := 512.
Definition MonitorWait : Z := 50.

Section manager.
Context {P : Type} {PI : Poller P} {W : Type} {SW : Sys W} (fresh : Z -> bytes) (proto : protocol).

Abbreviation queue := (@SafeQueue.squeue (bytes * nat)).

Record manager := MkMgr {
  m_poll : P;
  m_efd : Z;
  m_w : W;
  m_heap : gmap nat asynclt;          (* client objects *)
  m_next : nat;
  m_has : gmap nat ha_asynclt;        (* group objects *)
  m_haClients : list nat;             (* _haClients *)
  m_coll : gset nat;                  (* _monitorColl *)
  m_fd2client : gmap Z nat;           (* _fd2client *)
  m_workerNum : Z;
  m_queues : list queue;              (* _recvQueues *)
}.

Definition upd_client (g : manager) (p : P) (w : W) (id : nat) (a : asynclt) : manager :=
  MkMgr p (m_efd g) w (<[id := a]> (m_heap g)) (m_next g) (m_has g) (m_haClients g) (m_coll g) (m_fd2client g)
    (m_workerNum g) (m_queues g).
Definition upd_table (g : manager) (coll : gset nat) (f2c : gmap Z nat) : manager :=
  MkMgr (m_poll g) (m_efd g) (m_w g) (m_heap g) (m_next g) (m_has g) (m_haClients g) coll f2c
    (m_workerNum g) (m_queues g).
Definition upd_queues (g : manager) (q : list queue) : manager :=
  MkMgr (m_poll g) (m_efd g) (m_w g) (m_heap g) (m_next g) (m_has g) (m_haClients g) (m_coll g) (m_fd2client g)
    (m_workerNum g) q.
Definition upd_has (g : manager) (hs : gmap nat ha_asynclt) (l : list nat) : manager :=
  MkMgr (m_poll g) (m_efd g) (m_w g) (m_heap g) (m_next g) hs l (m_coll g) (m_fd2client g)
    (m_workerNum g) (m_queues g).
Definition upd_poll (g : manager) (p : P) : manager :=
  MkMgr p (m_efd g) (m_w g) (m_heap g) (m_next g) (m_has g) (m_haClients g) (m_coll g) (m_fd2client g)
    (m_workerNum g) (m_queues g).

(** *** [tcpsock_ha_asynclt] *)

(** [addConnect]. *)
Definition addConnect (h : nat) (addr : bytes) (port : Z) (g : manager) : option manager :=
  match m_has g !! h with
  | None => None
  | Some ha =>
      let id := m_next g in
      let '(_, a, w1) := a_connect 100 (new_asynclt fresh h addr port (h_seq ha)) (m_w g) in
      Some (MkMgr (m_poll g) (m_efd g) w1 (<[id := a]> (m_heap g)) (S id)
        (<[h := MkHaAsync (h_clients ha ++ [id]) (h_cursor ha) (wrap 64 (h_seq ha + 1)) (h_workerIdx ha)]> (m_has g))
        (m_haClients g) (m_coll g) (m_fd2client g) (m_workerNum g) (m_queues g))
  end.

Definition usable (heap : gmap nat asynclt) (id : nat) : bool :=
  match heap !! id with
  | None => false
  | Some a => isConnected (a_clt a) && negb (isClosed (a_clt a))
  end.

(** [getClient]: the client and the group with its cursor moved on. *)
Definition getClient (heap : gmap nat asynclt) (ha : ha_asynclt) : option (option nat * ha_asynclt) :=
  match cursor_loop (usable heap) (length (h_clients ha)) (h_clients ha) (h_cursor ha) with
  | None => None
  | Some (r, cursor) =>
      Some (match r with Some i => h_clients ha !! i | None => None end,
            MkHaAsync (h_clients ha) cursor (h_seq ha) (h_workerIdx ha))
  end.

Definition ha_post (h : nat) (msg : bytes) (g : manager) : option (Z * manager) :=
  match m_has g !! h with
  | None => None
  | Some ha =>
      match getClient (m_heap g) ha with
      | None => None
      | Some (None, ha1) => Some (POST_FAIL, upd_has g (<[h := ha1]> (m_has g)) (m_haClients g))
      | Some (Some id, ha1) =>
          let g1 := upd_has g (<[h := ha1]> (m_has g)) (m_haClients g) in
          match m_heap g1 !! id with
          | None => None
          | Some a =>
              let '(rc, p1, a1) := a_post (m_poll g1) a msg in
              Some (if rc =? 0 then POST_SUCCESS else POST_FAIL, upd_client g1 p1 (m_w g1) id a1)
          end
      end
  end.

(** *** [async_client_manager] *)

Definition clamp_workers (workerNum : Z) : Z := Z.min (Z.max workerNum 1) AsyncMaxWorkers.

Fixpoint assign_workers (i n : Z) (l : list nat) (hs : gmap nat ha_asynclt) : gmap nat ha_asynclt :=
  match l with
  | [] => hs
  | h :: l => assign_workers (i + 1) n l (alter (fun ha => set_workerIdx ha (Z.rem i n)) h hs)
  end.

(** [start] after [sp_create] succeeded with [efd]. *)
Definition start (efd workerNum : Z) (g : manager) : manager :=
  let n := clamp_workers workerNum in
  MkMgr (m_poll g) efd (m_w g) (m_heap g) (m_next g) (assign_workers 0 n (m_haClients g) (m_has g)) (m_haClients g)
    (m_coll g) (m_fd2client g) n (repeat SafeQueue.empty_queue (Z.to_nat n)).

Definition manageClient (h : nat) (g : manager) : manager :=
  let hs :=
    if 0 <? m_workerNum g
    then alter (fun ha => set_workerIdx ha (Z.rem (size_of (m_haClients g)) (m_workerNum g))) h (m_has g)
    else m_has g in
  upd_has g hs (m_haClients g ++ [h]).

Definition isMonitored (g : manager) (id : nat) : bool := bool_decide (id ∈ m_coll g).

Definition addMonitored (id : nat) (g : manager) : manager :=
  match m_heap g !! id with
  | None => g
  | Some a =>
      let fd := c_fd (a_clt a) in
      let '(rc, p1) := sp_add (m_poll g) (m_efd g) fd false in
      if negb (rc =? 0) then upd_poll g p1
      else
        let '(p2, a1) := a_joinMonitor p1 a (m_efd g) in
        (* insert keeps an entry that is there *)
        upd_table (upd_client g p2 (m_w g) id a1) ({[id]} ∪ m_coll g)
          (match m_fd2client g !! fd with Some _ => m_fd2client g | None => <[fd := id]> (m_fd2client g) end)
  end.

Definition removeMonitored (id : nat) (g : manager) : manager :=
  match m_heap g !! id with
  | None => g
  | Some a =>
      let fd := c_fd (a_clt a) in
      let a1 := a_leaveMonitor a in
      upd_table (upd_client g (sp_del (m_poll g) (m_efd g) fd) (m_w g) id (set_clt a1 (setClose (a_clt a1))))
        (m_coll g ∖ {[id]}) (delete fd (m_fd2client g))
  end.

(** [onIOError(fd, asynclt, tag)]; [None] is a null [asynclt]. *)
Definition onIOError (r : option nat) (g : manager) : manager :=
  match r with
  | Some id => if isMonitored g id then removeMonitored id g else g
  | None => g
  end.

Definition getClientByFd (g : manager) (fd : Z) : option nat := m_fd2client g !! fd.

(** [dispatchAsyncMsg]: a full queue drops the message; [None]: no such queue. *)
Definition dispatchAsyncMsg (g : manager) (a : asynclt) (m : bytes) : option manager :=
  match m_has g !! a_ha a with
  | None => None
  | Some ha =>
      match m_queues g !! Z.to_nat (h_workerIdx ha) with
      | None => None
      | Some q =>
          Some (upd_queues g (<[Z.to_nat (h_workerIdx ha) := snd (SafeQueue.push AsyncMaxPendingMsg q (m, a_ha a))]> (m_queues g)))
      end
  end.

Fixpoint dispatch_async (g : manager) (a : asynclt) (ms : list bytes) : option manager :=
  match ms with
  | [] => Some g
  | m :: ms =>
      match dispatchAsyncMsg g a m with
      | None => None
      | Some g1 => dispatch_async g1 a ms
      end
  end.

(** What [recv] returned. *)
Inductive recv_result := RecvData (chunk : bytes) | RecvCode (rc : Z).

(** One event of [ioprocessor]; [r] and [send] are the results of the system
    calls. *)
Definition on_event (now : Z) (r : recv_result) (send : bytes -> Z) (ev : event) (g : manager) : option manager :=
  let asynclt := getClientByFd g (ev_fd ev) in
  if ev_read ev then
    match r with
    | RecvData chunk =>
        match asynclt with
        | Some id =>
            if isMonitored g id then
              match m_heap g !! id with
              | None => None
              | Some a =>
                  match a_on_read fresh proto a chunk with
                  | None => None
                  | Some (rc, ms, a1) =>
                      let g1 := upd_client g (m_poll g) (m_w g) id a1 in
                      if rc =? 0 then dispatch_async g1 a1 ms else Some (onIOError asynclt g1)
                  end
              end
            else Some g
        | None => Some g
        end
    | RecvCode rc => if rc =? -2 then Some g else Some (onIOError asynclt g)
    end
  else if ev_write ev then
    match asynclt with
    | Some id =>
        if isMonitored g id then
          match m_heap g !! id with
          | None => None
          | Some a =>
              let '(rc, p1, a1) := a_sendData now send (m_poll g) a in
              let g1 := upd_client g p1 (m_w g) id a1 in
              Some (if rc =? SEND_FAIL then onIOError asynclt g1 else g1)
          end
        else Some g
    | None => Some g
    end
  else if ev_error ev || ev_eof ev then Some (onIOError asynclt g)
  else Some g.

(** [checkAlive]. *)
Definition checkAlive (now : Z) (id : nat) (g : manager) : bool * manager :=
  match m_heap g !! id with
  | None => (false, g)
  | Some a =>
      if isConnected (a_clt a) && negb (isClosed (a_clt a)) && needHeartbeat now (a_clt a) then
        let '(_, p1, a1) := a_post (m_poll g) a (default [] (genHeartbeat proto)) in
        (true, upd_client g p1 (m_w g) id a1)
      else (false, g)
  end.

(** The body of [monitor]'s inner loop, for one client. *)
Definition monitor_client (do_check_alive : bool) (id : nat) (g : manager) : manager :=
  if negb (isMonitored g id) then
    match m_heap g !! id with
    | None => g
    | Some a =>
        if isConnected (a_clt a) && negb (isClosed (a_clt a)) then addMonitored id g
        else
          let '(rc, a1, w1) := a_connect 500 a (m_w g) in
          let g1 := upd_client g (m_poll g) w1 id a1 in
          if rc =? 0 then addMonitored id g1 else g1
    end
  else if do_check_alive then snd (checkAlive (sys_now (m_w g)) id g) else g.

(** [worker]: one pop; the message and the group whose [onResponse] gets it. *)
Definition worker_pop (i : nat) (g : manager) : option (Z * option (bytes * nat) * manager) :=
  match m_queues g !! i with
  | None => None
  | Some q =>
      let '(rc, x, q1) := SafeQueue.pop_timeout_wake q in
      Some (rc, x, upd_queues g (<[i := q1]> (m_queues g)))
  end.

(** ** Interleavings *)

(** A client the monitor walks over. *)
Definition walked (g : manager) (id : nat) : Prop :=
  exists h ha, h ∈ m_haClients g /\ m_has g !! h = Some ha /\ id ∈ h_clients ha.

(** What the application does to set the clients up; also while they run. *)
Inductive setup : manager -> manager -> Prop :=
| su_group g h :
    m_has g !! h = None -> h ∉ m_haClients g ->
    setup g (upd_has g (<[h := new_ha_asynclt]> (m_has g)) (m_haClients g))
| su_connect g h addr port g' : addConnect h addr port g = Some g' -> setup g g'
| su_manage g h : is_Some (m_has g !! h) -> h ∉ m_haClients g -> setup g (manageClient h g).

Inductive astep : manager -> manager -> Prop :=
| as_setup g g' : setup g g' -> astep g g'
| as_event g now r send ev g' : on_event now r send ev g = Some g' -> astep g g'
| as_monitor g check id : walked g id -> astep g (monitor_client check id g)
| as_post g h m rc g' : ha_post h m g = Some (rc, g') -> astep g g'
| as_worker g i rc x g' : worker_pop i g = Some (rc, x, g') -> astep g g'
| as_world g w' :
    (forall id a, m_heap g !! id = Some a -> c_fd (a_clt a) <> INVALID_SOCK ->
       is_Some (v_conn (k_view w') !! c_fd (a_clt a))) ->
    astep g (MkMgr (m_poll g) (m_efd g) w' (m_heap g) (m_next g) (m_has g) (m_haClients g) (m_coll g)
      (m_fd2client g) (m_workerNum g) (m_queues g)).

(** ** The invariant *)

Context `{!SysLaws W}.

Definition clients_of (g : manager) : gmap nat client := a_clt <$> m_heap g.

(** The messages of queue [i] belong to managed groups served by worker [i]. *)
Definition lane_ok (managed : list nat) (hs : gmap nat ha_asynclt) (i : nat) (q : queue) : Prop :=
  Forall (fun x => snd x ∈ managed /\ exists ha, hs !! snd x = Some ha /\ h_workerIdx ha = Z.of_nat i)
    (SafeQueue._queue q).

Record async_inv (g : manager) : Prop := {
  ai_map : forall fd id, m_fd2client g !! fd = Some id ->
    id ∈ m_coll g /\ exists a, m_heap g !! id = Some a /\ c_fd (a_clt a) = fd;
  ai_coll : forall id, id ∈ m_coll g ->
    exists a, m_heap g !! id = Some a /\ c_closed (a_clt a) = false /\ c_fd (a_clt a) <> INVALID_SOCK /\
      m_fd2client g !! c_fd (a_clt a) = Some id /\ a_ha a ∈ m_haClients g;
  ai_heap : heap_ok (clients_of g) (k_view (m_w g));
  ai_ha : forall id a, m_heap g !! id = Some a -> is_Some (m_has g !! a_ha a);
  ai_idx : forall h ha, m_has g !! h = Some ha -> 0 <= h_workerIdx ha < m_workerNum g;
  ai_queues : Z.of_nat (length (m_queues g)) = m_workerNum g;
  ai_lane : forall i q, m_queues g !! i = Some q -> lane_ok (m_haClients g) (m_has g) i q;
  ai_next : forall id, is_Some (m_heap g !! id) -> (id < m_next g)%nat;
  ai_member : forall h ha id, m_has g !! h = Some ha -> id ∈ h_clients ha ->
    exists a, m_heap g !! id = Some a /\ a_ha a = h;
  ai_pos : 0 < m_workerNum g;
}.

(** Replacing a client by one of the same group. *)
Lemma heap_same_ha (heap : gmap nat asynclt) id a a1 :
  heap !! id = Some a -> a_ha a1 = a_ha a ->
  (forall i x, <[id := a1]> heap !! i = Some x -> exists y, heap !! i = Some y /\ a_ha x = a_ha y) /\
  (forall i y, heap !! i = Some y -> exists x, <[id := a1]> heap !! i = Some x /\ a_ha x = a_ha y) /\
  (forall i, is_Some (<[id := a1]> heap !! i) -> is_Some (heap !! i)).
Proof.
  intros Ha Hh. split_and!; intros i; rewrite lookup_insert; case_decide; subst; try (by eauto); try (by rewrite Ha).
  - intros x [= <-]. eauto.
  - intros y Hy. simplify_eq. eauto.
Qed.

Lemma kept_same c c' v : owns c v -> c_fd c' = c_fd c -> kept c v c' v.
Proof. intros Ho Hf. split; [|unfold owns in *; congruence]. intros fd io ? ? ?. by rewrite Hf. Qed.

(** A method that keeps the client's descriptor and state. *)
Lemma inv_client_same g p id a a1 :
  async_inv g -> m_heap g !! id = Some a -> c_fd (a_clt a1) = c_fd (a_clt a) ->
  c_closed (a_clt a1) = c_closed (a_clt a) -> a_ha a1 = a_ha a ->
  async_inv (upd_client g p (m_w g) id a1).
Proof.
  intros [H1 H2 H3 H4 H5 H6 H7 H8 H9 H10] Ha Hf Hc Hh. split; cbn; try done.
  - intros fd i Hl. destruct (H1 _ _ Hl) as [Hi (a0 & Ha0 & Hfd)]. split; [done|].
    rewrite lookup_insert. case_decide; [|by exists a0]. subst. exists a1. simplify_eq. done.
  - intros i Hi. destruct (H2 _ Hi) as (a0 & Ha0 & Hc0 & Hf0 & Hl & Hm). rewrite lookup_insert.
    case_decide; [|by exists a0]. subst. simplify_eq. exists a1. by rewrite Hf, Hc, Hh.
  - unfold clients_of. cbn. rewrite fmap_insert. eapply (heap_ok_update _ _ _ (a_clt a)); [done| |].
    + unfold clients_of. by rewrite lookup_fmap, Ha.
    + apply kept_same; [|done]. apply (proj1 H3 id). unfold clients_of. by rewrite lookup_fmap, Ha.
  - intros i x (y & Hy & ->)%(proj1 (heap_same_ha _ _ _ _ Ha Hh)). by eapply H4.
  - intros i Hx%(proj2 (proj2 (heap_same_ha _ _ _ _ Ha Hh))). by apply H8.
  - intros h ha i Hx Hy0. destruct (H9 _ _ _ Hx Hy0) as (y & Hy & <-).
    by apply (proj1 (proj2 (heap_same_ha _ _ _ _ Ha Hh))).
Qed.

(** A client that is not monitored may reconnect. *)
Lemma inv_client_off g w id a a1 :
  async_inv g -> m_heap g !! id = Some a -> id ∉ m_coll g -> a_ha a1 = a_ha a ->
  kept (a_clt a) (k_view (m_w g)) (a_clt a1) (k_view w) ->
  async_inv (upd_client g (m_poll g) w id a1).
Proof.
  intros [H1 H2 H3 H4 H5 H6 H7 H8 H9 H10] Ha Hn Hh Hk. split; cbn; try done.
  - intros fd i Hl. destruct (H1 _ _ Hl) as [Hi (a0 & Ha0 & Hfd)]. split; [done|].
    rewrite lookup_insert_ne by (intros <-; done). by exists a0.
  - intros i Hi. destruct (H2 _ Hi) as (a0 & Ha0 & Hc0 & Hf0 & Hl & Hm).
    rewrite lookup_insert_ne by (intros <-; done). by exists a0.
  - unfold clients_of. cbn. rewrite fmap_insert. eapply (heap_ok_update _ _ _ (a_clt a)); [done| |done].
    unfold clients_of. by rewrite lookup_fmap, Ha.
  - intros i x (y & Hy & ->)%(proj1 (heap_same_ha _ _ _ _ Ha Hh)). by eapply H4.
  - intros i Hx%(proj2 (proj2 (heap_same_ha _ _ _ _ Ha Hh))). by apply H8.
  - intros h ha i Hx Hy0. destruct (H9 _ _ _ Hx Hy0) as (y & Hy & <-).
    by apply (proj1 (proj2 (heap_same_ha _ _ _ _ Ha Hh))).
Qed.

(** Descriptors of different clients differ. *)
Lemma fd_unique g i j a b :
  async_inv g -> m_heap g !! i = Some a -> m_heap g !! j = Some b ->
  c_fd (a_clt a) = c_fd (a_clt b) -> c_fd (a_clt a) <> INVALID_SOCK -> i = j.
Proof.
  intros Hinv Ha Hb. apply (proj2 (ai_heap _ Hinv)); unfold clients_of; by rewrite lookup_fmap, ?Ha, ?Hb.
Qed.

Lemma inv_remove g id : async_inv g -> id ∈ m_coll g -> async_inv (removeMonitored id g).
Proof.
  intros Hinv Hi. destruct (ai_coll _ Hinv _ Hi) as (a & Ha & Hc & Hf & Hl & Hmg). unfold removeMonitored. rewrite Ha.
  set (a1 := set_clt _ _).
  assert (c_fd (a_clt a1) = c_fd (a_clt a) /\ a_ha a1 = a_ha a) as [Hf1 Hh1] by done.
  pose proof (fun j b => fd_unique g id j a b Hinv Ha) as Hu.
  destruct Hinv as [H1 H2 H3 H4 H5 H6 H7 H8 H9 H10]. split; cbn; try done.
  - intros fd i [Hne Hli]%lookup_delete_Some. destruct (H1 _ _ Hli) as [Hii (b & Hb & Hfb)].
    assert (id <> i) as Hd by (intros ->; simplify_eq; done). split; [set_solver|].
    rewrite lookup_insert_ne by done. by exists b.
  - intros i [Hii Hd]%elem_of_difference. rewrite not_elem_of_singleton in Hd.
    destruct (H2 _ Hii) as (b & Hb & Hcb & Hfb & Hlb & Hmb). exists b. rewrite lookup_insert_ne by done.
    split_and!; try done. rewrite lookup_delete_ne; [done|]. intros Heq. apply Hd. symmetry. by eapply Hu.
  - unfold clients_of. cbn. rewrite fmap_insert. eapply (heap_ok_update _ _ _ (a_clt a)); [done| |].
    + unfold clients_of. by rewrite lookup_fmap, Ha.
    + apply kept_same; [|done]. apply (proj1 H3 id). unfold clients_of. by rewrite lookup_fmap, Ha.
  - intros i x (y & Hy & ->)%(proj1 (heap_same_ha _ _ _ _ Ha Hh1)). by eapply H4.
  - intros i Hx%(proj2 (proj2 (heap_same_ha _ _ _ _ Ha Hh1))). by apply H8.
  - intros h ha i Hx Hy0. destruct (H9 _ _ _ Hx Hy0) as (y & Hy & <-).
    by apply (proj1 (proj2 (heap_same_ha _ _ _ _ Ha Hh1))).
Qed.

Lemma inv_poll g p : async_inv g -> async_inv (upd_poll g p).
Proof. intros []. by split. Qed.

Lemma inv_ioerror g r : async_inv g -> async_inv (onIOError r g).
Proof.
  intros. destruct r as [id|]; [|done]. cbn. unfold isMonitored. case_bool_decide; [by apply inv_remove|done].
Qed.

Lemma inv_add g id a :
  async_inv g -> m_heap g !! id = Some a -> id ∉ m_coll g -> c_closed (a_clt a) = false ->
  c_fd (a_clt a) <> INVALID_SOCK -> a_ha a ∈ m_haClients g -> async_inv (addMonitored id g).
Proof.
  intros Hinv Ha Hn Hc Hf Hmg. unfold addMonitored. rewrite Ha.
  destruct (sp_add _ _ _ _) as [rc p1]. case_if; [by apply inv_poll|].
  destruct (a_joinMonitor p1 a (m_efd g)) as [p2 a1] eqn:Ej.
  assert (a_clt a1 = a_clt a /\ a_ha a1 = a_ha a) as [Hc1 Hh1].
  { unfold a_joinMonitor in Ej. destruct (joinMonitor _ _ _). by injection Ej as <- <-. }
  assert (m_fd2client g !! c_fd (a_clt a) = None) as Hnone.
  { destruct (m_fd2client g !! c_fd (a_clt a)) as [j|] eqn:E; [|done].
    destruct (ai_map _ Hinv _ _ E) as [Hj (b & Hb & Hfb)].
    assert (id = j) by (apply (fd_unique g id j a b); congruence). congruence. }
  rewrite Hnone.
  pose proof (inv_client_same g p2 id a a1 Hinv Ha ltac:(congruence) ltac:(congruence) Hh1) as Hinv1.
  destruct Hinv1 as [H1 H2 H3 H4 H5 H6 H7 H8 H9 H10]. cbn in *. split; cbn; try done.
  - intros fd i. rewrite lookup_insert. case_decide as E.
    + intros [= <-]. split; [set_solver|]. exists a1. rewrite lookup_insert_eq, Hc1. done.
    + intros Hl. destruct (H1 _ _ Hl) as [Hi He]. split; [set_solver|done].
  - intros i [->%elem_of_singleton|Hi]%elem_of_union.
    + exists a1. rewrite lookup_insert_eq, Hc1, lookup_insert_eq, Hh1. done.
    + destruct (H2 _ Hi) as (b & Hb & Hcb & Hfb & Hlb & Hmb). exists b. split_and!; try done.
      rewrite lookup_insert_ne; [done|]. intros Heq. rewrite <- Heq in Hlb. congruence.
Qed.

Lemma inv_queues g i q x :
  async_inv g -> m_queues g !! i = Some q -> lane_ok (m_haClients g) (m_has g) i x -> async_inv (upd_queues g (<[i := x]> (m_queues g))).
Proof.
  intros [H1 H2 H3 H4 H5 H6 H7 H8 H9 H10] Hq Hx. split; cbn; try done.
  - by rewrite length_insert.
  - intros j q'. destruct (decide (i = j)) as [->|].
    + rewrite list_lookup_insert_eq by (by eapply lookup_lt_Some). by intros [= <-].
    + rewrite list_lookup_insert_ne by done. apply H7.
Qed.

Lemma dispatch_lane g a m :
  async_inv g -> is_Some (m_has g !! a_ha a) -> a_ha a ∈ m_haClients g ->
  exists g', dispatchAsyncMsg g a m = Some g' /\ async_inv g' /\ m_has g' = m_has g /\
    m_haClients g' = m_haClients g.
Proof.
  intros Hinv [ha Hh] Hmg. unfold dispatchAsyncMsg. rewrite Hh.
  pose proof (ai_idx _ Hinv _ _ Hh) as Hi. pose proof (ai_queues _ Hinv) as Hq.
  destruct (m_queues g !! Z.to_nat (h_workerIdx ha)) as [q|] eqn:E.
  2:{ apply lookup_ge_None in E. lia. }
  eexists. split; [done|]. split; [|done]. eapply inv_queues; [done|done|].
  pose proof (ai_lane _ Hinv _ _ E) as Hl. unfold lane_ok, SafeQueue.push in *.
  case_if; [|done]. cbn. apply Forall_app. split; [done|]. apply Forall_singleton. cbn. split; [done|].
  exists ha. split; [done|]. lia.
Qed.

Lemma dispatch_all_lane g a ms :
  async_inv g -> is_Some (m_has g !! a_ha a) -> a_ha a ∈ m_haClients g ->
  exists g', dispatch_async g a ms = Some g' /\ async_inv g'.
Proof.
  revert g. induction ms as [|m ms IH]; intros g Hinv Hh Hm; cbn [dispatch_async]; [by exists g|].
  destruct (dispatch_lane g a m Hinv Hh Hm) as (g1 & -> & Hinv1 & Hhs & Hl). apply IH; [done|by rewrite Hhs|by rewrite Hl].
Qed.

Lemma a_on_read_core a chunk rc ms a1 :
  a_on_read fresh proto a chunk = Some (rc, ms, a1) -> a_clt a1 = a_clt a /\ a_ha a1 = a_ha a.
Proof.
  unfold a_on_read, a_onRecv. destruct (isClosed (a_clt a)); [by intros [= <- <- <-]|].
  destruct (push fresh _ _ _) as [[rc1 c]|]; [|done].
  assert (forall fuel x ms x', a_recv_loop proto fuel x = Some (ms, x') -> a_clt x' = a_clt x /\ a_ha x' = a_ha x) as Hl.
  { induction fuel as [|fuel IH]; intros x ms0 x'; cbn [a_recv_loop]; [done|].
    unfold a_getRecvMsg. destruct (isClosed (a_clt x)); [by intros [= <- <-]|].
    destruct (_PopMsg _ _) as [[m|] c1]; [|by intros [= <- <-]].
    destruct (a_recv_loop proto fuel _) as [[ms1 x1]|] eqn:E; [|done]. intros [= <- <-].
    by apply IH in E. }
  destruct (rc1 <? 0); [by intros [= <- <- <-]|]. destruct (MaxPendingSize <? datasize c); [by intros [= <- <- <-]|].
  cbn [Z.eqb]. destruct (a_recv_loop _ _ _) as [[ms1 x1]|] eqn:E; [|done]. intros [= <- <- <-]. by apply Hl in E.
Qed.

Lemma a_sendData_core now send p a rc p1 a1 :
  a_sendData now send p a = (rc, p1, a1) ->
  c_fd (a_clt a1) = c_fd (a_clt a) /\ c_closed (a_clt a1) = c_closed (a_clt a) /\ a_ha a1 = a_ha a.
Proof.
  unfold a_sendData. destruct (sendData _ _ _ _) as [[rc1 p2] s]. intros [= <- <- <-]. by case_if.
Qed.

Lemma a_post_core p a m rc p1 a1 :
  a_post p a m = (rc, p1, a1) -> a_clt a1 = a_clt a /\ a_ha a1 = a_ha a.
Proof. unfold a_post. destruct (post _ _ _) as [[rc1 p2] s]. by intros [= <- <- <-]. Qed.

Lemma a_on_event_inv now r send ev g g' : async_inv g -> on_event now r send ev g = Some g' -> async_inv g'.
Proof.
  intros Hinv. unfold on_event, getClientByFd. destruct (ev_read ev).
  - destruct r as [chunk|rc].
    + destruct (m_fd2client g !! ev_fd ev) as [id|] eqn:El; [|by intros [= <-]].
      destruct (isMonitored g id); [|by intros [= <-]]. destruct (m_heap g !! id) as [a|] eqn:Ha; [|done].
      destruct (ai_map _ Hinv _ _ El) as [Hcoll _].
      destruct (ai_coll _ Hinv _ Hcoll) as (a' & Ha' & _ & _ & _ & Hmg). simplify_eq.
      destruct (a_on_read fresh proto a chunk) as [[[rc ms] a1]|] eqn:E; [|done].
      apply a_on_read_core in E as [Hc Hh].
      assert (async_inv (upd_client g (m_poll g) (m_w g) id a1)) as Hinv1.
      { eapply inv_client_same; [done..| | |done]; by rewrite Hc. }
      case_if; [|intros [= <-]; by apply (inv_ioerror _ (Some id))].
      intros E. destruct (dispatch_all_lane (upd_client g (m_poll g) (m_w g) id a1) a1 ms) as (g2 & E2 & Hinv2); [done|by rewrite Hh; apply (ai_ha _ Hinv id)|by rewrite Hh|congruence].
    + case_if; intros [= <-]; [done|]. by apply inv_ioerror.
  - destruct (ev_write ev).
    + destruct (m_fd2client g !! ev_fd ev) as [id|]; [|by intros [= <-]].
      destruct (isMonitored g id); [|by intros [= <-]]. destruct (m_heap g !! id) as [a|] eqn:Ha; [|done].
      destruct (a_sendData now send (m_poll g) a) as [[rc p1] a1] eqn:E.
      apply a_sendData_core in E as (Hf & Hc & Hh). intros [= <-].
      assert (async_inv (upd_client g p1 (m_w g) id a1)) by by eapply inv_client_same.
      case_if; [by apply (inv_ioerror _ (Some id))|done].
    + case_if; intros [= <-]; [|done]. by apply inv_ioerror.
Qed.

Lemma monitor_inv check id g : async_inv g -> walked g id -> async_inv (monitor_client check id g).
Proof.
  intros Hinv (hw & haw & Hw1 & Hw2 & Hw3). destruct (ai_member _ Hinv _ _ _ Hw2 Hw3) as (aw & Haw & <-). unfold monitor_client, isMonitored. case_bool_decide as Hm; cbn [negb].
  - destruct check; [|done]. unfold checkAlive. destruct (m_heap g !! id) as [a|] eqn:Ha; [|done].
    case_if; [|done]. destruct (a_post _ _ _) as [[rc p1] a1] eqn:E. apply a_post_core in E as [Hc Hh].
    eapply inv_client_same; [done..| | |done]; by rewrite Hc.
  - destruct (m_heap g !! id) as [a|] eqn:Ha; [|done]. case_if.
    + apply andb_prop in Heqb as [Hc1 Hc2]. eapply inv_add; [done..| | |].
      * by apply negb_true_iff in Hc2.
      * unfold isConnected in Hc1. apply negb_true_iff, Z.eqb_neq in Hc1. done.
      * congruence.
    + destruct (a_connect 500 a (m_w g)) as [[rc a1] w1] eqn:E.
      pose proof (connect_carries 500 a (m_w g) rc a1 w1 E) as (_ & _ & Hcl).
      unfold a_connect in E. destruct (connect 500 (a_clt a) (m_w g)) as [[rc1 c1] w2] eqn:Ec.
      injection E as <- <- <-. pose proof (kept_connect _ _ _ _ _ _ Ec) as Hk.
      assert (async_inv (upd_client g (m_poll g) w2 id (set_clt a c1))) as Hinv1 by by eapply inv_client_off.
      case_if; [|done]. bool_Z. subst rc1.
      destruct (connect_spec 500 (a_clt a) (m_w g)) as (rc' & c' & w' & Ec' & Hs). rewrite Ec in Ec'.
      injection Ec' as <- <- <-. destruct Hs as (_ & Hge & _).
      apply (inv_add _ _ (set_clt a c1)); [done|by apply lookup_insert_eq|done|done| |cbn; congruence].
      cbn. unfold INVALID_SOCK. lia.
Qed.

(** Only the cursor of a group changes. *)
Lemma inv_cursor g h ha ha1 :
  async_inv g -> m_has g !! h = Some ha -> h_workerIdx ha1 = h_workerIdx ha -> h_clients ha1 = h_clients ha ->
  async_inv (upd_has g (<[h := ha1]> (m_has g)) (m_haClients g)).
Proof.
  intros [H1 H2 H3 H4 H5 H6 H7 H8 H9 H10] Hh Hi Hcl. split; cbn; try done.
  - intros id a Ha. destruct (H4 _ _ Ha) as [x Hx]. rewrite lookup_insert. case_decide; by eexists.
  - intros h' x. rewrite lookup_insert. case_decide; [|apply H5]. intros [= <-]. rewrite Hi. by eapply H5.
  - intros i q Hq. specialize (H7 i q Hq). unfold lane_ok in *. eapply Forall_impl; [exact H7|].
    intros [m h'] (Hmg & x & Hx & Hxi). cbn in *. split; [done|]. rewrite lookup_insert. case_decide; [|by exists x].
    subst. exists ha1. simplify_eq. by rewrite Hi.
  - intros h' x id. rewrite lookup_insert. case_decide; [|apply H9]. intros [= <-]. subst. rewrite Hcl. by apply H9.
Qed.

Lemma ha_post_inv h m g rc g' : async_inv g -> ha_post h m g = Some (rc, g') -> async_inv g'.
Proof.
  intros Hinv. unfold ha_post. destruct (m_has g !! h) as [ha|] eqn:Hh; [|done].
  unfold getClient. destruct (cursor_loop _ _ _ _) as [[r cur]|]; [|done].
  pose proof (inv_cursor g h ha (MkHaAsync (h_clients ha) cur (h_seq ha) (h_workerIdx ha)) Hinv Hh eq_refl eq_refl) as Hinv1.
  set (g1 := upd_has _ _ _) in *.
  destruct (match r with Some i => h_clients ha !! i | None => None end) as [id|]; [|by intros [= <- <-]].
  change (m_heap g) with (m_heap g1). destruct (m_heap g1 !! id) as [a|] eqn:Ha; [|done].
  destruct (a_post _ _ _) as [[rc1 p1] a1] eqn:E. apply a_post_core in E as [Hc Hhx].
  intros [= <- <-]. change (m_w g) with (m_w g1). eapply inv_client_same; [done..| | |done]; by rewrite Hc.
Qed.

(** Setting up, before or after [start]. *)
Lemma insert_none_ne {A} (m : gmap nat A) i j x y : m !! i = None -> m !! j = Some y -> <[i := x]> m !! j = Some y.
Proof. intros Hi Hj. rewrite lookup_insert_ne; [done|]. congruence. Qed.

Lemma a_connect_new h addr port seq w rc a w1 :
  a_connect 100 (new_asynclt fresh h addr port seq) w = (rc, a, w1) ->
  a_ha a = h /\ kept (new_client addr port seq) (k_view w) (a_clt a) (k_view w1).
Proof.
  unfold a_connect. destruct (connect _ _ _) as [[rc1 c1] w2] eqn:E. intros [= <- <- <-].
  split; [done|]. by eapply kept_connect.
Qed.

Lemma heap_ok_new (m : gmap nat client) v id addr port seq c v' :
  heap_ok m v -> m !! id = None -> kept (new_client addr port seq) v c v' -> heap_ok (<[id := c]> m) v'.
Proof.
  intros Hok Hn Hk. rewrite <- (insert_insert_eq m id c (new_client addr port seq)).
  eapply heap_ok_update; [by apply heap_ok_alloc|by apply lookup_insert_eq|done].
Qed.

(** The parts of the invariant that do not depend on the threads. *)
Record setup_inv (g : manager) : Prop := {
  su_heap : heap_ok (clients_of g) (k_view (m_w g));
  su_ha : forall id a, m_heap g !! id = Some a -> is_Some (m_has g !! a_ha a);
  su_next : forall id, is_Some (m_heap g !! id) -> (id < m_next g)%nat;
  su_member : forall h ha id, m_has g !! h = Some ha -> id ∈ h_clients ha ->
    exists a, m_heap g !! id = Some a /\ a_ha a = h;
}.

Lemma async_setup_inv g : async_inv g -> setup_inv g.
Proof. by intros []. Qed.

Lemma setup_setup_inv g g' : setup_inv g -> setup g g' -> setup_inv g'.
Proof.
  intros [H1 H2 H3 H4] Hs. destruct Hs as [g h Hn _|g h addr port g' Hc|g h Hh _].
  - split; cbn; try done.
    + intros id a Ha. destruct (H2 _ _ Ha) as [x Hx]. rewrite lookup_insert. case_decide; by eexists.
    + intros h' ha id. rewrite lookup_insert. case_decide; [|apply H4]. intros [= <-]. by intros ?%not_elem_of_nil.
  - unfold addConnect in Hc. destruct (m_has g !! h) as [ha|] eqn:Hh; [|done].
    destruct (a_connect _ _ _) as [[rc a] w1] eqn:Ea. injection Hc as <-.
    apply a_connect_new in Ea as [Hha Hk].
    assert (m_heap g !! m_next g = None) as Hn.
    { destruct (m_heap g !! m_next g) eqn:E; [|done]. pose proof (H3 (m_next g) ltac:(eauto)). lia. }
    split; cbn.
    + unfold clients_of. cbn. rewrite fmap_insert. eapply heap_ok_new; [done| |done].
      unfold clients_of. by rewrite lookup_fmap, Hn.
    + intros id x. rewrite !lookup_insert. case_decide.
      * intros [= <-]. rewrite Hha, decide_True by done. by eexists.
      * intros Hx. destruct (H2 _ _ Hx) as [y Hy]. case_decide; by eexists.
    + intros id. rewrite lookup_insert. case_decide; [lia|]. intros Hi%H3. lia.
    + intros h' x id. rewrite lookup_insert. case_decide as Ed.
      * intros [= <-]. cbn. intros [Hin|Hid]%elem_of_app.
        -- destruct (H4 _ _ _ Hh Hin) as (y & Hy & <-). exists y. split; [by apply insert_none_ne|done].
        -- apply list_elem_of_singleton in Hid as ->. exists a. rewrite lookup_insert_eq. split; congruence.
      * intros Hx Hin. destruct (H4 _ _ _ Hx Hin) as (y & Hy & <-). exists y. split; [by apply insert_none_ne|done].
  - unfold manageClient. split; cbn; try done.
    + intros id a Ha. destruct (H2 _ _ Ha) as [x Hx]. case_if; [|by eexists].
      destruct (decide (a_ha a = h)) as [<-|]; [|rewrite lookup_alter_ne by done; by eexists].
      rewrite lookup_alter_eq, Hx. by eexists.
    + intros h' ha id. case_if; [|apply H4]. destruct (decide (h' = h)) as [->|]; [|rewrite lookup_alter_ne by done; apply H4].
      rewrite lookup_alter_eq. destruct Hh as [x Hx]. rewrite Hx. intros [= <-]. cbn. by apply H4.
Qed.

Lemma setup_async_inv g g' : async_inv g -> setup g g' -> async_inv g'.
Proof.
  intros Hinv Hs. pose proof (setup_setup_inv _ _ (async_setup_inv _ Hinv) Hs) as [S1 S2 S3 S4].
  destruct Hinv as [H1 H2 H3 H4 H5 H6 H7 H8 H9 H10].
  destruct Hs as [g h Hn Hnm|g h addr port g' Hc|g h [x Hx] Hnm].
  - split; try done; cbn.
    + intros h' ha. rewrite lookup_insert. case_decide; [intros [= <-]; cbn; lia|apply H5].
    + intros i q Hq. eapply Forall_impl; [exact (H7 i q Hq)|]. intros [m h'] (? & y & Hy & ?). cbn in *.
      split; [done|]. exists y. split; [by apply insert_none_ne|done].
  - unfold addConnect in Hc. destruct (m_has g !! h) as [ha|] eqn:Hh; [|done].
    destruct (a_connect _ _ _) as [[rc a] w1] eqn:Ea. injection Hc as <-.
    assert (m_heap g !! m_next g = None) as Hn.
    { destruct (m_heap g !! m_next g) eqn:E; [|done]. pose proof (H8 (m_next g) ltac:(eauto)). lia. }
    split; try done; cbn.
    + intros fd id Hl. destruct (H1 _ _ Hl) as [? (y & Hy & ?)]. split; [done|]. exists y.
      split; [by apply insert_none_ne|done].
    + intros id Hi. destruct (H2 _ Hi) as (y & Hy & ?). exists y. split; [by apply insert_none_ne|done].
    + intros h' y. rewrite lookup_insert. case_decide; [|apply H5]. intros [= <-]. cbn. by eapply H5.
    + intros i q Hq. eapply Forall_impl; [exact (H7 i q Hq)|]. intros [m h'] (? & y & Hy & Hi). cbn in *.
      split; [done|]. rewrite lookup_insert. case_decide; [|by exists y]. subst. simplify_eq. by eexists.
  - unfold manageClient in *. split; try done; cbn in *.
    + intros id Hi. destruct (H2 _ Hi) as (y & Hy & Hc & Hf & Hl & Hm). exists y. split_and!; try done. set_solver.
    + intros h' ha. rewrite (proj2 (Z.ltb_lt 0 _)) by done.
      destruct (decide (h' = h)) as [->|]; [|rewrite lookup_alter_ne by done; apply H5].
      rewrite lookup_alter_eq, Hx. intros [= <-]. cbn. apply Z.rem_bound_pos; [apply size_of_nonneg|done].
    + intros i q Hq. eapply Forall_impl; [exact (H7 i q Hq)|]. intros [m h'] (? & y & Hy & Hi). cbn in *.
      split; [set_solver|]. exists y. split; [|done]. case_if; [|done]. rewrite lookup_alter_ne; [done|]. by intros <-.
Qed.

Lemma assign_range i n l hs h ha :
  0 <= i -> 0 < n -> assign_workers i n l hs !! h = Some ha ->
  exists ha0, hs !! h = Some ha0 /\ h_clients ha = h_clients ha0 /\
    (h_workerIdx ha = h_workerIdx ha0 \/ 0 <= h_workerIdx ha < n).
Proof.
  intros Hi Hn. revert i hs Hi. induction l as [|x l IH]; intros i hs Hi; cbn [assign_workers].
  - intros Hl. exists ha. auto.
  - intros Hl. destruct (IH (i + 1) _ ltac:(lia) Hl) as (ha1 & Hl1 & Hc & Hr).
    destruct (decide (h = x)) as [->|]; [|rewrite lookup_alter_ne in Hl1 by done; by exists ha1].
    rewrite lookup_alter_eq in Hl1. destruct (hs !! x) as [ha0|]; [|done]. injection Hl1 as <-. cbn in *.
    exists ha0. split_and!; try done. right. pose proof (Z.rem_bound_pos i n Hi Hn). lia.
Qed.

Lemma assign_dom i n l hs h : is_Some (hs !! h) -> is_Some (assign_workers i n l hs !! h).
Proof.
  revert i hs. induction l as [|x l IH]; intros i hs Hs; cbn [assign_workers]; [done|]. apply IH.
  destruct (decide (h = x)) as [->|]; [|by rewrite lookup_alter_ne]. rewrite lookup_alter_eq.
  destruct Hs as [y ->]. by eexists.
Qed.

(** Before [start] no client is monitored and every worker index is 0. *)
Definition idle_manager (p : P) (w : W) : manager := MkMgr p INVALID_SOCK w ∅ 0 ∅ [] ∅ ∅ 0 [].

Record fresh_inv (g : manager) : Prop := {
  fr_setup : setup_inv g;
  fr_coll : m_coll g = ∅;
  fr_map : m_fd2client g = ∅;
  fr_num : m_workerNum g = 0;
  fr_idx : forall h ha, m_has g !! h = Some ha -> h_workerIdx ha = 0;
}.

Lemma setup_fresh g g' : fresh_inv g -> setup g g' -> fresh_inv g'.
Proof.
  intros [F1 F2 F3 F4 F5] Hs. pose proof (setup_setup_inv _ _ F1 Hs) as F1'.
  destruct Hs as [g h Hn Hnm|g h addr port g' Hc|g h [x Hx] Hnm].
  - split; try done. cbn. intros h' ha. rewrite lookup_insert. case_decide; [by intros [= <-]|apply F5].
  - unfold addConnect in Hc. destruct (m_has g !! h) as [ha|] eqn:Hh; [|done].
    destruct (a_connect _ _ _) as [[rc a] w1]. injection Hc as <-. split; try done. cbn.
    intros h' y. rewrite lookup_insert. case_decide; [|apply F5]. intros [= <-]. cbn. by eapply F5.
  - unfold manageClient in *. split; try done. cbn. intros h' ha. rewrite F4. cbn. apply F5.
Qed.

Lemma a_start_inv efd n g : fresh_inv g -> async_inv (start efd n g).
Proof.
  intros [[S1 S2 S3 S4] F2 F3 F4 F5].
  assert (0 < clamp_workers n) as Hn by (unfold clamp_workers, AsyncMaxWorkers; lia).
  unfold start. split; cbn; try done.
  - intros fd id. by rewrite F3, lookup_empty.
  - intros id. rewrite F2. set_solver.
  - intros id a Ha. apply assign_dom. by apply (S2 id).
  - intros h ha Hl. destruct (assign_range _ _ _ _ _ _ ltac:(done) Hn Hl) as (ha0 & Hl0 & _ & Hr).
    rewrite (F5 _ _ Hl0) in Hr. lia.
  - rewrite repeat_length. lia.
  - intros i q Hq. apply list_elem_of_lookup_2, list_elem_of_In, repeat_spec in Hq as ->. constructor.
  - intros h ha id Hl Hin. destruct (assign_range _ _ _ _ _ _ ltac:(done) Hn Hl) as (ha0 & Hl0 & Hc & _).
    rewrite Hc in Hin. by apply (S4 _ _ _ Hl0).
Qed.

Lemma astep_inv g g' : async_inv g -> astep g g' -> async_inv g'.
Proof.
  intros Hinv Hs. destruct Hs as [g0 g1 E|g0 now r send ev g1 E|g0 check id Hwk|g0 h m rc g1 E|g0 i rc x g1 E|g0 w' Hw].
  - by eapply setup_async_inv.
  - by eapply a_on_event_inv.
  - by apply monitor_inv.
  - by eapply ha_post_inv.
  - unfold worker_pop in E. destruct (m_queues g0 !! i) as [q|] eqn:Eq; [|done].
    destruct (SafeQueue.pop_timeout_wake q) as [[rc1 x1] q1] eqn:Ep. injection E as <- <- <-.
    eapply inv_queues; [done..|]. pose proof (ai_lane _ Hinv _ _ Eq) as Hl. unfold lane_ok in *.
    unfold SafeQueue.pop_timeout_wake, SafeQueue.raw_pop in Ep.
    destruct (SafeQueue._exit q); [by injection Ep as <- <- <-|]. case_if; [by injection Ep as <- <- <-|].
    destruct (SafeQueue._queue q) eqn:El; [injection Ep as <- <- <-; by rewrite El|].
    injection Ep as <- <- <-. cbn. by apply Forall_cons in Hl as [_ ?].
  - destruct Hinv as [H1 H2 [H3 H3'] H4 H5 H6 H7 H8 H9 H10]. split; try done. split; [|done]. cbn.
    intros id c. unfold clients_of. cbn. rewrite lookup_fmap. destruct (m_heap g0 !! id) as [a|] eqn:Ha; [|done].
    intros [= <-]. destruct (decide (c_fd (a_clt a) = INVALID_SOCK)); [by left|]. right. by apply (Hw id).
Qed.

Definition async_reachable (g : manager) : Prop :=
  exists p w g0 efd n, rtc setup (idle_manager p w) g0 /\ rtc astep (start efd n g0) g.

Lemma async_reachable_inv g : async_reachable g -> async_inv g.
Proof.
  intros (p & w & g0 & efd & n & Hs & Hr).
  assert (fresh_inv (idle_manager p w)) as Hf.
  { split; try done. split; cbn; try done. intros id. rewrite lookup_empty. by intros []. }
  assert (fresh_inv g0) as Hf0.
  { revert Hf. clear Hr. induction Hs as [|x y z Hxy _ IH]; [done|]. intros Hf. apply IH. by eapply setup_fresh. }
  apply (a_start_inv efd n) in Hf0. clear -Hr Hf0 SysLaws0. induction Hr as [|x y z Hxy _ IH]; [done|].
  apply IH. by eapply astep_inv.
Qed.

(** ** Properties *)

(** C28: the table of monitored clients. Under every interleaving of events,
    monitor rounds, posts and set-up, a descriptor leads to a client exactly
    when that client is monitored and holds the descriptor; a monitored client
    is connected and not marked closed; and no two clients share a descriptor. *)
Theorem monitored_table g :
  async_reachable g ->
  (forall fd id, m_fd2client g !! fd = Some id <->
     id ∈ m_coll g /\ exists a, m_heap g !! id = Some a /\ c_fd (a_clt a) = fd) /\
  (forall id, id ∈ m_coll g -> usable (m_heap g) id = true) /\
  heap_ok (clients_of g) (k_view (m_w g)).
Proof.
  intros Hinv%async_reachable_inv. split_and!; [| |apply Hinv].
  - intros fd id. split; [apply (ai_map _ Hinv)|]. intros [Hi (a & Ha & <-)].
    destruct (ai_coll _ Hinv _ Hi) as (b & Hb & _ & _ & Hl & _). congruence.
  - intros id Hi. destruct (ai_coll _ Hinv _ Hi) as (a & Ha & Hc & Hf & _). unfold usable, isConnected, isClosed.
    by rewrite Ha, Hc, (proj2 (Z.eqb_neq _ _) Hf).
Qed.

(** one worker per group. A message from a monitored client always finds a
    queue, and in every reachable state the messages waiting in a worker's
    queue belong to groups assigned to that worker: the responses of one group
    are handled by one thread, in the order they were received. *)
Theorem group_lane g :
  async_reachable g ->
  (forall i q, m_queues g !! i = Some q -> lane_ok (m_haClients g) (m_has g) i q) /\
  (forall id a m, id ∈ m_coll g -> m_heap g !! id = Some a -> exists g', dispatchAsyncMsg g a m = Some g').
Proof.
  intros Hinv%async_reachable_inv. split; [apply Hinv|]. intros id a m Hi Ha.
  destruct (ai_coll _ Hinv _ Hi) as (b & Hb & _ & _ & _ & Hm). simplify_eq.
  destruct (dispatch_lane g a m Hinv) as (g' & E & _); [by apply (ai_ha _ Hinv id)|done|]. by exists g'.
Qed.

(** [getClient], with a cursor in range, picks the first client in cyclic
    order that is connected and not marked closed, and none only when there is
    none; the cursor stays in range and the clients are the same. *)
Theorem getClient_first_usable heap ha :
  0 <= h_cursor ha <= size_of (h_clients ha) -> size_of (h_clients ha) < 2 ^ 31 - 1 ->
  exists r ha', getClient heap ha = Some (r, ha') /\ h_clients ha' = h_clients ha /\
    0 <= h_cursor ha' <= size_of (h_clients ha') /\
    match r with
    | Some id => usable heap id = true /\ exists j,
        h_clients ha !! Z.to_nat ((h_cursor ha + j) mod size_of (h_clients ha)) = Some id /\
        (forall j', 0 <= j' < j -> refused_at (usable heap) (h_clients ha) (h_cursor ha + j'))
    | None => Forall (fun id => usable heap id = false) (h_clients ha)
    end.
Proof.
  intros Hc Hm. unfold getClient.
  destruct (cursor_scan (usable heap) (h_clients ha) (h_cursor ha) Hc Hm) as (r & c' & -> & Hc' & Hr).
  eexists _, _. split; [done|]. split; [done|]. split; [done|]. destruct r as [i|]; [|done].
  destruct Hr as (j & x & Hj & -> & Hl & Hx & Hall). rewrite Hl. split; [done|]. by exists j.
Qed.

(** a monitor round brings back a lost client: a client of a managed group
    that is not monitored is monitored afterwards, unless connecting or
    registering it failed. *)
Theorem monitor_brings_back check id g a :
  async_reachable g -> id ∉ m_coll g -> m_heap g !! id = Some a ->
  let g' := monitor_client check id g in
  id ∈ m_coll g' \/
  (usable (m_heap g) id = false /\ fst (fst (a_connect 500 a (m_w g))) <> 0) \/
  (exists a', m_heap g' !! id = Some a' /\ usable (m_heap g') id = true /\
     fst (sp_add (m_poll g) (m_efd g) (c_fd (a_clt a')) false) <> 0).
Proof.
  intros Hr Hn Ha. cbn zeta. unfold monitor_client, isMonitored. rewrite bool_decide_false by done. cbn [negb].
  rewrite Ha.
  assert (forall g1 a1, m_heap g1 !! id = Some a1 -> usable (m_heap g1) id = true ->
    m_poll g1 = m_poll g -> m_efd g1 = m_efd g ->
    id ∈ m_coll (addMonitored id g1) \/
    (exists a', m_heap (addMonitored id g1) !! id = Some a' /\ usable (m_heap (addMonitored id g1)) id = true /\
      fst (sp_add (m_poll g) (m_efd g) (c_fd (a_clt a')) false) <> 0)) as Hadd.
  { intros g1 a1 Ha1 Hu Hp He. unfold addMonitored. rewrite Ha1, Hp, He.
    destruct (sp_add (m_poll g) (m_efd g) (c_fd (a_clt a1)) false) as [rc p1] eqn:Es.
    destruct (Z.eqb_spec rc 0); cbn [negb].
    - left. destruct (a_joinMonitor _ _ _). cbn. set_solver.
    - right. exists a1. cbn. rewrite Es. done. }
  destruct (isConnected (a_clt a) && negb (isClosed (a_clt a))) eqn:Eu.
  - destruct (Hadd g a Ha) as [|]; auto. unfold usable. by rewrite Ha.
  - destruct (a_connect 500 a (m_w g)) as [[rc a1] w1] eqn:Ec. cbn [fst].
    destruct (Z.eqb_spec rc 0) as [->|].
    2:{ right; left. split; [|done]. unfold usable. by rewrite Ha. }
    pose proof (connect_carries 500 a (m_w g) 0 a1 w1 Ec) as (_ & _ & Hcl).
    destruct (Hadd (upd_client g (m_poll g) w1 id a1) a1) as [|]; auto; [by apply lookup_insert_eq|].
    unfold usable. cbn. rewrite lookup_insert_eq. unfold isClosed. rewrite Hcl, andb_true_r.
    unfold a_connect in Ec. destruct (connect_spec 500 (a_clt a) (m_w g)) as (rc' & c' & w' & Ec' & Hs).
    rewrite Ec' in Ec. injection Ec as -> <- <-. destruct Hs as (_ & Hge & _). cbn. unfold isConnected.
    apply negb_true_iff, Z.eqb_neq. unfold INVALID_SOCK. lia.
Qed.

End manager.

(** ** Witnesses *)

#[local] Instance client_poller : Poller WinPoll.state := WinPoll.win_poller 0x0300 0x0010.

(** A client on descriptor 7 holding the first three bytes of a frame. *)
Definition sample_async : asynclt :=
  MkAsync sample_client (MkChunk ([x02; x00; x00] ++ replicate 1021 x00) 1024 3 1024) [] false INVALID_SOCK 0.

(** Reconnecting it. *)
Definition reconnect_world : script := MkScript [AnsSocket 8; AnsConnect 0 0] (MkView {[ 7 := ([], []) ]} []).
Definition reconnected : Z * asynclt * script := a_connect 500 sample_async reconnect_world.

Lemma reconnected_eq : a_connect 500 sample_async reconnect_world =
  (fst (fst reconnected), snd (fst reconnected), snd reconnected).
Proof. reflexivity. Qed.

(** The new server sends one frame with the body [x41]; a message comes out that
    nobody sent. *)
Lemma reconnect_joins_streams_witness :
  exists a', a_recv_session zero_fresh default_msg_proto (snd (fst reconnected)) [[x02; x00; x00; x01; x41]] =
      Some (0, [[x02; x00; x00; x02; x00; x00]], a') /\ content (a_cache a') = [x01; x41].
Proof.
  eapply (reconnect_joins_streams zero_fresh default_msg_proto 500 sample_async); [|reflexivity..|exact reconnected_eq| | |].
  - by split.
  - apply Forall_singleton. split; [reflexivity|discriminate].
  - vm_compute. reflexivity.
  - intros Hbig. refute_oversized Hbig.
Defined.

(** Three bytes of a message of five went out before the connection broke. *)
Definition half_sent : asynclt :=
  MkAsync sample_client (new_chunk zero_fresh BufferSize) [[x01; x41]] false INVALID_SOCK 0.

Lemma reconnect_resumes_midway_witness :
  SEND_SUCCESS = SEND_SUCCESS /\
  _SendData (fun _ => 1) (a_queue (snd (fst (a_connect 500 half_sent reconnect_world)))) =
    (SEND_SUCCESS, [[x41]]).
Proof.
  apply (reconnect_resumes_midway 500 [x02; x00; x00; x01; x41] [] 3 SEND_SUCCESS half_sent reconnect_world
    (fst (fst (a_connect 500 half_sent reconnect_world))) (snd (fst (a_connect 500 half_sent reconnect_world)))
    (snd (a_connect 500 half_sent reconnect_world)) (fun _ => 1)); try reflexivity.
  - split; [discriminate|reflexivity].
  - split; reflexivity.
  - split; reflexivity.
Defined.

Lemma zeros_wf n d b :
  0 <= d <= n -> n < 2 ^ 32 -> 0 < b -> chunk_wf (MkChunk (replicate (Z.to_nat n) x00) n d b).
Proof. intros. split; cbn [buffer buffersize datasize blocksize]; try done. unfold size_of. rewrite length_replicate. lia. Qed.

(** A cache of more than ten megabytes. *)
Definition full_async : asynclt :=
  MkAsync sample_client (MkChunk (replicate (Z.to_nat 10486784) x00) 10486784 10485761 1024) [] false INVALID_SOCK 0.

Lemma full_cache_is_forever_witness :
  exists a2, a_on_read zero_fresh default_msg_proto (snd (fst (a_connect 500 full_async reconnect_world))) [x00] =
      Some (3, [], a2) /\ chunk_wf (a_cache a2) /\ blocksize (a_cache a2) = BufferSize /\
    MaxPendingSize < datasize (a_cache a2).
Proof.
  eapply (full_cache_is_forever zero_fresh default_msg_proto 500 full_async reconnect_world);
    [|reflexivity|reflexivity|reflexivity| |].
  - apply zeros_wf; lia.
  - split; [reflexivity|discriminate].
  - rewrite <- !surjective_pairing. reflexivity.
Defined.

(** One group with one client, set up, started and monitored. *)
Definition one_group : manager (P:=WinPoll.state) (W:=script) :=
  let g := idle_manager (snd (WinPoll.sp_create (WinPoll.MkState ∅ 1)))
    (MkScript [AnsSocket 7; AnsConnect 0 0] (MkView ∅ [])) in
  let g := manageClient 0 (upd_has g {[0%nat := new_ha_asynclt]} []) in
  default g (addConnect zero_fresh 0 [x61] 8080 g).

Definition started_group : manager (P:=WinPoll.state) (W:=script) :=
  monitor_client default_msg_proto false 0 (start 1 4 one_group).

Lemma started_reachable : async_reachable zero_fresh default_msg_proto started_group.
Proof.
  exists (snd (WinPoll.sp_create (WinPoll.MkState ∅ 1))), (MkScript [AnsSocket 7; AnsConnect 0 0] (MkView ∅ [])),
    one_group, 1, 4. split.
  - eapply rtc_l; [apply (su_group _ _ 0%nat); [reflexivity|set_solver]|].
    eapply rtc_l; [apply (su_manage _ _ 0%nat); [by eexists|set_solver]|].
    apply rtc_once. eapply (su_connect _ _ 0%nat [x61] 8080). reflexivity.
  - apply rtc_once, as_monitor. exists 0%nat. eexists. split; [|split; [reflexivity|]]; cbn; set_solver.
Qed.

Lemma monitored_table_witness :
  m_fd2client started_group !! 7 = Some 0%nat /\ 0%nat ∈ m_coll started_group.
Proof.
  split; [reflexivity|].
  destruct (monitored_table zero_fresh default_msg_proto started_group started_reachable) as [H _].
  by apply (H 7 0%nat).
Defined.

Lemma group_lane_witness :
  match m_queues started_group with
  | q :: _ => lane_ok (m_haClients started_group) (m_has started_group) 0%nat q
  | [] => False
  end.
Proof.
  destruct (group_lane zero_fresh default_msg_proto started_group started_reachable) as [H _].
  apply H. reflexivity.
Defined.

Lemma getClient_first_usable_witness :
  exists r ha', getClient (m_heap started_group) (MkHaAsync [0%nat; 1%nat] 1 1 0) = Some (r, ha') /\ r = Some 0%nat.
Proof.
  destruct (getClient_first_usable (m_heap started_group) (MkHaAsync [0%nat; 1%nat] 1 1 0))
    as (r & ha' & E & _); [cbn; unfold size_of; cbn; lia|reflexivity|].
  exists r, ha'. split; [exact E|]. vm_compute in E. congruence.
Defined.

Lemma monitor_brings_back_witness :
  0%nat ∈ m_coll (monitor_client default_msg_proto false 0 (start 1 4 one_group)).
Proof.
  destruct (m_heap (start 1 4 one_group) !! 0%nat) as [a|] eqn:Ha; [|vm_compute in Ha; discriminate].
  destruct (monitor_brings_back zero_fresh default_msg_proto false 0%nat (start 1 4 one_group) a) as [H|[H|H]].
  - exists (snd (WinPoll.sp_create (WinPoll.MkState ∅ 1))), (MkScript [AnsSocket 7; AnsConnect 0 0] (MkView ∅ [])),
      one_group, 1, 4. split; [|apply rtc_refl].
    eapply rtc_l; [apply (su_group _ _ 0%nat); [reflexivity|set_solver]|].
    eapply rtc_l; [apply (su_manage _ _ 0%nat); [by eexists|set_solver]|].
    apply rtc_once. eapply (su_connect _ _ 0%nat [x61] 8080). reflexivity.
  - set_solver.
  - exact Ha.
  - exact H.
  - destruct H as [H _]. vm_compute in H. discriminate.
  - destruct H as (a' & Ha' & _ & H). vm_compute in Ha'. injection Ha' as <-. by vm_compute in H.
Defined.
