(* ===== verification/AsyncLife.v ===== *)
(** * Shutting down the asynchronous clients ([async_client_manager] of
      [zbf/socket_tcp_v5.hpp])

    [stop], [serveUtilStop] and [clearClients], over the [manager] of
    [AsyncClient]; [amgr] adds the flag [_shutdown] and whether the threads
    exist. Queues that were released are not in [m_queues] any more. [None]: a
    client or group that does not exist is deleted. *)

From S2P Require Import Prelude MemChunk TcpMessage Framing SocketPoll WriteSide TcpUser SocketUtils TcpClient AsyncClient.
From S2P Require SafeQueue.

Section life.
Context {P : Type} {PI : Poller P} {PF : PollerFactory P} {W : Type} {SW : Sys W}.
Abbreviation mgr := (manager (P:=P) (W:=W)).

Record amgr := MkAmgr {
  al_mgr : mgr;
  al_shutdown : bool;
  al_threads : bool;     (* the I/O thread, the monitor and the workers exist *)
}.

(** The loop of [tcpsock_ha_asynclt::disconnect]: disconnect, then delete. *)
Fixpoint drop_clients (ids : list nat) (heap : gmap nat asynclt) (w : W) : option (gmap nat asynclt * W) :=
  match ids with
  | [] => Some (heap, w)
  | id :: ids =>
      match heap !! id with
      | None => None
      | Some a => let '(_, w1) := disconnect (a_clt a) w in drop_clients ids (delete id heap) w1
      end
  end.

Definition ha_disconnect (h : nat) (g : mgr) : option mgr :=
  match m_has g !! h with
  | None => None
  | Some ha =>
      match drop_clients (h_clients ha) (m_heap g) (m_w g) with
      | None => None
      | Some (heap, w) =>
          Some (MkMgr (m_poll g) (m_efd g) w heap (m_next g)
            (<[h := MkHaAsync [] (h_cursor ha) (h_seq ha) (h_workerIdx ha)]> (m_has g)) (m_haClients g)
            (m_coll g) (m_fd2client g) (m_workerNum g) (m_queues g))
      end
  end.

(** The loop of [clearClients]; a deleted group is out of [m_has]. *)
Fixpoint drop_groups (hs : list nat) (g : mgr) : option mgr :=
  match hs with
  | [] => Some g
  | h :: hs =>
      match ha_disconnect h g with
      | None => None
      | Some g1 => drop_groups hs (upd_has g1 (delete h (m_has g1)) (m_haClients g1))
      end
  end.

Definition clearClients (g : mgr) : option mgr :=
  match drop_groups (m_haClients g) g with
  | None => None
  | Some g1 => Some (upd_table (upd_has g1 (m_has g1) []) ∅ ∅)
  end.

(** [serveUtilStop], once the threads have ended. *)
Definition serveUtilStop (l : amgr) : option amgr :=
  match clearClients (upd_queues (al_mgr l) []) with
  | None => None
  | Some g =>
      let '(p, efd) := if sp_invalid (m_efd g) then (m_poll g, m_efd g)
                       else (sp_release (m_poll g) (m_efd g), INVALID_SOCK) in
      Some (MkAmgr (MkMgr p efd (m_w g) (m_heap g) (m_next g) (m_has g) (m_haClients g) (m_coll g) (m_fd2client g)
              (m_workerNum g) (m_queues g)) (al_shutdown l) false)
  end.

Definition stop (join : bool) (l : amgr) : option amgr :=
  let l1 := MkAmgr (upd_queues (al_mgr l) (SafeQueue.stop <$> m_queues (al_mgr l))) true (al_threads l) in
  if join then serveUtilStop l1 else Some l1.

(** [start]: nothing but the instance changes when [sp_create] fails. *)
Definition start (workerNum : Z) (l : amgr) : amgr :=
  let '(efd, p) := sp_create (m_poll (al_mgr l)) in
  let g := al_mgr l in
  if sp_invalid efd
  then MkAmgr (MkMgr p efd (m_w g) (m_heap g) (m_next g) (m_has g) (m_haClients g) (m_coll g) (m_fd2client g)
         (m_workerNum g) (m_queues g)) (al_shutdown l) (al_threads l)
  else MkAmgr (AsyncClient.start efd workerNum (upd_poll g p)) (al_shutdown l) true.

(** The loops of the I/O thread and the monitor go on. *)
Definition looping (l : amgr) : bool := al_threads l && negb (al_shutdown l).
End life.
Arguments amgr : clear implicits.

(** ** Lemmas *)

Section facts.
Context {P : Type} {PI : Poller P} {PF : PollerFactory P} {W : Type} {SW : Sys W} {SL : SysLaws W}.
Context (fresh : Z -> bytes) (proto : protocol).
Abbreviation mgr := (manager (P:=P) (W:=W)).

(** Closing several connections. *)
Definition close_all (fds : list Z) (v : kernel_view) : kernel_view := foldl (fun v fd => closed fd v) v fds.
Definition valid_fds (fds : list Z) : list Z := filter (fun fd => fd <> INVALID_SOCK) fds.
Definition fd_of (heap : gmap nat asynclt) (id : nat) : Z :=
  match heap !! id with Some a => c_fd (a_clt a) | None => INVALID_SOCK end.
Definition fds_of (heap : gmap nat asynclt) (ids : list nat) : list Z := valid_fds (fd_of heap <$> ids).

Lemma close_all_app fds1 fds2 v : close_all (fds1 ++ fds2) v = close_all fds2 (close_all fds1 v).
Proof. apply foldl_app. Qed.

Lemma close_all_conn fds v fd :
  v_conn (close_all fds v) !! fd = if decide (fd ∈ fds) then None else v_conn v !! fd.
Proof.
  revert v. induction fds as [|f fds IH]; intros v; cbn [close_all foldl]; [done|].
  fold (close_all fds (closed f v)). rewrite IH. unfold closed. cbn [v_conn]. rewrite lookup_delete.
  repeat case_decide; set_solver.
Qed.

Lemma fds_of_ext heap heap' ids : (forall id, id ∈ ids -> heap' !! id = heap !! id) -> fds_of heap' ids = fds_of heap ids.
Proof.
  intros H. unfold fds_of. f_equal. apply list_fmap_ext. intros i id Hid. unfold fd_of.
  rewrite H; [done|]. by eapply list_elem_of_lookup_2.
Qed.

Lemma fds_of_app heap ids1 ids2 : fds_of heap (ids1 ++ ids2) = fds_of heap ids1 ++ fds_of heap ids2.
Proof. unfold fds_of, valid_fds. by rewrite fmap_app, filter_app. Qed.

Lemma drop_clients_spec ids : forall heap (w : W),
  NoDup ids -> (forall id, id ∈ ids -> is_Some (heap !! id)) ->
  exists heap' w', drop_clients ids heap w = Some (heap', w') /\
    (forall id, heap' !! id = if decide (id ∈ ids) then None else heap !! id) /\
    k_view w' = close_all (fds_of heap ids) (k_view w).
Proof.
  induction ids as [|id ids IH]; intros heap w Hnd Hs; cbn [drop_clients].
  - exists heap, w. split_and!; [done|intros; by rewrite decide_False by set_solver|done].
  - apply NoDup_cons in Hnd as [Hni Hnd]. destruct (Hs id ltac:(left)) as [a Ha]. rewrite Ha.
    destruct (disconnect (a_clt a) w) as [c w1] eqn:Ed.
    destruct (IH (delete id heap) w1 Hnd) as (heap' & w' & E & Hh & Hv).
    { intros id' Hid. rewrite lookup_delete_ne by (intros ->; done). apply Hs. by right. }
    exists heap', w'. split_and!; [done| |].
    + intros id'. rewrite Hh, lookup_delete. repeat case_decide; set_solver.
    + rewrite Hv. rewrite (fds_of_ext heap (delete id heap)) by (intros id' Hid; apply lookup_delete_ne; by intros ->).
      unfold disconnect in Ed. change (id :: ids) with ([id] ++ ids). rewrite fds_of_app, close_all_app. f_equal.
      unfold fds_of, valid_fds, fd_of. cbn [fmap list_fmap]. rewrite Ha, filter_cons, filter_nil.
      destruct (Z.eqb_spec (c_fd (a_clt a)) INVALID_SOCK) as [Ei|Ei]; injection Ed as <- <-.
      * by rewrite decide_False by (by intros []).
      * rewrite decide_True by done. cbn. apply law_close.
Qed.

(** The clients of the groups [hs]. *)
Definition members (has : gmap nat ha_asynclt) (hs : list nat) : list nat :=
  hs ≫= fun h => match has !! h with Some ha => h_clients ha | None => [] end.

Lemma members_ext has has' hs : (forall h, h ∈ hs -> has' !! h = has !! h) -> members has' hs = members has hs.
Proof.
  induction hs as [|h hs IH]; intros H; [done|]. unfold members in *. cbn [mbind list_bind].
  rewrite (H h) by left. f_equal. apply IH. intros h' Hh. apply H. by right.
Qed.

Lemma drop_groups_spec hs : forall g : mgr,
  NoDup hs -> (forall h, h ∈ hs -> is_Some (m_has g !! h)) -> NoDup (members (m_has g) hs) ->
  (forall id, id ∈ members (m_has g) hs -> is_Some (m_heap g !! id)) ->
  exists g', drop_groups hs g = Some g' /\
    (forall id, m_heap g' !! id = if decide (id ∈ members (m_has g) hs) then None else m_heap g !! id) /\
    k_view (m_w g') = close_all (fds_of (m_heap g) (members (m_has g) hs)) (k_view (m_w g)) /\
    (forall h, m_has g' !! h = if decide (h ∈ hs) then None else m_has g !! h) /\
    m_poll g' = m_poll g /\ m_efd g' = m_efd g /\ m_queues g' = m_queues g /\ m_workerNum g' = m_workerNum g.
Proof.
  induction hs as [|h hs IH]; intros g Hnd Hs Hm Hh; cbn [drop_groups].
  - exists g. split_and!; try done; intros; by rewrite decide_False by set_solver.
  - apply NoDup_cons in Hnd as [Hni Hnd]. destruct (Hs h ltac:(left)) as [ha Hha].
    unfold ha_disconnect. rewrite Hha. unfold members in Hm, Hh |- *. cbn [mbind list_bind] in Hm, Hh |- *. rewrite Hha in *.
    fold (members (m_has g) hs) in *. apply NoDup_app in Hm as (Hm1 & Hdisj & Hm2).
    destruct (drop_clients_spec (h_clients ha) (m_heap g) (m_w g) Hm1) as (heap & w & E & Hheap & Hv).
    { intros id Hid. apply Hh. set_solver. }
    rewrite E. cbn [m_has m_haClients]. set (g1 := upd_has _ _ _).
    assert (forall h', m_has g1 !! h' = if decide (h' = h) then None else m_has g !! h') as Hhas.
    { intros h'. cbn. rewrite lookup_delete, lookup_insert. repeat case_decide; congruence. }
    assert (members (m_has g1) hs = members (m_has g) hs) as Emem.
    { apply members_ext. intros h' Hh'. rewrite Hhas, decide_False; [done|]. intros ->. done. }
    destruct (IH g1 Hnd) as (g' & E' & Hheap' & Hv' & Hhas' & Hr).
    + intros h' Hh'. rewrite Hhas, decide_False by (intros ->; done). apply Hs. by right.
    + by rewrite Emem.
    + intros id Hid. rewrite Emem in Hid. cbn. rewrite Hheap, decide_False by (intros H; by apply (Hdisj id)).
      apply Hh. set_solver.
    + rewrite Emem in *. exists g'. split; [done|]. split_and!; [| | |apply Hr..].
      * intros id. rewrite Hheap'. cbn [g1 upd_has m_heap]. rewrite Hheap. repeat case_decide; set_solver.
      * rewrite Hv'. cbn [g1 upd_has m_heap m_w]. rewrite Hv, fds_of_app, close_all_app. f_equal.
        apply fds_of_ext. intros id Hid. rewrite Hheap, decide_False; [done|]. intros H. by apply (Hdisj id).
      * intros h'. rewrite Hhas', Hhas. repeat case_decide; set_solver.
Qed.
(** ** The groups and their clients *)

Record tidy (g : mgr) : Prop := {
  td_managed : NoDup (m_haClients g);
  td_alive : forall h, h ∈ m_haClients g -> is_Some (m_has g !! h);
  td_clients : forall h ha, m_has g !! h = Some ha -> NoDup (h_clients ha);
}.

Lemma tidy_same (g g' : mgr) :
  h_clients <$> m_has g' = h_clients <$> m_has g -> m_haClients g' = m_haClients g -> tidy g -> tidy g'.
Proof.
  intros Hc Hm [T1 T2 T3].
  assert (forall h, h_clients <$> (m_has g' !! h) = h_clients <$> (m_has g !! h)) as Hh
    by (intros h; by rewrite <- !lookup_fmap, Hc).
  split; rewrite ?Hm; [done| |].
  - intros h Hin. specialize (Hh h). destruct (T2 h Hin) as [x Hx]. rewrite Hx in Hh.
    destruct (m_has g' !! h); [eauto|done].
  - intros h ha Hha. specialize (Hh h). rewrite Hha in Hh. destruct (m_has g !! h) as [x|] eqn:Hx; [|done].
    injection Hh as ->. by eapply T3.
Qed.

Lemma has_insert_same (hs : gmap nat ha_asynclt) h ha ha' :
  hs !! h = Some ha -> h_clients ha' = h_clients ha -> h_clients <$> <[h := ha']> hs = h_clients <$> hs.
Proof. intros Hh Hc. rewrite fmap_insert, Hc. apply insert_id. by rewrite lookup_fmap, Hh. Qed.

Lemma has_alter_same (hs : gmap nat ha_asynclt) h i :
  h_clients <$> alter (fun ha => set_workerIdx ha i) h hs = h_clients <$> hs.
Proof.
  apply map_eq. intros k. rewrite !lookup_fmap. destruct (decide (k = h)) as [->|].
  - rewrite lookup_alter_eq. by destruct (hs !! h).
  - by rewrite lookup_alter_ne.
Qed.

Lemma assign_same i n l hs : h_clients <$> assign_workers i n l hs = h_clients <$> hs.
Proof.
  revert i hs. induction l as [|h l IH]; intros i hs; cbn [assign_workers]; [done|].
  by rewrite IH, has_alter_same.
Qed.

Lemma setup_tidy (g g' : mgr) : setup_inv g -> tidy g -> setup fresh g g' -> tidy g'.
Proof.
  intros [S1 S2 S3 S4] [T1 T2 T3] Hs. destruct Hs as [g h Hn Hnm|g h addr port g' Hc|g h [x Hx] Hnm].
  - split; cbn; [done| |].
    + intros h' Hh'. rewrite lookup_insert. case_decide; [eauto|by apply T2].
    + intros h' ha. rewrite lookup_insert. case_decide; [intros [= <-]; by apply NoDup_nil|by apply T3].
  - unfold addConnect in Hc. destruct (m_has g !! h) as [ha|] eqn:Hh; [|done].
    destruct (a_connect _ _ _) as [[rc a] w1]. injection Hc as <-. split; cbn; [done| |].
    + intros h' Hh'. rewrite lookup_insert. case_decide; [eauto|by apply T2].
    + intros h' y. rewrite lookup_insert. case_decide; [|by apply T3]. intros [= <-]. cbn.
      apply NoDup_app. split_and!; [by eapply T3| |apply NoDup_singleton].
      intros id Hid ->%list_elem_of_singleton. destruct (S4 _ _ _ Hh Hid) as (b & Hb & _).
      pose proof (S3 (m_next g) ltac:(eauto)). lia.
  - unfold manageClient. split; cbn.
    + apply NoDup_app. split_and!; [done| |apply NoDup_singleton]. by intros h' Hh' ->%list_elem_of_singleton.
    + intros h' [Hh'|Hh']%elem_of_app.
      * destruct (T2 _ Hh') as [y Hy]. case_if; [|eauto]. destruct (decide (h' = h)) as [->|];
          [rewrite lookup_alter_eq, Hy|rewrite lookup_alter_ne by done]; eauto.
      * apply list_elem_of_singleton in Hh' as ->. case_if; [rewrite lookup_alter_eq, Hx|]; eauto.
    + intros h' ha. case_if; [|by apply T3]. destruct (decide (h' = h)) as [->|];
        [rewrite lookup_alter_eq, Hx|rewrite lookup_alter_ne by done; by apply T3].
      intros [= <-]. cbn. by eapply T3.
Qed.

Lemma dispatch_async_has (g g' : mgr) a ms :
  dispatch_async g a ms = Some g' -> m_has g' = m_has g /\ m_haClients g' = m_haClients g.
Proof.
  revert g. induction ms as [|m ms IH]; intros g; cbn [dispatch_async]; [by intros [= <-]|].
  unfold dispatchAsyncMsg. repeat case_match; try done; intros E%IH; simplify_eq; exact E.
Qed.

Lemma onIOError_has r (g : mgr) : m_has (onIOError r g) = m_has g /\ m_haClients (onIOError r g) = m_haClients g.
Proof. unfold onIOError, removeMonitored. by repeat case_match. Qed.

Lemma monitor_client_has check id (g : mgr) :
  m_has (monitor_client proto check id g) = m_has g /\ m_haClients (monitor_client proto check id g) = m_haClients g.
Proof. unfold monitor_client, addMonitored, checkAlive. by repeat case_match; simplify_eq. Qed.

Lemma astep_tidy (g g' : mgr) : async_inv g -> tidy g -> astep fresh proto g g' -> tidy g'.
Proof.
  intros Hinv Ht Hs. destruct Hs as [g0 g1 E|g0 now r send ev g1 E|g0 check id Hwk|g0 h m rc g1 E|g0 i rc x g1 E|g0 w' Hw].
  - eapply setup_tidy; [by apply async_setup_inv|done..].
  - assert (m_has g1 = m_has g0 /\ m_haClients g1 = m_haClients g0) as [E1 E2].
    { revert E. unfold on_event. repeat case_match; intros E; simplify_eq; try done;
        try (split; [exact (proj1 (onIOError_has _ _))|exact (proj2 (onIOError_has _ _))]);
        try (by apply dispatch_async_has in E). }
    apply (tidy_same g0); [by rewrite E1|done..].
  - destruct (monitor_client_has check id g0) as [E1 E2]. apply (tidy_same g0); [by rewrite E1|done..].
  - apply (tidy_same g0); [| |done]; revert E; unfold ha_post, getClient;
      destruct (m_has g0 !! h) as [ha|] eqn:Hh; try done;
      repeat case_match; intros E; simplify_eq; try done; by eapply has_insert_same.
  - unfold worker_pop in E. repeat case_match; simplify_eq. by apply (tidy_same g0).
  - by apply (tidy_same g0).
Qed.

Lemma async_reachable_tidy (g : mgr) : async_reachable fresh proto g -> tidy g /\ async_inv g.
Proof.
  intros Hr. split; [|by eapply async_reachable_inv].
  destruct Hr as (p & w & g0 & efd & n & Hs & Hr).
  assert (fresh_inv (idle_manager p w) /\ tidy (idle_manager p w)) as Hf.
  { split.
    - split; try done. split; cbn; try done. intros id. rewrite lookup_empty. by intros [].
    - split; cbn; try done; [apply NoDup_nil; done|set_solver]. }
  assert (fresh_inv g0 /\ tidy g0) as [Hf0 Ht0].
  { revert Hf. clear Hr. induction Hs as [|x y z Hxy _ IH]; [done|]. intros [Hf Ht]. apply IH.
    split; [by eapply setup_fresh|]. eapply setup_tidy; [apply (fr_setup _ Hf)|done..]. }
  assert (async_inv (AsyncClient.start efd n g0) /\ tidy (AsyncClient.start efd n g0)) as Hs0.
  { split; [by apply a_start_inv|]. apply (tidy_same g0); [|done..]. apply assign_same. }
  clear -Hr Hs0 SL. induction Hr as [|x y z Hxy _ IH]; [apply Hs0|].
  apply IH. destruct Hs0 as [Hi Ht]. split; [by eapply astep_inv|by eapply astep_tidy].
Qed.
(** ** Properties *)

Lemma member_elem has hs id :
  id ∈ members has hs <-> exists h ha, h ∈ hs /\ has !! h = Some ha /\ id ∈ h_clients ha.
Proof.
  unfold members. rewrite list_elem_of_bind. split.
  - intros (h & Hid & Hh). destruct (has !! h) as [ha|] eqn:E; [|set_solver]. eauto 6.
  - intros (h & ha & Hh & E & Hid). exists h. by rewrite E.
Qed.

Lemma members_nodup (g : mgr) : async_inv g -> tidy g -> NoDup (members (m_has g) (m_haClients g)).
Proof.
  intros Hi [T1 _ T3]. revert T1. generalize (m_haClients g) as hs. induction hs as [|h hs IH]; intros Hnd.
  - by apply NoDup_nil.
  - apply NoDup_cons in Hnd as [Hni Hnd]. unfold members. cbn [mbind list_bind].
    destruct (m_has g !! h) as [ha|] eqn:Eh; [|by apply IH]. apply NoDup_app. split_and!; [by eapply T3| |by apply IH].
    intros id Hid (h' & ha' & Hh' & E' & Hid')%member_elem.
    destruct (ai_member _ Hi _ _ _ Eh Hid) as (a & Ha & <-). destruct (ai_member _ Hi _ _ _ E' Hid') as (b & Hb & <-).
    congruence.
Qed.

Lemma member_alive (g : mgr) id :
  async_inv g -> id ∈ members (m_has g) (m_haClients g) -> is_Some (m_heap g !! id).
Proof.
  intros Hi (h & ha & _ & E & Hid)%member_elem. destruct (ai_member _ Hi _ _ _ E Hid) as (a & Ha & _). eauto.
Qed.

Lemma fds_nodup (heap : gmap nat asynclt) v ids :
  heap_ok (a_clt <$> heap) v -> NoDup ids -> NoDup (fds_of heap ids).
Proof.
  intros [_ Hu]. unfold fds_of, valid_fds. induction ids as [|id ids IH]; intros Hnd; [by apply NoDup_nil|].
  apply NoDup_cons in Hnd as [Hni Hnd]. cbn [fmap list_fmap]. rewrite filter_cons. case_decide as Hne; [|by apply IH].
  apply NoDup_cons. split; [|by apply IH]. intros [_ (id' & E & Hid')%list_elem_of_fmap]%list_elem_of_filter.
  unfold fd_of in E, Hne. destruct (heap !! id) as [a|] eqn:Ea; [|done]. destruct (heap !! id') as [b|] eqn:Eb; [|done].
  assert (id = id') as <-; [|done].
  apply (Hu id id' (a_clt a) (a_clt b)); [by rewrite lookup_fmap, Ea|by rewrite lookup_fmap, Eb|done|done].
Qed.

(** Shutting the manager down, from any state it can reach: every client of a
    managed group is deleted and the connection it had is closed, once, and no
    other one; no group, no monitored client, no queue and no thread is left.
    Doing it again changes nothing more. *)
Theorem shutdown_closes_all (g : mgr) threads :
  async_reachable fresh proto g ->
  exists l', stop true (MkAmgr g false threads) = Some l' /\
    let ids := members (m_has g) (m_haClients g) in
    let fds := fds_of (m_heap g) ids in
    NoDup fds /\
    (forall id a, id ∈ ids -> m_heap g !! id = Some a -> c_fd (a_clt a) <> INVALID_SOCK ->
       is_Some (v_conn (k_view (m_w g)) !! c_fd (a_clt a)) /\ c_fd (a_clt a) ∈ fds) /\
    k_view (m_w (al_mgr l')) = close_all fds (k_view (m_w g)) /\
    (forall id, m_heap (al_mgr l') !! id = if decide (id ∈ ids) then None else m_heap g !! id) /\
    m_haClients (al_mgr l') = [] /\ m_coll (al_mgr l') = ∅ /\ m_fd2client (al_mgr l') = ∅ /\
    m_queues (al_mgr l') = [] /\ al_threads l' = false /\ al_shutdown l' = true.
Proof.
  intros [Ht Hi]%async_reachable_tidy. pose proof (members_nodup g Hi Ht) as Hnd.
  unfold stop, serveUtilStop, clearClients. cbn [al_mgr upd_queues m_haClients].
  destruct (drop_groups_spec (m_haClients g) (upd_queues (upd_queues g (SafeQueue.stop <$> m_queues g)) []))
    as (g1 & E & Hheap & Hv & _ & _ & _ & Hq & _).
  { apply Ht. } { apply Ht. } { exact Hnd. } { intros id Hid. by apply (member_alive g). }
  cbn [upd_queues m_queues m_has m_heap m_w] in E, Hheap, Hv, Hq. rewrite E. cbn [upd_table upd_has m_efd m_poll].
  destruct (if sp_invalid (m_efd g1) then (m_poll g1, m_efd g1) else _) as [p efd].
  eexists. split; [done|]. cbn zeta. cbn [al_mgr m_w m_heap m_haClients m_coll m_fd2client m_queues al_threads al_shutdown].
  split_and!; try done.
  - exact (fds_nodup _ _ _ (ai_heap _ Hi) Hnd).
  - intros id a Hid Ha Hf. split.
    + assert (clients_of g !! id = Some (a_clt a)) as Hc by (unfold clients_of; by rewrite lookup_fmap, Ha).
      by destruct (proj1 (ai_heap _ Hi) _ _ Hc).
    + unfold fds_of, valid_fds. apply list_elem_of_filter. split; [done|]. apply list_elem_of_fmap. exists id.
      split; [|done]. unfold fd_of. by rewrite Ha.
Qed.

Lemma serveUtilStop_result (l l' : amgr P W) :
  sp_invalid INVALID_SOCK = true -> serveUtilStop l = Some l' ->
  m_haClients (al_mgr l') = [] /\ m_coll (al_mgr l') = ∅ /\ m_fd2client (al_mgr l') = ∅ /\
  sp_invalid (m_efd (al_mgr l')) = true /\ al_shutdown l' = al_shutdown l /\ al_threads l' = false /\
  (forall gs, drop_groups (m_haClients (al_mgr l)) (upd_queues (al_mgr l) []) = Some gs ->
     m_queues (al_mgr l') = m_queues gs).
Proof.
  intros Hi. unfold serveUtilStop, clearClients.
  destruct (drop_groups _ (upd_queues (al_mgr l) [])) as [g1|] eqn:E; [|done]. cbn [upd_table upd_has m_efd m_poll].
  destruct (sp_invalid (m_efd g1)) eqn:Es; intros [= <-]; (split_and!; [done..|]);
    by intros gs [= <-].
Qed.

Lemma drop_groups_queues hs (g g' : mgr) : drop_groups hs g = Some g' -> m_queues g' = m_queues g.
Proof.
  revert g. induction hs as [|h hs IH]; intros g; cbn [drop_groups]; [by intros [= <-]|].
  destruct (ha_disconnect h g) as [g1|] eqn:Ed; [|done]. intros ->%IH.
  unfold ha_disconnect in Ed. by repeat case_match; simplify_eq.
Qed.

(** A manager that was shut down can be shut down again, without effect. *)
Theorem shutdown_idempotent (g : mgr) threads l' :
  sp_invalid INVALID_SOCK = true ->
  stop true (MkAmgr g false threads) = Some l' -> stop true l' = Some l'.
Proof.
  intros Hi Hs. cbn [stop] in Hs. pose proof (serveUtilStop_result _ _ Hi Hs) as (H1 & H2 & H3 & H4 & H5 & H6 & H7).
  assert (m_queues (al_mgr l') = []) as H8.
  { unfold serveUtilStop, clearClients in Hs.
    destruct (drop_groups _ _) as [g1|] eqn:E; [|done]. rewrite (H7 g1 eq_refl). by apply drop_groups_queues in E. }
  destruct l' as [[p e w hp nx hs hc co f2 wn qs] sd th]. cbn in *. subst.
  unfold stop, serveUtilStop, clearClients. cbn. by rewrite H4.
Qed.

(** [start] does not reset [_shutdown]: a manager that is started again after
    [stop] has threads whose loops end at once, and it serves nobody. *)
Theorem restart_stays_down n (l l1 : amgr P W) b :
  stop b l = Some l1 -> looping (start n l1) = false.
Proof.
  intros Hs. assert (al_shutdown l1 = true) as Hd.
  { unfold stop in Hs. destruct b; [|by injection Hs as <-]. unfold serveUtilStop in Hs.
    destruct (clearClients _) as [g|]; [|done]. destruct (if sp_invalid (m_efd g) then _ else _). by injection Hs as <-. }
  unfold start, looping. destruct (sp_create _) as [efd p]. case_if; cbn [al_threads al_shutdown];
    rewrite Hd; by rewrite andb_false_r.
Qed.
End facts.

(** ** Witnesses *)

#[local] Instance life_poller : Poller WinPoll.state := WinPoll.win_poller 0x0300 0x0010.

(** The group of [AsyncClient], whose client has descriptor 7, is shut down. *)
Lemma shutdown_closes_all_witness :
  exists l', stop true (MkAmgr started_group false true) = Some l' /\
    fds_of (m_heap started_group) [0%nat] = [7] /\ k_view (m_w (al_mgr l')) = closed 7 (k_view (m_w started_group)) /\
    m_heap (al_mgr l') !! 0%nat = None /\ m_coll (al_mgr l') = ∅.
Proof.
  destruct (shutdown_closes_all zero_fresh default_msg_proto started_group true started_reachable)
    as (l' & E & _ & _ & Hv & Hh & _ & Hc & _).
  exists l'. split; [exact E|]. split; [reflexivity|]. split_and!.
  - rewrite Hv. reflexivity.
  - rewrite Hh. reflexivity.
  - exact Hc.
Defined.

(** On Linux an invalid instance is -1. *)
#[local] Instance linux_factory : PollerFactory WinPoll.state := {
  sp_create := WinPoll.sp_create;
  sp_invalid efd := efd =? -1;
  sp_release := WinPoll.sp_release;
}.

Lemma shutdown_idempotent_witness :
  exists l', stop true (MkAmgr started_group false true) = Some l' /\ stop true l' = Some l'.
Proof.
  eexists. split; [vm_compute; reflexivity|].
  apply (shutdown_idempotent started_group true); [reflexivity|]. vm_compute. reflexivity.
Defined.

Lemma restart_stays_down_witness :
  exists l', stop false (MkAmgr started_group false true) = Some l' /\ looping (start 4 l') = false.
Proof.
  eexists. split; [reflexivity|].
  exact (restart_stays_down 4 (MkAmgr started_group false true) _ false eq_refl).
Defined.
