(* ===== verification/AsioUser.v ===== *)
(** * A connection of the ASIO transport ([tcpsock_user] of
      [zbf/asio_socket_tcp.hpp])

    ASIO is used through three promises of its documentation: a strand runs the
    functions posted to it one at a time, in order; [async_read] of [n] bytes
    ends with [n] bytes or an error; [async_write] of a buffer ends when all of
    it is written, or with an error. [auser] is the state of a connection with
    the functions waiting on its two strands and the operations under way;
    [run_io] and [run_wk] are the functions, [ustep] interleaves the strands,
    the ends of operations, the timer, posts and [stop]. The record [trace]
    holds ghosts, for the proofs. *)

From S2P Require Import Prelude MemChunk TcpMessage Lymsg Framing TcpUser.

Definition MaxRdQueueSize : Z := 256.
Definition MaxWrQueueSize : Z := 256.
Definition MaxBatchSize : nat := 32.
(** The values of a release build. *)
Definition AsioUserTimeout : Z := 90.
Definition AsioHeartbeatTime : Z := 30.

(** The [error_code]s the handlers tell apart: [operation_aborted]; [try_again]
    or [interrupted]; any other. *)
Inductive ec := EcAborted | EcRetry | EcOther.

(** An [async_read] under way: of a header, or of a body behind a header. *)
Inductive read_op := RdHeader | RdBody (header : bytes) (bodySz : Z).

(** The functions posted to the I/O strand. *)
Inductive io_task :=
| IoStartRead
| IoReadBody (r : bytes + ec)                 (* read_body *)
| IoHandleRead (header : bytes) (r : bytes + ec)  (* handle_read *)
| IoDispatch                                  (* of schedule_dispatch *)
| IoWriteData (msg : bytes)                   (* of write_data *)
| IoHandleWrite (err : option ec).            (* handle_write *)

(** The functions posted to the worker strand. *)
Inductive wk_task := WkConnect | WkChunk (ms : list bytes) | WkDisconnect.

Inductive listener_call := OnConnect | OnRecvMsg (m : bytes) | OnDisconnect.

Record trace := MkTrace {
  tr_in : bytes;              (* bytes read *)
  tr_rest : bytes;            (* those after the last frame *)
  tr_frames : list bytes;     (* frames that reached handle_read *)
  tr_taken : list bytes;      (* messages put in the read queue *)
  tr_acc : list bytes;        (* messages put in the write queue *)
  tr_sent : list bytes;       (* messages written *)
  tr_wire : bytes;            (* bytes written *)
  tr_log : list listener_call;
}.

Record auser := MkAUser {
  au_server : bool;           (* _server_side *)
  au_stop : bool;
  au_pending : bool;
  au_readQ : list bytes;
  au_writeQ : list bytes;
  au_hb : heartbeat_helper;
  au_io : list io_task;
  au_wk : list wk_task;
  au_rd : option read_op;
  au_wr : option bytes;       (* the buffer of the async_write under way *)
  au_tr : trace;
}.

Definition set_au_stop (u : auser) (stop : bool) : auser :=
  MkAUser (au_server u) stop (au_pending u) (au_readQ u) (au_writeQ u) (au_hb u) (au_io u) (au_wk u) (au_rd u) (au_wr u) (au_tr u).
Definition set_readQ (u : auser) (pending : bool) (q : list bytes) : auser :=
  MkAUser (au_server u) (au_stop u) pending q (au_writeQ u) (au_hb u) (au_io u) (au_wk u) (au_rd u) (au_wr u) (au_tr u).
Definition set_writeQ (u : auser) (q : list bytes) : auser :=
  MkAUser (au_server u) (au_stop u) (au_pending u) (au_readQ u) q (au_hb u) (au_io u) (au_wk u) (au_rd u) (au_wr u) (au_tr u).
Definition set_au_hb (u : auser) (h : heartbeat_helper) : auser :=
  MkAUser (au_server u) (au_stop u) (au_pending u) (au_readQ u) (au_writeQ u) h (au_io u) (au_wk u) (au_rd u) (au_wr u) (au_tr u).
Definition set_io (u : auser) (l : list io_task) : auser :=
  MkAUser (au_server u) (au_stop u) (au_pending u) (au_readQ u) (au_writeQ u) (au_hb u) l (au_wk u) (au_rd u) (au_wr u) (au_tr u).
Definition set_wk (u : auser) (l : list wk_task) : auser :=
  MkAUser (au_server u) (au_stop u) (au_pending u) (au_readQ u) (au_writeQ u) (au_hb u) (au_io u) l (au_rd u) (au_wr u) (au_tr u).
Definition set_rd (u : auser) (r : option read_op) : auser :=
  MkAUser (au_server u) (au_stop u) (au_pending u) (au_readQ u) (au_writeQ u) (au_hb u) (au_io u) (au_wk u) r (au_wr u) (au_tr u).
Definition set_wrop (u : auser) (w : option bytes) : auser :=
  MkAUser (au_server u) (au_stop u) (au_pending u) (au_readQ u) (au_writeQ u) (au_hb u) (au_io u) (au_wk u) (au_rd u) w (au_tr u).
Definition set_tr (u : auser) (t : trace) : auser :=
  MkAUser (au_server u) (au_stop u) (au_pending u) (au_readQ u) (au_writeQ u) (au_hb u) (au_io u) (au_wk u) (au_rd u) (au_wr u) t.

(** [asio::post] to the two strands. *)
Definition post_io (u : auser) (t : io_task) : auser := set_io u (au_io u ++ [t]).
Definition post_wk (u : auser) (ts : list wk_task) : auser := set_wk u (au_wk u ++ ts).

(** Ghost updates. *)
Definition saw_bytes (d : bytes) (u : auser) : auser :=
  let t := au_tr u in
  set_tr u (MkTrace (tr_in t ++ d) (tr_rest t ++ d) (tr_frames t) (tr_taken t) (tr_acc t) (tr_sent t) (tr_wire t) (tr_log t)).
Definition saw_frame (m : bytes) (u : auser) : auser :=
  let t := au_tr u in
  set_tr u (MkTrace (tr_in t) [] (tr_frames t ++ [m]) (tr_taken t) (tr_acc t) (tr_sent t) (tr_wire t) (tr_log t)).
Definition saw_taken (m : bytes) (u : auser) : auser :=
  let t := au_tr u in
  set_tr u (MkTrace (tr_in t) (tr_rest t) (tr_frames t) (tr_taken t ++ [m]) (tr_acc t) (tr_sent t) (tr_wire t) (tr_log t)).
Definition saw_accepted (m : bytes) (u : auser) : auser :=
  let t := au_tr u in
  set_tr u (MkTrace (tr_in t) (tr_rest t) (tr_frames t) (tr_taken t) (tr_acc t ++ [m]) (tr_sent t) (tr_wire t) (tr_log t)).
Definition saw_written (ms : list bytes) (d : bytes) (u : auser) : auser :=
  let t := au_tr u in
  set_tr u (MkTrace (tr_in t) (tr_rest t) (tr_frames t) (tr_taken t) (tr_acc t) (tr_sent t ++ ms) (tr_wire t ++ d) (tr_log t)).
Definition saw_calls (l : list listener_call) (u : auser) : auser :=
  let t := au_tr u in
  set_tr u (MkTrace (tr_in t) (tr_rest t) (tr_frames t) (tr_taken t) (tr_acc t) (tr_sent t) (tr_wire t) (tr_log t ++ l)).

(** ** The code *)

Section code.
Context (proto : protocol).

(** The constructor, and [start]. *)
Definition new_auser (server_side : bool) : auser :=
  MkAUser server_side false false [] [] (MkHb (if server_side then AsioUserTimeout else AsioHeartbeatTime) 0)
    [] [] None None (MkTrace [] [] [] [] [] [] [] []).
Definition start (u : auser) : auser := post_wk u [WkConnect].

Definition try_stop (u : auser) : bool * auser :=
  if au_stop u then (false, u) else (true, set_au_stop u true).
Definition stop (u : auser) : bool * auser := try_stop u.

Definition handle_error (u : auser) : auser :=
  match try_stop u with
  | (false, u1) => u1
  | (true, u1) => post_wk u1 [WkDisconnect]
  end.

Definition read_header (u : auser) : auser :=
  if au_stop u then u else set_rd u (Some RdHeader).

Definition start_read (u : auser) : auser := post_io u IoStartRead.

Definition schedule_dispatch (u : auser) : auser :=
  if au_pending u then u else post_io (set_readQ u true (au_readQ u)) IoDispatch.

(** [handle_read] after the error codes. *)
Definition handle_read (now : Z) (msg : bytes) (u : auser) : auser :=
  if au_stop u then u
  else
    let u := saw_frame msg u in
    let u := if au_server u then set_au_hb u (hb_update now (au_hb u)) else u in
    let u :=
      if negb (isHeartbeat proto (Some msg)) then
        if size_of (au_readQ u) <? MaxRdQueueSize
        then schedule_dispatch (saw_taken msg (set_readQ u (au_pending u) (au_readQ u ++ [msg])))
        else u
      else u in
    read_header u.

(** [read_body] after the error codes. *)
Definition read_body (now : Z) (header : bytes) (u : auser) : auser :=
  if au_stop u then u
  else
    let bodySz := bodySize proto (Some header) in
    if MaxBodySize proto <? bodySz then handle_error u
    else if 0 <? bodySz then set_rd u (Some (RdBody header bodySz))
    else handle_read now header u.

(** The error codes of [read_body], [handle_read] and [handle_write]. *)
Definition on_error (e : ec) (u : auser) : auser :=
  match e with
  | EcAborted => u
  | EcRetry | EcOther => handle_error u
  end.

(** The loops of the function [schedule_dispatch] posts: chunks of at most
    [MaxBatchSize] messages. *)
Fixpoint chunks (fuel : nat) (batch : list bytes) : list (list bytes) :=
  match fuel, batch with
  | S fuel, _ :: _ => take MaxBatchSize batch :: chunks fuel (drop MaxBatchSize batch)
  | _, _ => []
  end.

Definition dispatch (u : auser) : auser :=
  set_readQ (post_wk u (WkChunk <$> chunks (length (au_readQ u)) (au_readQ u))) false [].

Definition do_write (u : auser) : auser :=
  match au_writeQ u with
  | [] => u
  | m :: _ => if au_stop u then u else set_wrop u (Some m)
  end.

Definition write_data (msg : bytes) (u : auser) : auser :=
  if size_of (au_writeQ u) <? MaxWrQueueSize then
    let wasEmpty := match au_writeQ u with [] => true | _ => false end in
    let u := saw_accepted msg (set_writeQ u (au_writeQ u ++ [msg])) in
    if (wasEmpty : bool) then do_write u else u
  else u.

(** [handle_write] after the error codes. *)
Definition handle_write (now : Z) (u : auser) : auser :=
  let u :=
    match au_writeQ u with
    | [] => u
    | _ :: q =>
        let u := set_writeQ u q in
        if au_server u then u else set_au_hb u (hb_update now (au_hb u))
    end in
  match au_writeQ u with
  | [] => u
  | _ => if au_stop u then u else do_write u
  end.

Definition run_io (now : Z) (t : io_task) (u : auser) : auser :=
  match t with
  | IoStartRead => read_header (set_au_hb u (hb_update now (au_hb u)))
  | IoReadBody (inl header) => read_body now header u
  | IoHandleRead header (inl body) => handle_read now (header ++ body) u
  | IoReadBody (inr e) | IoHandleRead _ (inr e) => on_error e u
  | IoDispatch => dispatch u
  | IoWriteData msg => write_data msg u
  | IoHandleWrite None => handle_write now u
  | IoHandleWrite (Some e) => on_error e u
  end.

Definition run_wk (t : wk_task) (u : auser) : auser :=
  match t with
  | WkConnect => start_read (saw_calls [OnConnect] u)
  | WkChunk ms => saw_calls (OnRecvMsg <$> ms) u
  | WkDisconnect => saw_calls [OnDisconnect] u
  end.

Definition post (msg : bytes) (u : auser) : auser := post_io u (IoWriteData msg).

Definition on_tick (now : Z) (u : auser) : auser :=
  if au_stop u then u
  else if isExceed (au_hb u) now then
    if au_server u then snd (try_stop u) else post (default [] (genHeartbeat proto)) u
  else u.

(** ** Interleavings *)

Definition read_size (op : read_op) : Z :=
  match op with RdHeader => headerSize proto | RdBody _ n => n end.
Definition read_task (op : read_op) (r : bytes + ec) : io_task :=
  match op with RdHeader => IoReadBody r | RdBody header _ => IoHandleRead header r end.

(** An operation is aborted only when the socket was closed. *)
Inductive ustep : auser -> auser -> Prop :=
| us_io u t ts now : au_io u = t :: ts -> ustep u (run_io now t (set_io u ts))
| us_wk u t ts : au_wk u = t :: ts -> ustep u (run_wk t (set_wk u ts))
| us_read u op d :
    au_rd u = Some op -> size_of d = read_size op ->
    ustep u (post_io (saw_bytes d (set_rd u None)) (read_task op (inl d)))
| us_read_error u op e :
    au_rd u = Some op -> (e = EcAborted -> au_stop u = true) ->
    ustep u (post_io (set_rd u None) (read_task op (inr e)))
| us_write u m :
    au_wr u = Some m ->
    ustep u (post_io (saw_written [m] m (set_wrop u None)) (IoHandleWrite None))
| us_write_error u m k e :
    au_wr u = Some m -> (e = EcAborted -> au_stop u = true) ->
    ustep u (post_io (saw_written [] (take k m) (set_wrop u None)) (IoHandleWrite (Some e)))
| us_tick u now : ustep u (on_tick now u)
| us_post u m : ustep u (post m u)
| us_stop u : ustep u (snd (stop u)).

Definition user_reachable (server_side : bool) (u : auser) : Prop :=
  rtc ustep (start (new_auser server_side)) u.
End code.

(** ** Counting tasks *)

Definition cnt {A} (f : A -> bool) (l : list A) : nat := length (filter (fun x => f x = true) l).

#[local] Arguments cnt : simpl never.

Lemma cnt_cons {A} f (x : A) l : cnt f (x :: l) = ((if f x then 1 else 0) + cnt f l)%nat.
Proof. unfold cnt. rewrite filter_cons. by case_decide as E; destruct (f x). Qed.

Lemma cnt_app {A} f (l k : list A) : cnt f (l ++ k) = (cnt f l + cnt f k)%nat.
Proof. unfold cnt. by rewrite filter_app, length_app. Qed.

Lemma cnt_one {A} f (x : A) : cnt f [x] = if f x then 1%nat else 0%nat.
Proof. rewrite cnt_cons. cbn. by case_match. Qed.

Lemma cnt_zero {A} f (l : list A) : cnt f l = 0%nat <-> Forall (fun x => f x = false) l.
Proof.
  induction l as [|x l IH]; [done|]. rewrite cnt_cons, Forall_cons, <- IH.
  destruct (f x); split; intros; try lia; tauto || naive_solver.
Qed.

Definition is_read (t : io_task) : bool :=
  match t with IoStartRead | IoReadBody _ | IoHandleRead _ _ => true | _ => false end.
Definition is_wrote (t : io_task) : bool := match t with IoHandleWrite _ => true | _ => false end.
Definition is_wrote_ok (t : io_task) : bool := match t with IoHandleWrite None => true | _ => false end.
Definition is_dispatch (t : io_task) : bool := match t with IoDispatch => true | _ => false end.
Definition is_connect (t : wk_task) : bool := match t with WkConnect => true | _ => false end.
Definition is_disconnect (t : wk_task) : bool := match t with WkDisconnect => true | _ => false end.
Definition calls_disconnect (c : listener_call) : bool := match c with OnDisconnect => true | _ => false end.

Lemma cnt_nil {A} (f : A -> bool) : cnt f [] = 0%nat.
Proof. done. Qed.

Ltac cnts := rewrite ?cnt_cons, ?cnt_app, ?cnt_one, ?cnt_nil in *; cbn [is_read is_wrote is_wrote_ok is_dispatch
  is_connect is_disconnect calls_disconnect] in *.

Lemma cnt_chunks f (ls : list (list bytes)) : (forall ms, f (WkChunk ms) = false) -> cnt f (WkChunk <$> ls) = 0%nat.
Proof. intros Hf. apply cnt_zero. apply Forall_fmap, Forall_true. intros ms. apply Hf. Qed.

(** ** Chunks *)

Lemma chunks_spec fuel batch :
  (length batch <= fuel)%nat ->
  concat (chunks fuel batch) = batch /\ Forall (fun c => c <> [] /\ (length c <= MaxBatchSize)%nat) (chunks fuel batch).
Proof.
  revert batch. induction fuel as [|fuel IH]; intros [|m batch] Hf; cbn [chunks length] in *; try (by split); [lia|].
  destruct (IH (drop MaxBatchSize (m :: batch))) as [E1 E2]; [rewrite length_drop; cbn; lia|].
  split.
  - cbn [concat]. rewrite E1. apply take_drop.
  - constructor; [|done]. split; [done|]. rewrite length_take. lia.
Qed.

(** ** The reading half *)

Section facts.
Context (proto : protocol) `{!ProtocolLaws proto}.

Definition reading_tokens (u : auser) : nat :=
  (cnt is_connect (au_wk u) + cnt is_read (au_io u) + match au_rd u with Some _ => 1 | None => 0 end)%nat.

Definition body_ok (header : bytes) : Prop :=
  size_of header = headerSize proto /\ 0 < bodySize proto (Some header) <= MaxBodySize proto.

Definition task_ok (rest : bytes) (t : io_task) : Prop :=
  match t with
  | IoStartRead => rest = []
  | IoReadBody (inl h) => size_of h = headerSize proto /\ rest = h
  | IoReadBody (inr _) => rest = []
  | IoHandleRead h (inl b) => body_ok h /\ size_of b = bodySize proto (Some h) /\ rest = h ++ b
  | IoHandleRead h (inr _) => body_ok h /\ rest = h
  | _ => True
  end.

Definition op_ok (rest : bytes) (op : read_op) : Prop :=
  match op with
  | RdHeader => rest = []
  | RdBody h n => body_ok h /\ n = bodySize proto (Some h) /\ rest = h
  end.

Record read_inv (u : auser) : Prop := {
  ri_tokens : (reading_tokens u <= 1)%nat;
  ri_tasks : Forall (task_ok (tr_rest (au_tr u))) (au_io u);
  ri_op : forall op, au_rd u = Some op -> op_ok (tr_rest (au_tr u)) op;
  ri_connect : (0 < cnt is_connect (au_wk u))%nat -> tr_rest (au_tr u) = [];
  ri_stream : tr_in (au_tr u) = concat (tr_frames (au_tr u)) ++ tr_rest (au_tr u);
  ri_frames : Forall (is_frame proto) (tr_frames (au_tr u));
}.

Lemma tasks_any rest l : cnt is_read l = 0%nat -> Forall (task_ok rest) l.
Proof.
  intros Hl%cnt_zero. eapply Forall_impl; [exact Hl|]. by intros [| [|] | ? [|] | | |].
Qed.

(** Steps that concern neither reading nor the strands' reading tasks. *)
Lemma read_inv_same u u' :
  au_rd u' = au_rd u -> au_tr u' = au_tr u \/
    (tr_in (au_tr u') = tr_in (au_tr u) /\ tr_rest (au_tr u') = tr_rest (au_tr u) /\ tr_frames (au_tr u') = tr_frames (au_tr u)) ->
  cnt is_connect (au_wk u') = cnt is_connect (au_wk u) -> cnt is_read (au_io u') = cnt is_read (au_io u) ->
  Forall (task_ok (tr_rest (au_tr u'))) (au_io u') -> read_inv u -> read_inv u'.
Proof.
  intros Hrd Htr Hwk Hio Hf [H1 H2 H3 H4 H5 H6].
  assert (tr_in (au_tr u') = tr_in (au_tr u) /\ tr_rest (au_tr u') = tr_rest (au_tr u) /\
    tr_frames (au_tr u') = tr_frames (au_tr u)) as (E1 & E2 & E3) by (destruct Htr as [->|?]; auto).
  unfold reading_tokens in *. split; unfold reading_tokens; rewrite ?Hrd, ?Hwk, ?Hio, ?E1, ?E2, ?E3 in *; done.
Qed.

Lemma handle_error_read u : read_inv u -> read_inv (handle_error u).
Proof.
  intros H. unfold handle_error, try_stop. destruct (au_stop u); [done|].
  apply (read_inv_same u); cbn; try done; [by left|cnts; lia|apply H].
Qed.

Lemma on_error_read e u : read_inv u -> read_inv (on_error e u).
Proof. intros H. destruct e; cbn; [done|by apply handle_error_read..]. Qed.

Lemma set_rd_read op u :
  read_inv u -> reading_tokens u = 0%nat -> op_ok (tr_rest (au_tr u)) op -> read_inv (set_rd u (Some op)).
Proof.
  intros [H1 H2 H3 H4 H5 H6] Ht Ho. unfold reading_tokens in *.
  split; unfold reading_tokens; cbn; try done; [destruct (au_rd u); lia|by intros ? [= <-]].
Qed.

Lemma read_header_read u :
  read_inv u -> reading_tokens u = 0%nat -> tr_rest (au_tr u) = [] -> read_inv (read_header u).
Proof. intros H Ht Hr. unfold read_header. case_if; [done|]. by apply set_rd_read. Qed.

Lemma saw_frame_read m u :
  read_inv u -> reading_tokens u = 0%nat -> tr_rest (au_tr u) = m -> is_frame proto m -> read_inv (saw_frame m u).
Proof.
  intros [H1 H2 H3 H4 H5 H6] Ht Hr Hm. unfold reading_tokens in *. split; unfold reading_tokens; cbn; try done.
  - apply tasks_any. lia.
  - intros op Hop. rewrite Hop in Ht. lia.
  - rewrite concat_app. cbn. by rewrite !app_nil_r, H5, Hr.
  - apply Forall_app. by split; [|constructor].
Qed.

Lemma schedule_read u :
  read_inv u -> read_inv (schedule_dispatch u) /\ reading_tokens (schedule_dispatch u) = reading_tokens u /\
    tr_rest (au_tr (schedule_dispatch u)) = tr_rest (au_tr u).
Proof.
  intros H. unfold schedule_dispatch. case_if; [done|]. unfold reading_tokens. cbn. cnts. split_and!; [|lia|done].
  apply (read_inv_same u); cbn; try done; [by left|cnts; lia|].
  apply Forall_app. split; [apply H|by constructor].
Qed.

Lemma handle_read_read now m u :
  read_inv u -> reading_tokens u = 0%nat -> tr_rest (au_tr u) = m -> is_frame proto m ->
  read_inv (handle_read proto now m u).
Proof.
  intros H Ht Hr Hm. unfold handle_read. case_if; [done|].
  pose proof (saw_frame_read m u H Ht Hr Hm) as H1. set (u1 := saw_frame m u) in *.
  assert (reading_tokens u1 = 0%nat /\ tr_rest (au_tr u1) = []) as [Ht1 Hr1] by done. clearbody u1.
  set (u2 := if au_server u1 then _ else _).
  assert (read_inv u2 /\ reading_tokens u2 = 0%nat /\ tr_rest (au_tr u2) = []) as (H2 & Ht2 & Hr2).
  { unfold u2. case_if; [|done]. split_and!; [|done..]. apply (read_inv_same u1); try done; [by left|apply H1]. }
  clearbody u2. case_if; [|by apply read_header_read]. case_if; [|by apply read_header_read].
  set (u3 := saw_taken m _).
  assert (read_inv u3) as H3 by (apply (read_inv_same u2); try done; [by right|apply H2]).
  destruct (schedule_read u3 H3) as (H4 & Ht4 & Hr4). apply read_header_read; [done|by rewrite Ht4|by rewrite Hr4].
Qed.

Lemma frame_of_body h b : body_ok h -> size_of b = bodySize proto (Some h) -> is_frame proto (h ++ b).
Proof.
  intros [Hh Hb] Hs. unfold is_frame. rewrite body_of_header by done. rewrite size_of_app. lia.
Qed.

Lemma read_body_read now h u :
  read_inv u -> reading_tokens u = 0%nat -> tr_rest (au_tr u) = h -> size_of h = headerSize proto ->
  read_inv (read_body proto now h u).
Proof.
  intros H Ht Hr Hh. unfold read_body. case_if; [done|].
  destruct (Z.ltb_spec (MaxBodySize proto) (bodySize proto (Some h))); [by apply handle_error_read|].
  destruct (Z.ltb_spec 0 (bodySize proto (Some h))).
  - apply set_rd_read; [done..|]. split_and!; done.
  - apply handle_read_read; try done. pose proof (body_range (Some h)) as [? _]. unfold is_frame. split_and!; lia.
Qed.

(** Writing leaves reading alone. *)
Definition reading_part (u : auser) : option read_op * list wk_task * list io_task * bytes * bytes * list bytes :=
  (au_rd u, au_wk u, au_io u, tr_in (au_tr u), tr_rest (au_tr u), tr_frames (au_tr u)).

Lemma read_inv_part u u' : reading_part u' = reading_part u -> read_inv u -> read_inv u'.
Proof.
  unfold reading_part. intros [= E1 E2 E3 E4 E5 E6] H. apply (read_inv_same u); try congruence; [by right|].
  rewrite E3, E5. apply H.
Qed.

Lemma do_write_part u : reading_part (do_write u) = reading_part u.
Proof. unfold do_write. by repeat case_match. Qed.

Lemma write_data_part m u : reading_part (write_data m u) = reading_part u.
Proof. unfold write_data. repeat case_match; rewrite ?do_write_part; done. Qed.

Lemma handle_write_part now u : reading_part (handle_write now u) = reading_part u.
Proof. unfold handle_write. repeat case_match; rewrite ?do_write_part; done. Qed.

Lemma dispatch_read u : read_inv u -> read_inv (dispatch u).
Proof.
  intros H. apply (read_inv_same u); cbn; try done; [by left| |apply H]. rewrite cnt_app, cnt_chunks by done. lia.
Qed.

(** Taking the first task of the strand. *)
Lemma take_io_read u t ts :
  read_inv u -> au_io u = t :: ts ->
  read_inv (set_io u ts) /\ task_ok (tr_rest (au_tr u)) t /\ (is_read t = true -> reading_tokens (set_io u ts) = 0%nat).
Proof.
  intros [H1 H2 H3 H4 H5 H6] E. rewrite E in *. unfold reading_tokens in *. cbn [set_io au_wk au_io au_rd].
  rewrite E, cnt_cons in H1. apply Forall_cons in H2 as [? ?]. split_and!; [|done|].
  - split; unfold reading_tokens; cbn; try done. lia.
  - intros Hr. rewrite Hr in H1. lia.
Qed.

Lemma run_io_read now t u ts :
  read_inv u -> au_io u = t :: ts -> read_inv (run_io proto now t (set_io u ts)).
Proof.
  intros H E. destruct (take_io_read u t ts H E) as (H1 & Ht & Hr).
  destruct t as [|[h|e]|h [b|e]| |m|[e|]]; cbn [run_io task_ok is_read] in *.
  - set (v := set_au_hb _ _). assert (read_inv v) as Hv by (apply (read_inv_part (set_io u ts)); done).
    apply read_header_read; [done|by apply Hr|done].
  - destruct Ht as [Hs Ht]. apply read_body_read; auto.
  - by apply on_error_read.
  - destruct Ht as (Hb & Hs & Ht). apply handle_read_read; auto. by apply frame_of_body.
  - by apply on_error_read.
  - by apply dispatch_read.
  - eapply read_inv_part; [apply write_data_part|done].
  - by apply on_error_read.
  - eapply read_inv_part; [apply handle_write_part|done].
Qed.

Lemma run_wk_read t u ts :
  read_inv u -> au_wk u = t :: ts -> read_inv (run_wk t (set_wk u ts)).
Proof.
  intros [H1 H2 H3 H4 H5 H6] E. unfold reading_tokens in *. rewrite E in *. cnts.
  destruct t; cbn [run_wk is_connect] in *; split; unfold reading_tokens; cbn; cnts; try done; try lia; auto.
  apply Forall_app. split; [done|]. constructor; [apply H4; lia|done].
Qed.

Lemma post_io_read u t : is_read t = false -> read_inv u -> read_inv (post_io u t).
Proof.
  intros Ht H. apply (read_inv_same u); cbn; try done; [by left|cnts; rewrite Ht; lia|].
  apply Forall_app. split; [apply H|]. apply tasks_any. by rewrite cnt_one, Ht.
Qed.

Lemma ustep_read u u' : ustep proto u u' -> read_inv u -> read_inv u'.
Proof.
  intros Hs H. destruct Hs as [u t ts now E|u t ts E|u op d Ho Hd|u op e Ho He|u m Hw|u m k e Hw He|u now|u m|u].
  - by apply run_io_read.
  - by apply run_wk_read.
  - destruct H as [H1 H2 H3 H4 H5 H6]. unfold reading_tokens in *. rewrite Ho in *. specialize (H3 _ eq_refl).
    assert (cnt is_read (au_io u) = 0%nat /\ cnt is_connect (au_wk u) = 0%nat) as [Hi Hc] by lia.
    split; unfold reading_tokens; cbn; cnts; try done; try lia.
    + destruct op; cbn [read_task is_read]; lia.
    + apply Forall_app. split; [by apply tasks_any|]. constructor; [|done].
      destruct op as [|h n]; cbn in H3 |- *; [by rewrite H3|]. destruct H3 as (Hb & -> & ->). split_and!; [done..|].
      cbn [read_size] in Hd. done.
    + by rewrite H5, app_assoc.
  - destruct H as [H1 H2 H3 H4 H5 H6]. unfold reading_tokens in *. rewrite Ho in *. specialize (H3 _ eq_refl).
    split; unfold reading_tokens; cbn; cnts; try done.
    + destruct op; cbn [read_task is_read]; lia.
    + apply Forall_app. split; [done|]. constructor; [|done].
      destruct op as [|h n]; cbn in H3 |- *; [done|]. by destruct H3 as (Hb & -> & ->).
  - apply post_io_read; [done|]. by apply (read_inv_part u).
  - apply post_io_read; [done|]. by apply (read_inv_part u).
  - unfold on_tick, try_stop. repeat case_match; try done; [by apply (read_inv_part u)|by apply post_io_read].
  - by apply post_io_read.
  - unfold stop, try_stop. case_if; [done|]. by apply (read_inv_part u).
Qed.

(** ** The writing half *)

Definition writing_tokens (u : auser) : nat :=
  (cnt is_wrote (au_io u) + match au_wr u with Some _ => 1 | None => 0 end)%nat.

(** What is waiting: the front message is done while [handle_write] is pending. *)
Definition unsent (u : auser) : list bytes :=
  match cnt is_wrote_ok (au_io u) with O => au_writeQ u | _ => tail (au_writeQ u) end.

(** The last write failed after [k] bytes. *)
Definition write_failed (u : auser) : Prop :=
  exists m q k, au_writeQ u = m :: q /\ tr_wire (au_tr u) = concat (tr_sent (au_tr u)) ++ take k m /\
    au_wr u = None /\ cnt is_wrote_ok (au_io u) = 0%nat /\ (au_stop u = true \/ cnt is_wrote (au_io u) = 1%nat).

Record write_core (u : auser) : Prop := {
  wi_tokens : (writing_tokens u <= 1)%nat;
  wi_front : forall m, au_wr u = Some m -> exists q, au_writeQ u = m :: q;
  wi_wrote : (0 < cnt is_wrote (au_io u))%nat -> au_writeQ u <> [];
  wi_acc : tr_acc (au_tr u) = tr_sent (au_tr u) ++ unsent u;
  wi_abort : IoHandleWrite (Some EcAborted) ∈ au_io u -> au_stop u = true;
  wi_wire : tr_wire (au_tr u) = concat (tr_sent (au_tr u)) \/ write_failed u;
}.

(** Waiting messages are being written. *)
Definition busy (u : auser) : Prop :=
  au_writeQ u <> [] -> au_stop u = true \/ writing_tokens u = 1%nat.
Definition write_inv (u : auser) : Prop := write_core u /\ busy u.

Lemma wrote_ok_le l : (cnt is_wrote_ok l <= cnt is_wrote l)%nat.
Proof. induction l as [|t l IH]; [done|]. cnts. destruct t as [| | | | |[e|]]; cbn [is_wrote is_wrote_ok]; lia. Qed.

(** Nothing about writing changes, except that the connection may stop. *)
Record write_same (u u' : auser) : Prop := {
  ws_q : au_writeQ u' = au_writeQ u;
  ws_wr : au_wr u' = au_wr u;
  ws_io : exists l, au_io u' = au_io u ++ l /\ cnt is_wrote l = 0%nat;
  ws_acc : tr_acc (au_tr u') = tr_acc (au_tr u);
  ws_sent : tr_sent (au_tr u') = tr_sent (au_tr u);
  ws_wire : tr_wire (au_tr u') = tr_wire (au_tr u);
  ws_stop : au_stop u = true -> au_stop u' = true;
}.

Lemma write_same_refl u : write_same u u.
Proof. split; try done. exists []. by rewrite app_nil_r. Qed.

Lemma write_same_trans u v w : write_same u v -> write_same v w -> write_same u w.
Proof.
  intros [A1 A2 [l1 [A3 A3']] A4 A5 A6 A7] [B1 B2 [l2 [B3 B3']] B4 B5 B6 B7].
  split; [congruence..| |congruence|congruence|congruence|auto].
  exists (l1 ++ l2). rewrite B3, A3, app_assoc. cnts. by rewrite A3', B3'.
Qed.

Lemma write_inv_same u u' : write_same u u' -> write_inv u -> write_inv u'.
Proof.
  intros [E1 E2 (l & E3 & El) E4 E5 E6 E7] [[H1 H2 H3 H4 H6 H7] H5].
  pose proof (wrote_ok_le l). unfold busy, writing_tokens, unsent, write_failed in *.
  split; [split|]; unfold busy, writing_tokens, unsent, write_failed; rewrite ?E1, ?E2, ?E3, ?E4, ?E5, ?E6 in *; cnts;
    rewrite ?El in *; replace (cnt is_wrote_ok l) with 0%nat in * by lia; rewrite ?Nat.add_0_r in *; try done.
  - intros [Hin|Hin]%elem_of_app; [auto|].
    assert (Forall (fun t => is_wrote t = false) l) as Hl by (by apply cnt_zero).
    rewrite Forall_forall in Hl. by apply Hl in Hin.
  - destruct H7 as [?|(m & q & k & ? & ? & ? & ? & [?|?])]; [by left|..]; right; exists m, q, k; split_and!; auto.
  - intros Hq. destruct (H5 Hq); auto.
Qed.

(** *** The reading functions do not write *)

Ltac write_same_tac :=
  split; cbn; try done; try (eexists; split; [reflexivity|done]);
  try (exists []; rewrite app_nil_r; done).

Lemma handle_error_write u : write_same u (handle_error u).
Proof. unfold handle_error, try_stop. case_if; [apply write_same_refl|write_same_tac]. Qed.

Lemma read_header_write u : write_same u (read_header u).
Proof. unfold read_header. case_if; [apply write_same_refl|write_same_tac]. Qed.

Lemma schedule_write u : write_same u (schedule_dispatch u).
Proof. unfold schedule_dispatch. case_if; [apply write_same_refl|write_same_tac]. Qed.

Lemma handle_read_write now m u : write_same u (handle_read proto now m u).
Proof.
  unfold handle_read. case_if; [apply write_same_refl|].
  eapply write_same_trans; [|apply read_header_write].
  set (u2 := if au_server (saw_frame m u) then _ else _).
  assert (write_same u u2) as H2 by (unfold u2; case_if; write_same_tac). clearbody u2.
  repeat case_if; try done. eapply write_same_trans; [exact H2|].
  eapply write_same_trans; [|apply schedule_write]. write_same_tac.
Qed.

Lemma read_body_write now h u : write_same u (read_body proto now h u).
Proof.
  unfold read_body. case_if; [apply write_same_refl|].
  repeat case_if; [apply handle_error_write|write_same_tac|apply handle_read_write].
Qed.

Lemma on_error_write e u : write_same u (on_error e u).
Proof. destruct e; [apply write_same_refl|apply handle_error_write..]. Qed.

Lemma dispatch_write u : write_same u (dispatch u).
Proof. write_same_tac. Qed.

Lemma run_wk_write t ts u : write_same u (run_wk t (set_wk u ts)).
Proof. destruct t; write_same_tac. Qed.

(** *** The writing functions *)

Lemma do_write_inv u : write_core u -> writing_tokens u = 0%nat -> write_inv (do_write u).
Proof.
  intros H Ht. unfold do_write. destruct (au_writeQ u) as [|m q] eqn:Eq; [split; [done|by intros []]|].
  destruct (au_stop u) eqn:Es; [split; [done|by left]|]. destruct H as [H1 H2 H3 H4 H6 H7].
  unfold writing_tokens, write_failed, unsent in *. split.
  - split; unfold writing_tokens, write_failed, unsent; cbn; rewrite ?Eq, ?Es in *; try done.
    + destruct (au_wr u); lia.
    + intros ? [= <-]. eauto.
    + destruct H7 as [?|(m' & q' & k & ? & ? & ? & ? & [?|?])]; [by left|done|]. lia.
  - intros _. right. unfold writing_tokens. cbn. destruct (au_wr u); lia.
Qed.

Lemma write_data_inv m u : write_inv u -> write_inv (write_data m u).
Proof.
  intros [H Hb]. unfold write_data. case_if; [|done]. set (u1 := saw_accepted _ _).
  assert (cnt is_wrote (au_io u) = 0%nat \/ au_writeQ u <> []) as Hq.
  { pose proof (wi_wrote _ H). destruct (cnt is_wrote (au_io u)); [by left|right; auto with lia]. }
  assert (write_core u1) as H1.
  { destruct H as [H1 H2 H3 H4 H6 H7]. pose proof (wrote_ok_le (au_io u)). unfold writing_tokens, unsent, write_failed in *.
    split; unfold writing_tokens, unsent, write_failed; cbn; try done.
    - intros x Hx. destruct (H2 x Hx) as [q ->]. by eexists.
    - intros _. by destruct (au_writeQ u).
    - rewrite H4, <- app_assoc. f_equal. destruct (cnt is_wrote_ok (au_io u)) eqn:Ec; [done|].
      destruct (au_writeQ u) eqn:Eq; [|done]. by destruct (H3 ltac:(lia)).
    - destruct H7 as [?|(m' & q & k & Eq & ? & ? & ? & ?)]; [by left|]. right. exists m', (q ++ [m]), k.
      by rewrite Eq. }
  destruct (au_writeQ u) as [|x q] eqn:Eq.
  - apply do_write_inv; [done|]. unfold writing_tokens in *. cbn. destruct (au_wr u) as [y|] eqn:Ew.
    + destruct (wi_front _ H y Ew) as [? ?]. congruence.
    + destruct Hq; [lia|done].
  - split; [done|]. intros _. apply Hb. by rewrite Eq.
Qed.

Lemma handle_write_inv now u ts :
  write_inv u -> au_io u = IoHandleWrite None :: ts -> write_inv (handle_write now (set_io u ts)).
Proof.
  intros [[H1 H2 H3 H4 H6 H7] Hb] E. pose proof (wrote_ok_le ts) as Hle. unfold writing_tokens, unsent, write_failed in *.
  rewrite E in *. cnts. destruct (au_wr u) eqn:Ew; [lia|]. assert (cnt is_wrote ts = 0%nat) as E0 by lia.
  assert (cnt is_wrote_ok ts = 0%nat) as E1 by lia. rewrite E0, E1 in *. cbn [Nat.add] in *.
  destruct H7 as [H7|(? & ? & ? & ? & ? & ? & ? & ?)]; [|done].
  destruct (au_writeQ u) as [|m q] eqn:Eq; [by destruct (H3 ltac:(lia))|].
  unfold handle_write. cbn [set_io au_writeQ]. rewrite Eq. cbn [set_writeQ au_server set_io].
  set (u1 := if au_server u then _ else _).
  assert (write_core u1 /\ au_writeQ u1 = q /\ writing_tokens u1 = 0%nat) as (Hc & Eq1 & Ht).
  { assert (forall b h, let v := MkAUser b (au_stop u) (au_pending u) (au_readQ u) q h ts (au_wk u) (au_rd u)
      (au_wr u) (au_tr u) in write_core v /\ au_writeQ v = q /\ writing_tokens v = 0%nat) as Hv.
    { intros b h v. unfold v, writing_tokens. cbn. rewrite Ew, E0. split; [|done].
      split; unfold writing_tokens, unsent, write_failed; cbn; rewrite ?E0, ?E1; try done; try lia.
      - intros Hin. apply H6. by right.
      - by left. }
    unfold u1. destruct (au_server u) eqn:Eb; [exact (Hv _ (au_hb u))|exact (Hv _ (hb_update now (au_hb u)))]. }
  clearbody u1. destruct (au_writeQ u1) eqn:Eu; [split; [done|by intros []]|].
  destruct (au_stop u1) eqn:Es; [split; [done|by left]|]. by apply do_write_inv.
Qed.

Lemma take_io_write u t ts :
  write_inv u -> au_io u = t :: ts -> is_wrote t = false -> write_inv (set_io u ts).
Proof.
  intros [[H1 H2 H3 H4 H6 H7] Hb] E Ht. assert (is_wrote_ok t = false) as Ht' by (by destruct t).
  unfold busy, writing_tokens, unsent, write_failed in *. rewrite E, ?cnt_cons, Ht, Ht' in *.
  split; [split|]; unfold busy, writing_tokens, unsent, write_failed; cbn; try done.
  intros Hin. apply H6. by right.
Qed.

Lemma failed_write u ts e :
  write_inv u -> au_io u = IoHandleWrite (Some e) :: ts -> write_inv (on_error e (set_io u ts)).
Proof.
  intros [[H1 H2 H3 H4 H6 H7] Hb] E. pose proof (wrote_ok_le ts) as Hle. unfold writing_tokens, unsent, write_failed, busy in *.
  rewrite E in *. cnts. destruct (au_wr u) eqn:Ew; [lia|]. assert (cnt is_wrote ts = 0%nat) as E0 by lia.
  assert (cnt is_wrote_ok ts = 0%nat) as E1 by lia. rewrite E0, E1 in *. cbn [Nat.add] in *.
  set (v := on_error e (set_io u ts)).
  assert (au_stop v = true /\ write_same (set_io u ts) v /\ cnt is_wrote (au_io v) = 0%nat) as (Hs & [W1 W2 W3 W4 W5 W6 W7] & Hio).
  { split_and!; [|apply on_error_write|].
    - unfold v. destruct e; cbn; [apply H6; by left|unfold handle_error, try_stop; cbn; by destruct (au_stop u) eqn:?..].
    - unfold v. destruct e; cbn; [done|unfold handle_error, try_stop; cbn; by destruct (au_stop u)..]. }
  pose proof (wrote_ok_le (au_io v)). unfold busy.
  split; [split|]; unfold busy, writing_tokens, unsent, write_failed; rewrite ?W1, ?W2, ?W4, ?W5, ?W6, ?Hio in *;
    cbn [set_io au_writeQ au_wr au_tr] in *; rewrite ?Ew in *; replace (cnt is_wrote_ok (au_io v)) with 0%nat by lia;
    try done; try lia; auto.
  destruct H7 as [H7|(m' & q & k & ? & ? & ? & ? & ?)]; [by left|right]. exists m', q, k. auto 6.
Qed.

Lemma ustep_write u u' : ustep proto u u' -> write_inv u -> write_inv u'.
Proof.
  intros Hs H. destruct Hs as [u t ts now E|u t ts E|u op d Ho Hd|u op e Ho He|u m Hw|u m k e Hw He|u now|u m|u].
  - destruct t as [|[h|e]|h [b|e]| |m|[e|]]; cbn [run_io]; try (by apply failed_write); try (by apply handle_write_inv);
      pose proof (take_io_write _ _ _ H E eq_refl) as H1; clear H E.
    + eapply write_inv_same; [|exact H1]. eapply write_same_trans; [|apply read_header_write]. write_same_tac.
    + eapply write_inv_same; [apply read_body_write|done].
    + eapply write_inv_same; [apply on_error_write|done].
    + eapply write_inv_same; [apply handle_read_write|done].
    + eapply write_inv_same; [apply on_error_write|done].
    + eapply write_inv_same; [apply dispatch_write|done].
    + by apply write_data_inv.
  - eapply write_inv_same; [apply run_wk_write|done].
  - eapply write_inv_same; [|exact H]. destruct op; write_same_tac.
  - eapply write_inv_same; [|exact H]. destruct op; write_same_tac.
  - destruct H as [[H1 H2 H3 H4 H6 H7] Hb]. unfold writing_tokens, unsent, write_failed, busy in *. rewrite Hw in *.
    assert (cnt is_wrote (au_io u) = 0%nat) as E0 by lia. assert (cnt is_wrote_ok (au_io u) = 0%nat) as E1 by (pose proof (wrote_ok_le (au_io u)); lia).
    destruct (H2 m eq_refl) as [q Eq].
    split; [split|]; unfold busy, writing_tokens, unsent, write_failed; cbn; cnts; rewrite ?E0, ?E1, ?Eq in *; try done; try lia; auto.
    + cbn. by rewrite H4, <- app_assoc.
    + intros [Hin|Hin]%elem_of_app; [auto|]. by apply list_elem_of_singleton in Hin.
    + left. destruct H7 as [->|(? & ? & ? & ? & ? & ? & ?)]; [|done]. rewrite concat_app. cbn. by rewrite app_nil_r.
  - destruct H as [[H1 H2 H3 H4 H6 H7] Hb]. unfold writing_tokens, unsent, write_failed, busy in *. rewrite Hw in *.
    assert (cnt is_wrote (au_io u) = 0%nat) as E0 by lia. assert (cnt is_wrote_ok (au_io u) = 0%nat) as E1 by (pose proof (wrote_ok_le (au_io u)); lia).
    destruct (H2 m eq_refl) as [q Eq].
    split; [split|]; unfold busy, writing_tokens, unsent, write_failed; cbn; cnts; rewrite ?E0, ?E1, ?Eq in *; try done; try lia; auto.
    + cbn. by rewrite H4, app_nil_r.
    + intros [Hin|Hin]%elem_of_app; [auto|]. apply list_elem_of_singleton in Hin. injection Hin as <-. auto.
    + right. exists m, q, k. destruct H7 as [->|(? & ? & ? & ? & ? & ? & ?)]; [|done]. rewrite app_nil_r. auto 6.
  - eapply write_inv_same; [|exact H]. unfold on_tick, try_stop. repeat case_match; try apply write_same_refl; write_same_tac.
  - eapply write_inv_same; [|exact H]. write_same_tac.
  - eapply write_inv_same; [|exact H]. unfold stop, try_stop. case_if; [apply write_same_refl|write_same_tac].
Qed.

(** ** Delivery *)

Definition received (l : list listener_call) : list bytes :=
  omap (fun c => match c with OnRecvMsg m => Some m | _ => None end) l.
Definition waiting (l : list wk_task) : list bytes :=
  l ≫= fun t => match t with WkChunk ms => ms | _ => [] end.
Definition content_msgs (ms : list bytes) : list bytes := filter (fun m => isHeartbeat proto (Some m) = false) ms.

#[local] Arguments waiting : simpl never.
#[local] Arguments received : simpl never.
#[local] Arguments content_msgs : simpl never.

Record deliver_inv (u : auser) : Prop := {
  di_order : received (tr_log (au_tr u)) ++ waiting (au_wk u) ++ au_readQ u = tr_taken (au_tr u);
  di_taken : tr_taken (au_tr u) `sublist_of` content_msgs (tr_frames (au_tr u));
  di_pending : cnt is_dispatch (au_io u) = if au_pending u then 1%nat else 0%nat;
  di_idle : au_pending u = false -> au_readQ u = [];
  di_bound : size_of (au_readQ u) <= MaxRdQueueSize;
}.

Lemma received_app l k : received (l ++ k) = received l ++ received k.
Proof. apply omap_app. Qed.
Lemma received_msgs ms : received (OnRecvMsg <$> ms) = ms.
Proof. unfold received. induction ms as [|m ms IH]; [done|]. cbn. by f_equal. Qed.
Lemma waiting_app l k : waiting (l ++ k) = waiting l ++ waiting k.
Proof. unfold waiting. by rewrite bind_app. Qed.
Lemma waiting_disconnect : waiting [WkDisconnect] = [].
Proof. done. Qed.
Lemma waiting_chunks ls : waiting (WkChunk <$> ls) = concat ls.
Proof. unfold waiting. induction ls as [|l ls IH]; [done|]. cbn. by f_equal. Qed.

(** Nothing about delivering changes. *)
Record deliver_same (u u' : auser) : Prop := {
  ds_q : au_readQ u' = au_readQ u;
  ds_pending : au_pending u' = au_pending u;
  ds_taken : tr_taken (au_tr u') = tr_taken (au_tr u);
  ds_frames : tr_frames (au_tr u') = tr_frames (au_tr u);
  ds_log : tr_log (au_tr u') = tr_log (au_tr u);
  ds_wk : waiting (au_wk u') = waiting (au_wk u);
  ds_io : cnt is_dispatch (au_io u') = cnt is_dispatch (au_io u);
}.

Lemma deliver_inv_same u u' : deliver_same u u' -> deliver_inv u -> deliver_inv u'.
Proof.
  intros [E1 E2 E3 E4 E5 E6 E7] [H1 H2 H3 H4 H5].
  split; rewrite ?E1, ?E2, ?E3, ?E4, ?E5, ?E6, ?E7; done.
Qed.

Lemma deliver_same_refl u : deliver_same u u.
Proof. done. Qed.

Ltac deliver_tac := split; cbn; rewrite ?waiting_app, ?waiting_disconnect, ?app_nil_r; cnts; (done || lia).

Lemma handle_error_deliver u : deliver_same u (handle_error u).
Proof. unfold handle_error, try_stop. case_if; [done|deliver_tac]. Qed.

Lemma on_error_deliver e u : deliver_same u (on_error e u).
Proof. destruct e; [done|apply handle_error_deliver..]. Qed.

Lemma read_header_deliver u : deliver_same u (read_header u).
Proof. unfold read_header. case_if; [done|deliver_tac]. Qed.

Lemma write_deliver m u : deliver_same u (write_data m u).
Proof. unfold write_data, do_write. repeat case_match; try done; deliver_tac. Qed.

Lemma handle_write_deliver now u : deliver_same u (handle_write now u).
Proof. unfold handle_write, do_write. repeat case_match; try done; deliver_tac. Qed.

Lemma handle_read_deliver now m u : deliver_inv u -> deliver_inv (handle_read proto now m u).
Proof.
  intros H. unfold handle_read. case_if; [done|]. eapply deliver_inv_same; [apply read_header_deliver|].
  set (u2 := if au_server (saw_frame m u) then _ else _).
  assert (deliver_same u (set_tr u2 (au_tr u)) /\ tr_taken (au_tr u2) = tr_taken (au_tr u) /\
    tr_log (au_tr u2) = tr_log (au_tr u) /\ tr_frames (au_tr u2) = tr_frames (au_tr u) ++ [m])
    as ([E1 E2 _ _ _ E6 E7] & E3 & E5 & E4) by (unfold u2; case_if; by split_and!; [deliver_tac|..]).
  cbn [set_tr au_readQ au_pending au_wk au_io] in *. clearbody u2. destruct H as [H1 H2 H3 H4 H5].
  assert (content_msgs (tr_frames (au_tr u2)) =
    content_msgs (tr_frames (au_tr u)) ++ (if isHeartbeat proto (Some m) then [] else [m])) as Ef.
  { unfold content_msgs. rewrite E4, filter_app, filter_cons, filter_nil. by case_decide as Ed; destruct (isHeartbeat _ _). }
  assert (deliver_inv u2) as Hu2.
  { split; rewrite ?E1, ?E2, ?E3, ?E5, ?E6, ?E7, ?Ef; try done. by apply sublist_inserts_r. }
  destruct (isHeartbeat proto (Some m)) eqn:Eh; cbn [negb]; [done|].
  destruct (Z.ltb_spec (size_of (au_readQ u2)) MaxRdQueueSize) as [Hlt|]; [|done].
  assert (size_of (au_readQ u2 ++ [m]) <= MaxRdQueueSize) as Hsz by (rewrite size_of_app, size_of_cons, size_of_nil; lia).
  unfold schedule_dispatch. cbn [saw_taken set_readQ set_tr au_pending].
  destruct (au_pending u2) eqn:Ep; split; cbn; cnts; rewrite ?E3, ?E5, ?E6, ?E7, ?Ef, ?E1, <- ?E2 in *; try done;
    try (by rewrite !app_assoc, <- (app_assoc (received _)), H1);
    try (by apply sublist_app); rewrite ?H3, ?Ep; try done; lia.
Qed.

Lemma read_body_deliver now h u : deliver_inv u -> deliver_inv (read_body proto now h u).
Proof.
  intros H. unfold read_body. case_if; [done|].
  repeat case_if; [by eapply deliver_inv_same; [apply handle_error_deliver|]|
    by eapply deliver_inv_same; [|exact H]; deliver_tac|by apply handle_read_deliver].
Qed.

Lemma dispatch_deliver u ts : deliver_inv u -> au_io u = IoDispatch :: ts -> deliver_inv (dispatch (set_io u ts)).
Proof.
  intros [H1 H2 H3 H4 H5] E. rewrite E in H3. cnts. split; cbn; try done.
  - rewrite waiting_app, waiting_chunks. destruct (chunks_spec (length (au_readQ u)) (au_readQ u)) as [-> _]; [lia|].
    by rewrite app_nil_r.
  - destruct (au_pending u); lia.
Qed.

Lemma ustep_deliver u u' : ustep proto u u' -> deliver_inv u -> deliver_inv u'.
Proof.
  intros Hs H. destruct Hs as [u t ts now E|u t ts E|u op d Ho Hd|u op e Ho He|u m Hw|u m k e Hw He|u now|u m|u].
  - destruct (decide (is_dispatch t = true)) as [Ed|Ed].
    { destruct t; try done. by apply dispatch_deliver. }
    assert (deliver_inv (set_io u ts)) as H1.
    { eapply deliver_inv_same; [|exact H]. split; cbn; try done. rewrite E. cnts. by destruct (is_dispatch t). }
    destruct t as [|[h|e]|h [b|e]| |m|[e|]]; cbn [run_io]; try done.
    + eapply deliver_inv_same; [apply read_header_deliver|]. eapply deliver_inv_same; [|exact H1]. done.
    + by apply read_body_deliver.
    + eapply deliver_inv_same; [apply on_error_deliver|done].
    + by apply handle_read_deliver.
    + eapply deliver_inv_same; [apply on_error_deliver|done].
    + eapply deliver_inv_same; [apply write_deliver|done].
    + eapply deliver_inv_same; [apply on_error_deliver|done].
    + eapply deliver_inv_same; [apply handle_write_deliver|done].
  - destruct H as [H1 H2 H3 H4 H5]. rewrite E in H1. change (t :: ts) with ([t] ++ ts) in H1. rewrite waiting_app in H1.
    destruct t as [|ms|]; cbn in H1; rewrite ?app_nil_r in H1; split; cbn; cnts; try done; rewrite ?received_app, ?received_msgs.
    + change (received [OnConnect]) with (@nil bytes). by rewrite app_nil_r.
    + rewrite H3. lia.
    + assert (waiting [WkChunk ms] = ms) as Ems by apply app_nil_r. by rewrite Ems, <- !app_assoc in *.
    + change (received [OnDisconnect]) with (@nil bytes). by rewrite app_nil_r.
  - eapply deliver_inv_same; [|exact H]. destruct op; deliver_tac.
  - eapply deliver_inv_same; [|exact H]. destruct op; deliver_tac.
  - eapply deliver_inv_same; [|exact H]. deliver_tac.
  - eapply deliver_inv_same; [|exact H]. deliver_tac.
  - eapply deliver_inv_same; [|exact H]. unfold on_tick, try_stop. repeat case_match; try done; deliver_tac.
  - eapply deliver_inv_same; [|exact H]. deliver_tac.
  - eapply deliver_inv_same; [|exact H]. unfold stop, try_stop. case_if; [done|deliver_tac].
Qed.

(** ** Call-backs *)

(** What a function of the I/O strand may do to the worker strand: at most one
    [onDisconnect], when it is the one that stops the connection. *)
Definition calls_step (u u' : auser) : Prop :=
  exists l, au_wk u' = au_wk u ++ l /\ cnt is_connect l = 0%nat /\ tr_log (au_tr u') = tr_log (au_tr u) /\
    (au_stop u = true -> au_stop u' = true) /\
    (cnt is_disconnect l = 0%nat \/ cnt is_disconnect l = 1%nat /\ au_stop u = false /\ au_stop u' = true).

Lemma calls_step_none u u' :
  au_wk u' = au_wk u -> tr_log (au_tr u') = tr_log (au_tr u) -> (au_stop u = true -> au_stop u' = true) -> calls_step u u'.
Proof. intros E1 E2 E3. exists []. rewrite app_nil_r. split_and!; [done..|by left]. Qed.

Lemma calls_step_trans u v w : calls_step u v -> calls_step v w -> calls_step u w.
Proof.
  intros (l1 & A1 & A2 & A3 & A4 & A5) (l2 & B1 & B2 & B3 & B4 & B5). exists (l1 ++ l2).
  rewrite B1, A1, app_assoc. cnts. split_and!; [done|lia|congruence|auto|].
  destruct A5 as [A5|(A5 & A6 & A7)], B5 as [B5|(B5 & B6 & B7)]; [left; lia|right|right|].
  - split_and!; [lia| |done]. destruct (au_stop u); [|done]. by rewrite A4 in B6.
  - split_and!; [lia|done|auto].
  - congruence.
Qed.

Lemma handle_error_calls u : calls_step u (handle_error u).
Proof.
  unfold handle_error, try_stop. destruct (au_stop u) eqn:Es; [by apply calls_step_none|].
  exists [WkDisconnect]. cbn. rewrite Es. split_and!; [done..|by right].
Qed.

Lemma on_error_calls e u : calls_step u (on_error e u).
Proof. destruct e; [by apply calls_step_none|apply handle_error_calls..]. Qed.

Lemma handle_read_calls now m u : calls_step u (handle_read proto now m u).
Proof.
  apply calls_step_none; unfold handle_read, read_header, schedule_dispatch; repeat case_match; done.
Qed.

Lemma run_io_calls now t u : calls_step u (run_io proto now t u).
Proof.
  destruct t as [|[h|e]|h [b|e]| |m|[e|]]; cbn [run_io]; try apply on_error_calls; try apply handle_read_calls.
  - unfold read_header. case_if; by apply calls_step_none.
  - unfold read_body. case_if; [by apply calls_step_none|]. case_if; [apply handle_error_calls|].
    case_if; [by apply calls_step_none|apply handle_read_calls].
  - exists (WkChunk <$> chunks (length (au_readQ u)) (au_readQ u)). cbn. rewrite !cnt_chunks by done. split_and!; [done..|by left].
  - apply calls_step_none; unfold write_data, do_write; repeat case_match; done.
  - apply calls_step_none; unfold handle_write, do_write; repeat case_match; done.
Qed.

Definition is_start (t : io_task) : bool := match t with IoStartRead => true | _ => false end.

Record calls_inv (u : auser) : Prop := {
  ci_connect : (exists l, au_wk u = WkConnect :: l /\ tr_log (au_tr u) = [] /\ cnt is_connect l = 0%nat) \/
    (exists l, tr_log (au_tr u) = OnConnect :: l /\ (OnConnect ∉ l) /\ cnt is_connect (au_wk u) = 0%nat);
  ci_once : (cnt is_disconnect (au_wk u) + cnt calls_disconnect (tr_log (au_tr u)) <= 1)%nat;
  ci_stop : (0 < cnt is_disconnect (au_wk u) + cnt calls_disconnect (tr_log (au_tr u)))%nat -> au_stop u = true;
}.

Lemma calls_step_inv u u' : calls_step u u' -> calls_inv u -> calls_inv u'.
Proof.
  intros (l & E1 & E2 & E3 & E4 & E5) [H1 H2 H3]. split; rewrite ?E1, ?E3; cnts.
  - destruct H1 as [(k & Ek & ? & ?)|(k & ? & ? & ?)]; [left; exists (k ++ l)|right; exists k];
      rewrite ?Ek; cnts; split_and!; try done; lia.
  - destruct E5 as [->|(-> & Hs & _)]; [lia|]. destruct (decide (0 < cnt is_disconnect (au_wk u) +
      cnt calls_disconnect (tr_log (au_tr u)))%nat) as [Hp|]; [by rewrite H3 in Hs|lia].
  - intros Hp. destruct E5 as [El|(_ & _ & ?)]; [|done]. rewrite El in Hp. apply E4, H3. lia.
Qed.

Lemma ustep_calls u u' : ustep proto u u' -> calls_inv u -> calls_inv u'.
Proof.
  intros Hs H. destruct Hs as [u t ts now E|u t ts E|u op d Ho Hd|u op e Ho He|u m Hw|u m k e Hw He|u now|u m|u].
  2:{ destruct H as [H1 H2 H3]. rewrite E in *. destruct t as [|ms|]; cbn [run_wk start_read]; split; cbn; cnts; try done; try lia.
      - destruct H1 as [(l & [= <-] & -> & ?)|(l & ? & ? & ?)]; [right|lia]. exists []. split_and!; [done|set_solver|done].
      - intros Hp. apply H3. lia.
      - destruct H1 as [(l & ? & ?)|(l & -> & ? & ?)]; [done|right]. exists (l ++ (OnRecvMsg <$> ms)).
        split_and!; [done| |lia]. intros [?|(m & ? & ?)%list_elem_of_fmap]%elem_of_app; done.
      - replace (cnt calls_disconnect (OnRecvMsg <$> ms)) with 0%nat; [lia|].
        symmetry. apply cnt_zero, Forall_fmap, Forall_true. done.
      - replace (cnt calls_disconnect (OnRecvMsg <$> ms)) with 0%nat; [intros; apply H3; lia|].
        symmetry. apply cnt_zero, Forall_fmap, Forall_true. done.
      - destruct H1 as [(l & ? & ?)|(l & -> & ? & ?)]; [done|right]. exists (l ++ [OnDisconnect]).
        split_and!; [done| |lia]. intros [?|?%list_elem_of_singleton]%elem_of_app; done.
      - intros Hp. apply H3. lia. }
  all: eapply calls_step_inv; [|exact H].
  - eapply calls_step_trans; [|apply run_io_calls]. by apply calls_step_none.
  - by apply calls_step_none.
  - by apply calls_step_none.
  - by apply calls_step_none.
  - by apply calls_step_none.
  - unfold on_tick, try_stop. repeat case_match; by apply calls_step_none.
  - by apply calls_step_none.
  - unfold stop, try_stop. case_if; by apply calls_step_none.
Qed.

(** Stopped without a call of [onDisconnect] to come. *)
Definition silent (u : auser) : Prop :=
  au_stop u = true /\ cnt is_disconnect (au_wk u) = 0%nat /\ (OnDisconnect ∉ tr_log (au_tr u)).

Lemma silent_step u u' : calls_step u u' -> silent u -> silent u'.
Proof.
  intros (l & E1 & E2 & E3 & E4 & E5) (H1 & H2 & H3). unfold silent. rewrite E1, E3. cnts.
  split_and!; [auto| |done]. destruct E5 as [?|(_ & ? & _)]; [lia|congruence].
Qed.

Lemma ustep_silent u u' : ustep proto u u' -> silent u -> silent u'.
Proof.
  intros Hs H. destruct Hs as [u t ts now E|u t ts E|u op d Ho Hd|u op e Ho He|u m Hw|u m k e Hw He|u now|u m|u].
  2:{ destruct H as (H1 & H2 & H3). rewrite E in *. unfold silent. destruct t as [|ms|]; cbn; cnts; try lia.
      - split_and!; [done|lia|set_solver].
      - split_and!; [done|lia|]. intros [?|(m & ? & ?)%list_elem_of_fmap]%elem_of_app; done. }
  all: eapply silent_step; [|exact H].
  - eapply calls_step_trans; [|apply run_io_calls]. by apply calls_step_none.
  - by apply calls_step_none.
  - by apply calls_step_none.
  - by apply calls_step_none.
  - by apply calls_step_none.
  - unfold on_tick, try_stop. repeat case_match; by apply calls_step_none.
  - by apply calls_step_none.
  - unfold stop, try_stop. case_if; by apply calls_step_none.
Qed.

(** ** Before reading starts *)

Lemma run_io_start now t u :
  cnt is_start (au_io (run_io proto now t u)) = cnt is_start (au_io u) /\ au_server (run_io proto now t u) = au_server u.
Proof.
  destruct t as [|[h|e]|h [b|e]| |m|[e|]]; cbn [run_io];
    unfold read_body, handle_read, write_data, handle_write, do_write, on_error, handle_error, try_stop, read_header,
      schedule_dispatch; repeat case_match; simplify_eq; cbn; cnts; rewrite ?Nat.add_0_r; done.
Qed.

Lemma run_io_hb now t u :
  is_read t = false -> au_server u = true -> au_hb (run_io proto now t u) = au_hb u.
Proof.
  destruct t as [|[h|e]|h [b|e]| |m|[e|]]; try done; cbn [run_io]; intros _ Hs;
    unfold write_data, handle_write, do_write, on_error, handle_error, try_stop;
    repeat case_match; simplify_eq; cbn in *; congruence.
Qed.

Lemma starts_le l : (cnt is_start l <= cnt is_read l)%nat.
Proof. induction l as [|t l IH]; [done|]. cnts. destruct t; cbn [is_start is_read]; lia. Qed.

(** Until [start_read] runs, a server-side connection has the time 0. *)
Definition fresh_clock (u : auser) : Prop :=
  au_server u = true /\
  ((0 < cnt is_connect (au_wk u) + cnt is_start (au_io u))%nat -> au_hb u = MkHb AsioUserTimeout 0).

Lemma ustep_clock u u' : ustep proto u u' -> read_inv u -> fresh_clock u -> fresh_clock u'.
Proof.
  intros Hs Hr [Hsv Hc]. destruct Hs as [u t ts now E|u t ts E|u op d Ho Hd|u op e Ho He|u m Hw|u m k e Hw He|u now|u m|u].
  - destruct (take_io_read u t ts Hr E) as (_ & _ & Hz).
    destruct (run_io_start now t (set_io u ts)) as [E1 E2].
    destruct (run_io_calls now t (set_io u ts)) as (l & E3 & E4 & _). unfold fresh_clock. rewrite E1, E2, E3.
    split; [done|]. cbn [set_io au_io au_wk] in *. cnts. rewrite E4, Nat.add_0_r. intros Hp.
    destruct (is_read t) eqn:Et.
    + specialize (Hz eq_refl). unfold reading_tokens in Hz. cbn in Hz. pose proof (starts_le ts). lia.
    + rewrite run_io_hb by done. apply Hc. rewrite E. cnts. lia.
  - split; [by destruct t|]. rewrite E in Hc. destruct t; cbn; cnts; cbn [is_start] in *; intros Hp; apply Hc; lia.
  - split; [done|]. cbn. cnts. destruct op; cbn [read_task is_start]; intros; apply Hc; lia.
  - split; [done|]. cbn. cnts. destruct op; cbn [read_task is_start]; intros; apply Hc; lia.
  - split; [done|]. cbn. cnts. cbn [is_start]. intros; apply Hc; lia.
  - split; [done|]. cbn. cnts. cbn [is_start]. intros; apply Hc; lia.
  - unfold on_tick, try_stop. rewrite Hsv. repeat case_match; done.
  - split; [done|]. cbn. cnts. cbn [is_start]. intros; apply Hc; lia.
  - unfold stop, try_stop. by case_if.
Qed.

(** ** Reachable connections *)

Record au_inv (u : auser) : Prop := {
  ai_read : read_inv u;
  ai_write : write_inv u;
  ai_deliver : deliver_inv u;
  ai_calls : calls_inv u;
}.

Lemma start_inv b : au_inv (start (new_auser b)).
Proof.
  split.
  - by split.
  - split; [split|]; try done; try by left.
    + exact (Nat.le_0_l 1).
    + by intros ?%Nat.lt_irrefl.
    + change (au_io _) with (@nil io_task). by intros ?%elem_of_nil.
  - by split.
  - split; try done; [|cbn; cnts; lia..]. left. by exists [].
Qed.

Lemma ustep_inv u u' : ustep proto u u' -> au_inv u -> au_inv u'.
Proof.
  intros Hs [? ? ? ?]. split; [by eapply ustep_read|by eapply ustep_write|by eapply ustep_deliver|by eapply ustep_calls].
Qed.

Lemma user_inv b u : user_reachable proto b u -> au_inv u.
Proof.
  intros Hr. unfold user_reachable in Hr. remember (start (new_auser b)) as u0 eqn:E.
  assert (au_inv u0) as H0 by (subst; apply start_inv). clear E.
  induction Hr as [|x y z Hxy _ IH]; [done|]. apply IH. by eapply ustep_inv.
Qed.

Lemma user_clock u : user_reachable proto true u -> fresh_clock u.
Proof.
  intros Hr. unfold user_reachable in Hr. remember (start (new_auser true)) as u0 eqn:E.
  assert (au_inv u0 /\ fresh_clock u0) as H0 by (subst; split; [apply start_inv|done]). clear E.
  induction Hr as [|x y z Hxy _ IH]; [apply H0|]. destruct H0 as [Hi Hc]. apply IH.
  split; [by eapply ustep_inv|]. eapply ustep_clock; [done|apply Hi|done].
Qed.

(** ** Properties *)

(** What [split] says of the stream while a read is under way. *)
Lemma reading_split u op :
  read_inv u -> au_rd u = Some op -> split proto (tr_in (au_tr u)) = Some (tr_frames (au_tr u), tr_rest (au_tr u)).
Proof.
  intros [H1 H2 H3 H4 H5 H6] Hop. rewrite H5. apply split_frames; [done..|]. specialize (H3 _ Hop).
  destruct op as [|h n]; cbn in H3; [rewrite H3; by apply peek_nil|]. destruct H3 as ([Hh Hb] & _ & ->).
  unfold peek. rewrite Hh, Z.ltb_irrefl.
  replace (take (Z.to_nat (headerSize proto)) h) with h by (rewrite take_ge; [done|unfold size_of in Hh; lia]).
  rewrite (proj2 (Z.ltb_ge _ _)) by lia. by rewrite (proj2 (Z.leb_gt _ _)) by lia.
Qed.

(** C9: the receive path, in every interleaving: the bytes read are the frames
    handled, in order, and a rest; while a read is under way these are the
    frames of the stream ([split]) and its incomplete rest; and the messages
    given to [onRecvMsg], those in the worker's chunks and those in the read
    queue, in this order, are frames that are no heartbeats, in order, with
    none twice. *)
Theorem asio_receive b u :
  user_reachable proto b u ->
  let t := au_tr u in
  Forall (is_frame proto) (tr_frames t) /\ tr_in t = concat (tr_frames t) ++ tr_rest t /\
  (au_rd u <> None -> split proto (tr_in t) = Some (tr_frames t, tr_rest t)) /\
  received (tr_log t) ++ waiting (au_wk u) ++ au_readQ u `sublist_of` content_msgs (tr_frames t).
Proof.
  intros [Hr _ Hd _]%user_inv t. split_and!; [apply Hr|apply Hr| |].
  - intros Hop. destruct (au_rd u) as [op|] eqn:E; [|done]. by eapply reading_split.
  - unfold t. rewrite (di_order _ Hd). apply Hd.
Qed.

(** C7: both transports cut the same frames: while a connection of this transport is
    reading, what it has read, arriving at a connection of the other transport in
    chunks of any size, is dispatched there as the same frames with the same rest;
    or the other one dispatches only the first of them and closes with a full cache
    (code 3), and then some frame, or the rest, is larger than [MaxSafeFrame] (10 MB
    less one read), which this transport accepts. *)
Theorem transports_agree b u op now (v : user) fresh `{!Allocator fresh} cs :
  user_reachable proto b u -> au_rd u = Some op ->
  reading proto v -> content (u_recvCache v) = [] -> Forall recv_chunk cs -> concat cs = tr_in (au_tr u) ->
  let frames := tr_frames (au_tr u) in
  let rest := tr_rest (au_tr u) in
  exists rc got v', recv_session fresh now v cs = Some (rc, got, v') /\ got `prefix_of` frames /\
    (rc = 0 /\ got = frames /\ content (u_recvCache v') = rest \/ rc = 3 /\ oversized (frames ++ [rest])).
Proof.
  intros [Hr _ _ _]%user_inv Hop Hv Hc Hcs Hcat frames rest.
  destruct (receive_chunks fresh proto now v cs frames rest) as (rc & got & v' & E & Hg & Hres); try done.
  - by rewrite <- (size_content _ (rd_wf _ _ Hv)), Hc.
  - rewrite Hc, Hcat. by eapply reading_split.
  - rewrite Hc. by apply peek_nil.
  - exists rc, got, v'. split_and!; [done|done|]. destruct Hres as [(? & ? & _ & ?)|?]; auto.
Qed.

(** C8: the send path, in every interleaving: the bytes written are a prefix of the
    messages accepted into the write queue, in order; what is accepted is what
    was written and what still waits; at most one read and one write are under
    way, the buffer being written is the front of the queue, and while the
    connection is not stopped waiting messages are being written. *)
Theorem asio_send b u :
  user_reachable proto b u ->
  let t := au_tr u in
  tr_wire t `prefix_of` concat (tr_acc t) /\ tr_acc t = tr_sent t ++ unsent u /\
  (reading_tokens u <= 1)%nat /\ (writing_tokens u <= 1)%nat /\
  (forall m, au_wr u = Some m -> head (au_writeQ u) = Some m) /\
  (au_writeQ u <> [] -> au_stop u = false -> writing_tokens u = 1%nat).
Proof.
  intros [Hr [[H1 H2 H3 H4 H6 H7] Hb] _ _]%user_inv t. split_and!; try done.
  - unfold t. rewrite H4. destruct H7 as [->|(m & q & k & Eq & -> & _ & E0 & _)]; rewrite concat_app.
    + by apply prefix_app_r.
    + apply prefix_app. unfold unsent. rewrite E0, Eq. cbn. apply prefix_app_r.
      exists (drop k m). by rewrite take_drop.
  - apply Hr.
  - intros m Hm. by destruct (H2 m Hm) as [q ->].
  - intros Hq Hs. destruct (Hb Hq); [congruence|done].
Qed.

(** The call-backs: [onConnect] is the first one and called once,
    [onDisconnect] is called at most once, and only when the connection was
    stopped. *)
Theorem asio_callbacks b u l :
  user_reachable proto b u -> tr_log (au_tr u) = l ->
  (l = [] \/ exists l', l = OnConnect :: l' /\ (OnConnect ∉ l')) /\
  (cnt calls_disconnect l <= 1)%nat /\ (OnDisconnect ∈ l -> au_stop u = true).
Proof.
  intros [_ _ _ [H1 H2 H3]]%user_inv <-. split_and!.
  - destruct H1 as [(? & _ & -> & _)|(k & -> & ? & _)]; [by left|right; eauto].
  - lia.
  - intros Hin. apply H3. destruct (cnt calls_disconnect (tr_log (au_tr u))) eqn:E; [|lia].
    rewrite cnt_zero, Forall_forall in E. by apply E in Hin.
Qed.

Lemma stopped_silent b u u1 now :
  user_reachable proto b u -> au_stop u = false ->
  (u1 = on_tick proto now u /\ au_stop u1 = true \/ u1 = snd (stop u)) -> silent u1.
Proof.
  intros [_ _ _ Hc]%user_inv Hs Hu.
  assert (cnt is_disconnect (au_wk u) = 0%nat /\ cnt calls_disconnect (tr_log (au_tr u)) = 0%nat) as [E1 E2].
  { pose proof (ci_stop _ Hc). destruct (decide (0 < cnt is_disconnect (au_wk u) +
      cnt calls_disconnect (tr_log (au_tr u)))%nat) as [Hp|]; [|lia]. by rewrite H in Hs. }
  assert (OnDisconnect ∉ tr_log (au_tr u)) as E3.
  { intros Hin. rewrite cnt_zero, Forall_forall in E2. by apply E2 in Hin. }
  unfold silent. destruct Hu as [[-> Hst]| ->].
  - split_and!; [done| |]; unfold on_tick, try_stop in *; rewrite Hs in *; repeat case_match; done.
  - unfold stop, try_stop. by rewrite Hs.
Qed.

(** A connection that the timer or the application stops is never reported:
    [onDisconnect] is not called, whatever happens afterwards. *)
Theorem expired_never_reported b u u1 u' now :
  user_reachable proto b u -> au_stop u = false ->
  (u1 = on_tick proto now u /\ au_stop u1 = true \/ u1 = snd (stop u)) ->
  rtc (ustep proto) u1 u' -> OnDisconnect ∉ tr_log (au_tr u').
Proof.
  intros Hu Hs H1 Hr. pose proof (stopped_silent b u u1 now Hu Hs H1) as Hsil. clear H1.
  assert (silent u') as (_ & _ & ?); [|done].
  induction Hr as [|x y z Hxy _ IH]; [done|]. apply IH. by eapply ustep_silent.
Qed.

(** Until the worker has called [onConnect] and reading has started, a
    connection counts as silent since time 0: a tick of the timer stops it. *)
Theorem expires_before_start u now :
  user_reachable proto true u -> (0 < cnt is_connect (au_wk u) + cnt is_start (au_io u))%nat ->
  AsioUserTimeout <= now -> au_stop (on_tick proto now u) = true.
Proof.
  intros [Hs Hc]%user_clock Hp Hn. unfold on_tick, try_stop, isExceed. rewrite (Hc Hp), Hs. cbn [_threshold _lastTime].
  destruct (au_stop u) eqn:E; [done|]. rewrite (proj2 (Z.leb_le _ _)) by lia. done.
Qed.
End facts.

(** ** Witnesses *)

Section samples.
Abbreviation step := (ustep lymsg_protocol).
Definition header1 : bytes := take 20 frame1.
Definition body1 : bytes := drop 20 frame1.

(** The next function of the strands. *)
Definition next_io (u : auser) : auser :=
  match au_io u with [] => u | t :: ts => run_io lymsg_protocol 1000 t (set_io u ts) end.
Definition next_wk (u : auser) : auser :=
  match au_wk u with [] => u | t :: ts => run_wk t (set_wk u ts) end.
Definition read_done (d : bytes) (u : auser) : auser :=
  match au_rd u with
  | Some op => post_io (saw_bytes d (set_rd u None)) (read_task op (inl d))
  | None => u
  end.
Definition write_breaks (u : auser) : auser :=
  match au_wr u with
  | Some m => post_io (saw_written [] (take 0 m) (set_wrop u None)) (IoHandleWrite (Some EcOther))
  | None => u
  end.

Lemma next_io_step u : rtc step u (next_io u).
Proof. unfold next_io. destruct (au_io u) eqn:E; [done|]. by apply rtc_once, us_io. Qed.
Lemma next_wk_step u : rtc step u (next_wk u).
Proof. unfold next_wk. destruct (au_wk u) eqn:E; [done|]. by apply rtc_once, us_wk. Qed.
Lemma read_done_step d u :
  match au_rd u with Some op => size_of d =? read_size lymsg_protocol op | None => true end = true ->
  rtc step u (read_done d u).
Proof.
  unfold read_done. destruct (au_rd u) as [op|] eqn:E; [|done]. intros Hd. apply rtc_once. eapply us_read; [done|].
  by apply Z.eqb_eq.
Qed.
Lemma write_breaks_step u : rtc step u (write_breaks u).
Proof.
  unfold write_breaks. destruct (au_wr u) as [m|] eqn:E; [|done]. apply rtc_once.
  by apply (us_write_error _ _ m 0 EcOther).
Qed.

(** The server sends a message, the client one of its own; writing fails while
    the frame that was read is being handled. *)
Definition reading1 : auser := read_done body1 (next_io (read_done header1 (next_io (next_io (next_wk
  (post frame2 (start (new_auser true)))))))).
Definition broken1 : auser := next_io (next_io (next_io (write_breaks reading1))).
Definition reported1 : auser := next_wk (next_wk broken1).

Lemma reading1_reachable : user_reachable lymsg_protocol true reading1.
Proof.
  unfold user_reachable, reading1.
  etrans; [apply rtc_once; eapply (us_post _ _ frame2)|]. etrans; [apply next_wk_step|]. etrans; [apply next_io_step|].
  etrans; [apply next_io_step|]. etrans; [apply (read_done_step header1); vm_compute; reflexivity|].
  etrans; [apply next_io_step|]. apply read_done_step. vm_compute. reflexivity.
Qed.

Lemma reported1_reachable : user_reachable lymsg_protocol true reported1.
Proof.
  unfold user_reachable, reported1, broken1. etrans; [apply reading1_reachable|].
  etrans; [apply write_breaks_step|]. do 3 (etrans; [apply next_io_step|]). etrans; apply next_wk_step.
Qed.

(** A message can reach [onRecvMsg] after [onDisconnect]: the failed write and
    the dispatching of a message wait on the I/O strand in this order. *)
Theorem message_after_disconnect :
  exists u, user_reachable lymsg_protocol true u /\
    tr_log (au_tr u) = [OnConnect; OnDisconnect; OnRecvMsg frame1].
Proof. exists reported1. split; [exact reported1_reachable|]. vm_compute. reflexivity. Qed.

Definition listening1 : auser := next_io reading1.

Lemma listening1_reachable : user_reachable lymsg_protocol true listening1.
Proof. unfold user_reachable, listening1. etrans; [apply reading1_reachable|apply next_io_step]. Qed.

Lemma asio_receive_witness :
  split lymsg_protocol (tr_in (au_tr listening1)) = Some ([frame1], []) /\
  received (tr_log (au_tr listening1)) ++ waiting (au_wk listening1) ++ au_readQ listening1
    `sublist_of` content_msgs lymsg_protocol [frame1].
Proof.
  destruct (asio_receive lymsg_protocol true listening1 listening1_reachable) as (_ & _ & Hs & Hd).
  split; [apply Hs; vm_compute; discriminate|exact Hd].
Defined.

Lemma transports_agree_witness :
  exists v', recv_session zero_fresh 1001 sample_user [frame1] = Some (0, [frame1], v') /\
    content (u_recvCache v') = [].
Proof.
  destruct (transports_agree lymsg_protocol true listening1 RdHeader 1001 sample_user zero_fresh [frame1]
    listening1_reachable) as (rc & got & v' & E & _ & [(-> & -> & Hc)|[_ Hbig]]).
  - vm_compute. reflexivity.
  - exact sample_reading.
  - reflexivity.
  - repeat constructor; (discriminate || reflexivity).
  - vm_compute. reflexivity.
  - exists v'. split; [exact E|exact Hc].
  - refute_oversized Hbig.
Defined.

Lemma asio_send_witness :
  head (au_writeQ listening1) = Some frame2 /\ writing_tokens listening1 = 1%nat /\
  tr_wire (au_tr listening1) `prefix_of` frame2.
Proof.
  destruct (asio_send lymsg_protocol true listening1 listening1_reachable) as (Hp & _ & _ & _ & Hf & Hb).
  split_and!; [apply Hf; vm_compute; reflexivity| |exact Hp].
  apply Hb; vm_compute; [discriminate|reflexivity].
Defined.

Lemma asio_callbacks_witness :
  OnDisconnect ∈ tr_log (au_tr reported1) /\ au_stop reported1 = true.
Proof.
  assert (OnDisconnect ∈ tr_log (au_tr reported1)) as H by (vm_compute; right; left).
  split; [exact H|].
  by apply (asio_callbacks lymsg_protocol true reported1 _ reported1_reachable eq_refl).
Defined.

(** The connection is silent for 100 seconds, then the peer closes it. *)
Definition expired1 : auser := on_tick lymsg_protocol 1100 listening1.

Lemma expired_never_reported_witness :
  OnDisconnect ∉ tr_log (au_tr (next_wk (next_io (next_io (write_breaks expired1))))).
Proof.
  apply (expired_never_reported lymsg_protocol true listening1 expired1 _ 1100 listening1_reachable).
  - vm_compute. reflexivity.
  - left. split; [reflexivity|]. vm_compute. reflexivity.
  - etrans; [apply write_breaks_step|]. do 2 (etrans; [apply next_io_step|]). apply next_wk_step.
Defined.

Lemma expires_before_start_witness :
  au_stop (on_tick lymsg_protocol 1000 (start (new_auser true))) = true.
Proof.
  apply (expires_before_start lymsg_protocol).
  - apply rtc_refl.
  - vm_compute. constructor.
  - discriminate.
Defined.
End samples.
