(* ===== verification/AsioServer.v ===== *)
(** * Server and client of the ASIO transport ([tcpsock_server] and
      [tcpsock_client] of [zbf/asio_socket_tcp.hpp], [zbf/asio_worker.hpp])

    [aserver] is the state of a server: its connections, those in [_userQueue],
    those whose handshake is under way, and whether an [async_accept] is.
    [astep] are the handlers, the timer and the steps of the connections
    ([AsioUser]). [aconnect] is one [async_connect] of the client, [cstep] its
    handlers and its timer. *)

From S2P Require Import Prelude MemChunk TcpMessage Lymsg Framing TcpUser AsioUser.

Definition AsioDefaultMaxConns : Z := 6000.

(** ** [asio_worker] *)

Record asio_worker := MkWorkers { aw_count : Z; aw_strand_cursor : Z }.

(** The strand's index, and the cursor moved on. *)
Definition get_strand (w : asio_worker) : Z * asio_worker :=
  let c := if aw_strand_cursor w =? aw_count w then 0 else aw_strand_cursor w in
  (c, MkWorkers (aw_count w) (c + 1)).

Fixpoint get_strands (n : nat) (w : asio_worker) : list Z :=
  match n with
  | O => []
  | S n => let '(i, w1) := get_strand w in i :: get_strands n w1
  end.

(** [start] of the server. *)
Definition clamp_asio_workers (workerNum : Z) : Z := Z.min (Z.max workerNum 1) 32.

(** ** [tcpsock_server] *)

Section server.
Context (proto : protocol).

Record aserver := MkAServer {
  as_users : gset nat;             (* _userQueue *)
  as_heap : gmap nat auser;
  as_next : nat;
  as_max : Z;                      (* _maxConnections *)
  as_accepting : bool;
  as_shaking : gset nat;
}.

Definition currentConnections (s : aserver) : Z := Z.of_nat (size (as_users s)).

Definition set_users (s : aserver) (us : gset nat) : aserver :=
  MkAServer us (as_heap s) (as_next s) (as_max s) (as_accepting s) (as_shaking s).
Definition set_heap (s : aserver) (h : gmap nat auser) : aserver :=
  MkAServer (as_users s) h (as_next s) (as_max s) (as_accepting s) (as_shaking s).
Definition set_accepting (s : aserver) (b : bool) : aserver :=
  MkAServer (as_users s) (as_heap s) (as_next s) (as_max s) b (as_shaking s).

Definition do_accept (s : aserver) : aserver := set_accepting s true.

(** [handle_accept]: the completion of an accept. *)
Definition handle_accept (e : option ec) (s : aserver) : aserver :=
  let s := set_accepting s false in
  match e with
  | Some EcAborted => s
  | Some EcRetry => do_accept s
  | Some EcOther => s
  | None =>
      let u := as_next s in
      do_accept (MkAServer (as_users s) (<[u := new_auser true]> (as_heap s)) (S u) (as_max s)
        (as_accepting s) ({[u]} ∪ as_shaking s))
  end.

(** The function [handle_accept] passes to [async_handshake]. *)
Definition handle_handshake (u : nat) (e : option ec) (s : aserver) : aserver :=
  let s := MkAServer (as_users s) (as_heap s) (as_next s) (as_max s) (as_accepting s) (as_shaking s ∖ {[u]}) in
  match as_heap s !! u with
  | None => s
  | Some x =>
      match e with
      | Some _ => set_heap s (<[u := snd (stop x)]> (as_heap s))
      | None =>
          if as_max s <=? currentConnections s
          then set_heap s (<[u := snd (stop x)]> (as_heap s))
          else set_heap (set_users s ({[u]} ∪ as_users s)) (<[u := start x]> (as_heap s))
      end
  end.

(** [on_timer]: a tick for every connection of the queue. *)
Definition on_timer (now : Z) (s : aserver) : aserver :=
  set_heap s (map_imap (fun u x => Some (if bool_decide (u ∈ as_users s) then on_tick proto now x else x)) (as_heap s)).

(** [listener_adapter]: the worker's next function; [onDisconnect] takes the
    connection out of the queue. *)
Definition run_worker (u : nat) (s : aserver) : aserver :=
  match as_heap s !! u with
  | None => s
  | Some x =>
      match au_wk x with
      | [] => s
      | t :: ts =>
          let s := set_heap s (<[u := run_wk t (set_wk x ts)]> (as_heap s)) in
          match t with WkDisconnect => set_users s (as_users s ∖ {[u]}) | _ => s end
      end
  end.

(** [stop]: the acceptor is cancelled, every connection stopped. *)
Definition server_stop (s : aserver) : aserver :=
  MkAServer ∅ (map_imap (fun u x => Some (if bool_decide (u ∈ as_users s) then snd (stop x) else x)) (as_heap s))
    (as_next s) (as_max s) (as_accepting s) (as_shaking s).

(** The steps of a running server; those of a connection that call nothing
    are any other step of [AsioUser]; before its start only the server has it. *)
Inductive astep : aserver -> aserver -> Prop :=
| as_accept s e : as_accepting s = true -> astep s (handle_accept e s)
| as_handshake s u e : u ∈ as_shaking s -> astep s (handle_handshake u e s)
| as_timer s now : astep s (on_timer now s)
| as_worker s u : astep s (run_worker u s)
| as_user s u x x' :
    u ∉ as_shaking s -> as_heap s !! u = Some x -> ustep proto x x' -> tr_log (au_tr x') = tr_log (au_tr x) ->
    astep s (set_heap s (<[u := x']> (as_heap s))).

Definition idle_aserver (max : Z) : aserver := MkAServer ∅ ∅ 0 max true ∅.
Definition aserver_reachable (max : Z) (s : aserver) : Prop := rtc astep (idle_aserver max) s.

(** ** Invariant *)

Record aserver_inv (s : aserver) : Prop := {
  av_users : forall u, u ∈ as_users s -> exists x, as_heap s !! u = Some x /\ user_reachable proto true x;
  av_shaking : forall u, u ∈ as_shaking s -> u ∉ as_users s;
  av_next : forall u, u ∈ as_users s \/ u ∈ as_shaking s -> (u < as_next s)%nat;
  av_new : forall u x, u ∈ as_shaking s -> as_heap s !! u = Some x -> x = new_auser true;
  av_limit : currentConnections s <= Z.max 0 (as_max s);
}.

Context `{!ProtocolLaws proto}.

Lemma reachable_step b x x' : user_reachable proto b x -> ustep proto x x' -> user_reachable proto b x'.
Proof. intros H Hs. unfold user_reachable in *. by eapply rtc_r. Qed.

Lemma timer_heap now s u :
  as_heap (on_timer now s) !! u =
  (fun x => if bool_decide (u ∈ as_users s) then on_tick proto now x else x) <$> as_heap s !! u.
Proof. unfold on_timer. cbn. rewrite map_lookup_imap. by destruct (as_heap s !! u). Qed.

(** A connection that is not in the queue changes. *)
Lemma heap_update_inv s u x :
  aserver_inv s -> (u ∈ as_users s -> user_reachable proto true x) -> u ∉ as_shaking s ->
  aserver_inv (set_heap s (<[u := x]> (as_heap s))).
Proof.
  intros [H1 H2 H3 H4 H5] Hr Hu. split; cbn; try done.
  - intros v Hv. destruct (H1 v Hv) as (y & Hy & Hyr). rewrite lookup_insert. case_decide; [|eauto]. subst. eauto.
  - intros v y Hv. rewrite lookup_insert. case_decide; [by subst|]. by apply H4.
Qed.

Lemma handle_handshake_inv u e s : aserver_inv s -> u ∈ as_shaking s -> aserver_inv (handle_handshake u e s).
Proof.
  intros Hinv Hu. unfold handle_handshake.
  set (s1 := MkAServer _ _ _ _ _ _).
  assert (aserver_inv s1 /\ (u ∉ as_shaking s1)) as [H1 Hn].
  { destruct Hinv as [H1 H2 H3 H4 H5]. split; [split; cbn; try done|cbn; set_solver].
    - intros v Hv. apply H2. set_solver.
    - intros v Hv. apply H3. set_solver.
    - intros v x Hv. apply H4. set_solver. }
  change (as_heap s1) with (as_heap s). destruct (as_heap s !! u) as [x|] eqn:Ex; [|done].
  pose proof (av_new _ Hinv u x Hu Ex) as ->. pose proof (av_shaking _ Hinv u Hu) as Hnu.
  assert (forall x, aserver_inv (set_heap s1 (<[u := x]> (as_heap s1)))) as Hup by (intros; by apply heap_update_inv).
  destruct e; [apply Hup|]. case_if; [apply Hup|]. bool_Z.
  destruct H1 as [A1 A2 A3 A4 A5]. split; cbn in *.
  - intros v [->%elem_of_singleton|Hv]%elem_of_union.
    + exists (start (new_auser true)). split; [by rewrite lookup_insert, decide_True|apply rtc_refl].
    + destruct (A1 v Hv) as (y & Hy & Hyr). exists y. split; [|done]. rewrite lookup_insert_ne; [done|by intros ->].
  - intros v Hv. pose proof (A2 v Hv). set_solver.
  - intros v [[->%elem_of_singleton|Hv]%elem_of_union|Hv]; [apply (av_next _ Hinv); by right|apply A3; by left|apply A3; by right].
  - intros v y Hv. rewrite lookup_insert. case_decide; [subst; set_solver|by apply A4].
  - unfold currentConnections in *. cbn in *. rewrite size_union by set_solver. rewrite size_singleton. lia.
Qed.

Lemma aserver_step_inv s s' : astep s s' -> aserver_inv s -> aserver_inv s'.
Proof.
  intros Hs Hinv. destruct Hs as [s e Ha|s u e Hu|s now|s u|s u x x' Hn Hx Hst Hl].
  - destruct Hinv as [H1 H2 H3 H4 H5]. destruct e as [[| |]|]; cbn; [by split..|].
    assert ((as_next s ∉ as_users s) /\ (as_next s ∉ as_shaking s)) as [Hn1 Hn2].
    { split; intros Hin; specialize (H3 (as_next s)); [specialize (H3 (or_introl Hin))|specialize (H3 (or_intror Hin))]; lia. }
    split; cbn; try done.
    + intros v Hv. destruct (H1 v Hv) as (y & Hy & Hyr). exists y. split; [|done].
      rewrite lookup_insert_ne; [done|by intros <-].
    + intros v [->%elem_of_singleton|Hv]%elem_of_union; [done|by apply H2].
    + intros v [Hv|[->%elem_of_singleton|Hv]%elem_of_union]; [|lia|]; specialize (H3 v); [specialize (H3 (or_introl Hv))|specialize (H3 (or_intror Hv))]; lia.
    + intros v y Hv. rewrite lookup_insert. case_decide; [congruence|]. apply H4. set_solver.
  - by apply handle_handshake_inv.
  - destruct Hinv as [H1 H2 H3 H4 H5]. split; try done.
    + intros v Hv. destruct (H1 v Hv) as (y & Hy & Hyr). rewrite timer_heap, Hy. cbn.
      eexists. split; [done|]. case_bool_decide; [|done]. eapply reachable_step; [done|apply us_tick].
    + intros v y Hv. rewrite timer_heap. destruct (as_heap s !! v) as [z|] eqn:E; [|done]. cbn.
      rewrite bool_decide_eq_false_2 by (by apply H2). intros [= <-]. by apply (H4 v).
  - unfold run_worker. destruct (as_heap s !! u) as [x|] eqn:Ex; [|done]. destruct (au_wk x) as [|t ts] eqn:Et; [done|].
    assert (u ∉ as_shaking s) as Hn by (intros Hu; pose proof (av_new _ Hinv u x Hu Ex) as ->; done).
    assert (aserver_inv (set_heap s (<[u := run_wk t (set_wk x ts)]> (as_heap s)))) as H1.
    { apply heap_update_inv; [done| |done]. intros Hu. destruct (av_users _ Hinv u Hu) as (y & Hy & Hyr).
      assert (y = x) as -> by congruence. eapply reachable_step; [done|by apply us_wk]. }
    destruct t; try done. destruct H1 as [A1 A2 A3 A4 A5]. split; cbn in *; try done.
    + intros v Hv. apply A1. set_solver.
    + intros v Hv. pose proof (A2 v Hv). set_solver.
    + intros v Hv. apply A3. set_solver.
    + unfold currentConnections in *. cbn in *. assert (size (as_users s ∖ {[u]}) <= size (as_users s))%nat by (apply subseteq_size; set_solver). lia.
  - apply heap_update_inv; [done| |done]. intros Hu. destruct (av_users _ Hinv u Hu) as (y & Hy & Hyr).
    assert (y = x) as -> by congruence. by eapply reachable_step.
Qed.

Lemma aserver_reachable_inv max s : aserver_reachable max s -> aserver_inv s /\ as_max s = max.
Proof.
  unfold aserver_reachable. intros Hr. remember (idle_aserver max) as s0 eqn:E.
  assert (aserver_inv s0 /\ as_max s0 = max) as H0.
  { subst. split; [|done]. split; cbn; try set_solver. unfold currentConnections. cbn. rewrite size_empty. lia. }
  clear E. induction Hr as [|x y z Hxy _ IH]; [done|]. apply IH. destruct H0 as [Hi Hm].
  split; [by eapply aserver_step_inv|]. rewrite <- Hm. destruct Hxy; try done.
  - by destruct e as [[| |]|].
  - unfold handle_handshake. by repeat case_match.
  - unfold run_worker. by repeat case_match.
Qed.

(** Connections of the queue that are stopped and will not be reported. *)
Definition all_silent (U : gset nat) (s : aserver) : Prop :=
  U ⊆ as_users s /\ forall u, u ∈ U -> exists x, as_heap s !! u = Some x /\ silent x.

Lemma astep_silent U s s' : astep s s' -> aserver_inv s -> all_silent U s -> all_silent U s'.
Proof.
  intros Hs Hinv [Hsub Hsil].
  assert (forall v, v ∈ U -> v <> as_next s /\ (v ∉ as_shaking s)) as Hne.
  { intros v Hv. pose proof (av_next _ Hinv v (or_introl (Hsub v Hv))). split; [lia|].
    intros H2. by apply (av_shaking _ Hinv v H2), Hsub. }
  assert (forall v y, v ∈ U -> as_heap s !! v = Some y -> silent y) as Hsil'.
  { intros v y Hv Hy. destruct (Hsil v Hv) as (z & Hz & ?). congruence. }
  assert (forall u x, (u ∈ U -> silent x) ->
    forall v, v ∈ U -> exists y, <[u := x]> (as_heap s) !! v = Some y /\ silent y) as Hup.
  { intros u x Hx v Hv. rewrite lookup_insert. case_decide; [subst; eauto|by apply Hsil]. }
  destruct Hs as [s e Ha|s u e Hu|s now|s u|s u x x' Hn Hx Hst Hl].
  - destruct e as [[| |]|]; [done..|]. split; [done|]. cbn. apply Hup. intros Hv. by destruct (Hne _ Hv).
  - unfold handle_handshake. cbn [as_heap]. destruct (as_heap s !! u) as [x|] eqn:Ex; [|done].
    destruct e; [|case_if]; (split; cbn; [set_solver|]); apply Hup; intros Hv; by destruct (Hne _ Hv).
  - split; [done|]. intros v Hv. rewrite timer_heap. destruct (Hsil v Hv) as (y & -> & Hy). cbn.
    eexists. split; [done|]. case_bool_decide; [|done]. eapply (ustep_silent proto); [apply us_tick|done].
  - unfold run_worker. destruct (as_heap s !! u) as [x|] eqn:Ex; [|done]. destruct (au_wk x) as [|t ts] eqn:Et; [done|].
    assert (all_silent U (set_heap s (<[u := run_wk t (set_wk x ts)]> (as_heap s)))) as [A1 A2].
    { split; [done|]. cbn. apply Hup. intros Hv. eapply (ustep_silent proto); [by apply us_wk|by eapply Hsil']. }
    destruct t; try done. split; [|done]. cbn. intros v Hv. apply elem_of_difference. split; [by apply Hsub|].
    intros ->%elem_of_singleton. destruct (Hsil' u x Hv Ex) as (_ & H2 & _). by rewrite Et, cnt_cons in H2.
  - split; [done|]. cbn. apply Hup. intros Hv. eapply (ustep_silent proto); [done|by eapply Hsil'].
Qed.

(** The number of connections never exceeds the configured maximum. *)
Theorem asio_connection_limit max s : aserver_reachable max s -> currentConnections s <= Z.max 0 max.
Proof. intros [Hinv <-]%aserver_reachable_inv. apply Hinv. Qed.

(** connections that the timer finds silent for too long are stopped, but stay
    in the queue for good: they count as connections for ever, and once they
    are as many as the maximum no client is served any more. *)
Theorem idle_connections_stay max now s s' (U : gset nat) :
  aserver_reachable max s -> U ⊆ as_users s ->
  (forall u, u ∈ U -> exists x, as_heap s !! u = Some x /\ au_stop x = false /\ isExceed (au_hb x) now = true) ->
  rtc astep (on_timer now s) s' ->
  U ⊆ as_users s' /\ (forall u, u ∈ U -> exists x, as_heap s' !! u = Some x /\ au_stop x = true) /\
  (Z.of_nat (size U) = Z.max 0 max -> as_users s' = U).
Proof.
  intros Hr Hsub Hidle Hs. pose proof (aserver_reachable_inv max s Hr) as [Hinv _].
  assert (all_silent U (on_timer now s)) as H1.
  { split; [done|]. intros u Hu. destruct (Hidle u Hu) as (x & Hx & Hst & Hex).
    destruct (av_users _ Hinv u (Hsub u Hu)) as (y & Hy & Hyr). assert (y = x) as -> by congruence.
    rewrite timer_heap, Hx. cbn. eexists. split; [done|]. rewrite bool_decide_eq_true_2 by (by apply Hsub).
    eapply (stopped_silent proto); [done|done|left; split; [done|]].
    unfold on_tick, try_stop. rewrite Hst, Hex. by rewrite (proj1 (user_clock proto x Hyr)). }
  assert (aserver_reachable max s') as Hr'.
  { unfold aserver_reachable in *. etrans; [exact Hr|]. eapply rtc_l; [apply (as_timer s now)|exact Hs]. }
  assert (all_silent U s') as [A1 A2].
  { assert (aserver_inv (on_timer now s)) as Hi by (eapply aserver_step_inv; [apply (as_timer s now)|done]).
    clear -Hs H1 Hi ProtocolLaws0. revert H1 Hi. induction Hs as [|x y z Hxy _ IH]; [done|].
    intros H1 Hi. apply IH; [by eapply astep_silent|by eapply aserver_step_inv]. }
  split_and!; [done| |].
  - intros u Hu. destruct (A2 u Hu) as (x & Hx & ? & _). eauto.
  - intros Hsz. apply aserver_reachable_inv in Hr' as [Hi' Hm']. pose proof (av_limit _ Hi') as Hl.
    rewrite Hm' in Hl. unfold currentConnections in Hl. symmetry. apply leibniz_equiv.
    apply set_subseteq_size_equiv; [done|lia].
Qed.

(** An accept that fails with anything but an interruption is the last one: no
    further connection is ever accepted. *)
Theorem accept_error_is_final s s' :
  rtc astep (handle_accept (Some EcOther) s) s' -> as_accepting s' = false /\ as_next s' = as_next s.
Proof.
  assert (forall x y, rtc astep x y -> as_accepting x = false -> as_accepting y = false /\ as_next y = as_next x) as H.
  { induction 1 as [|x y z Hxy _ IH]; [done|]. intros Hx.
    assert (as_accepting y = false /\ as_next y = as_next x) as [E1 E2]; [|rewrite <- E2; auto].
    destruct Hxy; try done; [congruence| |].
    - unfold handle_handshake. by repeat case_match.
    - unfold run_worker. by repeat case_match. }
  intros Hr. by apply H in Hr.
Qed.
End server.

(** Consecutive calls of [get_strand] go round the strands. *)
Theorem strands_round n w k :
  0 < aw_count w -> 0 <= aw_strand_cursor w <= aw_count w -> (k < n)%nat ->
  get_strands n w !! k = Some ((aw_strand_cursor w + Z.of_nat k) mod aw_count w).
Proof.
  intros Hc. revert w k Hc. induction n as [|n IH]; intros [cnt c] k Hc Hr Hk; [lia|].
  cbn [get_strands get_strand aw_count aw_strand_cursor] in *. set (i := if c =? cnt then 0 else c).
  assert (0 <= i < cnt /\ i mod cnt = c mod cnt) as [Hi Em].
  { unfold i. destruct (Z.eqb_spec c cnt) as [->|]; [rewrite Z_mod_same_full|]; split; (done || lia). }
  destruct k as [|k].
  - rewrite Z.add_0_r, <- Em, Z.mod_small by lia. done.
  - change (get_strands n (MkWorkers cnt (i + 1)) !! k = Some ((c + Z.of_nat (S k)) mod cnt)).
    rewrite (IH (MkWorkers cnt (i + 1)) k) by (cbn; lia). cbn [aw_count aw_strand_cursor]. f_equal.
    rewrite <- (Zplus_mod_idemp_l c), <- Em, Zplus_mod_idemp_l. f_equal. lia.
Qed.

(** ** [tcpsock_client] *)

(** [connect]: whether the name resolves, the socket connects and the TLS
    handshake succeeds are arguments. The result, the earlier connection, which
    is stopped, and [_user]. *)
Definition connect (tls resolve_ok connect_ok shake_ok : bool) (user : option auser)
  : Z * option auser * option auser :=
  let old := (fun u => snd (stop u)) <$> user in
  if negb resolve_ok then (-1, old, None)
  else if negb connect_ok then (-1, old, None)
  else if tls && negb shake_ok then (-1, old, None)
  else (0, old, Some (start (new_auser false))).

(** [disconnect], [post] and the heartbeat timer's tick. *)
Definition client_disconnect (user : option auser) : option auser := (fun u => snd (stop u)) <$> user.
Definition client_post (msg : bytes) (user : option auser) : option auser := post msg <$> user.
Definition hb_tick (proto : protocol) (now : Z) (user : option auser) : option auser := on_tick proto now <$> user.

(** What an [async_connect] is waiting for, besides its timer. *)
Inductive cphase := CResolve | CConnect | CHandshake | CEnd.

Record aconnect := MkConnect {
  ac_phase : cphase;
  ac_done : bool;              (* done *)
  ac_armed : bool;             (* the timer is waiting *)
  ac_user : option auser;      (* _user *)
  ac_calls : list Z;           (* the calls of the handler *)
  ac_timedout : bool;          (* ghost: the timer was first *)
}.

Definition async_connect : aconnect := MkConnect CResolve false true None [] false.

(** The handler is called with [rc]; the timer is cancelled. *)
Definition finish (rc : Z) (user : option auser) (c : aconnect) : aconnect :=
  MkConnect CEnd true false user (ac_calls c ++ [rc]) (ac_timedout c).
Definition set_phase (ph : cphase) (user : option auser) (c : aconnect) : aconnect :=
  MkConnect ph (ac_done c) (ac_armed c) user (ac_calls c) (ac_timedout c).

Definition on_resolve (ok : bool) (c : aconnect) : aconnect :=
  if ac_done c then set_phase CEnd (ac_user c) c
  else if negb ok then finish (-1) (ac_user c) c
  else set_phase CConnect (Some (new_auser false)) c.

Definition on_connected (tls ok : bool) (c : aconnect) : aconnect :=
  if ac_done c then set_phase CEnd (ac_user c) c
  else if negb ok then finish (-2) None c
  else if tls then set_phase CHandshake (ac_user c) c
  else finish 0 (start <$> ac_user c) c.

Definition on_handshake (ok : bool) (c : aconnect) : aconnect :=
  if ac_done c then set_phase CEnd (ac_user c) c
  else if negb ok then finish (-3) None c
  else finish 0 (start <$> ac_user c) c.

(** The timer: [_user->sock().cancel()] makes what is under way fail. *)
Definition on_timeout (c : aconnect) : aconnect :=
  if ac_done c then MkConnect (ac_phase c) true false (ac_user c) (ac_calls c) (ac_timedout c)
  else MkConnect (ac_phase c) true false (ac_user c) (ac_calls c) true.

Inductive cstep (tls : bool) : aconnect -> aconnect -> Prop :=
| cs_resolve c ok : ac_phase c = CResolve -> cstep tls c (on_resolve ok c)
| cs_connect c ok : ac_phase c = CConnect -> cstep tls c (on_connected tls ok c)
| cs_handshake c ok : ac_phase c = CHandshake -> cstep tls c (on_handshake ok c)
| cs_timeout c : ac_armed c = true -> cstep tls c (on_timeout c).

Record connect_inv (c : aconnect) : Prop := {
  cn_open : ac_done c = false -> ac_calls c = [] /\ ac_phase c <> CEnd /\ ac_timedout c = false;
  cn_done : ac_done c = true -> if ac_timedout c then ac_calls c = [] else
    ac_phase c = CEnd /\ exists rc, ac_calls c = [rc] /\ -3 <= rc <= 0 /\
      (rc = 0 -> ac_user c = Some (start (new_auser false)));
  cn_user : ac_phase c = CConnect \/ ac_phase c = CHandshake -> ac_user c = Some (new_auser false);
}.

Lemma connect_finish_inv c rc user :
  connect_inv c -> ac_done c = false -> -3 <= rc <= 0 -> (rc = 0 -> user = Some (start (new_auser false))) ->
  connect_inv (finish rc user c).
Proof.
  intros [H1 _ _] Hd Hr Hu. destruct (H1 Hd) as (Ec & _ & Et). split; cbn; try done.
  - intros _. rewrite Et, Ec. split; [done|]. by exists rc.
  - by intros [].
Qed.

Lemma cstep_inv tls c c' : cstep tls c c' -> connect_inv c -> connect_inv c'.
Proof.
  intros Hs Hinv. pose proof Hinv as [H1 H2 H3].
  assert (ac_done c = true -> ac_phase c <> CEnd -> connect_inv (set_phase CEnd (ac_user c) c)) as Hlate.
  { intros Hd Hp. split; cbn; [congruence| |by intros []]. intros _. specialize (H2 Hd). destruct (ac_timedout c); [done|].
    by destruct H2. }
  assert (forall ph user, ac_done c = false -> ph <> CEnd -> user = Some (new_auser false) ->
    connect_inv (set_phase ph user c)) as Hnext.
  { intros ph user Hd Hp ->. split; cbn; [|congruence|done]. intros _. by destruct (H1 Hd) as (? & _ & ?). }
  destruct Hs as [c ok Hp|c ok Hp|c ok Hp|c Ha].
  - unfold on_resolve. destruct (ac_done c) eqn:Ed; [by apply Hlate; rewrite ?Hp|].
    destruct ok; cbn [negb]; [by apply Hnext|apply connect_finish_inv; done || lia].
  - unfold on_connected. destruct (ac_done c) eqn:Ed; [by apply Hlate; rewrite ?Hp|].
    rewrite H3 by auto. destruct ok; cbn [negb]; [|apply connect_finish_inv; done || lia].
    destruct tls; [by apply Hnext|apply connect_finish_inv; done || lia].
  - unfold on_handshake. destruct (ac_done c) eqn:Ed; [by apply Hlate; rewrite ?Hp|].
    rewrite H3 by auto. destruct ok; cbn [negb]; apply connect_finish_inv; done || lia.
  - unfold on_timeout. destruct (ac_done c) eqn:Ed.
    + split; cbn; [congruence|intros _; by apply H2|done].
    + destruct (H1 eq_refl) as (Ec & _ & _). split; cbn; [congruence|done|done].
Qed.

(** An [async_connect] calls its handler at most once: exactly once, with 0 if
    and only if the connection was started, when it ends before its timer, and
    never when the timer is first. *)
Theorem async_connect_result tls c :
  rtc (cstep tls) async_connect c -> ac_phase c = CEnd ->
  (ac_timedout c = true /\ ac_calls c = []) \/
  (ac_timedout c = false /\ exists rc, ac_calls c = [rc] /\ -3 <= rc <= 0 /\
     (rc = 0 -> ac_user c = Some (start (new_auser false)))).
Proof.
  intros Hr Hp. assert (connect_inv async_connect) as H0 by (split; [done..|by intros []]).
  assert (connect_inv c) as [H1 H2 _].
  { clear Hp. induction Hr as [|x y z Hxy _ IH]; [done|]. apply IH. by eapply cstep_inv. }
  destruct (ac_done c) eqn:Ed; [|by destruct (H1 eq_refl) as (_ & ? & _)].
  specialize (H2 eq_refl). destruct (ac_timedout c); [by left|right]. by destruct H2.
Qed.

(** ** Witnesses *)

(** Room for one connection, which is accepted and then silent. *)
Definition full_server : aserver := handle_handshake 0 None (handle_accept None (idle_aserver 1)).

Lemma full_reachable : aserver_reachable lymsg_protocol 1 full_server.
Proof.
  unfold aserver_reachable, full_server. etrans; [by apply rtc_once, (as_accept _ _ None)|].
  apply rtc_once, as_handshake. cbn. set_solver.
Qed.

Lemma asio_connection_limit_witness : currentConnections full_server = 1 /\ currentConnections full_server <= 1.
Proof. split; [reflexivity|]. apply (asio_connection_limit lymsg_protocol 1 full_server full_reachable). Defined.

(** Another client is turned away for ever, here after its handshake. *)
Definition refusing_server : aserver :=
  handle_handshake 1 None (handle_accept None (on_timer lymsg_protocol 1100 full_server)).

Lemma idle_connections_stay_witness :
  as_users full_server = {[0%nat]} /\ as_users refusing_server = {[0%nat]}.
Proof.
  split; [reflexivity|].
  apply (idle_connections_stay lymsg_protocol 1 1100 full_server refusing_server {[0%nat]} full_reachable).
  - reflexivity.
  - intros u ->%elem_of_singleton. eexists. split; [reflexivity|]. split; reflexivity.
  - etrans; [by apply rtc_once, (as_accept _ _ None)|]. apply rtc_once, as_handshake. cbn. set_solver.
  - reflexivity.
Defined.

Lemma accept_error_is_final_witness :
  as_accepting (handle_accept (Some EcOther) full_server) = false.
Proof. by apply (accept_error_is_final lymsg_protocol full_server _ (rtc_refl _ _)). Defined.

Lemma strands_round_witness : get_strands 3 (MkWorkers 2 0) !! 2%nat = Some 0.
Proof. rewrite (strands_round 3 (MkWorkers 2 0) 2); [reflexivity|cbn; lia..]. Defined.

(** The timer fires while the name is being resolved. *)
Definition timed_out : aconnect := on_resolve true (on_timeout async_connect).

Lemma async_connect_result_witness : ac_calls timed_out = [].
Proof.
  destruct (async_connect_result false timed_out) as [[_ H]|[H _]].
  - eapply rtc_l; [by apply cs_timeout|]. apply rtc_once. by apply cs_resolve.
  - reflexivity.
  - exact H.
  - discriminate.
Defined.
