(* ===== verification/AsioLife.v ===== *)
(** * Life of the ASIO transport: threads, listening, stopping
      ([zbf/asio_worker.hpp], [tcpsock_server] and [tcpsock_client] of
      [zbf/asio_socket_tcp.hpp])

    [workers] is an [asio_worker]: a thread per I/O context, which ends when the
    context's guard was reset and no work is left. [server] adds to the state of
    [AsioServer] what decides whether there is work: the timer, an accept that is
    done but not handled, and the two pools of threads. A handler that is already
    queued cannot be cancelled, as ASIO documents, so that [stop] may come
    between the end of a wait and its handler. [dstep] are the steps of a running
    server, [lstep] adds what the application does. *)

From S2P Require Import Prelude MemChunk TcpMessage Lymsg Framing TcpUser AsioUser AsioServer.

(** ** [asio_worker] *)

Inductive thread_state := TRun | TEnd | TJoined.
Record thread := MkThread { th_ctx : nat; th_state : thread_state }.

Record workers := MkPool {
  wp_guards : list bool;        (* _guards, by context: whether it has work *)
  wp_stopped : list bool;       (* a context whose run() has returned *)
  wp_threads : list thread;     (* _threads *)
}.

Definition new_workers (num : nat) : workers := MkPool (replicate num true) (replicate num false) [].
Definition wp_count (w : workers) : nat := length (wp_guards w).

Definition workers_start (w : workers) : workers :=
  MkPool (wp_guards w) (wp_stopped w) (wp_threads w ++ ((fun i => MkThread i TRun) <$> seq 0 (wp_count w))).
Definition workers_stop (w : workers) : workers := MkPool ((fun _ => false) <$> wp_guards w) (wp_stopped w) (wp_threads w).

(** [join] waits for a thread that runs, and throws for one that was joined. *)
Inductive joined A := Joined (a : A) | JoinWaits | JoinThrows.
Arguments Joined {A}.
Arguments JoinWaits {A}.
Arguments JoinThrows {A}.

Fixpoint join_threads (ts : list thread) : joined (list thread) :=
  match ts with
  | [] => Joined []
  | t :: ts =>
      match th_state t with
      | TRun => JoinWaits
      | TJoined => JoinThrows
      | TEnd => match join_threads ts with Joined ts => Joined (MkThread (th_ctx t) TJoined :: ts) | r => r end
      end
  end.
Definition workers_join (w : workers) : joined workers :=
  match join_threads (wp_threads w) with
  | Joined ts => Joined (MkPool (wp_guards w) (wp_stopped w) ts)
  | JoinWaits => JoinWaits
  | JoinThrows => JoinThrows
  end.

(** Context [i] is served by a thread. *)
Definition serves (w : workers) (i : nat) : Prop :=
  MkThread i TRun ∈ wp_threads w /\ wp_stopped w !! i = Some false.

(** The end of a thread's [run()], where [work] tells the contexts with work. *)
Inductive pool_end (work : nat -> Prop) (w : workers) : workers -> Prop :=
| pool_end_intro j i :
    wp_threads w !! j = Some (MkThread i TRun) ->
    wp_stopped w !! i = Some true \/ (wp_guards w !! i = Some false /\ ~ work i) ->
    pool_end work w (MkPool (wp_guards w) (<[i := true]> (wp_stopped w)) (<[j := MkThread i TEnd]> (wp_threads w))).

(** ** [tcpsock_server] *)

(** The wait of [_timer]: none, under way, over (its handler is queued), or
    cancelled (its handler is queued). *)
Inductive timer_op := TmNone | TmArmed | TmFired | TmAborted.

Record server := MkLife {
  sv_core : aserver;
  sv_open : bool;                    (* the acceptor is open *)
  sv_accepted : option (option ec);  (* the accept is done; its handler is queued *)
  sv_timer : timer_op;
  sv_io : workers;                   (* _ioProcessor *)
  sv_biz : option workers;           (* _worker *)
}.

Definition set_core (c : aserver) (s : server) : server :=
  MkLife c (sv_open s) (sv_accepted s) (sv_timer s) (sv_io s) (sv_biz s).

Definition new_server : server :=
  MkLife (MkAServer ∅ ∅ 0 AsioDefaultMaxConns false ∅) false None TmNone (new_workers 1) None.

Definition setMaxConnections (max : Z) (s : server) : server :=
  let c := sv_core s in set_core (MkAServer (as_users c) (as_heap c) (as_next c) max (as_accepting c) (as_shaking c)) s.
Definition getMaxConnections (s : server) : Z := as_max (sv_core s).

(** What [do_listen] calls: whether each succeeds. An acceptor that is open
    cannot be opened. *)
Record listening := MkListen { ls_resolve : bool; ls_open : bool; ls_reuse : bool; ls_bind : bool; ls_listen : bool }.

Definition do_listen (l : listening) (s : server) : Z * server :=
  let opened := MkLife (sv_core s) true (sv_accepted s) (sv_timer s) (sv_io s) (sv_biz s) in
  if negb (ls_resolve l) then (-1, s)
  else if sv_open s || negb (ls_open l) then (-1, s)
  else if negb (ls_reuse l) then (-1, opened)
  else if negb (ls_bind l) then (-1, opened)
  else if negb (ls_listen l) then (-1, opened)
  else (0, opened).

Definition fire_timer (s : server) : server :=
  MkLife (sv_core s) (sv_open s) (sv_accepted s) TmArmed (sv_io s) (sv_biz s).

Definition server_start (workerNum : Z) (l : listening) (s : server) : server :=
  let n := Z.to_nat (clamp_asio_workers workerNum) in
  let s := MkLife (sv_core s) (sv_open s) (sv_accepted s) (sv_timer s) (sv_io s) (Some (workers_start (new_workers n))) in
  let '(rc, s) := do_listen l s in
  let s := if rc =? 0 then set_core (do_accept (sv_core s)) s else s in
  let s := MkLife (sv_core s) (sv_open s) (sv_accepted s) (sv_timer s) (workers_start (sv_io s)) (sv_biz s) in
  fire_timer s.

(** [cancel]: what is under way ends with [operation_aborted]; what is over stays. *)
Definition acceptor_cancel (s : server) : server :=
  MkLife (sv_core s) (sv_open s)
    (if as_accepting (sv_core s) then match sv_accepted s with None => Some (Some EcAborted) | a => a end else sv_accepted s)
    (sv_timer s) (sv_io s) (sv_biz s).
Definition timer_cancel (s : server) : server :=
  MkLife (sv_core s) (sv_open s) (sv_accepted s) (match sv_timer s with TmArmed => TmAborted | t => t end) (sv_io s) (sv_biz s).

(** [stop] up to [join]. [cancel] of an acceptor that is not open throws, and the
    timer's is behind it. Without [start], [_worker] is null. *)
Definition server_stop_all (s : server) : option server :=
  let s := if sv_open s then timer_cancel (acceptor_cancel s) else s in
  let s := set_core (server_stop (sv_core s)) s in
  match sv_biz s with
  | None => None
  | Some biz => Some (MkLife (sv_core s) (sv_open s) (sv_accepted s) (sv_timer s) (workers_stop (sv_io s)) (Some (workers_stop biz)))
  end.

(** [serveUtilStop]; without [start], [_worker] is null. *)
Definition serveUtilStop (s : server) : option (joined server) :=
  match workers_join (sv_io s) with
  | JoinWaits => Some JoinWaits
  | JoinThrows => Some JoinThrows
  | Joined io =>
      match workers_join <$> sv_biz s with
      | None => None
      | Some (Joined biz) => Some (Joined (MkLife (sv_core s) (sv_open s) (sv_accepted s) (sv_timer s) io (Some biz)))
      | Some JoinWaits => Some JoinWaits
      | Some JoinThrows => Some JoinThrows
      end
  end.

(** ** Steps *)

(** The steps of a connection's own operations and of its I/O strand, which
    runs where [io] holds. *)
Inductive op_step (proto : protocol) (io : Prop) : auser -> auser -> Prop :=
| os_io u t ts now : io -> au_io u = t :: ts -> op_step proto io u (run_io proto now t (set_io u ts))
| os_read u op d :
    au_rd u = Some op -> size_of d = read_size proto op ->
    op_step proto io u (post_io (saw_bytes d (set_rd u None)) (read_task op (inl d)))
| os_read_error u op e :
    au_rd u = Some op -> (e = EcAborted -> au_stop u = true) ->
    op_step proto io u (post_io (set_rd u None) (read_task op (inr e)))
| os_write u m :
    au_wr u = Some m -> op_step proto io u (post_io (saw_written [m] m (set_wrop u None)) (IoHandleWrite None))
| os_write_error u m k e :
    au_wr u = Some m -> (e = EcAborted -> au_stop u = true) ->
    op_step proto io u (post_io (saw_written [] (take k m) (set_wrop u None)) (IoHandleWrite (Some e))).

Section life.
Context (proto : protocol) (strand : nat -> nat).   (* the context of a connection's worker strand *)

(** The connection keeps the I/O context at work. *)
Definition user_busy (x : auser) : Prop := au_io x <> [] \/ is_Some (au_rd x) \/ is_Some (au_wr x).

Definition io_work (s : server) : Prop :=
  as_accepting (sv_core s) = true \/ sv_timer s <> TmNone \/ as_shaking (sv_core s) <> ∅ \/
  exists u x, as_heap (sv_core s) !! u = Some x /\ user_busy x.
Definition biz_work (s : server) (i : nat) : Prop :=
  exists u x, as_heap (sv_core s) !! u = Some x /\ strand u = i /\ au_wk x <> [].

Definition io_runs (s : server) : Prop := serves (sv_io s) 0.

Inductive dstep (s : server) : server -> Prop :=
| d_incoming e :
    as_accepting (sv_core s) = true -> sv_accepted s = None -> e <> Some EcAborted ->
    dstep s (MkLife (sv_core s) (sv_open s) (Some e) (sv_timer s) (sv_io s) (sv_biz s))
| d_accept e :
    io_runs s -> as_accepting (sv_core s) = true -> sv_accepted s = Some e ->
    dstep s (MkLife (handle_accept e (sv_core s)) (sv_open s) None (sv_timer s) (sv_io s) (sv_biz s))
| d_expire : sv_timer s = TmArmed -> dstep s (MkLife (sv_core s) (sv_open s) (sv_accepted s) TmFired (sv_io s) (sv_biz s))
| d_timer now : io_runs s -> sv_timer s = TmFired -> dstep s (fire_timer (set_core (on_timer proto now (sv_core s)) s))
| d_timer_aborted : io_runs s -> sv_timer s = TmAborted -> dstep s (MkLife (sv_core s) (sv_open s) (sv_accepted s) TmNone (sv_io s) (sv_biz s))
| d_handshake u e : io_runs s -> u ∈ as_shaking (sv_core s) -> dstep s (set_core (handle_handshake u e (sv_core s)) s)
| d_worker u x biz :
    sv_biz s = Some biz -> serves biz (strand u) -> as_heap (sv_core s) !! u = Some x -> au_wk x <> [] ->
    dstep s (set_core (run_worker u (sv_core s)) s)
| d_user u x x' :
    u ∉ as_shaking (sv_core s) -> as_heap (sv_core s) !! u = Some x -> op_step proto (io_runs s) x x' ->
    dstep s (set_core (set_heap (sv_core s) (<[u := x']> (as_heap (sv_core s)))) s)
| d_io_end io : pool_end (fun _ => io_work s) (sv_io s) io -> dstep s (MkLife (sv_core s) (sv_open s) (sv_accepted s) (sv_timer s) io (sv_biz s))
| d_biz_end biz biz' :
    sv_biz s = Some biz -> pool_end (biz_work s) biz biz' ->
    dstep s (MkLife (sv_core s) (sv_open s) (sv_accepted s) (sv_timer s) (sv_io s) (Some biz')).

(** Any thread posts to a connection, or stops it. *)
Inductive lstep (s : server) : server -> Prop :=
| l_own s' : dstep s s' -> lstep s s'
| l_post u x m :
    u ∉ as_shaking (sv_core s) -> as_heap (sv_core s) !! u = Some x ->
    lstep s (set_core (set_heap (sv_core s) (<[u := post m x]> (as_heap (sv_core s)))) s)
| l_stop u x :
    u ∉ as_shaking (sv_core s) -> as_heap (sv_core s) !! u = Some x ->
    lstep s (set_core (set_heap (sv_core s) (<[u := snd (stop x)]> (as_heap (sv_core s)))) s).
End life.

(** ** A running server *)

Section running.
Context (proto : protocol) `{!ProtocolLaws proto}.

Lemma run_wk_stop t u : au_stop (run_wk t u) = au_stop u.
Proof. by destruct t. Qed.

Lemma op_step_ustep io x x' : op_step proto io x x' -> ustep proto x x' /\ tr_log (au_tr x') = tr_log (au_tr x).
Proof.
  destruct 1 as [u t ts now ? E|u op d ? ?|u op e ? ?|u m ?|u m k e ? ?].
  - split; [by constructor|]. by destruct (run_io_calls proto now t (set_io u ts)) as (l & _ & _ & -> & _).
  - split; [by apply us_read|done].
  - split; [by apply us_read_error|done].
  - split; [by apply us_write|done].
  - split; [by apply us_write_error|done].
Qed.

(** A connection that was stopped stays stopped. *)
Lemma ustep_stop u u' : ustep proto u u' -> au_stop u = true -> au_stop u' = true.
Proof.
  intros Hs H. destruct Hs as [u t ts now E|u t ts E|u op d Ho Hd|u op e Ho He|u m Hw|u m k e Hw He|u now|u m|u]; try done.
  - destruct (run_io_calls proto now t (set_io u ts)) as (l & _ & _ & _ & Hk & _). by apply Hk.
  - by rewrite run_wk_stop.
  - unfold on_tick. by rewrite H.
  - unfold stop, try_stop. by rewrite H.
Qed.

(** Every connection is served, at its handshake, or stopped. *)
Definition accounted (c : aserver) : Prop :=
  forall u x, as_heap c !! u = Some x -> (u ∈ as_users c) \/ (u ∈ as_shaking c) \/ au_stop x = true.

Lemma reachable_calls b x : user_reachable proto b x -> calls_inv x.
Proof.
  intros Hr. assert (calls_inv (start (new_auser b))) as H0.
  { split; [left; by exists []|by apply Nat.leb_le|by intros H%Nat.ltb_lt]. }
  induction Hr as [|y z w Hyz _ IH] in H0 |- *; [done|]. apply IH. by eapply ustep_calls.
Qed.

Lemma astep_accounted c c' : astep proto c c' -> aserver_inv proto c -> accounted c -> accounted c'.
Proof.
  intros Hs Hinv Hacc.
  assert (forall u x, (u ∈ as_users c) \/ (u ∈ as_shaking c) \/ au_stop x = true ->
    forall v y, <[u := x]> (as_heap c) !! v = Some y -> (v ∈ as_users c) \/ (v ∈ as_shaking c) \/ au_stop y = true) as Hup.
  { intros u x Hx v y. rewrite lookup_insert. case_decide; [subst; by intros [= <-]|apply Hacc]. }
  destruct Hs as [s e Ha|s u e Hu|s now|s u|s u x x' Hn Hx Hst Hl].
  - destruct e as [[| |]|]; [done..|]. intros v y. cbn. rewrite lookup_insert. case_decide; [subst; set_solver|].
    intros Hy. destruct (Hacc v y Hy) as [?|[?|?]]; [by left|right; left; set_solver|by right; right].
  - unfold handle_handshake. cbn [as_heap]. destruct (as_heap s !! u) as [x|] eqn:Ex.
    + pose proof (av_new _ _ Hinv u x Hu Ex) as ->.
      assert (forall v y, v <> u -> as_heap s !! v = Some y -> (v ∈ as_users s) \/ (v ∈ as_shaking s ∖ {[u]}) \/ au_stop y = true) as Hrest.
      { intros v y Hv Hy. destruct (Hacc v y Hy) as [?|[?|?]]; [by left|right; left; set_solver|by right; right]. }
      destruct e; [|case_if]; intros v y; cbn; rewrite lookup_insert; case_decide; subst.
      all: try (intros [= <-]; right; right; reflexivity).
      all: try (intros Hy; by eapply Hrest).
      * intros _. left. set_solver.
      * intros Hy. destruct (Hrest v y) as [?|[?|?]]; [done|done|left; set_solver|right; by left|by right; right].
    + intros v y Hy. destruct (Hacc v y Hy) as [?|[?|?]]; [by left| |by right; right].
      right; left. cbn. assert (v <> u) by (intros ->; cbn in Hy; congruence). set_solver.
  - intros v y. rewrite timer_heap. destruct (as_heap s !! v) as [z|] eqn:Ez; [|done]. cbn. intros [= <-].
    destruct (Hacc v z Ez) as [?|[?|?]]; [by left|right; by left|right; right]. case_bool_decide; [|done].
    unfold on_tick. by rewrite H.
  - unfold run_worker. destruct (as_heap s !! u) as [x|] eqn:Ex; [|done]. destruct (au_wk x) as [|t ts] eqn:Et; [done|].
    assert (accounted (set_heap s (<[u := run_wk t (set_wk x ts)]> (as_heap s)))) as H1.
    { intros v y. cbn. apply Hup. rewrite run_wk_stop. exact (Hacc u x Ex). }
    destruct t; [done..|]. intros v y Hy. destruct (H1 v y Hy) as [Hv|?]; [|by right]. cbn in *.
    destruct (decide (v = u)) as [->|]; [|left; set_solver]. right; right.
    destruct (av_users _ _ Hinv u Hv) as (z & Hz & Hr). assert (z = x) as -> by congruence.
    rewrite lookup_insert, decide_True in Hy by done. injection Hy as <-. change (au_stop x = true).
    apply (ci_stop _ (reachable_calls _ _ Hr)). rewrite Et, cnt_cons. cbn. lia.
  - intros v y. cbn. apply Hup. destruct (Hacc u x Hx) as [?|[?|?]]; [by left|right; by left|right; right; by eapply ustep_stop].
Qed.

(** Between [start] and [stop]. *)
Record running (n : nat) (s : server) : Prop := {
  rn_io : sv_io s = MkPool [true] [false] [MkThread 0 TRun];
  rn_biz : sv_biz s = Some (workers_start (new_workers n));
  rn_timer : sv_timer s = TmArmed \/ sv_timer s = TmFired;
  rn_accepted : is_Some (sv_accepted s) -> as_accepting (sv_core s) = true;
  rn_core : aserver_inv proto (sv_core s);
  rn_accounted : accounted (sv_core s);
}.

(** While a guard is there, its thread does not end. *)
Lemma guarded_runs work n w : ~ pool_end work (workers_start (new_workers n)) w.
Proof.
  intros He. inversion He as [j i Hj Hi]. cbn in Hi. clear -Hi.
  destruct Hi as [Hi|[Hi _]]; apply lookup_replicate in Hi as [? _]; done.
Qed.

Lemma start_running max workerNum l s :
  s = server_start workerNum l (setMaxConnections max new_server) ->
  running (Z.to_nat (clamp_asio_workers workerNum)) s /\
  (as_accepting (sv_core s) = true <-> (do_listen l new_server).1 = 0) /\ sv_open s = ls_resolve l && ls_open l.
Proof.
  assert (forall b, aserver_inv proto (MkAServer ∅ ∅ 0 max b ∅) /\ accounted (MkAServer ∅ ∅ 0 max b ∅)) as H0.
  { intros b. split; [split; cbn; try set_solver; unfold currentConnections; cbn; rewrite size_empty; lia|done]. }
  intros ->. unfold server_start, do_listen. cbn.
  destruct l as [[] [] [] [] []]; cbn; (split; [|by split]); split; cbn; try done; try (by left); try (by intros []); apply H0.
Qed.

(** What a step does to the connections is a step of [AsioServer]. *)
Lemma dstep_core strand n s s' :
  running n s -> dstep proto strand s s' -> sv_core s' = sv_core s \/ astep proto (sv_core s) (sv_core s').
Proof.
  intros Hr Hs. destruct Hs as [e Ha Hd He|e Hio Ha Hd|Ht|now Hio Ht|Hio Ht|u e Hio Hu|u x biz Hb Hsv Hx Hw|u x x' Hu Hx Hop|io He|biz biz' Hb He];
    try (by left); right; cbn.
  - by apply as_accept.
  - by apply as_timer.
  - by apply as_handshake.
  - by apply as_worker.
  - apply op_step_ustep in Hop as [? ?]. by eapply as_user.
Qed.

Lemma running_core n s c : running n s -> astep proto (sv_core s) c -> aserver_inv proto c /\ accounted c.
Proof. intros Hr Hs. split; [eapply aserver_step_inv|eapply astep_accounted]; try done; by apply Hr. Qed.

Lemma set_core_running n s c :
  running n s -> astep proto (sv_core s) c -> as_accepting c = as_accepting (sv_core s) -> running n (set_core c s).
Proof.
  intros Hr Hs Ha. destruct (running_core n s c Hr Hs) as [H1 H2]. destruct Hr as [R1 R2 R3 R4 _ _]. split; cbn; try done.
  intros Hd. rewrite Ha. by apply R4.
Qed.

Lemma handshake_accepting u e c : as_accepting (handle_handshake u e c) = as_accepting c.
Proof. unfold handle_handshake. by repeat case_match. Qed.

Lemma worker_accepting u c : as_accepting (run_worker u c) = as_accepting c.
Proof. unfold run_worker. by repeat case_match. Qed.

Lemma lstep_running strand n s s' : lstep proto strand s s' -> running n s -> running n s'.
Proof.
  intros Hs Hr. pose proof Hr as [R1 R2 R3 R4 R5 R6]. destruct Hs as [s' Hs|u x m Hu Hx|u x Hu Hx].
  - destruct Hs as [e Ha Hd He|e Hio Ha Hd|Ht|now Hio Ht|Hio Ht|u e Hio Hu|u x biz Hb Hsv Hx Hw|u x x' Hu Hx Hop|io He|biz biz' Hb He].
    + by split.
    + destruct (running_core n s (handle_accept e (sv_core s)) Hr (as_accept _ _ e Ha)). split; cbn; done.
    + split; try done. by right.
    + destruct (running_core n s (on_timer proto now (sv_core s)) Hr (as_timer _ _ now)). split; cbn; try done. by left.
    + destruct R3; congruence.
    + apply set_core_running; [done|by apply as_handshake|apply handshake_accepting].
    + apply set_core_running; [done|by apply as_worker|apply worker_accepting].
    + apply op_step_ustep in Hop as [? ?]. apply set_core_running; [done|by eapply as_user|done].
    + rewrite R1 in He. by apply (guarded_runs _ 1) in He.
    + rewrite R2 in Hb. injection Hb as <-. by apply guarded_runs in He.
  - apply set_core_running; [done|eapply as_user; [done|done|apply us_post|done]|done].
  - apply set_core_running; [done|eapply as_user; [done|done|apply us_stop|]|done]. unfold stop, try_stop. by case_if.
Qed.

Lemma steps_running strand n s s' : rtc (lstep proto strand) s s' -> running n s -> running n s'.
Proof. induction 1 as [|x y z Hxy _ IH]; [done|]. intros H. by eapply IH, lstep_running. Qed.

(** ** A stop that never ends *)

(** The timer goes on: there is always work for the I/O thread. *)
Definition ticking (s : server) : Prop :=
  (sv_timer s = TmArmed \/ sv_timer s = TmFired) /\ sv_io s = MkPool [false] [false] [MkThread 0 TRun].

Lemma dstep_ticking strand s s' : dstep proto strand s s' -> ticking s -> ticking s'.
Proof.
  intros Hs [Ht Hio]. destruct Hs as [| | |now H1 H2| | | | |io He|]; try (by split); try (split; [|done]); cbn; auto.
  - destruct Ht; congruence.
  - rewrite Hio in He. inversion He as [j i Hj Hi]. exfalso. destruct j as [|j]; [|done]. injection Hj as <-. cbn in Hi.
    destruct Hi as [[=]|[_ Hn]]. apply Hn. right; left. by destruct Ht as [-> | ->].
Qed.

Lemma lstep_ticking strand s s' : lstep proto strand s s' -> ticking s -> ticking s'.
Proof. destruct 1; [by eapply dstep_ticking|done..]. Qed.

(** Where the name was not resolved, or the acceptor could not be opened, [stop]
    does not reach the timer; where the timer's handler is already queued,
    [cancel] has no effect on it. In both cases the I/O thread never ends, and
    [serveUtilStop] waits for ever. *)
Theorem stop_never_ends strand max workerNum l s s1 s2 :
  rtc (lstep proto strand) (server_start workerNum l (setMaxConnections max new_server)) s ->
  sv_open s = false \/ sv_timer s = TmFired ->
  server_stop_all s = Some s1 -> rtc (lstep proto strand) s1 s2 -> serveUtilStop s2 = Some JoinWaits.
Proof.
  intros Hr Hc Hstop Hs. destruct (start_running max workerNum l _ eq_refl) as [H0 _].
  pose proof (steps_running _ _ _ _ Hr H0) as [R1 R2 R3 _ _ _]. clear Hr H0.
  assert (ticking s1) as H1.
  { unfold server_stop_all in Hstop. destruct (sv_open s) eqn:Eo; cbn in Hstop; rewrite R2, R1 in Hstop; injection Hstop as <-.
    - destruct Hc as [|Hc]; [done|]. split; [|done]. cbn. rewrite Hc. by right.
    - by split. }
  assert (ticking s2) as [_ H2].
  { clear -Hs H1. induction Hs as [|x y z Hxy _ IH]; [done|]. by eapply IH, lstep_ticking. }
  unfold serveUtilStop. by rewrite H2.
Qed.
End running.

(** ** Sums *)

Fixpoint sum_of {A} (f : A -> nat) (l : list A) : nat := match l with [] => 0 | x :: l => f x + sum_of f l end.

Lemma sum_app {A} (f : A -> nat) l k : sum_of f (l ++ k) = (sum_of f l + sum_of f k)%nat.
Proof. induction l as [|x l IH]; cbn; [done|]. rewrite IH. lia. Qed.

Lemma sum_insert {A} (f : A -> nat) l j x y :
  l !! j = Some x -> (sum_of f (<[j := y]> l) + f x = sum_of f l + f y)%nat.
Proof.
  revert j. induction l as [|z l IH]; intros [|j] H; [done..| |].
  - injection H as ->. cbn. lia.
  - specialize (IH j H). change (f z + sum_of f (<[j := y]> l) + f x = f z + sum_of f l + f y)%nat. lia.
Qed.

Definition total {A} (f : A -> nat) (m : gmap nat A) : nat := map_fold (fun _ x n => f x + n)%nat 0%nat m.

Lemma total_new {A} (f : A -> nat) m i x : m !! i = None -> total f (<[i := x]> m) = (f x + total f m)%nat.
Proof. intros H. apply (map_fold_insert_L (fun _ x n => f x + n)%nat 0%nat i x m); [intros; lia|done]. Qed.

Lemma total_insert {A} (f : A -> nat) m i x y :
  m !! i = Some x -> (total f (<[i := y]> m) + f x = total f m + f y)%nat.
Proof.
  intros H. pose proof (total_new f (delete i m) i x (lookup_delete_eq m i)) as Hx.
  pose proof (total_new f (delete i m) i y (lookup_delete_eq m i)) as Hy.
  rewrite insert_delete_eq in Hx, Hy. rewrite (insert_id m i x H) in Hx. lia.
Qed.

(** ** A connection that was stopped *)

Definition task_weight (t : wk_task) : nat := match t with WkConnect => 2 | _ => 1 end.

(** What a stopped connection still has to do. *)
Definition weight (x : auser) : nat :=
  sum_of task_weight (au_wk x) + length (au_io x) + (match au_rd x with Some _ => 2 | None => 0 end) +
  (match au_wr x with Some _ => 2 | None => 0 end) + length (au_readQ x).

Lemma chunks_count fuel (q : list bytes) : (length (chunks fuel q) <= length q)%nat.
Proof.
  revert q. induction fuel as [|fuel IH]; intros [|m q]; cbn [chunks length]; try lia.
  specialize (IH (drop MaxBatchSize (m :: q))). rewrite length_drop in IH. cbn in *. lia.
Qed.

Lemma chunks_weight (ls : list (list bytes)) : sum_of task_weight (WkChunk <$> ls) = length ls.
Proof. induction ls as [|l ls IH]; [done|]. cbn in *. by rewrite IH. Qed.

Section stopped.
Context (proto : protocol).

Lemma run_io_weight now t ts u : au_stop u = true -> au_io u = t :: ts ->
  (weight (run_io proto now t (set_io u ts)) < weight u)%nat.
Proof.
  intros Hs E. unfold weight. rewrite E. cbn [length].
  destruct t as [|[h|e]|h [b|e]| |m|[e|]]; cbn [run_io].
  - unfold read_header. cbn. rewrite Hs. cbn. lia.
  - unfold read_body. cbn. rewrite Hs. cbn. lia.
  - destruct e; unfold on_error, handle_error, try_stop; cbn; rewrite ?Hs; cbn; lia.
  - unfold handle_read. cbn. rewrite Hs. cbn. lia.
  - destruct e; unfold on_error, handle_error, try_stop; cbn; rewrite ?Hs; cbn; lia.
  - unfold dispatch. cbn -[chunks]. rewrite sum_app, chunks_weight. pose proof (chunks_count (length (au_readQ u)) (au_readQ u)). lia.
  - unfold write_data. cbn [au_writeQ set_io]. destruct (_ <? _); [|cbn; lia]. destruct (au_writeQ u) as [|m' q]; [unfold do_write|]; cbn; rewrite ?Hs; cbn; lia.
  - destruct e; unfold on_error, handle_error, try_stop; cbn; rewrite ?Hs; cbn; lia.
  - unfold handle_write. cbn [au_writeQ set_io au_server]. destruct (au_writeQ u) as [|m [|m' q]] eqn:Eq; [cbn; rewrite Eq; cbn; lia|..];
      cbn; destruct (au_server u); cbn; rewrite ?Hs; cbn; lia.
Qed.

Lemma op_weight io x x' : op_step proto io x x' -> au_stop x = true -> (weight x' < weight x)%nat.
Proof.
  intros Hs H. destruct Hs as [u t ts now ? E|u op d Ho ?|u op e Ho ?|u m Hw|u m k e Hw ?]; [by apply run_io_weight|..];
    unfold weight; cbn; rewrite ?Ho, ?Hw, length_app; cbn; lia.
Qed.

Lemma run_wk_weight t ts u : au_wk u = t :: ts -> (weight (run_wk t (set_wk u ts)) < weight u)%nat.
Proof. intros E. unfold weight. rewrite E. destruct t; cbn; rewrite ?length_app; cbn; lia. Qed.
End stopped.

(** ** A stop that ends *)

Definition thread_weight (t : thread) : nat := match th_state t with TRun => 1 | _ => 0 end.

(** A pool whose guards were reset: thread [i] runs context [i], or has ended
    and the context with it. *)
Record drained (n : nat) (w : workers) : Prop := {
  dr_guards : wp_guards w = replicate n false;
  dr_count : length (wp_threads w) = n;
  dr_threads : forall j t, wp_threads w !! j = Some t -> th_ctx t = j /\
    ((th_state t = TRun /\ wp_stopped w !! j = Some false) \/ (th_state t = TEnd /\ wp_stopped w !! j = Some true));
}.

Lemma workers_stop_drained n : drained n (workers_stop (workers_start (new_workers n))).
Proof.
  split; cbn; [apply fmap_replicate|by rewrite length_fmap, length_seq, length_replicate|]. intros j t Hj. unfold wp_count in Hj. cbn in Hj. rewrite length_replicate in Hj.
  apply list_lookup_fmap_Some in Hj as (i & -> & Hi). apply lookup_seq in Hi as [-> Hi]. split; [done|].
  left. split; [done|]. by apply lookup_replicate.
Qed.

Lemma pool_end_drained n work w w' : pool_end work w w' -> drained n w ->
  drained n w' /\ (sum_of thread_weight (wp_threads w') < sum_of thread_weight (wp_threads w))%nat.
Proof.
  intros [j i Hj Hi] [D1 D0 D2]. pose proof (D2 _ _ Hj) as [E [[_ Hs]|[? _]]]; [|done]. cbn in E. subst i. split.
  - split; [done|cbn; by rewrite length_insert|]. cbn. intros k t. destruct (decide (k = j)) as [->|Hne].
    + rewrite list_lookup_insert_eq by (by eapply lookup_lt_Some). intros [= <-]. split; [done|]. right. split; [done|].
      apply list_lookup_insert_eq. by eapply lookup_lt_Some.
    + rewrite !list_lookup_insert_ne by done. apply D2.
  - pose proof (sum_insert thread_weight _ _ _ (MkThread j TEnd) Hj) as H. cbn [wp_threads] in *.
    unfold thread_weight at 2 4 in H. cbn [th_state] in H. lia.
Qed.

(** Where nothing is left to do, a pool ends. *)
Lemma drained_progress n work w :
  drained n w -> (forall i, serves w i -> ~ work i) ->
  (forall w', ~ pool_end work w w') -> Forall (fun t => th_state t = TEnd) (wp_threads w).
Proof.
  intros [D1 D0 D2] Hw Hstuck. apply Forall_lookup. intros j t Hj. destruct (D2 _ _ Hj) as [E [[Hr Hs]|[? _]]]; [|done]. exfalso.
  destruct t as [i st]. cbn in *. subst. eapply Hstuck. eapply (pool_end_intro _ _ j j); [done|]. right. split.
  - rewrite D1. apply lookup_replicate. split; [done|]. by eapply lookup_lt_Some.
  - apply Hw. split; [by eapply list_elem_of_lookup_2|done].
Qed.

Section ending.
Context (proto : protocol) `{!ProtocolLaws proto} (strand : nat -> nat).

(** After a [stop] that reached the acceptor and the timer. *)
Record closing (n : nat) (s : server) : Prop := {
  cl_io : drained 1 (sv_io s);
  cl_biz : exists biz, sv_biz s = Some biz /\ drained n biz;
  cl_timer : sv_timer s = TmAborted \/ sv_timer s = TmNone;
  cl_accept : as_accepting (sv_core s) = true -> sv_accepted s = Some (Some EcAborted);
  cl_shaking : as_shaking (sv_core s) = ∅;
  cl_stopped : forall u x, as_heap (sv_core s) !! u = Some x -> au_stop x = true;
}.

Definition measure (s : server) : nat :=
  total weight (as_heap (sv_core s)) + (if as_accepting (sv_core s) then 1 else 0) +
  (match sv_timer s with TmNone => 0 | _ => 1 end) + sum_of thread_weight (wp_threads (sv_io s)) +
  (match sv_biz s with Some biz => sum_of thread_weight (wp_threads biz) | None => 0 end).

Lemma heap_step n s u x x' :
  closing n s -> as_heap (sv_core s) !! u = Some x -> au_stop x' = true -> (weight x' < weight x)%nat ->
  let s' := set_core (set_heap (sv_core s) (<[u := x']> (as_heap (sv_core s)))) s in
  closing n s' /\ (measure s' < measure s)%nat.
Proof.
  intros [C1 C2 C3 C4 C5 C6] Hx Hs Hw. split.
  - split; cbn; try done. intros v y. rewrite lookup_insert. case_decide; [by intros [= <-]|apply C6].
  - unfold measure. cbn. pose proof (total_insert weight _ _ _ x' Hx). lia.
Qed.

Lemma users_measure s us : measure (set_core (set_users (sv_core s) us) s) = measure s.
Proof. done. Qed.

Lemma dstep_closing n s s' : dstep proto strand s s' -> closing n s -> closing n s' /\ (measure s' < measure s)%nat.
Proof.
  intros Hs Hc. pose proof Hc as [C1 C2 C3 C4 C5 C6].
  destruct Hs as [e Ha Hd He|e Hio Ha Hd|Ht|now Hio Ht|Hio Ht|u e Hio Hu|u x biz Hb Hsv Hx Hw|u x x' Hu Hx Hop|io He|biz biz' Hb He].
  - pose proof (C4 Ha). congruence.
  - pose proof (C4 Ha) as E. assert (e = Some EcAborted) as -> by congruence. unfold measure. rewrite Ha. split; [by split|cbn; lia].
  - destruct C3; congruence.
  - destruct C3; congruence.
  - unfold measure. rewrite Ht. split; [|cbn; lia]. split; try done. by right.
  - rewrite C5 in Hu. set_solver.
  - unfold run_worker. rewrite Hx. destruct (au_wk x) as [|t ts] eqn:Et; [done|].
    destruct (heap_step n s u x (run_wk t (set_wk x ts)) Hc Hx) as [H1 H2].
    { rewrite run_wk_stop. exact (C6 u x Hx). }
    { by apply run_wk_weight. }
    destruct t; try done. split; [|done]. destruct H1 as [A1 A2 A3 A4 A5 A6]. by split.
  - apply (heap_step n s u x); [done|done| |].
    + eapply (ustep_stop proto); [by eapply op_step_ustep|by eapply C6].
    + eapply op_weight; [done|by eapply C6].
  - destruct (pool_end_drained _ _ _ _ He C1) as [H1 H2]. split; [by split|]. unfold measure. cbn. lia.
  - destruct C2 as (biz0 & Hb0 & C2). assert (biz0 = biz) as -> by congruence.
    destruct (pool_end_drained _ _ _ _ He C2) as [H1 H2]. split.
    + split; try done. cbn. by exists biz'.
    + unfold measure. rewrite Hb. cbn. lia.
Qed.

(** A server that can take no step has ended its threads. *)
Lemma closing_stuck n s : closing n s -> (forall s', ~ dstep proto strand s s') -> exists s', serveUtilStop s = Some (Joined s').
Proof.
  intros [C1 (biz & Hb & C2) C3 C4 C5 C6] Hstuck.
  assert (Forall (fun t => th_state t = TEnd) (wp_threads (sv_io s))) as Hio.
  { eapply (drained_progress 1 (fun _ => io_work s)); [done| |intros w' Hw; by eapply Hstuck, d_io_end].
    intros i [Hi Hs] Hwork. assert (i = 0%nat) as ->.
    { apply list_elem_of_lookup_1 in Hi as [j Hj]. pose proof (lookup_lt_Some _ _ _ Hj) as Hlt. destruct C1 as [_ D0 D2].
      destruct (D2 _ _ Hj) as [E _]. cbn in E. lia. }
    assert (io_runs s) as Hr by done. destruct Hwork as [Ha|[Ht|[Hsh|(u & x & Hx & Hbusy)]]].
    - eapply Hstuck, d_accept; [done..|by apply C4].
    - destruct C3 as [Ht'|]; [|done]. by eapply Hstuck, d_timer_aborted.
    - done.
    - assert (u ∉ as_shaking (sv_core s)) as Hn by (rewrite C5; set_solver). pose proof (C6 u x Hx) as Hst.
      destruct Hbusy as [Hb'|[[op Ho]|[m Hm]]].
      + destruct (au_io x) as [|t ts] eqn:Et; [done|]. eapply Hstuck, d_user; [done|done|by apply (os_io _ _ _ t ts 0)].
      + eapply Hstuck, d_user; [done|done|by eapply (os_read_error _ _ _ op EcAborted)].
      + eapply Hstuck, d_user; [done|done|by eapply (os_write_error _ _ _ m 0 EcAborted)]. }
  assert (Forall (fun t => th_state t = TEnd) (wp_threads biz)) as Hbz.
  { eapply (drained_progress n (biz_work strand s)); [done| |intros w' Hw; by eapply Hstuck, d_biz_end].
    intros i Hi (u & x & Hx & <- & Hwk). by eapply Hstuck, d_worker. }
  assert (forall ts, Forall (fun t => th_state t = TEnd) ts -> exists ts', join_threads ts = Joined ts') as Hjoin.
  { induction 1 as [|t ts Ht _ [ts' IH]]; [by eexists|]. cbn. rewrite Ht, IH. by eexists. }
  unfold serveUtilStop, workers_join. destruct (Hjoin _ Hio) as [io' ->]. rewrite Hb. cbn. unfold workers_join.
  destruct (Hjoin _ Hbz) as [biz' ->]. by eexists.
Qed.

Lemma closing_ends n s : closing n s -> Acc (flip (dstep proto strand)) s.
Proof.
  remember (measure s) as k eqn:Ek. revert s Ek. induction (lt_wf k) as [k _ IH]. intros s -> Hc. constructor. intros s' Hs.
  destruct (dstep_closing n s s' Hs Hc) as [Hc' Hlt]. by eapply IH.
Qed.

Lemma stop_all_closing n s s1 :
  running proto n s -> sv_open s = true -> sv_timer s = TmArmed -> sv_accepted s = None -> as_shaking (sv_core s) = ∅ ->
  server_stop_all s = Some s1 -> closing n s1.
Proof.
  intros [R1 R2 R3 R4 R5 R6] Ho Ht Ha Hsh. unfold server_stop_all. rewrite Ho. cbn. rewrite R2, R1. intros [= <-]. split; cbn; try done.
  - apply (workers_stop_drained 1).
  - eexists. split; [done|]. apply workers_stop_drained.
  - rewrite Ht. by left.
  - intros ->. by rewrite Ha.
  - intros u x. rewrite map_lookup_imap. destruct (as_heap (sv_core s) !! u) as [y|] eqn:Ey; [|done]. cbn. intros [= <-].
    case_bool_decide as Hu.
    + unfold stop, try_stop. by destruct (au_stop y) eqn:E.
    + destruct (R6 u y Ey) as [?|[Hs|?]]; [done| |done]. rewrite Hsh in Hs. set_solver.
Qed.

(** A server that listens, and is stopped while its timer and its acceptor wait
    and no handshake is under way, comes to an end, whatever its connections were
    doing: every run ends, in a state where all threads have ended and can be
    joined. *)
Theorem stop_ends max workerNum l s s1 :
  rtc (lstep proto strand) (server_start workerNum l (setMaxConnections max new_server)) s ->
  sv_open s = true -> sv_timer s = TmArmed -> sv_accepted s = None -> as_shaking (sv_core s) = ∅ ->
  server_stop_all s = Some s1 ->
  Acc (flip (dstep proto strand)) s1 /\
  forall s2, rtc (dstep proto strand) s1 s2 -> (forall s3, ~ dstep proto strand s2 s3) ->
    exists s', serveUtilStop s2 = Some (Joined s').
Proof.
  intros Hr Ho Ht Ha Hsh Hstop. destruct (start_running proto max workerNum l _ eq_refl) as [H0 _].
  pose proof (steps_running _ _ _ _ _ Hr H0) as Hrun. pose proof (stop_all_closing _ _ _ Hrun Ho Ht Ha Hsh Hstop) as Hc.
  split; [by eapply closing_ends|]. intros s2 Hs. apply (closing_stuck (Z.to_nat (clamp_asio_workers workerNum))). clear Hstop.
  induction Hs as [|x y z Hxy _ IH]; [done|]. apply IH. by eapply dstep_closing.
Qed.

(** A connection whose handshake is under way is not stopped: it is served after
    the stop. *)
Theorem handshake_survives_stop n s s1 u x :
  running proto n s -> u ∈ as_shaking (sv_core s) -> as_heap (sv_core s) !! u = Some x -> 0 < as_max (sv_core s) ->
  server_stop_all s = Some s1 ->
  exists s2, dstep proto strand s1 s2 /\ (u ∈ as_users (sv_core s2)) /\
    as_heap (sv_core s2) !! u = Some (start (new_auser true)).
Proof.
  intros [R1 R2 R3 R4 R5 R6] Hu Hx Hm. unfold server_stop_all. intros Hstop.
  assert (exists o a t, s1 = MkLife (server_stop (sv_core s)) o a t (MkPool [false] [false] [MkThread 0 TRun]) (Some (workers_stop (workers_start (new_workers n)))))
    as (o & a & t & ->).
  { destruct (sv_open s); cbn in Hstop; rewrite R2, R1 in Hstop; injection Hstop as <-; by do 3 eexists. }
  pose proof (av_new _ _ R5 u x Hu Hx) as ->. pose proof (av_shaking _ _ R5 u Hu) as Hn.
  eexists. split; [apply (d_handshake _ _ _ u None)|]; [split; [by left|done]|done|].
  unfold handle_handshake. cbn. rewrite map_lookup_imap, Hx. cbn. rewrite bool_decide_eq_false_2 by done.
  unfold currentConnections. cbn. rewrite size_empty. rewrite (proj2 (Z.leb_gt _ _)) by lia. cbn.
  split; [set_solver|]. by rewrite lookup_insert, decide_True.
Qed.
End ending.

Lemma start_io workerNum l s : sv_io (server_start workerNum l s) = workers_start (sv_io s).
Proof. unfold server_start, do_listen. by destruct l as [[] [] [] [] []], (sv_open s) eqn:E; cbn; rewrite ?E. Qed.

(** A server that was never started cannot be stopped; one that was joined cannot
    be joined again, nor can it be after another start. *)
Theorem life_once :
  server_stop_all new_server = None /\
  forall s s', wp_threads (sv_io s) <> [] -> serveUtilStop s = Some (Joined s') ->
    serveUtilStop s' = Some JoinThrows /\ forall workerNum l, serveUtilStop (server_start workerNum l s') = Some JoinThrows.
Proof.
  split; [done|]. intros s s' Hne Hj. unfold serveUtilStop, workers_join in Hj.
  destruct (wp_threads (sv_io s)) as [|t ts] eqn:Et; [done|]. cbn in Hj.
  destruct (th_state t); try done. destruct (join_threads ts) as [ts'| |]; try done.
  destruct (sv_biz s) as [biz|]; [|done]. cbn in Hj. destruct (join_threads (wp_threads biz)) as [bs| |]; simplify_eq.
  split; [done|]. intros workerNum l. unfold serveUtilStop. by rewrite start_io.
Qed.

(** ** [tcpsock_client] *)

Section client.
Context (proto : protocol).

Record client := MkLClient {
  lc_user : option auser;    (* _user *)
  lc_timer : timer_op;       (* _hb_timer *)
  lc_work : workers;         (* _worker, of two contexts *)
}.

Definition client_start (c : client) : client := MkLClient (lc_user c) TmArmed (workers_start (lc_work c)).

(** [stop] up to [join], and [join]. *)
Definition client_stop (c : client) : client :=
  MkLClient (lc_user c) (match lc_timer c with TmArmed => TmAborted | t => t end) (workers_stop (lc_work c)).
Definition client_join (c : client) : joined client :=
  match workers_join (lc_work c) with
  | Joined w => Joined (MkLClient (lc_user c) (lc_timer c) w)
  | JoinWaits => JoinWaits
  | JoinThrows => JoinThrows
  end.

Definition client_work (c : client) (i : nat) : Prop :=
  (i = 0%nat /\ (lc_timer c <> TmNone \/ exists x, lc_user c = Some x /\ user_busy x)) \/
  (i = 1%nat /\ exists x, lc_user c = Some x /\ au_wk x <> []).

Inductive kstep (c : client) : client -> Prop :=
| k_expire : lc_timer c = TmArmed -> kstep c (MkLClient (lc_user c) TmFired (lc_work c))
| k_timer now : serves (lc_work c) 0 -> lc_timer c = TmFired -> kstep c (MkLClient (hb_tick proto now (lc_user c)) TmArmed (lc_work c))
| k_aborted : serves (lc_work c) 0 -> lc_timer c = TmAborted -> kstep c (MkLClient (lc_user c) TmNone (lc_work c))
| k_user x x' :
    lc_user c = Some x -> op_step proto (serves (lc_work c) 0) x x' -> kstep c (MkLClient (Some x') (lc_timer c) (lc_work c))
| k_worker x t ts :
    lc_user c = Some x -> serves (lc_work c) 1 -> au_wk x = t :: ts ->
    kstep c (MkLClient (Some (run_wk t (set_wk x ts))) (lc_timer c) (lc_work c))
| k_end w : pool_end (client_work c) (lc_work c) w -> kstep c (MkLClient (lc_user c) (lc_timer c) w)
| k_post m : kstep c (MkLClient (client_post m (lc_user c)) (lc_timer c) (lc_work c))
| k_disconnect : kstep c (MkLClient (client_disconnect (lc_user c)) (lc_timer c) (lc_work c)).

(** The I/O thread runs, or no read is under way. *)
Definition attended (c : client) : Prop :=
  (exists st, wp_stopped (lc_work c) = false :: st) /\ wp_threads (lc_work c) !! 0%nat = Some (MkThread 0 TRun) \/
  ((exists st, wp_stopped (lc_work c) = true :: st) /\ forall x, lc_user c = Some x -> au_rd x = None).

Lemma no_io_read x x' : op_step proto False x x' -> au_rd x = None -> au_rd x' = None.
Proof. intros Hs Hr. destruct Hs; cbn; done || congruence. Qed.

Lemma kstep_attended c c' : kstep c c' -> attended c -> attended c'.
Proof.
  intros Hs Hc.
  assert ((exists st, wp_stopped (lc_work c) = true :: st) -> ~ serves (lc_work c) 0) as Hns.
  { intros [st E] [_ H]. by rewrite E in H. }
  destruct Hc as [Hc|[Ho Hc]].
  - destruct Hs as [| | | | |w He| |]; try (by left). destruct Hc as [[st E] Hth]. inversion He as [j i Hj Hi]. subst w. cbn in *.
    destruct i as [|i].
    + rewrite E in Hi. destruct Hi as [[=]|[_ Hw]]. right. split; cbn; [rewrite E; by exists st|].
      intros x Hx. destruct (au_rd x) as [op|] eqn:Er; [|done]. exfalso. apply Hw. left. split; [done|].
      right. exists x. split; [done|]. right; left. by rewrite Er.
    + left. cbn. rewrite E. split; [by exists (<[i := true]> st)|]. destruct j as [|j]; [congruence|].
      by rewrite list_lookup_insert_ne.
  - specialize (Hns Ho). destruct Hs as [Ht|now H|H|x x' Hx Hop|x t ts Hx Hsv Ht|w He|m|]; try done; try (by right); right.
    + split; [done|]. cbn. intros y [= <-]. eapply no_io_read; [|by eapply Hc].
      clear -Hop Hns. destruct Hop; [done|by constructor..].
    + split; [done|]. cbn. intros y [= <-]. rewrite <- (Hc x Hx). by destruct t.
    + inversion He as [j i Hj Hi]. destruct Ho as [st E]. split; [|done]. cbn. rewrite E. destruct i; cbn; by eexists.
    + split; [done|]. cbn. unfold client_post. intros y Hy. destruct (lc_user c) as [x|]; [|done]. injection Hy as <-. by apply (Hc x).
    + split; [done|]. cbn. unfold client_disconnect. intros y Hy. destruct (lc_user c) as [x|]; [|done]. injection Hy as <-.
      rewrite <- (Hc x eq_refl). unfold stop, try_stop. by case_if.
Qed.

(** [stop] leaves the connection as it is, and [join] waits as long as the
    connection waits for a message of its peer. *)
Theorem client_stop_waits c c2 x :
  lc_work c = workers_start (new_workers 2) ->
  rtc kstep (client_stop c) c2 -> lc_user c2 = Some x -> is_Some (au_rd x) ->
  lc_user (client_stop c) = lc_user c /\ client_join c2 = JoinWaits.
Proof.
  intros Hw Hs Hx Hr. split; [done|].
  assert (attended (client_stop c)) as H1 by (left; cbn; rewrite Hw; by split; [eexists|]).
  assert (attended c2) as [[_ H2]|[_ H2]].
  - clear -Hs H1. induction Hs as [|y z w Hyz _ IH]; [done|]. by eapply IH, kstep_attended.
  - unfold client_join, workers_join. by destruct (wp_threads (lc_work c2)) as [|t ts]; [|injection H2 as ->].
  - rewrite (H2 x Hx) in Hr. by destruct Hr.
Qed.
End client.

(** ** TLS *)

Definition SslVerifyNone : Z := 0.
Definition SslVerifySingle : Z := 1.
Definition SslVerifyDual : Z := 2.

(** [verify_none], [verify_peer], and the latter with [verify_fail_if_no_peer_cert]. *)
Inductive ssl_verify := VerifyNone | VerifyPeer | VerifyPeerOrFail.

Record ssl_context := MkSsl {
  sc_chain : option bytes;     (* the file of the certificate chain *)
  sc_key : option bytes;
  sc_verify : ssl_verify;
  sc_ca : option bytes;
}.

(** [asio::ssl::context]: a new one verifies nothing. *)
Definition new_ssl_context : ssl_context := MkSsl None None VerifyNone None.

Section tls.
Context (loads : bytes -> bool).   (* whether a file can be used; an exception if not *)

Definition use_certificate (crt key : bytes) (c : ssl_context) : option ssl_context :=
  if loads crt && loads key then Some (MkSsl (Some crt) (Some key) (sc_verify c) (sc_ca c)) else None.
Definition load_verify_file (ca : bytes) (c : ssl_context) : option ssl_context :=
  if loads ca then Some (MkSsl (sc_chain c) (sc_key c) (sc_verify c) (Some ca)) else None.
Definition set_verify_mode (v : ssl_verify) (c : ssl_context) : ssl_context := MkSsl (sc_chain c) (sc_key c) v (sc_ca c).

Definition make_ssl_context (crt key ca : bytes) (verify_mode : Z) (server : bool) : option ssl_context :=
  let ctx := new_ssl_context in
  if server then
    ctx ← use_certificate crt key ctx;
    if verify_mode =? SslVerifyDual then load_verify_file ca (set_verify_mode VerifyPeerOrFail ctx) else Some ctx
  else if verify_mode =? SslVerifyNone then Some (set_verify_mode VerifyNone ctx)
  else
    ctx ← load_verify_file ca (set_verify_mode VerifyPeer ctx);
    if verify_mode =? SslVerifyDual then use_certificate crt key ctx else Some ctx.

(** A server has its certificate and asks for the client's only in the dual mode;
    a client verifies the server's in every mode but none, with the authority it
    was given, and has one of its own in the dual mode. *)
Theorem ssl_modes crt key ca mode server c :
  make_ssl_context crt key ca mode server = Some c ->
  (sc_verify c <> VerifyNone <-> if server then mode = SslVerifyDual else mode <> SslVerifyNone) /\
  (sc_verify c <> VerifyNone -> sc_ca c = Some ca) /\
  (is_Some (sc_chain c) <-> server = true \/ mode = SslVerifyDual).
Proof.
  unfold make_ssl_context, use_certificate, load_verify_file, SslVerifyDual, SslVerifyNone. intros H.
  destruct server; cbn in H.
  - destruct (loads crt && loads key); [|done]. cbn in H. destruct (Z.eqb_spec mode 2) as [->|Hm].
    + destruct (loads ca); [|done]. injection H as <-. cbn. naive_solver.
    + injection H as <-. cbn. naive_solver.
  - destruct (Z.eqb_spec mode 0) as [->|H0].
    + injection H as <-. cbn. split; [naive_solver|]. split; [done|]. split; [by intros []|]. by intros [|].
    + destruct (loads ca); [|done]. cbn in H. destruct (Z.eqb_spec mode 2) as [->|H2].
      * destruct (loads crt && loads key); [|done]. injection H as <-. cbn. naive_solver.
      * injection H as <-. cbn. split; [naive_solver|]. split; [done|]. split; [by intros []|]. by intros [|].
Qed.
End tls.

(** The two streams: which operation runs is up to the context. *)
Inductive tcp_stream := RawStream | SslStream (ctx : ssl_context).

Definition make_tcp_stream (ssl_ctx : option ssl_context) : tcp_stream :=
  match ssl_ctx with Some ctx => SslStream ctx | None => RawStream end.

(** [async_handshake]: the raw stream calls its handler at once, without an
    error; the other when the handshake is over. *)
Definition async_handshake (st : tcp_stream) : option (option ec) :=
  match st with RawStream => Some None | SslStream _ => None end.

(** [shutdown], of both: the socket's [shutdown] may throw, and then [close] is
    not reached. Whether it threw, and whether the socket is open afterwards. *)
Definition stream_shutdown (shutdown_ok : bool) : bool * bool := if shutdown_ok then (false, false) else (true, true).

(** [try_stop] with the stream: the exception is caught; the socket stays open. *)
Definition try_stop_socket (shutdown_ok opened : bool) (u : auser) : bool * auser * bool :=
  if au_stop u then (false, u, opened) else let '(_, opened) := stream_shutdown shutdown_ok in (true, set_au_stop u true, opened).

(** The first call of [stop] decides: if the socket cannot be shut down, as when
    the peer has reset the connection, no later call closes it. *)
Theorem failed_shutdown_stays_open u ok :
  let '(b1, u1, o1) := try_stop_socket false true u in
  au_stop u = false -> (b1, o1) = (true, true) /\ try_stop_socket ok o1 u1 = (false, u1, true).
Proof. unfold try_stop_socket. by destruct (au_stop u). Qed.

(** ** Concrete runs *)

Definition all_well : listening := MkListen true true true true true.
Definition no_name : listening := MkListen false true true true true.
Definition started (l : listening) : server := server_start 2 l (setMaxConnections 10 new_server).

Lemma stop_ends_witness : exists s1,
  server_stop_all (started all_well) = Some s1 /\ Acc (flip (dstep lymsg_protocol (fun u => (u mod 2)%nat))) s1 /\
  forall s2, rtc (dstep lymsg_protocol (fun u => (u mod 2)%nat)) s1 s2 ->
    (forall s3, ~ dstep lymsg_protocol (fun u => (u mod 2)%nat) s2 s3) -> exists s', serveUtilStop s2 = Some (Joined s').
Proof.
  eexists. split; [reflexivity|].
  by apply (stop_ends lymsg_protocol (fun u => (u mod 2)%nat) 10 2 all_well (started all_well)); [apply rtc_refl|..].
Defined.

(** A server whose name could not be resolved. *)
Lemma stop_never_ends_witness : exists s1,
  server_stop_all (started no_name) = Some s1 /\
  forall s2, rtc (lstep lymsg_protocol (fun u => (u mod 2)%nat)) s1 s2 -> serveUtilStop s2 = Some JoinWaits.
Proof.
  eexists. split; [reflexivity|]. intros s2.
  by apply (stop_never_ends lymsg_protocol (fun u => (u mod 2)%nat) 10 2 no_name (started no_name)); [apply rtc_refl|left|].
Defined.

(** A client that reads when it is stopped. *)
Lemma client_stop_waits_witness :
  let c := MkLClient (Some (set_rd (new_auser false) (Some RdHeader))) TmArmed (workers_start (new_workers 2)) in
  client_join (client_stop c) = JoinWaits.
Proof. intros c. eapply (client_stop_waits lymsg_protocol c (client_stop c)); [done|apply rtc_refl|reflexivity|by eexists]. Defined.

Lemma ssl_modes_witness : exists c,
  make_ssl_context (fun _ => true) [x01] [x02] [x03] SslVerifySingle true = Some c /\ sc_verify c = VerifyNone.
Proof.
  eexists. split; [reflexivity|]. destruct (ssl_modes (fun _ => true) [x01] [x02] [x03] SslVerifySingle true _ eq_refl) as [_ _].
  reflexivity.
Defined.
