(* ===== verification/Timer.v ===== *)
(** * The timer wheel ([zbf/timer_helper.hpp])

    [timer] is the state of a [timer_helper]: its unit and its task lists by
    interval. A task is a [std::function<bool()>]: it acts on the world [W] and
    says whether it wants to run again; [stopped] reads [_stopped] from the
    world. [timerProc] runs a number of elapsed waits of the timer thread. *)

From S2P Require Import Prelude.

Inductive TickUnit := TenMilliSec | Second | TenSecond | Minute.
#[export] Instance TickUnit_eq_dec : EqDecision TickUnit.
Proof. solve_decision. Defined.

Definition timeSlotTenMS : list Z := [1; 2; 3; 5; 10; 20; 30; 50; 100].
Definition timeSlotSec : list Z := [1; 2; 3; 5; 10; 15; 20; 30; 60].
Definition timeSlotTenSec : list Z := [1; 2; 3; 6; 9; 12; 18; 30; 60].
Definition timeSlotMin : list Z := [1; 2; 3; 5; 10; 15; 20; 30; 60].

(** The [switch] of [timerProc]: the slots and the wait in milliseconds. *)
Definition timeSlot (u : TickUnit) : list Z :=
  match u with
  | TenMilliSec => timeSlotTenMS
  | Second => timeSlotSec
  | TenSecond => timeSlotTenSec
  | Minute => timeSlotMin
  end.

Definition waitMs (u : TickUnit) : Z :=
  match u with TenMilliSec => 10 | Second => 1000 | TenSecond => 10000 | Minute => 60000 end.

(** [timeSlot[timeSlotSZ-1]], where the tick counter restarts. *)
Definition lastSlot (u : TickUnit) : Z := List.last (timeSlot u) 0.

(** [tick % timeSlot[i] == 0]. *)
Definition due (tick slot : Z) : bool := Z.rem tick slot =? 0.

(** The counter at the end of a round. *)
Definition wrap_tick (u : TickUnit) (tick : Z) : Z := if tick =? lastSlot u then 0 else tick.

Section timer.
Context {W : Type} (stopped : W -> bool).

Definition task : Type := W -> bool * W.

Record timer := MkTimer { _tickUnit : TickUnit; _timerTasks : gmap Z (list task) }.

(** The key of the map is an [unsigned short]; [operator[]] creates a missing
    list. *)
Definition tasks_at (tm : timer) (key : Z) : list task := default [] (_timerTasks tm !! key).

Definition addTimerTask (tm : timer) (interval : Z) (t : task) : timer :=
  let key := wrap 16 interval in
  MkTimer (_tickUnit tm) (<[key := tasks_at tm key ++ [t]]> (_timerTasks tm)).

(** The loop of [onTicks]. *)
Fixpoint onTicks_loop (n : nat) (l : list task) (w : W) : list task * W :=
  match n with
  | O => (l, w)
  | S n =>
      if stopped w then (l, w)
      else
        match l with
        | [] => (l, w)   (* front() of an empty list: n is the initial size *)
        | t :: l' =>
            let '(again, w') := t w in
            onTicks_loop n (if again then l' ++ [t] else l') w'
        end
  end.

Definition onTicks (tm : timer) (ticks : Z) (w : W) : timer * W :=
  let key := wrap 16 ticks in
  let l := tasks_at tm key in
  let '(l', w') := onTicks_loop (length l) l w in
  (MkTimer (_tickUnit tm) (<[key := l']> (_timerTasks tm)), w').

(** The inner [for] of [timerProc]. *)
Fixpoint slots_loop (slots : list Z) (tick : Z) (tm : timer) (w : W) : timer * W :=
  match slots with
  | [] => (tm, w)
  | s :: slots =>
      if stopped w then (tm, w)
      else
        let '(tm1, w1) := if due tick s then onTicks tm s w else (tm, w) in
        slots_loop slots tick tm1 w1
  end.

(** [rounds] waits of the timer thread; [idle] is what happens during one. *)
Fixpoint timerProc (idle : W -> W) (rounds : nat) (tick : Z) (tm : timer) (w : W) : timer * W :=
  match rounds with
  | O => (tm, w)
  | S rounds =>
      let w1 := idle w in
      if stopped w1 then (tm, w1)
      else
        let tick1 := tick + 1 in
        let '(tm2, w2) := slots_loop (timeSlot (_tickUnit tm)) tick1 tm w1 in
        timerProc idle rounds (wrap_tick (_tickUnit tm) tick1) tm2 w2
  end.

(** ** Reference: one pass over a task list *)

Fixpoint pass (l : list task) (w : W) : list task * W :=
  match l with
  | [] => ([], w)
  | t :: l =>
      let '(again, w1) := t w in
      let '(keep, w2) := pass l w1 in
      (if again then t :: keep else keep, w2)
  end.

Lemma onTicks_loop_pass l k w :
  (forall w, stopped w = false) ->
  onTicks_loop (length l) (l ++ k) w = let '(keep, w') := pass l w in (k ++ keep, w').
Proof.
  intros Hs. revert k w. induction l as [|t l IH]; intros k w; cbn [length onTicks_loop pass app].
  - by rewrite app_nil_r.
  - rewrite Hs. destruct (t w) as [again w1]. destruct again.
    + rewrite <- app_assoc, IH. destruct (pass l w1) as [keep w2]. by rewrite <- app_assoc.
    + rewrite IH. by destruct (pass l w1).
Qed.

(** a due interval runs every task of its list exactly once, in the order
    they were added, tasks of this pass that ask for another run included only
    once; those tasks stay, in their order, and the others are dropped. *)
Theorem onTicks_runs_each_once tm s w :
  (forall w, stopped w = false) ->
  onTicks tm s w =
    let '(keep, w') := pass (tasks_at tm (wrap 16 s)) w in
    (MkTimer (_tickUnit tm) (<[wrap 16 s := keep]> (_timerTasks tm)), w').
Proof.
  intros Hs. unfold onTicks. pose proof (onTicks_loop_pass (tasks_at tm (wrap 16 s)) [] w Hs) as Hl.
  rewrite app_nil_r in Hl. rewrite Hl. by destruct (pass _ w).
Qed.

End timer.
Arguments task : clear implicits.
Arguments timer : clear implicits.

(** ** When the slots are due *)

(** The value of [tick] tested in round [k] (from 1) of the timer thread. *)
Fixpoint tick_at (u : TickUnit) (k : nat) : Z :=
  match k with
  | O => 0
  | S k => wrap_tick u (tick_at u k) + 1
  end.

Definition fires (u : TickUnit) (slot : Z) (k : nat) : bool := due (tick_at u k) slot.

Lemma lastSlot_cases u : lastSlot u = (if decide (u = TenMilliSec) then 100 else 60).
Proof. by destruct u. Qed.

Lemma slot_range u s : s ∈ timeSlot u -> 0 < s <= lastSlot u.
Proof.
  intros H. assert (forallb (fun s => (0 <? s) && (s <=? lastSlot u)) (timeSlot u) = true) as Hall
    by (by destruct u).
  rewrite forallb_forall in Hall. apply list_elem_of_In in H. specialize (Hall _ H). bool_Z. done.
Qed.

Lemma tick_at_mod u k : (0 < k)%nat -> tick_at u k = (Z.of_nat k - 1) mod lastSlot u + 1.
Proof.
  assert (0 < lastSlot u) as HP by (rewrite lastSlot_cases; by case_decide).
  induction k as [|k IH]; [lia|]. intros _. cbn [tick_at]. f_equal.
  destruct k as [|k].
  - change (Z.of_nat 1 - 1) with 0. unfold wrap_tick. cbn [tick_at]. rewrite Z.mod_0_l by lia. by case_if.
  - rewrite IH by lia. replace (Z.of_nat (S (S k)) - 1) with (Z.of_nat (S k) - 1 + 1) by lia.
    set (a := Z.of_nat (S k) - 1). pose proof (Z.mod_pos_bound a _ HP). unfold wrap_tick.
    rewrite <- (Zplus_mod_idemp_l a 1). destruct (Z.eqb_spec (a mod lastSlot u + 1) (lastSlot u)) as [E|E].
    + by rewrite E, Z.mod_same by lia.
    + rewrite (Z.mod_small (a mod lastSlot u + 1)) by lia. done.
Qed.

(** The rounds of [timerProc] test exactly the ticks of [tick_at]. *)
Lemma timerProc_ticks {W} stopped idle n k tm (w : W) :
  timerProc stopped idle (S n) (wrap_tick (_tickUnit tm) (tick_at (_tickUnit tm) k)) tm w =
  if stopped (idle w) then (tm, idle w)
  else
    let '(tm2, w2) := slots_loop stopped (timeSlot (_tickUnit tm)) (tick_at (_tickUnit tm) (S k)) tm (idle w) in
    timerProc stopped idle n (wrap_tick (_tickUnit tm) (tick_at (_tickUnit tm) (S k))) tm2 w2.
Proof. reflexivity. Qed.

(** a slot that divides the unit's longest slot is due exactly every [slot]
    rounds, from the start of the thread on; a slot that does not is not: the
    counter restarts before it comes round. *)
Theorem slot_period u s :
  s ∈ timeSlot u ->
  (forall k, (0 < k)%nat -> fires u s k = true <-> (s | Z.of_nat k)) <-> (s | lastSlot u).
Proof.
  intros Hs%slot_range. set (P := lastSlot u) in *.
  assert (forall k, (0 < k)%nat -> fires u s k = true <-> (s | (Z.of_nat k - 1) mod P + 1)) as Hf.
  { intros k Hk. unfold fires, due. rewrite tick_at_mod by done. fold P. rewrite Z.eqb_eq.
    pose proof (Z.mod_pos_bound (Z.of_nat k - 1) P ltac:(lia)).
    rewrite Z.rem_mod_nonneg by lia. apply Z.mod_divide. lia. }
  assert (forall k, exists q, (Z.of_nat k - 1) mod P + 1 = Z.of_nat k - P * q) as Hq.
  { intros k. exists ((Z.of_nat k - 1) / P). pose proof (Z.div_mod (Z.of_nat k - 1) P ltac:(lia)). lia. }
  split.
  - intros Hall. pose proof (Hall (Z.to_nat (P + s)) ltac:(lia)) as HPs. rewrite Hf in HPs by lia.
    rewrite Z2Nat.id in HPs by lia.
    replace (P + s - 1) with (s - 1 + 1 * P) in HPs by lia. rewrite Z_mod_plus_full in HPs.
    rewrite Z.mod_small in HPs by lia. replace (s - 1 + 1) with s in HPs by lia.
    destruct HPs as [HPs _]. specialize (HPs (Z.divide_refl s)).
    apply (Z.divide_add_cancel_r s s P); [apply Z.divide_refl|]. by rewrite Z.add_comm.
  - intros Hd k Hk. rewrite Hf by done. destruct (Hq k) as [q ->]. split; intros Hdk.
    + replace (Z.of_nat k) with (Z.of_nat k - P * q + P * q) by lia.
      apply Z.divide_add_r; [done|]. by apply Z.divide_mul_l.
    + apply Z.divide_sub_r; [done|]. by apply Z.divide_mul_l.
Qed.

(** A task whose interval is none of the unit's slots. *)
Lemma onTicks_other {W} stopped (tm : timer W) s w key :
  key <> wrap 16 s -> tasks_at (fst (onTicks stopped tm s w)) key = tasks_at tm key /\
  _tickUnit (fst (onTicks stopped tm s w)) = _tickUnit tm.
Proof.
  intros Hne. unfold onTicks. destruct (onTicks_loop _ _ _ _) as [l' w']. cbn [fst]. split; [|done].
  unfold tasks_at. cbn [_timerTasks]. by rewrite lookup_insert_ne.
Qed.

Lemma slots_loop_other {W} stopped slots tick (tm : timer W) w key :
  (forall s, s ∈ slots -> key <> wrap 16 s) ->
  tasks_at (fst (slots_loop stopped slots tick tm w)) key = tasks_at tm key /\
  _tickUnit (fst (slots_loop stopped slots tick tm w)) = _tickUnit tm.
Proof.
  revert tm w. induction slots as [|s slots IH]; intros tm w Hne; cbn [slots_loop]; [done|].
  case_if; [done|]. destruct (due tick s).
  - pose proof (onTicks_other stopped tm s w key (Hne s ltac:(set_solver))) as [H1 H2].
    destruct (onTicks stopped tm s w) as [tm1 w1]. cbn [fst] in *.
    destruct (IH tm1 w1) as [-> ->]; [set_solver|]. done.
  - apply IH. set_solver.
Qed.

(** a task added with an interval that is no slot of the unit never runs:
    its list is untouched by any number of rounds. *)
Theorem non_slot_interval_never_runs {W} stopped idle rounds tick (tm : timer W) w interval :
  wrap 16 interval ∉ timeSlot (_tickUnit tm) ->
  tasks_at (fst (timerProc stopped idle rounds tick tm w)) (wrap 16 interval) =
  tasks_at tm (wrap 16 interval).
Proof.
  revert tick tm w. induction rounds as [|n IH]; intros tick tm w Hk; cbn [timerProc]; [done|].
  case_if; [done|].
  assert (forall s, s ∈ timeSlot (_tickUnit tm) -> wrap 16 interval <> wrap 16 s) as Hne.
  { intros s Hs E. apply Hk. rewrite E, wrap_id; [done|]. pose proof (slot_range _ _ Hs) as Hr.
    rewrite lastSlot_cases in Hr. unfold in_uint. case_decide; lia. }
  pose proof (slots_loop_other stopped _ (tick + 1) tm (idle w) _ Hne) as [H1 H2].
  destruct (slots_loop _ _ _ _ _) as [tm1 w1]. cbn [fst] in *. rewrite IH; [done|]. by rewrite H2.
Qed.

(** ** Witnesses *)

(** Two tasks of the one-second slot: the first stays, the second does not. *)
Definition count_task (again : bool) : task Z := fun w => (again, w + 1).

Lemma onTicks_runs_each_once_witness :
  onTicks (fun _ => false) (MkTimer Second {[1 := [count_task true; count_task false]]}) 1 0 =
  (MkTimer Second {[1 := [count_task true]]}, 2).
Proof.
  etrans; [apply (onTicks_runs_each_once (fun _ => false) _ 1 0 (fun _ => eq_refl))|reflexivity].
Defined.

(** The slots of 90 s and 3 min of the ten-second unit. *)
Lemma slot_period_witness :
  9 ∈ timeSlot TenSecond /\ ~ (forall k, (0 < k)%nat -> fires TenSecond 9 k = true <-> (9 | Z.of_nat k)).
Proof.
  assert (9 ∈ timeSlot TenSecond) as Hin by (cbn; unfold timeSlotTenSec; set_solver).
  split; [exact Hin|]. intros H. apply (slot_period TenSecond 9 Hin) in H.
  destruct H as [q Hq]. cbn in Hq. lia.
Defined.

Lemma non_slot_interval_never_runs_witness :
  tasks_at (fst (timerProc (fun _ => false) id 1000 0 (addTimerTask (MkTimer Second ∅) 7 (count_task true)) 0)) 7 =
  [count_task true].
Proof.
  rewrite (non_slot_interval_never_runs (fun _ => false) id 1000 0
    (addTimerTask (MkTimer Second ∅) 7 (count_task true)) 0 7); [reflexivity|].
  cbn. unfold timeSlotSec. set_solver.
Defined.
