(* ===== verification/TimerLife.v ===== *)
(** * The life of a timer ([zbf/timer_helper.hpp])

    The timer's thread, cut where another thread can come between: the wait on
    the condition variable, the reads of [_stopped], the taking and the running of
    a task. [stop] sets the flag under the mutex, notifies, and joins. [Timer] has
    the rounds of the thread as one function; here the two are compared, and
    the end of the thread is proved. [ts_late] is a ghost: the tasks that ended
    after the flag was set; [ts_rounds] one, the rounds that ended. *)

From S2P Require Import Prelude Timer.

Section life.
Context {W : Type}.
Abbreviation task := (Timer.task W).

(** Where the thread is: before it looks at the flag; asleep in [wait_for]; at its
    end by time; in the [for] of the slots; in the loop of [onTicks], with the
    turns that are left; with a task in its hands; at its end. *)
Inductive tpc :=
  | PCheck (tick : Z)
  | PAsleep (tick : Z)
  | PWoken (tick : Z)
  | PSlots (tick : Z) (slots : list Z)
  | PTicks (tick : Z) (slots : list Z) (key : Z) (n : nat)
  | PRun (tick : Z) (slots : list Z) (key : Z) (n : nat) (t : task)
  | PExit.

(** Where a call of [stop] is. *)
Inductive tstop := StopNone | StopSet | StopJoin | StopDone.

Record tstate := MkTstate {
  ts_tm : timer W;
  ts_w : W;
  ts_stopped : bool;        (* _stopped *)
  ts_thd : option tpc;      (* _thd, if it is joinable *)
  ts_call : tstop;
  ts_late : nat;
  ts_rounds : nat;
}.

Definition new_timer (u : TickUnit) (w : W) : tstate := MkTstate (MkTimer u ∅) w false None StopNone 0 0.

Definition at_pc (pc : tpc) (s : tstate) : tstate :=
  MkTstate (ts_tm s) (ts_w s) (ts_stopped s) (Some pc) (ts_call s) (ts_late s) (ts_rounds s).
Definition set_tasks (key : Z) (l : list task) (s : tstate) : tstate :=
  MkTstate (MkTimer (_tickUnit (ts_tm s)) (<[key := l]> (_timerTasks (ts_tm s)))) (ts_w s) (ts_stopped s) (ts_thd s)
    (ts_call s) (ts_late s) (ts_rounds s).

(** Assigning to a joinable [std::thread] terminates the program. *)
Definition start (s : tstate) : option tstate :=
  match ts_thd s with None => Some (at_pc (PCheck 0) s) | Some _ => None end.

Definition add_task (interval : Z) (t : task) (s : tstate) : tstate :=
  MkTstate (addTimerTask (ts_tm s) interval t) (ts_w s) (ts_stopped s) (ts_thd s) (ts_call s) (ts_late s) (ts_rounds s).

(** ** The thread *)

(** [wait_for]: the flag is read under the mutex, which sleeping releases. *)
Definition check_flag (tick : Z) (s : tstate) : tstate := at_pc (if ts_stopped s then PExit else PAsleep tick) s.

(** Its time is over: the flag decides. *)
Definition woken (tick : Z) (s : tstate) : tstate :=
  at_pc (if ts_stopped s then PExit else PSlots (tick + 1) (timeSlot (_tickUnit (ts_tm s)))) s.

(** A turn of the [for], or what follows it; [_timerTasks[ticks]] makes the list. *)
Definition slot_turn (tick : Z) (slots : list Z) (s : tstate) : tstate :=
  match slots with
  | slot :: slots' =>
      if ts_stopped s then at_pc (PSlots tick []) s
      else if due tick slot
      then
        let key := wrap 16 slot in
        let l := tasks_at (ts_tm s) key in at_pc (PTicks tick slots' key (length l)) (set_tasks key l s)
      else at_pc (PSlots tick slots') s
  | [] =>
      MkTstate (ts_tm s) (ts_w s) (ts_stopped s) (Some (PCheck (wrap_tick (_tickUnit (ts_tm s)) tick))) (ts_call s)
        (ts_late s) (Datatypes.S (ts_rounds s))
  end.

(** A turn of [onTicks]: [front] of an empty list is undefined. *)
Definition tick_turn (tick : Z) (slots : list Z) (key : Z) (n : nat) (s : tstate) : option tstate :=
  match n with
  | O => Some (at_pc (PSlots tick slots) s)
  | Datatypes.S n =>
      if ts_stopped s then Some (at_pc (PSlots tick slots) s)
      else match tasks_at (ts_tm s) key with
           | t :: l => Some (at_pc (PRun tick slots key n t) (set_tasks key l s))
           | [] => None
           end
  end.

Definition run_task (tick : Z) (slots : list Z) (key : Z) (n : nat) (t : task) (s : tstate) : tstate :=
  let '(again, w') := t (ts_w s) in
  let l := tasks_at (ts_tm s) key in
  MkTstate (MkTimer (_tickUnit (ts_tm s)) (<[key := if again then l ++ [t] else l]> (_timerTasks (ts_tm s)))) w'
    (ts_stopped s) (Some (PTicks tick slots key n)) (ts_call s) (if ts_stopped s then Datatypes.S (ts_late s) else ts_late s)
    (ts_rounds s).

(** What the thread does next by itself; asleep, or at its end, it does nothing. *)
Definition thread_next (pc : tpc) (s : tstate) : option tstate :=
  match pc with
  | PCheck tick => Some (check_flag tick s)
  | PWoken tick => Some (woken tick s)
  | PSlots tick slots => Some (slot_turn tick slots s)
  | PTicks tick slots key n => tick_turn tick slots key n s
  | PRun tick slots key n t => Some (run_task tick slots key n t s)
  | PAsleep _ | PExit => None
  end.

(** ** [stop] *)

Definition stop_set (s : tstate) : tstate :=
  MkTstate (ts_tm s) (ts_w s) true (ts_thd s) StopSet (ts_late s) (ts_rounds s).

(** [notify_one]: who sleeps looks at the flag again. *)
Definition stop_notify (s : tstate) : tstate :=
  MkTstate (ts_tm s) (ts_w s) (ts_stopped s) (match ts_thd s with Some (PAsleep tick) => Some (PCheck tick) | p => p end) StopJoin
    (ts_late s) (ts_rounds s).

(** [join] returns when the thread is at its end; without a thread it is not called. *)
Definition stop_join (s : tstate) : option tstate :=
  match ts_thd s with
  | None | Some PExit => Some (MkTstate (ts_tm s) (ts_w s) (ts_stopped s) None StopDone (ts_late s) (ts_rounds s))
  | Some _ => None
  end.

(** One thread owns the timer and calls [start] and [stop], in turn. *)
Inductive tlstep : tstate -> tstate -> Prop :=
  | tl_start s s' : ts_call s = StopNone \/ ts_call s = StopDone -> start s = Some s' -> tlstep s s'
  | tl_thread s s' pc : ts_thd s = Some pc -> thread_next pc s = Some s' -> tlstep s s'
  | tl_timeout s tick : ts_thd s = Some (PAsleep tick) -> tlstep s (at_pc (PWoken tick) s)
  | tl_spurious s tick : ts_thd s = Some (PAsleep tick) -> tlstep s (at_pc (PCheck tick) s)
  | tl_stop s : ts_call s = StopNone \/ ts_call s = StopDone -> tlstep s (stop_set s)
  | tl_notify s : ts_call s = StopSet -> tlstep s (stop_notify s)
  | tl_join s s' : ts_call s = StopJoin -> stop_join s = Some s' -> tlstep s s'.

(** ** Invariants *)

Definition running (s : tstate) : bool := match ts_thd s with Some (PRun _ _ _ _ _) => true | _ => false end.

Record timer_ok (s : tstate) : Prop := {
  (* the turns that are left are for tasks that are there *)
  ok_turns : match ts_thd s with
             | Some (PTicks _ _ key n) | Some (PRun _ _ key n _) => (n <= length (tasks_at (ts_tm s) key))%nat
             | _ => True
             end;
  (* one task may end after the flag is set: the one that was taken before *)
  ok_late : (ts_late s + (if ts_stopped s && running s then 1 else 0) <= 1)%nat;
  ok_late0 : ts_stopped s = false -> ts_late s = 0%nat;
  (* who has notified has set the flag, and nobody sleeps *)
  ok_call : match ts_call s with
            | StopNone => True
            | StopSet => ts_stopped s = true
            | StopJoin => ts_stopped s = true /\ (forall tick, ts_thd s <> Some (PAsleep tick))
            | StopDone => ts_stopped s = true
            end;
  ok_flag : ts_call s = StopNone -> ts_stopped s = false;
}.

Lemma tasks_at_insert (tm : timer W) key l : tasks_at (MkTimer (_tickUnit tm) (<[key := l]> (_timerTasks tm))) key = l.
Proof. unfold tasks_at. simpl. by rewrite lookup_insert_eq. Qed.

Lemma new_timer_ok u w : timer_ok (new_timer u w).
Proof. by constructor; simpl; try lia. Qed.

#[local] Ltac fields s :=
  constructor; unfold running; simpl in *; rewrite ?tasks_at_insert, ?andb_false_r in *; simpl in *; try done; try lia;
  try (destruct (ts_call s); naive_solver).

Lemma thread_ok s s' pc : timer_ok s -> ts_thd s = Some pc -> thread_next pc s = Some s' -> timer_ok s'.
Proof.
  intros [Ht Hl Hl0 Hc Hf] E H. unfold running in Hl. rewrite E in Ht, Hl, Hc.
  destruct pc as [k|k|k|k [|slot slots]|k ss key [|n]|k ss key n t|]; simpl in H; simplify_eq.
  - unfold check_flag. destruct (ts_stopped s) eqn:Es; fields s; by rewrite Es.
  - unfold woken. destruct (ts_stopped s) eqn:Es; fields s; by rewrite Es.
  - fields s.
  - destruct (ts_stopped s) eqn:Es; [|destruct (due k slot)]; fields s; by rewrite Es.
  - fields s.
  - destruct (ts_stopped s) eqn:Es; [|destruct (tasks_at (ts_tm s) key) as [|t l] eqn:El; [done|]]; simplify_eq;
      fields s; rewrite Es; simpl; lia.
  - unfold run_task. destruct (t (ts_w s)) as [again w'] eqn:Et. rewrite andb_true_r in Hl.
    constructor; unfold running; simpl in *; rewrite ?tasks_at_insert, ?andb_false_r; try done.
    + destruct again; rewrite ?length_app; lia.
    + destruct (ts_stopped s); simpl in *; lia.
    + intros Es. rewrite Es. by apply Hl0.
    + destruct (ts_call s); naive_solver.
Qed.

Lemma tlstep_ok s s' : timer_ok s -> tlstep s s' -> timer_ok s'.
Proof.
  intros Hok Hs. destruct Hs as [s s' Hc E|s s' pc E H|s k E|s k E|s Hc|s Hc|s s' Hc E]; [|by eapply thread_ok|..];
    destruct Hok as [Ht Hl Hl0 Hok Hf]; unfold running in Hl.
  - unfold start in E. destruct (ts_thd s) eqn:Ed; [done|]. simplify_eq. fields s.
  - rewrite E in *. fields s.
  - rewrite E in *. fields s.
  - constructor; unfold running; simpl in *; try done.
    destruct (ts_stopped s); [done|]. rewrite Hl0 by done. destruct (ts_thd s) as [[]|]; simpl; lia.
  - rewrite Hc in Hok. rewrite Hok in *. constructor; unfold running; simpl in *; try done.
    + destruct (ts_thd s) as [[]|]; simpl in *; try done; lia.
    + destruct (ts_thd s) as [[]|]; simpl in *; rewrite ?Hok; simpl; try done; lia.
    + by rewrite Hok.
    + split; [done|]. by destruct (ts_thd s) as [[]|].
  - rewrite Hc in Hok. destruct Hok as [Hst Hna]. rewrite Hst in *. unfold stop_join in E.
    destruct (ts_thd s) as [[]|] eqn:Ed; simplify_eq; by fields s.
Qed.

Lemma tlsteps_ok s s' : rtc tlstep s s' -> timer_ok s -> timer_ok s'.
Proof. induction 1 as [|s s1 s' Hs _ IH]; [done|]. intros Hok. apply IH. by eapply tlstep_ok. Qed.

(** ** Ending *)

(** Once the flag is set, at most one more task ends: the one that was taken before. *)
Lemma one_late_task s : timer_ok s -> (ts_late s <= 1)%nat.
Proof. intros Hok. pose proof (ok_late s Hok). lia. Qed.

(** The thread goes on unless it sleeps or is at its end: [front] is never called on an empty list. *)
Lemma thread_goes_on s pc :
  timer_ok s -> ts_thd s = Some pc -> (forall k, pc <> PAsleep k) -> pc <> PExit -> is_Some (thread_next pc s).
Proof.
  intros Hok E Hn He. pose proof (ok_turns s Hok) as Ht. rewrite E in Ht.
  destruct pc as [k|k|k|k ss|k ss key [|n]|k ss key n t|]; simpl; try (eexists; reflexivity).
  - destruct (Hn k eq_refl).
  - case_match; [by eexists|]. destruct (tasks_at (ts_tm s) key); [simpl in Ht; lia|by eexists].
  - destruct (He eq_refl).
Qed.

(** The steps that are left when the flag is set, with the one of [join]. *)
Definition left_over (s : tstate) : nat :=
  Datatypes.S (match ts_thd s with
  | None | Some PExit => 0
  | Some (PAsleep _) => 2
  | Some (PCheck _) | Some (PWoken _) => 1
  | Some (PSlots _ []) => 2
  | Some (PSlots _ (_ :: _)) => 3
  | Some (PTicks _ _ _ _) => 4
  | Some (PRun _ _ _ _ _) => 5
  end).

(** A step while [stop] is at [join]. *)
Definition joining (s s' : tstate) : Prop := ts_call s = StopJoin /\ tlstep s s'.

Lemma joining_step s s' : timer_ok s -> joining s s' ->
  (ts_call s' = StopDone /\ ts_thd s' = None) \/ (ts_call s' = StopJoin /\ (left_over s' < left_over s)%nat).
Proof.
  intros Hok [Hj Hs]. pose proof (ok_call s Hok) as Hc. rewrite Hj in Hc. destruct Hc as [Hst Hna].
  destruct Hs as [s s' Hc E|s s' pc E H|s k E|s k E|s Hc|s Hc|s s' Hc E]; try (destruct Hc; congruence); try congruence;
    try (by apply Hna in E).
  - right. unfold left_over. rewrite E. destruct pc as [k|k|k|k [|slot slots]|k ss key [|n]|k ss key n t|]; simpl in H;
      rewrite ?Hst in H; simplify_eq; unfold check_flag, woken, run_task; rewrite ?Hst; simpl; try (destruct ss; simpl);
      try (destruct (t (ts_w s))); simpl; (split; [done|lia]).
  - left. unfold stop_join in E. destruct (ts_thd s) as [[]|]; by simplify_eq.
Qed.

Lemma joining_run n s s' : nsteps joining n s s' -> timer_ok s -> ts_call s = StopJoin ->
  timer_ok s' /\ ((ts_call s' = StopDone /\ ts_thd s' = None /\ (n <= left_over s)%nat) \/
                 (ts_call s' = StopJoin /\ (n + left_over s' <= left_over s)%nat)).
Proof.
  induction 1 as [s|n s s1 s' H1 Hn IH]; intros Hok Hj; [split; [done|right; split; [done|lia]]|].
  pose proof (tlstep_ok _ _ Hok (proj2 H1)) as Hok1. destruct (joining_step _ _ Hok H1) as [[Hd Ht]|[Hj1 Hl]].
  - destruct Hn as [|n s1 s2 s' [Hj' _] _]; [|congruence]. split; [done|]. left. split_and!; [done..|].
    unfold left_over. lia.
  - destruct (IH Hok1 Hj1) as [Hok' [(Hd & Ht & Hle)|[Hj' Hle]]]; (split; [done|]); [left|right]; split_and!; [done..|lia|done|lia].
Qed.

Lemma joining_goes_on s : timer_ok s -> ts_call s = StopJoin -> exists s', joining s s'.
Proof.
  intros Hok Hj. pose proof (ok_call s Hok) as Hc. rewrite Hj in Hc. destruct Hc as [_ Hna].
  destruct (ts_thd s) as [pc|] eqn:E.
  - assert ({pc = PExit} + {pc <> PExit}) as [->|He] by (destruct pc; (by left) || (by right)).
    + eexists. split; [done|]. apply tl_join; [done|]. unfold stop_join. by rewrite E.
    + destruct (thread_goes_on s pc Hok E) as [s' Hs]; [intros k ->; by apply (Hna k)|done|].
      exists s'. split; [done|]. by eapply tl_thread.
  - eexists. split; [done|]. apply tl_join; [done|]. unfold stop_join. by rewrite E.
Qed.

(** [stop] returns after at most six more steps, one of them the end of the task
    that was taken before, whatever the thread was doing; no wake-up is lost. *)
Theorem stop_returns n s s' :
  timer_ok s -> ts_call s = StopJoin -> nsteps joining n s s' ->
  (n <= 6)%nat /\ (ts_call s' = StopDone /\ ts_thd s' = None \/ ts_call s' = StopJoin /\ exists s2, joining s' s2).
Proof.
  intros Hok Hj Hn. destruct (joining_run n s s' Hn Hok Hj) as [Hok' Hcase].
  assert (left_over s <= 6)%nat by (unfold left_over; repeat case_match; simpl; lia).
  destruct Hcase as [(Hd & Ht & Hl)|[Hj' Hl]]; (split; [lia|]); [by left|right].
  split; [done|]. by apply joining_goes_on.
Qed.

(** The flag is never reset: a timer that is started again after [stop] runs no
    task, however long it runs. *)
Theorem restart_runs_nothing s s' :
  ts_stopped s = true -> ts_thd s = None -> rtc tlstep s s' -> ts_w s' = ts_w s /\ ts_tm s' = ts_tm s.
Proof.
  intros Hst Ht H.
  enough (ts_stopped s' = true /\ ts_w s' = ts_w s /\ ts_tm s' = ts_tm s /\
          (ts_thd s' = None \/ (exists k, ts_thd s' = Some (PCheck k)) \/ ts_thd s' = Some PExit)) by tauto.
  revert s' H. apply rtc_ind_r; [tauto|]. intros s1 s2 _ Hs (Hst1 & <- & <- & Hthd).
  destruct Hs as [s1 s2 Hc E|s1 s2 pc E H|s1 k E|s1 k E|s1 Hc|s1 Hc|s1 s2 Hc E]; simpl; try by (destruct Hthd as [?|[[??]|?]]; congruence).
  - unfold start in E. destruct (ts_thd s1); [done|]. simplify_eq. simpl. eauto 10.
  - destruct Hthd as [Hthd|[[k Hthd]|Hthd]]; rewrite Hthd in E; simplify_eq; simpl in H; simplify_eq.
    unfold check_flag. rewrite Hst1. simpl. auto 10.
  - split_and!; [done..|]. destruct Hthd as [->|[[k ->]| ->]]; eauto.
  - split_and!; [done..|]. destruct Hthd as [->|[[k ->]| ->]]; eauto.
  - unfold stop_join in E. destruct (ts_thd s1) as [[]|]; simplify_eq; simpl; auto 10.
Qed.

(** ** The rounds *)

Abbreviation never := (fun _ : W => false).

Lemma slots_loop_unit slots tick (tm : timer W) w : _tickUnit (fst (slots_loop never slots tick tm w)) = _tickUnit tm.
Proof.
  revert tm w. induction slots as [|slot slots IH]; intros tm w; cbn [slots_loop]; [done|].
  destruct (due tick slot); [|apply IH]. unfold onTicks. destruct (onTicks_loop _ _ _ _) as [l w1]. by rewrite IH.
Qed.

(** One more round, at the end. *)
Lemma timerProc_snoc n : forall k (tm : timer W) w, let u := _tickUnit tm in
  timerProc never id (Datatypes.S n) (wrap_tick u (tick_at u k)) tm w =
  (let '(tm1, w1) := timerProc never id n (wrap_tick u (tick_at u k)) tm w in
   slots_loop never (timeSlot u) (tick_at u (k + Datatypes.S n)) tm1 w1).
Proof.
  induction n as [|n IH]; intros k tm w; cbv zeta; rewrite timerProc_ticks.
  - simpl. replace (k + 1)%nat with (Datatypes.S k) by lia. by destruct (slots_loop _ _ _ _ _).
  - rewrite (timerProc_ticks never id n). cbv beta iota.
    pose proof (slots_loop_unit (timeSlot (_tickUnit tm)) (tick_at (_tickUnit tm) (Datatypes.S k)) tm w) as Hu.
    change (id w) with w.
    destruct (slots_loop never (timeSlot (_tickUnit tm)) _ tm w) as [tm1 w1]. cbn [fst] in Hu.
    pose proof (IH (Datatypes.S k) tm1 w1) as H. cbv zeta in H. rewrite Hu in H.
    replace (k + Datatypes.S (Datatypes.S n))%nat with (Datatypes.S k + Datatypes.S n)%nat by lia. exact H.
Qed.

Lemma wrap_tick_0 u : wrap_tick u (tick_at u 0) = 0.
Proof. by destruct u. Qed.

(** The timer after [r] rounds that nothing interrupts. *)
Definition after_rounds (tm0 : timer W) (w0 : W) (r : nat) : timer W * W := timerProc never id r 0 tm0 w0.

Lemma after_rounds_S tm0 w0 r :
  after_rounds tm0 w0 (Datatypes.S r) =
  (let '(tm1, w1) := after_rounds tm0 w0 r in slots_loop never (timeSlot (_tickUnit tm0)) (tick_at (_tickUnit tm0) (Datatypes.S r)) tm1 w1).
Proof.
  pose proof (timerProc_snoc r 0 tm0 w0) as H. cbv zeta in H.
  unfold after_rounds. rewrite !wrap_tick_0 in H. exact H.
Qed.

Lemma after_rounds_unit tm0 w0 r : _tickUnit (fst (after_rounds tm0 w0 r)) = _tickUnit tm0.
Proof.
  induction r as [|r IH]; [done|]. rewrite after_rounds_S. destruct (after_rounds tm0 w0 r) as [tm1 w1]. cbn [fst] in IH.
  by rewrite slots_loop_unit.
Qed.

(** What becomes of the round under way if nothing interrupts it. *)
Definition rest_of_ticks (slots : list Z) (tick key : Z) (n : nat) (l : list task) (tm : timer W) (w : W) : timer W * W :=
  let '(l', w') := onTicks_loop never n l w in
  slots_loop never slots tick (MkTimer (_tickUnit tm) (<[key := l']> (_timerTasks tm))) w'.

Definition in_round (tm0 : timer W) (w0 : W) (s : tstate) : Prop :=
  let u := _tickUnit tm0 in
  let r := ts_rounds s in
  let this := tick_at u (Datatypes.S r) in
  _tickUnit (ts_tm s) = u /\
  match ts_thd s with
  | None => r = 0%nat /\ (ts_tm s, ts_w s) = after_rounds tm0 w0 r
  | Some (PCheck k) | Some (PAsleep k) | Some (PWoken k) =>
      k = wrap_tick u (tick_at u r) /\ (ts_tm s, ts_w s) = after_rounds tm0 w0 r
  | Some (PSlots k slots) => k = this /\ slots_loop never slots k (ts_tm s) (ts_w s) = after_rounds tm0 w0 (Datatypes.S r)
  | Some (PTicks k slots key n) =>
      k = this /\ is_Some (_timerTasks (ts_tm s) !! key) /\
      rest_of_ticks slots k key n (tasks_at (ts_tm s) key) (ts_tm s) (ts_w s) = after_rounds tm0 w0 (Datatypes.S r)
  | Some (PRun k slots key n t) =>
      k = this /\
      (let '(again, w') := t (ts_w s) in
       let l := tasks_at (ts_tm s) key in
       rest_of_ticks slots k key n (if again then l ++ [t] else l) (ts_tm s) w') = after_rounds tm0 w0 (Datatypes.S r)
  | Some PExit => False
  end.

Lemma in_round_thread tm0 w0 s s' pc :
  in_round tm0 w0 s -> ts_stopped s = false -> ts_thd s = Some pc -> thread_next pc s = Some s' -> in_round tm0 w0 s'.
Proof.
  intros [Hu H] Hst E Hn. rewrite E in H. unfold in_round.
  destruct pc as [k|k|k|k [|slot slots]|k ss key [|n]|k ss key n t|]; simpl in Hn; rewrite ?Hst in Hn; simplify_eq.
  - unfold check_flag. rewrite Hst. done.
  - unfold woken. rewrite Hst. simpl. destruct H as [-> H]. split_and!; [done..|].
    rewrite after_rounds_S, <- H, Hu. done.
  - simpl. destruct H as [-> H]. split_and!; [done|by rewrite Hu|by rewrite <- H].
  - destruct H as [-> H]. cbn [slots_loop] in H.
    destruct (due _ slot); simpl; [|by split_and!].
    split_and!; [done|done|by rewrite lookup_insert_eq; eexists|]. rewrite tasks_at_insert, <- H.
    unfold rest_of_ticks, onTicks. destruct (onTicks_loop _ _ _ _). simpl. by rewrite insert_insert_eq.
  - simpl. destruct H as (-> & [l Hl] & H). split_and!; [done..|]. rewrite <- H. unfold rest_of_ticks, tasks_at. simpl.
    rewrite Hl. simpl. rewrite insert_id by done. by destruct (ts_tm s).
  - destruct H as (-> & [l0 Hl] & H). destruct (tasks_at (ts_tm s) key) as [|t l] eqn:El; [done|]. simplify_eq. simpl.
    split_and!; [done..|]. rewrite tasks_at_insert, <- H. unfold rest_of_ticks. simpl.
    destruct (t (ts_w s)) as [again w']. destruct (onTicks_loop _ _ _ _). by rewrite insert_insert_eq.
  - unfold run_task. destruct H as [-> H]. destruct (t (ts_w s)) as [again w']. simpl.
    split_and!; [done|done|by rewrite lookup_insert_eq; eexists|].
    rewrite tasks_at_insert, <- H. unfold rest_of_ticks. destruct (onTicks_loop _ _ _ _). simpl. by rewrite insert_insert_eq.
Qed.

Lemma thread_keeps_flag s s' pc : thread_next pc s = Some s' -> ts_stopped s' = ts_stopped s.
Proof.
  destruct pc as [k|k|k|k [|slot slots]|k ss key [|n]|k ss key n t|]; simpl; intros H; simplify_eq; simpl; try done.
  - by repeat case_match.
  - repeat case_match; by simplify_eq.
  - unfold run_task. by destruct (t (ts_w s)).
Qed.

Lemma thread_keeps_call s s' pc : thread_next pc s = Some s' -> ts_call s' = ts_call s.
Proof.
  destruct pc as [k|k|k|k [|slot slots]|k ss key [|n]|k ss key n t|]; simpl; intros H; simplify_eq; simpl; try done.
  - by repeat case_match.
  - repeat case_match; by simplify_eq.
  - unfold run_task. by destruct (t (ts_w s)).
Qed.

Lemma in_round_step tm0 w0 s s' :
  timer_ok s -> (ts_stopped s = false -> in_round tm0 w0 s) -> tlstep s s' -> ts_stopped s' = false -> in_round tm0 w0 s'.
Proof.
  intros Hok H Hs Hst'. pose proof (ok_call s Hok) as Hcall.
  destruct Hs as [s s' Hc E|s s' pc E Hn|s k E|s k E|s Hc|s Hc|s s' Hc E]; try (rewrite Hc in Hcall).
  - unfold start in E. destruct (ts_thd s) eqn:Ed; [done|]. simplify_eq. simpl in Hst'.
    destruct (H Hst') as [Hu Hr]. rewrite Ed in Hr. destruct Hr as [Hr0 Hr]. split; [done|]. simpl. rewrite Hr0 in *.
    by rewrite wrap_tick_0.
  - rewrite (thread_keeps_flag _ _ _ Hn) in Hst'. by eapply in_round_thread; [apply H| | |].
  - destruct (H Hst') as [Hu Hr]. rewrite E in Hr. by split.
  - destruct (H Hst') as [Hu Hr]. rewrite E in Hr. by split.
  - done.
  - simpl in Hst'. congruence.
  - unfold stop_join in E. destruct (ts_thd s) as [[]|]; simplify_eq; simpl in Hst'; destruct Hcall; congruence.
Qed.

(** The tasks are added before the timer is started. *)
Definition with_tasks (u : TickUnit) (w : W) (l : list (Z * task)) : tstate :=
  foldr (fun it => add_task it.1 it.2) (new_timer u w) l.

Lemma with_tasks_start u w l : let s := with_tasks u w l in
  ts_thd s = None /\ ts_stopped s = false /\ ts_call s = StopNone /\ ts_late s = 0%nat /\ ts_rounds s = 0%nat /\ ts_w s = w.
Proof. by induction l. Qed.

Lemma timer_reachable u w l s : rtc tlstep (with_tasks u w l) s -> timer_ok s.
Proof.
  revert s. apply rtc_ind_r; [|by intros ? ? _ Hs IH; eapply tlstep_ok].
  destruct (with_tasks_start u w l) as (Ht & Hs & Hc & Hl & _).
  constructor; unfold running; rewrite ?Ht, ?Hs, ?Hc, ?Hl; try done. simpl. lia.
Qed.

(** While nobody stops it, the interleaved timer does the rounds of [Timer.timerProc],
    in their order and completely: the facts about periods and tasks of [Timer]
    hold of the program's thread. *)
Theorem timer_rounds u w l s :
  rtc tlstep (with_tasks u w l) s -> ts_stopped s = false ->
  match ts_thd s with
  | Some (PCheck _) | Some (PAsleep _) | Some (PWoken _) =>
      (ts_tm s, ts_w s) = after_rounds (ts_tm (with_tasks u w l)) w (ts_rounds s)
  | Some PExit => False
  | _ => True
  end.
Proof.
  intros H Hst. enough (in_round (ts_tm (with_tasks u w l)) w s) as [_ Hr] by (destruct (ts_thd s) as [[]|]; tauto).
  revert Hst. enough (timer_ok s /\ (ts_stopped s = false -> in_round (ts_tm (with_tasks u w l)) w s)) by tauto.
  revert s H. apply rtc_ind_r.
  - split; [by eapply timer_reachable, rtc_refl|]. intros _.
    destruct (with_tasks_start u w l) as (Ht & Hs & Hc & Hl & Hr & Hw). split; [done|]. rewrite Ht. split; [done|]. by rewrite Hr, Hw.
  - intros s1 s2 _ Hs [Hok IH]. split; [by eapply tlstep_ok|]. by eapply in_round_step.
Qed.

(** ** [ReqStatLogger]: a timer with one task ([zbf/request_stat.hpp]) *)

Record logger := MkLogger {
  lg_interval : Z;         (* _interval *)
  lg_timer : tstate;       (* _tmHelper *)
  lg_allStat : list Z;     (* _allStat: addresses of the workers' statistics *)
}.

Definition new_logger (interval : Z) (u : TickUnit) (w : W) : logger := MkLogger interval (new_timer u w) [].

Definition logger_start (onStat : task) (g : logger) : option logger :=
  t ← start (add_task (lg_interval g) onStat (lg_timer g)); Some (MkLogger (lg_interval g) t (lg_allStat g)).

(** The thread by itself, until its end. *)
Fixpoint run_out (n : nat) (s : tstate) : option tstate :=
  match ts_thd s with
  | None | Some PExit => Some s
  | Some pc => match n with O => None | Datatypes.S n => thread_next pc s ≫= run_out n end
  end.

(** A call of [timer_helper::stop], from its beginning to its return: once the
    sleeper is woken there are at most five steps to the thread's end. *)
Definition timer_stop (s : tstate) : option tstate := run_out 5 (stop_notify (stop_set s)) ≫= stop_join.

Definition logger_stop (g : logger) : option logger :=
  t ← timer_stop (lg_timer g); Some (MkLogger (lg_interval g) t []).

(** Nobody is in [stop]. *)
Definition owned (s : tstate) : Prop := timer_ok s /\ (ts_call s = StopNone \/ ts_call s = StopDone).

Lemma run_out_joins n : forall s, timer_ok s -> ts_call s = StopJoin -> (left_over s <= Datatypes.S n)%nat ->
  exists s', run_out n s = Some s' /\ rtc tlstep s s' /\ timer_ok s' /\ ts_call s' = StopJoin /\ is_Some (stop_join s').
Proof.
  induction n as [|n IH]; intros s Hok Hj Hl; cbn [run_out].
  - exists s. unfold left_over in Hl. destruct (ts_thd s) as [[k|k|k|k [|? ?]|k ss key m|k ss key m t|]|] eqn:E; try lia;
      (split_and!; [done|apply rtc_refl|done|done|unfold stop_join; rewrite E; by eexists]).
  - destruct (ts_thd s) as [pc|] eqn:E.
    2: { exists s. split_and!; [done|apply rtc_refl|done|done|unfold stop_join; rewrite E; by eexists]. }
    assert ({pc = PExit} + {pc <> PExit}) as [->|He] by (destruct pc; (by left) || (by right)).
    { exists s. split_and!; [done|apply rtc_refl|done|done|unfold stop_join; rewrite E; by eexists]. }
    pose proof (ok_call s Hok) as Hc. rewrite Hj in Hc. destruct Hc as [_ Hna].
    destruct (thread_goes_on s pc Hok E) as [s1 Hs]; [intros k ->; by apply (Hna k)|done|].
    assert (tlstep s s1) as Hst by by eapply tl_thread.
    destruct (joining_step s s1 Hok (conj Hj Hst)) as [[Hd _]|[Hj1 Hl1]].
    { by rewrite (thread_keeps_call _ _ _ Hs), Hj in Hd. }
    destruct (IH s1) as (s' & E' & Hr & H'); [by eapply tlstep_ok|done|lia|].
    exists s'. split; [|split; [by eapply rtc_l|done]]. rewrite Hs. by destruct pc.
Qed.

(** [stop] returns, whatever the thread was doing, and leaves no thread. *)
Lemma timer_stop_joins s : owned s ->
  exists s', timer_stop s = Some s' /\ rtc tlstep s s' /\ owned s' /\ ts_thd s' = None /\ ts_stopped s' = true.
Proof.
  intros [Hok Hc]. assert (timer_ok (stop_set s)) as H1 by (eapply tlstep_ok; [exact Hok|by apply tl_stop]).
  assert (timer_ok (stop_notify (stop_set s))) as H2 by (eapply tlstep_ok; [exact H1|by apply tl_notify]).
  destruct (run_out_joins 5 (stop_notify (stop_set s)) H2 eq_refl) as (s1 & E1 & Hr1 & Hok1 & Hj1 & s2 & E2).
  { unfold left_over. repeat case_match; simpl; lia. }
  assert (tlstep s1 s2) as Hs2 by by apply tl_join.
  assert (timer_ok s2) as Hok2 by by eapply tlstep_ok.
  exists s2. unfold timer_stop. rewrite E1. cbn [mbind option_bind]. split; [exact E2|]. split.
  { eapply rtc_l; [by apply tl_stop|]. eapply rtc_l; [by apply tl_notify|]. by eapply rtc_r. }
  pose proof (ok_call _ Hok2) as Hcall. unfold stop_join in E2. destruct (ts_thd s1) as [[]|]; simplify_eq; simpl in *;
    (split_and!; [split; [done|by right]|done|done]).
Qed.

Lemma owned_start t (g : logger) : owned (lg_timer g) -> ts_thd (lg_timer g) = None ->
  exists g', logger_start t g = Some g' /\ owned (lg_timer g') /\ is_Some (ts_thd (lg_timer g')).
Proof.
  intros [Hok Hc] Hn. unfold logger_start, start. cbn [add_task ts_thd]. rewrite Hn. cbn [mbind option_bind].
  eexists. split; [reflexivity|]. cbn [lg_timer]. split; [|by eexists]. split; [|done].
  assert (timer_ok (add_task (lg_interval g) t (lg_timer g))) as Ha.
  { destruct Hok as [H1 H2 H3 H4 H5]. unfold running in H2. constructor; unfold running; simpl; rewrite ?Hn in *; done. }
  eapply tlstep_ok; [exact Ha|]. apply tl_start; [done|]. unfold start. cbn [add_task ts_thd]. by rewrite Hn.
Qed.

Lemma new_logger_owned i u w : owned (lg_timer (new_logger i u w)).
Proof. split; [apply new_timer_ok|by left]. Qed.

(** The thread is joined before the list is emptied. *)
Lemma logger_stop_spec g : owned (lg_timer g) ->
  exists g', logger_stop g = Some g' /\ owned (lg_timer g') /\ ts_thd (lg_timer g') = None /\
    ts_stopped (lg_timer g') = true /\ lg_allStat g' = [].
Proof.
  intros Ho. destruct (timer_stop_joins _ Ho) as (t & E & _ & Ho' & Ht & Hs). unfold logger_stop. rewrite E.
  eexists. by split_and!.
Qed.

(** ** Concrete runs *)

(** The thread alone, with its waits. *)
Fixpoint drive (n : nat) (s : tstate) : option tstate :=
  match n with
  | O => Some s
  | Datatypes.S n =>
      match ts_thd s with
      | None => None
      | Some (PAsleep tick) => drive n (at_pc (PWoken tick) s)
      | Some pc => thread_next pc s ≫= drive n
      end
  end.

Lemma drive_steps n : forall s s', drive n s = Some s' -> rtc tlstep s s'.
Proof.
  induction n as [|n IH]; intros s s' H; simpl in H; [by simplify_eq|].
  destruct (ts_thd s) as [pc|] eqn:E; [|done].
  assert ((exists k, pc = PAsleep k) \/ exists s1, thread_next pc s = Some s1 /\ drive n s1 = Some s') as [[k ->]|(s1 & E1 & H1)].
  { destruct pc; try (right; apply bind_Some in H; done). left. by eexists. }
  - eapply rtc_l; [by eapply tl_timeout|]. by apply IH.
  - eapply rtc_l; [by eapply tl_thread|]. by apply IH.
Qed.
End life.

(** Two tasks of one second: the first asks for another run. *)
Definition two_tasks : tstate (W:=Z) := with_tasks Second 0 [(1, count_task true); (1, count_task false)].

Definition after_start (n : nat) : option tstate := start two_tasks ≫= drive n.

Lemma after_start_reached n s : after_start n = Some s -> rtc tlstep two_tasks s.
Proof.
  unfold after_start. destruct (start two_tasks) as [s1|] eqn:E; [|done]. simpl. intros H.
  eapply rtc_l; [by apply (tl_start two_tasks s1); [left|]|]. by eapply drive_steps.
Qed.

(** What a run is asked about. *)
Definition seen (s : tstate (W:=Z)) : Z * nat * nat * bool * tstop :=
  (ts_w s, ts_rounds s, ts_late s, match ts_thd s with Some (PCheck _) => true | _ => false end, ts_call s).

(** Thirty-five steps after the start two rounds are over, and three tasks have run. *)
Lemma timer_rounds_witness :
  exists s, after_start 35 = Some s /\ ts_w s = 3 /\ (ts_tm s, ts_w s) = after_rounds (ts_tm two_tasks) 0 2.
Proof.
  assert (seen <$> after_start 35 = Some (3, 2%nat, 0%nat, true, StopNone)) as Hs by (vm_compute; reflexivity).
  assert (ts_stopped <$> after_start 35 = Some false) as Hst by (vm_compute; reflexivity).
  destruct (after_start 35) as [s|] eqn:E; [|discriminate Hs]. exists s. split; [reflexivity|].
  pose proof (timer_rounds Second 0 _ s (after_start_reached _ _ E)) as H.
  injection Hst as Hst. injection Hs as Hw Hr _ Hp _. split; [exact Hw|]. specialize (H Hst). rewrite Hr in H.
  destruct (ts_thd s) as [[]|]; first [exact H|discriminate Hp].
Defined.

(** [stop] is called when the first task has been taken: it runs, the second does
    not, and the thread needs the five steps that there are at most. *)
Definition stopped_in_task : option (tstate (W:=Z)) :=
  match after_start 5 with Some s => Some (stop_notify (stop_set s)) | None => None end.

Definition joined (n : nat) : option (tstate (W:=Z)) :=
  match stopped_in_task with
  | Some s => match drive n s with Some s => stop_join s | None => None end
  | None => None
  end.

Example late_stop : option_map seen (joined 5) = Some (1, 1%nat, 1%nat, false, StopDone).
Proof. vm_compute. reflexivity. Qed.

Example early_join : joined 4 = None.
Proof. vm_compute. reflexivity. Qed.

Lemma stop_returns_witness :
  exists s, stopped_in_task = Some s /\ exists s2, joining s s2.
Proof.
  assert (option_map seen stopped_in_task = Some (0, 0%nat, 0%nat, false, StopJoin)) as Hs by (vm_compute; reflexivity).
  destruct stopped_in_task as [s|] eqn:E; [|discriminate Hs]. exists s. split; [reflexivity|].
  injection Hs as _ _ _ _ Hj.
  assert (timer_ok s) as Hok.
  { unfold stopped_in_task in E. destruct (after_start 5) as [s1|] eqn:E1; [|discriminate E]. injection E as <-.
    pose proof (timer_reachable Second 0 _ s1 (after_start_reached 5 s1 E1)) as H1.
    assert (ts_call s1 = StopNone) as Hc by (assert (ts_call <$> after_start 5 = Some StopNone) as Hc by (vm_compute; reflexivity);
      rewrite E1 in Hc; by injection Hc).
    eapply tlstep_ok; [|by apply tl_notify]. eapply tlstep_ok; [exact H1|]. apply tl_stop. by left. }
  destruct (stop_returns 0 s s Hok Hj (nsteps_O _ _)) as [_ [[Hd _]|[_ H]]]; [congruence|exact H].
Defined.

(** A timer that was stopped before it was started runs nothing. *)
Lemma restart_runs_nothing_witness :
  let s := stop_notify (stop_set two_tasks) in
  exists s1 s2, stop_join s = Some s1 /\ start s1 = Some s2 /\ ts_w s2 = 0 /\ ts_tm s2 = ts_tm two_tasks.
Proof.
  cbv zeta. eexists _, _. split; [reflexivity|]. split; [reflexivity|].
  apply (restart_runs_nothing (MkTstate (ts_tm two_tasks) 0 true None StopDone 0 0)); [reflexivity|reflexivity|].
  apply rtc_once, tl_start; [by right|reflexivity].
Defined.
