(* ===== verification/Stat.v ===== *)
(** * Request statistics ([zbf/request_stat.hpp])

    [hist] is a [Histogram]; [observe] and [snapshot] are its two operations
    and [percentile] its reading, with the [double] product of the source taken
    from the Standard Library's model of IEEE arithmetic. [rstat] is a
    [RequestStat], owned by one worker; the logger's [consume] runs against it
    between its operations. [onStat_bills] is what [ReqStatLogger::onStat] hands
    to [logStatBill]. *)

From Stdlib Require Import Floats.SpecFloat Sorting.Sorted.
From stdpp Require Import sorting.
From S2P Require Import Prelude.

Definition INT_MAX : Z := 2147483647.
Definition TimeStampErr : Z := 0.

(** ** [Histogram] *)

Definition kNumBuckets : Z := 14.
Definition kLimits : list Z := [1; 2; 5; 10; 20; 50; 100; 200; 500; 1000; 2000; 5000; 10000].

Record hist := MkHist {
  buckets : list Z;     (* int[kNumBuckets] *)
  count : Z;            (* int *)
  sum : Z;              (* int64_t *)
  maxCost : Z;          (* int *)
  minCost : Z;          (* int *)
}.

Definition new_hist : hist := MkHist (replicate 14 0) 0 0 0 INT_MAX.

(** [while (idx < kNumBuckets - 1 && costMs > kLimits[idx]) ++idx]. *)
Fixpoint bucket_of (limits : list Z) (costMs : Z) : nat :=
  match limits with
  | [] => 0
  | l :: ls => if l <? costMs then S (bucket_of ls costMs) else 0
  end.

(** [fetch_add] on an atomic integer wraps around. *)
Definition fetch_add (w v d : Z) : Z := swrap w (v + d).

Definition observe (h : hist) (costMs : Z) : hist :=
  if costMs <? 0 then h
  else
    let idx := bucket_of kLimits costMs in
    MkHist (alter (fun b => fetch_add 32 b 1) idx (buckets h))
           (fetch_add 32 (count h) 1)
           (fetch_add 64 (sum h) costMs)
           (if maxCost h <? costMs then costMs else maxCost h)
           (if costMs <? minCost h then costMs else minCost h).

(** [snapshot]: the values, and the histogram after the exchanges. *)
Definition snapshot (h : hist) : hist * hist := (h, new_hist).

(** *** [percentile] *)

Definition double_of_Z (z : Z) : spec_float := binary_normalize 53 1024 z 0 false.
Definition double_mul (x y : spec_float) : spec_float := SFmul 53 1024 x y.

(** [static_cast<int>] of a double in range: truncation towards zero. *)
Definition static_cast_int (x : spec_float) : Z :=
  match x with
  | S754_finite s m e =>
      let v := if 0 <=? e then Zpos m * 2 ^ e else Zpos m / 2 ^ (- e) in
      if s then - v else v
  | _ => 0
  end.

(** A decimal literal [n/100]: the nearest double. *)
Definition double_percent (n : Z) : spec_float := SFdiv 53 1024 (double_of_Z n) (double_of_Z 100).

Definition lower_of (i : nat) : Z := match i with O => 0 | S i => nth i kLimits 0 end.
Definition upper_of (i : nat) (maxCost : Z) : Z :=
  if Nat.eqb i 13 then maxCost else Z.min maxCost (nth i kLimits 0).

(** The loop of [percentile] from bucket [i] on. *)
Fixpoint percentile_loop (bs : list Z) (i : nat) (acc target maxCost : Z) : Z :=
  match bs with
  | [] => maxCost
  | b :: bs =>
      let acc := acc + b in
      if target <? acc then
        let lower := lower_of i in
        let upper := upper_of i maxCost in
        if b =? 0 then lower
        else
          let prevAcc := acc - b in
          let needed := target - prevAcc in
          lower + Z.quot (swrap 32 (needed * (upper - lower))) b
      else percentile_loop bs (S i) acc target maxCost
  end.

Definition percentile_target (p : spec_float) (total : Z) : Z :=
  let target := static_cast_int (double_mul (double_of_Z total) p) in
  if total <=? target then total - 1 else target.

Definition percentile (p : spec_float) (total : Z) (bs : list Z) (maxCost : Z) : Z :=
  if total =? 0 then 0
  else percentile_loop bs 0 0 (percentile_target p total) maxCost.

(** ** [RequestStat] *)

Record metrics := MkMetrics {
  latencyHist : hist;
  totalCount : Z;        (* int *)
  totalReqBytes : Z;     (* int64_t *)
  totalRspBytes : Z;     (* int64_t *)
}.

Definition new_metrics : metrics := MkMetrics new_hist 0 0 0.

Record rstat := MkRStat {
  _userThdId : Z;
  _inflightCount : Z;               (* uint32_t *)
  _maxQueueDepth : Z;               (* uint32_t *)
  _reqStartTime : gmap Z Z;         (* uint32_t -> long *)
  _metrics : gmap Z metrics;        (* uint32_t -> PerTypeMetrics *)
}.

Definition new_rstat (thd : Z) : rstat := MkRStat thd 0 0 ∅ ∅.

(** [now] is [socket_utils::currentTimeMillis()]. *)
Definition onReqStart (now requestType : Z) (r : rstat) : rstat :=
  MkRStat (_userThdId r) (wrap 32 (_inflightCount r + 1)) (_maxQueueDepth r)
    (<[requestType := now]> (_reqStartTime r)) (_metrics r).

Definition getOrCreateMetrics (r : rstat) (type : Z) : metrics := default new_metrics (_metrics r !! type).

Definition onReqFinish (now requestType reqBytes rspBytes : Z) (r : rstat) : rstat :=
  match _reqStartTime r !! requestType with
  | None => r
  | Some start =>
      let r1 := MkRStat (_userThdId r) (wrap 32 (_inflightCount r - 1)) (_maxQueueDepth r)
                  (delete requestType (_reqStartTime r)) (_metrics r) in
      if (start =? TimeStampErr) || (now =? TimeStampErr) then r1
      else
        let costTime := swrap 32 (now - start) in
        let m := getOrCreateMetrics r1 requestType in
        let m1 := MkMetrics (observe (latencyHist m) costTime) (fetch_add 32 (totalCount m) 1)
                    (fetch_add 64 (totalReqBytes m) reqBytes) (fetch_add 64 (totalRspBytes m) rspBytes) in
        MkRStat (_userThdId r1) (_inflightCount r1) (_maxQueueDepth r1) (_reqStartTime r1)
          (<[requestType := m1]> (_metrics r1))
  end.

Definition sampleQueueDepth (depth : Z) (r : rstat) : rstat :=
  MkRStat (_userThdId r) (_inflightCount r) (if _maxQueueDepth r <? depth then depth else _maxQueueDepth r)
    (_reqStartTime r) (_metrics r).

Definition inflightCount (r : rstat) : Z := _inflightCount r.

Record snap := MkSnap {
  sn_userThdId : Z;
  sn_inflightCount : Z;
  sn_maxQueueDepth : Z;
  sn_types : gmap Z metrics;    (* the TypeSnapshots, by requestType *)
}.

Definition consume (r : rstat) : snap * rstat :=
  (MkSnap (_userThdId r) (_inflightCount r) (_maxQueueDepth r) (_metrics r),
   MkRStat (_userThdId r) (_inflightCount r) 0 (_reqStartTime r) ((fun _ => new_metrics) <$> _metrics r)).

(** ** [ReqStatLogger] *)

Record StatBill := MkBill {
  b_userThdId : Z; b_requestType : Z; b_totalCount : Z; b_totalReqBytes : Z; b_totalRspBytes : Z;
  b_inflightCount : Z; b_maxQueueDepth : Z;
  b_avgCost : Z; b_maxCost : Z; b_minCost : Z;
  b_p50 : Z; b_p80 : Z; b_p90 : Z; b_p95 : Z; b_p99 : Z;
}.

Definition bill_of (s : snap) (type : Z) (ts : metrics) : StatBill :=
  let h := latencyHist ts in
  let pc n := percentile (double_percent n) (count h) (buckets h) (maxCost h) in
  let seen := 0 <? count h in
  MkBill (sn_userThdId s) type (totalCount ts) (totalReqBytes ts) (totalRspBytes ts)
    (sn_inflightCount s) (sn_maxQueueDepth s)
    (if seen then swrap 32 (Z.quot (sum h) (count h)) else 0)
    (if seen then maxCost h else 0) (if seen then minCost h else 0)
    (if seen then pc 50 else 0) (if seen then pc 80 else 0) (if seen then pc 90 else 0)
    (if seen then pc 95 else 0) (if seen then pc 99 else 0).

(** The bills logged for one [RequestStat], and the state after. *)
Definition onStat_bills (r : rstat) : list StatBill * rstat :=
  let '(s, r1) := consume r in
  (filter (fun b => 0 < b_totalCount b) ((fun '(t, ts) => bill_of s t ts) <$> map_to_list (sn_types s)), r1).

(** [add] and [onStat] of the logger, over all registered [RequestStat]s. *)
Definition stat_add (all : list rstat) (r : rstat) : list rstat := all ++ [r].

Fixpoint onStat (all : list rstat) : list StatBill * list rstat :=
  match all with
  | [] => ([], [])
  | r :: rs =>
      let '(b, r1) := onStat_bills r in
      let '(bs, rs1) := onStat rs in (b ++ bs, r1 :: rs1)
  end.

(** ** The histogram of a list of observations *)

Definition hist_of (obs : list Z) : hist := foldl observe new_hist obs.

(** How many observations fall into a bucket, and below one. *)
Definition in_bucket (obs : list Z) (i : nat) : Z :=
  size_of (filter (fun x => bucket_of kLimits x = i) obs).
Definition below (obs : list Z) (i : nat) : Z :=
  size_of (filter (fun x => (bucket_of kLimits x < i)%nat) obs).
Definition top_of (obs : list Z) : Z := foldr Z.max 0 obs.

Lemma bucket_of_le ls x : (bucket_of ls x <= length ls)%nat.
Proof. induction ls as [|l ls IH]; cbn; [lia|]. case_if; lia. Qed.

Lemma bucket_of_mono ls x y : x <= y -> (bucket_of ls x <= bucket_of ls y)%nat.
Proof.
  intros Hxy. induction ls as [|l ls IH]; cbn; [lia|].
  destruct (Z.ltb_spec l x), (Z.ltb_spec l y); lia.
Qed.

(** A value is above the limit below its bucket and within the one above. *)
Lemma bucket_of_bounds ls x :
  (forall j, (j < bucket_of ls x)%nat -> nth j ls 0 < x) /\
  ((bucket_of ls x < length ls)%nat -> x <= nth (bucket_of ls x) ls 0).
Proof.
  induction ls as [|l ls [IH1 IH2]]; cbn; [split; intros; lia|].
  destruct (Z.ltb_spec l x); (split; [intros [|j] Hj|intros Hj]); try lia.
  all: first [apply IH1 | apply IH2]; lia.
Qed.

Lemma size_filter_snoc {A} (P : A -> Prop) `{!forall x, Decision (P x)} (obs : list A) x :
  size_of (filter P (obs ++ [x])) = size_of (filter P obs) + (if decide (P x) then 1 else 0).
Proof.
  rewrite filter_app, size_of_app. f_equal. rewrite filter_cons, filter_nil. by case_decide.
Qed.

Lemma size_filter_le {A} (P : A -> Prop) `{!forall x, Decision (P x)} (obs : list A) : size_of (filter P obs) <= size_of obs.
Proof. unfold size_of. pose proof (length_filter P obs). lia. Qed.

Lemma size_filter_all {A} (P : A -> Prop) `{!forall x, Decision (P x)} (l : list A) :
  Forall P l -> size_of (filter P l) = size_of l.
Proof. induction 1 as [|x l Hx _ IH]; [done|]. rewrite filter_cons_True by done. rewrite !size_of_cons. lia. Qed.

Lemma size_filter_none {A} (P : A -> Prop) `{!forall x, Decision (P x)} (l : list A) :
  Forall (fun x => ~ P x) l -> size_of (filter P l) = 0.
Proof. induction 1 as [|x l Hx _ IH]; [done|]. by rewrite filter_cons_False. Qed.

Lemma below_S obs i : below obs (S i) = below obs i + in_bucket obs i.
Proof.
  unfold below, in_bucket. induction obs as [|x obs IH] using rev_ind; [done|].
  rewrite !size_filter_snoc, IH. repeat case_decide; lia.
Qed.

Lemma below_all obs : below obs 14 = size_of obs.
Proof.
  unfold below. induction obs as [|x obs IH] using rev_ind; [done|].
  rewrite size_filter_snoc, IH, size_of_app. pose proof (bucket_of_le kLimits x) as Hb. change (length kLimits) with 13%nat in Hb.
  change (size_of [x]) with 1. case_decide; lia.
Qed.

Lemma top_of_snoc obs x : top_of (obs ++ [x]) = Z.max (top_of obs) (Z.max x 0).
Proof. unfold top_of. induction obs as [|y obs IH]; cbn; [lia|]. rewrite IH. lia. Qed.

Lemma elem_top obs x : x ∈ obs -> x <= top_of obs.
Proof. unfold top_of. induction obs as [|y obs IH]; [set_solver|]. cbn. intros [->|?%IH]%elem_of_cons; lia. Qed.

Record hist_spec (h : hist) (obs : list Z) : Prop := {
  hs_length : length (buckets h) = 14%nat;
  hs_bucket : forall i, (i < 14)%nat -> nth i (buckets h) 0 = in_bucket obs i;
  hs_count : count h = size_of obs;
  hs_max : maxCost h = top_of obs;
}.

Lemma nth_alter (f : Z -> Z) l i j :
  (i < length l)%nat -> nth j (alter f i l) 0 = if decide (i = j) then f (nth j l 0) else nth j l 0.
Proof.
  intros Hi. rewrite !nth_lookup. case_decide as E.
  - subst j. rewrite list_lookup_alter_eq. by destruct (lookup_lt_is_Some_2 l i Hi) as [y ->].
  - by rewrite list_lookup_alter_ne.
Qed.

(** While the counters do not overflow, [observe] counts. *)
Lemma hist_of_spec obs :
  Forall (fun x => 0 <= x <= INT_MAX) obs -> size_of obs <= INT_MAX -> hist_spec (hist_of obs) obs.
Proof.
  induction obs as [|x obs IH] using rev_ind; intros Hall Hsz.
  - split; try done. intros i Hi. do 14 (destruct i as [|i]; [done|]). lia.
  - apply Forall_app in Hall as [Hall [Hx _]%Forall_cons]. rewrite size_of_app, size_of_cons, size_of_nil in Hsz.
    destruct IH as [Hl Hb Hc Hm]; [done|lia|]. unfold hist_of in *. rewrite foldl_app. cbn [foldl].
    set (h := foldl observe new_hist obs) in *. unfold observe. unfold INT_MAX in *.
    pose proof (size_of_nonneg obs). pose proof (bucket_of_le kLimits x) as Hbk.
    change (length kLimits) with 13%nat in Hbk.
    rewrite (proj2 (Z.ltb_ge x 0)) by lia. split; cbn [buckets count maxCost].
    + by rewrite length_alter.
    + intros i Hi. rewrite nth_alter by lia. rewrite Hb by done.
      pose proof (size_filter_le (fun x => bucket_of kLimits x = i) obs).
      pose proof (size_of_nonneg (filter (fun x => bucket_of kLimits x = i) obs)).
      unfold in_bucket in *. rewrite size_filter_snoc. unfold fetch_add.
      case_decide; [|lia].
      rewrite swrap_id; [lia|done|]. unfold in_sint. change (2 ^ (32 - 1)) with 2147483648. lia.
    + rewrite Hc, size_of_app, size_of_cons, size_of_nil. unfold fetch_add.
      rewrite swrap_id; [lia|done|]. unfold in_sint. change (2 ^ (32 - 1)) with 2147483648. lia.
    + rewrite Hm, top_of_snoc. case_if; bool_Z; lia.
Qed.

(** ** The percentile *)

Lemma top_above obs i : (i < 14)%nat -> 0 < in_bucket obs i -> Forall (fun x => 0 <= x) obs ->
  lower_of i <= upper_of i (top_of obs) <= top_of obs.
Proof.
  intros Hi Hb Hpos. unfold in_bucket in Hb.
  destruct (filter _ obs) as [|x xs] eqn:E; [done|]. clear Hb.
  assert (x ∈ filter (fun x => bucket_of kLimits x = i) obs) as [Hx Hin]%list_elem_of_filter by (rewrite E; set_solver).
  pose proof (elem_top _ _ Hin) as Ht. rewrite Forall_forall in Hpos. specialize (Hpos _ Hin).
  destruct (bucket_of_bounds kLimits x) as [Hlo Hup]. rewrite Hx in *. change (length kLimits) with 13%nat in Hup.
  assert (lower_of i < x \/ i = 0%nat /\ lower_of i = 0) as Hl.
  { destruct i as [|j]; [by right|]. left. apply Hlo. lia. }
  unfold upper_of. destruct (Nat.eqb_spec i 13) as [->|Hne]; [lia|].
  assert (lower_of i <= nth i kLimits 0) as Hmono; [|lia].
  specialize (Hup ltac:(lia)). lia.
Qed.

Lemma percentile_loop_spec obs i acc t bs :
  Forall (fun x => 0 <= x) obs -> (i + length bs = 14)%nat ->
  (forall k, (k < length bs)%nat -> nth k bs 0 = in_bucket obs (i + k)) ->
  acc = below obs i -> acc <= t -> t < size_of obs -> size_of obs * top_of obs <= INT_MAX ->
  exists j, (j < 14)%nat /\ below obs j <= t < below obs (S j) /\
    lower_of j <= percentile_loop bs i acc t (top_of obs) <= upper_of j (top_of obs).
Proof.
  intros Hpos. revert i acc. induction bs as [|b bs IH]; intros i acc Hi Hn Hacc Ht Hlt Hov.
  - cbn in Hi. assert (i = 14%nat) as -> by lia. rewrite below_all in Hacc. lia.
  - cbn [length] in Hi. cbn [percentile_loop].
    pose proof (Hn 0%nat ltac:(cbn; lia)) as Hb. cbn [nth] in Hb. rewrite Nat.add_0_r in Hb.
    pose proof (below_S obs i) as HS.
    destruct (Z.ltb_spec t (acc + b)) as [Hin|Hout].
    + exists i. split; [lia|]. split; [lia|].
      assert (0 < in_bucket obs i) as Hpb by lia.
      pose proof (top_above obs i ltac:(lia) Hpb Hpos) as [Hlo Hup].
      rewrite (proj2 (Z.eqb_neq b 0)) by lia.
      assert (0 <= lower_of i) as Hl0 by (do 14 (destruct i as [|i]; [by vm_compute|]); lia).
      replace (t - (acc + b - b)) with (t - acc) by lia.
      set (d := upper_of i (top_of obs) - lower_of i). set (n := t - acc).
      assert (0 <= n < b /\ 0 <= d <= top_of obs) as [Hnb Hd] by (unfold n, d; lia).
      assert (b <= size_of obs) as Hbs by (pose proof (size_filter_le (fun x => bucket_of kLimits x = i) obs);
        unfold in_bucket in *; lia).
      assert (0 <= n * d <= INT_MAX) as Hr by nia.
      rewrite swrap_id; [|done|unfold in_sint, INT_MAX in *; change (2 ^ (32 - 1)) with 2147483648; lia].
      rewrite Z.quot_div_nonneg by lia.
      assert (0 <= n * d / b <= d); [|unfold d in *; lia].
      split; [apply Z.div_pos; lia|]. apply Z.div_le_upper_bound; nia.
    + destruct (IH (S i) (acc + b)) as (j & Hj); try lia; [|by exists j].
      intros k Hk. specialize (Hn (S k) ltac:(cbn; lia)). cbn [nth] in Hn. rewrite Hn. f_equal. lia.
Qed.

(** In a sorted list, the counts locate the bucket of an element. *)
Lemma sorted_bucket s t x j :
  Sorted Z.le s -> s !! t = Some x -> below s j <= Z.of_nat t < below s (S j) -> bucket_of kLimits x = j.
Proof.
  intros Hs Hx Ht. apply Sorted_StronglySorted in Hs; [|intros ???; lia].
  assert (forall i, below s i = below (take t s) i + below (drop t s) i) as Hsplit.
  { intros i. unfold below. by rewrite <- size_of_app, <- filter_app, take_drop. }
  rewrite <- (take_drop_middle _ _ _ Hx) in Hs.
  apply StronglySorted_app in Hs as (Hle & _ & [Hge _]%StronglySorted_cons).
  assert (t < length s)%nat as Hlt by (by eapply lookup_lt_Some).
  destruct (Nat.lt_trichotomy (bucket_of kLimits x) j) as [Hlow|[->|Hhigh]]; [exfalso|done|exfalso].
  - assert (below (take t s) j = Z.of_nat t /\ 0 < below (drop t s) j); [|rewrite Hsplit in Ht; lia].
    split.
    + unfold below. rewrite size_filter_all; [unfold size_of; rewrite length_take; lia|].
      apply Forall_forall. intros y Hy. pose proof (Hle y x Hy (list_elem_of_here _ _)) as Hyx.
      pose proof (bucket_of_mono kLimits _ _ Hyx). lia.
    + unfold below. rewrite (drop_S _ _ _ Hx), filter_cons_True by done. rewrite size_of_cons.
      pose proof (size_of_nonneg (filter (fun x => (bucket_of kLimits x < j)%nat) (drop (S t) s))). lia.
  - assert (below (take t s) (S j) <= Z.of_nat t /\ below (drop t s) (S j) = 0); [|rewrite !Hsplit in Ht; lia].
    split.
    + unfold below. pose proof (size_filter_le (fun x => (bucket_of kLimits x < S j)%nat) (take t s)) as Hf.
      unfold size_of in *. rewrite length_take in Hf. lia.
    + unfold below. rewrite (drop_S _ _ _ Hx). apply size_filter_none.
      apply Forall_cons. split; [lia|]. eapply Forall_impl; [exact Hge|]. cbn beta. intros y Hxy.
      pose proof (bucket_of_mono kLimits _ _ Hxy). lia.
Qed.

(** the percentile of a histogram lies in the bucket of the order statistic
    it stands for: between that bucket's bounds, never above the largest
    observation. [percentile_target] is the rank the [double] product gives;
    the interpolation must not overflow an [int]. *)
Theorem percentile_in_bucket p obs s x :
  let h := hist_of obs in
  let t := percentile_target p (count h) in
  Forall (fun x => 0 <= x <= INT_MAX) obs -> obs <> [] -> size_of obs <= INT_MAX ->
  size_of obs * top_of obs <= INT_MAX -> 0 <= t ->
  Permutation s obs -> Sorted Z.le s -> s !! Z.to_nat t = Some x ->
  let i := bucket_of kLimits x in
  lower_of i <= percentile p (count h) (buckets h) (maxCost h) <= upper_of i (top_of obs).
Proof.
  intros h t Hall Hne Hsz Hov Ht Hperm Hs Hx i.
  pose proof (hist_of_spec obs Hall Hsz) as [Hl Hb Hc Hm]. fold h in Hl, Hb, Hc, Hm.
  assert (0 < size_of obs) as Hpos.
  { destruct obs; [done|]. rewrite size_of_cons. pose proof (size_of_nonneg obs). lia. }
  assert (t < size_of obs) as Htlt.
  { unfold t, percentile_target. rewrite Hc. case_if; bool_Z; lia. }
  unfold percentile. fold t. rewrite Hm, (proj2 (Z.eqb_neq _ 0)) by lia.
  destruct (percentile_loop_spec obs 0 0 t (buckets h)) as (j & _ & Hj & Hr); try done.
  - eapply Forall_impl; [exact Hall|]. cbn. lia.
  - intros k Hk. apply Hb. lia.
  - unfold below. rewrite size_filter_none; [done|]. apply Forall_forall. lia.
  - assert (i = j) as ->; [|done]. eapply (sorted_bucket s (Z.to_nat t)); [done|done|].
    assert (forall k, below s k = below obs k) as Hp.
    { intros k. unfold below, size_of. by rewrite Hperm. }
    rewrite !Hp, Z2Nat.id by done. done.
Qed.

(** ** Counting finished requests *)

Inductive stat_event :=
| Start (now type : Z)
| Finish (now type reqBytes rspBytes : Z)
| Sample (depth : Z)
| Consume.

Definition stat_step (r : rstat) (e : stat_event) : rstat * list snap :=
  match e with
  | Start now type => (onReqStart now type r, [])
  | Finish now type req rsp => (onReqFinish now type req rsp r, [])
  | Sample depth => (sampleQueueDepth depth r, [])
  | Consume => let '(s, r1) := consume r in (r1, [s])
  end.

Fixpoint stat_run (r : rstat) (es : list stat_event) : rstat * list snap :=
  match es with
  | [] => (r, [])
  | e :: es =>
      let '(r1, s1) := stat_step r e in
      let '(r2, s2) := stat_run r1 es in (r2, s1 ++ s2)
  end.

(** The finishes that count: of a started request, with both clocks read. *)
Definition effective (r : rstat) (type : Z) (e : stat_event) : bool :=
  match e with
  | Finish now type' _ _ =>
      (type' =? type) &&
      match _reqStartTime r !! type' with
      | Some start => negb ((start =? TimeStampErr) || (now =? TimeStampErr))
      | None => false
      end
  | _ => false
  end.

Fixpoint finished (r : rstat) (type : Z) (es : list stat_event) : Z :=
  match es with
  | [] => 0
  | e :: es => (if effective r type e then 1 else 0) + finished (fst (stat_step r e)) type es
  end.

Definition counted (type : Z) (ms : gmap Z metrics) : Z :=
  totalCount (default new_metrics (ms !! type)).

Definition reported (type : Z) (ss : list snap) : Z :=
  foldr Z.add 0 ((fun s => counted type (sn_types s)) <$> ss).

Lemma stat_step_count r type e :
  0 <= counted type (_metrics r) < INT_MAX ->
  counted type (_metrics (fst (stat_step r e))) + reported type (snd (stat_step r e)) =
  counted type (_metrics r) + (if effective r type e then 1 else 0) /\
  0 <= counted type (_metrics (fst (stat_step r e))) /\ 0 <= reported type (snd (stat_step r e)).
Proof.
  intros Hr. unfold INT_MAX in Hr. destruct e as [now ty|now ty req rsp|d|]; cbn [stat_step fst snd effective].
  - cbn. lia.
  - unfold onReqFinish, reported, counted, getOrCreateMetrics in *. cbn [fmap list_fmap foldr].
    destruct (_reqStartTime r !! ty) as [st|]; [|rewrite andb_false_r; lia].
    destruct ((st =? TimeStampErr) || (now =? TimeStampErr)); cbn [_metrics negb];
      [rewrite andb_false_r; lia|]. rewrite andb_true_r.
    rewrite lookup_insert. destruct (Z.eqb_spec ty type) as [->|Hne].
    + rewrite decide_True by done. cbn. unfold fetch_add. rewrite swrap_id; [lia|done|].
      unfold in_sint. change (2 ^ (32 - 1)) with 2147483648. lia.
    + rewrite decide_False by done. lia.
  - cbn. lia.
  - unfold reported, counted in *. cbn. rewrite lookup_fmap.
    destruct (_metrics r !! type); cbn in *; lia.
Qed.

(** no finished request is lost or reported twice: what the snapshots of a
    run report for a type and what is still counted add up to what was counted
    before and the requests of that type finished in the run, wherever the
    logger's [consume] falls. *)
Theorem stat_conservation type es r r' ss :
  stat_run r es = (r', ss) ->
  0 <= counted type (_metrics r) -> counted type (_metrics r) + size_of es < INT_MAX ->
  reported type ss + counted type (_metrics r') = counted type (_metrics r) + finished r type es.
Proof.
  revert r ss. induction es as [|e es IH]; intros r ss; cbn [stat_run finished].
  - intros [= <- <-] ? ?. cbn. lia.
  - destruct (stat_step r e) as [r1 s1] eqn:E1. destruct (stat_run r1 es) as [r2 s2] eqn:E2.
    intros [= <- <-] H0 Hlt. rewrite size_of_cons in Hlt. pose proof (size_of_nonneg es).
    pose proof (stat_step_count r type e ltac:(lia)) as (Hc & H1 & H2). rewrite E1 in Hc, H1, H2; cbn [fst snd] in *.
    cbn [fst]. assert (reported type (s1 ++ s2) = reported type s1 + reported type s2) as ->.
    { unfold reported. rewrite fmap_app. induction (_ <$> s1) as [|a l IHl]; cbn; [done|]. rewrite IHl. lia. }
    assert ((if effective r type e then 1 else 0) <= 1) by (by destruct (effective r type e)).
    specialize (IH r1 s2 E2 H1 ltac:(lia)). lia.
Qed.

(** ** Witnesses *)

(** The median of 7, 3 and 200 lies in the bucket of 7, from 5 to 10. *)
Lemma percentile_in_bucket_witness :
  let h := hist_of [7; 3; 200] in
  5 <= percentile (double_percent 50) (count h) (buckets h) (maxCost h) <= 10.
Proof.
  refine (percentile_in_bucket (double_percent 50) [7; 3; 200] [3; 7; 200] 7 _ _ _ _ _ _ _ _).
  - repeat constructor; unfold INT_MAX; lia.
  - discriminate.
  - vm_compute. discriminate.
  - vm_compute. discriminate.
  - vm_compute. discriminate.
  - apply perm_swap.
  - repeat constructor; lia.
  - reflexivity.
Defined.

Lemma stat_conservation_witness :
  reported 5 [MkSnap 1 0 0 {[5 := MkMetrics (hist_of [20]) 1 10 0]}] +
  counted 5 {[5 := MkMetrics (hist_of [30]) 1 40 0]} = 0 + 2.
Proof.
  exact (stat_conservation 5 [Start 100 5; Finish 120 5 10 0; Consume; Start 130 5; Finish 160 5 40 0]
    (new_rstat 1) (MkRStat 1 0 0 ∅ {[5 := MkMetrics (hist_of [30]) 1 40 0]})
    [MkSnap 1 0 0 {[5 := MkMetrics (hist_of [20]) 1 10 0]}] eq_refl ltac:(discriminate) eq_refl).
Defined.
