(* ===== verification/Dispatch.v ===== *)
(** * Swimlanes: which worker handles which message ([zbf/socket_tcp_v5.hpp])

    [configSwimlanes] of [tcpsock_server] divides the worker threads among
    message types; [dispatchMsg] picks the next worker of the type's group and
    pushes the message to that worker's queue. [None] stands for undefined
    behaviour: an index outside a vector. *)

From S2P Require Import Prelude SafeQueue.

Definition ThdIdBase : Z := 200.
Definition DefaultMsgType : Z := 0.
Definition ServerMaxPendingMsg : Z := 512.

(** [message_swimlane]. *)
Record swimlane := MkLane { msgTypes : list Z; threads : Z (* size_t *) }.

Record WorkerIdGroup := MkGroup { workerIds : list Z; cursor : Z (* size_t *) }.

Definition workerId (i : Z) : Z := swrap 16 (ThdIdBase + 10 + i).
Definition workerIndex (thdId : Z) : Z := swrap 16 (thdId - ThdIdBase - 11).

(** The worker loop of [start]: the number of workers and their ids. *)
Definition worker_count (workerNum : Z) : Z := Z.min (Z.max workerNum 2) 64.
Definition start_workers (workerNum : Z) (_workerIds : list Z) : list Z :=
  _workerIds ++ ((fun i => workerId (Z.of_nat i)) <$> seq 1 (Z.to_nat (worker_count workerNum))).

(** [int totalNeed]. *)
Definition total_need (lanes : list swimlane) : Z :=
  fold_left (fun acc l => swrap 32 (acc + threads l)) lanes 0.

(** [vector(begin + pos, begin + pos + n)]. *)
Definition subvector (v : list Z) (pos n : Z) : option (list Z) :=
  if pos + n <=? size_of v then Some (take (Z.to_nat n) (drop (Z.to_nat pos) v)) else None.

(** One lane of the configuration loop. *)
Definition config_lane (ids : list Z) (pos : Z) (groups : gmap Z WorkerIdGroup) (l : swimlane)
  : option (Z * gmap Z WorkerIdGroup) :=
  match msgTypes l with
  | [] => Some (pos, groups)
  | types =>
      if threads l =? 0 then Some (pos, groups)
      else
        match subvector ids pos (threads l) with
        | None => None
        | Some w =>
            Some (pos + threads l, fold_left (fun g t => <[t := MkGroup w 0]> g) types groups)
        end
  end.

Fixpoint config_lanes (ids : list Z) (pos : Z) (groups : gmap Z WorkerIdGroup) (lanes : list swimlane)
  : option (Z * gmap Z WorkerIdGroup) :=
  match lanes with
  | [] => Some (pos, groups)
  | l :: ls =>
      match config_lane ids pos groups l with
      | None => None
      | Some (pos', groups') => config_lanes ids pos' groups' ls
      end
  end.

Definition configSwimlanes (ids : list Z) (lanes : list swimlane) : option (gmap Z WorkerIdGroup) :=
  (* an int compared with a size_t *)
  match (if size_of ids <=? wrap 64 (total_need lanes) then Some (0, ∅)
         else config_lanes ids 0 ∅ lanes) with
  | None => None
  | Some (pos, groups) =>
      match subvector ids pos (size_of ids - pos) with
      | None => None
      | Some w => Some (<[DefaultMsgType := MkGroup w 0]> groups)
      end
  end.

(** The part of [dispatchMsg] under the lock: the worker, and the groups with
    the cursor moved on. *)
Definition pick_worker (groups : gmap Z WorkerIdGroup) (msgType : Z)
  : option (Z * gmap Z WorkerIdGroup) :=
  let t := match groups !! msgType with Some _ => msgType | None => DefaultMsgType end in
  let g := default (MkGroup [] 0) (groups !! t) in      (* operator[] *)
  match workerIds g !! Z.to_nat (cursor g) with
  | None => None
  | Some wk =>
      let c := cursor g + 1 in
      let c := if c =? size_of (workerIds g) then 0 else c in
      Some (wk, <[t := MkGroup (workerIds g) c]> groups)
  end.

Section dispatch.
Context {M : Type} (type : M -> Z).

(** [_recvQueues], by worker index. *)
Record dispatcher := MkDispatcher {
  dp_groups : gmap Z WorkerIdGroup;
  dp_queues : gmap Z (squeue M);
}.

(** A full queue drops the message. *)
Definition dispatchMsg (d : dispatcher) (m : M) : option dispatcher :=
  match pick_worker (dp_groups d) (type m) with
  | None => None
  | Some (wk, groups) =>
      match dp_queues d !! workerIndex wk with
      | None => None
      | Some q =>
          let '(_, q') := push ServerMaxPendingMsg q m in
          Some (MkDispatcher groups (<[workerIndex wk := q']> (dp_queues d)))
      end
  end.

End dispatch.
Arguments dispatcher : clear implicits.

(** ** Invariant *)

Definition group_ok (ids : list Z) (g : WorkerIdGroup) : Prop :=
  workerIds g ⊆ ids /\ 0 <= cursor g < size_of (workerIds g).

Record groups_ok (ids : list Z) (groups : gmap Z WorkerIdGroup) : Prop := {
  go_each : forall t g, groups !! t = Some g -> group_ok ids g;
  go_default : is_Some (groups !! DefaultMsgType);
}.

(** The group that serves a message type. *)
Definition serving (groups : gmap Z WorkerIdGroup) (t : Z) : option WorkerIdGroup :=
  match groups !! t with Some g => Some g | None => groups !! DefaultMsgType end.

Lemma subvector_ok ids pos n w :
  0 <= pos -> 0 < n -> subvector ids pos n = Some w -> group_ok ids (MkGroup w 0).
Proof.
  unfold subvector. intros Hp Hn. destruct (Z.leb_spec (pos + n) (size_of ids)) as [H|]; [|done].
  intros [= <-]. unfold group_ok. cbn [workerIds cursor]. split.
  - intros x Hx. rewrite <- (take_drop (Z.to_nat pos) ids). apply elem_of_app. right.
    rewrite <- (take_drop (Z.to_nat n) (drop _ _)). apply elem_of_app. by left.
  - unfold size_of in *. rewrite length_take, length_drop. lia.
Qed.

Lemma types_ok ids types w (groups : gmap Z WorkerIdGroup) :
  group_ok ids (MkGroup w 0) -> (forall t g, groups !! t = Some g -> group_ok ids g) ->
  forall t g, fold_left (fun g t => <[t := MkGroup w 0]> g) types groups !! t = Some g -> group_ok ids g.
Proof.
  intros Hw. revert groups. induction types as [|ty types IH]; intros groups Hg t g; cbn [fold_left]; [apply Hg|].
  apply IH. intros t' g'. rewrite lookup_insert. case_decide; [by intros [= <-]|apply Hg].
Qed.

Definition lanes_sum (lanes : list swimlane) : Z := foldr (fun l acc => threads l + acc) 0 lanes.

Lemma total_need_sum lanes acc :
  Forall (fun l => 0 <= threads l) lanes -> 0 <= acc -> acc + lanes_sum lanes < 2 ^ 31 ->
  fold_left (fun acc l => swrap 32 (acc + threads l)) lanes acc = acc + lanes_sum lanes.
Proof.
  revert acc. induction lanes as [|l ls IH]; intros acc Hall Ha Hs; cbn [fold_left lanes_sum foldr] in *; [lia|].
  apply Forall_cons in Hall as [Hl Hall].
  assert (0 <= lanes_sum ls) by (clear -Hall; induction Hall; cbn; [lia|unfold lanes_sum in *; lia]).
  fold (lanes_sum ls) in *. rewrite swrap_id; [|done|].
  - rewrite IH; [lia|done|lia|lia].
  - unfold in_sint. change (2 ^ (32 - 1)) with (2 ^ 31). lia.
Qed.

(** The workers handed out so far are the first [pos]. *)
Definition lanes_within (ids : list Z) (pos : Z) (groups : gmap Z WorkerIdGroup) : Prop :=
  forall t g, groups !! t = Some g -> workerIds g ⊆ take (Z.to_nat pos) ids.

Lemma config_lane_within ids pos n types w (groups : gmap Z WorkerIdGroup) :
  0 <= pos -> 0 <= n -> subvector ids pos n = Some w -> lanes_within ids pos groups ->
  lanes_within ids (pos + n) (fold_left (fun g t => <[t := MkGroup w 0]> g) types groups).
Proof.
  intros Hp Hn Hsub Hin. unfold subvector in Hsub. case_if; [|done]. injection Hsub as <-.
  assert (forall g, workerIds g ⊆ take (Z.to_nat pos) ids -> workerIds g ⊆ take (Z.to_nat (pos + n)) ids) as Hmono.
  { intros g Hg x Hx%Hg. replace (take (Z.to_nat pos) ids) with (take (Z.to_nat pos) (take (Z.to_nat (pos + n)) ids)) in Hx
      by (rewrite take_take; f_equal; lia).
    rewrite <- (take_drop (Z.to_nat pos) (take _ ids)). apply elem_of_app. by left. }
  assert (lanes_within ids (pos + n) groups) as Hin2 by (intros t g Hg; eapply Hmono, Hin; done).
  clear Hin. revert groups Hin2. induction types as [|ty types IH]; intros groups Hin2; cbn [fold_left]; [done|].
  apply IH. intros t g. rewrite lookup_insert. case_decide; [|by apply Hin2]. intros [= <-]. cbn [workerIds].
  rewrite take_drop_commute. replace (Z.to_nat pos + Z.to_nat n)%nat with (Z.to_nat (pos + n)) by lia.
  intros x Hx. rewrite <- (take_drop (Z.to_nat pos) (take _ ids)). apply elem_of_app. by right.
Qed.

Lemma config_lanes_ok ids lanes pos (groups : gmap Z WorkerIdGroup) :
  Forall (fun l => 0 <= threads l) lanes -> 0 <= pos -> pos + lanes_sum lanes < size_of ids ->
  (forall t g, groups !! t = Some g -> group_ok ids g) ->
  exists pos' groups', config_lanes ids pos groups lanes = Some (pos', groups') /\
    0 <= pos' <= pos + lanes_sum lanes /\ (forall t g, groups' !! t = Some g -> group_ok ids g) /\
    (lanes_within ids pos groups -> lanes_within ids pos' groups').
Proof.
  revert pos groups. induction lanes as [|l ls IH]; intros pos groups Hall Hp Hs Hg; cbn [config_lanes lanes_sum foldr] in *.
  - exists pos, groups. split_and!; done || lia.
  - apply Forall_cons in Hall as [Hl Hall].
    assert (0 <= lanes_sum ls) by (clear -Hall; induction Hall; cbn; [lia|unfold lanes_sum in *; lia]).
    fold (lanes_sum ls) in *. unfold config_lane. destruct (msgTypes l) as [|ty tys].
    + destruct (IH pos groups) as (p' & g' & -> & ? & ? & ?); [done..|lia|done|]. exists p', g'. split_and!; [done|lia..|done|done].
    + destruct (Z.eqb_spec (threads l) 0).
      { destruct (IH pos groups) as (p' & g' & -> & ? & ? & ?); [done..|lia|done|]. exists p', g'. split_and!; [done|lia..|done|done]. }
      destruct (subvector ids pos (threads l)) as [w|] eqn:E.
      * destruct (IH (pos + threads l) (fold_left (fun g t => <[t := MkGroup w 0]> g) (ty :: tys) groups))
          as (p' & g' & -> & ? & ? & Hw); [done|lia|lia| |].
        { apply types_ok; [|done]. eapply subvector_ok; [| |done]; lia. }
        exists p', g'. split_and!; [done|lia..|done|]. intros Hin. apply Hw. by eapply config_lane_within.
      * unfold subvector in E. case_if; [done|bool_Z; lia].
Qed.

Lemma configSwimlanes_groups ids lanes :
  ids <> [] -> NoDup ids -> size_of ids < 2 ^ 31 ->
  Forall (fun l => 0 <= threads l) lanes -> lanes_sum lanes < 2 ^ 31 ->
  exists groups, configSwimlanes ids lanes = Some groups /\ groups_ok ids groups /\
    forall t g d wk, t <> DefaultMsgType -> groups !! t = Some g ->
      groups !! DefaultMsgType = Some d -> wk ∈ workerIds g -> wk ∉ workerIds d.
Proof.
  intros Hne Hnd Hsz Hall Hsum. unfold configSwimlanes, total_need.
  rewrite total_need_sum by done || lia. rewrite Z.add_0_l.
  assert (0 <= lanes_sum lanes) as Hs0 by (clear -Hall; induction Hall; cbn; [lia|unfold lanes_sum in *; lia]).
  rewrite wrap_id by (unfold in_uint; lia).
  assert (0 < size_of ids) as Hpos by (destruct ids; [done|]; rewrite size_of_cons; pose proof (size_of_nonneg ids); lia).
  assert (exists pos groups, (if size_of ids <=? lanes_sum lanes then Some (0, ∅) else config_lanes ids 0 ∅ lanes)
      = Some (pos, groups) /\ 0 <= pos < size_of ids /\ (forall t g, groups !! t = Some g -> group_ok ids g) /\
      lanes_within ids pos groups) as (pos & groups & -> & Hp & Hg & Hw).
  { destruct (Z.leb_spec (size_of ids) (lanes_sum lanes)).
    - exists 0, ∅. split_and!; done.
    - destruct (config_lanes_ok ids lanes 0 ∅) as (p' & g' & E & ? & ? & Hin); [done..|].
      exists p', g'. split_and!; [done|lia..|done|]. by apply Hin. }
  destruct (subvector ids pos (size_of ids - pos)) as [w|] eqn:E.
  2:{ unfold subvector in E. case_if; [done|]. bool_Z. lia. }
  eexists. split; [done|]. split; [split|].
  - intros t g. rewrite lookup_insert. case_decide; [|apply Hg]. intros [= <-].
    eapply subvector_ok; [| |exact E]; lia.
  - rewrite lookup_insert. rewrite decide_True by done. eauto.
  - intros t g d wk Ht. rewrite lookup_insert_ne by done. rewrite lookup_insert, decide_True by done.
    intros Hgt [= <-] Hwk Hwd. apply (Hw _ _ Hgt) in Hwk. unfold subvector in E. case_if; [|done]. injection E as <-.
    cbn [workerIds] in Hwd. rewrite <- (take_drop (Z.to_nat pos) ids) in Hnd. apply NoDup_app in Hnd as (_ & Hd & _).
    apply (Hd wk Hwk). rewrite <- (take_drop (Z.to_nat (size_of ids - pos)) (drop _ ids)). apply elem_of_app. by left.
Qed.

(** ** Properties *)

(** for any lanes whose thread counts do not overflow an [int], the
    configuration never leaves the worker vector and leaves every message type
    a group of workers with its cursor in range; and the workers of a lane
    (of a type other than the default) are not among those of the default
    group. *)
Theorem configSwimlanes_ok ids lanes :
  ids <> [] -> NoDup ids -> size_of ids < 2 ^ 31 ->
  Forall (fun l => 0 <= threads l) lanes -> lanes_sum lanes < 2 ^ 31 ->
  exists groups, configSwimlanes ids lanes = Some groups /\ groups_ok ids groups /\
    forall t g d wk, t <> DefaultMsgType -> groups !! t = Some g ->
      groups !! DefaultMsgType = Some d -> wk ∈ workerIds g -> wk ∉ workerIds d.
Proof. apply configSwimlanes_groups. Qed.

(** The workers picked for a sequence of messages. *)
Fixpoint pick_run (groups : gmap Z WorkerIdGroup) (ts : list Z) : option (list Z * gmap Z WorkerIdGroup) :=
  match ts with
  | [] => Some ([], groups)
  | t :: ts =>
      match pick_worker groups t with
      | None => None
      | Some (wk, groups') =>
          match pick_run groups' ts with
          | None => None
          | Some (wks, groups'') => Some (wk :: wks, groups'')
          end
      end
  end.

Lemma pick_worker_spec ids groups t :
  groups_ok ids groups ->
  exists t' g wk, (groups !! t' = Some g) /\ serving groups t = Some g /\
    (t' = t \/ groups !! t = None /\ t' = DefaultMsgType) /\
    workerIds g !! Z.to_nat (cursor g) = Some wk /\
    pick_worker groups t = Some (wk, <[t' := MkGroup (workerIds g)
      (if cursor g + 1 =? size_of (workerIds g) then 0 else cursor g + 1)]> groups).
Proof.
  intros [Hg [d Hd]]. unfold pick_worker, serving.
  assert (forall g, group_ok ids g -> exists wk, workerIds g !! Z.to_nat (cursor g) = Some wk) as Hin.
  { intros g [_ Hc]. apply lookup_lt_is_Some_2. unfold size_of in Hc. lia. }
  destruct (groups !! t) as [g|] eqn:E.
  - rewrite E. destruct (Hin g (Hg _ _ E)) as [wk Hwk]. exists t, g, wk. cbn. rewrite Hwk. auto.
  - rewrite Hd. destruct (Hin d (Hg _ _ Hd)) as [wk Hwk]. exists DefaultMsgType, d, wk. cbn. rewrite Hwk. auto 6.
Qed.

Lemma pick_worker_ok ids groups t wk groups' :
  groups_ok ids groups -> pick_worker groups t = Some (wk, groups') -> groups_ok ids groups' /\ wk ∈ ids.
Proof.
  intros Hok Hp. destruct (pick_worker_spec ids groups t Hok) as (t' & g & wk' & Hg & _ & _ & Hwk & E).
  rewrite E in Hp. injection Hp as <- <-. destruct Hok as [Heach Hdef]. destruct (Heach _ _ Hg) as [Hsub Hc]. split.
  - split.
    + intros t2 g2. rewrite lookup_insert. case_decide; [|apply Heach]. intros [= <-]. split; [done|].
      cbn [cursor workerIds]. case_if; bool_Z; lia.
    + rewrite lookup_insert. case_decide; [eauto|done].
  - apply Hsub. by eapply list_elem_of_lookup_2.
Qed.

(** dispatching never leaves a vector: from well-formed groups every
    message, of any type, gets a worker of its type's group and the groups stay
    well-formed. *)
Theorem dispatch_total {M} ids (type : M -> Z) (d : dispatcher M) m :
  groups_ok ids (dp_groups d) -> (forall wk, wk ∈ ids -> is_Some (dp_queues d !! workerIndex wk)) ->
  exists d' g wk, dispatchMsg type d m = Some d' /\ groups_ok ids (dp_groups d') /\
    (forall wk, wk ∈ ids -> is_Some (dp_queues d' !! workerIndex wk)) /\
    serving (dp_groups d) (type m) = Some g /\ wk ∈ workerIds g /\
    (forall i, i <> workerIndex wk -> dp_queues d' !! i = dp_queues d !! i).
Proof.
  intros Hok Hq. unfold dispatchMsg.
  destruct (pick_worker_spec ids _ (type m) Hok) as (t' & g & wk & Hg & Hs & _ & Hwk & E). rewrite E.
  destruct (pick_worker_ok _ _ _ _ _ Hok E) as [Hok' Hin]. destruct (Hq wk Hin) as [q Hqk]. rewrite Hqk.
  destruct (push _ q m) as [ok q']. eexists _, g, wk. split_and!; [done|done| |done| |].
  - intros wk2 Hwk2. cbn. rewrite lookup_insert. case_decide; [eauto|by apply Hq].
  - by eapply list_elem_of_lookup_2.
  - intros i Hi. cbn. by rewrite lookup_insert_ne.
Qed.

(** The first [n] picks, while the cursor does not wrap. *)
Lemma pick_run_forward ids groups t t' g n :
  groups_ok ids groups -> groups !! t' = Some g -> (t' = t \/ groups !! t = None /\ t' = DefaultMsgType) ->
  cursor g + Z.of_nat n < size_of (workerIds g) ->
  pick_run groups (replicate n t) =
    Some (take n (drop (Z.to_nat (cursor g)) (workerIds g)),
          <[t' := MkGroup (workerIds g) (cursor g + Z.of_nat n)]> groups).
Proof.
  revert groups g. induction n as [|n IH]; intros groups g Hok Hg Ht Hn; cbn [replicate pick_run].
  - rewrite Z.add_0_r, insert_id; [done|]. by destruct g.
  - destruct (pick_worker_spec ids groups t Hok) as (t2 & g2 & wk & Hg2 & _ & Ht2 & Hwk & E). rewrite E.
    assert (t2 = t' /\ g2 = g) as [-> ->].
    { assert (t2 = t') as -> by (destruct Ht as [->|[Hn1 ->]], Ht2 as [->|[Hn2 ->]]; congruence). split; congruence. }
    destruct (pick_worker_ok _ _ _ _ _ Hok E) as [Hok' _].
    destruct (go_each _ _ Hok _ _ Hg) as [_ Hc].
    rewrite (proj2 (Z.eqb_neq _ _)) in * by lia.
    rewrite (IH _ (MkGroup (workerIds g) (cursor g + 1)) Hok'); cbn [cursor workerIds].
    + rewrite insert_insert_eq, (drop_S _ _ _ Hwk). cbn [take].
      replace (Z.to_nat (cursor g + 1)) with (S (Z.to_nat (cursor g))) by lia.
      by replace (cursor g + 1 + Z.of_nat n) with (cursor g + Z.of_nat (S n)) by lia.
    + by rewrite lookup_insert, decide_True.
    + destruct Ht as [->|[Hn1 ->]]; [by left|]. right. split; [|done]. rewrite lookup_insert_ne; [done|].
      intros <-. congruence.
    + lia.
Qed.

Lemma pick_run_app groups ts1 ts2 wks1 g1 :
  pick_run groups ts1 = Some (wks1, g1) ->
  pick_run groups (ts1 ++ ts2) =
    match pick_run g1 ts2 with Some (wks2, g2) => Some (wks1 ++ wks2, g2) | None => None end.
Proof.
  revert groups wks1. induction ts1 as [|t ts1 IH]; intros groups wks1; cbn [pick_run app].
  - intros [= <- <-]. by destruct (pick_run groups ts2) as [[??]|].
  - destruct (pick_worker groups t) as [[wk g']|]; [|done].
    destruct (pick_run g' ts1) as [[wks g'']|] eqn:E; [|done]. intros [= <- <-]. rewrite (IH _ _ E).
    by destruct (pick_run g'' ts2) as [[??]|].
Qed.

(** One pick at the end of the group: the cursor starts again. *)
Lemma pick_wrap ids groups t t' g :
  groups_ok ids groups -> groups !! t' = Some g -> (t' = t \/ groups !! t = None /\ t' = DefaultMsgType) ->
  cursor g + 1 = size_of (workerIds g) ->
  pick_run groups [t] = Some (drop (Z.to_nat (cursor g)) (workerIds g),
    <[t' := MkGroup (workerIds g) 0]> groups).
Proof.
  intros Hok Hg Ht Hn. destruct (pick_worker_spec ids groups t Hok) as (t2 & g2 & wk & Hg2 & _ & Ht2 & Hwk & E).
  assert (t2 = t') as -> by (destruct Ht as [->|[Hn1 ->]], Ht2 as [->|[Hn2 ->]]; congruence).
  assert (g2 = g) as -> by congruence. cbn [pick_run]. rewrite E, (proj2 (Z.eqb_eq _ _) Hn).
  rewrite (drop_S _ _ _ Hwk). rewrite drop_ge; [done|]. unfold size_of in Hn. lia.
Qed.

Lemma keep_serving (groups : gmap Z WorkerIdGroup) t t' g g' :
  groups !! t' = Some g -> (t' = t \/ groups !! t = None /\ t' = DefaultMsgType) ->
  t' = t \/ <[t' := g']> groups !! t = None /\ t' = DefaultMsgType.
Proof.
  intros Hg [->|[Hn ->]]; [by left|right]. split; [|done]. rewrite lookup_insert_ne; [done|].
  intros <-. congruence.
Qed.

(** messages of one type are dealt round-robin: as many consecutive messages
    as the serving group has workers reach each of its workers once, in the
    group's order from the cursor on, and the cursor is back where it was. *)
Theorem round_robin ids groups t g :
  groups_ok ids groups -> serving groups t = Some g ->
  pick_run groups (replicate (length (workerIds g)) t) =
    Some (drop (Z.to_nat (cursor g)) (workerIds g) ++ take (Z.to_nat (cursor g)) (workerIds g), groups).
Proof.
  intros Hok Hs.
  assert (exists t', groups !! t' = Some g /\ (t' = t \/ groups !! t = None /\ t' = DefaultMsgType)) as (t' & Hg & Ht).
  { unfold serving in Hs. destruct (groups !! t) eqn:E; [injection Hs as ->|]; eauto. }
  destruct (go_each _ _ Hok _ _ Hg) as [Hsub Hc]. set (ws := workerIds g) in *. set (c := cursor g) in *.
  set (k := (length ws - Z.to_nat c - 1)%nat). unfold size_of in Hc.
  replace (length ws) with (k + (1 + Z.to_nat c))%nat by (unfold k; lia).
  rewrite replicate_add, replicate_add.
  pose proof (pick_run_forward ids groups t t' g k Hok Hg Ht ltac:(unfold size_of, k; fold ws c; lia)) as E1.
  rewrite (pick_run_app _ _ _ _ _ E1). fold ws c.
  set (g1 := MkGroup ws (c + Z.of_nat k)). set (groups1 := <[t' := g1]> groups).
  assert (forall d, 0 <= d < size_of ws -> groups_ok ids (<[t' := MkGroup ws d]> groups)) as Hins.
  { intros d Hd. split.
    - intros t2 g2. rewrite lookup_insert. case_decide; [by intros [= <-]|apply Hok].
    - rewrite lookup_insert. case_decide; [eauto|apply Hok]. }
  assert (groups1 !! t' = Some g1) as Hg1 by (unfold groups1; by rewrite lookup_insert, decide_True).
  assert (groups_ok ids groups1) as Hok1 by (apply Hins; unfold size_of, k; lia).
  pose proof (pick_wrap ids groups1 t t' g1 Hok1 Hg1 (keep_serving _ _ _ _ _ Hg Ht)
    ltac:(cbn [g1 cursor workerIds]; unfold size_of, k; lia)) as E2.
  rewrite (pick_run_app _ _ _ _ _ E2). cbn [g1 cursor workerIds].
  set (g2 := MkGroup ws 0) in *. set (groups2 := <[t' := g2]> groups1).
  assert (groups2 = <[t' := g2]> groups) as Eg2 by (unfold groups2, groups1; by rewrite insert_insert_eq).
  assert (groups2 !! t' = Some g2) as Hg2 by (unfold groups2; by rewrite lookup_insert, decide_True).
  assert (groups_ok ids groups2) as Hok2 by (rewrite Eg2; apply Hins; unfold size_of; lia).
  pose proof (pick_run_forward ids groups2 t t' g2 (Z.to_nat c) Hok2 Hg2
    (keep_serving _ _ _ _ _ Hg1 (keep_serving _ _ _ _ _ Hg Ht)) ltac:(cbn; unfold size_of; lia)) as E3.
  unfold groups2, groups1 in E3 |- *. cbn [g2 cursor workerIds] in E3. rewrite E3.
  rewrite !insert_insert_eq, Z.add_0_l, Z2Nat.id by lia. cbn [drop Z.to_nat].
  rewrite insert_id by (rewrite Hg; by destruct g). rewrite app_assoc. do 2 f_equal. f_equal.
  replace (Z.to_nat (c + Z.of_nat k)) with (Z.to_nat c + k)%nat by lia.
  rewrite <- drop_drop. by rewrite take_drop.
Qed.

(** ** Witnesses *)

(** Four workers, two of them for the types 5 and 6. *)
Definition sample_ids : list Z := start_workers 4 [].
Definition sample_lanes : list swimlane := [MkLane [5; 6] 2].
Definition sample_groups : gmap Z WorkerIdGroup :=
  {[5 := MkGroup [211; 212] 0; 6 := MkGroup [211; 212] 0; 0 := MkGroup [213; 214] 0]}.

Lemma sample_groups_ok : groups_ok sample_ids sample_groups.
Proof.
  split.
  - apply map_Forall_lookup. apply (bool_decide_unpack _).
    assert (forall g, Decision (group_ok sample_ids g)) by (intros; unfold group_ok; apply _).
    unfold sample_groups. vm_compute. exact I.
  - vm_compute. eauto.
Qed.

Lemma configSwimlanes_ok_witness :
  exists groups, configSwimlanes sample_ids sample_lanes = Some groups /\ groups_ok sample_ids groups /\
    forall t g d wk, t <> DefaultMsgType -> groups !! t = Some g ->
      groups !! DefaultMsgType = Some d -> wk ∈ workerIds g -> wk ∉ workerIds d.
Proof.
  apply (configSwimlanes_ok sample_ids sample_lanes).
  - discriminate.
  - apply (bool_decide_unpack _). vm_compute. exact I.
  - reflexivity.
  - repeat constructor. discriminate.
  - reflexivity.
Defined.

Definition sample_dispatcher : dispatcher Z :=
  MkDispatcher sample_groups
    {[0 := empty_queue; 1 := empty_queue; 2 := empty_queue; 3 := empty_queue]}.

Lemma dispatch_total_witness :
  exists d' g wk, dispatchMsg id sample_dispatcher 9 = Some d' /\ groups_ok sample_ids (dp_groups d') /\
    (forall wk, wk ∈ sample_ids -> is_Some (dp_queues d' !! workerIndex wk)) /\
    serving sample_groups 9 = Some g /\ wk ∈ workerIds g /\
    (forall i, i <> workerIndex wk -> dp_queues d' !! i = dp_queues sample_dispatcher !! i).
Proof.
  apply (dispatch_total sample_ids id sample_dispatcher 9 sample_groups_ok).
  intros wk Hwk. assert (forall x, x ∈ [211; 212; 213; 214] -> is_Some (dp_queues sample_dispatcher !! workerIndex x)) as H.
  { apply Forall_forall. repeat constructor; vm_compute; eauto. }
  apply H. exact Hwk.
Defined.

Lemma round_robin_witness :
  pick_run sample_groups [9; 9] = Some ([213; 214], sample_groups).
Proof. exact (round_robin sample_ids sample_groups 9 (MkGroup [213; 214] 0) sample_groups_ok eq_refl). Defined.
