(* ===== verification/TcpServer.v ===== *)
(** * The server: connections, I/O thread and monitor ([tcpsock_server] of
      [zbf/socket_tcp_v5.hpp])

    Connections are shared between the descriptor map [_fd2user], the list
    [_users] the monitor walks, the threads that work on one and the
    application: [sv_heap] is the store of connection objects and the maps hold
    identifiers into it. [sstep] interleaves the I/O thread's event handlers and
    the critical sections of its [createUser], the monitor's three steps per
    connection, posts of the application and the destruction of objects nobody
    refers to; the system calls' results are the handlers' arguments. [sv_log]
    records the callbacks, and [sv_expired] the connections that the monitor has
    found silent for too long; no operation reads either. *)

From S2P Require Import Prelude MemChunk TcpMessage Framing SocketPoll WriteSide TcpUser SafeQueue Dispatch.

Definition DefaultMaxConns : Z := 6000.

Inductive callback := OnConnect (u : nat) | OnDisconnect (u : nat).
#[export] Instance callback_eq_dec : EqDecision callback.
Proof. solve_decision. Defined.

(** Where the I/O thread is in [createUser], once it has made the object: the
    object is nowhere else yet, it is in [_fd2user], it is in [_users] too, it is
    started. *)
Inductive creating := NoUser | Made (fd : Z) (u : nat) | Mapped (u : nat) | Pushed (u : nat) | Started (u : nat).

(** The thread's own [shared_ptr], and the connections the monitor cannot see yet. *)
Definition io_user (c : creating) : option nat :=
  match c with NoUser => None | Made _ u | Mapped u | Pushed u | Started u => Some u end.
Definition hidden (c : creating) (u : nat) : Prop :=
  match c with Made _ v | Mapped v => u = v | _ => False end.

Section server.
Context {P : Type} {PI : Poller P} (fresh : Z -> bytes) (proto : protocol).

Record server := MkServer {
  sv_poll : P;
  sv_efd : Z;
  sv_listenFds : gset Z;
  sv_userSeq : Z;
  sv_max : Z;                       (* _maxConnections *)
  sv_heap : gmap nat user;
  sv_next : nat;
  sv_fd2user : gmap Z nat;
  sv_users : list nat;
  sv_held : option nat;             (* the monitor's local [user] *)
  sv_disp : dispatcher (nat * bytes);
  sv_log : list callback;
  sv_io : creating;
  sv_expired : gset nat;
}.

Definition set_heap (s : server) (h : gmap nat user) : server :=
  MkServer (sv_poll s) (sv_efd s) (sv_listenFds s) (sv_userSeq s) (sv_max s) h (sv_next s)
    (sv_fd2user s) (sv_users s) (sv_held s) (sv_disp s) (sv_log s) (sv_io s) (sv_expired s).
Definition set_poll (s : server) (p : P) : server :=
  MkServer p (sv_efd s) (sv_listenFds s) (sv_userSeq s) (sv_max s) (sv_heap s) (sv_next s)
    (sv_fd2user s) (sv_users s) (sv_held s) (sv_disp s) (sv_log s) (sv_io s) (sv_expired s).
Definition set_fd2user (s : server) (m : gmap Z nat) : server :=
  MkServer (sv_poll s) (sv_efd s) (sv_listenFds s) (sv_userSeq s) (sv_max s) (sv_heap s) (sv_next s)
    m (sv_users s) (sv_held s) (sv_disp s) (sv_log s) (sv_io s) (sv_expired s).
Definition set_users (s : server) (l : list nat) (held : option nat) (log : list callback) : server :=
  MkServer (sv_poll s) (sv_efd s) (sv_listenFds s) (sv_userSeq s) (sv_max s) (sv_heap s) (sv_next s)
    (sv_fd2user s) l held (sv_disp s) log (sv_io s) (sv_expired s).
Definition set_disp (s : server) (d : dispatcher (nat * bytes)) : server :=
  MkServer (sv_poll s) (sv_efd s) (sv_listenFds s) (sv_userSeq s) (sv_max s) (sv_heap s) (sv_next s)
    (sv_fd2user s) (sv_users s) (sv_held s) d (sv_log s) (sv_io s) (sv_expired s).
Definition set_io (s : server) (c : creating) : server :=
  MkServer (sv_poll s) (sv_efd s) (sv_listenFds s) (sv_userSeq s) (sv_max s) (sv_heap s) (sv_next s)
    (sv_fd2user s) (sv_users s) (sv_held s) (sv_disp s) (sv_log s) c (sv_expired s).
Definition set_expired (s : server) (e : gset nat) : server :=
  MkServer (sv_poll s) (sv_efd s) (sv_listenFds s) (sv_userSeq s) (sv_max s) (sv_heap s) (sv_next s)
    (sv_fd2user s) (sv_users s) (sv_held s) (sv_disp s) (sv_log s) (sv_io s) e.

Definition currentConnections (s : server) : Z := Z.of_nat (base.size (sv_fd2user s)).

(** [createUser(fd, peer, peerlen)] up to [setProtocol], before anybody else can
    see the object: [addr] is what [parseAddr] returns; [None] is [nullptr], with
    the state as it is then. *)
Definition createUser (now fd : Z) (addr : option (bytes * Z)) (s : server) : option nat * server :=
  match addr with
  | None => (None, s)
  | Some (ip, port) =>
      let '(rc, p1) := sp_add (sv_poll s) (sv_efd s) fd false in
      if negb (rc =? 0) then (None, set_poll s p1)
      else
        let u := sv_next s in
        let usr := init now ip port fd (sv_userSeq s) (new_user fresh) in
        let '(p2, w2) := joinMonitor p1 (u_wr usr) (sv_efd s) in
        let usr := setProtocol (set_wr usr w2) proto in
        (Some u,
         MkServer p2 (sv_efd s) (sv_listenFds s) (wrap 64 (sv_userSeq s + 1)) (sv_max s)
           (<[u := usr]> (sv_heap s)) (S u) (sv_fd2user s) (sv_users s)
           (sv_held s) (sv_disp s) (sv_log s) (Made fd u) (sv_expired s))
  end.

(** The rest of [createUser], a critical section at a time: [_fd2user[fd] = user],
    [_users.push_back(user)], [setStart], [onConnect]. *)
Definition createUser_next (s : server) : option server :=
  match sv_io s with
  | NoUser => None
  | Made fd u => Some (set_io (set_fd2user s (<[fd := u]> (sv_fd2user s))) (Mapped u))
  | Mapped u => Some (set_io (set_users s (sv_users s ++ [u]) (sv_held s) (sv_log s)) (Pushed u))
  | Pushed u => Some (set_io (set_heap s (alter setStart u (sv_heap s))) (Started u))
  | Started u => Some (set_io (set_users s (sv_users s) (sv_held s) (sv_log s ++ [OnConnect u])) NoUser)
  end.

Definition findUser (s : server) (fd : Z) : option nat := sv_fd2user s !! fd.

Definition closeUser (s : server) (fd : Z) : Z * server :=
  match sv_fd2user s !! fd with
  | None => (-1, s)
  | Some u =>
      match sv_heap s !! u with
      | None => (-1, s)      (* the map holds a reference: excluded below *)
      | Some usr =>
          if isClosed usr then (1, s)
          else
            let usr1 := setClose usr in
            let usr2 := set_wr usr1 (leaveMonitor (u_wr usr1)) in
            (0, set_fd2user (set_poll (set_heap s (<[u := usr2]> (sv_heap s)))
                  (sp_del (sv_poll s) (sv_efd s) fd)) (delete fd (sv_fd2user s)))
      end
  end.

Definition onIOError (s : server) (fd : Z) : server := snd (closeUser s fd).

(** The [accept] branch: the state and the descriptors closed at once. It goes on
    with [createUser_next]. *)
Definition on_accept (now conn : Z) (addr : option (bytes * Z)) (s : server) : server * list Z :=
  if conn <? 0 then (s, [])
  else if sv_max s <=? currentConnections s then (s, [conn])
  else
    match createUser now conn addr s with
    | (None, s1) => (s1, [conn])
    | (Some _, s1) => (s1, [])
    end.

Fixpoint dispatch_all (d : dispatcher (nat * bytes)) (u : nat) (ms : list bytes)
  : option (dispatcher (nat * bytes)) :=
  match ms with
  | [] => Some d
  | m :: ms =>
      match dispatchMsg (fun um => type proto (Some (snd um))) d (u, m) with
      | None => None
      | Some d1 => dispatch_all d1 u ms
      end
  end.

(** What [recv] returned: data, or a code. *)
Inductive recv_result := RecvData (chunk : bytes) | RecvCode (rc : Z).

(** The [read] branch for a connection's descriptor. *)
Definition on_readable (now fd : Z) (r : recv_result) (s : server) : option server :=
  match r with
  | RecvData chunk =>
      match findUser s fd with
      | None => Some s
      | Some u =>
          match sv_heap s !! u with
          | None => Some s
          | Some usr =>
              match on_read fresh now usr chunk with
              | None => None
              | Some (rc, ms, usr1) =>
                  let s1 := set_heap s (<[u := usr1]> (sv_heap s)) in
                  if rc =? 0 then
                    match dispatch_all (sv_disp s1) u ms with
                    | None => None
                    | Some d => Some (set_disp s1 d)
                    end
                  else Some (onIOError s1 fd)
              end
          end
      end
  | RecvCode rc => if rc =? -2 then Some s else Some (onIOError s fd)
  end.

(** The [write] branch. *)
Definition on_writable (fd : Z) (send : bytes -> Z) (s : server) : server :=
  match findUser s fd with
  | None => s
  | Some u =>
      match sv_heap s !! u with
      | None => s
      | Some usr =>
          let '(rc, p1, w1) := sendData (u_closed usr) send (sv_poll s) (u_wr usr) in
          let s1 := set_poll (set_heap s (<[u := set_wr usr w1]> (sv_heap s))) p1 in
          if rc =? SEND_FAIL then onIOError s1 fd else s1
      end
  end.

(** One event of the I/O thread's loop. *)
Definition on_event (now : Z) (accepted : Z * option (bytes * Z)) (r : recv_result) (send : bytes -> Z)
    (ev : event) (s : server) : option (server * list Z) :=
  if bool_decide (ev_fd ev ∈ sv_listenFds s) then
    if ev_read ev then Some (on_accept now (fst accepted) (snd accepted) s) else Some (s, [])
  else if ev_read ev then
    match on_readable now (ev_fd ev) r s with None => None | Some s1 => Some (s1, []) end
  else if ev_write ev then Some (on_writable (ev_fd ev) send s, [])
  else if ev_error ev || ev_eof ev then Some (onIOError s (ev_fd ev), [])
  else Some (s, []).

(** *** The monitor *)

Definition popFrontUser (s : server) : option nat * server :=
  match sv_users s with
  | [] => (None, s)
  | u :: us => (Some u, set_users s us (Some u) (sv_log s))
  end.

(** [if (user->isExpired(now)) closeUser(user->_fd, ...)]. *)
Definition monitor_expire (now : Z) (u : nat) (s : server) : server :=
  match sv_heap s !! u with
  | None => s
  | Some usr =>
      if isExpired usr now then snd (closeUser (set_expired s ({[u]} ∪ sv_expired s)) (w_fd (u_wr usr))) else s
  end.

(** [onDisconnect] of a closed connection, or [pushUserBack]. *)
Definition monitor_finish (u : nat) (s : server) : server :=
  match sv_heap s !! u with
  | None => s
  | Some usr =>
      if isClosed usr then set_users s (sv_users s) None (sv_log s ++ [OnDisconnect u])
      else set_users s (sv_users s ++ [u]) None (sv_log s)
  end.

(** One uninterrupted iteration. *)
Definition monitor_once (now : Z) (s : server) : server :=
  match popFrontUser s with
  | (None, s1) => s1
  | (Some u, s1) => monitor_finish u (monitor_expire now u s1)
  end.

(** *** Posts and destruction *)

Definition user_post (u : nat) (m : bytes) (s : server) : server :=
  match sv_heap s !! u with
  | None => s
  | Some usr =>
      let '(_, p1, w1) := post (sv_poll s) (u_wr usr) m in
      set_poll (set_heap s (<[u := set_wr usr w1]> (sv_heap s))) p1
  end.

(** Nobody the server knows of refers to the object. *)
Definition unreferenced (u : nat) (s : server) : Prop :=
  (u ∉ sv_users s) /\ sv_held s <> Some u /\ io_user (sv_io s) <> Some u /\ (forall fd, sv_fd2user s !! fd <> Some u).

(** The descriptors that are open: [uninit] closes one with its object. *)
Definition fd_open (fd : Z) (s : server) : Prop :=
  exists u usr, sv_heap s !! u = Some usr /\ w_fd (u_wr usr) = fd.

(** ** Interleavings *)

Inductive sstep : server -> server -> Prop :=
| ss_event s now accepted r send ev s' closed :
    sv_io s = NoUser ->
    (* accept returns a descriptor that is not open, and not INVALID_SOCK *)
    (0 <= fst accepted -> ~ fd_open (fst accepted) s) ->
    on_event now accepted r send ev s = Some (s', closed) -> sstep s s'
| ss_create s s' : createUser_next s = Some s' -> sstep s s'
| ss_pop s u s' : sv_held s = None -> popFrontUser s = (Some u, s') -> sstep s s'
| ss_expire s u now : sv_held s = Some u -> sstep s (monitor_expire now u s)
| ss_finish s u : sv_held s = Some u -> sstep s (monitor_finish u s)
| ss_post s u m : sstep s (user_post u m s)
| ss_destroy s u : unreferenced u s -> sstep s (set_heap s (delete u (sv_heap s))).

(** The server after [open] and [start]: no connection yet. *)
Definition idle_server (p : P) (efd : Z) (listenFds : gset Z) (max : Z) (d : dispatcher (nat * bytes)) : server :=
  MkServer p efd listenFds 1 max ∅ 0 ∅ [] None d [] NoUser ∅.

Definition server_reachable (max : Z) (s : server) : Prop :=
  exists p efd fds d, rtc sstep (idle_server p efd fds max d) s.

(** ** The invariant *)

(** Descriptor and state of a connection object. *)
Definition view (s : server) (u : nat) : option (Z * bool) :=
  (fun usr => (w_fd (u_wr usr), u_closed usr)) <$> sv_heap s !! u.

(** The connections the monitor has not disconnected yet. *)
Definition walk (s : server) : list nat := option_list (sv_held s) ++ sv_users s.

(** What is known of the connection the I/O thread is creating. *)
Definition creating_ok (s : server) : Prop :=
  match sv_io s with
  | NoUser => True
  | Made fd u => view s u = Some (fd, false) /\ (u ∉ walk s) /\ (forall fd', sv_fd2user s !! fd' <> Some u)
  | Mapped u => (exists fd, view s u = Some (fd, false)) /\ (u ∉ walk s)
  | Pushed u | Started u => is_Some (view s u)
  end.

(** Accepted, but not counted yet. *)
Definition unmapped (s : server) : Z := match sv_io s with Made _ _ => 1 | _ => 0 end.

(** Who is closed was connected, or is closed by the monitor. *)
Definition may_close (s : server) (u : nat) : Prop := OnConnect u ∈ sv_log s \/ u ∈ sv_expired s.

Record srv_inv (s : server) : Prop := {
  si_map : forall fd u, sv_fd2user s !! fd = Some u -> view s u = Some (fd, false);
  si_open : forall u fd, view s u = Some (fd, false) ->
    sv_io s = Made fd u \/ sv_fd2user s !! fd = Some u /\ (u ∈ walk s \/ sv_io s = Mapped u);
  si_fd : forall u1 u2 fd c1 c2, view s u1 = Some (fd, c1) -> view s u2 = Some (fd, c2) -> u1 = u2;
  si_nodup : NoDup (walk s);
  si_alive : forall u, u ∈ walk s -> is_Some (view s u);
  si_next : forall u, is_Some (view s u) -> (u < sv_next s)%nat;
  si_known : forall u, u ∈ sv_expired s -> (u < sv_next s)%nat;
  si_io : creating_ok s;
  si_conn : forall u, OnConnect u ∈ sv_log s <-> (u < sv_next s)%nat /\ io_user (sv_io s) <> Some u;
  si_disc : forall u, (u < sv_next s)%nat -> (OnDisconnect u ∈ sv_log s <-> (u ∉ walk s) /\ ~ hidden (sv_io s) u);
  si_closed : forall u fd, view s u = Some (fd, true) -> may_close s u;
  si_order : forall pre u post, sv_log s = pre ++ OnDisconnect u :: post -> OnConnect u ∈ pre \/ u ∈ sv_expired s;
  si_once : NoDup (sv_log s);
  si_limit : currentConnections s + unmapped s <= Z.max 0 (sv_max s);
}.

Lemma inv_same s s' :
  (forall u, view s' u = view s u) -> sv_fd2user s' = sv_fd2user s -> sv_users s' = sv_users s ->
  sv_held s' = sv_held s -> sv_next s' = sv_next s -> sv_log s' = sv_log s -> sv_max s' = sv_max s ->
  sv_io s' = sv_io s -> sv_expired s' = sv_expired s ->
  srv_inv s -> srv_inv s'.
Proof.
  intros Hv Hf Hu Hh Hn Hl Hm Hi He [].
  split; unfold creating_ok, walk, currentConnections, unmapped, may_close in *;
    rewrite ?Hf, ?Hu, ?Hh, ?Hn, ?Hl, ?Hm, ?Hi, ?He; try setoid_rewrite Hv;
    first [done | by destruct (sv_io s); try setoid_rewrite Hv].
Qed.

Lemma view_insert s h u usr u' :
  view (set_heap s (<[u := usr]> h)) u' =
  if decide (u = u') then Some (w_fd (u_wr usr), u_closed usr) else view (set_heap s h) u'.
Proof. unfold view. cbn. rewrite lookup_insert. by case_decide. Qed.

(** Methods that change neither the descriptor nor the state. *)
Lemma view_update s u usr usr' :
  sv_heap s !! u = Some usr -> w_fd (u_wr usr') = w_fd (u_wr usr) -> u_closed usr' = u_closed usr ->
  forall u', view (set_heap s (<[u := usr']> (sv_heap s))) u' = view s u'.
Proof.
  intros Hu Hf Hc u'. rewrite view_insert. case_decide as E; [|done]. subst u'.
  unfold view. rewrite Hu. cbn. by rewrite Hf, Hc.
Qed.

Lemma recv_loop_core fuel now usr ms usr' :
  recv_loop fuel now usr = Some (ms, usr') -> u_wr usr' = u_wr usr /\ u_closed usr' = u_closed usr.
Proof.
  revert usr ms. induction fuel as [|fuel IH]; intros usr ms; cbn [recv_loop]; [done|].
  unfold getRecvMsg. destruct (isClosed usr); [by intros [= <- <-]|].
  destruct (_PopMsg _ _) as [[m|] c].
  - destruct (recv_loop fuel now _) as [[ms1 usr1]|] eqn:E; [|done]. intros [= <- <-]. by apply IH in E.
  - by intros [= <- <-].
Qed.

Lemma on_read_core now usr chunk rc ms usr' :
  on_read fresh now usr chunk = Some (rc, ms, usr') -> u_wr usr' = u_wr usr /\ u_closed usr' = u_closed usr.
Proof.
  unfold on_read, onRecv. destruct (isClosed usr).
  - cbn. by intros [= <- <- <-].
  - destruct (MemChunk.push fresh _ _ _) as [[rc1 c]|]; [|done].
    assert (forall rc0 usr0, (if rc1 <? 0 then Some (2, set_recvCache usr c)
        else if MaxPendingSize <? datasize c then Some (3, set_recvCache usr c)
        else Some (0, set_recvCache usr c)) = Some (rc0, usr0) -> usr0 = set_recvCache usr c) as Hu.
    { intros rc0 usr0. repeat case_if; by intros [= _ <-]. }
    destruct (if rc1 <? 0 then _ else _) as [[rc0 usr0]|] eqn:E; [|done]. specialize (Hu _ _ eq_refl) as ->.
    case_if; [|by intros [= <- <- <-]].
    destruct (recv_loop _ _ _) as [[ms1 usr1]|] eqn:El; [|done]. intros [= <- <- <-].
    by apply recv_loop_core in El.
Qed.

Lemma sendData_core closed send p w rc p' w' : sendData closed send p w = (rc, p', w') -> w_fd w' = w_fd w.
Proof.
  unfold sendData, sendData_empty. destruct closed; [by intros [= <- <- <-]|].
  destruct (_SendData send (w_queue w)) as [rc1 q]. case_if; [|by intros [= <- <- <-]].
  destruct (w_queue (set_queue w q)).
  - pose proof (enableWrite_ids p (set_queue w q) false) as [Hf _].
    destruct (enableWrite p _ false). by intros [= <- <- <-].
  - by intros [= <- <- <-].
Qed.

Lemma post_core p w m rc p' w' : post p w m = (rc, p', w') -> w_fd w' = w_fd w.
Proof.
  unfold post. case_if; [by intros [= <- <- <-]|].
  pose proof (enableWrite_ids p (set_queue w (w_queue w ++ [m])) true) as [Hf _].
  destruct (enableWrite p _ true). by intros [= <- <- <-].
Qed.

(** Closing. *)
Lemma closeUser_spec s fd rc s' :
  srv_inv s -> closeUser s fd = (rc, s') ->
  match sv_fd2user s !! fd with
  | None => rc = -1 /\ s' = s
  | Some u => rc = 0 /\ sv_fd2user s' = delete fd (sv_fd2user s) /\
      (forall u', view s' u' = if decide (u = u') then Some (fd, true) else view s u') /\
      sv_users s' = sv_users s /\ sv_held s' = sv_held s /\ sv_next s' = sv_next s /\
      sv_log s' = sv_log s /\ sv_max s' = sv_max s /\ sv_io s' = sv_io s /\ sv_expired s' = sv_expired s
  end.
Proof.
  intros Hinv. unfold closeUser. destruct (sv_fd2user s !! fd) as [u|] eqn:E; [|by intros [= <- <-]].
  pose proof (si_map _ Hinv _ _ E) as Hv. unfold view in Hv.
  destruct (sv_heap s !! u) as [usr|] eqn:Eu; [|done]. cbn in Hv. injection Hv as Hfd Hcl.
  unfold isClosed. rewrite Hcl. intros [= <- <-]. split_and!; try done.
  intros u'. change (view (set_fd2user ?x ?m) u') with (view x u').
  change (view (set_poll ?x ?m) u') with (view x u'). rewrite view_insert. case_decide; [|done].
  cbn. by rewrite Hfd.
Qed.

Lemma closeUser_inv s fd :
  srv_inv s -> (forall u, sv_fd2user s !! fd = Some u -> may_close s u /\ ~ hidden (sv_io s) u) ->
  srv_inv (snd (closeUser s fd)).
Proof.
  intros Hinv Hmay. destruct (closeUser s fd) as [rc s'] eqn:E. apply closeUser_spec in E; [|done]. cbn [snd].
  destruct (sv_fd2user s !! fd) as [u|] eqn:Eu; [|by destruct E as [_ ->]].
  destruct (Hmay u eq_refl) as [Hcl Hhid].
  destruct E as (_ & Hf & Hv & Hus & Hh & Hn & Hl & Hm & Hi & He).
  pose proof (si_map _ Hinv _ _ Eu) as Hvu. destruct Hinv.
  split; unfold creating_ok, walk, may_close, unmapped in *; rewrite ?Hf, ?Hus, ?Hh, ?Hn, ?Hl, ?Hi, ?He; try done.
  - intros fd' u' [Hne Hl']%lookup_delete_Some. rewrite Hv. case_decide; [|by apply si_map0].
    subst u'. apply si_map0 in Hl'. congruence.
  - intros u' fd'. rewrite Hv. case_decide as Ed; [done|]. intros Hv'. destruct (si_open0 _ _ Hv') as [|[Hm' Hw]]; [by left|right].
    split; [|done]. rewrite lookup_delete_ne; [done|]. intros <-. congruence.
  - intros u1 u2 fd' c1 c2. rewrite !Hv. repeat case_decide; subst; try done.
    + intros [= <- <-] H2. by eapply si_fd0.
    + intros H1 [= <- <-]. by eapply si_fd0.
    + apply si_fd0.
  - intros u' Hu'. rewrite Hv. case_decide; eauto.
  - intros u' Hu'. rewrite Hv in Hu'. case_decide; [|by apply si_next0]. subst. apply si_next0. eauto.
  - destruct (sv_io s) as [|fd' v|v|v|v]; cbn [hidden] in Hhid; try done; rewrite ?Hv.
    + rewrite decide_False by congruence. destruct si_io0 as (? & ? & Hno). split_and!; [done..|].
      intros fd2 [_ ?]%lookup_delete_Some. by apply (Hno fd2).
    + rewrite decide_False by congruence. done.
    + case_decide; [by eexists|done].
    + case_decide; [by eexists|done].
  - intros u' fd'. rewrite Hv. case_decide; [by intros _; subst|apply si_closed0].
  - unfold currentConnections in *. rewrite Hf, Hm. pose proof (map_size_delete_Some fd (sv_fd2user s) ltac:(eauto)). lia.
Qed.

(** The I/O thread closes only between two creations. *)
Lemma io_may_close s fd u :
  srv_inv s -> sv_io s = NoUser -> sv_fd2user s !! fd = Some u -> may_close s u /\ ~ hidden (sv_io s) u.
Proof.
  intros Hinv Hio Hu. rewrite Hio. split; [|by cbn; tauto]. left. apply (si_conn _ Hinv). rewrite Hio. split; [|done].
  apply (si_next _ Hinv). rewrite (si_map _ Hinv _ _ Hu). by eexists.
Qed.

(** Creating: the descriptor is new. *)
Lemma createUser_inv s now fd addr :
  srv_inv s -> sv_io s = NoUser -> ~ fd_open fd s -> currentConnections s < sv_max s ->
  srv_inv (snd (createUser now fd addr s)).
Proof.
  intros Hinv Hio Hfd Hlim. unfold createUser. destruct addr as [[ip port]|]; [|done].
  destruct (sp_add _ _ _ _) as [rc p1]. case_if; [by apply (inv_same s)|].
  set (usr := init _ _ _ _ _ _). destruct (joinMonitor p1 (u_wr usr) (sv_efd s)) as [p2 w2] eqn:Ej.
  apply join_eq in Ej as (_ & Hf2 & _). change (w_fd (u_wr usr)) with fd in Hf2. cbn [snd].
  set (s' := MkServer _ _ _ _ _ _ _ _ _ _ _ _ _ _). set (n := sv_next s) in *.
  assert (forall u', view s' u' = if decide (n = u') then Some (fd, false) else view s u') as Hv.
  { intros u'. unfold view, s'. cbn [sv_heap]. rewrite lookup_insert. case_decide; [|done]. cbn. by rewrite Hf2. }
  assert (view s n = None) as Hn.
  { destruct (view s n) eqn:E; [|done]. pose proof (si_next _ Hinv n ltac:(eauto)). lia. }
  assert (forall u c, view s u <> Some (fd, c)) as Hno.
  { intros u c. unfold view. destruct (sv_heap s !! u) as [x|] eqn:Ex; cbn; [|done]. intros [= Hx _].
    apply Hfd. by exists u, x. }
  assert (n ∉ walk s) as Hwn by (intros Hu; apply (si_alive _ Hinv) in Hu as [? ?]; congruence).
  destruct Hinv. rewrite Hio in *. split; unfold creating_ok, walk, may_close, unmapped in *;
    cbn [s' sv_fd2user sv_users sv_held sv_log sv_next sv_io sv_expired io_user hidden] in *; try done.
  - intros fd' u Hl. pose proof (si_map0 _ _ Hl) as Hvu. rewrite Hv, decide_False; [done|]. intros <-. congruence.
  - intros u fd'. rewrite Hv. case_decide as Ed.
    + subst u. intros [= <-]. by left.
    + intros Hvu. right. destruct (si_open0 _ _ Hvu) as [|[Hl [Hw|]]]; [done| |done]. split; [done|by left].
  - intros u1 u2 fd' c1 c2. rewrite !Hv. repeat case_decide; try congruence.
    + intros [= <- <-] H2. by apply Hno in H2.
    + intros H1 [= <- <-]. by apply Hno in H1.
    + apply si_fd0.
  - intros u Hu. rewrite Hv. case_decide; [eauto|]. by apply si_alive0.
  - intros u. rewrite Hv. case_decide; [lia|]. intros Hu%si_next0. lia.
  - intros u Hu%si_known0. lia.
  - rewrite Hv, decide_True by done. split_and!; [done..|]. intros fd' Hl. apply si_map0 in Hl. congruence.
  - intros u. rewrite si_conn0. split; [intros [? _]; split; [lia|]; intros [= ?]; lia|].
    intros [Hu Hne]. split; [|done]. assert (u <> n) by congruence. lia.
  - intros u Hu. destruct (decide (u = n)) as [->|Hne].
    + split; [|by intros [_ []]]. intros Hd. exfalso. apply list_elem_of_split in Hd as (l1 & l2 & Hd).
      destruct (si_order0 _ _ _ Hd) as [Hc|He].
      * assert (OnConnect n ∈ sv_log s) as Hc' by (rewrite Hd; set_solver). apply si_conn0 in Hc' as [? _]. lia.
      * apply si_known0 in He. lia.
    + rewrite (si_disc0 u) by lia. naive_solver.
  - intros u fd'. rewrite Hv. case_decide; [done|]. apply si_closed0.
  - unfold currentConnections in *. cbn [s' sv_fd2user sv_max]. lia.
Qed.

(** The critical sections that follow. *)
Lemma create_next_inv s s' : srv_inv s -> createUser_next s = Some s' -> srv_inv s'.
Proof.
  intros Hinv. unfold createUser_next. destruct (sv_io s) as [|fd u|u|u|u] eqn:Hio; [done|..]; intros [= <-];
    pose proof (si_io _ Hinv) as Hok; unfold creating_ok in Hok; rewrite Hio in Hok.
  - destruct Hok as (Hv & Hw & Hno). destruct Hinv. rewrite Hio in *.
    assert (sv_fd2user s !! fd = None) as Hnone.
    { destruct (sv_fd2user s !! fd) as [u'|] eqn:E; [|done]. pose proof (si_fd0 _ _ _ _ _ (si_map0 _ _ E) Hv) as ->. by apply Hno in E. }
    split; unfold creating_ok, may_close, unmapped, currentConnections in *;
      cbn [set_io set_fd2user sv_fd2user sv_users sv_held sv_log sv_next sv_io sv_expired sv_max io_user hidden] in *; try done.
    + intros fd' u'. rewrite lookup_insert. case_decide; [by intros [= <-]; subst|apply si_map0].
    + intros u' fd' Hv'. right. rewrite lookup_insert. destruct (si_open0 _ _ Hv') as [[= <- <-]|[Hm [?|?]]]; [|split; [|by left]|done].
      * rewrite decide_True by done. split; [done|by right].
      * case_decide; [|done]. subst. congruence.
    + by split; [exists fd|].
    + rewrite map_size_insert_None by done. rewrite Hio in si_limit0. lia.
  - destruct Hok as ((fd & Hv) & Hw). destruct Hinv. rewrite Hio in *.
    split; unfold creating_ok, may_close, unmapped, currentConnections, walk in *;
      cbn [set_io set_users sv_fd2user sv_users sv_held sv_log sv_next sv_io sv_expired sv_max io_user hidden] in *; try done;
      rewrite ?app_assoc.
    + intros u' fd' Hv'. right. destruct (si_open0 _ _ Hv') as [?|[Hm [?|[= ->] ] ]]; [done|..]; (split; [done|left; set_solver]).
    + apply NoDup_app. split; [done|]. split; [|apply NoDup_singleton]. intros x Hx ->%list_elem_of_singleton. done.
    + intros u' [?| ->%list_elem_of_singleton]%elem_of_app; [by apply si_alive0|by exists (fd, false)].
    + intros u' Hu'. rewrite (si_disc0 u' Hu'). set_solver.
    + rewrite Hio in si_limit0. lia.
  - set (s1 := set_io _ _).
    assert (forall u', view s1 u' = view s u') as Hvs.
    { intros u'. unfold view, s1. cbn [set_io set_heap sv_heap]. rewrite lookup_alter. case_decide; [|done]. subst. by destruct (sv_heap s !! u'). }
    destruct Hinv. rewrite Hio in *.
    split; unfold creating_ok, may_close, unmapped, currentConnections, walk in *; try setoid_rewrite Hvs;
      cbn [s1 set_io set_heap sv_fd2user sv_users sv_held sv_log sv_next sv_io sv_expired sv_max io_user hidden] in *; try done.
    + intros u' fd' Hv'. right. destruct (si_open0 _ _ Hv') as [?|[Hm [?|?]]]; [done| |done]. split; [done|by left].
    + by rewrite Hvs.
    + by rewrite Hio in si_limit0.
  - assert (u < sv_next s)%nat as Hlt by by apply (si_next _ Hinv).
    destruct Hinv. rewrite Hio in *.
    split; unfold creating_ok, may_close, unmapped, currentConnections, walk in *;
      cbn [set_io set_users sv_fd2user sv_users sv_held sv_log sv_next sv_io sv_expired sv_max io_user hidden] in *; try done.
    + intros u' fd' Hv'. right. destruct (si_open0 _ _ Hv') as [?|[Hm [?|?]]]; [done| |done]. split; [done|by left].
    + intros u'. rewrite elem_of_app, si_conn0, list_elem_of_singleton. split; [intros [ [? _]|[= ->] ]; done|].
      intros [Hu _]. destruct (decide (u' = u)) as [->|]; [by right|left]. split; [done|congruence].
    + intros u' Hu'. rewrite elem_of_app, list_elem_of_singleton, (si_disc0 u' Hu'). naive_solver.
    + intros u' fd' Hv'. destruct (si_closed0 _ _ Hv') as [?|?]; [left; set_solver|by right].
    + intros pre u' post Heq. destruct (decide (post = [])) as [->|Hpost].
      * apply app_inj_tail in Heq as [_ ?]. done.
      * destruct (exists_last Hpost) as (post' & x & ->). rewrite app_comm_cons, app_assoc in Heq.
        apply app_inj_tail in Heq as [Heq _]. by eapply si_order0.
    + apply NoDup_app. split; [done|]. split; [|apply NoDup_singleton].
      intros x Hx ->%list_elem_of_singleton. by apply si_conn0 in Hx as [_ []].
    + by rewrite Hio in si_limit0.
Qed.

Lemma on_readable_inv s now fd r s' : srv_inv s -> sv_io s = NoUser -> on_readable now fd r s = Some s' -> srv_inv s'.
Proof.
  intros Hinv Hio. unfold on_readable, findUser. destruct r as [chunk|rc].
  - destruct (sv_fd2user s !! fd) as [u|]; [|by intros [= <-]].
    destruct (sv_heap s !! u) as [usr|] eqn:Eu; [|by intros [= <-]].
    destruct (on_read fresh now usr chunk) as [[[rc ms] usr1]|] eqn:E; [|done].
    apply on_read_core in E as [Hw Hc].
    assert (srv_inv (set_heap s (<[u := usr1]> (sv_heap s)))) as Hinv1.
    { apply (inv_same s); try done. apply (view_update _ _ _ _ Eu); congruence. }
    case_if; [|intros [= <-]; apply closeUser_inv; [done|]; intros v; by apply io_may_close].
    destruct (dispatch_all _ u ms) as [d|]; [|done]. intros [= <-]. by eapply inv_same; [..|exact Hinv1].
  - case_if; intros [= <-]; [done|]. apply closeUser_inv; [done|]. intros v. by apply io_may_close.
Qed.

Lemma on_writable_inv s fd send : srv_inv s -> sv_io s = NoUser -> srv_inv (on_writable fd send s).
Proof.
  intros Hinv Hio. unfold on_writable, findUser. destruct (sv_fd2user s !! fd) as [u|]; [|done].
  destruct (sv_heap s !! u) as [usr|] eqn:Eu; [|done].
  destruct (sendData _ _ _ _) as [[rc p1] w1] eqn:E. apply sendData_core in E.
  assert (srv_inv (set_poll (set_heap s (<[u := set_wr usr w1]> (sv_heap s))) p1)) as Hinv1.
  { apply (inv_same s); try done. apply (view_update _ _ _ _ Eu); done. }
  case_if; [|done]. apply closeUser_inv; [done|]. intros v. by apply io_may_close.
Qed.

Lemma held_not_hidden s u : srv_inv s -> u ∈ walk s -> ~ hidden (sv_io s) u.
Proof.
  intros Hinv Hw. pose proof (si_io _ Hinv) as Hok. unfold creating_ok in Hok.
  destruct (sv_io s); cbn [hidden]; try tauto; intros ->; naive_solver.
Qed.

Lemma finish_inv s u : srv_inv s -> sv_held s = Some u -> srv_inv (monitor_finish u s).
Proof.
  intros Hinv Hh. unfold monitor_finish. destruct (sv_heap s !! u) as [usr|] eqn:Eu; [|done].
  assert (view s u = Some (w_fd (u_wr usr), u_closed usr)) as Hv by (unfold view; by rewrite Eu).
  assert (u ∈ walk s) as Huw by (unfold walk; rewrite Hh; by left).
  pose proof (held_not_hidden s u Hinv Huw) as Hhid.
  unfold isClosed. pose proof (si_nodup _ Hinv) as Hnd.
  pose proof (si_next _ Hinv u ltac:(eauto)) as Hlt.
  pose proof (si_disc _ Hinv u Hlt) as Hdu. pose proof (si_closed _ Hinv u (w_fd (u_wr usr))) as Hcu.
  assert (forall l : list nat, (forall x, x ∈ l -> x ∈ walk s) -> match sv_io s with
      | NoUser => True
      | Made fd v => view s v = Some (fd, false) /\ (v ∉ l) /\ (forall fd', sv_fd2user s !! fd' <> Some v)
      | Mapped v => (exists fd, view s v = Some (fd, false)) /\ (v ∉ l)
      | Pushed v | Started v => is_Some (view s v)
      end) as Hok.
  { intros l Hl. pose proof (si_io _ Hinv) as H. unfold creating_ok in H. destruct (sv_io s); naive_solver. }
  unfold walk in *. rewrite Hh in *. change (option_list (Some u)) with [u] in *. cbn [app] in *. apply NoDup_cons in Hnd as [Hni Hnd].
  destruct (u_closed usr) eqn:Ec.
  - destruct Hinv. split; unfold creating_ok, may_close, unmapped, walk in *; rewrite ?Hh in *;
      cbn [set_users sv_fd2user sv_users sv_held sv_log sv_next sv_io sv_expired] in *;
      change (option_list (Some u)) with [u] in *; change (option_list (@None nat)) with (@nil nat); cbn [app] in *; try done.
    + intros u' fd Hv'. destruct (si_open0 _ _ Hv') as [|[? [Hw|]]]; [by left|right..]; (split; [done|]); [|by right].
      apply elem_of_cons in Hw as [->|]; [|by left]. unfold view in Hv, Hv'. cbn in Hv'. congruence.
    + intros u' Hu'. apply si_alive0. by right.
    + apply Hok. intros x Hx. by right.
    + intros u'. rewrite elem_of_app, list_elem_of_singleton. naive_solver.
    + intros u' Hu'. rewrite elem_of_app, list_elem_of_singleton. destruct (decide (u' = u)) as [->|Hne].
      * naive_solver.
      * pose proof (si_disc0 u' Hu') as Hd. set_solver.
    + intros u' fd' Hv'. destruct (si_closed0 _ _ Hv') as [?|?]; [left; set_solver|by right].
    + intros pre u' post Heq. destruct (decide (post = [])) as [->|Hpost].
      * apply app_inj_tail in Heq as [<- [= <-]]. by apply Hcu.
      * destruct (exists_last Hpost) as (post' & x & ->). rewrite app_comm_cons, app_assoc in Heq.
        apply app_inj_tail in Heq as [Heq _]. by eapply si_order0.
    + apply NoDup_app. split; [done|]. split; [|apply NoDup_singleton].
      intros x Hx ->%list_elem_of_singleton. apply Hdu in Hx as [Hx _]. apply Hx. by left.
  - destruct Hinv. split; unfold creating_ok, may_close, unmapped, walk in *; rewrite ?Hh in *;
      cbn [set_users sv_fd2user sv_users sv_held sv_log sv_next sv_io sv_expired] in *;
      change (option_list (Some u)) with [u] in *; change (option_list (@None nat)) with (@nil nat); cbn [app] in *; try done.
    + intros u' fd Hv'. destruct (si_open0 _ _ Hv') as [|[? [Hw|]]]; [by left|right..]; (split; [done|]); [left; set_solver|by right].
    + apply NoDup_app. split; [done|]. split; [set_solver|apply NoDup_singleton].
    + intros u' Hu'. apply si_alive0. set_solver.
    + apply Hok. set_solver.
    + intros u' Hu'. rewrite (si_disc0 u' Hu'). set_solver.
Qed.

Lemma set_expired_inv s u : srv_inv s -> u ∈ walk s -> srv_inv (set_expired s ({[u]} ∪ sv_expired s)).
Proof.
  intros Hinv Huw. pose proof (si_next _ Hinv u (si_alive _ Hinv u Huw)) as Hlt. destruct Hinv.
  split; unfold creating_ok, may_close in *; cbn [set_expired sv_expired sv_log sv_next sv_io sv_fd2user] in *; try done.
  - set_solver.
  - intros u' fd Hv. destruct (si_closed0 u' fd Hv); [by left|right; set_solver].
  - intros pre u' post Heq. destruct (si_order0 _ _ _ Heq); [by left|right; set_solver].
Qed.

(** The monitor closes what it holds, when it has expired. *)
Lemma expire_inv s u now : srv_inv s -> sv_held s = Some u -> srv_inv (monitor_expire now u s).
Proof.
  intros Hinv Hh. unfold monitor_expire. destruct (sv_heap s !! u) as [usr|] eqn:Eu; [|done]. case_if; [|done].
  assert (u ∈ walk s) as Huw by (unfold walk; rewrite Hh; by left).
  pose proof (set_expired_inv s u Hinv Huw) as Hinv1. set (s1 := set_expired s ({[u]} ∪ sv_expired s)) in *.
  apply closeUser_inv; [done|]. intros u' Hu'. assert (u' = u) as ->.
  { apply (si_map _ Hinv1) in Hu'. eapply (si_fd _ Hinv1); [exact Hu'|]. unfold view. change (sv_heap s1) with (sv_heap s). by rewrite Eu. }
  split; [right; cbn; set_solver|by apply (held_not_hidden s1)].
Qed.

Lemma on_event_inv s now accepted r send ev s' closed :
  srv_inv s -> sv_io s = NoUser -> (0 <= fst accepted -> ~ fd_open (fst accepted) s) ->
  on_event now accepted r send ev s = Some (s', closed) -> srv_inv s'.
Proof.
  intros Hinv Hio Hacc. unfold on_event. case_if.
  - case_if; [|by intros [= <- <-]]. unfold on_accept. destruct (Z.ltb_spec (fst accepted) 0); [by intros [= <- <-]|].
    destruct (Z.leb_spec (sv_max s) (currentConnections s)); [by intros [= <- <-]|].
    pose proof (createUser_inv s now (fst accepted) (snd accepted) Hinv Hio (Hacc ltac:(lia)) ltac:(lia)) as Hc.
    destruct (createUser _ _ _ s) as [[u|] s1]; by intros [= <- <-].
  - case_if.
    { destruct (on_readable _ _ _ _) as [s1|] eqn:E; [|done]. intros [= <- <-]. by eapply on_readable_inv. }
    case_if; [intros [= <- <-]; by apply on_writable_inv|].
    case_if; intros [= <- <-]; [|done]. apply closeUser_inv; [done|]. intros v. by apply io_may_close.
Qed.

Lemma destroy_inv s u : unreferenced u s -> srv_inv s -> srv_inv (set_heap s (delete u (sv_heap s))).
Proof.
  intros (Hnu & Hnh & Hni & Hnf) Hinv.
  assert (forall u', view (set_heap s (delete u (sv_heap s))) u' = if decide (u = u') then None else view s u') as Hv.
  { intros u'. unfold view. cbn. rewrite lookup_delete. by case_decide. }
  assert (u ∉ walk s) as Hnw.
  { unfold walk. destruct (sv_held s) as [h|]; [|done]. change (option_list (Some h)) with [h]. set_solver. }
  destruct Hinv. split; try done; unfold creating_ok in *; cbn [set_heap sv_fd2user sv_next sv_log sv_io].
  - intros fd u' Hm. rewrite Hv. case_decide; [|by apply si_map0]. subst. by apply Hnf in Hm.
  - intros u' fd. rewrite Hv. case_decide; [done|]. apply si_open0.
  - intros u1 u2 fd c1 c2. rewrite !Hv. repeat case_decide; try done. apply si_fd0.
  - intros u' Hu'. rewrite Hv. case_decide; [by subst|by apply si_alive0].
  - intros u'. rewrite Hv. case_decide; [by intros [? ?]|apply si_next0].
  - destruct (sv_io s) as [|fd v|v|v|v]; cbn [io_user] in Hni; try done; rewrite ?Hv; (rewrite decide_False by congruence); done.
  - intros u' fd. rewrite Hv. case_decide; [done|]. apply si_closed0.
Qed.

Lemma sstep_inv s s' : srv_inv s -> sstep s s' -> srv_inv s'.
Proof.
  intros Hinv Hs. destruct Hs as [s now acc r send ev s' cl Hio Ha He|s s' Hc|s u s' Hh Hp|s u now Hh|s u Hh|s u m|s u Hu].
  - by eapply on_event_inv.
  - by eapply create_next_inv.
  - unfold popFrontUser in Hp. destruct (sv_users s) as [|u' us] eqn:E; [done|]. injection Hp as -> <-.
    destruct Hinv. split; unfold creating_ok, walk in *; rewrite ?Hh, ?E in *; done.
  - by apply expire_inv.
  - by apply finish_inv.
  - unfold user_post. destruct (sv_heap s !! u) as [usr|] eqn:Eu; [|done].
    destruct (post _ _ m) as [[rc p1] w1] eqn:E. apply post_core in E.
    apply (inv_same s); try done. apply (view_update _ _ _ _ Eu); done.
  - by apply destroy_inv.
Qed.

Lemma idle_inv p efd fds max d : srv_inv (idle_server p efd fds max d).
Proof.
  assert (forall u, view (idle_server p efd fds max d) u = None) as Hv by done.
  split; try setoid_rewrite Hv; unfold walk; cbn [idle_server sv_fd2user sv_users sv_held sv_log sv_next]; try done.
  - by apply NoDup_nil.
  - intros u Hu. by apply not_elem_of_nil in Hu.
  - intros u. split; [set_solver|lia].
  - intros u. lia.
  - intros pre u post. by destruct pre.
  - by apply NoDup_nil.
  - unfold currentConnections. unfold unmapped. cbn [idle_server sv_fd2user sv_max sv_io]. rewrite map_size_empty. lia.
Qed.

Lemma sstep_max s s' : sstep s s' -> sv_max s' = sv_max s.
Proof.
  assert (forall s fd, sv_max (snd (closeUser s fd)) = sv_max s) as Hc.
  { intros s0 fd. unfold closeUser. repeat case_match; done. }
  destruct 1 as [s now acc r send ev s' cl Hio Ha He|s s' Hn|s u s' Hh Hp|s u now Hh|s u Hh|s u m|s u Hu].
  - revert He. unfold on_event, on_accept, createUser, on_readable, on_writable, onIOError.
    repeat case_match; intros; simplify_eq; try done; by rewrite Hc.
  - unfold createUser_next in Hn. by destruct (sv_io s); simplify_eq.
  - unfold popFrontUser in Hp. by destruct (sv_users s); simplify_eq.
  - unfold monitor_expire. repeat case_match; try done. by rewrite Hc.
  - unfold monitor_finish. by repeat case_match.
  - unfold user_post. by repeat case_match.
  - done.
Qed.

Lemma reachable_inv max s : server_reachable max s -> srv_inv s /\ sv_max s = max.
Proof.
  intros (p & efd & fds & d & Hr). remember (idle_server p efd fds max d) as s0 eqn:E.
  assert (srv_inv s0 /\ sv_max s0 = max) as H0 by (subst; split; [apply idle_inv|done]). clear E.
  induction Hr as [|s1 s2 s3 Hs _ IH]; [done|]. apply IH. destruct H0 as [H0 <-].
  split; [by eapply sstep_inv|by apply sstep_max].
Qed.

Lemma closeUser_heap s fd u' :
  sv_fd2user s !! fd <> Some u' -> sv_heap (snd (closeUser s fd)) !! u' = sv_heap s !! u'.
Proof.
  unfold closeUser. intros Hne. destruct (sv_fd2user s !! fd) as [u|]; [|done].
  destruct (sv_heap s !! u); [|done]. case_if; [done|]. cbn. rewrite lookup_insert_ne; [done|congruence].
Qed.

(** A connection the next visit of the monitor disconnects. *)
Definition doomed (now : Z) (s : server) (u : nat) : Prop :=
  exists usr, sv_heap s !! u = Some usr /\ (u_closed usr = true \/ isExpired usr now = true).

Lemma monitor_once_spec now s u us :
  srv_inv s -> sv_held s = None -> sv_users s = u :: us ->
  let s' := monitor_once now s in
  srv_inv s' /\ sv_held s' = None /\ (exists rest, sv_users s' = us ++ rest) /\
  (forall c, c ∈ sv_log s -> c ∈ sv_log s') /\
  (doomed now s u -> OnDisconnect u ∈ sv_log s') /\
  (forall u', u' <> u -> sv_heap s' !! u' = sv_heap s !! u').
Proof.
  intros Hinv Hh Hu s'. unfold s', monitor_once, popFrontUser. rewrite Hu.
  set (s1 := set_users s us (Some u) (sv_log s)).
  assert (srv_inv s1) as Hinv1.
  { apply (sstep_inv s); [done|]. eapply ss_pop; [done|]. unfold popFrontUser. by rewrite Hu. }
  assert (u ∈ walk s1) as Huw by by left.
  assert (is_Some (view s1 u)) as [[fd c] Hv] by by apply (si_alive _ Hinv1).
  set (s2 := monitor_expire now u s1).
  assert (srv_inv s2) as Hinv2 by (apply (sstep_inv s1); [done|by apply ss_expire]).
  assert (sv_users s2 = us /\ sv_held s2 = Some u /\ sv_log s2 = sv_log s /\
    (forall u', u' <> u -> sv_heap s2 !! u' = sv_heap s !! u') /\
    exists usr2, sv_heap s2 !! u = Some usr2 /\ (doomed now s u -> u_closed usr2 = true))
    as (Hu2 & Hh2 & Hl2 & Hheap & usr2 & Hus2 & Hcl2).
  { unfold s2, monitor_expire. unfold view in Hv. destruct (sv_heap s1 !! u) as [usr|] eqn:Eu; [|done].
    cbn in Hv. injection Hv as Hfd Hc. change (sv_heap s1) with (sv_heap s) in Eu.
    destruct (isExpired usr now) eqn:Ex.
    - pose proof (set_expired_inv s1 u Hinv1 Huw) as Hinv1e. set (s1e := set_expired s1 _) in *.
      destruct (closeUser s1e (w_fd (u_wr usr))) as [rc s2'] eqn:Ec. pose proof (closeUser_heap s1e (w_fd (u_wr usr))) as Hch.
      rewrite Ec in Hch. cbn [snd] in *. apply closeUser_spec in Ec; [|done].
      change (sv_fd2user s1e) with (sv_fd2user s1) in *.
      destruct (sv_fd2user s1 !! w_fd (u_wr usr)) as [u0|] eqn:Em.
      + assert (u0 = u) as ->.
        { apply (si_map _ Hinv1) in Em. eapply (si_fd _ Hinv1); [exact Em|]. unfold view. 
          change (sv_heap s1) with (sv_heap s). by rewrite Eu. }
        destruct Ec as (_ & _ & Hv' & ? & ? & ? & ? & ?). split_and!; try done.
        * intros u' Hne. apply Hch. congruence.
        * specialize (Hv' u). rewrite decide_True in Hv' by done. unfold view in Hv'.
          destruct (sv_heap s2' !! u) as [x|]; [|done]. cbn in Hv'. exists x. split; [done|]. congruence.
      + destruct Ec as [_ ->]. split_and!; try done. exists usr. split; [done|]. intros _.
        destruct (u_closed usr) eqn:Ecl; [done|]. 
        assert (view s1 u = Some (w_fd (u_wr usr), false)) as Hv1 by (unfold view; change (sv_heap s1) with (sv_heap s); rewrite Eu; cbn; by rewrite Ecl).
        apply (si_open _ Hinv1) in Hv1 as [Hm|[Hm _]]; [|congruence].
        destruct (held_not_hidden _ _ Hinv1 Huw). by rewrite Hm.
    - split_and!; try done. exists usr. split; [done|]. intros (usr' & Hus' & [Hc'|He']); congruence. }
  pose proof (finish_inv s2 u Hinv2 Hh2) as Hinv3. split; [done|].
  unfold monitor_finish in *. rewrite Hus2 in *. unfold isClosed in *. destruct (u_closed usr2) eqn:Ec2; cbn.
  - split_and!; [done|exists []; by rewrite app_nil_r| | |done].
    + intros c0 Hc0. rewrite Hl2. set_solver.
    + intros _. set_solver.
  - split_and!; [done|exists [u]; by rewrite Hu2| | |done].
    + intros c0 Hc0. by rewrite Hl2.
    + intros Hd. by apply Hcl2 in Hd.
Qed.

Lemma sweep_spec now us : forall s rest,
  srv_inv s -> sv_held s = None -> sv_users s = us ++ rest -> NoDup us ->
  let s' := Nat.iter (length us) (monitor_once now) s in
  (forall c, c ∈ sv_log s -> c ∈ sv_log s') /\
  (forall u, u ∈ us -> doomed now s u -> OnDisconnect u ∈ sv_log s').
Proof.
  induction us as [|u us IH]; intros s rest Hinv Hh Hu Hnd s'; [split; [done|set_solver]|].
  unfold s'. cbn [length]. rewrite Nat.iter_succ_r. apply NoDup_cons in Hnd as [Hni Hnd].
  destruct (monitor_once_spec now s u (us ++ rest) Hinv Hh Hu) as (Hinv1 & Hh1 & [r Hu1] & Hl1 & Hd1 & Hheap1).
  rewrite <- app_assoc in Hu1. destruct (IH _ _ Hinv1 Hh1 Hu1 Hnd) as [Hl2 Hd2]. split; [eauto|].
  intros u' Hu' Hd. apply elem_of_cons in Hu' as [->|Hu']; [by apply Hl2, Hd1|].
  apply Hd2; [done|]. destruct Hd as (usr & Hus & Hc). exists usr. split; [|done].
  rewrite Hheap1; [done|]. intros ->. done.
Qed.

Lemma connection_unique max s :
  server_reachable max s ->
  forall u1 u2 fd c1 c2, view s u1 = Some (fd, c1) -> view s u2 = Some (fd, c2) -> u1 = u2.
Proof. intros [Hinv _]%reachable_inv. apply Hinv. Qed.

(** ** Properties *)

(** C10: the life of a connection, under every interleaving of the I/O thread
    (its [createUser] included, a critical section at a time), the monitor and
    posts. [onConnect] and [onDisconnect] are called at most once each;
    [onConnect] is called unless the I/O thread still is in [createUser]; an
    [onDisconnect] comes after the [onConnect], unless the monitor has found the
    connection silent for [UserTimeout] seconds. And a connection is not in the
    monitor's list yet, or it is walked by the monitor, and [onDisconnect] has
    not been called in either case, or else it is closed, out of the descriptor
    map, and its [onDisconnect] has been called. *)
Theorem connection_lifecycle max s u :
  server_reachable max s -> (u < sv_next s)%nat ->
  NoDup (sv_log s) /\
  (OnConnect u ∈ sv_log s <-> io_user (sv_io s) <> Some u) /\
  (forall pre post, sv_log s = pre ++ OnDisconnect u :: post -> OnConnect u ∈ pre \/ u ∈ sv_expired s) /\
  ((u ∉ walk s) /\ hidden (sv_io s) u /\ (OnDisconnect u ∉ sv_log s) \/
   (u ∈ walk s) /\ (OnDisconnect u ∉ sv_log s) \/
   (u ∉ walk s) /\ (OnDisconnect u ∈ sv_log s) /\ (forall fd, sv_fd2user s !! fd <> Some u) /\
   (forall usr, sv_heap s !! u = Some usr -> u_closed usr = true)).
Proof.
  intros [Hinv _]%reachable_inv Hlt. split; [apply Hinv|]. split; [pose proof (si_conn _ Hinv u); tauto|].
  split; [intros pre post; apply Hinv|]. pose proof (si_disc _ Hinv u Hlt) as Hd.
  destruct (decide (u ∈ walk s)) as [Hw|Hw]; [right; left; tauto|].
  assert (forall fd, view s u = Some (fd, false) -> hidden (sv_io s) u) as Hop.
  { intros fd Hv. by destruct (si_open _ Hinv _ _ Hv) as [-> |[_ [?| ->] ] ]. }
  assert (hidden (sv_io s) u \/ ~ hidden (sv_io s) u) as [Hh|Hh]; [|left; tauto|right; right].
  { destruct (sv_io s); cbn; try tauto; destruct (decide (u = u0)); tauto. }
  split_and!; [done|tauto|..].
  - intros fd Hm%(si_map _ Hinv). by apply Hh, (Hop fd).
  - intros usr Hus. destruct (u_closed usr) eqn:Ecl; [done|]. destruct Hh.
    apply (Hop (w_fd (u_wr usr))). unfold view. rewrite Hus. cbn. by rewrite Ecl.
Qed.

(** closing by descriptor closes the connection registered for it and no
    other one, and a descriptor that is not registered leaves the server as it
    is; an open connection is registered under its own descriptor, once the I/O
    thread has put it there. *)
Theorem closeUser_exact max s fd rc s' :
  server_reachable max s -> closeUser s fd = (rc, s') ->
  (rc = 0 /\ exists u, view s u = Some (fd, false) /\ view s' u = Some (fd, true) /\
     (forall u', u' <> u -> view s' u' = view s u') /\
     (forall fd', sv_fd2user s' !! fd' = if decide (fd' = fd) then None else sv_fd2user s !! fd')) \/
  (rc = -1 /\ s' = s /\ forall u, view s u = Some (fd, false) -> sv_io s = Made fd u).
Proof.
  intros [Hinv _]%reachable_inv Hc. apply closeUser_spec in Hc; [|done].
  destruct (sv_fd2user s !! fd) as [u|] eqn:E.
  - left. destruct Hc as (-> & Hf & Hv & _). split; [done|]. exists u. split_and!.
    + by apply (si_map _ Hinv).
    + by rewrite Hv, decide_True.
    + intros u' Hne. rewrite Hv, decide_False; done.
    + intros fd'. rewrite Hf, lookup_delete. repeat case_decide; congruence.
  - right. destruct Hc as [-> ->]. split_and!; [done..|]. intros u Hu. apply (si_open _ Hinv) in Hu as [?|[? _]]; [done|congruence].
Qed.

(** the number of connections, registered or about to be, never exceeds the configured
    maximum, and no two connection objects share a descriptor. *)
Theorem connection_limit max s :
  server_reachable max s ->
  currentConnections s + unmapped s <= Z.max 0 max /\
  (forall u1 u2 fd c1 c2, view s u1 = Some (fd, c1) -> view s u2 = Some (fd, c2) -> u1 = u2).
Proof.
  intros [Hinv <-]%reachable_inv. split; [apply Hinv|apply Hinv].
Qed.

(** C37: one round of the monitor, as many iterations as there are connections,
    calls [onDisconnect] for every connection that was closed and for every
    connection silent for [UserTimeout] seconds. *)
Theorem monitor_sweep now max s u :
  server_reachable max s -> sv_held s = None -> u ∈ sv_users s -> doomed now s u ->
  OnDisconnect u ∈ sv_log (Nat.iter (length (sv_users s)) (monitor_once now) s).
Proof.
  intros [Hinv _]%reachable_inv Hh Hu Hd.
  assert (NoDup (sv_users s)) as Hnd by (pose proof (si_nodup _ Hinv) as H; unfold walk in H; rewrite Hh in H; exact H).
  by apply (sweep_spec now (sv_users s) s [] Hinv Hh ltac:(by rewrite app_nil_r) Hnd).
Qed.

End server.
Arguments server : clear implicits.

(** ** Witnesses *)

#[local] Instance server_poller : Poller WinPoll.state := WinPoll.win_poller 0x0300 0x0010.

Definition listening : server WinPoll.state :=
  idle_server (snd (WinPoll.sp_add_ex 0x0300 0x0010 (snd (WinPoll.sp_create (WinPoll.MkState ∅ 0))) 1 3 false))
    1 {[3]} 10 (MkDispatcher sample_groups ∅).

(** Descriptor 7 is accepted and [createUser] runs to its end, then reading from
    the descriptor fails. *)
Definition create_steps (n : nat) (s : server WinPoll.state) : server WinPoll.state :=
  Nat.iter n (fun s => default s (createUser_next s)) s.
Definition accepted_connection : server WinPoll.state :=
  fst (on_accept zero_fresh Lymsg.lymsg_protocol 1000 7 (Some ([], 4711)) listening).
Definition one_connection : server WinPoll.state := create_steps 4 accepted_connection.
Definition broken_connection : server WinPoll.state := onIOError one_connection 7.
Definition swept : server WinPoll.state := monitor_once 1001 broken_connection.

(** The I/O thread is held up for [UserTimeout] seconds between [push_back] and
    [setStart]: the monitor expires the connection meanwhile. *)
Definition overtaken_connection : server WinPoll.state :=
  create_steps 2 (monitor_once 1090 (create_steps 2 accepted_connection)).

Lemma accepted_reachable : server_reachable zero_fresh Lymsg.lymsg_protocol 10 accepted_connection.
Proof.
  do 4 eexists. apply rtc_once.
  eapply (ss_event _ _ listening 1000 (7, Some ([], 4711)) (RecvCode 0) (fun _ => 0) (MkEvent 3 true false false false)).
  - reflexivity.
  - intros _ (u & usr & Hu & _). change (sv_heap listening) with (∅ : gmap nat user) in Hu. by rewrite lookup_empty in Hu.
  - unfold on_event. rewrite bool_decide_eq_true_2 by (cbn; set_solver). cbn [ev_read fst snd].
    unfold accepted_connection. exact (f_equal Some (surjective_pairing _)).
Qed.

Lemma create_steps_reachable n s :
  server_reachable zero_fresh Lymsg.lymsg_protocol 10 s -> server_reachable zero_fresh Lymsg.lymsg_protocol 10 (create_steps n s).
Proof.
  intros Hs. induction n as [|n IH]; [exact Hs|]. unfold create_steps in *. rewrite Nat.iter_succ.
  destruct (createUser_next (Nat.iter n (fun s => default s (createUser_next s)) s)) as [s'|] eqn:E; cbn [default]; [|exact IH].
  destruct IH as (p & efd & fds & d & Hr). exists p, efd, fds, d. eapply rtc_r; [exact Hr|]. by apply ss_create.
Qed.

Lemma monitor_once_reachable now s :
  sv_held s = None -> server_reachable zero_fresh Lymsg.lymsg_protocol 10 s ->
  server_reachable zero_fresh Lymsg.lymsg_protocol 10 (monitor_once now s).
Proof.
  intros Hh (p & efd & fds & d & Hr). exists p, efd, fds, d. unfold monitor_once.
  destruct (popFrontUser s) as [[u|] s1] eqn:E.
  - assert (sv_held s1 = Some u) as H1 by (unfold popFrontUser in E; destruct (sv_users s); by simplify_eq).
    eapply rtc_r; [eapply rtc_r; [eapply rtc_r; [exact Hr|]|]|]; [by eapply ss_pop|by apply (ss_expire _ _ s1 u now)|].
    apply (ss_finish _ _ _ u). unfold monitor_expire, closeUser. by repeat case_match.
  - unfold popFrontUser in E. destruct (sv_users s); [|done]. by injection E as <-.
Qed.

Lemma one_connection_reachable : server_reachable zero_fresh Lymsg.lymsg_protocol 10 one_connection.
Proof. apply create_steps_reachable, accepted_reachable. Qed.

Lemma broken_connection_reachable : server_reachable zero_fresh Lymsg.lymsg_protocol 10 broken_connection.
Proof.
  destruct one_connection_reachable as (p & efd & fds & d & Hr). exists p, efd, fds, d.
  eapply rtc_r; [exact Hr|].
  eapply (ss_event _ _ one_connection 1001 (-1, None) (RecvCode 0) (fun _ => 0) (MkEvent 7 true false false false)).
  - reflexivity.
  - cbn. lia.
  - unfold on_event. rewrite bool_decide_eq_false_2 by (vm_compute; discriminate). reflexivity.
Qed.

Lemma swept_reachable : server_reachable zero_fresh Lymsg.lymsg_protocol 10 swept.
Proof. apply monitor_once_reachable; [reflexivity|apply broken_connection_reachable]. Qed.

Lemma overtaken_reachable : server_reachable zero_fresh Lymsg.lymsg_protocol 10 overtaken_connection.
Proof.
  apply create_steps_reachable, monitor_once_reachable; [reflexivity|].
  apply create_steps_reachable, accepted_reachable.
Qed.

(** [onDisconnect] can come first. *)
Example disconnected_before_connected :
  server_reachable zero_fresh Lymsg.lymsg_protocol 10 overtaken_connection /\
  sv_log overtaken_connection = [OnDisconnect 0; OnConnect 0].
Proof. split; [apply overtaken_reachable|vm_compute; reflexivity]. Qed.

Lemma connection_lifecycle_witness :
  sv_log swept = [OnConnect 0; OnDisconnect 0] /\ NoDup (sv_log swept).
Proof.
  split; [vm_compute; reflexivity|].
  apply (connection_lifecycle zero_fresh Lymsg.lymsg_protocol 10 swept 0 swept_reachable).
  vm_compute. constructor.
Defined.

Lemma closeUser_exact_witness :
  view broken_connection 0 = Some (7, true).
Proof.
  destruct (closeUser_exact zero_fresh Lymsg.lymsg_protocol 10 one_connection 7 0 broken_connection
    one_connection_reachable eq_refl) as [(_ & u & Hu & Hv & _)|(? & _)]; [|discriminate].
  assert (view one_connection 0 = Some (7, false)) as H0 by reflexivity.
  destruct (connection_unique _ _ _ _ one_connection_reachable u 0 7 false false Hu H0). exact Hv.
Defined.

Lemma connection_limit_witness :
  currentConnections one_connection = 1 /\ currentConnections one_connection <= 10.
Proof.
  split; [reflexivity|].
  apply (connection_limit zero_fresh Lymsg.lymsg_protocol 10 one_connection one_connection_reachable).
Defined.

Lemma monitor_sweep_witness :
  OnDisconnect 0 ∈ sv_log (Nat.iter 1 (monitor_once 1001) broken_connection).
Proof.
  apply (monitor_sweep zero_fresh Lymsg.lymsg_protocol 1001 10 broken_connection 0 broken_connection_reachable).
  - reflexivity.
  - vm_compute. left.
  - eexists. split; [reflexivity|]. left. reflexivity.
Defined.
