(* ===== verification/Worker.v ===== *)
(** * The worker threads ([worker] of [tcpsock_server],
      [zbf/socket_tcp_v5.hpp])

    A worker takes messages from its queue and calls [onRecvMsg] of the
    connection they came from. [service] is the server of [TcpServer] with its
    workers; [wstep] interleaves the I/O thread, the monitor, the workers and
    the statistics logger. The fields [sy_cut], [sy_in], [sy_got], [sy_calls]
    and [sy_snaps] are ghosts: what was cut off the receive caches, accepted by
    the queues, taken from them, handed to [onRecvMsg] and reported. *)

From stdpp Require Import sorting.
From S2P Require Import Prelude MemChunk TcpMessage Framing SocketPoll WriteSide TcpUser.
From S2P Require Import SafeQueue Dispatch Stat TcpServer.

(** A message in a queue: [TcpMsgPtr], the connection and the message. *)
Abbreviation item := (nat * bytes)%type.

(** Where a worker thread is. *)
Inductive phase :=
| Waiting
| Popped (um : item)
| InHandler (um : item) (msgType : Z)
| Exited.

Record worker := MkWorker {
  wk_phase : phase;
  wk_stat : rstat;       (* reqStat *)
  wk_msgCount : Z;       (* int *)
}.

Definition new_worker (thdId : Z) : worker := MkWorker Waiting (new_rstat thdId) 0.

(** *** One iteration of the loop *)

(** [pop_timeout]. *)
Definition worker_pop (q : squeue item) (w : worker) : squeue item * worker :=
  let '(rc, x, q1) := pop_timeout_wake q in
  (q1, MkWorker (match x with
                 | Some um => Popped um
                 | None => if rc =? SQ_EXIT then Exited else Waiting
                 end) (wk_stat w) (wk_msgCount w)).

Section worker.
Context (proto : protocol).

(** From the pop to the call of [onRecvMsg]; [usr] is what [ptr.user.lock()]
    finds. *)
Definition worker_take (now : Z) (usr : option user) (um : item) (w : worker) : worker :=
  let idle := MkWorker Waiting (wk_stat w) (wk_msgCount w) in
  match usr with
  | None => idle
  | Some usr =>
      if isHeartbeat proto (Some (snd um)) then idle
      else if isClosed usr then idle
      else
        let msgType := type proto (Some (snd um)) in
        MkWorker (InHandler um msgType) (onReqStart now msgType (wk_stat w)) (wk_msgCount w)
  end.

(** After [onRecvMsg]; [depth] is the size of the worker's queue. *)
Definition worker_finish (now depth : Z) (um : item) (msgType : Z) (w : worker) : worker :=
  let st := onReqFinish now msgType (wrap 32 (size_of (snd um))) 0 (wk_stat w) in
  let c := swrap 32 (wk_msgCount w + 1) in
  MkWorker Waiting (if Z.land c 15 =? 0 then sampleQueueDepth (wrap 32 depth) st else st) c.
End worker.

(** ** The service *)

Section service.
Context {P : Type} {PI : Poller P} (fresh : Z -> bytes) (proto : protocol).
(** The readings [currentTimeMillis] can give. *)
Context (tick : Z -> Prop).

Record service := MkService {
  sy_srv : server P;
  sy_workers : gmap Z worker;          (* by worker index *)
  sy_cut : list item;
  sy_in : list (Z * item);
  sy_got : list (Z * item);
  sy_calls : list (Z * item);
  sy_snaps : list (Z * snap);
}.

Definition queue_of (d : dispatcher item) (i : Z) : list item :=
  match dp_queues d !! i with Some q => _queue q | None => [] end.

Definition set_queue (s : server P) (i : Z) (q : squeue item) : server P :=
  set_disp s (MkDispatcher (dp_groups (sv_disp s)) (<[i := q]> (dp_queues (sv_disp s)))).

Definition msg_type (um : item) : Z := type proto (Some (snd um)).

(** The messages an event takes off a receive cache. *)
Definition event_cut (now : Z) (r : recv_result) (ev : event) (s : server P) : list item :=
  if bool_decide (ev_fd ev ∈ sv_listenFds s) then []
  else if ev_read ev then
    match r, findUser s (ev_fd ev) with
    | RecvData chunk, Some u =>
        match sv_heap s !! u with
        | Some usr =>
            match on_read fresh now usr chunk with
            | Some (rc, ms, _) => if rc =? 0 then (fun m => (u, m)) <$> ms else []
            | None => []
            end
        | None => []
        end
    | _, _ => []
    end
  else [].

(** Of the messages [ums], dispatched in turn, those a queue accepts. *)
Fixpoint accepted (d : dispatcher item) (ums : list item) : list (Z * item) :=
  match ums with
  | [] => []
  | um :: ums =>
      match pick_worker (dp_groups d) (msg_type um), dispatchMsg msg_type d um with
      | Some (wk, _), Some d1 =>
          let i := workerIndex wk in
          (if size_of (queue_of d i) <? ServerMaxPendingMsg then [(i, um)] else []) ++ accepted d1 ums
      | _, _ => []
      end
  end.

(** What the other threads do, and the I/O thread in [createUser]. *)
Inductive quiet : server P -> server P -> Prop :=
| q_create s s' : createUser_next s = Some s' -> quiet s s'
| q_pop s u s' : sv_held s = None -> popFrontUser s = (Some u, s') -> quiet s s'
| q_expire s u now : sv_held s = Some u -> quiet s (monitor_expire now u s)
| q_finish s u : sv_held s = Some u -> quiet s (monitor_finish u s)
| q_post s u m : quiet s (user_post u m s)
| q_destroy s u : unreferenced u s -> quiet s (set_heap s (delete u (sv_heap s))).

(** [user_sp]: a worker that is in a handler keeps the connection alive. *)
Definition kept (ws : gmap Z worker) (s : server P) : Prop :=
  forall i w um t, ws !! i = Some w -> wk_phase w = InHandler um t -> is_Some (sv_heap s !! um.1).

Inductive wstep : service -> service -> Prop :=
| ws_event s ws cut inn got calls snaps now acc r send ev s' closed :
    sv_io s = NoUser ->
    (0 <= fst acc -> ~ fd_open (fst acc) s) ->
    on_event fresh proto now acc r send ev s = Some (s', closed) ->
    wstep (MkService s ws cut inn got calls snaps)
      (MkService s' ws (cut ++ event_cut now r ev s)
        (inn ++ accepted (sv_disp s) (event_cut now r ev s)) got calls snaps)
| ws_quiet s ws cut inn got calls snaps s' :
    quiet s s' -> kept ws s' ->
    wstep (MkService s ws cut inn got calls snaps) (MkService s' ws cut inn got calls snaps)
| ws_pop s ws cut inn got calls snaps i w q q' w' :
    ws !! i = Some w -> wk_phase w = Waiting -> dp_queues (sv_disp s) !! i = Some q ->
    worker_pop q w = (q', w') ->
    wstep (MkService s ws cut inn got calls snaps)
      (MkService (set_queue s i q') (<[i := w']> ws) cut inn
        (got ++ match wk_phase w' with Popped um => [(i, um)] | _ => [] end) calls snaps)
| ws_take s ws cut inn got calls snaps i w um now :
    ws !! i = Some w -> wk_phase w = Popped um -> tick now ->
    let w' := worker_take proto now (sv_heap s !! um.1) um w in
    wstep (MkService s ws cut inn got calls snaps)
      (MkService s (<[i := w']> ws) cut inn got
        (calls ++ match wk_phase w' with InHandler um _ => [(i, um)] | _ => [] end) snaps)
| ws_finish s ws cut inn got calls snaps i w um t now :
    ws !! i = Some w -> wk_phase w = InHandler um t -> tick now ->
    wstep (MkService s ws cut inn got calls snaps)
      (MkService s (<[i := worker_finish now (size_of (queue_of (sv_disp s) i)) um t w]> ws) cut inn got calls snaps)
| ws_consume s ws cut inn got calls snaps i w sn st :
    ws !! i = Some w -> consume (wk_stat w) = (sn, st) ->
    wstep (MkService s ws cut inn got calls snaps)
      (MkService s (<[i := MkWorker (wk_phase w) st (wk_msgCount w)]> ws) cut inn got calls (snaps ++ [(i, sn)]))
| ws_stop s ws cut inn got calls snaps :
    (* stop() on every queue *)
    wstep (MkService s ws cut inn got calls snaps)
      (MkService (set_disp s (MkDispatcher (dp_groups (sv_disp s)) (stop <$> dp_queues (sv_disp s))))
        ws cut inn got calls snaps).

(** A server with its workers, before the first connection. *)
Definition start_service (p : P) (efd : Z) (fds : gset Z) (max : Z) (groups : gmap Z WorkerIdGroup)
    (ids : list Z) : service :=
  MkService (idle_server p efd fds max
      (MkDispatcher groups (list_to_map ((fun id => (workerIndex id, empty_queue)) <$> ids))))
    (list_to_map ((fun id => (workerIndex id, new_worker id)) <$> ids)) [] [] [] [] [].

Definition service_reachable (max : Z) (groups : gmap Z WorkerIdGroup) (ids : list Z) (y : service) : Prop :=
  exists p efd fds, rtc wstep (start_service p efd fds max groups ids) y.
End service.
Arguments service : clear implicits.

(** ** What one worker has seen *)

Definition lane {A} (i : Z) (l : list (Z * A)) : list A := (filter (fun x => x.1 = i) l).*2.

Lemma lane_app {A} i (l k : list (Z * A)) : lane i (l ++ k) = lane i l ++ lane i k.
Proof. unfold lane. by rewrite filter_app, fmap_app. Qed.

Lemma lane_nil {A} i : lane i [] = @nil A.
Proof. done. Qed.

Lemma lane_one {A} i j (um : A) : lane i [(j, um)] = if decide (j = i) then [um] else [].
Proof. unfold lane. rewrite filter_cons, filter_nil. cbn. by case_decide. Qed.

Lemma lane_sublist {A} i (l k : list (Z * A)) : l `sublist_of` k -> lane i l `sublist_of` lane i k.
Proof. intros H. unfold lane. apply fmap_sublist. induction H as [|x l k _ IH|x l k _ IH]; [done|..].
  - rewrite !filter_cons. case_decide; [by constructor|done].
  - rewrite filter_cons. case_decide; [by constructor|done].
Qed.

Lemma filter_sublist_mono {A} (Q : A -> Prop) `{!forall x, Decision (Q x)} (l k : list A) :
  l `sublist_of` k -> filter Q l `sublist_of` filter Q k.
Proof.
  induction 1 as [|x l k _ IH|x l k _ IH]; [done|..]; rewrite !filter_cons;
    case_decide; try done; by constructor.
Qed.

(** Lists of pairs that are included key by key are included. *)
Lemma lanes_submseteq (l k : list (Z * item)) : (forall i, lane i l ⊆+ lane i k) -> l.*2 ⊆+ k.*2.
Proof.
  revert k. induction l as [|[i um] l IH]; intros k Hk; [apply submseteq_nil_l|].
  assert ((i, um) ∈ k) as (k1 & k2 & ->)%list_elem_of_split.
  { specialize (Hk i). unfold lane in Hk. rewrite filter_cons_True in Hk by done.
    assert (um ∈ (filter (fun x => x.1 = i) k).*2) as Hin.
    { eapply elem_of_submseteq; [|exact Hk]. cbn. left. }
    apply list_elem_of_fmap in Hin as ([j um'] & -> & [Hj Hin]%list_elem_of_filter). cbn in *. by subst. }
  assert (k1 ++ (i, um) :: k2 ≡ₚ (i, um) :: (k1 ++ k2)) as E by (by rewrite Permutation_middle).
  rewrite E. cbn [fmap list_fmap]. apply submseteq_skip, IH. intros j. specialize (Hk j). unfold lane in *.
  rewrite E, !filter_cons in Hk. cbn in Hk. case_decide; [|done]. cbn in Hk.
  exact (submseteq_app_inv_l _ _ [um] Hk).
Qed.

(** ** Dispatching *)

Section service_facts.
Context {P : Type} {PI : Poller P} (fresh : Z -> bytes) (proto : protocol) (tick : Z -> Prop).
Abbreviation mtype := (msg_type proto).

Lemma dispatch_queue d um wk g d1 j :
  pick_worker (dp_groups d) (mtype um) = Some (wk, g) -> dispatchMsg mtype d um = Some d1 ->
  dp_groups d1 = g /\
  queue_of d1 j = queue_of d j ++
    if decide (workerIndex wk = j) then
      if size_of (queue_of d j) <? ServerMaxPendingMsg then [um] else []
    else [].
Proof.
  intros Hp. unfold dispatchMsg. rewrite Hp. unfold queue_of.
  destruct (dp_queues d !! workerIndex wk) as [q|] eqn:Eq; [|done].
  unfold push. destruct (size_of (_queue q) <? ServerMaxPendingMsg) eqn:E; intros [= <-]; (split; [done|]);
    cbn [dp_queues]; rewrite lookup_insert; (case_decide as Ej; [|by rewrite app_nil_r]); subst j;
    rewrite Eq; cbn [_queue]; rewrite E; [done|by rewrite app_nil_r].
Qed.

Lemma dispatch_all_queue d u ms d' :
  dispatch_all proto d u ms = Some d' ->
  forall j, queue_of d' j = queue_of d j ++ lane j (accepted proto d ((fun m => (u, m)) <$> ms)).
Proof.
  revert d. induction ms as [|m ms IH]; intros d; cbn [dispatch_all fmap list_fmap accepted].
  - intros [= <-] j. by rewrite app_nil_r.
  - fold mtype. destruct (dispatchMsg _ d (u, m)) as [d1|] eqn:E; [|done]. intros Hd j.
    destruct (pick_worker (dp_groups d) (mtype (u, m))) as [[wk g]|] eqn:Ep.
    2:{ exfalso. unfold dispatchMsg in E. change (fun um => type proto (Some um.2)) with mtype in E. by rewrite Ep in E. }
    change (fun um => type proto (Some um.2)) with mtype in E. rewrite ?E.
    rewrite (IH d1 Hd j), lane_app. destruct (dispatch_queue _ _ _ _ _ j Ep E) as [_ ->].
    rewrite <- app_assoc. f_equal. f_equal.
    destruct (decide (workerIndex wk = j)) as [->|Hne].
    + case_if; [|done]. by rewrite lane_one, decide_True.
    + case_if; [|done]. by rewrite lane_one, decide_False.
Qed.

Lemma accepted_sublist d ums : (accepted proto d ums).*2 `sublist_of` ums.
Proof.
  revert d. induction ums as [|um ums IH]; intros d; cbn [accepted]; [done|].
  destruct (pick_worker _ _) as [[wk g]|]; [|apply sublist_nil_l].
  destruct (dispatchMsg _ _ _) as [d1|]; [|apply sublist_nil_l].
  rewrite fmap_app. case_if; cbn; [by constructor|by apply sublist_cons].
Qed.

Lemma closeUser_disp s fd : sv_disp (snd (closeUser (P := P) s fd)) = sv_disp s.
Proof. unfold closeUser. by repeat case_match. Qed.

Lemma event_queue now acc r send ev s s' closed :
  on_event fresh proto now acc r send ev s = Some (s', closed) ->
  forall j, queue_of (sv_disp s') j = queue_of (sv_disp s) j ++
    lane j (accepted proto (sv_disp s) (event_cut fresh now r ev s)).
Proof.
  unfold on_event, event_cut. case_bool_decide.
  - intros He j. cbn. rewrite app_nil_r. revert He. unfold on_accept, createUser.
    repeat case_match; intros; by simplify_eq.
  - destruct (ev_read ev).
    2:{ intros He j. cbn. rewrite app_nil_r. revert He. unfold on_writable, onIOError.
        repeat case_match; intros; simplify_eq; by rewrite ?closeUser_disp. }
    unfold on_readable, onIOError. destruct r as [chunk|rc].
    2:{ intros He j. cbn. rewrite app_nil_r. revert He.
        repeat case_match; intros; simplify_eq; by rewrite ?closeUser_disp. }
    destruct (findUser s (ev_fd ev)) as [u|]; [|by intros [= <- _] j; rewrite app_nil_r].
    destruct (sv_heap s !! u) as [usr|]; [|by intros [= <- _] j; rewrite app_nil_r].
    destruct (on_read fresh now usr chunk) as [[[rc ms] usr1]|]; [|done].
    destruct (rc =? 0); [|intros [= <- _] j; cbn; by rewrite app_nil_r, closeUser_disp].
    destruct (dispatch_all _ _ _ _) as [d|] eqn:Ed; [|done]. intros [= <- _] j.
    by apply dispatch_all_queue.
Qed.

Lemma quiet_disp (s s' : server P) : quiet s s' -> sv_disp s' = sv_disp s.
Proof.
  destruct 1 as [s s' Hn|s u s' Hh Hp|s u now Hh|s u Hh|s u m|s u Hu].
  - unfold createUser_next in Hn. by destruct (sv_io s); simplify_eq.
  - unfold popFrontUser in Hp. by destruct (sv_users s); simplify_eq.
  - unfold monitor_expire. repeat case_match; by rewrite ?closeUser_disp.
  - unfold monitor_finish. by repeat case_match.
  - unfold user_post. by repeat case_match.
  - done.
Qed.
End service_facts.

(** ** Invariant *)

Definition phase_of (ws : gmap Z worker) (i : Z) : phase :=
  match ws !! i with Some w => wk_phase w | None => Waiting end.
Definition popped (p : phase) : list item := match p with Popped um => [um] | _ => [] end.

Section invariant.
Context {P : Type} {PI : Poller P} (fresh : Z -> bytes) (proto : protocol) (tick : Z -> Prop).
Context (groups : gmap Z WorkerIdGroup).
Abbreviation mtype := (msg_type proto).

Record sy_inv (y : service P) : Prop := {
  yi_cut : (sy_in y).*2 `sublist_of` sy_cut y;
  yi_queue : forall i, lane i (sy_in y) = lane i (sy_got y) ++ queue_of (sv_disp (sy_srv y)) i;
  yi_calls : forall i, lane i (sy_calls y) ++ popped (phase_of (sy_workers y) i) `sublist_of` lane i (sy_got y);
  yi_groups : workerIds <$> dp_groups (sv_disp (sy_srv y)) = workerIds <$> groups;
  yi_single : forall t g wk i um, serving groups t = Some g -> workerIds g = [wk] ->
    (i, um) ∈ sy_in y -> mtype um = t -> i = workerIndex wk;
}.

Lemma pick_worker_groups gs t wk gs' :
  pick_worker gs t = Some (wk, gs') -> workerIds <$> gs = workerIds <$> groups ->
  workerIds <$> gs' = workerIds <$> groups /\
  (forall g wk', serving groups t = Some g -> workerIds g = [wk'] -> wk = wk').
Proof.
  unfold pick_worker, serving. set (k := match gs !! t with Some _ => t | None => DefaultMsgType end).
  intros Hp Hg.
  assert (forall k', workerIds <$> (gs !! k') = workerIds <$> (groups !! k')) as Hk
    by (intros; by rewrite <- !lookup_fmap, Hg).
  destruct (workerIds (default (MkGroup [] 0) (gs !! k)) !! _) as [w|] eqn:Ew; [|done].
  injection Hp as <- <-. destruct (gs !! k) as [g0|] eqn:Ek; [|done]. cbn [default from_option id] in *. split.
  - rewrite fmap_insert. cbn [workerIds]. rewrite Hg. apply insert_id.
    rewrite lookup_fmap, <- (Hk k), Ek. done.
  - intros g wk' Hs Hw. assert (workerIds g = workerIds g0) as Eg.
    { pose proof (Hk t) as Ht. pose proof (Hk k) as Hkk. rewrite Ek in Hkk. subst k.
      destruct (gs !! t) as [g1|]; destruct (groups !! t) as [g2|]; try done;
        [|rewrite Hs in Hkk]; cbn in *; congruence. }
    rewrite <- Eg, Hw in Ew. destruct (Z.to_nat (cursor g0)); [|done]. by injection Ew as ->.
Qed.

Lemma accepted_groups d ums :
  workerIds <$> dp_groups d = workerIds <$> groups ->
  forall t g wk i um, serving groups t = Some g -> workerIds g = [wk] ->
    (i, um) ∈ accepted proto d ums -> mtype um = t -> i = workerIndex wk.
Proof.
  revert d. induction ums as [|um0 ums IH]; intros d Hg t g wk i um Hs Hw; cbn [accepted]; [set_solver|].
  destruct (pick_worker (dp_groups d) (mtype um0)) as [[wk0 g0]|] eqn:Ep; [|set_solver].
  destruct (dispatchMsg mtype d um0) as [d1|] eqn:E; [|set_solver].
  destruct (pick_worker_groups _ _ _ _ Ep Hg) as [Hg' Hone].
  rewrite elem_of_app. intros [Hin|Hin] Ht.
  - case_if; [|set_solver]. apply list_elem_of_singleton in Hin. injection Hin as -> ->.
    f_equal. rewrite Ht in Hone. eauto.
  - eapply (IH d1); eauto. by destruct (dispatch_queue proto _ _ _ _ _ 0 Ep E) as [-> _].
Qed.

Lemma dispatch_all_groups d u ms d' :
  dispatch_all proto d u ms = Some d' -> workerIds <$> dp_groups d = workerIds <$> groups ->
  workerIds <$> dp_groups d' = workerIds <$> groups.
Proof.
  revert d. induction ms as [|m ms IH]; intros d; cbn [dispatch_all]; [by intros [= <-]|].
  destruct (dispatchMsg _ d (u, m)) as [d1|] eqn:E; [|done]. intros Hd Hg. apply (IH d1 Hd).
  unfold dispatchMsg in E. destruct (pick_worker _ _) as [[wk0 g0]|] eqn:Ep; [|done].
  destruct (pick_worker_groups _ _ _ _ Ep Hg) as [Hg' _].
  destruct (dp_queues d !! _); [|done]. destruct (push _ _ _). by injection E as <-.
Qed.

Lemma event_groups now acc r send ev (s s' : server P) closed :
  on_event fresh proto now acc r send ev s = Some (s', closed) ->
  workerIds <$> dp_groups (sv_disp s) = workerIds <$> groups ->
  workerIds <$> dp_groups (sv_disp s') = workerIds <$> groups.
Proof.
  unfold on_event, on_accept, createUser, on_readable, on_writable, onIOError.
  repeat case_match; intros; simplify_eq; rewrite ?closeUser_disp; try done.
  by eapply dispatch_all_groups.
Qed.

Lemma phase_insert ws i w j :
  phase_of (<[i := w]> ws) j = if decide (i = j) then wk_phase w else phase_of ws j.
Proof. unfold phase_of. rewrite lookup_insert. by case_decide. Qed.

Lemma wstep_inv y y' : wstep fresh proto tick y y' -> sy_inv y -> sy_inv y'.
Proof.
  intros Hs [H1 H2 H3 H4 H5]. destruct Hs as
    [s ws cut inn got calls snaps now acc r send ev s' closed Hio Ha He
    |s ws cut inn got calls snaps s' Hq Hk
    |s ws cut inn got calls snaps i w q q' w' Hw Hp Hq Hpop
    |s ws cut inn got calls snaps i w um now Hw Hp Ht w'
    |s ws cut inn got calls snaps i w um t now Hw Hp Ht
    |s ws cut inn got calls snaps i w sn st Hw Hc
    |s ws cut inn got calls snaps]; split; cbn [sy_srv sy_workers sy_cut sy_in sy_got sy_calls] in *; try done.
  - rewrite fmap_app. apply sublist_app; [done|apply accepted_sublist].
  - intros j. rewrite lane_app, H2, (event_queue _ _ _ _ _ _ _ _ _ _ He j). by rewrite app_assoc.
  - by eapply event_groups.
  - intros t g wk i um Hsv Hg. rewrite elem_of_app. intros [Hin|Hin]; [by eapply H5|by eapply accepted_groups].
  - intros j. by rewrite (quiet_disp _ _ Hq).
  - by rewrite (quiet_disp _ _ Hq).
  - intros j. rewrite H2, lane_app, <- app_assoc. f_equal. unfold queue_of. cbn. rewrite lookup_insert.
    unfold worker_pop, pop_timeout_wake, raw_pop in Hpop.
    destruct (_exit q); [|destruct (_queue q) as [|um rest] eqn:Eq; unfold empty in Hpop; rewrite Eq in Hpop];
      injection Hpop as <- <-; cbn [wk_phase]; rewrite ?lane_one; repeat case_decide; subst; rewrite ?Hq, ?Eq; done.
  - intros j. rewrite phase_insert, lane_app. specialize (H3 j). unfold worker_pop in Hpop.
    case_decide as Ej; [subst j|].
    + unfold phase_of in H3. rewrite Hw, Hp, app_nil_r in H3. apply sublist_app; [done|].
      destruct (wk_phase w'); cbn [popped]; rewrite ?lane_one, ?decide_True by done;
        [apply sublist_nil_l|done|apply sublist_nil_l..].
    + by apply sublist_inserts_r.
  - intros j. rewrite phase_insert, lane_app. specialize (H3 j). case_decide as Ej; [subst j|].
    + unfold phase_of in H3. rewrite Hw, Hp in H3. cbn [popped] in H3. unfold w', worker_take.
      destruct (sv_heap s !! um.1) as [usr|]; cbn [wk_phase popped];
        [repeat case_if; cbn [wk_phase popped]|]; rewrite ?lane_one, ?lane_nil, ?decide_True, ?app_nil_r by done;
        try done; (etrans; [|exact H3]); by apply sublist_inserts_r.
    + destruct (wk_phase w'); rewrite ?lane_one, ?decide_False, ?lane_nil, app_nil_r by done; done.
  - intros j. rewrite phase_insert. specialize (H3 j). case_decide as Ej; [subst j|done].
    unfold phase_of in H3. rewrite Hw, Hp in H3. exact H3.
  - intros j. rewrite phase_insert. specialize (H3 j). case_decide as Ej; [subst j|done].
    unfold phase_of in H3. by rewrite Hw in H3.
  - intros j. rewrite H2. f_equal. unfold queue_of. cbn. rewrite lookup_fmap.
    by destruct (dp_queues (sv_disp s) !! j).
Qed.
End invariant.

(** *** Statistics *)

Section statistics.
Context {P : Type} {PI : Poller P} (fresh : Z -> bytes) (proto : protocol) (tick : Z -> Prop).
Context (Htick : forall now, tick now -> now <> TimeStampErr).
Abbreviation mtype := (msg_type proto).

(** The calls of a type. *)
Definition calls_of (t : Z) (ums : list item) : Z := size_of (filter (fun um => mtype um = t) ums).
(** The call a worker is in, if it is of the type. *)
Definition running (t : Z) (p : phase) : Z :=
  match p with InHandler um _ => if decide (mtype um = t) then 1 else 0 | _ => 0 end.

Definition started (p : phase) (st : rstat) : Prop :=
  match p with
  | InHandler um t => t = mtype um /\ _inflightCount st = 1 /\ exists now, tick now /\ _reqStartTime st = {[t := now]}
  | _ => _inflightCount st = 0 /\ _reqStartTime st = ∅
  end.

Record stat_inv (ws : gmap Z worker) (calls : list (Z * item)) (snaps : list (Z * snap)) : Prop := {
  st_phase : forall i w, ws !! i = Some w -> started (wk_phase w) (wk_stat w);
  st_count : forall i w t, ws !! i = Some w -> size_of (lane i calls) < INT_MAX ->
    0 <= reported t (lane i snaps) /\ 0 <= counted t (_metrics (wk_stat w)) /\
    reported t (lane i snaps) + counted t (_metrics (wk_stat w)) + running t (wk_phase w) = calls_of t (lane i calls);
}.

Lemma calls_of_le t ums : calls_of t ums <= size_of ums.
Proof. apply size_filter_le. Qed.

Lemma reported_app t l k : reported t (l ++ k) = reported t l + reported t k.
Proof. unfold reported. rewrite fmap_app. induction (_ <$> l) as [|a l' IH]; cbn; [done|]. rewrite IH. lia. Qed.

Lemma stat_inv_same ws calls snaps i w w' :
  ws !! i = Some w -> wk_stat w' = wk_stat w -> started (wk_phase w') (wk_stat w) ->
  (forall t, running t (wk_phase w') = running t (wk_phase w)) ->
  stat_inv ws calls snaps -> stat_inv (<[i := w']> ws) calls snaps.
Proof.
  intros Hw Hst Hph Hr [H1 H2]. split; intros j wj.
  - rewrite lookup_insert. case_decide; [intros [= <-]; by rewrite Hst|apply H1].
  - intros t. rewrite lookup_insert. case_decide; [intros [= <-]; subst; rewrite Hst, Hr; by apply H2|apply H2].
Qed.

(** A call begins. *)
Lemma stat_inv_start ws calls snaps i w um now :
  ws !! i = Some w -> wk_phase w = Popped um -> tick now -> stat_inv ws calls snaps ->
  stat_inv (<[i := MkWorker (InHandler um (mtype um)) (onReqStart now (mtype um) (wk_stat w)) (wk_msgCount w)]> ws)
    (calls ++ [(i, um)]) snaps.
Proof.
  intros Hw Hp Hn [H1 H2]. pose proof (H1 _ _ Hw) as Hs. rewrite Hp in Hs. destruct Hs as [Hi Hm].
  split; intros j wj.
  - rewrite lookup_insert. case_decide; [intros [= <-]|apply H1]. cbn. rewrite Hi, Hm. eauto.
  - intros t. rewrite lane_app, lane_one, lookup_insert. case_decide as E; [intros [= <-]; subst j|].
    + rewrite size_of_app, size_of_cons, size_of_nil by done. intros Hb.
      destruct (H2 i w t Hw ltac:(lia)) as (Ha & Hc & He).
      rewrite Hp in He. cbn [running wk_phase wk_stat onReqStart _metrics] in *. split_and!; [done..|].
      unfold calls_of in *. rewrite size_filter_snoc. lia.
    + rewrite app_nil_r. apply H2.
Qed.

(** A call ends, and the depth may be sampled. *)
Lemma stat_inv_finish ws calls snaps i w um t now depth :
  ws !! i = Some w -> wk_phase w = InHandler um t -> tick now -> stat_inv ws calls snaps ->
  stat_inv (<[i := worker_finish now depth um t w]> ws) calls snaps.
Proof.
  intros Hw Hp Hn [H1 H2]. pose proof (H1 _ _ Hw) as Hs. rewrite Hp in Hs. destruct Hs as (-> & Hi & st & Ht & Hm).
  set (f := worker_finish now depth um (mtype um) w).
  assert (_inflightCount (wk_stat f) = 0 /\ _reqStartTime (wk_stat f) = ∅ /\
    _metrics (wk_stat f) = _metrics (fst (stat_step (wk_stat w) (Finish now (mtype um) (wrap 32 (size_of um.2)) 0))))
    as (Hf1 & Hf2 & Hf3).
  { unfold f, worker_finish. cbn [wk_stat stat_step fst]. case_if; cbn [sampleQueueDepth _inflightCount _reqStartTime _metrics];
      (split_and!; [| |done]); unfold onReqFinish; rewrite Hm, lookup_singleton_eq;
      case_if; cbn; rewrite ?Hi; try done; by rewrite delete_singleton_eq. }
  split; intros j wj.
  - rewrite lookup_insert. case_decide; [intros [= <-]; done|apply H1].
  - intros t. rewrite lookup_insert. case_decide as E; [intros [= <-]; subst j|apply H2].
    intros Hb. destruct (H2 i w t Hw Hb) as (Ha & Hc & He). rewrite Hp in He. cbn [running] in He.
    change (wk_phase f) with Waiting. cbn [running]. rewrite Hf3.
    pose proof (calls_of_le t (lane i calls)).
    pose proof (stat_step_count (wk_stat w) t (Finish now (mtype um) (wrap 32 (size_of um.2)) 0)) as Hstep.
    destruct (stat_step _ _) as [r1 s1] eqn:Es. cbn [fst snd] in *. unfold stat_step in Es. injection Es as Er <-.
    cbn [effective] in Hstep. rewrite Hm, lookup_singleton_eq in Hstep.
    rewrite (proj2 (Z.eqb_neq _ _) (Htick _ Ht)), (proj2 (Z.eqb_neq _ _) (Htick _ Hn)) in Hstep. cbn [orb negb] in Hstep. rewrite andb_true_r in Hstep.
    change (reported t []) with 0 in Hstep.
    destruct (decide (mtype um = t)) as [Et|Et]; [rewrite (proj2 (Z.eqb_eq _ _) Et) in Hstep|
      rewrite (proj2 (Z.eqb_neq _ _) Et) in Hstep]; destruct Hstep as (Hq & ? & ?); try lia.
Qed.

(** The logger takes a snapshot. *)
Lemma stat_inv_consume ws calls snaps i w sn st :
  ws !! i = Some w -> consume (wk_stat w) = (sn, st) -> stat_inv ws calls snaps ->
  stat_inv (<[i := MkWorker (wk_phase w) st (wk_msgCount w)]> ws) calls (snaps ++ [(i, sn)]).
Proof.
  intros Hw Hc [H1 H2]. pose proof (H1 _ _ Hw) as Hs. split; intros j wj.
  - rewrite lookup_insert. case_decide; [intros [= <-]|apply H1]. unfold consume in Hc. injection Hc as _ <-. exact Hs.
  - intros t. rewrite lane_app, lane_one, lookup_insert. case_decide as E; [intros [= <-]; subst j|].
    + intros Hb. destruct (H2 i w t Hw Hb) as (Ha & Hcn & He). pose proof (calls_of_le t (lane i calls)).
      pose proof (stat_step_count (wk_stat w) t Consume) as Hstep. cbn [stat_step] in Hstep. rewrite Hc in Hstep.
      cbn [fst snd effective] in Hstep. cbn [wk_phase wk_stat]. rewrite reported_app.
      assert (0 <= running t (wk_phase w)) by (destruct (wk_phase w); cbn; try case_decide; lia).
      destruct Hstep as (Hq & ? & ?); lia.
    + rewrite app_nil_r. apply H2.
Qed.

Lemma wstep_stat_inv y y' :
  wstep fresh proto tick y y' -> stat_inv (sy_workers y) (sy_calls y) (sy_snaps y) ->
  stat_inv (sy_workers y') (sy_calls y') (sy_snaps y').
Proof.
  intros Hs H. destruct Hs as [| |s ws cut inn got calls snaps i w q q' w' Hw Hp Hq Hpop
    |s ws cut inn got calls snaps i w um now Hw Hp Ht w'
    |s ws cut inn got calls snaps i w um t now Hw Hp Ht
    |s ws cut inn got calls snaps i w sn st Hw Hc|]; cbn [sy_workers sy_calls sy_snaps] in *; try done.
  - pose proof (st_phase _ _ _ H _ _ Hw) as Hph. rewrite Hp in Hph. unfold worker_pop in Hpop.
    destruct (pop_timeout_wake q) as [[rc x] q1]. injection Hpop as _ <-.
    apply (stat_inv_same _ _ _ _ w); try done; cbn [wk_phase]; rewrite ?Hp; repeat case_match; done.
  - pose proof (st_phase _ _ _ H _ _ Hw) as Hph. rewrite Hp in Hph.
    assert (stat_inv (<[i := MkWorker Waiting (wk_stat w) (wk_msgCount w)]> ws) calls snaps) as Hidle
      by (apply (stat_inv_same _ _ _ _ w); try done; cbn [wk_phase]; by rewrite Hp).
    unfold w', worker_take. destruct (sv_heap s !! um.1) as [usr|]; cbn [wk_phase]; [|by rewrite app_nil_r].
    destruct (isHeartbeat proto (Some um.2)); cbn [wk_phase]; [by rewrite app_nil_r|].
    destruct (isClosed usr); cbn [wk_phase]; [by rewrite app_nil_r|]. by apply stat_inv_start.
  - by apply stat_inv_finish.
  - by apply stat_inv_consume.
Qed.
End statistics.

(** ** Properties *)

Section properties.
Context {P : Type} {PI : Poller P} (fresh : Z -> bytes) (proto : protocol) (tick : Z -> Prop).
Abbreviation mtype := (msg_type proto).

Lemma fresh_queue groups ids i :
  queue_of (MkDispatcher groups (list_to_map ((fun id => (workerIndex id, empty_queue)) <$> ids))) i = [].
Proof.
  unfold queue_of. cbn [dp_queues]. induction ids as [|id ids IH]; [done|].
  cbn [fmap list_fmap list_to_map foldr fst snd]. rewrite lookup_insert. case_decide; [done|]. exact IH.
Qed.

Lemma fresh_worker ids i w :
  (list_to_map ((fun id => (workerIndex id, new_worker id)) <$> ids) : gmap Z worker) !! i = Some w ->
  exists id, w = new_worker id.
Proof.
  induction ids as [|id ids IH]; [done|]. cbn [fmap list_fmap list_to_map foldr fst snd].
  rewrite lookup_insert. case_decide; [intros [= <-]; eauto|]. exact IH.
Qed.

Lemma service_inv max groups ids y :
  service_reachable fresh proto tick max groups ids y -> sy_inv proto groups y.
Proof.
  intros (p & efd & fds & Hr). remember (start_service p efd fds max groups ids) as y0 eqn:E.
  assert (sy_inv proto groups y0) as H0.
  { subst y0. split; cbn [start_service sy_srv sy_workers sy_cut sy_in sy_got sy_calls]; try done; try set_solver.
    - intros i. cbn [idle_server sv_disp]. by rewrite fresh_queue.
    - intros i. unfold phase_of. destruct (_ !! i) as [w|] eqn:Ew; [|done].
      by apply fresh_worker in Ew as [id ->]. }
  clear E. induction Hr as [|y1 y2 y3 Hs _ IH]; [done|]. apply IH. by eapply wstep_inv.
Qed.

Lemma service_stats max groups ids y :
  (forall now, tick now -> now <> TimeStampErr) ->
  service_reachable fresh proto tick max groups ids y ->
  stat_inv proto tick (sy_workers y) (sy_calls y) (sy_snaps y).
Proof.
  intros Ht (p & efd & fds & Hr). remember (start_service p efd fds max groups ids) as y0 eqn:E.
  assert (stat_inv proto tick (sy_workers y0) (sy_calls y0) (sy_snaps y0)) as H0.
  { subst y0. split; cbn [start_service sy_workers sy_calls sy_snaps]; intros i w.
    - by intros [id ->]%fresh_worker.
    - by intros t [id ->]%fresh_worker _. }
  clear E. induction Hr as [|y1 y2 y3 Hs _ IH]; [done|]. apply IH. by eapply wstep_stat_inv.
Qed.

Lemma calls_in_lane groups (y : service P) i : sy_inv proto groups y -> lane i (sy_calls y) `sublist_of` lane i (sy_in y).
Proof.
  intros [_ H2 H3 _ _]. rewrite H2. etrans; [|apply sublist_inserts_r; reflexivity].
  etrans; [|apply H3]. by apply sublist_inserts_r.
Qed.

(** C11: under every interleaving of the I/O thread, the monitor, the workers and
    the logger, every call of [onRecvMsg] is for a message that was cut off the
    stream of the connection it is called on, and no message causes more than
    one call; each worker handles its messages in the order they were dispatched
    to it. *)
Theorem handled_at_most_once max groups ids y :
  service_reachable fresh proto tick max groups ids y ->
  (sy_calls y).*2 ⊆+ sy_cut y /\
  (forall i, lane i (sy_calls y) `sublist_of` sy_cut y).
Proof.
  intros Hinv%service_inv. pose proof (yi_cut _ _ _ Hinv) as Hc. split.
  - etrans; [|by apply sublist_submseteq]. apply lanes_submseteq. intros i.
    by apply sublist_submseteq, (calls_in_lane groups).
  - intros i. etrans; [by apply (calls_in_lane groups)|]. etrans; [|exact Hc].
    unfold lane. apply fmap_sublist. apply sublist_filter.
Qed.

(** C12: the messages of a type that is served by one worker are handled in
    the order in which they were received, over all connections, whatever is
    interleaved. *)
Theorem one_worker_in_order max groups ids y t g wk :
  service_reachable fresh proto tick max groups ids y ->
  serving groups t = Some g -> workerIds g = [wk] ->
  filter (fun um => mtype um = t) (sy_calls y).*2 `sublist_of` filter (fun um => mtype um = t) (sy_cut y).
Proof.
  intros Hinv%service_inv Hs Hw. etrans; [|apply filter_sublist_mono; exact (yi_cut _ _ _ Hinv)].
  assert (forall i um, (i, um) ∈ sy_calls y -> mtype um = t -> i = workerIndex wk) as Hone.
  { intros i um Hin Ht. eapply (yi_single _ _ _ Hinv); [done..| |done].
    assert (um ∈ lane i (sy_in y)) as Hi.
    { eapply elem_of_submseteq; [|by apply sublist_submseteq, (calls_in_lane groups)].
      apply list_elem_of_fmap. exists (i, um). split; [done|]. by apply list_elem_of_filter. }
    apply list_elem_of_fmap in Hi as ([j um'] & -> & [<- Hi]%list_elem_of_filter). done. }
  assert (filter (fun um => mtype um = t) (sy_calls y).*2 =
          filter (fun um => mtype um = t) (lane (workerIndex wk) (sy_calls y))) as ->.
  { unfold lane. revert Hone. induction (sy_calls y) as [|[i um] l IH]; intros Hone; [done|].
    assert (filter (fun um => mtype um = t) l.*2 =
      filter (fun um => mtype um = t) (filter (fun x => x.1 = workerIndex wk) l).*2) as IH'
      by (apply IH; intros; eapply Hone; [by right|done]).
    cbn [fmap list_fmap snd]. rewrite (filter_cons _ (i, um)), filter_cons. cbn [fst snd]. case_decide as Et.
    - rewrite (Hone i um ltac:(left) Et), decide_True by done. cbn [fmap list_fmap snd].
      rewrite filter_cons_True by done. by rewrite IH'.
    - case_decide; [|done]. cbn [fmap list_fmap snd]. by rewrite filter_cons_False. }
  etrans; [apply filter_sublist_mono, (calls_in_lane groups _ _ Hinv)|].
  apply filter_sublist_mono. unfold lane. apply fmap_sublist, sublist_filter.
Qed.

End properties.

(** ** Witnesses *)

#[local] Instance worker_poller : Poller WinPoll.state := WinPoll.win_poller 0x0300 0x0010.

Section samples.
Abbreviation step := (wstep zero_fresh Lymsg.lymsg_protocol (fun now => 0 < now)).
Abbreviation svc := (service WinPoll.state).

Definition bool_of {A} (x : option A) : bool := match x with Some _ => true | None => false end.

Definition after_event (now : Z) (acc : Z * option (bytes * Z)) (r : recv_result) (ev : event) (y : svc) : svc :=
  match on_event zero_fresh Lymsg.lymsg_protocol now acc r (fun _ => 0) ev (sy_srv y) with
  | Some (s, _) =>
      let cut := event_cut zero_fresh now r ev (sy_srv y) in
      MkService s (sy_workers y) (sy_cut y ++ cut)
        (sy_in y ++ accepted Lymsg.lymsg_protocol (sv_disp (sy_srv y)) cut) (sy_got y) (sy_calls y) (sy_snaps y)
  | None => y
  end.

Lemma after_event_step now acc r ev (y : svc) :
  sv_io (sy_srv y) = NoUser -> (0 <= fst acc -> ~ fd_open (fst acc) (sy_srv y)) ->
  bool_of (on_event zero_fresh Lymsg.lymsg_protocol now acc r (fun _ => 0) ev (sy_srv y)) = true ->
  step y (after_event now acc r ev y).
Proof.
  unfold bool_of. intros Hio Hf Hs. unfold after_event. destruct (on_event _ _ _ _ _ _ _ _) as [[s cl]|] eqn:He; [|done]. destruct y. by eapply ws_event.
Qed.

(** One worker; a client connects on descriptor 7 and sends a message. *)
Definition svc0 : svc :=
  start_service (sv_poll listening) 1 {[3]} 10 {[0 := MkGroup [211] 0]} [211].
Definition svc_accepted : svc :=
  after_event 1000 (7, Some ([], 4711)) (RecvCode 0) (MkEvent 3 true false false false) svc0.
Definition created (n : nat) (y : svc) : svc :=
  MkService (create_steps n (sy_srv y)) (sy_workers y) (sy_cut y) (sy_in y) (sy_got y) (sy_calls y) (sy_snaps y).
Definition svc1 : svc := created 4 svc_accepted.
Definition svc2 : svc := after_event 1001 (-1, None) (RecvData frame1) (MkEvent 7 true false false false) svc1.
Definition worker0 : worker := new_worker 211.
Definition worker1 : worker := MkWorker (Popped (0%nat, frame1)) (new_rstat 211) 0.
Definition svc3 : svc :=
  MkService (set_queue (sy_srv svc2) 0 (MkQueue [] false)) (<[0 := worker1]> (sy_workers svc2)) (sy_cut svc2)
    (sy_in svc2) (sy_got svc2 ++ [(0, (0%nat, frame1))]) (sy_calls svc2) (sy_snaps svc2).
Definition worker2 : worker :=
  worker_take Lymsg.lymsg_protocol 5 (sv_heap (sy_srv svc3) !! 0%nat) (0%nat, frame1) worker1.
Definition svc4 : svc :=
  MkService (sy_srv svc3) (<[0 := worker2]> (sy_workers svc3)) (sy_cut svc3) (sy_in svc3) (sy_got svc3)
    (sy_calls svc3 ++ [(0, (0%nat, frame1))]) (sy_snaps svc3).

Lemma created_steps n (y : svc) :
  (forall i w um t, sy_workers y !! i = Some w -> wk_phase w <> InHandler um t) -> rtc step y (created n y).
Proof.
  intros Hw. destruct y as [s ws cut inn got calls snaps]. unfold created. cbn [sy_srv sy_workers sy_cut sy_in sy_got sy_calls sy_snaps] in *.
  induction n as [|n IH]; [done|]. unfold create_steps in *. rewrite Nat.iter_succ.
  destruct (createUser_next (Nat.iter n (fun s => default s (createUser_next s)) s)) as [s'|] eqn:E; cbn [default]; [|exact IH].
  eapply rtc_r; [exact IH|]. apply ws_quiet; [by apply q_create|]. intros i w um t Hi Hp. by destruct (Hw i w um t Hi).
Qed.

Lemma svc4_reachable :
  service_reachable zero_fresh Lymsg.lymsg_protocol (fun now => 0 < now) 10 {[0 := MkGroup [211] 0]} [211] svc4.
Proof.
  exists (sv_poll listening), 1, {[3]}. fold svc0.
  eapply rtc_l; [eapply (after_event_step 1000 (7, Some ([], 4711)) (RecvCode 0) (MkEvent 3 true false false false))|].
  { reflexivity. }
  { intros _ (u & usr & Hu & _). change (sv_heap (sy_srv svc0)) with (∅ : gmap nat user) in Hu. by rewrite lookup_empty in Hu. }
  { vm_compute. reflexivity. }
  fold svc_accepted. transitivity svc1; [apply (created_steps 4 svc_accepted)|].
  { intros i w um t Hw. change (sy_workers svc_accepted) with ({[0 := new_worker 211]} : gmap Z worker) in Hw.
    apply lookup_singleton_Some in Hw as [_ <-]. done. }
  eapply (rtc_l _ _ svc2); [apply (after_event_step 1001 (-1, None) (RecvData frame1) (MkEvent 7 true false false false) svc1)|].
  { vm_compute. reflexivity. }
  { cbn. lia. }
  { vm_compute. reflexivity. }
  assert (dp_queues (sv_disp (sy_srv svc2)) !! 0 = Some (MkQueue [(0%nat, frame1)] false)) as Hq
    by (vm_compute; reflexivity).
  assert (sy_workers svc2 !! 0 = Some worker0) as Hw by (vm_compute; reflexivity).
  eapply (rtc_l _ _ svc3).
  { unfold svc3. destruct svc2 as [s ws cut inn got calls snaps]. cbn [sy_srv sy_workers] in *.
    exact (ws_pop _ _ _ s ws cut inn got calls snaps 0 worker0 _ _ worker1 Hw eq_refl Hq eq_refl). }
  assert (sy_workers svc3 !! 0 = Some worker1) as Hw3 by (vm_compute; reflexivity).
  assert (wk_phase worker2 = InHandler (0%nat, frame1) (msg_type Lymsg.lymsg_protocol (0%nat, frame1))) as Hph
    by (vm_compute; reflexivity).
  apply rtc_once. unfold svc4. revert Hph. unfold worker2. destruct svc3 as [s ws cut inn got calls snaps].
  cbn [sy_srv sy_workers sy_cut sy_in sy_got sy_calls sy_snaps] in *. intros Hph.
  pose proof (ws_take zero_fresh Lymsg.lymsg_protocol (fun now => 0 < now) s ws cut inn got calls snaps 0 worker1
    (0%nat, frame1) 5 Hw3 eq_refl ltac:(by apply Z.ltb_lt)) as Hs.
  cbv zeta in Hs. cbn [fst] in Hs. rewrite Hph in Hs. exact Hs.
Qed.
End samples.

Lemma handled_at_most_once_witness :
  (sy_calls svc4).*2 = [(0%nat, frame1)] /\ (sy_calls svc4).*2 ⊆+ sy_cut svc4.
Proof.
  split; [vm_compute; reflexivity|].
  apply (handled_at_most_once zero_fresh Lymsg.lymsg_protocol (fun now => 0 < now) 10 {[0 := MkGroup [211] 0]} [211]
    svc4 svc4_reachable).
Defined.

Lemma one_worker_in_order_witness :
  filter (fun um => msg_type Lymsg.lymsg_protocol um = 5) (sy_calls svc4).*2 `sublist_of`
  filter (fun um => msg_type Lymsg.lymsg_protocol um = 5) (sy_cut svc4).
Proof.
  apply (one_worker_in_order zero_fresh Lymsg.lymsg_protocol (fun now => 0 < now) 10 {[0 := MkGroup [211] 0]} [211]
    svc4 5 (MkGroup [211] 0) 211 svc4_reachable); reflexivity.
Defined.

