(* ===== verification/ServerLife.v ===== *)
(** * Opening, starting and stopping a server ([tcpsock_server] of
      [zbf/socket_tcp_v5.hpp])

    [life] is what [open], [close], [start], [stop] and [serveUtilStop] act on:
    the server of [TcpServer] with the flag [_shutdown], the worker ids, the
    threads and the logger of the statistics, whose timer is that of [TimerLife],
    thread and all. A missing entry of the map of queues is a null [unique_ptr].
    [start] is split where the I/O thread is running and the lanes are not
    configured yet. [None] is undefined behaviour, or [std::terminate]. *)

From S2P Require Import Prelude MemChunk TcpMessage SocketPoll WriteSide TcpUser.
From S2P Require Import SafeQueue Dispatch TcpServer.
From S2P Require Stat Timer TimerLife.
Import TimerLife(logger, lg_timer, lg_allStat, ts_thd, ts_stopped, owned).

(** What the system calls of one [open] return. *)
Record open_env := MkOpenEnv {
  oe_addr : bool;         (* getAddrInfo finds an address *)
  oe_socket : Z;
  oe_reuseaddr : Z;
  oe_reuseport : Z;
  oe_bind : Z;
  oe_listen : Z;
}.

Section life.
Context {P : Type} {PI : Poller P} {PF : PollerFactory P}.

Record life := MkLife {
  lf_srv : server P;
  lf_shutdown : bool;
  lf_ids : list Z;        (* _workerIds *)
  lf_threads : list Z;    (* _workers, by thread id *)
  lf_io : bool;           (* _iothread and _monitor are joinable *)
  lf_stat : logger (W:=list Stat.rstat);   (* _statLogger *)
}.

Definition StatInterval : Z := 5.

(** The logger's task: it reports the statistics, and stays. *)
Definition onStat : Timer.task (list Stat.rstat) := fun all => (true, snd (Stat.onStat all)).

(** The constructor. *)
Definition new_life (p : P) : life :=
  MkLife (idle_server p INVALID_SOCK ∅ DefaultMaxConns (MkDispatcher ∅ ∅)) false [] [] false
    (TimerLife.new_logger StatInterval Timer.Minute []).

Definition set_listen (s : server P) (p : P) (efd : Z) (fds : gset Z) : server P :=
  MkServer p efd fds (sv_userSeq s) (sv_max s) (sv_heap s) (sv_next s) (sv_fd2user s) (sv_users s)
    (sv_held s) (sv_disp s) (sv_log s) (sv_io s) (sv_expired s).

(** [open(serverName, port)]: the result, the descriptors closed, the server
    after. *)
Definition open (e : open_env) (s : server P) : Z * list Z * server P :=
  if negb (oe_addr e) then (-1, [], s)
  else
    let fd := oe_socket e in
    if fd <? 0 then (-2, if fd =? INVALID_SOCK then [] else [fd], s)
    else if negb (oe_reuseaddr e =? 0) then (-3, [fd], s)
    else if negb (oe_reuseport e =? 0) then (-3, [fd], s)
    else if negb (oe_bind e =? 0) then (-4, [fd], s)
    else if negb (oe_listen e =? 0) then (-5, [fd], s)
    else
      let '(efd, p1) := if sv_efd s =? INVALID_SOCK then sp_create (sv_poll s) else (sv_efd s, sv_poll s) in
      if (sv_efd s =? INVALID_SOCK) && sp_invalid efd then (-6, [fd], set_listen s p1 efd (sv_listenFds s))
      else
        let '(rc, p2) := sp_add p1 efd fd false in
        if negb (rc =? 0) then (-7, [fd], set_listen s p2 efd (sv_listenFds s))
        else (0, [], set_listen s p2 efd ({[fd]} ∪ sv_listenFds s)).

(** [open] of several addresses or ports: how many succeed. *)
Fixpoint open_all (es : list open_env) (s : server P) : Z * server P :=
  match es with
  | [] => (0, s)
  | e :: es =>
      let '(rc, _, s1) := open e s in
      let '(cnt, s2) := open_all es s1 in
      ((if rc =? 0 then 1 else 0) + cnt, s2)
  end.

(** [close]: the descriptors closed. *)
Definition close (s : server P) : list Z * server P :=
  (elements (sv_listenFds s),
   let '(p, efd) := if sp_invalid (sv_efd s) then (sv_poll s, sv_efd s)
                    else (sp_release (sv_poll s) (sv_efd s), INVALID_SOCK) in
   MkServer p efd ∅ (sv_userSeq s) (sv_max s) (sv_heap s) (sv_next s) ∅ []
     (sv_held s) (sv_disp s) (sv_log s) (sv_io s) (sv_expired s)).

(** [start] up to the loop's end: the threads run. Assigning to a joinable
    [std::thread] terminates the program. *)
Definition start_threads (workerNum : Z) (l : life) : option life :=
  if lf_io l then None
  else
    let n := Z.to_nat (worker_count workerNum) in
    let ids := (fun i => workerId (Z.of_nat i)) <$> seq 1 n in
    let queues := foldl (fun qs i => <[Z.of_nat i - 1 := empty_queue]> qs) (dp_queues (sv_disp (lf_srv l))) (seq 1 n) in
    Some (MkLife (set_disp (lf_srv l) (MkDispatcher (dp_groups (sv_disp (lf_srv l))) queues))
            false (lf_ids l ++ ids) (lf_threads l ++ ids) true (lf_stat l)).

(** [configSwimlanes]. *)
Definition apply_lanes (lanes : list swimlane) (l : life) : option life :=
  match configSwimlanes (lf_ids l) lanes with
  | None => None
  | Some groups =>
      Some (MkLife (set_disp (lf_srv l) (MkDispatcher groups (dp_queues (sv_disp (lf_srv l)))))
              (lf_shutdown l) (lf_ids l) (lf_threads l) (lf_io l) (lf_stat l))
  end.

Definition set_stat (g : logger) (l : life) : life :=
  MkLife (lf_srv l) (lf_shutdown l) (lf_ids l) (lf_threads l) (lf_io l) g.

(** [_statLogger.start], which adds the task and makes the timer's thread. *)
Definition start_stat (l : life) : option life := g ← TimerLife.logger_start onStat (lf_stat l); Some (set_stat g l).

Definition start (workerNum : Z) (lanes : list swimlane) (l : life) : option life :=
  l1 ← start_threads workerNum l; l2 ← apply_lanes lanes l1; start_stat l2.

(** [_recvQueues[i]->f()] for [i] from 0 below [n]: a null pointer, or an index
    outside the array of 64, is undefined. *)
Fixpoint each_queue {T} (f : squeue T -> option (squeue T)) (i : nat) (n : nat) (qs : gmap Z (squeue T))
  : option (gmap Z (squeue T)) :=
  match n with
  | O => Some qs
  | S n =>
      if (64 <=? i)%nat then None
      else
        match qs !! Z.of_nat i with
        | None => None
        | Some q =>
            each_queue f (S i) n (match f q with Some q1 => <[Z.of_nat i := q1]> qs | None => delete (Z.of_nat i) qs end)
        end
  end.

Definition set_queues (qs : gmap Z (squeue (nat * bytes))) (s : server P) : server P :=
  set_disp s (MkDispatcher (dp_groups (sv_disp s)) qs).

(** [serveUtilStop]: it returns once the threads have ended, which they do when
    [_shutdown] is set; [_statLogger.stop()] joins the logger's. The queues are
    emptied and released. *)
Definition serveUtilStop (l : life) : option life :=
  g ← TimerLife.logger_stop (lf_stat l);
  match each_queue (fun _ => None) 0 (length (lf_ids l)) (dp_queues (sv_disp (lf_srv l))) with
  | None => None
  | Some qs => Some (MkLife (set_queues qs (lf_srv l)) (lf_shutdown l) (lf_ids l) [] false g)
  end.

Definition stop (join : bool) (l : life) : option life :=
  match each_queue (fun q => Some (SafeQueue.stop q)) 0 (length (lf_ids l)) (dp_queues (sv_disp (lf_srv l))) with
  | None => None
  | Some qs =>
      let l1 := MkLife (set_queues qs (lf_srv l)) true (lf_ids l) (lf_threads l) (lf_io l) (lf_stat l) in
      if join then serveUtilStop l1 else Some l1
  end.
End life.
Arguments life : clear implicits.

(** ** Lemmas *)

Section facts.
Context {P : Type} {PI : Poller P} {PF : PollerFactory P}.

Lemma each_queue_all {T} (f : squeue T -> option (squeue T)) n : forall i qs,
  (i + n <= 64)%nat -> (forall j, (i <= j < i + n)%nat -> is_Some (qs !! Z.of_nat j)) ->
  exists qs', each_queue f i n qs = Some qs' /\
    forall j, qs' !! j = if decide (Z.of_nat i <= j < Z.of_nat i + Z.of_nat n) then qs !! j ≫= f else qs !! j.
Proof.
  induction n as [|n IH]; intros i qs Hn Hq; cbn [each_queue].
  - exists qs. split; [done|]. intros j. case_decide; [lia|done].
  - replace (64 <=? i)%nat with false by (symmetry; apply Nat.leb_gt; lia).
    destruct (Hq i ltac:(lia)) as [q Eq]. rewrite Eq.
    set (qs1 := match f q with Some q1 => _ | None => _ end).
    assert (forall j, qs1 !! j = if decide (j = Z.of_nat i) then f q else qs !! j) as H1.
    { intros j. unfold qs1. destruct (f q); rewrite ?lookup_insert, ?lookup_delete;
        repeat case_decide; congruence. }
    destruct (IH (S i) qs1) as (qs' & -> & H2); [lia| |].
    + intros j Hj. rewrite H1, decide_False by lia. apply Hq. lia.
    + exists qs'. split; [done|]. intros j. rewrite H2, !H1.
      destruct (decide (j = Z.of_nat i)) as [->|Hne].
      * rewrite decide_False by lia. rewrite decide_True by lia. by rewrite Eq.
      * repeat case_decide; try lia; done.
Qed.

Lemma each_queue_null {T} (f : squeue T -> option (squeue T)) n : forall i j qs,
  (i <= j < i + n)%nat -> qs !! Z.of_nat j = None -> each_queue f i n qs = None.
Proof.
  induction n as [|n IH]; intros i j qs Hj Hq; cbn [each_queue]; [lia|].
  destruct (64 <=? i)%nat; [done|]. destruct (qs !! Z.of_nat i) as [q|] eqn:Eq; [|done].
  assert (j <> i) by congruence. apply (IH (S i) j); [lia|].
  destruct (f q); rewrite ?lookup_insert, ?lookup_delete; case_decide; try lia; done.
Qed.

Lemma worker_count_range n : 2 <= worker_count n <= 64.
Proof. unfold worker_count. lia. Qed.

Lemma workerIndex_workerId i : 1 <= i <= 64 -> workerIndex (workerId i) = i - 1.
Proof.
  intros Hi. unfold workerIndex, workerId, ThdIdBase.
  assert (swrap 16 (200 + 10 + i) = 210 + i) as -> by (rewrite swrap_id; [lia|done|unfold in_sint; cbn; lia]).
  rewrite swrap_id; [lia|done|unfold in_sint; cbn; lia].
Qed.

Lemma workerId_inj i j : 1 <= i <= 64 -> 1 <= j <= 64 -> workerId i = workerId j -> i = j.
Proof. intros Hi Hj E. apply (f_equal workerIndex) in E. rewrite !workerIndex_workerId in E by done. lia. Qed.

(** The loop of [start] fills the first [n] queues. *)
Lemma start_queues {T} n (qs : gmap Z (squeue T)) j :
  foldl (fun qs i => <[Z.of_nat i - 1 := empty_queue]> qs) qs (seq 1 n) !! j =
  if decide (0 <= j < Z.of_nat n) then Some empty_queue else qs !! j.
Proof.
  induction n as [|n IH]; [case_decide; [lia|done]|].
  rewrite seq_S, foldl_app. cbn [foldl]. rewrite lookup_insert, IH.
  repeat case_decide; try lia; done.
Qed.

(** The state after [start]. *)
Record running (n : Z) (l : life P) : Prop := {
  rn_ids : lf_ids l = start_workers n [];
  rn_threads : lf_threads l = lf_ids l;
  rn_io : lf_io l = true;
  rn_queues : forall j, dp_queues (sv_disp (lf_srv l)) !! j =
    if decide (0 <= j < worker_count n) then Some empty_queue else None;
  rn_stat : owned (lg_timer (lf_stat l));
}.

(** The state before the first [start]. *)
Record fresh_life (l : life P) : Prop := {
  fl_ids : lf_ids l = [];
  fl_threads : lf_threads l = [];
  fl_io : lf_io l = false;
  fl_queues : dp_queues (sv_disp (lf_srv l)) = ∅;
  fl_stat : owned (lg_timer (lf_stat l)) /\ ts_thd (lg_timer (lf_stat l)) = None;
}.

Lemma new_life_fresh (p : P) : fresh_life (new_life p).
Proof. by split; [..|split; [apply TimerLife.new_logger_owned|]]. Qed.

Lemma start_workers_length n ids : length (start_workers n ids) = (length ids + Z.to_nat (worker_count n))%nat.
Proof. unfold start_workers. by rewrite length_app, length_fmap, length_seq. Qed.

Lemma start_workers_elem n wk : wk ∈ start_workers n [] -> 0 <= workerIndex wk < worker_count n.
Proof.
  unfold start_workers. intros (i & -> & Hi%elem_of_seq)%list_elem_of_fmap. pose proof (worker_count_range n).
  rewrite workerIndex_workerId; lia.
Qed.

Lemma start_workers_nodup n : NoDup (start_workers n []).
Proof.
  unfold start_workers. cbn [app]. apply NoDup_fmap_2_strong; [|apply NoDup_seq].
  intros i j Hi%elem_of_seq Hj%elem_of_seq E. pose proof (worker_count_range n).
  apply workerId_inj in E; lia.
Qed.

Lemma start_fresh n lanes (l : life P) :
  fresh_life l -> Forall (fun x => 0 <= threads x) lanes -> lanes_sum lanes < 2 ^ 31 ->
  exists l', start n lanes l = Some l' /\ running n l' /\ groups_ok (lf_ids l') (dp_groups (sv_disp (lf_srv l'))) /\
    is_Some (ts_thd (lg_timer (lf_stat l'))).
Proof.
  intros [Hi Ht Hio Hq [Ho Hn] ] Hl Hs. unfold start, start_threads. rewrite Hio. cbn [mbind option_bind]. unfold apply_lanes. cbn [lf_ids].
  rewrite Hi. fold (start_workers n []). pose proof (worker_count_range n) as Hc.
  pose proof (start_workers_length n []) as Hlen. cbn [length Nat.add] in Hlen.
  destruct (configSwimlanes_groups (start_workers n []) lanes) as (groups & E & Hg & _); try done.
  - intros E. rewrite E in Hlen. cbn in Hlen. lia.
  - apply start_workers_nodup.
  - unfold size_of. rewrite Hlen. lia.
  - change ([] ++ _) with (start_workers n []). rewrite E. cbn [mbind option_bind]. unfold start_stat. cbn [lf_stat].
    destruct (TimerLife.owned_start onStat _ Ho Hn) as (g & -> & Hg1 & Hg2). cbn [mbind option_bind].
    eexists. split; [done|]. split; [|done].
    split; cbn [set_stat lf_stat lf_ids lf_threads lf_io lf_srv sv_disp set_disp dp_queues]; try done.
    + by rewrite Ht.
    + intros j. rewrite start_queues, Hq, Z2Nat.id by lia. case_decide; [done|]. by rewrite lookup_empty.
Qed.

(** [stop]: joining leaves no thread, the logger's neither. *)
Definition halted (l : life P) : Prop :=
  lf_threads l = [] /\ lf_io l = false /\ dp_queues (sv_disp (lf_srv l)) = ∅ /\
  ts_thd (lg_timer (lf_stat l)) = None /\ ts_stopped (lg_timer (lf_stat l)) = true /\ lg_allStat (lf_stat l) = [].

Lemma stop_running n b (l : life P) :
  running n l ->
  exists l', stop b l = Some l' /\ lf_ids l' = lf_ids l /\ lf_shutdown l' = true /\
    (b = true -> halted l') /\
    (b = false -> lf_threads l' = lf_threads l /\ lf_stat l' = lf_stat l /\ forall j q,
      dp_queues (sv_disp (lf_srv l')) !! j = Some q -> is_stop q = true).
Proof.
  intros [Hi Ht Hio Hq Ho]. unfold stop, serveUtilStop. pose proof (worker_count_range n) as Hc.
  pose proof (start_workers_length n []) as Hlen. cbn [length Nat.add] in Hlen.
  destruct (each_queue_all (fun q => Some (SafeQueue.stop q)) (length (lf_ids l)) 0
    (dp_queues (sv_disp (lf_srv l)))) as (qs & -> & Hqs).
  { rewrite Hi, Hlen. lia. }
  { intros j Hj. rewrite Hq, decide_True by (rewrite Hi, Hlen in Hj; lia). eauto. }
  cbn [lf_ids lf_srv lf_stat set_queues set_disp sv_disp dp_queues].
  assert (forall j, qs !! j = if decide (0 <= j < worker_count n) then Some (SafeQueue.stop empty_queue) else None) as Hqs'.
  { intros j. rewrite Hqs, Hq, Hi, Hlen. repeat case_decide; try lia; done. }
  destruct b.
  - destruct (TimerLife.logger_stop_spec _ Ho) as (g & -> & _ & Hg). cbn [mbind option_bind].
    destruct (each_queue_all (fun _ => None) (length (lf_ids l)) 0 qs) as (qs2 & -> & Hqs2).
    { rewrite Hi, Hlen. lia. }
    { intros j Hj. rewrite Hqs', decide_True by (rewrite Hi, Hlen in Hj; lia). eauto. }
    eexists. split_and!; [done..| |done]. intros _. unfold halted. split_and!; try done; [|tauto..]. cbn. apply map_eq. intros j.
    rewrite Hqs2, Hqs', Hi, Hlen, lookup_empty. repeat case_decide; try lia; done.
  - eexists. split_and!; [done..|]. intros _. split; [done|]. split; [done|]. cbn. intros j q. rewrite Hqs'.
    case_decide; [by intros [= <-]|done].
Qed.

(** A subclass that overrides [serveUtilStop] stops the same way. *)
Lemma stop_then_join (v : life P) : stop true v = stop false v ≫= serveUtilStop.
Proof. unfold stop. by destruct (each_queue _ _ _ _). Qed.
End facts.

(** ** Properties *)

Section properties.
Context {P : Type} {PI : Poller P} {PF : PollerFactory P}.

Definition all_succeed (e : open_env) : Prop :=
  oe_addr e = true /\ 0 <= oe_socket e /\ oe_reuseaddr e = 0 /\ oe_reuseport e = 0 /\ oe_bind e = 0 /\ oe_listen e = 0.

(** Opening a port: it succeeds exactly when every call does, then the new
    descriptor is listening and registered; otherwise the set of listeners is
    what it was and the new descriptor, if there is one, is closed. The
    connections are never touched. *)
Theorem open_exact `{!PollerLaws P} e (s : server P) rc closed s' :
  open e s = (rc, closed, s') ->
  sv_heap s' = sv_heap s /\ sv_fd2user s' = sv_fd2user s /\ sv_users s' = sv_users s /\
  ((rc = 0 /\ all_succeed e /\ closed = [] /\ sv_listenFds s' = {[oe_socket e]} ∪ sv_listenFds s /\
    interest (sv_poll s') (sv_efd s') (oe_socket e) = Some (true, false)) \/
   (-7 <= rc <= -1 /\ sv_listenFds s' = sv_listenFds s /\
    closed = (if oe_addr e && negb (oe_socket e =? INVALID_SOCK) then [oe_socket e] else []) /\
    (all_succeed e -> rc = -6 \/ rc = -7))).
Proof.
  unfold open, all_succeed. destruct (oe_addr e); cbn [negb andb].
  2:{ intros [= <- <- <-]. split_and!; [done..|]. right. split_and!; [lia..|done|done|]. intros [? _]. done. }
  destruct (Z.ltb_spec (oe_socket e) 0).
  { intros [= <- <- <-]. split_and!; [done..|]. right. split_and!; [lia..|done|by case_if|]. intros; lia. }
  replace (oe_socket e =? INVALID_SOCK) with false by (symmetry; apply Z.eqb_neq; unfold INVALID_SOCK; lia).
  cbn [negb].
  do 4 (match goal with |- context [negb (?x =? 0)] => destruct (Z.eqb_spec x 0) end; cbn [negb];
    [|intros [= <- <- <-]; split_and!; [done..|]; right; split_and!; [lia..|done|done|]; intros; lia]).
  destruct (if sv_efd s =? INVALID_SOCK then sp_create (sv_poll s) else _) as [efd p1].
  destruct ((sv_efd s =? INVALID_SOCK) && sp_invalid efd).
  { intros [= <- <- <-]. split_and!; [done..|]. right. split_and!; [lia..|done|done|]. intros _. by left. }
  destruct (decide (interest p1 efd (oe_socket e) = None)) as [Hi|Hi].
  - pose proof (add_fresh p1 efd (oe_socket e) false Hi) as [H0 H1].
    destruct (sp_add p1 efd (oe_socket e) false) as [r p2]. cbn [fst snd] in *. subst r. cbn [negb Z.eqb].
    intros [= <- <- <-]. split_and!; [done..|]. left. split_and!; try done; lia.
  - pose proof (add_taken p1 efd (oe_socket e) false Hi) as [H0 _].
    destruct (sp_add p1 efd (oe_socket e) false) as [r p2]. cbn [fst] in *.
    rewrite (proj2 (Z.eqb_neq _ _) H0). cbn [negb].
    intros [= <- <- <-]. split_and!; [done..|]. right. split_and!; [lia..|done|done|]. intros _. by right.
Qed.

(** A server started for the first time, with any number of workers asked for
    and any lanes, has between 2 and 64 worker threads, each with its own
    queue, and well-formed groups, so that dispatching is total; [stop] marks
    every queue as stopped, and joining leaves no thread, the statistics
    logger's included, and no queue. *)
Theorem start_then_stop n lanes (l : life P) :
  fresh_life l -> Forall (fun x => 0 <= threads x) lanes -> lanes_sum lanes < 2 ^ 31 ->
  exists l1 l2 l3,
    start n lanes l = Some l1 /\ stop false l1 = Some l2 /\ stop true l1 = Some l3 /\
    2 <= size_of (lf_threads l1) <= 64 /\ NoDup (lf_threads l1) /\ is_Some (ts_thd (lg_timer (lf_stat l1))) /\
    groups_ok (lf_ids l1) (dp_groups (sv_disp (lf_srv l1))) /\
    (forall wk, wk ∈ lf_ids l1 -> dp_queues (sv_disp (lf_srv l1)) !! workerIndex wk = Some empty_queue) /\
    lf_shutdown l2 = true /\ (forall j q, dp_queues (sv_disp (lf_srv l2)) !! j = Some q -> is_stop q = true) /\
    lf_shutdown l3 = true /\ halted l3.
Proof.
  intros Hf Hl Hs. destruct (start_fresh n lanes l Hf Hl Hs) as (l1 & E1 & Hr & Hg & Hth).
  destruct (stop_running n false l1 Hr) as (l2 & E2 & _ & Hs2 & _ & H2).
  destruct (stop_running n true l1 Hr) as (l3 & E3 & _ & Hs3 & H3 & _).
  destruct (H2 eq_refl) as (_ & _ & Hstop). specialize (H3 eq_refl).
  destruct Hr as [Ri Rt Rio Rq _]. pose proof (worker_count_range n).
  exists l1, l2, l3. rewrite Rt, Ri in *. unfold size_of. rewrite start_workers_length. cbn [length].
  split_and!; try done; try lia; [apply start_workers_nodup|].
  intros wk Hwk. by rewrite Rq, decide_True by (by apply start_workers_elem).
Qed.

(** The I/O thread runs before the lanes are configured: a message that
    arrives in between is dispatched through an empty group, outside its
    vector of workers. *)
Theorem early_message n (p : P) l {M} (type : M -> Z) (m : M) (queues : gmap Z (squeue M)) :
  start_threads n (new_life p) = Some l ->
  lf_io l = true /\ dispatchMsg type (MkDispatcher (dp_groups (sv_disp (lf_srv l))) queues) m = None.
Proof. unfold start_threads. cbn [new_life lf_io]. intros [= <-]. split; [done|]. reflexivity. Qed.

(** A server that was stopped and joined must not be stopped again, and one
    that is started again cannot be stopped: the worker ids of the earlier
    start are still there, but their queues are not. *)
Theorem restart_cannot_stop n m lanes lanes' (l l1 l2 l3 : life P) b :
  fresh_life l -> Forall (fun x => 0 <= threads x) lanes -> lanes_sum lanes < 2 ^ 31 ->
  start n lanes l = Some l1 -> stop true l1 = Some l2 ->
  stop b l2 = None /\ serveUtilStop l2 = None /\
  (start m lanes' l2 = Some l3 -> stop b l3 = None).
Proof.
  intros Hf Hl Hs E1 E2. destruct (start_fresh n lanes l Hf Hl Hs) as (l1' & E1' & Hr & _ & _).
  assert (l1' = l1) as -> by congruence. destruct (stop_running n true l1 Hr) as (l2' & E2' & Hi2 & _ & H2 & _).
  assert (l2' = l2) as -> by congruence. destruct (H2 eq_refl) as (_ & _ & Hq2 & _).
  pose proof (worker_count_range n). pose proof (worker_count_range m).
  rewrite (rn_ids _ _ Hr) in Hi2. pose proof (start_workers_length n []) as Hlen. cbn [length Nat.add] in Hlen.
  split_and!.
  - unfold stop. rewrite (each_queue_null _ _ 0 0); [done| |by rewrite Hq2]. rewrite Hi2, Hlen. lia.
  - unfold serveUtilStop. rewrite (each_queue_null _ _ 0 0); [by destruct (TimerLife.logger_stop _)| |by rewrite Hq2]. rewrite Hi2, Hlen. lia.
  - unfold start, start_threads. case_if; [done|]. cbn [mbind option_bind]. unfold apply_lanes. cbn [lf_ids lf_srv].
    destruct (configSwimlanes _ lanes') as [groups|]; [|done]. cbn [mbind option_bind]. unfold start_stat.
    destruct (TimerLife.logger_start _ _) as [g|]; [|done]. intros [= <-]. unfold stop.
    rewrite (each_queue_null _ _ 0 (Z.to_nat (worker_count m))); [done| |].
    + cbn [set_stat lf_ids]. rewrite Hi2, length_app, length_fmap, length_seq, Hlen. lia.
    + cbn [set_stat lf_srv sv_disp set_disp dp_queues]. rewrite start_queues, decide_False by lia.
      by rewrite Hq2.
Qed.
End properties.

(** ** Witnesses *)

#[local] Instance life_poller : Poller WinPoll.state := WinPoll.win_poller 0x0300 0x0010.

Definition sample_life : life WinPoll.state := new_life (WinPoll.MkState ∅ 0).
Definition sample_env : open_env := MkOpenEnv true 3 0 0 0 0.

#[local] Instance life_laws : PollerLaws WinPoll.state := WinPoll.winsock_laws.

Lemma open_exact_witness :
  sv_listenFds (snd (open sample_env (lf_srv sample_life))) = {[3]} ∪ (∅ : gset Z).
Proof.
  assert (open sample_env (lf_srv sample_life) = (0, [], snd (open sample_env (lf_srv sample_life)))) as E
    by (vm_compute; reflexivity).
  destruct (open_exact sample_env (lf_srv sample_life) 0 [] (snd (open sample_env (lf_srv sample_life))) E)
    as (_ & _ & _ & [(_ & _ & _ & H & _)|([_ H] & _)]).
  - exact H.
  - exfalso. by apply H.
Defined.

Definition started_life : life WinPoll.state := default sample_life (start 4 sample_lanes sample_life).
Definition stopped_life : life WinPoll.state := default sample_life (stop true started_life).

Lemma lanes_witness_ok : Forall (fun x => 0 <= threads x) sample_lanes /\ lanes_sum sample_lanes < 2 ^ 31.
Proof. split; [repeat constructor; discriminate|reflexivity]. Qed.

Lemma start_then_stop_witness :
  start 4 sample_lanes sample_life = Some started_life /\ stop true started_life = Some stopped_life /\
  2 <= size_of (lf_threads started_life) <= 64.
Proof.
  destruct (start_then_stop 4 sample_lanes sample_life (new_life_fresh _)
    (proj1 lanes_witness_ok) (proj2 lanes_witness_ok)) as (l1 & l2 & l3 & E1 & E2 & E3 & Hsz & _).
  unfold stopped_life, started_life. rewrite E1. change (default sample_life (Some l1)) with l1.
  rewrite E3. change (default sample_life (Some l3)) with l3. split_and!; tauto.
Defined.

Lemma early_message_witness :
  exists l, start_threads 4 sample_life = Some l /\ lf_io l = true /\
    dispatchMsg id (MkDispatcher (dp_groups (sv_disp (lf_srv l))) ∅) 7 = None.
Proof.
  eexists. split; [reflexivity|].
  exact (early_message 4 (WinPoll.MkState ∅ 0) _ id 7 ∅ eq_refl).
Defined.

Lemma sample_runs : start 4 sample_lanes sample_life = Some started_life /\ stop true started_life = Some stopped_life.
Proof.
  destruct (start_fresh 4 sample_lanes sample_life (new_life_fresh _) (proj1 lanes_witness_ok) (proj2 lanes_witness_ok))
    as (l1 & E1 & Hr & _). destruct (stop_running _ true _ Hr) as (l2 & E2 & _).
  unfold stopped_life, started_life. rewrite E1. change (default sample_life (Some l1)) with l1. by rewrite E2.
Qed.

Lemma restart_cannot_stop_witness :
  exists l3, start 8 [] stopped_life = Some l3 /\ stop false l3 = None.
Proof.
  assert (bool_decide (is_Some (start 8 [] stopped_life)) = true) as H3 by (vm_compute; reflexivity).
  apply bool_decide_eq_true in H3 as [l3 E3]. exists l3. split; [exact E3|].
  apply (restart_cannot_stop 4 8 sample_lanes [] sample_life started_life stopped_life l3 false
    (new_life_fresh _) (proj1 lanes_witness_ok) (proj2 lanes_witness_ok) (proj1 sample_runs) (proj2 sample_runs)).
  exact E3.
Defined.
