(* ===== verification/Text.v ===== *)
(** * Text of the C and C++ standard library

    What the database clients use of it: string literals, [c_str],
    [std::to_string] of integers and of doubles, and [strtod]. A double is its
    bit pattern, as in [Serialize]; [strtod] reads decimal numbers, infinities
    and not-a-number, not the hexadecimal form. *)

From Stdlib Require Import Floats.SpecFloat.
From Stdlib Require Import Strings.String.
From S2P Require Import Prelude.

(** A string literal. *)
Definition lit (s : string) : bytes := list_byte_of_string s.
Arguments lit _%_string_scope.

(** What a callee sees of a [const char*]: the bytes before the first [NUL]. *)
Fixpoint c_str (s : bytes) : bytes :=
  match s with
  | [] => []
  | b :: s => if Z_of_byte b =? 0 then [] else b :: c_str s
  end.

(** ** Integers *)

Definition digit (d : Z) : byte := byte_of_Z (48 + d).

(** The decimal digits of [z], in front of [acc]. *)
Fixpoint digits (fuel : nat) (z : Z) (acc : bytes) : bytes :=
  match fuel with
  | O => acc
  | S fuel => if z <? 10 then digit z :: acc else digits fuel (z / 10) (digit (z mod 10) :: acc)
  end.

Definition decimal (z : Z) : bytes := digits (S (Z.to_nat (Z.log2 z))) z [].

(** [std::to_string] of an [int] or a [long long]. *)
Definition to_string (z : Z) : bytes := if z <? 0 then lit "-" ++ decimal (- z) else decimal z.

(** A number below [10 ^ k] has at most [k] digits. *)
Lemma digits_length k fuel z acc : (1 <= k)%nat -> z < 10 ^ Z.of_nat k -> (length (digits fuel z acc) <= k + length acc)%nat.
Proof.
  revert k z acc. induction fuel as [|fuel IH]; intros k z acc Hk Hz; cbn [digits]; [lia|].
  destruct (Z.ltb_spec z 10) as [_|Hge]; [cbn; lia|]. destruct k as [|[|k]]; [lia|cbn in Hz; lia|].
  etrans; [apply (IH (S k)); [lia|]|cbn; lia]. apply Z.div_lt_upper_bound; [lia|].
  rewrite (Nat2Z.inj_succ (S k)), Z.pow_succ_r in Hz by lia. lia.
Qed.

(** ** Doubles *)

(** IEEE 754 binary64: sign, mantissa and exponent of the bits of a finite
    double, its value being [m * 2 ^ e]. *)
Definition f_sign (bits : Z) : bool := Z.testbit bits 63.
Definition f_exp (bits : Z) : Z := Z.land (Z.shiftr bits 52) 2047.
Definition f_frac (bits : Z) : Z := Z.land bits (2 ^ 52 - 1).
Definition f_mantissa (bits : Z) : Z := if f_exp bits =? 0 then f_frac bits else f_frac bits + 2 ^ 52.
Definition f_scale (bits : Z) : Z := Z.max (f_exp bits) 1 - 1075.

(** [n / d] to the nearest integer, a tie to the even one. *)
Definition div_even (n d : Z) : Z :=
  let q := n / d in
  let r := n mod d in
  if 2 * r <? d then q else if d <? 2 * r then q + 1 else if Z.even q then q else q + 1.

(** The millionths of a finite double. *)
Definition millionths (bits : Z) : Z :=
  let e := f_scale bits in
  if 0 <=? e then f_mantissa bits * 2 ^ e * 1000000 else div_even (f_mantissa bits * 1000000) (2 ^ (- e)).

(** Six digits, with leading zeros. *)
Definition six (z : Z) : bytes := drop 1 (decimal (1000000 + z)).

(** [std::to_string(double)]: the format [%f]. *)
Definition to_string_double (bits : Z) : bytes :=
  (if f_sign bits then lit "-" else []) ++
  (if f_exp bits =? 2047 then (if f_frac bits =? 0 then lit "inf" else lit "nan")
   else decimal (millionths bits / 1000000) ++ lit "." ++ six (millionths bits mod 1000000)).

(** The bits of a double that the Standard Library computes with. *)
Definition quiet_NaN : Z := 0x7ff8000000000000.

Definition bits_of_double (x : spec_float) : Z :=
  match x with
  | S754_zero s => if s then 2 ^ 63 else 0
  | S754_infinity s => (if s then 2 ^ 63 else 0) + 2047 * 2 ^ 52
  | S754_nan => quiet_NaN
  | S754_finite s m e =>
      (if s then 2 ^ 63 else 0) +
      (if Zpos m <? 2 ^ 52 then Zpos m else (e + 1075) * 2 ^ 52 + (Zpos m - 2 ^ 52))
  end.

(** [(double) n]. *)
Definition double_of_int (n : Z) : Z := bits_of_double (binary_normalize 53 1024 n 0 false).

(** The double nearest to [n / d]: enough bits of the quotient, and one more
    that says whether it is exact. *)
Definition nearest_quotient (n d : Z) : spec_float :=
  let s := Z.max 0 (Z.log2 d - Z.log2 n + 60) in
  let q := n * 2 ^ s / d in
  let sticky := if n * 2 ^ s mod d =? 0 then 0 else 1 in
  binary_normalize 53 1024 (2 * q + sticky) (- (s + 1)) false.

Definition negate (minus : bool) (bits : Z) : Z := if minus then bits + 2 ^ 63 else bits.

Definition digit_value (b : byte) : option Z :=
  let z := Z_of_byte b - 48 in if (0 <=? z) && (z <=? 9) then Some z else None.

(** The longest run of digits: its value after [acc], its length and the rest. *)
Fixpoint read_digits (acc n : Z) (s : bytes) : Z * Z * bytes :=
  match s with
  | b :: s' => match digit_value b with Some d => read_digits (acc * 10 + d) (n + 1) s' | None => (acc, n, s) end
  | [] => (acc, n, s)
  end.

Definition is_space (b : byte) : bool :=
  let z := Z_of_byte b in (z =? 32) || ((9 <=? z) && (z <=? 13)).

Fixpoint skip_space (s : bytes) : bytes :=
  match s with
  | b :: s' => if is_space b then skip_space s' else s
  | [] => []
  end.

(** An optional sign: whether it is a minus. *)
Definition read_sign (s : bytes) : bool * bytes :=
  match s with
  | b :: s' => if Z_of_byte b =? 45 then (true, s') else if Z_of_byte b =? 43 then (false, s') else (false, s)
  | [] => (false, [])
  end.

(** An exponent, 0 when there is none. *)
Definition read_exponent (s : bytes) : Z :=
  match s with
  | b :: s' =>
      if (Z_of_byte b =? 101) || (Z_of_byte b =? 69) then
        let '(minus, s1) := read_sign s' in
        let '(e, n, _) := read_digits 0 0 s1 in
        if minus then - e else e
      else 0
  | [] => 0
  end.

(** [tolower] of the first three bytes. *)
Definition lower (b : byte) : byte :=
  let z := Z_of_byte b in if (65 <=? z) && (z <=? 90) then byte_of_Z (z + 32) else b.
Definition starts (word : string) (s : bytes) : bool := bool_decide (lower <$> take 3 s = lit word).

(** [strtod(s, nullptr)]. *)
Definition strtod (s : bytes) : Z :=
  let '(minus, s) := read_sign (skip_space (c_str s)) in
  if starts "inf" s then negate minus (2047 * 2 ^ 52)
  else if starts "nan" s then negate minus quiet_NaN
  else
    let '(m, n, s) := read_digits 0 0 s in
    let '(m, k, s) :=
      match s with
      | b :: s' => if Z_of_byte b =? 46 then read_digits m 0 s' else (m, 0, s)
      | [] => (m, 0, s)
      end in
    if n + k =? 0 then 0
    else
      let e := read_exponent s - k in
      if m =? 0 then negate minus 0
      else negate minus (bits_of_double
             (if 0 <=? e then binary_normalize 53 1024 (m * 10 ^ e) 0 false else nearest_quotient m (10 ^ (- e)))).
(** ** Properties *)

Lemma Z_of_digit d : 0 <= d < 10 -> Z_of_byte (digit d) = 48 + d.
Proof. intros H. unfold digit. rewrite Z_of_byte_of_Z. apply Z.mod_small. lia. Qed.

Lemma digit_value_digit d : 0 <= d < 10 -> digit_value (digit d) = Some d.
Proof.
  intros H. unfold digit_value. rewrite Z_of_digit by done. replace (48 + d - 48) with d by lia.
  by rewrite (proj2 (Z.leb_le 0 d)), (proj2 (Z.leb_le d 9)) by lia.
Qed.

Lemma read_digits_digits fuel z acc a n : (0 < fuel)%nat -> 0 <= z < 10 ^ Z.of_nat fuel ->
  exists k, 0 < k /\ read_digits a n (digits fuel z acc) = read_digits (a * 10 ^ k + z) (n + k) acc.
Proof.
  revert z acc. induction fuel as [|f IH]; intros z acc Hf Hz; [lia|]. cbn [digits]. destruct (Z.ltb_spec z 10).
  - exists 1. split; [lia|]. cbn [read_digits]. rewrite digit_value_digit by lia. f_equal; lia.
  - assert (10 ^ Z.of_nat (S f) = 10 * 10 ^ Z.of_nat f) as E by (rewrite Nat2Z.inj_succ, Z.pow_succ_r; lia).
    destruct f as [|f]; [cbn in Hz; lia|].
    destruct (IH (z / 10) (digit (z mod 10) :: acc)) as (k & Hk & ->); [lia| |].
    { split; [apply Z.div_pos; lia|]. apply Z.div_lt_upper_bound; lia. }
    pose proof (Z.mod_pos_bound z 10 ltac:(lia)). exists (k + 1). split; [lia|].
    cbn [read_digits]. rewrite digit_value_digit by lia. rewrite Z.pow_add_r by lia.
    pose proof (Z_div_mod_eq_full z 10). f_equal; lia.
Qed.

Lemma decimal_fuel z : 0 <= z -> z < 10 ^ Z.of_nat (S (Z.to_nat (Z.log2 z))).
Proof.
  intros Hz. rewrite Nat2Z.inj_succ, Z2Nat.id by apply Z.log2_nonneg.
  destruct (Z.eq_dec z 0) as [->|Hn]; [done|]. destruct (Z.log2_spec z ltac:(lia)) as [_ H].
  eapply Z.lt_le_trans; [exact H|]. apply Z.pow_le_mono_l. lia.
Qed.

Lemma digits_app fuel z acc rest : digits fuel z acc ++ rest = digits fuel z (acc ++ rest).
Proof.
  revert z acc. induction fuel as [|f IH]; intros z acc; [done|]. cbn [digits]. case_if; [done|]. by rewrite IH.
Qed.

(** Reading a printed number gives the number, and stops where it ends. *)
Lemma read_decimal z rest : 0 <= z -> (forall b, head rest = Some b -> digit_value b = None) ->
  exists k, 0 < k /\ read_digits 0 0 (decimal z ++ rest) = (z, k, rest).
Proof.
  intros Hz Hr. unfold decimal. rewrite digits_app, app_nil_l.
  destruct (read_digits_digits (S (Z.to_nat (Z.log2 z))) z rest 0 0) as (k & Hk & ->); [lia|by split; [|apply decimal_fuel]|].
  exists k. split; [done|]. rewrite Z.mul_0_l, Z.add_0_l. destruct rest as [|b rest]; [done|].
  cbn [read_digits]. by rewrite (Hr b eq_refl).
Qed.

Lemma decimal_head z : 0 <= z -> exists d s, 0 <= d < 10 /\ decimal z = digit d :: s.
Proof.
  intros Hz. unfold decimal. set (f := S _). assert (0 < f)%nat as Hf by lia. clearbody f. revert z Hz.
  generalize (@nil byte). induction f as [|f IH]; intros acc z Hz; [lia|]. cbn [digits].
  destruct (Z.ltb_spec z 10); [by exists z, acc|]. destruct f as [|f].
  - exists (z mod 10), acc. split; [|done]. by apply Z.mod_pos_bound.
  - apply IH; [lia|]. apply Z.div_pos; lia.
Qed.

(** Different numbers print differently. *)
Lemma to_string_inj a b : to_string a = to_string b -> a = b.
Proof.
  assert (forall x y, 0 <= x -> 0 <= y -> decimal x = decimal y -> x = y) as Hd.
  { intros x y Hx Hy He. destruct (read_decimal x [] Hx ltac:(done)) as (k & _ & E).
    destruct (read_decimal y [] Hy ltac:(done)) as (k' & _ & E'). rewrite He, E' in E. congruence. }
  assert (forall x y, 0 <= y -> lit "-" ++ decimal x <> decimal y) as Hs.
  { intros x y Hy He. destruct (decimal_head y Hy) as (d & s & Hr & E). rewrite E in He. cbn in He.
    injection He as Hh _. apply (f_equal Z_of_byte) in Hh. rewrite Z_of_digit in Hh by done.
    change (Z_of_byte "-"%byte) with 45 in Hh. lia. }
  unfold to_string. destruct (Z.ltb_spec a 0), (Z.ltb_spec b 0); intros He.
  - apply app_inv_head in He. apply Hd in He; lia.
  - by apply Hs in He.
  - symmetry in He. by apply Hs in He.
  - apply Hd in He; lia.
Qed.

(** Six decimals do not tell small scores apart. *)
Example small_doubles_collapse :
  to_string_double (strtod (lit "1e-7")) = to_string_double (strtod (lit "3e-7")) /\
  strtod (to_string_double (strtod (lit "1e-7"))) = 0.
Proof. vm_compute. done. Qed.

Example strtod_samples :
  strtod (lit "3.14") = 0x40091eb851eb851f /\ strtod (lit " -1e-07x") = 0xbe7ad7f29abcaf48 /\
  strtod (lit "5e-324") = 1 /\ strtod (lit "1e400") = 0x7ff0000000000000 /\
  strtod (lit "2.2250738585072011e-308") = 0x000fffffffffffff.
Proof. vm_compute. done. Qed.
