(* ===== verification/Config.v ===== *)
(** * Configuration and the central server ([lygc/lyserver_config.hpp],
      [lygc/central_server.hpp], [lygc/central_client.hpp])

    JSON values are those of a library: the interface [Json], with its documented
    behaviour as [JsonLaws]; [tree_json] is an instance for the witnesses.
    Exceptions of the library are [None]. HTTP is a sequence of requests. *)

From Stdlib Require Import Strings.String.
From stdpp Require Import countable.
From S2P Require Import Prelude Text.

#[export] Instance byte_countable : Countable byte.
Proof. refine (inj_countable' Z_of_byte byte_of_Z _). apply byte_of_Z_of_byte. Defined.

Class Json (J : Type) := {
  js_null : J;
  js_parse : bytes -> option J;
  js_dump : J -> option bytes;                  (* throws where a string is not UTF-8 *)
  js_field : J -> bytes -> option J;            (* j[key], of an object or null; a missing value is null *)
  js_assign : J -> bytes -> J -> option J;      (* j[key] = v *)
  js_size : J -> nat;
  js_elem : J -> nat -> option J;               (* j[i] *)
  js_items : J -> list (bytes * J);
  js_string : J -> option bytes;                (* get<std::string>() *)
  js_int : J -> option Z;                       (* get<int>() *)
  js_of_string : bytes -> J;
  js_of_int : Z -> J;
  (* without floating point numbers, of which some are not written as they are *)
  js_exact : J -> Prop;
}.

Class JsonLaws (J : Type) `{Json J} : Prop := {
  parse_dump j s : js_exact j -> js_dump j = Some s -> js_parse s = Some j;
  field_null k : js_field js_null k = Some js_null;
  assign_some o k v : is_Some (js_field o k) -> is_Some (js_assign o k v);
  assign_field o k v o' k' : js_assign o k v = Some o' ->
    js_field o' k' = if decide (k = k') then Some v else js_field o k';
  string_of s : js_string (js_of_string s) = Some s;
  string_null : js_string js_null = None;
  int_of z : in_sint 32 z -> js_int (js_of_int z) = Some z;
  exact_null : js_exact js_null;
  exact_string s : js_exact (js_of_string s);
  exact_int z : js_exact (js_of_int z);
  exact_assign o k v o' : js_exact o -> js_exact v -> js_assign o k v = Some o' -> js_exact o';
}.

(** The handlers that [CentralServer] sets. *)
Inductive route := GetApi | PostRegister.

#[export] Instance route_eq_dec : EqDecision route.
Proof. solve_decision. Defined.

Section config.
Context {J : Type} {JS : Json J}.

(** [obj[key].get<std::string>()]; [(unsigned short) obj[key].get<int>()]. *)
Definition get_string (j : J) (key : bytes) : option bytes := js_field j key ≫= js_string.
Definition get_ushort (j : J) (key : bytes) : option Z := wrap 16 <$> (js_field j key ≫= js_int).

(** Building an object by assignments. *)
Fixpoint make_object (l : list (bytes * J)) (o : J) : option J :=
  match l with [] => Some o | (k, v) :: l => js_assign o k v ≫= make_object l end.

(** ** [ServerConfig] *)

Record ServerConfig := MkConfig { name : bytes; origin : Z; host : bytes; port : Z }.

Definition default_config : ServerConfig := MkConfig [] 0 [] 0.

(** The assignments of the constructor from JSON: what is filled in, and whether
    no exception came. *)
Definition fill (j : J) (c : ServerConfig) : ServerConfig * bool :=
  match get_string j (lit "name") with
  | None => (c, false)
  | Some n =>
      match get_ushort j (lit "origin") with
      | None => (MkConfig n (origin c) (host c) (port c), false)
      | Some o =>
          match get_string j (lit "host") with
          | None => (MkConfig n o (host c) (port c), false)
          | Some h =>
              match get_ushort j (lit "port") with
              | None => (MkConfig n o h (port c), false)
              | Some p => (MkConfig n o h p, true)
              end
          end
      end
  end.

(** [ServerConfig(jsonstr)]; [junk] is what [origin] and [port] hold before. *)
Definition config_of (junk : Z * Z) (jsonstr : bytes) : ServerConfig :=
  let c := MkConfig [] (fst junk) [] (snd junk) in
  match js_parse jsonstr with None => c | Some obj => fst (fill obj c) end.

Definition toJson (c : ServerConfig) : option J :=
  make_object [(lit "name", js_of_string (name c)); (lit "origin", js_of_int (origin c));
               (lit "host", js_of_string (host c)); (lit "port", js_of_int (port c))] js_null.
Definition toJsonStr (c : ServerConfig) : option bytes := toJson c ≫= js_dump.

(** ** [ServerGroupMap] *)

Abbreviation group_map := (gmap bytes (list ServerConfig)).

(** [groups[servType].push_back(servConf)]. *)
Definition push_config (servType : bytes) (c : ServerConfig) (g : group_map) : group_map :=
  <[servType := default [] (g !! servType) ++ [c]]> g.

(** The loops of [load]: the groups, and whether no exception came. *)
Fixpoint load_group (servType : bytes) (jGroup : J) (ix : list nat) (g : group_map) : group_map * bool :=
  match ix with
  | [] => (g, true)
  | i :: ix =>
      match js_elem jGroup i with
      | None => (g, false)
      | Some jServ =>
          let '(c, ok) := fill jServ default_config in
          if ok then load_group servType jGroup ix (push_config servType c g) else (g, false)
      end
  end.
Fixpoint load_items (l : list (bytes * J)) (g : group_map) : group_map * bool :=
  match l with
  | [] => (g, true)
  | (key, value) :: l =>
      let '(g, ok) := load_group key value (seq 0 (js_size value)) g in
      if ok then load_items l g else (g, false)
  end.
Definition load (jRoot : J) : group_map * bool := load_items (js_items jRoot) ∅.

Definition loadFromString (str : bytes) (g : group_map) : Z * group_map :=
  match js_parse str with
  | None => (-1, g)
  | Some jRoot => let '(g, ok) := load jRoot in (if ok then 0 else -1, g)
  end.

(** [file]: the content, if the file opens. *)
Definition loadFromFile (file : option bytes) (g : group_map) : Z * group_map :=
  match file with None => (-2, g) | Some str => loadFromString str g end.

(** ** [CentralServer] *)

Record central := MkCentral { ce_api2data : gmap bytes bytes; ce_routes : list route }.

Definition new_central : central := MkCentral ∅ [].

Definition set (api data : bytes) (c : central) : central :=
  MkCentral (<[api := data]> (ce_api2data c)) (ce_routes c ++ [GetApi]).
Definition registerApi (c : central) : central := MkCentral (ce_api2data c) (ce_routes c ++ [PostRegister]).

Definition extractApiAndData (jsonstr : bytes) : option (bytes * bytes) :=
  obj ← js_parse jsonstr;
  api ← get_string obj (lit "api");
  data ← js_field obj (lit "data");
  text ← js_dump data;
  Some (api, text).

Definition onRegisterApi (body : bytes) (c : central) : bytes * central :=
  match extractApiAndData body with
  | Some (api, data) => (lit "OK", set api data c)
  | None => (lit "Fail", c)
  end.
Definition onApi (api : bytes) (c : central) : bytes := default (lit "None") (ce_api2data c !! api).

(** A request, after the library has matched its path; the first handler that was
    set for the path serves it, and there is none at first ([None]: not found). *)
Inductive http := HttpGet (api : bytes) | HttpPost (body : bytes).

Definition serve (r : http) (c : central) : option bytes * central :=
  match r with
  | HttpGet api => (if bool_decide (GetApi ∈ ce_routes c) then Some (onApi api c) else None, c)
  | HttpPost body =>
      if bool_decide (PostRegister ∈ ce_routes c) then let '(res, c) := onRegisterApi body c in (Some res, c) else (None, c)
  end.

Fixpoint serve_all (rs : list http) (c : central) : central :=
  match rs with [] => c | r :: rs => serve_all rs (snd (serve r c)) end.

(** ** [CentralServClt]: the address, the URL of a query, the body of a registration *)

Definition clt_init (addr serverAddr : bytes) : bytes := if bool_decide (addr = []) then serverAddr else addr.
Definition clt_get_url (serverAddr api : bytes) : bytes := serverAddr ++ lit "/api/" ++ api.
Definition clt_register (api : bytes) (jsonobj : J) : option bytes :=
  make_object [(lit "api", js_of_string api); (lit "data", jsonobj)] js_null ≫= js_dump.
(** The overload that takes text. *)
Definition clt_register_str (api jsonstr : bytes) : option bytes := js_parse jsonstr ≫= clt_register api.
End config.

(** ** Objects *)

Section laws.
Context {J : Type} {JS : Json J} {JL : JsonLaws J}.

(** An object built by assignments of distinct keys has each of them. *)
Lemma make_object_field l o o' : NoDup l.*1 -> make_object l o = Some o' ->
  (forall k v, (k, v) ∈ l -> js_field o' k = Some v) /\ (forall k, k ∉ l.*1 -> js_field o' k = js_field o k).
Proof.
  revert o. induction l as [|[k v] l IH]; intros o Hnd H; cbn [make_object] in H.
  - injection H as <-. split; [|done]. intros k v Hin. by apply elem_of_nil in Hin.
  - destruct (js_assign o k v) as [o1|] eqn:E; [|done]. cbn [mbind option_bind] in H. apply NoDup_cons in Hnd as [Hk Hnd].
    destruct (IH o1 Hnd H) as [H1 H2]. split.
    + intros k' v' [[= -> ->]|Hin]%elem_of_cons; [|by apply H1].
      rewrite H2 by done. rewrite (assign_field _ _ _ _ _ E). by rewrite decide_True.
    + intros k' [Hne Hn]%not_elem_of_cons. cbn in Hne. rewrite H2 by done. rewrite (assign_field _ _ _ _ _ E).
      by rewrite decide_False by done.
Qed.

Lemma make_object_exact l o o' : js_exact o -> Forall (fun p => js_exact (snd p)) l -> make_object l o = Some o' -> js_exact o'.
Proof.
  revert o. induction l as [|[k v] l IH]; intros o Ho Hl H; cbn [make_object] in H; [by injection H as <-|].
  inversion Hl as [|? ? Hv Hl2]; subst. destruct (js_assign o k v) as [o1|] eqn:E; [|done].
  apply (IH o1); [|done|done]. by apply (exact_assign o k v).
Qed.

(** Null takes any fields. *)
Lemma make_object_some l o : (forall k, is_Some (js_field o k)) -> is_Some (make_object l o).
Proof.
  revert o. induction l as [|[k v] l IH]; intros o Ho; cbn [make_object]; [by eexists|].
  destruct (assign_some o k v (Ho k)) as [o1 E]. rewrite E. apply IH. intros k'.
  rewrite (assign_field _ _ _ _ _ E). case_decide; [by eexists|apply Ho].
Qed.

Lemma fill_object n o h p j c : in_uint 16 o -> in_uint 16 p ->
  make_object [(lit "name", js_of_string n); (lit "origin", js_of_int o);
               (lit "host", js_of_string h); (lit "port", js_of_int p)] js_null = Some j ->
  fill j c = (MkConfig n o h p, true).
Proof.
  intros Ho Hp H. apply make_object_field in H as [H _]; [|apply (bool_decide_unpack _); vm_compute; exact I].
  assert (forall z, in_uint 16 z -> in_sint 32 z) as Hr by (unfold in_uint, in_sint; intros; lia).
  unfold fill, get_string, get_ushort.
  rewrite (H _ _ ltac:(left)). cbn [mbind option_bind]. rewrite string_of.
  rewrite (H (lit "origin") (js_of_int o)) by (do 1 right; left). cbn [mbind option_bind]. rewrite int_of by auto. cbn [fmap option_fmap option_map].
  rewrite (H (lit "host") (js_of_string h)) by (do 2 right; left). cbn [mbind option_bind]. rewrite string_of.
  rewrite (H (lit "port") (js_of_int p)) by (do 3 right; left). cbn [mbind option_bind]. rewrite int_of by auto. cbn [fmap option_fmap option_map].
  by rewrite !wrap_id.
Qed.

(** A configuration that is written can be read back; writing fails only where a
    string is no text. *)
Theorem config_roundtrip c junk : in_uint 16 (origin c) -> in_uint 16 (port c) ->
  (exists j, toJson c = Some j) /\ forall s, toJsonStr c = Some s -> config_of junk s = c.
Proof.
  intros Ho Hp. split.
  - apply make_object_some. intros k. rewrite field_null. by eexists.
  - intros s. unfold toJsonStr. destruct (toJson c) as [j|] eqn:Ej; [|done]. cbn [mbind option_bind]. intros Hd.
    unfold config_of. rewrite (parse_dump j s); [|eapply make_object_exact, Ej; [apply exact_null|]|done].
    + unfold toJson in Ej. rewrite (fill_object _ _ _ _ _ _ Ho Hp Ej). by destruct c.
    + repeat constructor; cbn [snd]; first [apply exact_string|apply exact_int].
Qed.

(** Text that is no JSON, or has no name, leaves the origin and the port as the
    memory was. *)
Theorem config_unset junk s :
  js_parse s = None \/ (exists j, js_parse s = Some j /\ js_field j (lit "name") = Some js_null) ->
  config_of junk s = MkConfig [] (fst junk) [] (snd junk).
Proof.
  unfold config_of. intros [-> |(j & -> & Hn)]; [done|]. unfold fill, get_string. rewrite Hn. cbn [mbind option_bind].
  by rewrite string_null.
Qed.
End laws.

(** ** Groups *)

Section groups.
Context {J : Type} {JS : Json J}.

(** The configurations that a value holds, if all of them can be read. *)
Definition read_config (j : J) : option ServerConfig := let '(c, ok) := fill j default_config in if ok then Some c else None.
Definition read_group (j : J) : option (list ServerConfig) :=
  mapM (fun i => js_elem j i ≫= read_config) (seq 0 (js_size j)).

Lemma load_group_read k j ix g :
  load_group k j ix g =
    match mapM (fun i => js_elem j i ≫= read_config) ix with
    | Some cs => (foldl (fun g c => push_config k c g) g cs, true)
    | None => (fst (load_group k j ix g), false)
    end.
Proof.
  revert g. induction ix as [|i ix IH]; intros g; cbn [load_group mapM]; [done|].
  destruct (js_elem j i) as [js|]; [|done]. cbn [mbind option_bind].
  assert (read_config js = let '(c, ok) := fill js default_config in if ok then Some c else None) as -> by done.
  destruct (fill js default_config) as [c ok]. destruct ok; [|done]. cbn [mbind option_bind]. rewrite IH.
  by destruct (mapM _ ix) as [cs|].
Qed.

Lemma push_all k cs g k' :
  foldl (fun g c => push_config k c g) g cs !! k' =
    if decide (k = k' /\ cs <> []) then Some (default [] (g !! k) ++ cs) else g !! k'.
Proof.
  revert g. induction cs as [|c cs IH]; intros g; cbn [foldl].
  - by rewrite decide_False by (by intros []).
  - rewrite IH. unfold push_config at 1 2. destruct (decide (k = k')) as [->|Hne].
    + rewrite (decide_True (P := k' = k' /\ c :: cs <> [])) by done. rewrite lookup_insert_eq. cbn [default].
      destruct cs; [by rewrite decide_False by (by intros [])|]. rewrite decide_True by done. unfold id. by rewrite <- app_assoc.
    + rewrite !decide_False by (by intros []). by rewrite lookup_insert_ne.
Qed.

(** Loading a document replaces what was there. If every entry can be read, each
    type has its servers in the order of the document, and a type without servers
    is not there; an entry that cannot be read ends loading with an error, and
    what was there before is lost. *)
Theorem load_exact str g jRoot :
  js_parse str = Some jRoot -> NoDup (js_items jRoot).*1 ->
  snd (loadFromString str g) = fst (load jRoot) /\
  (fst (loadFromString str g) = 0 \/ fst (loadFromString str g) = -1) /\
  (fst (loadFromString str g) = 0 <-> Forall (fun p => is_Some (read_group (snd p))) (js_items jRoot)) /\
  (fst (loadFromString str g) = 0 -> forall k cs,
     fst (load jRoot) !! k = Some cs <-> exists j, (k, j) ∈ js_items jRoot /\ read_group j = Some cs /\ cs <> []).
Proof.
  intros Hp Hnd. unfold loadFromString, load. rewrite Hp.
  assert (forall l g0, NoDup l.*1 ->
    (snd (load_items l g0) = true <-> Forall (fun p => is_Some (read_group (snd p))) l) /\
    ((forall k, k ∈ l.*1 -> g0 !! k = None) -> snd (load_items l g0) = true -> forall k cs,
       fst (load_items l g0) !! k = Some cs <-> g0 !! k = Some cs \/ exists j, (k, j) ∈ l /\ read_group j = Some cs /\ cs <> [])) as H.
  { induction l as [|[key value] l IH]; intros g0 Hl; cbn [load_items].
    - split; [by split|]. intros _ _ k cs. split; [by left|]. intros [?|(j & Hin & _)]; [done|]. by apply elem_of_nil in Hin.
    - cbn in Hl. apply NoDup_cons in Hl as [Hk Hl]. rewrite load_group_read. fold (read_group value).
      destruct (read_group value) as [vs|] eqn:Ev.
      2: { cbn [snd]. split; [|done]. split; [done|]. intros Hf. inversion Hf as [|? ? [x Hx] _]; subst. cbn in Hx. congruence. }
      destruct (IH (foldl (fun g c => push_config key c g) g0 vs) Hl) as [H1 H2]. rewrite H1, Forall_cons. cbn [snd].
      rewrite Ev. split; [split; [by split|by intros []]|]. intros Hg Hf k cs. rewrite H2; [|intros k' Hk'|by apply H1].
      2: { rewrite push_all, decide_False by (intros [-> _]; done). apply Hg. cbn. by right. }
      rewrite push_all. assert (g0 !! key = None) as Hnone by (apply Hg; cbn; by left). rewrite Hnone. cbn [default app].
      setoid_rewrite elem_of_cons. case_decide as Hd.
      + destruct Hd as [-> Hne]. split.
        * intros [[= ->]|(j & Hin & _)]; [right; exists value; split; [by left|by split]|].
          destruct Hk. apply list_elem_of_fmap. by exists (k, j).
        * intros [?|(j & [[= <-]|Hin] & Hj & Hne')]; [congruence|left; congruence|].
          right. exists j. by split.
      + split.
        * intros [?|(j & Hin & Hj & Hne)]; [by left|right; exists j; split; [by right|by split]].
        * intros [?|(j & [[= -> <-]|Hin] & Hj & Hne)]; [by left| |right; by exists j].
          destruct Hd. split; [done|congruence]. }
  destruct (H (js_items jRoot) ∅ Hnd) as [H1 H2]. clear H. destruct (load_items (js_items jRoot) ∅) as [g1 ok]. cbn [fst snd] in *.
  split; [done|]. split; [destruct ok; [by left|by right]|]. rewrite <- H1. split; [by destruct ok|].
  intros E k cs. rewrite H2; [|by intros; apply lookup_empty|by destruct ok]. rewrite lookup_empty. split; [|by right]. by intros [?|?].
Qed.

(** A file that is missing, or text that is no JSON, changes nothing. *)
Theorem load_rejected g str : js_parse str = None ->
  loadFromFile None g = (-2, g) /\ loadFromFile (Some str) g = (-1, g) /\ loadFromString str g = (-1, g).
Proof. intros H. unfold loadFromFile, loadFromString. by rewrite H. Qed.

(** ** The central server *)

(** What a reader is told: the last registration that was accepted. *)
Fixpoint last_data (api : bytes) (rs : list http) : option bytes :=
  match rs with
  | [] => None
  | r :: rs =>
      match last_data api rs, r with
      | Some d, _ => Some d
      | None, HttpPost body => match extractApiAndData body with Some (a, d) => if decide (a = api) then Some d else None | None => None end
      | None, HttpGet _ => None
      end
  end.
Definition accepted (rs : list http) : nat :=
  length (filter (fun r => is_Some (match r with HttpPost body => extractApiAndData body | HttpGet _ => None end)) rs).

Lemma serve_all_state rs c : PostRegister ∈ ce_routes c ->
  (forall api, ce_api2data (serve_all rs c) !! api = match last_data api rs with Some d => Some d | None => ce_api2data c !! api end) /\
  ce_routes (serve_all rs c) = ce_routes c ++ replicate (accepted rs) GetApi.
Proof.
  revert c. unfold accepted. induction rs as [|r rs IH]; intros c Hc; cbn [serve_all last_data].
  - split; [done|]. by rewrite filter_nil, app_nil_r.
  - rewrite filter_cons. destruct r as [api|body]; cbn [serve snd].
    + rewrite decide_False by (by intros [? ?]). destruct (IH c Hc) as [H1 H2]. split; [|done].
      intros a. rewrite H1. by destruct (last_data a rs).
    + rewrite bool_decide_true by done. unfold onRegisterApi. destruct (extractApiAndData body) as [[a d]|] eqn:E; cbn [snd].
      * rewrite decide_True by (by eexists). destruct (IH (set a d c)) as [H1 H2]; [unfold set; cbn; set_solver|]. split.
        -- intros a'. rewrite H1. destruct (last_data a' rs); [done|]. cbn [set ce_api2data]. rewrite lookup_insert. by case_decide.
        -- rewrite H2. cbn [set ce_routes length replicate]. by rewrite <- app_assoc.
      * rewrite decide_False by (by intros [? ?]). destruct (IH c Hc) as [H1 H2]. split; [|done].
        intros a'. rewrite H1. by destruct (last_data a' rs).
Qed.

(** Whatever requests came before: a query is not found before the first
    registration was accepted; after that it is told the data of the last one
    for its name, or "None". Each registration adds another handler for the
    same path, of which only the first is used. *)
Theorem central_serves rs api :
  let c := serve_all rs (registerApi new_central) in
  fst (serve (HttpGet api) c) =
    (if bool_decide (accepted rs = 0%nat) then None else Some (default (lit "None") (last_data api rs))) /\
  snd (serve (HttpGet api) c) = c /\ length (ce_routes c) = S (accepted rs).
Proof.
  intros c. assert (PostRegister ∈ ce_routes (registerApi new_central)) as Hin by (cbn; set_solver).
  destruct (serve_all_state rs (registerApi new_central) Hin) as [H1 H2]. fold c in H1, H2. split; [|split; [done|]].
  - cbn [serve fst]. rewrite H2. cbn [registerApi new_central ce_routes app]. unfold onApi. rewrite H1. cbn [registerApi new_central ce_api2data].
    rewrite lookup_empty. destruct (accepted rs) as [|n] eqn:Ea.
    + rewrite (bool_decide_true (0%nat = 0%nat)) by done. rewrite bool_decide_false; [done|]. cbn [replicate]. set_solver.
    + rewrite (bool_decide_false (S n = 0%nat)) by done. rewrite bool_decide_true by (cbn [replicate]; set_solver).
      by destruct (last_data api rs).
  - rewrite H2. cbn [registerApi new_central ce_routes app length]. by rewrite length_replicate.
Qed.

Context {JL : JsonLaws J}.

(** What the client registers, a query returns, as it is written. *)
Theorem register_then_get rs api obj body text :
  js_exact obj -> clt_register api obj = Some body -> js_dump obj = Some text ->
  let c := serve_all rs (registerApi new_central) in
  let '(res, c1) := serve (HttpPost body) c in
  res = Some (lit "OK") /\ fst (serve (HttpGet api) c1) = Some text /\
  forall api', api' <> api -> ce_api2data c1 !! api' = ce_api2data c !! api'.
Proof.
  intros Hx Hb Ht c. assert (extractApiAndData body = Some (api, text)) as E.
  { unfold clt_register in Hb. destruct (make_object _ js_null) as [j|] eqn:Ej; [|done]. cbn [mbind option_bind] in Hb.
    unfold extractApiAndData. rewrite (parse_dump j); [|eapply make_object_exact, Ej; [apply exact_null|]|done].
    2: { repeat constructor; cbn [snd]; [apply exact_string|done]. }
    cbn [mbind option_bind]. apply make_object_field in Ej as [Hf _]; [|apply (bool_decide_unpack _); vm_compute; exact I].
    unfold get_string. rewrite (Hf (lit "api") (js_of_string api)) by left. cbn [mbind option_bind]. rewrite string_of.
    rewrite (Hf (lit "data") obj) by (right; left). cbn [mbind option_bind]. by rewrite Ht. }
  assert (PostRegister ∈ ce_routes c) as Hc.
  { unfold c. destruct (serve_all_state rs (registerApi new_central)) as [_ ->]; cbn; set_solver. }
  cbn [serve]. rewrite bool_decide_true by done. unfold onRegisterApi. rewrite E. cbn [fst serve set ce_routes ce_api2data].
  split; [done|]. split.
  - rewrite bool_decide_true by set_solver. unfold onApi, set. cbn [ce_api2data]. by rewrite lookup_insert_eq.
  - intros api' Hne. by apply lookup_insert_ne.
Qed.
End groups.

(** ** A JSON for the witnesses *)

(** Leaves are strings and integers; a node is null (0), an array (2), an object
    (1) whose children are the members (3). The text is the digits of the code of
    the tree. *)
Definition tree : Type := gen_tree (bytes + Z).

Fixpoint digits_of (p : positive) : bytes :=
  match p with xH => [x31] | xO p => x30 :: digits_of p | xI p => x32 :: digits_of p end.
Fixpoint of_digits (s : bytes) : option positive :=
  match s with
  | [] => None
  | b :: s =>
      if bool_decide (b = x31) then (if bool_decide (s = []) then Some xH else None)
      else if bool_decide (b = x30) then xO <$> of_digits s
      else if bool_decide (b = x32) then xI <$> of_digits s
      else None
  end.

Lemma of_digits_of p : of_digits (digits_of p) = Some p.
Proof. by induction p as [p IH|p IH|]; cbn; rewrite ?IH. Qed.

Definition member (k : bytes) (v : tree) : tree := GenNode 3 [GenLeaf (inl k); v].
Definition member_of (m : tree) : option (bytes * tree) :=
  match m with GenNode 3 [GenLeaf (inl k); v] => Some (k, v) | _ => None end.
Definition has_key (k : bytes) (m : tree) : bool := match member_of m with Some (k', _) => bool_decide (k' = k) | None => false end.
Fixpoint find_member (k : bytes) (l : list tree) : option tree :=
  match l with [] => None | m :: l => if has_key k m then snd <$> member_of m else find_member k l end.
Fixpoint put_member (k : bytes) (v : tree) (l : list tree) : list tree :=
  match l with [] => [member k v] | m :: l => if has_key k m then member k v :: l else m :: put_member k v l end.

Lemma has_key_member k v k' : has_key k' (member k v) = bool_decide (k = k').
Proof. done. Qed.

Lemma find_put k v l k' : find_member k' (put_member k v l) = if decide (k = k') then Some v else find_member k' l.
Proof.
  induction l as [|m l IH]; cbn [find_member put_member].
  - rewrite has_key_member. case_bool_decide; by case_decide.
  - destruct (has_key k m) eqn:Em; cbn [find_member].
    + rewrite has_key_member. destruct (decide (k = k')) as [->|Hne]; [by rewrite bool_decide_true|].
      rewrite bool_decide_false by done. unfold has_key in *. destruct (member_of m) as [[k0 v0]|]; [|done].
      apply bool_decide_eq_true in Em as ->. by rewrite bool_decide_false.
    + rewrite IH. destruct (has_key k' m) eqn:Em'; [|done]. case_decide as Hd; [|done]. congruence.
Qed.

#[export] Instance tree_json : Json tree := {
  js_null := GenNode 0 [];
  js_parse s := of_digits s ≫= decode;
  js_dump j := Some (digits_of (encode j));
  js_field j k := match j with
    | GenNode 0 _ => Some (GenNode 0 [])
    | GenNode 1 l => Some (default (GenNode 0 []) (find_member k l))
    | _ => None
    end;
  js_assign j k v := match j with
    | GenNode 0 _ => Some (GenNode 1 [member k v])
    | GenNode 1 l => Some (GenNode 1 (put_member k v l))
    | _ => None
    end;
  js_size j := match j with GenLeaf _ => 1%nat | GenNode 0 _ => 0%nat | GenNode _ l => length l end;
  js_elem j i := match j with GenNode 2 l => l !! i | _ => None end;
  js_items j := match j with GenNode 1 l => omap member_of l | _ => [] end;
  js_string j := match j with GenLeaf (inl s) => Some s | _ => None end;
  js_int j := match j with GenLeaf (inr z) => Some z | _ => None end;
  js_of_string s := GenLeaf (inl s);
  js_of_int z := GenLeaf (inr z);
  js_exact _ := True;
}.

#[export] Instance tree_laws : JsonLaws tree.
Proof.
  constructor; cbn [js_null js_parse js_dump js_field js_assign js_string js_int js_of_string js_of_int js_exact tree_json]; try done.
  - intros j s _ [= <-]. rewrite of_digits_of. cbn [mbind option_bind]. apply decode_encode.
  - intros o k v. destruct o as [|[|[|n]] l]; intros [x Hx]; try done; by eexists.
  - intros o k v o' k'. destruct o as [|[|[|n]] l]; intros [= <-].
    + cbn [find_member]. rewrite has_key_member. case_bool_decide; by case_decide.
    + rewrite find_put. by case_decide.
Qed.

Definition demo_config : ServerConfig := MkConfig (lit "gate") 1 (lit "127.0.0.1") 9000.

Lemma config_roundtrip_witness : exists s, toJsonStr demo_config = Some s /\ config_of (7, 7) s = demo_config.
Proof.
  destruct (config_roundtrip demo_config (7, 7)) as [[j Hj] H]; [unfold in_uint; cbn; lia..|].
  exists (digits_of (encode j)). assert (toJsonStr demo_config = Some (digits_of (encode j))) as E by (unfold toJsonStr; by rewrite Hj).
  split; [exact E|by apply H].
Defined.

Lemma config_unset_witness : config_of (7, 8) (lit "no json") = MkConfig [] 7 [] 8.
Proof. apply (config_unset (7, 8)). left. by vm_compute. Defined.

Definition demo_server (p : Z) : tree := default (GenNode 0 []) (toJson (MkConfig (lit "s") 2 (lit "h") p)).
Definition demo_root : tree := GenNode 1 [member (lit "gate") (GenNode 2 [demo_server 1; demo_server 2]); member (lit "none") (GenNode 2 [])].
Definition demo_text : bytes := digits_of (encode demo_root).

Lemma demo_parse : js_parse demo_text = Some demo_root.
Proof. apply parse_dump; done. Qed.

Lemma load_exact_witness :
  fst (load demo_root) = {[ lit "gate" := [MkConfig (lit "s") 2 (lit "h") 1; MkConfig (lit "s") 2 (lit "h") 2] ]} /\
  fst (loadFromString demo_text ∅) = 0 /\ snd (loadFromString demo_text ∅) = fst (load demo_root).
Proof.
  destruct (load_exact demo_text ∅ demo_root demo_parse) as (H1 & _ & H2 & _).
  { apply (bool_decide_unpack _). vm_compute. exact I. }
  split; [by vm_compute|]. split; [|exact H1]. apply H2. repeat constructor; by eexists; vm_compute.
Defined.

(** An entry that cannot be read: the groups that were loaded before are gone. *)
Example bad_entry_loses_groups :
  loadFromString (digits_of (encode (GenNode 1 [member (lit "gate") (GenNode 2 [GenNode 0 []])] : tree)))
    {[ lit "old" := [demo_config] ]} = (-1, ∅).
Proof. by vm_compute. Qed.

Lemma load_rejected_witness :
  let g := {[ lit "old" := [demo_config] ]} in
  loadFromFile None g = (-2, g) /\ loadFromFile (Some (lit "no json")) g = (-1, g) /\ loadFromString (lit "no json") g = (-1, g).
Proof. intros g. apply load_rejected. by vm_compute. Defined.

Lemma register_then_get_witness : exists body,
  clt_register (lit "db") (GenLeaf (inr 5) : tree) = Some body /\
  let '(res, c1) := serve (HttpPost body) (registerApi new_central) in
  res = Some (lit "OK") /\ fst (serve (HttpGet (lit "db")) c1) = js_dump (GenLeaf (inr 5) : tree) /\
  forall api', api' <> lit "db" -> ce_api2data c1 !! api' = ce_api2data (registerApi new_central) !! api'.
Proof. eexists. split; [reflexivity|]. by eapply (register_then_get []). Defined.
