(* ===== verification/Encode.v ===== *)
(** * Digests, hexadecimal and base64 ([fszm/openssl_utils_v2.hpp])

    The part of [openssl_utils] that turns data into text. OpenSSL's block
    encoder and decoder, its base64 filter, its digests and its reader of keys are
    the interface [OpensslText], with the documented laws in [Base64Laws];
    [real_base64] is a concrete encoder for the witnesses. [None] is undefined
    behaviour or an uncaught exception. *)

From Stdlib Require Import Strings.String.
From S2P Require Import Prelude Text.

Inductive EVP_MD := EVP_md5 | EVP_sha1 | EVP_sha224 | EVP_sha256 | EVP_sha384 | EVP_sha512 | EVP_ripemd160.

Class OpensslText (Key : Type) := {
  EVP_Digest : EVP_MD -> bytes -> bytes;
  EVP_EncodeBlock : bytes -> bytes;                  (* without the final NUL *)
  EVP_DecodeBlock : bytes -> option bytes;           (* None: -1 *)
  (* what a base64 BIO writes, what is read from one and the result of BIO_read;
     the flag is that lines are broken *)
  BIO_base64_write : bool -> bytes -> bytes;
  BIO_base64_read : bool -> bytes -> bytes * Z;
  PEM_read_PUBKEY : bytes -> option Key;
  PEM_read_PrivateKey : bytes -> option Key;
}.

Definition EVP_ENCODE_LENGTH (l : Z) : Z := (l + 2) / 3 * 4 + (l / 48 + 1) * 2 + 80.
Definition EVP_DECODE_LENGTH (l : Z) : Z := (l + 3) / 4 * 3 + 80.

(** ** Hexadecimal *)

(** [sprintf(sep, upper ? "%02X" : "%02x", data[i])]. *)
Definition hex_digit (upper : bool) (d : Z) : byte := byte_of_Z (if d <? 10 then 48 + d else (if upper then 55 else 87) + d).
Definition hex_byte (upper : bool) (b : byte) : bytes :=
  [hex_digit upper (Z_of_byte b / 16); hex_digit upper (Z_of_byte b mod 16)].

Definition hex2string (data : option bytes) (upper : bool) : bytes :=
  match data with None => [] | Some d => flat_map (hex_byte upper) d end.

(** What a reader makes of it, in either case. *)
Definition hex_value (c : byte) : option Z :=
  let z := Z_of_byte c in
  if (48 <=? z) && (z <=? 57) then Some (z - 48)
  else if (65 <=? z) && (z <=? 70) then Some (z - 55)
  else if (97 <=? z) && (z <=? 102) then Some (z - 87)
  else None.
Fixpoint unhex (s : bytes) : option bytes :=
  match s with
  | [] => Some []
  | [_] => None
  | a :: b :: s => x ← hex_value a; y ← hex_value b; l ← unhex s; Some (byte_of_Z (16 * x + y) :: l)
  end.

Lemma hex_byte_value upper (b : byte) s :
  unhex (hex_byte upper b ++ s) = l ← unhex s; Some (b :: l).
Proof.
  unfold hex_byte. cbn [unhex app].
  assert (forall d, 0 <= d < 16 -> hex_value (hex_digit upper d) = Some d) as Hd.
  { intros d Hd. assert (d ∈ [0;1;2;3;4;5;6;7;8;9;10;11;12;13;14;15]) as Hin.
    { assert (d = 0 \/ d = 1 \/ d = 2 \/ d = 3 \/ d = 4 \/ d = 5 \/ d = 6 \/ d = 7 \/ d = 8 \/ d = 9 \/ d = 10 \/ d = 11 \/ d = 12 \/
        d = 13 \/ d = 14 \/ d = 15) by lia. set_solver. }
    clear Hd. revert d Hin. apply (Forall_forall (fun d => hex_value (hex_digit upper d) = Some d)). by destruct upper; repeat constructor. }
  pose proof (Z_of_byte_range b). rewrite !Hd by (try apply Z.mod_pos_bound; try (split; [apply Z.div_pos|apply Z.div_lt_upper_bound]); lia).
  cbn. destruct (unhex s) as [l|]; [|done]. cbn. do 2 f_equal.
  rewrite <- (Z.div_mod (Z_of_byte b) 16) by lia. apply byte_of_Z_of_byte.
Qed.

(** The text has two digits for each byte and can be read back: no two data
    have the same. *)
Theorem hex_roundtrip d upper :
  unhex (hex2string (Some d) upper) = Some d /\ size_of (hex2string (Some d) upper) = 2 * size_of d.
Proof.
  unfold hex2string. induction d as [|b d [IH1 IH2]]; [done|]. cbn [flat_map]. split.
  - by rewrite hex_byte_value, IH1.
  - rewrite size_of_app, IH2, size_of_cons. change (size_of (hex_byte upper b)) with 2. lia.
Qed.

(** ** Digests, base64, keys *)

Section text.
Context {Key : Type} {OT : OpensslText Key}.

Definition evp_digest_op (md : EVP_MD) (data : option bytes) (upper : bool) : bytes :=
  match data with None => [] | Some d => hex2string (Some (EVP_Digest md d)) upper end.

Definition md5_str (str : bytes) : bytes := evp_digest_op EVP_md5 (Some str) true.
Definition md5 := evp_digest_op EVP_md5.
Definition sha1_str (str : bytes) : bytes := evp_digest_op EVP_sha1 (Some str) true.
Definition sha1 := evp_digest_op EVP_sha1.
Definition sha224 := evp_digest_op EVP_sha224.
Definition sha256 := evp_digest_op EVP_sha256.
Definition sha384 := evp_digest_op EVP_sha384.
Definition sha512 := evp_digest_op EVP_sha512.
Definition ripemd160 := evp_digest_op EVP_ripemd160.

(** [base64Encode] and [base64Decode]: the buffer, which ends with a [NUL], and
    [outLen]. *)
Definition base64Encode (buffer : option bytes) (newLine : bool) : option bytes * Z :=
  match buffer with
  | None => (None, 0)
  | Some d => let out := BIO_base64_write newLine d in (Some (out ++ [x00]), size_of out)
  end.
Definition base64Decode (input : option bytes) (newLine : bool) : option bytes * Z :=
  match input with
  | None => (None, 0)
  | Some d =>
      let '(out, n) := BIO_base64_read newLine d in
      (Some (out ++ replicate (length d + 1 - length out) x00), n)
  end.

(** [out.resize(n)]; more than the longest string is an exception. *)
Definition resize (n : Z) (s : bytes) : option bytes :=
  if n <? 0 then None else Some (take (Z.to_nat n) s ++ replicate (Z.to_nat n - length s) x00).

(** The block functions write to a string of the given length; with more to
    write they overrun it. *)
Definition base64_encode (input : bytes) : option bytes :=
  if bool_decide (input = []) then Some []
  else
    let out_len := EVP_ENCODE_LENGTH (size_of input) in
    let block := EVP_EncodeBlock input in
    if out_len <? size_of block then None
    else
      out ← resize (size_of block) (block ++ replicate (Z.to_nat out_len - length block) x00);
      Some (if bool_decide (last out = Some x0a) then removelast out else out).

Definition is_pad (input : bytes) (k : nat) : bool := bool_decide (input !! (length input - S k)%nat = Some x3d).

Definition base64_decode (input : bytes) : option bytes :=
  if bool_decide (input = []) then Some []
  else
    let padding := (if is_pad input 0 then 1 else 0) + (if (2 <=? size_of input) && is_pad input 1 then 1 else 0) in
    let out_len := EVP_DECODE_LENGTH (size_of input) in
    match EVP_DecodeBlock input with
    | None => resize (-1 - padding) (replicate (Z.to_nat out_len) x00)
    | Some d =>
        if out_len <? size_of d then None
        else resize (size_of d - padding) (d ++ replicate (Z.to_nat out_len - length d) x00)
    end.

(** [load_pkey]: [file] is what can be read under the path, if it can be opened. *)
Definition load_pkey (file_path : option bytes) (fopen : bytes -> option bytes) (public_key : bool) : option Key :=
  match file_path with
  | None => None
  | Some path =>
      match fopen (c_str path) with
      | None => None
      | Some file => if public_key then PEM_read_PUBKEY file else PEM_read_PrivateKey file
      end
  end.
Definition load_rsa_key := load_pkey.
Definition load_dsa_key := load_pkey.

(** [free_pkey]: the key that is freed, and what the pointer points to then. *)
Definition free_pkey (key : option (option Key)) : option Key * option (option Key) :=
  match key with None => (None, None) | Some k => (k, Some None) end.
Definition free_rsa_key := free_pkey.
Definition free_dsa_key := free_pkey.
Definition dh_destroy := free_pkey.
Definition ecc_destroy := free_pkey.

(** Padding, as base64 has it. *)
Definition pad_of (n : Z) : Z := (3 - n mod 3) mod 3.

(** OpenSSL: the encoder writes four characters for each three bytes begun, of
    which the last ones are the padding and no other is [=] or a new line; the
    decoder gives the bytes back, with a zero for each character of padding. *)
Class Base64Laws : Prop := {
  encode_size d : size_of (EVP_EncodeBlock d) = (size_of d + 2) / 3 * 4;
  encode_tail d : exists body, EVP_EncodeBlock d = body ++ replicate (Z.to_nat (pad_of (size_of d))) x3d /\
    (x3d ∉ body) /\ (x0a ∉ body);
  decode_encode d : EVP_DecodeBlock (EVP_EncodeBlock d) = Some (d ++ replicate (Z.to_nat (pad_of (size_of d))) x00);
}.
End text.

Section base64.
Context {Key : Type} {OT : OpensslText Key} {BL : Base64Laws}.

Lemma resize_front s k n : n = size_of s -> resize n (s ++ k) = Some s.
Proof.
  intros ->. unfold resize. pose proof (size_of_nonneg s). rewrite (proj2 (Z.ltb_ge _ _)) by lia. f_equal.
  rewrite take_size_app. unfold size_of. rewrite Nat2Z.id, length_app. replace (length s - (length s + length k))%nat with O by lia.
  apply app_nil_r.
Qed.

Lemma pad_range n : 0 <= pad_of n <= 2.
Proof. unfold pad_of. pose proof (Z.mod_pos_bound (3 - n mod 3) 3). lia. Qed.

(** The whole text of the encoder. *)
Lemma encode_whole d : d <> [] -> base64_encode d = Some (EVP_EncodeBlock d).
Proof.
  intros Hd. unfold base64_encode. rewrite bool_decide_false by done. pose proof (encode_size d) as Hs.
  pose proof (size_of_nonneg d). assert (0 <= size_of d / 48) by (apply Z.div_pos; lia).
  rewrite (proj2 (Z.ltb_ge _ _)) by (rewrite Hs; unfold EVP_ENCODE_LENGTH; lia).
  rewrite resize_front by done. cbn [mbind option_bind].
  destruct (encode_tail d) as (body & Eb & _ & Hn). rewrite bool_decide_false; [done|].
  intros Hl. rewrite Eb in Hl. apply last_Some in Hl as (l & Hl).
  assert (x0a ∈ body ++ replicate (Z.to_nat (pad_of (size_of d))) x3d) as Hin by (rewrite Hl; set_solver).
  apply elem_of_app in Hin as [Hin|Hin]; [done|]. by apply elem_of_replicate in Hin as [? _].
Qed.

(** The padding that [base64_decode] counts is that of the encoder. *)
Lemma count_pads body n :
  (x3d ∉ body) -> 0 <= n <= 2 -> 2 <= size_of (body ++ replicate (Z.to_nat n) x3d) -> (n = 2 \/ body <> []) ->
  let input := body ++ replicate (Z.to_nat n) x3d in
  (if is_pad input 0 then 1 else 0) + (if (2 <=? size_of input) && is_pad input 1 then 1 else 0) = n.
Proof.
  intros Hb Hn Hsz Hne input. fold input in Hsz. rewrite (proj2 (Z.leb_le _ _) Hsz). cbn [andb].
  assert (forall k, (k < length input)%nat -> is_pad input k = (Z.of_nat k <? n)) as Hk; cycle 1.
  { unfold size_of in Hsz. rewrite !Hk by lia. change (Z.of_nat 0) with 0. change (Z.of_nat 1) with 1. 
    destruct (Z.ltb_spec 0 n), (Z.ltb_spec 1 n); lia. }
  intros k Hlt. unfold is_pad. destruct (Z.ltb_spec (Z.of_nat k) n) as [Hlow|Hhigh].
  - apply bool_decide_true. unfold input in *. rewrite length_app, length_replicate in *.
    rewrite lookup_app_r by lia. apply lookup_replicate. split; [done|lia].
  - apply bool_decide_false. intros Hp. unfold input in *. rewrite length_app, length_replicate in *.
    rewrite lookup_app_l in Hp by lia. apply Hb. by eapply list_elem_of_lookup_2.
Qed.

(** What [base64_encode] makes of any data, [base64_decode] turns back, with the
    length restored; neither overruns the string it hands to OpenSSL. *)
Theorem base64_roundtrip d : exists text, base64_encode d = Some text /\ base64_decode text = Some d.
Proof.
  destruct (decide (d = [])) as [->|Hd]; [by exists []|]. exists (EVP_EncodeBlock d). split; [by apply encode_whole|].
  pose proof (encode_size d) as Hs. pose proof (size_of_nonneg d). pose proof (pad_range (size_of d)) as Hp.
  assert (0 < size_of d) as Hpos by (destruct d; [done|rewrite size_of_cons; pose proof (size_of_nonneg d); lia]).
  assert (4 <= size_of (EVP_EncodeBlock d)) as H4.
  { rewrite Hs. pose proof (Z.div_le_lower_bound (size_of d + 2) 3 1 ltac:(lia) ltac:(lia)). lia. }
  unfold base64_decode. rewrite bool_decide_false by (intros E; rewrite E, size_of_nil in H4; lia).
  destruct (encode_tail d) as (body & Eb & Hn & _).
  assert ((if is_pad (EVP_EncodeBlock d) 0 then 1 else 0) +
    (if (2 <=? size_of (EVP_EncodeBlock d)) && is_pad (EVP_EncodeBlock d) 1 then 1 else 0) = pad_of (size_of d)) as Hc.
  { rewrite Eb in *. apply count_pads; [done|done|lia|]. right. intros ->. rewrite app_nil_l in H4. unfold size_of in H4 at 1.
    rewrite length_replicate in H4. lia. }
  rewrite Hc, decode_encode.
  assert (size_of (d ++ replicate (Z.to_nat (pad_of (size_of d))) x00) = size_of d + pad_of (size_of d)) as Hsd.
  { rewrite size_of_app. unfold size_of at 2. rewrite length_replicate. lia. }
  rewrite Hsd. rewrite (proj2 (Z.ltb_ge _ _)).
  - rewrite <- app_assoc. apply resize_front. lia.
  - unfold EVP_DECODE_LENGTH. rewrite Hs. rewrite (Z.add_comm (_ * 4)), Z.div_add by lia. change (3 / 4) with 0.
    pose proof (Z.div_mod (size_of d + 2) 3 ltac:(lia)). pose proof (Z.mod_pos_bound (size_of d + 2) 3 ltac:(lia)). unfold pad_of.
    pose proof (Z.mod_pos_bound (3 - size_of d mod 3) 3 ltac:(lia)). lia.
Qed.

(** Text that the decoder refuses, a length that is no multiple of four for
    one, ends in an exception instead of a result. *)
Theorem base64_invalid_throws text : text <> [] -> EVP_DecodeBlock text = None -> base64_decode text = None.
Proof.
  intros Ht Hd. unfold base64_decode. rewrite bool_decide_false, Hd by done. unfold resize.
  rewrite (proj2 (Z.ltb_lt _ _)); [done|]. destruct (is_pad text 0), ((2 <=? size_of text) && is_pad text 1); lia.
Qed.
End base64.

(** ** A base64 for the witnesses *)

Definition alphabet : bytes := lit "ABCDEFGHIJKLMNOPQRSTUVWXYZabcdefghijklmnopqrstuvwxyz0123456789+/".
Definition b64_char (v : Z) : byte := nth (Z.to_nat v) alphabet x00.
(** As OpenSSL's decoder, which takes [=] for a zero. *)
Definition b64_value (c : byte) : option Z :=
  if bool_decide (c = x3d) then Some 0
  else match list_find (eq c) alphabet with Some (i, _) => Some (Z.of_nat i) | None => None end.

Fixpoint b64_write (d : bytes) : bytes :=
  match d with
  | [] => []
  | [a] => let a := Z_of_byte a in [b64_char (a / 4); b64_char (a mod 4 * 16); x3d; x3d]
  | [a; b] =>
      let a := Z_of_byte a in let b := Z_of_byte b in
      [b64_char (a / 4); b64_char (a mod 4 * 16 + b / 16); b64_char (b mod 16 * 4); x3d]
  | a :: b :: c :: d =>
      let a := Z_of_byte a in let b := Z_of_byte b in let c := Z_of_byte c in
      b64_char (a / 4) :: b64_char (a mod 4 * 16 + b / 16) :: b64_char (b mod 16 * 4 + c / 64) :: b64_char (c mod 64) :: b64_write d
  end.

Fixpoint b64_read (s : bytes) : option bytes :=
  match s with
  | [] => Some []
  | p :: q :: r :: t :: s =>
      p ← b64_value p; q ← b64_value q; r ← b64_value r; t ← b64_value t; l ← b64_read s;
      Some (byte_of_Z (p * 4 + q / 16) :: byte_of_Z (q mod 16 * 16 + r / 4) :: byte_of_Z (r mod 4 * 64 + t) :: l)
  | _ => None
  end.

(** Blanks before the text and line ends after it are skipped. *)
Fixpoint b64_skip (l : bytes) : bytes :=
  match l with
  | c :: l' => if existsb (fun x => bool_decide (x = c)) [x20; x09; x0a; x0d] then b64_skip l' else l
  | [] => []
  end.
Definition b64_trim (s : bytes) : bytes := reverse (b64_skip (reverse (b64_skip s))).

#[export] Instance real_base64 : OpensslText unit := {
  EVP_Digest _ _ := [];
  EVP_EncodeBlock := b64_write;
  EVP_DecodeBlock s := b64_read (b64_trim s);
  BIO_base64_write _ := b64_write;
  BIO_base64_read _ s := match b64_read s with Some d => (d, size_of d) | None => ([], -1) end;
  PEM_read_PUBKEY _ := Some tt;
  PEM_read_PrivateKey _ := None;
}.

(** The six-bit values. *)
Definition sextets : list Z := Z.of_nat <$> seq 0 64.

Lemma sextet_in v : 0 <= v < 64 -> v ∈ sextets.
Proof.
  intros Hv. apply list_elem_of_fmap. exists (Z.to_nat v). split; [lia|]. apply elem_of_seq. lia.
Qed.

Lemma b64_char_ok v : 0 <= v < 64 ->
  b64_value (b64_char v) = Some v /\ b64_char v <> x3d /\ existsb (fun x => bool_decide (x = b64_char v)) [x20; x09; x0a; x0d] = false.
Proof.
  intros Hv%sextet_in. revert v Hv.
  apply (Forall_forall (fun v => b64_value (b64_char v) = Some v /\ b64_char v <> x3d /\
    existsb (fun x => bool_decide (x = b64_char v)) [x20; x09; x0a; x0d] = false)).
  apply (bool_decide_unpack _). vm_compute. exact I.
Qed.

(** Data taken three bytes at a time. *)
Lemma triple_ind (P : bytes -> Prop) :
  P [] -> (forall a, P [a]) -> (forall a b, P [a; b]) -> (forall a b c d, P d -> P (a :: b :: c :: d)) -> forall d, P d.
Proof.
  intros H0 H1 H2 H3 d. induction d as [d IH] using (induction_ltof1 _ (@length byte)).
  destruct d as [|a [|b [|c d]]]; [done|done|done|]. apply H3, IH. unfold ltof. cbn. lia.
Qed.

(** Each character that [b64_write] computes stands for six bits. *)
Lemma sextets_of (a b c : byte) :
  let a := Z_of_byte a in let b := Z_of_byte b in let c := Z_of_byte c in
  0 <= a / 4 < 64 /\ 0 <= a mod 4 * 16 < 64 /\ 0 <= a mod 4 * 16 + b / 16 < 64 /\ 0 <= b mod 16 * 4 < 64 /\
  0 <= b mod 16 * 4 + c / 64 < 64 /\ 0 <= c mod 64 < 64.
Proof.
  intros a' b' c'. pose proof (Z_of_byte_range a). pose proof (Z_of_byte_range b). pose proof (Z_of_byte_range c).
  fold a' in H. fold b' in H0. fold c' in H1.
  pose proof (Z.mod_pos_bound a' 4 ltac:(lia)). pose proof (Z.mod_pos_bound b' 16 ltac:(lia)). pose proof (Z.mod_pos_bound c' 64 ltac:(lia)).
  pose proof (Z.div_mod a' 4 ltac:(lia)). pose proof (Z.div_mod b' 16 ltac:(lia)). pose proof (Z.div_mod c' 64 ltac:(lia)). lia.
Qed.

(** The three bytes that four of them give back. *)
Lemma join_sextets (a b c : byte) :
  let x := Z_of_byte a in let y := Z_of_byte b in let z := Z_of_byte c in
  byte_of_Z (x / 4 * 4 + (x mod 4 * 16 + y / 16) / 16) = a /\
  byte_of_Z ((x mod 4 * 16 + y / 16) mod 16 * 16 + (y mod 16 * 4 + z / 64) / 4) = b /\
  byte_of_Z ((y mod 16 * 4 + z / 64) mod 4 * 64 + z mod 64) = c.
Proof.
  intros x y z. pose proof (Z_of_byte_range a). pose proof (Z_of_byte_range b). pose proof (Z_of_byte_range c).
  fold x in H. fold y in H0. fold z in H1.
  pose proof (Z.mod_pos_bound y 16 ltac:(lia)). pose proof (Z.mod_pos_bound z 64 ltac:(lia)).
  pose proof (Z.div_mod x 4 ltac:(lia)). pose proof (Z.div_mod y 16 ltac:(lia)). pose proof (Z.div_mod z 64 ltac:(lia)).
  assert (forall q r n, 0 <= r < n -> (q * n + r) / n = q /\ (q * n + r) mod n = r) as Hqr.
  { intros q r n Hr. split; [symmetry; apply (Z.div_unique_pos _ _ _ r)|symmetry; apply (Z.mod_unique_pos _ _ q)]; lia. }
  rewrite !(proj1 (Hqr (x mod 4) (y / 16) 16 ltac:(lia))), !(proj2 (Hqr (x mod 4) (y / 16) 16 ltac:(lia))).
  rewrite !(proj1 (Hqr (y mod 16) (z / 64) 4 ltac:(lia))), !(proj2 (Hqr (y mod 16) (z / 64) 4 ltac:(lia))).
  replace (x / 4 * 4 + x mod 4) with x by lia. replace (y / 16 * 16 + y mod 16) with y by lia.
  replace (z / 64 * 64 + z mod 64) with z by lia.
  split; [|split]; apply byte_of_Z_of_byte.
Qed.

(** A body that contains no padding, no blank and no line end. *)
Definition clean (c : byte) : Prop := c <> x3d /\ existsb (fun x => bool_decide (x = c)) [x20; x09; x0a; x0d] = false.

Lemma clean_char v : 0 <= v < 64 -> clean (b64_char v).
Proof. by intros (_ & ? & ?)%b64_char_ok. Qed.

Lemma b64_write_size d : size_of (b64_write d) = (size_of d + 2) / 3 * 4.
Proof.
  induction d as [|a|a b|a b c d IH] using triple_ind; [done..|]. cbn [b64_write]. rewrite !size_of_cons, IH.
  replace (1 + (1 + (1 + size_of d)) + 2) with (size_of d + 2 + 1 * 3) by lia. rewrite Z.div_add by lia. lia.
Qed.

Lemma pad_of_triple n : pad_of (1 + (1 + (1 + n))) = pad_of n.
Proof. unfold pad_of. by replace (1 + (1 + (1 + n))) with (n + 1 * 3) by lia; rewrite Z.mod_add by lia. Qed.

Lemma b64_write_tail d : exists body, b64_write d = body ++ replicate (Z.to_nat (pad_of (size_of d))) x3d /\ Forall clean body.
Proof.
  induction d as [|a|a b|a b c d (body & E & Hc)] using triple_ind; cbn [b64_write].
  - by exists [].
  - destruct (sextets_of a a a) as (? & ? & _). eexists [_; _]. split; [done|]. repeat constructor; by apply clean_char.
  - destruct (sextets_of a b a) as (? & ? & ? & ? & _). eexists [_; _; _]. split; [done|]. repeat constructor; by apply clean_char.
  - destruct (sextets_of a b c) as (? & ? & ? & ? & ? & ?). rewrite !size_of_cons, pad_of_triple, E.
    eexists (_ :: _ :: _ :: _ :: body). split; [done|]. repeat (constructor; [by apply clean_char|]). done.
Qed.

Lemma b64_value_char v : 0 <= v < 64 -> b64_value (b64_char v) = Some v.
Proof. by intros (? & _ & _)%b64_char_ok. Qed.

Lemma b64_read_write d : b64_read (b64_write d) = Some (d ++ replicate (Z.to_nat (pad_of (size_of d))) x00).
Proof.
  induction d as [|a|a b|a b c d IH] using triple_ind; cbn [b64_write b64_read].
  - done.
  - destruct (sextets_of a a a) as (H1 & H2 & _). rewrite !b64_value_char by done.
    change (b64_value x3d) with (Some 0). cbn [mbind option_bind].
    destruct (join_sextets a x00 x00) as (J1 & J2 & J3). change (Z_of_byte x00) with 0 in J1, J2, J3.
    change (0 / 16) with 0 in J1, J2. rewrite (Z.add_0_r (Z_of_byte a mod 4 * 16)) in J1, J2. change (0 mod 16 * 4 + 0 / 64) with 0 in J2.
    rewrite J1, J2. by change (byte_of_Z (0 mod 4 * 64 + 0)) with x00.
  - destruct (sextets_of a b x00) as (H1 & _ & H2 & H3 & _). rewrite !b64_value_char by done.
    change (b64_value x3d) with (Some 0). cbn [mbind option_bind].
    destruct (join_sextets a b x00) as (J1 & J2 & J3). change (Z_of_byte x00 / 64) with 0 in J2, J3.
    change (Z_of_byte x00 mod 64) with 0 in J3. rewrite (Z.add_0_r (Z_of_byte b mod 16 * 4)) in J2, J3.
    by rewrite J1, J2, J3.
  - destruct (sextets_of a b c) as (H1 & _ & H2 & _ & H3 & H4). rewrite !b64_value_char, IH by done. cbn [mbind option_bind].
    destruct (join_sextets a b c) as (J1 & J2 & J3). rewrite J1, J2, J3. by rewrite !size_of_cons, pad_of_triple.
Qed.

Lemma skip_clean c l : clean c -> b64_skip (c :: l) = c :: l.
Proof. intros [_ H]. cbn [b64_skip]. by rewrite H. Qed.

Lemma trim_write d : b64_trim (b64_write d) = b64_write d.
Proof.
  assert (b64_skip (b64_write d) = b64_write d) as H1.
  { destruct d as [|a [|b [|c d]]]; [done|..]; cbn [b64_write]; apply skip_clean, clean_char; [eapply (sextets_of a a a)..]. }
  unfold b64_trim. rewrite H1. destruct (b64_write_tail d) as (body & E & Hc).
  enough (b64_skip (reverse (b64_write d)) = reverse (b64_write d)) as -> by apply reverse_involutive.
  rewrite E, reverse_app, reverse_replicate. destruct (Z.to_nat (pad_of (size_of d))); [|done].
  cbn [replicate app]. apply Forall_reverse in Hc. destruct (reverse body); [done|]. inversion Hc. by apply skip_clean.
Qed.

#[export] Instance real_base64_laws : Base64Laws (OT := real_base64).
Proof.
  constructor; cbn [EVP_EncodeBlock EVP_DecodeBlock real_base64].
  - apply b64_write_size.
  - intros d. destruct (b64_write_tail d) as (body & E & Hc). exists body. split; [done|].
    rewrite Forall_forall in Hc. split; intros Hin%Hc; destruct Hin as [? ?]; done.
  - intros d. by rewrite trim_write, b64_read_write.
Qed.

(** ** Witnesses *)

Lemma base64_roundtrip_witness :
  base64_encode (lit "Many") = Some (lit "TWFueQ==") /\
  exists text, base64_encode (lit "Many") = Some text /\ base64_decode text = Some (lit "Many").
Proof. split; [by vm_compute|apply base64_roundtrip]. Defined.

Lemma base64_invalid_throws_witness : base64_decode (lit "TWF") = None.
Proof. apply base64_invalid_throws; [discriminate|by vm_compute]. Defined.

(** A line end after the text, which the decoder skips, hides one character of
    the padding from the count: the zero that stands for it stays. *)
Example line_end_leaves_zero :
  base64_decode (lit "TQ==") = Some (lit "M") /\ base64_decode (lit "TQ==" ++ [x0a]) = Some (lit "M" ++ [x00]).
Proof. split; by vm_compute. Qed.
