(* ===== verification/LymsgText.v ===== *)
(** * Messages in the log ([lygc/lymsg_protocol.hpp])

    [lymsg_desc], which prints a header into a buffer of 64 bytes, and
    [strBrief], the beginning of a text. *)

From Stdlib Require Import Strings.String.
From S2P Require Import Prelude Lymsg Text Encode.

(** What [%x] prints of an unsigned number. *)
Fixpoint hex_digits (fuel : nat) (z : Z) (acc : bytes) : bytes :=
  match fuel with
  | O => acc
  | Datatypes.S fuel =>
      if z <? 16 then hex_digit false z :: acc else hex_digits fuel (z / 16) (hex_digit false (z mod 16) :: acc)
  end.
Definition hex_number (z : Z) : bytes := hex_digits (Datatypes.S (Z.to_nat (Z.log2 z))) z [].

(** [snprintf] keeps what fits before the final zero. *)
Definition snprintf (size : nat) (text : bytes) : bytes := take (size - 1) text.

Definition desc_text (h : lymsg_header) : bytes :=
  lit "[" ++ decimal (origin h) ++ lit "|0x" ++ hex_number (reserve h) ++ lit "|0x" ++ hex_number (htype h) ++
  lit "|" ++ decimal (serial h) ++ lit "|" ++ decimal (hsize h) ++ lit "]".

Definition lymsg_desc (h : lymsg_header) : bytes := c_str (snprintf 64 (desc_text h)).

(** [src.length() <= maxVisiable] compares with the [int] as a [size_t]. *)
Definition strBrief (src : bytes) (maxVisiable : Z) : bytes :=
  if size_of src <=? wrap 64 maxVisiable then src
  else take (Z.to_nat (wrap 64 maxVisiable)) src ++ lit "..." ++ to_string (size_of src).

(** ** Lengths *)

Lemma hex_digits_length k fuel z acc :
  (1 <= k)%nat -> z < 16 ^ Z.of_nat k -> (List.length (hex_digits fuel z acc) <= k + List.length acc)%nat.
Proof.
  revert k z acc. induction fuel as [|fuel IH]; intros k z acc Hk Hz; cbn [hex_digits]; [lia|].
  destruct (Z.ltb_spec z 16) as [_|Hge]; [cbn; lia|]. destruct k as [|[|k]]; [lia|cbn in Hz; lia|].
  etrans; [apply (IH (Datatypes.S k)); [lia|]|cbn; lia]. apply Z.div_lt_upper_bound; [lia|].
  rewrite (Nat2Z.inj_succ (Datatypes.S k)), Z.pow_succ_r in Hz by lia. lia.
Qed.

(** No zero byte is printed. *)
Definition printed (s : bytes) : Prop := Forall (fun b => Z_of_byte b <> 0) s.

Lemma c_str_printed s : printed s -> c_str s = s.
Proof.
  induction 1 as [|b s Hb _ IH]; [done|]. cbn [c_str]. apply Z.eqb_neq in Hb. by rewrite Hb, IH.
Qed.

Lemma digits_printed fuel z acc : 0 <= z -> printed acc -> printed (digits fuel z acc).
Proof.
  revert z acc. induction fuel as [|fuel IH]; intros z acc Hz Ha; cbn [digits]; [done|].
  destruct (Z.ltb_spec z 10).
  - constructor; [|done]. rewrite Z_of_digit by lia. lia.
  - apply IH; [by apply Z.div_pos|]. pose proof (Z.mod_pos_bound z 10 ltac:(lia)).
    constructor; [|done]. rewrite Z_of_digit by lia. lia.
Qed.

Lemma hex_digit_printed d : 0 <= d < 16 -> Z_of_byte (hex_digit false d) <> 0.
Proof.
  intros Hd. unfold hex_digit. destruct (Z.ltb_spec d 10); rewrite Z_of_byte_of_Z, Z.mod_small; lia.
Qed.

Lemma hex_digits_printed fuel z acc : 0 <= z -> printed acc -> printed (hex_digits fuel z acc).
Proof.
  revert z acc. induction fuel as [|fuel IH]; intros z acc Hz Ha; cbn [hex_digits]; [done|].
  destruct (Z.ltb_spec z 16).
  - constructor; [|done]. apply hex_digit_printed. lia.
  - apply IH; [by apply Z.div_pos|]. pose proof (Z.mod_pos_bound z 16 ltac:(lia)).
    constructor; [|done]. by apply hex_digit_printed.
Qed.

(** Every header is printed in full: at most 57 bytes, none of them zero. *)
Theorem lymsg_desc_full h : header_ok h -> lymsg_desc h = desc_text h /\ size_of (lymsg_desc h) <= 57.
Proof.
  intros [Ho Hr Ht Hs Hz]. unfold in_uint in *. unfold lymsg_desc, snprintf.
  assert (List.length (desc_text h) <= 57)%nat as Hl.
  { unfold desc_text, decimal, hex_number. rewrite !length_app.
    pose proof (digits_length 5 (Datatypes.S (Z.to_nat (Z.log2 (origin h)))) (origin h) [] ltac:(lia) ltac:(lia)).
    pose proof (hex_digits_length 4 (Datatypes.S (Z.to_nat (Z.log2 (reserve h)))) (reserve h) [] ltac:(lia) ltac:(lia)).
    pose proof (hex_digits_length 8 (Datatypes.S (Z.to_nat (Z.log2 (htype h)))) (htype h) [] ltac:(lia) ltac:(lia)).
    pose proof (digits_length 20 (Datatypes.S (Z.to_nat (Z.log2 (serial h)))) (serial h) [] ltac:(lia) ltac:(lia)).
    pose proof (digits_length 10 (Datatypes.S (Z.to_nat (Z.log2 (hsize h)))) (hsize h) [] ltac:(lia) ltac:(lia)).
    change (List.length (lit "[")) with 1%nat. change (List.length (lit "|0x")) with 3%nat.
    change (List.length (lit "|")) with 1%nat. change (List.length (lit "]")) with 1%nat. simpl List.length in *. lia. }
  assert (printed (desc_text h)) as Hp.
  { unfold desc_text, decimal, hex_number, printed. rewrite !Forall_app.
    split_and!; try (apply digits_printed; [lia|constructor]); try (apply hex_digits_printed; [lia|constructor]);
      repeat constructor; by vm_compute. }
  rewrite take_ge by lia. rewrite c_str_printed by done. split; [done|]. unfold size_of. lia.
Qed.

(** A brief text is the text, or its beginning with its length; in either case it
    is not much longer than asked for. *)
Theorem strBrief_bounded src n : 0 <= n < 2 ^ 31 -> size_of src < 2 ^ 64 ->
  (size_of src <= n -> strBrief src n = src) /\
  (n < size_of src -> take (Z.to_nat n) (strBrief src n) = take (Z.to_nat n) src) /\
  size_of (strBrief src n) <= n + 23.
Proof.
  intros Hn Hs. unfold strBrief. rewrite wrap_id by (unfold in_uint; lia). unfold size_of in *.
  destruct (Z.leb_spec (Z.of_nat (List.length src)) n) as [Hle|Hgt]; [split_and!; [done|lia|lia]|].
  split_and!; [lia| |].
  - intros _. rewrite take_app_le by (rewrite length_take; lia). by rewrite take_take, Nat.min_id.
  - unfold to_string. destruct (Z.ltb_spec (Z.of_nat (List.length src)) 0); [lia|]. rewrite !length_app, length_take.
    pose proof (digits_length 20 (Datatypes.S (Z.to_nat (Z.log2 (Z.of_nat (List.length src))))) (Z.of_nat (List.length src)) [] ltac:(lia) ltac:(lia)) as Hd.
    unfold decimal. change (List.length (lit "...")) with 3%nat. simpl List.length in *. lia.
Qed.

(** A negative bound is a large one: the whole text is returned. *)
Lemma strBrief_negative src n : - 2 ^ 31 <= n < 0 -> size_of src < 2 ^ 63 -> strBrief src n = src.
Proof.
  intros Hn Hs. unfold strBrief. replace (wrap 64 n) with (n + 2 ^ 64).
  - destruct (Z.leb_spec (size_of src) (n + 2 ^ 64)); [done|lia].
  - unfold wrap. replace (n + 2 ^ 64) with ((n + 1 * 2 ^ 64) mod 2 ^ 64) by (apply Z.mod_small; lia). by rewrite Z_mod_plus_full.
Qed.

(** The longest header. *)
Definition longest : lymsg_header := MkHeader 65535 65535 4294967295 18446744073709551615 4294967295.

Lemma lymsg_desc_full_witness :
  lymsg_desc longest = lit "[65535|0xffff|0xffffffff|18446744073709551615|4294967295]" /\ size_of (lymsg_desc longest) <= 57.
Proof.
  split; [vm_compute; reflexivity|]. apply (lymsg_desc_full longest). constructor; simpl; unfold in_uint; lia.
Defined.

Lemma strBrief_bounded_witness :
  strBrief (lit "abcdef") 2 = lit "ab...6" /\ size_of (strBrief (lit "abcdef") 2) <= 2 + 23.
Proof.
  split; [vm_compute; reflexivity|]. apply (strBrief_bounded (lit "abcdef") 2); [lia|vm_compute; reflexivity].
Defined.
