(* ===== verification/Logger.v ===== *)
(** * Logging ([zbf/log_utils.hpp])

    The logger's static fields and what [log] makes of them: the line is put
    together in a buffer of 2048 bytes, and a write beyond it is [None]. The clock,
    the thread's id, the text of a second ([strftime] of the local time) and the
    text of the message ([vsnprintf] without a limit) are arguments. *)

From Stdlib Require Import Strings.String.
From S2P Require Import Prelude Text.

Definition Fatal : Z := 0.
Definition Check_level : Z := 1.
Definition Error : Z := 2.
Definition Warn : Z := 3.
Definition Info : Z := 4.
Definition Debug_level : Z := 5.
Definition Trace : Z := 6.
Definition TraceMore : Z := 7.

Definition levelDesc (level : Z) : bytes :=
  if level =? Debug_level then lit "[Debug]"
  else if level =? Error then lit "[Error]"
  else if level =? Info then lit "[ Info]"
  else if level =? Warn then lit "[ Warn]"
  else if level =? Trace then lit "[Trace]"
  else if level =? TraceMore then lit "[ More]"
  else if level =? Check_level then lit "[Check]"
  else if level =? Fatal then lit "[Fatal]"
  else lit "[Trace]".

(** [SHORT_FILENAME]: what follows the last slash. *)
Fixpoint short_filename (acc path : bytes) : bytes :=
  match path with
  | [] => acc
  | b :: path => if bool_decide (b = x2f) then short_filename path path else short_filename acc path
  end.
Definition SHORT_FILENAME (path : bytes) : bytes := short_filename path path.

(** ** The line *)

Definition buffer_size : Z := 2048.

(** [memcpy] of a text to the buffer, of which [line] is written. *)
Definition put (line text : bytes) : option bytes :=
  if size_of line + size_of text <=? buffer_size then Some (line ++ text) else None.

(** [snprintf] of a text to the rest of the buffer: what is written, with the
    [NUL] that has to fit, and the length that is returned, of the whole text. *)
Definition print (line text : bytes) : option (bytes * Z) :=
  let room := buffer_size - size_of line in
  if room <? 0 then None else Some (line ++ take (Z.to_nat (room - 1)) text, size_of line + size_of text).

(** ["%0nd"]. *)
Definition padded (n : Z) (z : Z) : bytes :=
  let d := decimal (Z.abs z) in
  let sign := if z <? 0 then lit "-" else [] in
  sign ++ replicate (Z.to_nat (n - size_of sign - size_of d)) x30 ++ d.

Record logger := MkLogger {
  log_level : Z;                (* unsigned int *)
  enable_check : bool;
  lg_file : option Z;           (* _file *)
  lg_thd2id : gmap Z Z;         (* _thd2id *)
  lg_lastTimeSec : Z;
  lg_cachedTimeStr : bytes;
}.

Definition new_logger : logger := MkLogger Trace false None ∅ 0 [].

Section log.
Context (strftime : Z -> bytes).

(** The time, from the cache or to it; [None] if the clock failed. *)
Definition time_of (clock : option (Z * Z)) (l : logger) : option (bytes * Z) * logger :=
  match clock with
  | None => (None, l)
  | Some (sec, nsec) =>
      let l := if sec =? lg_lastTimeSec l then l
               else MkLogger (log_level l) (enable_check l) (lg_file l) (lg_thd2id l) sec (strftime sec) in
      (Some (lg_cachedTimeStr l, nsec), l)
  end.

(** The beginning of a line. A length that [snprintf] returns beyond what it
    wrote would leave a gap, which the model does not follow: [None]. *)
Definition prefix (title : bytes) (time : option (bytes * Z)) (printId : Z) : option bytes :=
  let exactly r := match r with Some (line, len) => if size_of line =? len then Some line else None | None => None end in
  line ← put [] title; line ← put line (lit " ");
  line ← match time with
         | None => Some line
         | Some (text, nsec) => line ← put line text; exactly (print line (lit "." ++ padded 3 (nsec / 1000000) ++ lit " "))
         end;
  exactly (print line (padded 7 printId ++ lit " ")).

(** [log]: the line, if the level is logged, as it goes to the file. *)
Definition log (level : Z) (msg : bytes) (clock : option (Z * Z)) (printId : Z) (l : logger) : option (option bytes * logger) :=
  if log_level l <? level then Some (None, l)
  else
    let '(time, l) := time_of clock l in
    line ← prefix (levelDesc level) time printId;
    '(szText, _) ← print line msg;
    Some (match lg_file l with Some _ => Some (c_str szText ++ [x0a]) | None => None end, l).

Definition registerThreadId (tid id : Z) (l : logger) : logger :=
  MkLogger (log_level l) (enable_check l) (lg_file l) (<[tid := id]> (lg_thd2id l)) (lg_lastTimeSec l) (lg_cachedTimeStr l).
Definition getShortId (tid : Z) (l : logger) : Z := default 0 (lg_thd2id l !! tid).
Definition enableChkLog (enable : bool) (l : logger) : logger :=
  MkLogger (log_level l) enable (lg_file l) (lg_thd2id l) (lg_lastTimeSec l) (lg_cachedTimeStr l).
Definition set_file (f : option Z) (l : logger) : logger :=
  MkLogger (log_level l) (enable_check l) f (lg_thd2id l) (lg_lastTimeSec l) (lg_cachedTimeStr l).

(** [open]; [file] is what [fopen] returns. Its own message is at [Info]. *)
Definition open (path : option bytes) (level : Z) (file : option Z) (clock : option (Z * Z)) (printId : Z) (here : bytes) (l : logger)
  : option (Z * option bytes * logger) :=
  match lg_file l, path with
  | Some _, _ => Some (1, None, l)
  | None, None => Some (-1, None, l)
  | None, Some p =>
      match file with
      | None => Some (-2, None, l)
      | Some f =>
          let l := MkLogger level (enable_check l) (Some f) (lg_thd2id l) (lg_lastTimeSec l) (lg_cachedTimeStr l) in
          '(line, l) ← log Info (here ++ lit "logger open, path=" ++ c_str p ++ lit ", level=" ++ levelDesc level) clock printId l;
          Some (0, line, l)
      end
  end.

(** [close]. *)
Definition close (clock : option (Z * Z)) (printId : Z) (here : bytes) (l : logger) : option (option bytes * logger) :=
  '(line, l) ← log Info (here ++ lit "logger close") clock printId l;
  Some (line, set_file None l).

Definition createLogPath (module : bytes) (appendPid : bool) (pid : Z) : bytes :=
  if appendPid then module ++ lit "-" ++ to_string pid ++ lit ".log" else module ++ lit ".log".
End log.

(** ** A line fits its buffer *)

Lemma put_fits line text : size_of line + size_of text <= buffer_size -> put line text = Some (line ++ text).
Proof. intros H. unfold put. by rewrite (proj2 (Z.leb_le _ _) H). Qed.

Lemma print_fits line text : size_of line + size_of text < buffer_size -> print line text = Some (line ++ text, size_of (line ++ text)).
Proof.
  intros H. unfold print. pose proof (size_of_nonneg text). rewrite (proj2 (Z.ltb_ge _ _)) by lia. rewrite size_of_app, take_ge; [done|].
  unfold size_of in *. lia.
Qed.

Lemma levelDesc_size level : size_of (levelDesc level) = 7.
Proof. unfold levelDesc. by repeat case_if. Qed.

Lemma padded_size n z k : (1 <= k)%nat -> 0 <= n -> Z.abs z < 10 ^ Z.of_nat k -> size_of (padded n z) <= Z.max n (Z.of_nat k + 1).
Proof.
  intros Hk Hn Hz. unfold padded, decimal.
  pose proof (digits_length k (S (Z.to_nat (Z.log2 (Z.abs z)))) (Z.abs z) [] Hk Hz) as H. change (length (@nil byte)) with O in H.
  rewrite !size_of_app. unfold size_of in *. rewrite length_replicate.
  destruct (z <? 0); [change (length (lit "-")) with 1%nat|change (length (@nil byte)) with O]; lia.
Qed.

Section bounds.
Context (strftime : Z -> bytes).
(** [strftime] is given a buffer of 32 bytes. *)
Context (strftime_fits : forall sec, size_of (strftime sec) <= 31).

(** The cache has the text of its second; at first it has none. *)
Definition cache_ok (l : logger) : Prop := lg_cachedTimeStr l = strftime (lg_lastTimeSec l) \/ lg_lastTimeSec l = 0 /\ lg_cachedTimeStr l = [].

Lemma time_of_ok clock (l : logger) :
  cache_ok l -> (forall sec nsec, clock = Some (sec, nsec) -> sec <> 0) ->
  let '(t, l') := time_of strftime clock l in
  cache_ok l' /\ log_level l' = log_level l /\ lg_file l' = lg_file l /\
  t = match clock with Some (sec, nsec) => Some (strftime sec, nsec) | None => None end.
Proof.
  intros Hc Hs. unfold time_of. destruct clock as [[sec nsec]|]; [|done]. specialize (Hs sec nsec eq_refl).
  destruct (Z.eqb_spec sec (lg_lastTimeSec l)) as [->|Hne].
  - split_and!; try done. destruct Hc as [->|[? _]]; [done|lia].
  - split_and!; try done. by left.
Qed.

Lemma prefix_ok level time printId :
  (forall text nsec, time = Some (text, nsec) -> size_of text <= 31 /\ 0 <= nsec < 1000000000) -> in_sint 32 printId ->
  exists p, prefix (levelDesc level) time printId = Some p /\ size_of p <= 57 /\
    p = levelDesc level ++ lit " " ++
        match time with Some (text, nsec) => text ++ lit "." ++ padded 3 (nsec / 1000000) ++ lit " " | None => [] end ++
        padded 7 printId ++ lit " ".
Proof.
  intros Ht Hp. pose proof (levelDesc_size level) as Hd. unfold in_sint in Hp.
  assert (size_of (padded 7 printId) <= 11) as Hid by (etrans; [apply (padded_size _ _ 10); cbn in *; lia|lia]).
  assert (size_of (lit " ") = 1 /\ size_of (lit ".") = 1) as [Hsp Hdot] by done.
  unfold prefix. rewrite put_fits by (rewrite Hd; done). cbn [app mbind option_bind].
  rewrite put_fits by (rewrite Hd; done). cbn [mbind option_bind].
  destruct time as [[text nsec]|].
  - destruct (Ht text nsec eq_refl) as [Htx Hns].
    assert (size_of (padded 3 (nsec / 1000000)) <= 4) as Hms.
    { etrans; [apply (padded_size _ _ 3); [lia|lia|]|lia]. pose proof (Z.div_lt_upper_bound nsec 1000000 1000).
      pose proof (Z.div_pos nsec 1000000). cbn. lia. }
    rewrite put_fits by (rewrite !size_of_app; unfold buffer_size; lia). cbn [mbind option_bind].
    rewrite print_fits by (rewrite !size_of_app; unfold buffer_size; lia). rewrite Z.eqb_refl. cbn [mbind option_bind].
    rewrite print_fits by (rewrite !size_of_app; unfold buffer_size; lia). rewrite Z.eqb_refl. eexists. split; [reflexivity|].
    split; [rewrite !size_of_app; lia|]. by rewrite <- !app_assoc.
  - cbn [mbind option_bind]. rewrite print_fits by (rewrite !size_of_app; unfold buffer_size; lia). rewrite Z.eqb_refl.
    eexists. split; [reflexivity|]. split; [rewrite !size_of_app; lia|]. by rewrite <- !app_assoc.
Qed.

(** A logged message is written after a prefix of at most 57 bytes that has the
    level, the time of its second and the thread; up to 1990 bytes of it are written
    whole, the rest of a longer one is cut off; nothing is written beyond the buffer. *)
Theorem log_line level msg clock printId (l : logger) f :
  cache_ok l -> (forall sec nsec, clock = Some (sec, nsec) -> sec <> 0 /\ 0 <= nsec < 1000000000) -> in_sint 32 printId ->
  level <= log_level l -> lg_file l = Some f ->
  exists p l', size_of p <= 57 /\ cache_ok l' /\
    log strftime level msg clock printId l = Some (Some (c_str (p ++ take (Z.to_nat (2047 - size_of p)) msg) ++ [x0a]), l') /\
    p = levelDesc level ++ lit " " ++
        match clock with Some (sec, nsec) => strftime sec ++ lit "." ++ padded 3 (nsec / 1000000) ++ lit " " | None => [] end ++
        padded 7 printId ++ lit " " /\
    (size_of msg <= 1990 -> take (Z.to_nat (2047 - size_of p)) msg = msg).
Proof.
  intros Hc Hclock Hp Hlev Hf. pose proof (time_of_ok clock l Hc ltac:(intros; by eapply Hclock)) as Ht.
  unfold log. rewrite (proj2 (Z.ltb_ge _ _)) by done. destruct (time_of strftime clock l) as [time l'].
  destruct Ht as (Hc' & _ & Hf' & ->).
  destruct (prefix_ok level (match clock with Some (sec, nsec) => Some (strftime sec, nsec) | None => None end) printId) as (p & Ep & Hsz & Hpe); [|done|].
  { destruct clock as [[sec nsec]|]; [|done]. intros text ns [= <- <-]. split; [apply strftime_fits|by eapply Hclock]. }
  exists p, l'. rewrite Ep. cbn [mbind option_bind]. unfold print, buffer_size. rewrite (proj2 (Z.ltb_ge _ _)) by lia. cbn [mbind option_bind].
  rewrite Hf', Hf. replace (2048 - size_of p - 1) with (2047 - size_of p) by lia.
  split_and!; try done. { rewrite Hpe. by destruct clock as [[]|]. }
  intros Hm. apply take_ge. unfold size_of in *. lia.
Qed.

(** A message above the level is not written and changes nothing. *)
Theorem log_filtered level msg clock printId (l : logger) :
  log_level l < level -> log strftime level msg clock printId l = Some (None, l).
Proof. intros H. unfold log. by rewrite (proj2 (Z.ltb_lt _ _) H). Qed.

(** [open] and [close] end with the file open or closed; a second [open], or one
    that fails, leaves the logger as it was. *)
Theorem open_close_exact path level file clock id here (l : logger) :
  cache_ok l -> (forall sec nsec, clock = Some (sec, nsec) -> sec <> 0 /\ 0 <= nsec < 1000000000) -> in_sint 32 id ->
  exists rc line l', open strftime path level file clock id here l = Some (rc, line, l') /\ cache_ok l' /\
    (rc <> 0 -> l' = l /\ line = None) /\
    (rc = 0 -> lg_file l = None /\ lg_file l' = file /\ is_Some file /\ log_level l' = level /\
      exists line' l'', close strftime clock id here l' = Some (line', l'') /\ lg_file l'' = None).
Proof.
  intros Hc Hclock Hid.
  assert (forall m q, cache_ok q -> exists line q', log strftime Info m clock id q = Some (line, q') /\ cache_ok q' /\
    lg_file q' = lg_file q /\ log_level q' = log_level q) as Hlog.
  { intros m q Hq. pose proof (time_of_ok clock q Hq ltac:(intros; by eapply Hclock)) as Ht. unfold log.
    case_if; [by eexists _, _|]. destruct (time_of strftime clock q) as [time q']. destruct Ht as (Hq' & Hl' & Hf' & ->).
    destruct (prefix_ok Info (match clock with Some (sec, nsec) => Some (strftime sec, nsec) | None => None end) id) as (p & Ep & Hsz & _); [|done|].
    { destruct clock as [[sec nsec]|]; [|done]. intros text ns [= <- <-]. split; [apply strftime_fits|by eapply Hclock]. }
    rewrite Ep. cbn [mbind option_bind]. unfold print, buffer_size. rewrite (proj2 (Z.ltb_ge _ _)) by lia. cbn [mbind option_bind].
    eexists _, _. split; [reflexivity|]. split_and!; done. }
  unfold open. destruct (lg_file l) as [f|] eqn:Ef; [exists 1, None, l; by split_and!|].
  destruct path as [p|]; [|exists (-1), None, l; by split_and!]. destruct file as [f|]; [|exists (-2), None, l; by split_and!].
  set (l1 := MkLogger _ _ _ _ _ _). set (m := here ++ _). destruct (Hlog m l1) as (line & l2 & E & Hc2 & Hf2 & Hl2); [done|].
  rewrite E. cbn [mbind option_bind]. exists 0, line, l2. split_and!; try done. intros _. split_and!; try done.
  unfold close. destruct (Hlog (here ++ lit "logger close") l2 Hc2) as (line' & l3 & E' & _). rewrite E'. by eexists _, _.
Qed.
End bounds.

(** ** Witnesses *)

Definition demo_time (sec : Z) : bytes := lit "2025/06/01 00:00:00".
Definition demo_logger : logger := MkLogger Debug_level false (Some 3) ∅ 0 [].

Lemma log_line_witness : exists l', log demo_time Error (lit "hello") (Some (7, 42000000)) 1234 demo_logger =
  Some (Some (lit "[Error] 2025/06/01 00:00:00.042 0001234 hello" ++ [x0a]), l').
Proof.
  destruct (log_line demo_time (fun _ => ltac:(by vm_compute)) Error (lit "hello") (Some (7, 42000000)) 1234 demo_logger 3)
    as (p & l' & _ & _ & E & Hp & Hm); [by right|by intros ? ? [= <- <-]|unfold in_sint; lia|done|done|].
  exists l'. rewrite E, Hm, Hp by (vm_compute; done). reflexivity.
Defined.

Lemma log_filtered_witness : log demo_time Trace (lit "hello") None 1 demo_logger = Some (None, demo_logger).
Proof. apply log_filtered. reflexivity. Defined.

Lemma open_close_exact_witness : exists rc line l', open demo_time (Some (lit "a.log")) Info None (Some (7, 0)) 1 [] new_logger = Some (rc, line, l') /\
  cache_ok demo_time l'.
Proof.
  destruct (open_close_exact demo_time (fun _ => ltac:(by vm_compute)) (Some (lit "a.log")) Info None (Some (7, 0)) 1 [] new_logger)
    as (rc & line & l' & E & Hc & _); [by right|by intros ? ? [= <- <-]|unfold in_sint; lia|]. by exists rc, line, l'.
Defined.

Example file_name : SHORT_FILENAME (lit "/src/zbf/log_utils.hpp") = lit "log_utils.hpp".
Proof. reflexivity. Qed.
