(* ===== verification/Signals.v ===== *)
(** * Signals ([zbf/signal_utils.hpp])

    What a process does with its signals, as [signal] sets it; on Linux. The
    result of [signal] is not looked at by the helpers. *)

From Stdlib Require Import Strings.String.
From S2P Require Import Prelude Text.

Definition SIGKILL : Z := 9.
Definition SIGSTOP : Z := 19.
Definition SIGRTMAX : Z := 64.

(** [SIG_DFL], [SIG_IGN], or a handler. *)
Inductive disposition (H : Type) := Default | Ignored | Handled (h : H).
Arguments Default {H}.
Arguments Ignored {H}.
Arguments Handled {H}.

(** The signals whose disposition can be changed; 32 and 33 are the C library's. *)
Definition can_set (sig : Z) : bool :=
  (1 <=? sig) && (sig <=? SIGRTMAX) && negb (sig =? SIGKILL) && negb (sig =? SIGSTOP) && negb ((sig =? 32) || (sig =? 33)).

Section signals.
Context {H : Type}.
Abbreviation process := (gmap Z (disposition H)).

Definition disposition_of (p : process) (sig : Z) : disposition H := default Default (p !! sig).

(** [::signal]; a signal that cannot be set is an error, which is ignored. *)
Definition signal_call (sig : Z) (d : disposition H) (p : process) : process := if can_set sig then <[sig := d]> p else p.

Definition handleSignal (onSignal : H) (sig : Z) (p : process) : process := signal_call sig (Handled onSignal) p.
Fixpoint handleSignals (onSignal : H) (sigs : list Z) (p : process) : process :=
  match sigs with [] => p | sig :: sigs => handleSignals onSignal sigs (handleSignal onSignal sig p) end.

Definition ignoreSignal (sig : Z) (p : process) : process := signal_call sig Ignored p.
Fixpoint ignoreSignals (sigs : list Z) (p : process) : process :=
  match sigs with [] => p | sig :: sigs => ignoreSignals sigs (ignoreSignal sig p) end.

Lemma signal_call_of sig d p s :
  disposition_of (signal_call sig d p) s = if decide (s = sig /\ can_set sig = true) then d else disposition_of p s.
Proof.
  unfold signal_call, disposition_of. destruct (can_set sig) eqn:E; [|by rewrite decide_False by naive_solver].
  rewrite lookup_insert. case_decide; [subst; by rewrite decide_True|]. by rewrite decide_False by naive_solver.
Qed.

(** After either, the signals of the list that can be set have the new
    disposition, and all the others the one they had. *)
Theorem signals_set onSignal sigs p s :
  disposition_of (handleSignals onSignal sigs p) s =
    (if decide (s ∈ sigs /\ can_set s = true) then Handled onSignal else disposition_of p s) /\
  disposition_of (ignoreSignals sigs p) s =
    (if decide (s ∈ sigs /\ can_set s = true) then Ignored else disposition_of p s).
Proof.
  revert p. induction sigs as [|sig sigs IH]; intros p; cbn [handleSignals ignoreSignals].
  { rewrite decide_False; [done|]. intros [Hs%elem_of_nil _]. done. }
  destruct (IH (handleSignal onSignal sig p)) as [-> _]. destruct (IH (ignoreSignal sig p)) as [_ ->].
  unfold handleSignal, ignoreSignal. rewrite !signal_call_of.
  destruct (decide (s ∈ sigs /\ can_set s = true)) as [[]|Hn]; [by rewrite !decide_True by (rewrite elem_of_cons; naive_solver)|].
  destruct (decide (s = sig /\ can_set sig = true)) as [[-> ?]|Hn']; [by rewrite !decide_True by (rewrite elem_of_cons; naive_solver)|].
  by rewrite !decide_False by (rewrite elem_of_cons; naive_solver).
Qed.
End signals.

(** [strsignal]: the system's text, or a number in the buffer of 32 bytes. *)
Definition strsignal (system : Z -> option bytes) (sig : Z) : bytes :=
  match system sig with
  | Some s => s
  | None => take 31 (lit "signal " ++ to_string sig)
  end.

Lemma number_text sig : in_sint 32 sig -> (length (to_string sig) <= 11)%nat.
Proof.
  intros Hs. unfold in_sint in Hs.
  assert (forall z, 0 <= z < 10 ^ Z.of_nat 10 -> (length (decimal z) <= 10)%nat) as Hd.
  { intros z Hz. unfold decimal. pose proof (digits_length 10 (S (Z.to_nat (Z.log2 z))) z [] ltac:(lia) ltac:(lia)) as H. change (length (@nil byte)) with O in H. lia. }
  change (2 ^ (32 - 1)) with 2147483648 in Hs. change (10 ^ Z.of_nat 10) with 10000000000 in Hd. unfold to_string.
  destruct (Z.ltb_spec sig 0); [rewrite length_app; change (length (lit "-")) with 1%nat; specialize (Hd (- sig)); lia|specialize (Hd sig); lia].
Qed.

(** The number is never cut off. *)
Theorem strsignal_whole system sig :
  in_sint 32 sig -> system sig = None -> strsignal system sig = lit "signal " ++ to_string sig.
Proof.
  intros Hs Hn. unfold strsignal. rewrite Hn. apply take_ge. pose proof (number_text sig Hs). rewrite length_app. cbn. lia.
Qed.

Lemma strsignal_whole_witness : strsignal (fun _ => None) 77 = lit "signal 77".
Proof. rewrite (strsignal_whole (fun _ => None) 77); [reflexivity|by split|reflexivity]. Defined.
