(* ===== verification/SocketSetup.v ===== *)
(** * Addresses, options and datagrams ([zbf/socket_utils.hpp], the part that
      [SocketUtils] leaves)

    The system calls are the interface [SockApi], on an abstract world [W]; a
    method is a computation ([Effect]), and [EXIT_RC] is an exit. [so_trace] is a
    ghost: the descriptors and address lists that were opened and released. *)

From Stdlib Require Import Strings.String.
From S2P Require Import Prelude SocketPoll SocketUtils Text Effect.
#[local] Open Scope effect_scope.

(** Linux values. *)
Definition AF_INET : Z := 2.
Definition AF_INET6 : Z := 10.
Definition O_NONBLOCK : Z := 2048.
Definition SOL_SOCKET : Z := 1.
Definition SO_REUSEADDR : Z := 2.
Definition SO_SNDBUF : Z := 7.
Definition SO_RCVBUF : Z := 8.
Definition SO_KEEPALIVE : Z := 9.
Definition SO_REUSEPORT : Z := 15.
Definition IPPROTO_TCP : Z := 6.
Definition IPPROTO_UDP : Z := 17.
Definition IPPROTO_IPV6 : Z := 41.
Definition IPV6_V6ONLY : Z := 26.
Definition SOCK_STREAM : Z := 1.
Definition SOCK_DGRAM : Z := 2.
Definition AF_UNSPEC : Z := 0.
Definition AI_PASSIVE : Z := 1.
Definition TimeStampErr : Z := 0.

(** The first entry of a list of addresses; what is asked for. *)
Record addrinfo := MkAddrInfo { ai_family : Z; ai_socktype : Z; ai_protocol : Z; ai_addr : bytes }.
Record hints := MkHints { hi_family : Z; hi_flags : Z; hi_socktype : Z; hi_protocol : Z }.

Class SockApi (W : Type) := {
  so_getaddrinfo : W -> option bytes -> bytes -> hints -> option (Z * addrinfo) * W;
  so_freeaddrinfo : W -> Z -> W;
  so_socket : W -> Z -> Z -> Z -> Z * W;
  so_close : W -> Z -> W;
  so_bind : W -> Z -> bytes -> Z * W;
  so_setsockopt : W -> Z -> Z -> Z -> Z -> Z * W;
  so_getsockopt : W -> Z -> Z -> Z -> option Z * W;
  so_getfl : W -> Z -> Z * W;                     (* fcntl(fd, F_GETFL) *)
  so_setfl : W -> Z -> Z -> W;
  (* what was read, the sender's address and its length *)
  so_recvfrom : W -> Z -> Z -> Z -> (sysret bytes * bytes * Z) * W;
  so_sendto : W -> Z -> bytes -> bytes -> sysret Z * W;
  so_recv : W -> Z -> Z -> sysret bytes * W;
  so_send : W -> Z -> bytes -> sysret Z * W;
  so_clock : W -> option (Z * Z);                 (* seconds, nanoseconds *)
}.

Inductive scall :=
| SOpen (fd : Z)
| SClose (fd : Z)
| SBind (fd : Z) (addr : bytes)
| AOpen (h : Z)
| AClose (h : Z).

(** ** Addresses as text *)

(** [snprintf] of a text to a buffer of [n] bytes: what it holds. *)
Definition printed (n : Z) (s : bytes) : bytes := take (Z.to_nat (n - 1)) s.

Definition mergeAddr (addr : bytes) (port : Z) : bytes := printed 32 (c_str addr ++ lit ":" ++ to_string port).

Definition getSockAddrLen : Z := 128.
Definition getPacketMax : Z := 65500.

Section parse.
(** [inet_ntop], of the family and the bytes of an address. *)
Context (inet_ntop : Z -> bytes -> option bytes).

(** [parseAddr]: the result, and the address and port where it is 0. A
    [sockaddr_in] has the family, the port and 4 bytes; a [sockaddr_in6] the
    family, the port, the flow and 16 bytes. *)
Definition parseAddr (addrbuf : option bytes) (addrlen : Z) : Z * option (bytes * Z) :=
  match addrbuf with
  | None => (-1, None)
  | Some buf =>
      if addrlen =? 0 then (-1, None)
      else
        let sa_family := le_val (sub_bytes 0 2 buf) in
        let port := bswap 2 (le_val (sub_bytes 2 2 buf)) in
        if sa_family =? AF_INET then
          match inet_ntop AF_INET (sub_bytes 4 4 buf) with
          | Some ipv4 => (0, Some (c_str ipv4, port))
          | None => (-2, None)
          end
        else if sa_family =? AF_INET6 then
          match inet_ntop AF_INET6 (sub_bytes 8 16 buf) with
          | Some ipv6 => (0, Some (c_str ipv6, port))
          | None => (-2, None)
          end
        else (-2, None)
  end.

(** The images of the two structures. *)
Definition sockaddr_in (port : Z) (addr : bytes) : bytes := le_bytes 2 AF_INET ++ be_bytes 2 port ++ addr ++ replicate 8 x00.
Definition sockaddr_in6 (port flow scope : Z) (addr : bytes) : bytes :=
  le_bytes 2 AF_INET6 ++ be_bytes 2 port ++ be_bytes 4 flow ++ addr ++ le_bytes 4 scope.
End parse.

(** ** System calls *)

Section calls.
Context {W : Type} {SA : SockApi W}.

Record sock := MkSock { so_world : W; so_trace : list scall }.
Abbreviation M := (eff sock).

Definition call {A} (f : W -> A * W) (e : A -> list scall) : M A :=
  fun s => let '(a, w) := f (so_world s) in Some (a, MkSock w (so_trace s ++ e a)).
Definition quietly {A} (f : W -> A * W) : M A := call f (fun _ => []).
Definition effect (f : W -> W) (e : list scall) : M unit := call (fun w => (tt, f w)) (fun _ => e).

Definition getAddrInfo (hostname : option bytes) (port : Z) (tcp : bool) : M (option (Z * addrinfo)) :=
  let h := if tcp then MkHints AF_UNSPEC AI_PASSIVE SOCK_STREAM IPPROTO_TCP else MkHints AF_UNSPEC AI_PASSIVE SOCK_DGRAM IPPROTO_UDP in
  let szPort := printed 8 (to_string port) in
  call (fun w => so_getaddrinfo w hostname szPort h) (fun a => match a with Some (h, _) => [AOpen h] | None => [] end).

Definition set_nonblocking (fd : Z) : M unit :=
  let* flag := quietly (fun w => so_getfl w fd) in
  if -1 =? flag then ret tt else effect (fun w => so_setfl w fd (Z.lor flag O_NONBLOCK)) [].
Definition set_blocking (fd : Z) : M unit :=
  let* flag := quietly (fun w => so_getfl w fd) in
  if -1 =? flag then ret tt else effect (fun w => so_setfl w fd (Z.land flag (Z.lnot O_NONBLOCK))) [].

(** -2: try again; -1: an error. *)
Definition rc_of {A} (n : A -> Z) (r : sysret A) : Z :=
  match r with SysOk a => n a | SysAgain => -2 | SysErr => -1 end.
Definition data_of (r : sysret bytes) : bytes := match r with SysOk d => d | _ => [] end.

(** What is read is in [data], the sender in [addr]; [addrlen] is in-out. *)
Definition recvfrom (fd size addrlen : Z) : M (Z * bytes * bytes * Z) :=
  let* r := quietly (fun w => so_recvfrom w fd size addrlen) in
  let '(d, addr, socklen) := r in ret (rc_of size_of d, data_of d, addr, socklen).
Definition sendto (fd : Z) (data : bytes) (addr : addrinfo) : M Z :=
  let* r := quietly (fun w => so_sendto w fd data (ai_addr addr)) in ret (rc_of id r).
Definition recv (fd size : Z) : M (Z * bytes) :=
  let* r := quietly (fun w => so_recv w fd size) in ret (rc_of size_of r, data_of r).
Definition send (fd : Z) (data : bytes) : M Z :=
  let* r := quietly (fun w => so_send w fd data) in ret (rc_of id r).

Definition set_option (fd level opt val : Z) : M Z :=
  let* r := quietly (fun w => so_setsockopt w fd level opt val) in ret (if r <? 0 then -1 else 0).
Definition get_option (fd level opt : Z) : M Z :=
  let* r := quietly (fun w => so_getsockopt w fd level opt) in ret (match r with Some v => v | None => -1 end).

Definition setReuseAddr (fd : Z) : M Z := set_option fd SOL_SOCKET SO_REUSEADDR 1.
Definition setReusePort (fd : Z) : M Z := set_option fd SOL_SOCKET SO_REUSEPORT 1.
Definition setKeepAlive (fd : Z) : M Z := set_option fd SOL_SOCKET SO_KEEPALIVE 1.
Definition setDualstack (fd family : Z) : M Z :=
  if family =? AF_INET6 then set_option fd IPPROTO_IPV6 IPV6_V6ONLY 0 else ret 0.
Definition getRecvBufSize (fd : Z) : M Z := get_option fd SOL_SOCKET SO_RCVBUF.
Definition setRecvBufSize (fd recv_buf_size : Z) : M Z := set_option fd SOL_SOCKET SO_RCVBUF recv_buf_size.
Definition getSendBufSize (fd : Z) : M Z := get_option fd SOL_SOCKET SO_SNDBUF.
Definition setSendBufSize (fd send_buf_size : Z) : M Z := set_option fd SOL_SOCKET SO_SNDBUF send_buf_size.

Definition currentTimeSecs (w : W) : Z := match so_clock w with Some (sec, _) => sec | None => TimeStampErr end.
Definition currentTimeMillis (w : W) : Z :=
  match so_clock w with Some (sec, nsec) => sec * 1000 + nsec / 1000000 | None => TimeStampErr end.

(** ** A datagram socket *)

(** The part of [create_udp_socket] before [exit] that has an address, from the
    creation of the socket on: the descriptor, or the code. [EXIT_RC] leaves the
    descriptor to the part after [exit]. *)
Definition udp_setup (fd : Z) (a : addrinfo) : exc sock unit :=
  let* r := setReuseAddr fd in
  if negb (r =? 0) then exit_with (-3)
  else
    let* r := setReusePort fd in
    if negb (r =? 0) then exit_with (-3)
    else
      setDualstack fd (ai_family a) ;;
      let* r := call (fun w => so_bind w fd (ai_addr a)) (fun r => if r =? 0 then [SBind fd (ai_addr a)] else []) in
      if negb (r =? 0) then exit_with (-4) else continue tt.

(** The part of [exit] that releases the descriptor. *)
Definition release (rc fd : Z) : M unit :=
  if (rc <? 0) && negb (fd =? INVALID_SOCK) then effect (fun w => so_close w fd) [SClose fd] else ret tt.

(** The result, a descriptor or a negative code, and [isV4]. *)
Definition create_udp_socket (serverName : option bytes) (port : Z) : M (Z * bool) :=
  let* svr_addr := getAddrInfo serverName port false in
  match svr_addr with
  | None => ret (-1, false)
  | Some (h, a) =>
      let* fd := call (fun w => so_socket w (ai_family a) (ai_socktype a) (ai_protocol a))
                      (fun fd => if fd <? 0 then [] else [SOpen fd]) in
      let* rc :=
        (if fd <? 0 then ret (-2)
         else let* r := udp_setup fd a in ret (match r with inl code => code | inr _ => fd end)) in
      release rc fd ;;
      effect (fun w => so_freeaddrinfo w h) [AClose h] ;;
      ret (rc, if rc <? 0 then false else ai_family a =? AF_INET)
  end.
End calls.
Arguments sock : clear implicits.

(** ** Text of an address *)

Lemma port_text port : in_uint 16 port -> size_of (to_string port) <= 5.
Proof.
  unfold in_uint. intros [H0 H1]. unfold to_string. rewrite (proj2 (Z.ltb_ge _ _)) by lia. unfold decimal, size_of.
  assert (port < 10 ^ Z.of_nat 5) as Hp by (cbn in *; lia).
  pose proof (digits_length 5 (S (Z.to_nat (Z.log2 port))) port [] ltac:(lia) Hp) as H. change (length (@nil byte)) with O in H. lia.
Qed.

(** An address and a port are printed whole if the address has at most 25
    characters, as IPv4 addresses have; of any longer text 31 characters are kept,
    and the port is lost with the end. *)
Theorem mergeAddr_exact addr port :
  in_uint 16 port ->
  (size_of (c_str addr) <= 25 -> mergeAddr addr port = c_str addr ++ lit ":" ++ to_string port) /\
  (30 < size_of (c_str addr) -> mergeAddr addr port = take 31 (c_str addr)).
Proof.
  intros Hp. pose proof (port_text port Hp) as Ht. unfold mergeAddr, printed. change (Z.to_nat (32 - 1)) with 31%nat. split.
  - intros Ha. apply take_ge. unfold size_of in *. rewrite !length_app. change (length (lit ":")) with 1%nat. lia.
  - intros Ha. apply take_app_le. unfold size_of in *. lia.
Qed.

(** An IPv6 address in full: the port is not there. *)
Example long_address_loses_port :
  mergeAddr (lit "2001:0db8:85a3:0000:0000:8a2e:0370:7334") 80 = lit "2001:0db8:85a3:0000:0000:8a2e:0".
Proof. reflexivity. Qed.

(** The port that [getaddrinfo] is given is never cut off. *)
Lemma service_whole port : in_uint 16 port -> printed 8 (to_string port) = to_string port.
Proof. intros Hp. pose proof (port_text port Hp). apply take_ge. unfold size_of in *. lia. Qed.

(** The address of a peer, as [accept] returns it, is read back. *)
Theorem parseAddr_exact (inet_ntop : Z -> bytes -> option bytes) port addr text len :
  in_uint 16 port -> len <> 0 -> inet_ntop AF_INET addr = Some text -> size_of addr = 4 ->
  parseAddr inet_ntop (Some (sockaddr_in port addr)) len = (0, Some (c_str text, port)) /\
  forall addr6 text6 flow scope, inet_ntop AF_INET6 addr6 = Some text6 -> size_of addr6 = 16 ->
    parseAddr inet_ntop (Some (sockaddr_in6 port flow scope addr6)) len = (0, Some (c_str text6, port)).
Proof.
  intros Hp Hl Hn Hs. apply Z.eqb_neq in Hl.
  assert (bswap 2 (le_val (be_bytes 2 port)) = port) as Hport.
  { unfold bswap. pose proof (le_bytes_le_val (be_bytes 2 port)) as H. rewrite length_be_bytes in H. rewrite H, be_val_be_bytes.
    by apply Z.mod_small. }
  unfold parseAddr, sockaddr_in, sockaddr_in6. rewrite Hl.
  assert (forall f k, le_val (sub_bytes 0 2 (le_bytes 2 f ++ k)) = f mod 2 ^ 16) as Hf.
  { intros f k. rewrite sub_bytes_here by done. apply le_val_le_bytes. }
  assert (forall f k, sub_bytes 2 2 (le_bytes 2 f ++ be_bytes 2 port ++ k) = be_bytes 2 port) as Hpb.
  { intros f k. rewrite sub_bytes_skip by (by rewrite size_le_bytes). apply sub_bytes_here; [done|by rewrite size_be_bytes]. }
  split.
  - rewrite Hf, Hpb, Hport. change (AF_INET mod 2 ^ 16 =? AF_INET) with true. cbn iota.
    rewrite !sub_bytes_skip, sub_bytes_here by (rewrite ?size_le_bytes, ?size_be_bytes; lia). by rewrite Hn.
  - intros addr6 text6 flow scope Hn6 Hs6. rewrite Hf, Hpb, Hport. change (AF_INET6 mod 2 ^ 16 =? AF_INET) with false.
    change (AF_INET6 mod 2 ^ 16 =? AF_INET6) with true. cbn iota.
    rewrite !sub_bytes_skip, sub_bytes_here by (rewrite ?size_le_bytes, ?size_be_bytes; lia). by rewrite Hn6.
Qed.

(** ** Descriptors and address lists *)

Section release.
Context {W : Type} {SA : SockApi W}.
(** POSIX: [socket] returns a descriptor or -1. *)
Context (socket_returns : forall w f t p, -1 <= fst (so_socket w f t p)).

Definition did (l : list scall) (s s' : sock W) : Prop := so_trace s' = so_trace s ++ l.

Lemma sock_call {A} (f : W -> A * W) e (s : sock W) : spec (call f e) s (fun a s' => did (e a) s s').
Proof. intros a s'. unfold call. destruct (f (so_world s)) as [b w]. by intros [= <- <-]. Qed.

Lemma did_none (s : sock W) : did [] s s.
Proof. by unfold did; rewrite app_nil_r. Qed.

Lemma did_and l k (s1 s2 s3 : sock W) : did l s1 s2 -> did k s2 s3 -> did (l ++ k) s1 s3.
Proof. unfold did. intros -> ->. by rewrite app_assoc in *. Qed.

Lemma set_option_did fd level opt val (s : sock W) : spec (set_option fd level opt val) s (fun _ s' => did [] s s').
Proof. apply spec_bind. eapply spec_mono; [apply sock_call|]. intros r s1 H1. by apply spec_ret. Qed.

Lemma udp_setup_did fd a (s : sock W) :
  spec (udp_setup fd a) s (fun r s' =>
    match r with inl code => -4 <= code < 0 /\ did [] s s' | inr _ => did [SBind fd (ai_addr a)] s s' end).
Proof.
  apply spec_bind. eapply spec_mono; [apply set_option_did|]. intros r1 s1 H1. case_if; [apply spec_ret; split; [lia|done]|].
  apply spec_bind. eapply spec_mono; [apply set_option_did|]. intros r2 s2 H2. pose proof (did_and _ _ _ _ _ H1 H2) as H12.
  case_if; [apply spec_ret; split; [lia|done]|]. apply spec_bind. apply (spec_mono _ _ (fun _ s' => did [] s2 s')).
  { unfold setDualstack. case_if; [apply set_option_did|apply spec_ret, did_none]. }
  intros ? s3 H3. pose proof (did_and _ _ _ _ _ H12 H3) as H13. apply spec_bind. eapply spec_mono; [apply sock_call|].
  intros r4 s4 H4. pose proof (did_and _ _ _ _ _ H13 H4) as H14. cbn in *. destruct (r4 =? 0) eqn:E; cbn; apply spec_ret; [done|split; [lia|done]].
Qed.

(** [create_udp_socket] returns a descriptor that is open and bound, or a
    negative code and no descriptor is left open, whichever call failed; the list of
    addresses is released in every case. *)
Theorem udp_socket_exact name port (s : sock W) :
  spec (create_udp_socket name port) s (fun r s' =>
    let '(rc, isV4) := r in
    (0 <= rc /\ exists h addr, did [AOpen h; SOpen rc; SBind rc addr; AClose h] s s') \/
    (-4 <= rc < 0 /\ isV4 = false /\ exists h fd,
       did [] s s' \/ did [AOpen h; AClose h] s s' \/ did [AOpen h; SOpen fd; SClose fd; AClose h] s s')).
Proof.
  apply spec_bind. eapply spec_mono; [apply sock_call|]. intros [[h a]|] s1 H1.
  2: { apply spec_ret. right. split; [lia|]. split; [done|]. exists 0, 0. by left. }
  apply spec_bind. intros fd s2 E2.
  assert (-1 <= fd) as Hfd.
  { unfold call in E2. pose proof (socket_returns (so_world s1) (ai_family a) (ai_socktype a) (ai_protocol a)) as Hr.
    destruct (so_socket _ _ _ _) as [b w]. by injection E2 as <- _. }
  pose proof (sock_call _ _ _ _ _ E2) as H2. cbn beta in H2. pose proof (did_and _ _ _ _ _ H1 H2) as H12. clear E2 H2.
  apply spec_bind. destruct (Z.ltb_spec fd 0) as [Hneg|Hpos].
  - apply spec_ret. apply spec_bind. assert (fd = INVALID_SOCK) as -> by (unfold INVALID_SOCK; lia). cbn.
    apply spec_ret, spec_bind. eapply spec_mono; [apply sock_call|]. intros ? s4 H4. apply spec_ret. right.
    split; [lia|]. split; [done|]. exists h, 0. right. left. exact (did_and _ _ _ _ _ H12 H4).
  - apply spec_bind. eapply spec_mono; [apply udp_setup_did|]. intros r s3 H3. apply spec_ret.
    assert (negb (fd =? INVALID_SOCK) = true) as Hv by (apply negb_true_iff, Z.eqb_neq; unfold INVALID_SOCK; lia).
    apply spec_bind. unfold release. rewrite Hv, andb_true_r. destruct r as [code|[]].
    + destruct H3 as [Hc H3]. rewrite (proj2 (Z.ltb_lt _ _) (proj2 Hc)). eapply spec_mono; [apply sock_call|]. intros ? s4 H4.
      apply spec_bind. eapply spec_mono; [apply sock_call|]. intros ? s5 H5. apply spec_ret. right.
      split; [done|]. split; [done|].
      exists h, fd. right. right. exact (did_and _ _ _ _ _ (did_and _ _ _ _ _ H12 (did_and _ _ _ _ _ H3 H4)) H5).
    + rewrite (proj2 (Z.ltb_ge _ _) Hpos). apply spec_ret, spec_bind. eapply spec_mono; [apply sock_call|].
      intros ? s5 H5. apply spec_ret. left. split; [done|]. exists h, (ai_addr a).
      exact (did_and _ _ _ _ _ (did_and _ _ _ _ _ H12 H3) H5).
Qed.
End release.

(** ** Blocking and not *)

Section blocking.
Context {W : Type} {SA : SockApi W}.

(** The flags of a descriptor are those that were set last; -1 if there are none. *)
Class FcntlLaws := {
  fl_of : W -> Z -> Z;
  getfl_exact w fd : so_getfl w fd = (fl_of w fd, w);
  setfl_exact w fd v fd' : 0 <= fl_of w fd -> fl_of (so_setfl w fd v) fd' = if decide (fd = fd') then v else fl_of w fd';
}.
Context {FL : FcntlLaws}.

(** [set_nonblocking] sets the one flag and leaves the others, [set_blocking]
    clears it and leaves the others; one after the other they restore a
    descriptor that was blocking. No other descriptor is touched. *)
Theorem blocking_exact fd (s : sock W) :
  0 <= fl_of (so_world s) fd ->
  exists s1 s2, set_nonblocking fd s = Some (tt, s1) /\ set_blocking fd s1 = Some (tt, s2) /\
    (forall i, 0 <= i -> Z.testbit (fl_of (so_world s1) fd) i = (i =? 11) || Z.testbit (fl_of (so_world s) fd) i) /\
    (forall i, 0 <= i -> Z.testbit (fl_of (so_world s2) fd) i = negb (i =? 11) && Z.testbit (fl_of (so_world s) fd) i) /\
    (Z.testbit (fl_of (so_world s) fd) 11 = false -> fl_of (so_world s2) fd = fl_of (so_world s) fd) /\
    (forall fd', fd' <> fd -> fl_of (so_world s1) fd' = fl_of (so_world s) fd' /\ fl_of (so_world s2) fd' = fl_of (so_world s) fd').
Proof.
  intros Hf. set (flag := fl_of (so_world s) fd) in *.
  assert (0 <= Z.lor flag O_NONBLOCK) as Hor by (apply Z.lor_nonneg; by split).
  assert (forall i, 0 <= i -> Z.testbit O_NONBLOCK i = (i =? 11)) as Hbit.
  { intros i Hi. change O_NONBLOCK with (2 ^ 11). by rewrite Z.pow2_bits_eqb, Z.eqb_sym by done. }
  set (w1 := so_setfl (so_world s) fd (Z.lor flag O_NONBLOCK)).
  assert (forall fd', fl_of w1 fd' = if decide (fd = fd') then Z.lor flag O_NONBLOCK else fl_of (so_world s) fd') as H1
    by (intros fd'; by apply setfl_exact).
  assert (fl_of w1 fd = Z.lor flag O_NONBLOCK) as H11 by (by rewrite H1, decide_True).
  set (w2 := so_setfl w1 fd (Z.land (Z.lor flag O_NONBLOCK) (Z.lnot O_NONBLOCK))).
  assert (forall fd', fl_of w2 fd' = if decide (fd = fd') then Z.land (Z.lor flag O_NONBLOCK) (Z.lnot O_NONBLOCK) else fl_of w1 fd') as H2
    by (intros fd'; apply setfl_exact; by rewrite H11).
  exists (MkSock w1 ((so_trace s ++ []) ++ [])), (MkSock w2 ((((so_trace s ++ []) ++ []) ++ []) ++ [])).
  unfold set_nonblocking, set_blocking, quietly, effect, bind, call. rewrite getfl_exact. fold flag.
  rewrite (proj2 (Z.eqb_neq (-1) flag)) by lia. split; [reflexivity|]. cbn [so_world].
  rewrite getfl_exact, H11. rewrite (proj2 (Z.eqb_neq (-1) _)) by lia. split; [reflexivity|]. cbn [so_world].
  rewrite (H2 fd), decide_True by done.
  assert (forall i, 0 <= i -> Z.testbit (Z.land (Z.lor flag O_NONBLOCK) (Z.lnot O_NONBLOCK)) i = negb (i =? 11) && Z.testbit flag i) as Hclear.
  { intros i Hi. rewrite Z.land_spec, Z.lor_spec, Z.lnot_spec, Hbit by done. destruct (i =? 11), (Z.testbit flag i); done. }
  split_and!; [|done| |].
  - intros i Hi. rewrite Z.lor_spec, Hbit by done. apply orb_comm.
  - intros Hb. apply Z.bits_inj'. intros i Hi. rewrite Hclear by done. destruct (Z.eqb_spec i 11) as [->|_]; [done|]. done.
  - intros fd' Hne. by rewrite H2, H1, !decide_False by done.
Qed.
End blocking.

(** ** A system for the witnesses *)

(** The flags of descriptor 3, and what [bind] returns. *)
Record toy_sys := MkToySys { ts_flags : Z; ts_bind : Z }.

#[export] Instance toy_sock : SockApi toy_sys := {
  so_getaddrinfo w _ _ _ := (Some (7, MkAddrInfo AF_INET SOCK_DGRAM IPPROTO_UDP [x7f]), w);
  so_freeaddrinfo w _ := w;
  so_socket w _ _ _ := (3, w);
  so_close w _ := w;
  so_bind w _ _ := (ts_bind w, w);
  so_setsockopt w _ _ _ _ := (0, w);
  so_getsockopt w _ _ _ := (Some 0, w);
  so_getfl w fd := (if decide (fd = 3) then ts_flags w else -1, w);
  so_setfl w fd v := if decide (fd = 3) then MkToySys v (ts_bind w) else w;
  so_recvfrom w _ _ n := (SysAgain, [], n, w);
  so_sendto w _ d _ := (SysOk (size_of d), w);
  so_recv w _ _ := (SysAgain, w);
  so_send w _ d := (SysOk (size_of d), w);
  so_clock w := None;
}.

#[export] Instance toy_fcntl : FcntlLaws (W:=toy_sys).
Proof.
  refine {| fl_of := fun w fd => if decide (fd = 3) then ts_flags w else -1 |}; [done|].
  intros w fd v fd'. cbn. repeat case_decide; simplify_eq; try done; cbn; by repeat case_decide.
Defined.

Definition toy_start (bind_rc : Z) : sock toy_sys := MkSock (MkToySys 2 bind_rc) [].

Lemma mergeAddr_exact_witness : mergeAddr (lit "192.168.100.200") 65535 = lit "192.168.100.200:65535".
Proof. apply (mergeAddr_exact (lit "192.168.100.200") 65535); by vm_compute. Defined.

Lemma parseAddr_exact_witness :
  parseAddr (fun _ a => Some (lit "127.0.0.1")) (Some (sockaddr_in 8080 [x7f; x00; x00; x01])) 16 = (0, Some (lit "127.0.0.1", 8080)).
Proof. by apply (parseAddr_exact _ 8080 [x7f; x00; x00; x01] (lit "127.0.0.1")). Defined.

(** [bind] fails: the socket is closed again. *)
Lemma udp_socket_exact_witness : exists s', create_udp_socket None 80 (toy_start 98) = Some ((-4, false), s') /\
  exists h fd, so_trace s' = [AOpen h; SOpen fd; SClose fd; AClose h].
Proof.
  assert (forall (w : toy_sys) f t p, -1 <= fst (so_socket w f t p)) as Hs by (intros; cbn; lia).
  destruct (create_udp_socket None 80 (toy_start 98)) as [[[rc v4] s']|] eqn:E; [|vm_compute in E; done].
  pose proof (udp_socket_exact Hs None 80 (toy_start 98) _ _ E) as H. vm_compute in E. injection E as <- <- <-.
  eexists. split; [reflexivity|]. destruct H as [[H _]|(_ & _ & h & fd & [H|[H|H]])]; [lia|by vm_compute in H..|].
  exists h, fd. exact H.
Defined.

Lemma blocking_exact_witness : exists s1 s2,
  set_nonblocking 3 (toy_start 0) = Some (tt, s1) /\ set_blocking 3 s1 = Some (tt, s2) /\ ts_flags (so_world s2) = 2.
Proof.
  destruct (blocking_exact 3 (toy_start 0)) as (s1 & s2 & H1 & H2 & _ & _ & H & _); [by cbn|].
  exists s1, s2. split_and!; [done|done|]. by apply H.
Defined.
