(* ===== verification/Serialize.v ===== *)
(** * Binary serialization ([fszm/serialize_helper.hpp])

    A [serialize_helper] writes to [_oss] and reads from [_stringbuf]: a
    [serialize_x] is a function from the output so far and the value to the new
    output, a [deserialize_x] a reader [D], from the buffer to the value and
    the rest of the buffer. A reader never fails: on a short buffer it returns
    zero or the empty string. [Codec] is what a pair of the two promises. *)

From stdpp Require Import sorting.
From S2P Require Import Prelude Lymsg.
#[local] Open Scope Z_scope.

Definition D (A : Type) : Type := bytes -> A * bytes.

Definition ret {A} (a : A) : D A := fun s => (a, s).
Definition bind {A B} (d : D A) (f : A -> D B) : D B := fun s => let '(a, s') := d s in f a s'.

Declare Scope reader_scope.
Delimit Scope reader_scope with reader.
Notation "'let!' x := d 'in' e" := (bind d (fun x => e))
  (at level 10, x name, d at level 100, e at level 200) : reader_scope.
#[local] Open Scope reader_scope.

(** ** Integers *)

(** [substr(0, n)] and [substr(n)] on a buffer of at least [n] bytes, 0 and the
    buffer untouched on a shorter one. *)
Definition read_int (n : Z) (decode : bytes -> Z) : D Z :=
  fun s => if size_of s <? n then (0, s)
           else (decode (take (Z.to_nat n) s), drop (Z.to_nat n) s).

Definition serialize_uint8 (oss : bytes) (v : Z) : bytes := oss ++ le_bytes 1 v.
Definition deserialize_uint8 : D Z := read_int 1 le_val.

Definition serialize_uint16 (oss : bytes) (local : Z) : bytes := oss ++ le_bytes 2 (htons local).
Definition deserialize_uint16 : D Z := read_int 2 (fun b => ntohs (le_val b)).

Definition serialize_uint32 (oss : bytes) (local : Z) : bytes := oss ++ le_bytes 4 (htonl local).
Definition deserialize_uint32 : D Z := read_int 4 (fun b => ntohl (le_val b)).

Definition serialize_uint64 (oss : bytes) (v : Z) : bytes :=
  let high := wrap 32 (Z.shiftr v 32) in
  let low := wrap 32 v in
  serialize_uint32 (serialize_uint32 oss high) low.
Definition deserialize_uint64 : D Z :=
  fun s => if size_of s <? 8 then (0, s)
           else (let! high := deserialize_uint32 in
                 let! low := deserialize_uint32 in
                 ret (Z.lor (Z.shiftl high 32) low)) s.

Definition serialize_int8 (oss : bytes) (v : Z) : bytes := serialize_uint8 oss (wrap 8 v).
Definition deserialize_int8 : D Z := let! v := deserialize_uint8 in ret (swrap 8 v).
Definition serialize_int16 (oss : bytes) (v : Z) : bytes := serialize_uint16 oss (wrap 16 v).
Definition deserialize_int16 : D Z := let! v := deserialize_uint16 in ret (swrap 16 v).
Definition serialize_int32 (oss : bytes) (v : Z) : bytes := serialize_uint32 oss (wrap 32 v).
Definition deserialize_int32 : D Z := let! v := deserialize_uint32 in ret (swrap 32 v).
Definition serialize_int64 (oss : bytes) (v : Z) : bytes := serialize_uint64 oss (wrap 64 v).
Definition deserialize_int64 : D Z := let! v := deserialize_uint64 in ret (swrap 64 v).

Definition serialize_bool (oss : bytes) (v : bool) : bytes := serialize_uint8 oss (if v then 1 else 0).
Definition deserialize_bool : D bool := let! v := deserialize_uint8 in ret (v =? 1).

(** A [double] or [float] is its bit pattern: the code copies it with [memcpy]. *)
Definition serialize_double (oss : bytes) (bits : Z) : bytes := serialize_uint64 oss bits.
Definition deserialize_double : D Z := deserialize_uint64.
Definition serialize_float (oss : bytes) (bits : Z) : bytes := serialize_uint32 oss bits.
Definition deserialize_float : D Z := deserialize_uint32.

(** ** Strings and containers *)

Definition serialize_str (oss : bytes) (data : bytes) : bytes :=
  serialize_uint32 oss (wrap 32 (size_of data)) ++ data.
Definition deserialize_str : D bytes :=
  let! size := deserialize_uint32 in
  fun s => if size_of s <? size then ([], s)
           else (take (Z.to_nat size) s, drop (Z.to_nat size) s).

(** [for (i = 0; i < size; ++i) v.push_back(read())]. *)
Fixpoint read_n {A} (n : nat) (d : D A) : D (list A) :=
  match n with
  | O => ret []
  | S n => let! a := d in let! l := read_n n d in ret (a :: l)
  end.

Definition serialize_list {A} (ser : bytes -> A -> bytes) (oss : bytes) (l : list A) : bytes :=
  foldl ser (serialize_uint32 oss (wrap 32 (size_of l))) l.
Definition deserialize_list {A} (d : D A) : D (list A) :=
  let! size := deserialize_uint32 in read_n (Z.to_nat size) d.

Abbreviation DataRow := (list bytes).
Abbreviation DataTable := (list (list bytes)).
Abbreviation DataTables := (list (list (list bytes))).
Abbreviation FieldsType := (list Z).
Abbreviation ScoreArray := (list (Z * bytes)).

Definition serialize_row (oss : bytes) (row : DataRow) : bytes := serialize_list serialize_str oss row.
Definition deserialize_row : D DataRow := deserialize_list deserialize_str.
Definition serialize_table (oss : bytes) (table : DataTable) : bytes := serialize_list serialize_row oss table.
Definition deserialize_table : D DataTable := deserialize_list deserialize_row.
Definition serialize_tables (oss : bytes) (tables : DataTables) : bytes := serialize_list serialize_table oss tables.
Definition deserialize_tables : D DataTables := deserialize_list deserialize_table.
Definition serialize_fields_type (oss : bytes) (fieldsType : FieldsType) : bytes :=
  serialize_list serialize_uint32 oss fieldsType.
Definition deserialize_fields_type : D FieldsType := deserialize_list deserialize_uint32.

Definition serialize_score (oss : bytes) (item : Z * bytes) : bytes :=
  serialize_str (serialize_double oss (fst item)) (snd item).
Definition deserialize_score : D (Z * bytes) :=
  let! score := deserialize_double in let! v := deserialize_str in ret (score, v).
Definition serialize_score_array (oss : bytes) (arr : ScoreArray) : bytes := serialize_list serialize_score oss arr.
Definition deserialize_score_array : D ScoreArray := deserialize_list deserialize_score.

(** [std::map<std::string, std::string>]: an association list in key order,
    the order [compare] of [std::string] gives. *)
Fixpoint str_compare (a b : bytes) : comparison :=
  match a, b with
  | [], [] => Eq
  | [], _ => Lt
  | _, [] => Gt
  | x :: a, y :: b =>
      match Z.compare (Z_of_byte x) (Z_of_byte y) with Eq => str_compare a b | c => c end
  end.

Definition StringMap : Type := list (bytes * bytes).

(** [map[key] = val]. *)
Fixpoint map_set (m : StringMap) (key val : bytes) : StringMap :=
  match m with
  | [] => [(key, val)]
  | (k, v) :: m' =>
      match str_compare key k with
      | Lt => (key, val) :: m
      | Eq => (k, val) :: m'
      | Gt => (k, v) :: map_set m' key val
      end
  end.

Definition serialize_entry (oss : bytes) (kv : bytes * bytes) : bytes :=
  serialize_str (serialize_str oss (fst kv)) (snd kv).
Definition deserialize_entry : D (bytes * bytes) :=
  let! key := deserialize_str in let! val := deserialize_str in ret (key, val).

Definition serialize_string_map (oss : bytes) (m : StringMap) : bytes := serialize_list serialize_entry oss m.

Fixpoint read_map (n : nat) (m : StringMap) : D StringMap :=
  match n with
  | O => ret m
  | S n => let! kv := deserialize_entry in read_map n (map_set m (fst kv) (snd kv))
  end.
Definition deserialize_string_map : D StringMap :=
  let! size := deserialize_uint32 in read_map (Z.to_nat size) [].

(** ** What a serializer and its reader promise *)

Class Codec {A} (ser : bytes -> A -> bytes) (des : D A) (ok : A -> Prop) : Prop := {
  ser_app : forall oss a, ser oss a = oss ++ ser [] a;
  des_ser : forall a rest, ok a -> des (ser [] a ++ rest) = (a, rest);
}.

Definition str_ok (s : bytes) : Prop := size_of s < 2 ^ 32.
Definition list_ok {A} (ok : A -> Prop) (l : list A) : Prop := size_of l < 2 ^ 32 /\ Forall ok l.
Definition row_ok (r : DataRow) : Prop := list_ok str_ok r.
Definition table_ok (t : DataTable) : Prop := list_ok row_ok t.
Definition tables_ok (t : DataTables) : Prop := list_ok table_ok t.
Definition fields_ok (f : FieldsType) : Prop := list_ok (in_uint 32) f.
Definition score_ok (x : Z * bytes) : Prop := in_uint 64 (fst x) /\ str_ok (snd x).
Definition scores_ok (a : ScoreArray) : Prop := list_ok score_ok a.
Definition entry_ok (kv : bytes * bytes) : Prop := str_ok (fst kv) /\ str_ok (snd kv).
Definition string_map_ok (m : StringMap) : Prop :=
  list_ok entry_ok m /\ StronglySorted (fun a b => str_compare (fst b) (fst a) = Gt) m.

#[export] Instance in_uint_dec w v : Decision (in_uint w v).
Proof. unfold in_uint. apply _. Defined.
#[export] Instance in_sint_dec w v : Decision (in_sint w v).
Proof. unfold in_sint. apply _. Defined.
#[export] Instance str_ok_dec s : Decision (str_ok s).
Proof. unfold str_ok. apply _. Defined.
#[export] Instance list_ok_dec {A} (ok : A -> Prop) `{!forall a, Decision (ok a)} l : Decision (list_ok ok l).
Proof. unfold list_ok. apply _. Defined.
#[export] Instance row_ok_dec r : Decision (row_ok r).
Proof. unfold row_ok. apply _. Defined.
#[export] Instance table_ok_dec t : Decision (table_ok t).
Proof. unfold table_ok. apply _. Defined.
#[export] Instance tables_ok_dec t : Decision (tables_ok t).
Proof. unfold tables_ok. apply _. Defined.
#[export] Instance fields_ok_dec f : Decision (fields_ok f).
Proof. unfold fields_ok. apply _. Defined.
#[export] Instance scores_ok_dec a : Decision (scores_ok a).
Proof. unfold scores_ok, score_ok. apply _. Defined.

(** Evaluate a decidable condition. *)
Ltac by_decide := apply (bool_decide_unpack _); vm_compute; exact I.

(** ** Lemmas *)

Lemma read_int_app n decode b rest :
  size_of b = n -> read_int n decode (b ++ rest) = (decode b, rest).
Proof.
  intros <-. unfold read_int. rewrite size_of_app. pose proof (size_of_nonneg rest).
  rewrite (proj2 (Z.ltb_ge _ _)) by lia. by rewrite take_size_app, drop_size_app.
Qed.

Lemma mod_small_uint w v : in_uint w v -> v mod 2 ^ w = v.
Proof. apply Z.mod_small. Qed.

#[export] Instance uint8_codec : Codec serialize_uint8 deserialize_uint8 (in_uint 8).
Proof.
  split; [done|]. intros v rest Hv. unfold serialize_uint8, deserialize_uint8. rewrite app_nil_l.
  rewrite read_int_app by apply size_le_bytes. rewrite le_val_le_bytes.
  change (8 * Z.of_nat 1) with 8. by rewrite mod_small_uint.
Qed.

#[export] Instance uint16_codec : Codec serialize_uint16 deserialize_uint16 (in_uint 16).
Proof.
  split; [done|]. intros v rest Hv. unfold serialize_uint16, deserialize_uint16. rewrite app_nil_l.
  rewrite read_int_app by apply size_le_bytes. rewrite le_val_le_bytes. unfold ntohs, htons.
  rewrite bswap_wrap, bswap_involutive. change (8 * Z.of_nat 2) with 16. by rewrite mod_small_uint.
Qed.

#[export] Instance uint32_codec : Codec serialize_uint32 deserialize_uint32 (in_uint 32).
Proof.
  split; [done|]. intros v rest Hv. unfold serialize_uint32, deserialize_uint32. rewrite app_nil_l.
  rewrite read_int_app by apply size_le_bytes. rewrite le_val_le_bytes. unfold ntohl, htonl.
  rewrite bswap_wrap, bswap_involutive. change (8 * Z.of_nat 4) with 32. by rewrite mod_small_uint.
Qed.

Lemma size_uint32 v : size_of (serialize_uint32 [] v) = 4.
Proof. unfold serialize_uint32. rewrite app_nil_l. apply size_le_bytes. Qed.

#[export] Instance uint64_codec : Codec serialize_uint64 deserialize_uint64 (in_uint 64).
Proof.
  split.
  - intros oss v. unfold serialize_uint64. rewrite (ser_app (serialize_uint32 oss _)), (ser_app oss).
    by rewrite (ser_app (serialize_uint32 [] _)), app_assoc.
  - intros v rest Hv. unfold serialize_uint64, deserialize_uint64.
    rewrite (ser_app (serialize_uint32 [] _)), !size_of_app, !size_uint32. pose proof (size_of_nonneg rest).
    rewrite (proj2 (Z.ltb_ge _ _)) by lia. unfold bind, ret. rewrite <- app_assoc.
    unfold in_uint in Hv. rewrite Z.shiftr_div_pow2 by lia.
    assert (in_uint 32 (v / 2 ^ 32)) as Hhi.
    { unfold in_uint. split; [apply Z.div_pos; lia|]. apply Z.div_lt_upper_bound; lia. }
    rewrite des_ser by (apply wrap_range; lia). rewrite des_ser by (apply wrap_range; lia).
    f_equal. rewrite (wrap_id 32 (v / 2 ^ 32)) by done. unfold wrap.
    rewrite lor_shiftl_add by (try apply Z.mod_pos_bound; lia).
    pose proof (Z.div_mod v (2 ^ 32) ltac:(lia)). lia.
Qed.

Lemma wrap_sint w v : 0 < w -> in_uint w (wrap w v).
Proof. intros. apply wrap_range. lia. Qed.
#[export] Hint Resolve wrap_sint : tszy.
#[export] Hint Extern 1 (0 < _) => lia : tszy.

(** The signed variants go through the unsigned ones. *)
Lemma signed_codec w (ser : bytes -> Z -> bytes) (des : D Z) :
  0 < w -> Codec ser des (in_uint w) ->
  Codec (fun oss v => ser oss (wrap w v)) (let! v := des in ret (swrap w v)) (in_sint w).
Proof.
  intros Hw H. split; [intros; apply ser_app|]. intros v rest Hv. unfold bind.
  rewrite des_ser by auto with tszy. unfold ret. by rewrite swrap_wrap, swrap_id.
Qed.

#[export] Instance int8_codec : Codec serialize_int8 deserialize_int8 (in_sint 8).
Proof. by apply (signed_codec 8), _. Qed.
#[export] Instance int16_codec : Codec serialize_int16 deserialize_int16 (in_sint 16).
Proof. by apply (signed_codec 16), _. Qed.
#[export] Instance int32_codec : Codec serialize_int32 deserialize_int32 (in_sint 32).
Proof. by apply (signed_codec 32), _. Qed.
#[export] Instance int64_codec : Codec serialize_int64 deserialize_int64 (in_sint 64).
Proof. by apply (signed_codec 64), _. Qed.

#[export] Instance bool_codec : Codec serialize_bool deserialize_bool (fun _ => True).
Proof.
  split; [intros; unfold serialize_bool; apply ser_app|]. intros v rest _. unfold serialize_bool, deserialize_bool, bind.
  rewrite des_ser by (by destruct v). by destruct v.
Qed.

#[export] Instance double_codec : Codec serialize_double deserialize_double (in_uint 64).
Proof. apply uint64_codec. Qed.
#[export] Instance float_codec : Codec serialize_float deserialize_float (in_uint 32).
Proof. apply uint32_codec. Qed.

#[export] Instance str_codec : Codec serialize_str deserialize_str str_ok.
Proof.
  split.
  - intros oss a. unfold serialize_str. by rewrite (ser_app (ser:=serialize_uint32) oss), <- app_assoc.
  - intros a rest Ha. unfold serialize_str, deserialize_str, bind. rewrite <- app_assoc.
    rewrite des_ser by auto with tszy. unfold str_ok in Ha. pose proof (size_of_nonneg a). pose proof (size_of_nonneg rest).
    rewrite wrap_id by (unfold in_uint; lia). rewrite size_of_app, (proj2 (Z.ltb_ge _ _)) by lia.
    by rewrite take_size_app, drop_size_app.
Qed.

Section list_codec.
Context {A} (ser : bytes -> A -> bytes) (des : D A) (ok : A -> Prop) `{!Codec ser des ok}.

Lemma foldl_ser oss l : foldl ser oss l = oss ++ foldl ser [] l.
Proof.
  revert oss. induction l as [|a l IH]; intros oss; cbn [foldl]; [by rewrite app_nil_r|].
  rewrite IH, (IH (ser [] a)), (ser_app oss). by rewrite app_assoc.
Qed.

Lemma read_n_ser l rest : Forall ok l -> read_n (length l) des (foldl ser [] l ++ rest) = (l, rest).
Proof.
  induction 1 as [|a l Ha Hl IH]; cbn [length read_n foldl]; [done|].
  rewrite foldl_ser, <- app_assoc. unfold bind. rewrite des_ser by done. by rewrite IH.
Qed.

#[export] Instance list_codec : Codec (serialize_list ser) (deserialize_list des) (list_ok ok).
Proof.
  split.
  - intros oss l. unfold serialize_list. rewrite foldl_ser, (foldl_ser (serialize_uint32 [] _)), (ser_app oss).
    by rewrite app_assoc.
  - intros l rest [Hs Hl]. unfold serialize_list, deserialize_list, bind. rewrite foldl_ser, <- app_assoc.
    rewrite des_ser by auto with tszy. pose proof (size_of_nonneg l).
    rewrite wrap_id by (unfold in_uint; lia). unfold size_of. rewrite Nat2Z.id. by apply read_n_ser.
Qed.
End list_codec.

#[export] Instance row_codec : Codec serialize_row deserialize_row row_ok.
Proof. apply list_codec, _. Qed.
#[export] Instance table_codec : Codec serialize_table deserialize_table table_ok.
Proof. apply list_codec, _. Qed.
#[export] Instance tables_codec : Codec serialize_tables deserialize_tables tables_ok.
Proof. apply list_codec, _. Qed.
#[export] Instance fields_codec : Codec serialize_fields_type deserialize_fields_type fields_ok.
Proof. apply list_codec, _. Qed.

Lemma pair_codec {A B} (sa : bytes -> A -> bytes) (da : D A) oka (sb : bytes -> B -> bytes) (db : D B) okb :
  Codec sa da oka -> Codec sb db okb ->
  Codec (fun oss ab => sb (sa oss (fst ab)) (snd ab)) (let! a := da in let! b := db in ret (a, b))
    (fun ab => oka (fst ab) /\ okb (snd ab)).
Proof.
  intros Ha Hb. split.
  - intros oss [a b]. cbn [fst snd]. rewrite (ser_app (sa oss a)), (ser_app (sa [] a)), (ser_app oss).
    by rewrite app_assoc.
  - intros [a b] rest [Hoa Hob]. cbn [fst snd] in *. unfold bind, ret.
    rewrite (ser_app (sa [] a)), <- app_assoc, des_ser by done. by rewrite des_ser.
Qed.

#[export] Instance score_codec : Codec serialize_score deserialize_score score_ok.
Proof. apply (pair_codec serialize_double deserialize_double (in_uint 64)); apply _. Qed.
#[export] Instance scores_codec : Codec serialize_score_array deserialize_score_array scores_ok.
Proof. apply list_codec, _. Qed.
#[export] Instance entry_codec : Codec serialize_entry deserialize_entry entry_ok.
Proof. apply (pair_codec serialize_str deserialize_str str_ok); apply _. Qed.

(** Keys read in increasing order are appended. *)
Lemma map_set_last m key val :
  Forall (fun kv => str_compare key (fst kv) = Gt) m -> map_set m key val = m ++ [(key, val)].
Proof.
  induction 1 as [|[k v] m Hk Hm IH]; cbn [map_set app fst] in *; [done|]. rewrite Hk. by rewrite IH.
Qed.

Lemma read_map_ser l m rest :
  Forall entry_ok l -> StronglySorted (fun a b => str_compare (fst b) (fst a) = Gt) (m ++ l) ->
  read_map (length l) m (foldl serialize_entry [] l ++ rest) = (m ++ l, rest).
Proof.
  intros Hl. revert m. induction Hl as [|kv l Hkv Hl IH]; intros m Hs; cbn [length read_map foldl].
  - by rewrite app_nil_r.
  - rewrite (foldl_ser serialize_entry deserialize_entry entry_ok), <- app_assoc. unfold bind.
    rewrite des_ser by done. rewrite map_set_last, <- surjective_pairing.
    + rewrite IH, <- app_assoc; [done|]. by rewrite <- app_assoc.
    + apply Forall_forall. intros kv' Hin. apply StronglySorted_app in Hs as (Hs & _). apply Hs; [done|left].
Qed.

#[export] Instance string_map_codec : Codec serialize_string_map deserialize_string_map string_map_ok.
Proof.
  split; [intros; apply (list_codec serialize_entry deserialize_entry entry_ok)|].
  intros m rest [[Hs Hl] Hsort]. unfold serialize_string_map, deserialize_string_map, serialize_list, bind.
  rewrite (foldl_ser serialize_entry deserialize_entry entry_ok), <- app_assoc.
  rewrite des_ser by auto with tszy. pose proof (size_of_nonneg m).
  rewrite wrap_id by (unfold in_uint; lia). unfold size_of. rewrite Nat2Z.id. by apply (read_map_ser m []).
Qed.

(** ** Properties *)

(** what is written with the table, map and score-array serializers, after
    any output and before any other, is read back exactly, for every content
    whose sizes fit the 32-bit counts. *)
Theorem containers_roundtrip tables m scores rest :
  tables_ok tables -> string_map_ok m -> scores_ok scores ->
  (let! t := deserialize_tables in let! x := deserialize_string_map in
   let! a := deserialize_score_array in ret (t, x, a))
    (serialize_score_array (serialize_string_map (serialize_tables [] tables) m) scores ++ rest) =
  ((tables, m, scores), rest).
Proof.
  intros Ht Hm Ha. rewrite (ser_app (ser:=serialize_score_array) (serialize_string_map _ _)).
  rewrite (ser_app (ser:=serialize_string_map) (serialize_tables _ _)), <- !app_assoc.
  unfold bind. rewrite des_ser by done. rewrite des_ser by done. by rewrite des_ser.
Qed.

Lemma read_n_empty n : read_n n deserialize_str [] = (replicate n [], []).
Proof. induction n as [|n IH]; [done|]. cbn [read_n replicate]. unfold bind.
  change (deserialize_str []) with (@nil byte, @nil byte). cbv beta iota. by rewrite IH.
Qed.

(** the readers trust the declared count: four bytes make [deserialize_row]
    build a row of as many empty strings as they say, up to 2^32 - 1, without
    any of them being in the buffer. *)
Theorem declared_count_trusted n :
  in_uint 32 n -> deserialize_row (serialize_uint32 [] n) = (replicate (Z.to_nat n) [], []).
Proof.
  intros Hn. unfold deserialize_row, deserialize_list, bind. rewrite <- (app_nil_r (serialize_uint32 [] n)).
  rewrite des_ser by done. apply read_n_empty.
Qed.

(** ** Witnesses *)

Lemma containers_roundtrip_witness :
  (let! t := deserialize_tables in let! x := deserialize_string_map in
   let! a := deserialize_score_array in ret (t, x, a))
    (serialize_score_array (serialize_string_map (serialize_tables [] [[[[x61]; []]]; []])
       [([x61], [x31]); ([x62], [])]) [(4607182418800017408, [x6d])] ++ [xff]) =
  (([[[[x61]; []]]; []], [([x61], [x31]); ([x62], [])], [(4607182418800017408, [x6d])]), [xff]).
Proof.
  apply (containers_roundtrip [[[[x61]; []]]; []] [([x61], [x31]); ([x62], [])]
    [(4607182418800017408, [x6d])] [xff]).
  - by_decide.
  - repeat (constructor || reflexivity).
  - by_decide.
Defined.

Lemma declared_count_trusted_witness :
  deserialize_row [x00; x00; x00; x03] = ([[]; []; []], []).
Proof.
  assert (serialize_uint32 [] 3 = [x00; x00; x00; x03]) as E by (vm_compute; reflexivity).
  rewrite <- E. rewrite (declared_count_trusted 3); [reflexivity|]. unfold in_uint. lia.
Defined.
