(* ===== verification/DbReq.v ===== *)
(** * Database requests and responses on the wire ([wjp/mysql_client_req.hpp],
      [wjp/redis_client_req.hpp], [wjp/mongo_client_req.hpp])

    One record per struct, with the fields that are serialized (a pointer that
    may be null is an option); [req_id] and [retry_times] of the requests are
    not, a deserialized request has them at 0. A request type is its
    enumerator's number, sent as an [int8_t]. BSON documents belong to libbson:
    their type, their bytes and the constructor from bytes are parameters. *)

From S2P Require Import Prelude Serialize.
#[local] Open Scope reader_scope.

(** ** MySQL *)

Definition execQuery : Z := 0.
Definition execRealQuery : Z := 1.
Definition execQueryForResult : Z := 2.
Definition execStatement : Z := 3.
Definition mysqlReqNone : Z := 4.

Record mysql_stmt_req_params := MkStmt {
  params : DataTable;
  paramCols : Z;     (* int *)
  resultCols : Z;    (* int *)
}.

Record mysql_client_req := MkMysqlReq {
  my_version : Z;    (* uint16_t *)
  my_type : Z;
  my_db_slot : Z;    (* uint8_t *)
  my_sql : bytes;
  my_transaction : bool;
  my_stmt_param : option mysql_stmt_req_params;
}.

Definition mysql_newQuery (db_slot : Z) (sql : option bytes) (transaction : bool) : option mysql_client_req :=
  match sql with None => None | Some s => Some (MkMysqlReq 0 execQuery db_slot s transaction None) end.
(** [std::string(sql, length)]. *)
Definition mysql_newRealQuery (db_slot : Z) (sql : option bytes) (length : Z) (transaction : bool)
  : option mysql_client_req :=
  match sql with
  | None => None
  | Some s => Some (MkMysqlReq 0 execRealQuery db_slot (take (Z.to_nat length) s) transaction None)
  end.
Definition mysql_newQueryForResult (db_slot : Z) (sql : option bytes) : option mysql_client_req :=
  match sql with None => None | Some s => Some (MkMysqlReq 0 execQueryForResult db_slot s false None) end.
Definition mysql_newStatement (db_slot : Z) (sql : option bytes) (p : DataTable) (pc rc : Z) (transaction : bool)
  : option mysql_client_req :=
  match sql with
  | None => None
  | Some s => Some (MkMysqlReq 0 execStatement db_slot s transaction (Some (MkStmt p pc rc)))
  end.

Definition mysql_req_serialize (r : mysql_client_req) : bytes :=
  let oss := serialize_uint16 [] (my_version r) in
  let oss := serialize_int8 oss (swrap 8 (my_type r)) in
  let oss := serialize_uint8 oss (my_db_slot r) in
  let oss := serialize_str oss (my_sql r) in
  let oss := serialize_bool oss (my_transaction r) in
  let oss := serialize_bool oss (match my_stmt_param r with Some _ => true | None => false end) in
  match my_stmt_param r with
  | None => oss
  | Some p =>
      let oss := serialize_table oss (params p) in
      let oss := serialize_int32 oss (paramCols p) in
      serialize_int32 oss (resultCols p)
  end.

Definition mysql_stmt_deserialize : D mysql_stmt_req_params :=
  let! t := deserialize_table in
  let! pc := deserialize_int32 in
  let! rc := deserialize_int32 in
  ret (MkStmt t pc rc).

Definition mysql_req_deserialize : D mysql_client_req :=
  let! version := deserialize_uint16 in
  let! type := deserialize_int8 in
  let! db_slot := deserialize_uint8 in
  let! sql := deserialize_str in
  let! transaction := deserialize_bool in
  let! param_exist := deserialize_bool in
  if (param_exist : bool) then
    let! p := mysql_stmt_deserialize in
    ret (MkMysqlReq version type db_slot sql transaction (Some p))
  else ret (MkMysqlReq version type db_slot sql transaction None).

Record mysql_client_resp := MkMysqlResp {
  myr_version : Z;   (* uint16_t *)
  myr_req_id : Z;    (* uint64_t *)
  myr_rc : Z;        (* int *)
  myr_results : DataTables;
  myr_fieldsType : FieldsType;
}.

(** [serialize_int64(req_id)] converts the unsigned id. *)
Definition mysql_resp_serialize (r : mysql_client_resp) : bytes :=
  let oss := serialize_uint16 [] (myr_version r) in
  let oss := serialize_int64 oss (swrap 64 (myr_req_id r)) in
  let oss := serialize_int32 oss (myr_rc r) in
  let oss := serialize_tables oss (myr_results r) in
  serialize_fields_type oss (myr_fieldsType r).

Definition mysql_resp_deserialize : D mysql_client_resp :=
  let! version := deserialize_uint16 in
  let! req_id := deserialize_int64 in
  let! rc := deserialize_int32 in
  let! results := deserialize_tables in
  let! fieldsType := deserialize_fields_type in
  ret (MkMysqlResp version (wrap 64 req_id) rc results fieldsType).

(** ** Redis *)

Definition execCommandStat : Z := 0.
Definition execCommandInt : Z := 1.
Definition execCommandStr : Z := 2.
Definition execCommandSA : Z := 3.
Definition execCommandSM : Z := 4.
Definition execCommandSCA : Z := 5.
Definition redisReqNone : Z := 6.

Record redis_client_req := MkRedisReq {
  rd_version : Z;    (* uint16_t *)
  rd_type : Z;
  rd_db_slot : Z;    (* uint8_t *)
  rd_argv : list bytes;
}.

Definition redis_req_serialize (r : redis_client_req) : bytes :=
  let oss := serialize_uint16 [] (rd_version r) in
  let oss := serialize_int8 oss (rd_type r) in
  let oss := serialize_uint8 oss (rd_db_slot r) in
  let oss := serialize_int32 oss (swrap 32 (size_of (rd_argv r))) in
  foldl serialize_str oss (rd_argv r).

(** [for (int i = 0; i < argc; ++i)]: a negative count reads nothing. *)
Definition redis_req_deserialize : D redis_client_req :=
  let! version := deserialize_uint16 in
  let! type := deserialize_int8 in
  let! db_slot := deserialize_uint8 in
  let! argc := deserialize_int32 in
  let! argv := read_n (Z.to_nat argc) deserialize_str in
  ret (MkRedisReq version type db_slot argv).

Record redis_client_resp := MkRedisResp {
  rr_version : Z;    (* uint16_t *)
  rr_req_id : Z;     (* uint64_t *)
  rr_type : Z;
  rr_rc : Z;         (* int *)
  rr_resStat : bool;
  rr_resInt : Z;     (* int64_t *)
  rr_resStr : bytes;
  rr_resSA : DataRow;
  rr_resSM : StringMap;
  rr_resSCA : ScoreArray;
}.

Definition redis_resp_serialize (r : redis_client_resp) : bytes :=
  let oss := serialize_uint16 [] (rr_version r) in
  let oss := serialize_int64 oss (swrap 64 (rr_req_id r)) in
  let oss := serialize_int8 oss (rr_type r) in
  let oss := serialize_int32 oss (rr_rc r) in
  if rr_type r =? execCommandStat then serialize_int8 oss (if rr_resStat r then 1 else 0)
  else if rr_type r =? execCommandInt then serialize_int64 oss (rr_resInt r)
  else if rr_type r =? execCommandStr then serialize_str oss (rr_resStr r)
  else if rr_type r =? execCommandSA then serialize_row oss (rr_resSA r)
  else if rr_type r =? execCommandSM then serialize_string_map oss (rr_resSM r)
  else if rr_type r =? execCommandSCA then serialize_score_array oss (rr_resSCA r)
  else oss.

Definition redis_resp_deserialize : D redis_client_resp :=
  let! version := deserialize_uint16 in
  let! req_id := deserialize_int64 in
  let! type := deserialize_int8 in
  let! rc := deserialize_int32 in
  let mk := MkRedisResp version (wrap 64 req_id) type rc in
  if type =? execCommandStat then let! v := deserialize_int8 in ret (mk (negb (v =? 0)) 0 [] [] [] [])
  else if type =? execCommandInt then let! v := deserialize_int64 in ret (mk false v [] [] [] [])
  else if type =? execCommandStr then let! v := deserialize_str in ret (mk false 0 v [] [] [])
  else if type =? execCommandSA then let! v := deserialize_row in ret (mk false 0 [] v [] [])
  else if type =? execCommandSM then let! v := deserialize_string_map in ret (mk false 0 [] [] v [])
  else if type =? execCommandSCA then let! v := deserialize_score_array in ret (mk false 0 [] [] [] v)
  else ret (mk false 0 [] [] [] []).

(** ** MongoDB *)

Section mongo.
Context {bson : Type} (bson_get_data : bson -> bytes) (bson_new_from_data : bytes -> option bson).

Definition serialize_bson (oss : bytes) (val : option bson) : bytes :=
  let oss := serialize_bool oss (match val with Some _ => true | None => false end) in
  match val with
  | None => oss
  | Some b => serialize_str oss (bson_get_data b)
  end.

Definition deserialize_bson : D (option bson) :=
  let! exist := deserialize_bool in
  if (exist : bool) then let! bin := deserialize_str in ret (bson_new_from_data bin)
  else ret None.

(** One request of a list; [next] is the rest of the list. *)
Record mongo_one := MkMongoOne {
  mg_version : Z;    (* uint16_t *)
  mg_type : Z;
  mg_db_slot : Z;    (* uint8_t *)
  mg_collName : bytes;
  mg_opts : option bson;
  mg_query : option bson;
  mg_write : option bson;
  mg_mult_write : list (option bson);
}.

(** A request is never empty: the head and what [next] leads to. *)
Definition mongo_client_req : Type := mongo_one * list mongo_one.

(** [append] follows [next] to the end. *)
Definition mongo_append (head req : mongo_client_req) : mongo_client_req :=
  (fst head, snd head ++ fst req :: snd req).

Definition serialize_one (oss : bytes) (r : mongo_one) : bytes :=
  let oss := serialize_uint16 oss (mg_version r) in
  let oss := serialize_int8 oss (mg_type r) in
  let oss := serialize_uint8 oss (mg_db_slot r) in
  let oss := serialize_str oss (mg_collName r) in
  let oss := serialize_bson oss (mg_opts r) in
  let oss := serialize_bson oss (mg_query r) in
  let oss := serialize_bson oss (mg_write r) in
  serialize_list serialize_bson oss (mg_mult_write r).

Definition deserialize_one : D mongo_one :=
  let! version := deserialize_uint16 in
  let! type := deserialize_int8 in
  let! db_slot := deserialize_uint8 in
  let! collName := deserialize_str in
  let! opts := deserialize_bson in
  let! query := deserialize_bson in
  let! write := deserialize_bson in
  let! mult_write := deserialize_list deserialize_bson in
  ret (MkMongoOne version type db_slot collName opts query write mult_write).

Fixpoint mongo_serialize_rest (oss : bytes) (l : list mongo_one) : bytes :=
  match l with
  | [] => serialize_bool oss false
  | r :: l => mongo_serialize_rest (serialize_one (serialize_bool oss true) r) l
  end.

Definition mongo_req_serialize (r : mongo_client_req) : bytes :=
  mongo_serialize_rest (serialize_one [] (fst r)) (snd r).

(** [while (next)]; [None] when the fuel does not suffice. *)
Fixpoint mongo_deserialize_rest (fuel : nat) (s : bytes) : option (list mongo_one * bytes) :=
  match fuel with
  | O => None
  | S fuel =>
      let '(next, s1) := deserialize_bool s in
      if (next : bool) then
        let '(r, s2) := deserialize_one s1 in
        match mongo_deserialize_rest fuel s2 with
        | None => None
        | Some (l, s3) => Some (r :: l, s3)
        end
      else Some ([], s1)
  end.

Definition mongo_req_deserialize (data : bytes) : option (mongo_client_req * bytes) :=
  let '(head, s1) := deserialize_one data in
  match mongo_deserialize_rest (S (length s1)) s1 with
  | None => None
  | Some (l, s2) => Some ((head, l), s2)
  end.

Record mongo_client_resp := MkMongoResp {
  mgr_version : Z;   (* uint16_t *)
  mgr_req_id : Z;    (* uint64_t *)
  mgr_rc : Z;        (* int *)
  mgr_reply : option bson;
  mgr_result_docs : list (option bson);
}.

Definition mongo_resp_serialize (r : mongo_client_resp) : bytes :=
  let oss := serialize_uint16 [] (mgr_version r) in
  let oss := serialize_int64 oss (swrap 64 (mgr_req_id r)) in
  let oss := serialize_int32 oss (mgr_rc r) in
  let oss := serialize_bson oss (mgr_reply r) in
  serialize_list serialize_bson oss (mgr_result_docs r).

Definition mongo_resp_deserialize : D mongo_client_resp :=
  let! version := deserialize_uint16 in
  let! req_id := deserialize_int64 in
  let! rc := deserialize_int32 in
  let! reply := deserialize_bson in
  let! docs := deserialize_list deserialize_bson in
  ret (MkMongoResp version (wrap 64 req_id) rc reply docs).

End mongo.
Arguments mongo_one : clear implicits.
Arguments mongo_client_resp : clear implicits.

(** ** What fits the wire *)

Definition stmt_ok (p : mysql_stmt_req_params) : Prop :=
  table_ok (params p) /\ in_sint 32 (paramCols p) /\ in_sint 32 (resultCols p).
Definition mysql_req_ok (r : mysql_client_req) : Prop :=
  in_uint 16 (my_version r) /\ in_sint 8 (my_type r) /\ in_uint 8 (my_db_slot r) /\ str_ok (my_sql r) /\
  (forall p, my_stmt_param r = Some p -> stmt_ok p).
Definition mysql_resp_ok (r : mysql_client_resp) : Prop :=
  in_uint 16 (myr_version r) /\ in_uint 64 (myr_req_id r) /\ in_sint 32 (myr_rc r) /\
  tables_ok (myr_results r) /\ fields_ok (myr_fieldsType r).
Definition redis_req_ok (r : redis_client_req) : Prop :=
  in_uint 16 (rd_version r) /\ in_sint 8 (rd_type r) /\ in_uint 8 (rd_db_slot r) /\
  size_of (rd_argv r) < 2 ^ 31 /\ Forall str_ok (rd_argv r).

(** A response carries the result of its own type; the other results are as
    the constructor leaves them. *)
Definition redis_result_ok (r : redis_client_resp) : Prop :=
  let t := rr_type r in
  (in_sint 64 (rr_resInt r) /\ str_ok (rr_resStr r) /\ row_ok (rr_resSA r) /\
   string_map_ok (rr_resSM r) /\ scores_ok (rr_resSCA r)) /\
  (t <> execCommandStat -> rr_resStat r = false) /\ (t <> execCommandInt -> rr_resInt r = 0) /\
  (t <> execCommandStr -> rr_resStr r = []) /\ (t <> execCommandSA -> rr_resSA r = []) /\
  (t <> execCommandSM -> rr_resSM r = []) /\ (t <> execCommandSCA -> rr_resSCA r = []).
Definition redis_resp_ok (r : redis_client_resp) : Prop :=
  in_uint 16 (rr_version r) /\ in_uint 64 (rr_req_id r) /\ in_sint 8 (rr_type r) /\ in_sint 32 (rr_rc r) /\
  redis_result_ok r.

(** ** Proof steps *)

(** Move every serializer's output out of its accumulator. *)
Ltac flat f :=
  repeat match goal with
  | |- context [f ?oss ?v] =>
      lazymatch oss with [] => fail | _ => rewrite (ser_app (ser:=f) oss v) end
  end.

Ltac flatten :=
  flat serialize_uint16; flat serialize_int8; flat serialize_uint8; flat serialize_str; flat serialize_bool;
  flat serialize_int32; flat serialize_int64; flat serialize_table; flat serialize_tables;
  flat serialize_fields_type; flat serialize_row; flat serialize_string_map; flat serialize_score_array;
  rewrite <- ?app_assoc.

(** Read one item back; the condition is a hypothesis. *)
Ltac read1 := rewrite des_ser by (auto with tszy; done); cbv beta iota.
Ltac reads := unfold bind, ret; repeat read1.

#[export] Hint Resolve swrap_range : tszy.

Lemma stmt_roundtrip p rest :
  stmt_ok p ->
  mysql_stmt_deserialize
    (serialize_int32 (serialize_int32 (serialize_table [] (params p)) (paramCols p)) (resultCols p) ++ rest) = (p, rest).
Proof.
  intros (Ht & Hp & Hr). unfold mysql_stmt_deserialize. flatten. reads. by destruct p.
Qed.

(** ** Properties *)

(** a MySQL request survives the wire: every field of every request whose
    sizes fit the counts is restored, the statement parameters included, and
    nothing behind the message is consumed. *)
Theorem mysql_req_roundtrip r rest :
  mysql_req_ok r -> mysql_req_deserialize (mysql_req_serialize r ++ rest) = (r, rest).
Proof.
  intros (Hv & Ht & Hd & Hs & Hp). unfold mysql_req_serialize. rewrite (swrap_id 8) by done.
  destruct r as [version type slot sql trans sp]. cbn [my_version my_type my_db_slot my_sql my_transaction my_stmt_param] in *.
  destruct sp as [p|].
  - specialize (Hp p eq_refl) as (Htb & Hpc & Hrc). flatten. unfold mysql_req_deserialize.
    unfold bind at 1. read1. unfold bind at 1. read1. unfold bind at 1. read1. unfold bind at 1. read1.
    unfold bind at 1. read1. unfold bind at 1. read1. unfold mysql_stmt_deserialize. reads. by destruct p.
  - flatten. unfold mysql_req_deserialize. reads. done.
Qed.

(** a MySQL response survives the wire: request id, result code, every
    result table and the field types. *)
Theorem mysql_resp_roundtrip r rest :
  mysql_resp_ok r -> mysql_resp_deserialize (mysql_resp_serialize r ++ rest) = (r, rest).
Proof.
  intros (Hv & Hi & Hc & Ht & Hf). unfold mysql_resp_serialize, mysql_resp_deserialize. flatten. reads.
  rewrite wrap_swrap, wrap_id by done. by destruct r.
Qed.

(** a Redis request survives the wire. *)
Theorem redis_req_roundtrip r rest :
  redis_req_ok r -> redis_req_deserialize (redis_req_serialize r ++ rest) = (r, rest).
Proof.
  intros (Hv & Ht & Hd & Hs & Ha). pose proof (size_of_nonneg (rd_argv r)).
  assert (in_sint 32 (size_of (rd_argv r))) as Hsz
    by (unfold in_sint; change (2 ^ (32 - 1)) with (2 ^ 31); lia).
  unfold redis_req_serialize, redis_req_deserialize.
  rewrite (foldl_ser serialize_str deserialize_str str_ok), swrap_id by done. flatten.
  unfold bind at 1. read1. unfold bind at 1. read1. unfold bind at 1. read1. unfold bind at 1. read1.
  unfold bind, ret. unfold size_of. rewrite Nat2Z.id, (read_n_ser serialize_str deserialize_str str_ok) by done.
  by destruct r.
Qed.

(** a Redis response survives the wire, for each of the six result kinds:
    the result of its type comes back, as do the request id and the code. *)
Theorem redis_resp_roundtrip r rest :
  redis_resp_ok r -> redis_resp_deserialize (redis_resp_serialize r ++ rest) = (r, rest).
Proof.
  intros (Hv & Hi & Ht & Hc & (Hn & Hs & Hsa & Hsm & Hsca) & H1 & H2 & H3 & H4 & H5 & H6).
  unfold redis_resp_serialize, redis_resp_deserialize.
  unfold execCommandStat, execCommandInt, execCommandStr, execCommandSA, execCommandSM, execCommandSCA in *.
  destruct r as [v id ty rc st n s sa sm sca]; cbn [rr_version rr_req_id rr_type rr_rc rr_resStat rr_resInt rr_resStr rr_resSA rr_resSM rr_resSCA] in *.
  assert (wrap 64 (swrap 64 id) = id) as Hid by (rewrite wrap_swrap, wrap_id by done; done).
  assert (in_sint 8 (if st then 1 else 0)) as Hb by (by destruct st).
  repeat match goal with |- context [ty =? ?k] => destruct (Z.eqb_spec ty k) end;
    flatten; unfold bind, ret; do 4 read1;
    repeat match goal with |- context [ty =? ?k] => destruct (Z.eqb_spec ty k) end; try congruence;
    try read1; rewrite ?Hid, ?H1, ?H2, ?H3, ?H4, ?H5, ?H6 by congruence; try done; by destruct st.
Qed.

(** *** MongoDB *)

(** Readers never give back more than they got. *)
Definition shrinks {A} (d : D A) : Prop := forall s, (length (snd (d s)) <= length s)%nat.

Lemma shrinks_ret {A} (a : A) : shrinks (ret a).
Proof. by intros s. Qed.

Lemma shrinks_bind {A B} (d : D A) (f : A -> D B) :
  shrinks d -> (forall a, shrinks (f a)) -> shrinks (bind d f).
Proof.
  intros Hd Hf s. unfold bind. specialize (Hd s). destruct (d s) as [a s1]. cbn [snd] in Hd.
  specialize (Hf a s1). lia.
Qed.

Lemma shrinks_read_int n f : shrinks (read_int n f).
Proof. intros s. unfold read_int. case_if; cbn [snd]; rewrite ?length_drop; lia. Qed.

Create HintDb shrinks.
#[export] Hint Resolve shrinks_ret shrinks_bind shrinks_read_int : shrinks.

Lemma shrinks_uint32 : shrinks deserialize_uint32.
Proof. apply shrinks_read_int. Qed.
Lemma shrinks_uint8 : shrinks deserialize_uint8.
Proof. apply shrinks_read_int. Qed.
Lemma shrinks_uint16 : shrinks deserialize_uint16.
Proof. apply shrinks_read_int. Qed.
#[export] Hint Resolve shrinks_uint32 shrinks_uint8 shrinks_uint16 : shrinks.

Lemma shrinks_int8 : shrinks deserialize_int8.
Proof. unfold deserialize_int8. auto with shrinks. Qed.
Lemma shrinks_bool : shrinks deserialize_bool.
Proof. unfold deserialize_bool. auto with shrinks. Qed.
Lemma shrinks_str : shrinks deserialize_str.
Proof.
  unfold deserialize_str. apply shrinks_bind; [auto with shrinks|]. intros size s.
  case_if; cbn [snd]; rewrite ?length_drop; lia.
Qed.
#[export] Hint Resolve shrinks_int8 shrinks_bool shrinks_str : shrinks.

Lemma shrinks_read_n {A} n (d : D A) : shrinks d -> shrinks (read_n n d).
Proof. intros Hd. induction n as [|n IH]; cbn [read_n]; auto with shrinks. Qed.
Lemma shrinks_list {A} (d : D A) : shrinks d -> shrinks (deserialize_list d).
Proof. intros Hd. unfold deserialize_list. auto using shrinks_read_n with shrinks. Qed.
#[export] Hint Resolve shrinks_list : shrinks.

Section mongo_proofs.
Context {bson : Type} (bson_get_data : bson -> bytes) (bson_new_from_data : bytes -> option bson).

Lemma shrinks_bson : shrinks (deserialize_bson bson_new_from_data).
Proof.
  unfold deserialize_bson. apply shrinks_bind; [auto with shrinks|]. intros []; auto with shrinks.
Qed.
Hint Resolve shrinks_bson : shrinks.

Lemma shrinks_one : shrinks (deserialize_one bson_new_from_data).
Proof. unfold deserialize_one. auto 20 with shrinks. Qed.

Lemma deserialize_bool_next s s1 : deserialize_bool s = (true, s1) -> (length s1 < length s)%nat.
Proof.
  unfold deserialize_bool, bind, deserialize_uint8, read_int, ret. case_if; [done|]. bool_Z.
  intros [= _ <-]. rewrite length_drop. unfold size_of in *. lia.
Qed.

Lemma mongo_rest_total fuel s :
  (length s < fuel)%nat -> exists l s', mongo_deserialize_rest bson_new_from_data fuel s = Some (l, s').
Proof.
  revert s. induction fuel as [|fuel IH]; intros s Hs; [lia|]. cbn [mongo_deserialize_rest].
  destruct (deserialize_bool s) as [next s1] eqn:Eb. destruct next; [|eauto].
  apply deserialize_bool_next in Eb. pose proof (shrinks_one s1) as Hone.
  destruct (deserialize_one bson_new_from_data s1) as [r s2]. cbn [snd] in Hone.
  destruct (IH s2) as (l & s3 & ->); [lia|]. eauto.
Qed.

(** libbson: a document rebuilt from its own bytes is that document. *)
Context (Hbson : forall b, bson_new_from_data (bson_get_data b) = Some b).

Definition bson_ok (v : option bson) : Prop :=
  match v with Some b => str_ok (bson_get_data b) | None => True end.

#[export] Instance bson_ok_dec v : Decision (bson_ok v).
Proof. unfold bson_ok. destruct v; apply _. Defined.

#[local] Instance bson_codec :
  Codec (serialize_bson bson_get_data) (deserialize_bson bson_new_from_data) bson_ok.
Proof.
  split.
  - intros oss [b|]; unfold serialize_bson; [flat serialize_str|]; flat serialize_bool; by rewrite ?app_assoc.
  - intros [b|] rest Hok; unfold serialize_bson, deserialize_bson, bind, ret.
    + cbn in Hok. flat serialize_str. rewrite <- app_assoc. read1. read1. by rewrite Hbson.
    + read1. done.
Qed.

Definition mongo_one_ok (r : mongo_one bson) : Prop :=
  in_uint 16 (mg_version r) /\ in_sint 8 (mg_type r) /\ in_uint 8 (mg_db_slot r) /\ str_ok (mg_collName r) /\
  bson_ok (mg_opts r) /\ bson_ok (mg_query r) /\ bson_ok (mg_write r) /\ list_ok bson_ok (mg_mult_write r).

#[local] Instance mult_codec :
  Codec (serialize_list (serialize_bson bson_get_data)) (deserialize_list (deserialize_bson bson_new_from_data))
    (list_ok bson_ok).
Proof. apply list_codec, _. Qed.

#[local] Instance one_codec :
  Codec (serialize_one bson_get_data) (deserialize_one bson_new_from_data) mongo_one_ok.
Proof.
  split.
  - intros oss r. unfold serialize_one. flat (serialize_list (serialize_bson bson_get_data)).
    flat (serialize_bson bson_get_data). flatten. by rewrite ?app_assoc.
  - intros r rest (Hv & Ht & Hd & Hc & Ho & Hq & Hw & Hm). unfold serialize_one, deserialize_one.
    flat (serialize_list (serialize_bson bson_get_data)). flat (serialize_bson bson_get_data). flatten.
    reads. by destruct r.
Qed.

Lemma mongo_rest_app oss l :
  mongo_serialize_rest bson_get_data oss l = oss ++ mongo_serialize_rest bson_get_data [] l.
Proof.
  revert oss. induction l as [|r l IH]; intros oss; cbn [mongo_serialize_rest]; [apply ser_app|].
  rewrite IH, (IH (serialize_one _ (serialize_bool [] true) r)).
  rewrite (ser_app (ser:=serialize_one bson_get_data)), (ser_app (ser:=serialize_one bson_get_data) (serialize_bool [] true)).
  rewrite (ser_app (ser:=serialize_bool)). by rewrite <- !app_assoc.
Qed.

Lemma size_serialize_bool b : length (serialize_bool [] b) = 1%nat.
Proof. by destruct b. Qed.

Lemma mongo_rest_roundtrip fuel l rest :
  Forall mongo_one_ok l -> (length (mongo_serialize_rest bson_get_data [] l ++ rest) < fuel)%nat ->
  mongo_deserialize_rest bson_new_from_data fuel (mongo_serialize_rest bson_get_data [] l ++ rest) = Some (l, rest).
Proof.
  intros Hl. revert fuel. induction Hl as [|r l Hr Hl IH]; intros [|fuel] Hf; try lia;
    cbn [mongo_serialize_rest mongo_deserialize_rest] in *.
  - read1. done.
  - rewrite mongo_rest_app, (ser_app (ser:=serialize_one bson_get_data) (serialize_bool [] true)), <- !app_assoc in *.
    read1. rewrite des_ser by done. rewrite !length_app, size_serialize_bool in Hf.
    rewrite IH; [done|]. rewrite !length_app. cbn [length]. lia.
Qed.

(** a MongoDB request survives the wire, the chain of a bulk or a
    transaction included: every request of the chain in order, with its
    documents; and reading terminates on any bytes whatever. *)
Theorem mongo_req_roundtrip r rest :
  mongo_one_ok (fst r) -> Forall mongo_one_ok (snd r) ->
  mongo_req_deserialize bson_new_from_data (mongo_req_serialize bson_get_data r ++ rest) = Some (r, rest) /\
  forall data, exists r' s', mongo_req_deserialize bson_new_from_data data = Some (r', s').
Proof.
  intros Hh Ht. split.
  - unfold mongo_req_serialize, mongo_req_deserialize. rewrite mongo_rest_app, <- app_assoc.
    rewrite des_ser by done. rewrite mongo_rest_roundtrip; [by destruct r|done|lia].
  - intros data. unfold mongo_req_deserialize. destruct (deserialize_one _ data) as [h s1].
    destruct (mongo_rest_total (S (length s1)) s1) as (l & s2 & ->); [lia|]. eauto.
Qed.

Definition mongo_resp_ok (r : mongo_client_resp bson) : Prop :=
  in_uint 16 (mgr_version r) /\ in_uint 64 (mgr_req_id r) /\ in_sint 32 (mgr_rc r) /\
  bson_ok (mgr_reply r) /\ list_ok bson_ok (mgr_result_docs r).

(** a MongoDB response survives the wire. *)
Theorem mongo_resp_roundtrip r rest :
  mongo_resp_ok r ->
  mongo_resp_deserialize bson_new_from_data (mongo_resp_serialize bson_get_data r ++ rest) = (r, rest).
Proof.
  intros (Hv & Hi & Hc & Hr & Hd). unfold mongo_resp_serialize, mongo_resp_deserialize.
  flat (serialize_list (serialize_bson bson_get_data)). flat (serialize_bson bson_get_data). flatten. reads.
  rewrite wrap_swrap, wrap_id by done. by destruct r.
Qed.

End mongo_proofs.

(** ** Witnesses *)

Definition sample_stmt : mysql_client_req :=
  MkMysqlReq 1 execStatement 2 [x73; x65; x6c] true (Some (MkStmt [[[x31]; [x32]]; [[x33]; []]] 2 (-1))).

Lemma mysql_req_roundtrip_witness :
  mysql_req_deserialize (mysql_req_serialize sample_stmt ++ [x2a]) = (sample_stmt, [x2a]).
Proof.
  apply (mysql_req_roundtrip sample_stmt [x2a]). split_and!; [by_decide..|].
  intros p [= <-]. split_and!; by_decide.
Defined.

Lemma mysql_resp_roundtrip_witness :
  let r := MkMysqlResp 1 18446744073709551615 (-7) [[[[x61]]]; []] [253; 3] in
  mysql_resp_deserialize (mysql_resp_serialize r ++ []) = (r, []).
Proof.
  apply (mysql_resp_roundtrip (MkMysqlResp 1 18446744073709551615 (-7) [[[[x61]]]; []] [253; 3]) []).
  split_and!; by_decide.
Defined.

Lemma redis_req_roundtrip_witness :
  let r := MkRedisReq 0 execCommandStr 1 [[x47; x45; x54]; [x6b]] in
  redis_req_deserialize (redis_req_serialize r ++ [x00]) = (r, [x00]).
Proof.
  apply (redis_req_roundtrip (MkRedisReq 0 execCommandStr 1 [[x47; x45; x54]; [x6b]]) [x00]).
  split_and!; by_decide.
Defined.

Lemma redis_resp_roundtrip_witness :
  let r := MkRedisResp 0 42 execCommandSM 0 false 0 [] [] [([x61], [x31]); ([x62], [x32])] [] in
  redis_resp_deserialize (redis_resp_serialize r ++ []) = (r, []).
Proof.
  apply (redis_resp_roundtrip (MkRedisResp 0 42 execCommandSM 0 false 0 [] [] [([x61], [x31]); ([x62], [x32])] []) []).
  split_and!; try by_decide; try (by intros []).
Defined.

(** Documents that are their own bytes. *)
Definition sample_chain : mongo_client_req :=
  (MkMongoOne (bson := bytes) 1 11 0 [x63] None (Some [x05]) None [],
   [MkMongoOne 1 2 0 [] None None (Some [x01; x02]) []; MkMongoOne 1 3 0 [] None None None [Some []; None]]).

Lemma sample_chain_ok : Forall (mongo_one_ok id) (fst sample_chain :: snd sample_chain).
Proof. unfold mongo_one_ok. by_decide. Qed.

Lemma mongo_req_roundtrip_witness :
  mongo_req_deserialize Some (mongo_req_serialize id sample_chain ++ [x01]) = Some (sample_chain, [x01]) /\
  forall data : bytes, exists r' s', mongo_req_deserialize (bson := bytes) Some data = Some (r', s').
Proof.
  pose proof (proj1 (Forall_cons _ _ _) sample_chain_ok) as [Hh Ht].
  exact (mongo_req_roundtrip id Some (fun _ => eq_refl) sample_chain [x01] Hh Ht).
Defined.

Lemma mongo_resp_roundtrip_witness :
  let r := MkMongoResp (bson := bytes) 0 9 0 None [Some [x05; x00]] in
  mongo_resp_deserialize Some (mongo_resp_serialize id r ++ []) = (r, []).
Proof.
  apply (mongo_resp_roundtrip id Some (fun _ => eq_refl) (MkMongoResp (bson := bytes) 0 9 0 None [Some [x05; x00]]) []).
  unfold mongo_resp_ok. by_decide.
Defined.
