(* ===== verification/BsonOwn.v ===== *)
(** * Who destroys a BSON document ([wjp/mongo_client_req.hpp])

    [bson_ptr], the owner of one document; the destructor of a
    [mongo_client_req], which owns its documents, an array of documents, read
    preferences and the rest of a list of requests; the destructor of a
    [mongo_client_resp]; [append].

    Documents, arrays and preferences are blocks at addresses; destroying one
    that is not there, or as something else than it is, is undefined. [m_freed]
    is a ghost: the addresses destroyed, in their order. Two depths are told
    apart by their fuel: [stack], how often a destructor may run inside another,
    and [loop], the turns of a loop. *)

From S2P Require Import Prelude Effect.
#[local] Open Scope effect_scope.

Inductive kind := BsonDoc | PtrArray | ReadPrefs.

#[export] Instance kind_eq_dec : EqDecision kind.
Proof. solve_decision. Defined.

(** [mongo_client_req], the fields that own something: [mult_write] is the array
    and its [mwrite_size] elements. *)
Record req_node := MkReqNode {
  rn_opts : option Z;
  rn_query : option Z;
  rn_write : option Z;
  rn_mult_write : option (Z * list (option Z));
  rn_read_prefs : option Z;
  rn_next : option Z;
}.

Record mem := MkMem {
  m_blocks : gmap Z kind;
  m_nodes : gmap Z req_node;
  m_ptrs : gmap Z (option Z);   (* the [bson_ptr]s that exist *)
  m_freed : list Z;
}.

Abbreviation M := (eff mem).

Definition set_next (p : option Z) (n : req_node) : req_node :=
  MkReqNode (rn_opts n) (rn_query n) (rn_write n) (rn_mult_write n) (rn_read_prefs n) p.
Definition with_nodes (h : gmap Z req_node) (s : mem) : mem := MkMem (m_blocks s) h (m_ptrs s) (m_freed s).
Definition with_ptrs (q : gmap Z (option Z)) (s : mem) : mem := MkMem (m_blocks s) (m_nodes s) q (m_freed s).

(** [bson_destroy], [ZBF_FREE], [mongoc_read_prefs_destroy]. *)
Definition release (k : kind) (a : Z) : M unit := fun s =>
  if decide (m_blocks s !! a = Some k)
  then Some (tt, MkMem (delete a (m_blocks s)) (m_nodes s) (m_ptrs s) (m_freed s ++ [a])) else None.

(** [if (p) bson_destroy(p)]; [bson_destroy] itself does nothing with a null pointer. *)
Definition release_if (k : kind) (p : option Z) : M unit :=
  match p with Some a => release k a | None => ret tt end.

Fixpoint for_each {A} (f : A -> M unit) (l : list A) : M unit :=
  match l with [] => ret tt | a :: l => f a ;; for_each f l end.

(** ** [bson_ptr] *)

Definition the_ptr (x : Z) : M (option Z) := fun s =>
  match m_ptrs s !! x with Some p => Some (p, s) | None => None end.
Definition put_ptr (x : Z) (p : option Z) : M unit := modify (fun s => with_ptrs (<[x := p]> (m_ptrs s)) s).

(** [bson_ptr(bson_t* bp)]; without an argument the pointer is null. *)
Definition bson_ptr_new (x : Z) (bp : option Z) : M unit := put_ptr x bp.

Definition bson_ptr_move (x o : Z) : M unit :=
  let* p := the_ptr o in put_ptr x p ;; put_ptr o None.

Definition bson_ptr_assign (x o : Z) : M unit :=
  if Z.eqb x o then ret tt else
  let* p := the_ptr x in
  release_if BsonDoc p ;;
  let* q := the_ptr o in
  put_ptr x q ;; put_ptr o None.

Definition bson_ptr_destroy (x : Z) : M unit :=
  let* p := the_ptr x in
  release_if BsonDoc p ;;
  modify (fun s => with_ptrs (delete x (m_ptrs s)) s).

(** ** [mongo_client_req] *)

Definition node (a : Z) : M req_node := fun s =>
  match m_nodes s !! a with Some n => Some (n, s) | None => None end.
Definition move_next (a : Z) (p : option Z) : M unit := fun s =>
  match m_nodes s !! a with
  | Some n => Some (tt, with_nodes (<[a := set_next p n]> (m_nodes s)) s)
  | None => None
  end.

Definition destroy_members (n : req_node) : M unit :=
  release_if BsonDoc (rn_opts n) ;;
  release_if BsonDoc (rn_query n) ;;
  release_if BsonDoc (rn_write n) ;;
  match rn_mult_write n with
  | Some (arr, docs) => for_each (release_if BsonDoc) docs ;; release PtrArray arr
  | None => ret tt
  end ;;
  release_if ReadPrefs (rn_read_prefs n).

(** [while (next)]: [current] is destroyed at the end of each turn, when its own
    [next] has been moved away. *)
Fixpoint drain_next (del : Z -> M unit) (loop : nat) (this : Z) : M unit :=
  match loop with
  | O => undefined
  | S loop =>
      let* n := node this in
      match rn_next n with
      | None => ret tt
      | Some current =>
          move_next this None ;;
          let* c := node current in
          move_next current None ;;
          move_next this (rn_next c) ;;
          del current ;;
          drain_next del loop this
      end
  end.

(** [delete req]: the destructor, and the end of the object. *)
Fixpoint delete_req (stack loop : nat) (this : Z) : M unit :=
  match stack with
  | O => undefined
  | S stack =>
      let* n := node this in
      destroy_members n ;;
      drain_next (delete_req stack loop) loop this ;;
      modify (fun s => with_nodes (delete this (m_nodes s)) s)
  end.

(** [append]: [while (tail->next != nullptr)]. *)
Fixpoint find_tail (loop : nat) (tail : Z) : M Z :=
  match loop with
  | O => undefined
  | S loop =>
      let* n := node tail in
      match rn_next n with Some t => find_tail loop t | None => ret tail end
  end.

Definition append (loop : nat) (head req : Z) : M unit :=
  let* tail := find_tail loop head in move_next tail (Some req).

(** ** [mongo_client_resp]: the body of the destructor, then its vector *)

Definition resp_destroy (reply : option Z) (result_docs : list Z) : M unit :=
  release_if BsonDoc reply ;; for_each bson_ptr_destroy result_docs.

(** ** What a list of requests owns *)

Definition doc_of (k : kind) (p : option Z) : list (kind * Z) :=
  match p with Some a => [(k, a)] | None => [] end.

Definition members (n : req_node) : list (kind * Z) :=
  doc_of BsonDoc (rn_opts n) ++ doc_of BsonDoc (rn_query n) ++ doc_of BsonDoc (rn_write n) ++
  match rn_mult_write n with
  | Some (arr, docs) => concat (doc_of BsonDoc <$> docs) ++ [(PtrArray, arr)]
  | None => []
  end ++ doc_of ReadPrefs (rn_read_prefs n).

Inductive chain (h : gmap Z req_node) : option Z -> list (Z * req_node) -> Prop :=
  | chain_nil : chain h None []
  | chain_cons a n l : h !! a = Some n -> chain h (rn_next n) l -> chain h (Some a) ((a, n) :: l).

Definition members_of (l : list (Z * req_node)) : list (kind * Z) := concat (members ∘ snd <$> l).

(** Each member is there, as what it is, and is owned once. *)
Definition owned (s : mem) (l : list (kind * Z)) : Prop :=
  NoDup l.*2 /\ Forall (fun b => m_blocks s !! b.2 = Some b.1) l.

(** A map without some of its keys. *)
Definition without {V} (l : list Z) (m : gmap Z V) : gmap Z V := foldr delete m l.

(** The memory when the members [l] and the requests [r] are gone. *)
Definition gone (l : list (kind * Z)) (r : list Z) (s : mem) : mem :=
  MkMem (without l.*2 (m_blocks s)) (without r (m_nodes s)) (m_ptrs s) (m_freed s ++ l.*2).

Lemma lookup_without {V} (l : list Z) (m : gmap Z V) a : without l m !! a = if decide (a ∈ l) then None else m !! a.
Proof.
  induction l as [|b l IH]; simpl; [done|].
  rewrite lookup_delete, IH. repeat case_decide; set_solver.
Qed.

Lemma without_app {V} (l l' : list Z) (m : gmap Z V) : without (l ++ l') m = without l' (without l m).
Proof. apply map_eq. intros a. rewrite !lookup_without. repeat case_decide; set_solver. Qed.

Lemma gone_app l l' r r' s : gone (l ++ l') (r ++ r') s = gone l' r' (gone l r s).
Proof. unfold gone. simpl. by rewrite fmap_app, !without_app, <- app_assoc. Qed.

Definition releases (l : list (kind * Z)) : M unit := for_each (fun b => release b.1 b.2) l.

Lemma releases_app l l' s : releases (l ++ l') s = (releases l ;; releases l') s.
Proof.
  revert s. induction l as [|b l IH]; intros s; [done|]. unfold releases, bind in *. simpl. unfold bind.
  destruct (release _ _ _) as [[[] s1]|]; [|done]. apply IH.
Qed.

Lemma release_if_members k p s : release_if k p s = releases (doc_of k p) s.
Proof. destruct p as [a|]; simpl; [|done]. unfold releases. simpl. unfold bind, ret. by destruct (release _ _ _) as [[[] ?]|]. Qed.

Lemma bind_ext {A C} (m m' : M A) (f f' : A -> M C) s :
  m s = m' s -> (forall a s', f a s' = f' a s') -> bind m f s = bind m' f' s.
Proof. intros Hm Hf. unfold bind. rewrite Hm. by destruct (m' s) as [[a s1]|]. Qed.

Lemma destroy_members_are n s : destroy_members n s = releases (members n) s.
Proof.
  unfold destroy_members, members.
  rewrite releases_app. apply bind_ext; [apply release_if_members|]. intros _ s1.
  rewrite releases_app. apply bind_ext; [apply release_if_members|]. intros _ s2.
  rewrite releases_app. apply bind_ext; [apply release_if_members|]. intros _ s3.
  rewrite releases_app. apply bind_ext; [|intros _ s4; apply release_if_members].
  destruct (rn_mult_write n) as [[arr docs]|]; [|done].
  rewrite releases_app. apply bind_ext.
  - revert s3. induction docs as [|d docs IH]; intros s3; [done|]. simpl.
    rewrite releases_app. apply bind_ext; [apply release_if_members|]. intros _ s4. apply IH.
  - intros _ s4. apply (release_if_members PtrArray (Some arr)).
Qed.

Lemma owned_cons s b l : owned s (b :: l) -> m_blocks s !! b.2 = Some b.1 /\ (b.2 ∉ l.*2) /\ owned s l.
Proof. unfold owned. rewrite fmap_cons, NoDup_cons, Forall_cons. tauto. Qed.

Lemma owned_gone s l l' r : owned s (l ++ l') -> owned s l /\ owned (gone l r s) l'.
Proof.
  intros [Hn Hf]. rewrite fmap_app in Hn. apply NoDup_app in Hn as (Hn & Hd & Hn'). apply Forall_app in Hf as [Hf Hf'].
  split; [done|]. split; [done|]. rewrite Forall_forall in Hf' |- *. intros b Hb. simpl.
  rewrite lookup_without, decide_False; [by apply Hf'|]. intros Hin. apply (Hd _ Hin). by apply list_elem_of_fmap_2.
Qed.

Lemma releases_exact l s : owned s l -> releases l s = Some (tt, gone l [] s).
Proof.
  revert s. induction l as [|b l IH]; intros s H; [unfold gone; simpl; rewrite app_nil_r; by destruct s|].
  destruct (owned_cons _ _ _ H) as (Hb & _ & _). destruct (owned_gone s [b] l [] H) as [_ H'].
  change (releases (b :: l) s) with (bind (release b.1 b.2) (fun _ => releases l) s).
  unfold bind, release. rewrite decide_True by done.
  change (releases l (gone [b] [] s) = Some (tt, gone ([b] ++ l) ([] ++ []) s)). by rewrite gone_app, IH.
Qed.

(** ** Lists of requests *)

Lemma chain_det h p l l' : chain h p l -> chain h p l' -> l = l'.
Proof.
  intros H. revert l'. induction H as [|a n l E H IH]; inversion 1 as [|? n' ? E']; [done|]; simplify_eq.
  f_equal. by apply IH.
Qed.

Lemma chain_suffix h p l1 a n l2 : chain h p (l1 ++ (a, n) :: l2) -> chain h (Some a) ((a, n) :: l2).
Proof.
  revert p. induction l1 as [|b l1 IH]; intros p H; [by inversion H; subst; constructor|].
  inversion H; subst. by eapply IH.
Qed.

(** A list that ends does not come back to a request. *)
Lemma chain_nodup h p l : chain h p l -> NoDup l.*1.
Proof.
  induction 1 as [|a n l E H IH]; [constructor|]. simpl. constructor; [|done].
  intros ([a' n'] & [= <-] & Hin)%list_elem_of_fmap. apply list_elem_of_split in Hin as (l1 & l2 & ->).
  pose proof (chain_suffix _ _ _ _ _ _ H) as H1.
  pose proof (chain_det _ _ _ _ H1 (chain_cons h a n _ E H)) as E2. apply (f_equal length) in E2.
  simpl in E2. rewrite length_app in E2. simpl in E2. lia.
Qed.

Lemma chain_agree h h' p l : chain h p l -> (forall a, a ∈ l.*1 -> h' !! a = h !! a) -> chain h' p l.
Proof.
  induction 1 as [|a n l E H IH]; intros Hh; constructor.
  - rewrite Hh; [done|set_solver].
  - apply IH. set_solver.
Qed.

(** A request that nothing follows: one destructor, one turn. *)
Lemma delete_leaf stack loop a n s :
  m_nodes s !! a = Some n -> rn_next n = None -> owned s (members n) ->
  delete_req (Datatypes.S stack) (Datatypes.S loop) a s = Some (tt, gone (members n) [a] s).
Proof.
  intros Ea En Ho. simpl. unfold bind at 1, node. rewrite Ea.
  rewrite (bind_eq _ _ _ _ _ (eq_trans (destroy_members_are n s) (releases_exact _ _ Ho))).
  unfold bind, node. simpl. by rewrite Ea, En.
Qed.

Lemma node_eq a n (s : mem) : m_nodes s !! a = Some n -> node a s = Some (n, s).
Proof. unfold node. by intros ->. Qed.

Lemma move_next_eq a n p (s : mem) :
  m_nodes s !! a = Some n -> move_next a p s = Some (tt, with_nodes (<[a := set_next p n]> (m_nodes s)) s).
Proof. unfold move_next. by intros ->. Qed.

(** The state at the end of [while (next)] is that of the requests after [this] gone. *)
Lemma drain_chain stack loop l : forall turns s this n,
  m_nodes s !! this = Some n -> chain (m_nodes s) (rn_next n) l -> this ∉ l.*1 -> owned s (members_of l) ->
  (length l < turns)%nat ->
  drain_next (delete_req (Datatypes.S stack) (Datatypes.S loop)) turns this s =
  Some (tt, with_nodes (<[this := set_next None n]> (without l.*1 (m_nodes s))) (gone (members_of l) l.*1 s)).
Proof.
  induction l as [|[c nc] l IH]; intros turns s this n Et Hc Hnot Ho Hlen;
    (destruct turns as [|turns]; [simpl in Hlen; lia|]); cbn [drain_next];
    rewrite (bind_eq _ _ _ _ _ (node_eq _ _ _ Et)).
  - inversion Hc as [En|]; subst. unfold gone, with_nodes. simpl. unfold ret.
    assert (set_next None n = n) as -> by (unfold set_next; destruct n; simpl in *; congruence).
    rewrite app_nil_r, (insert_id _ _ _ Et). by destruct s.
  - pose proof (chain_nodup _ _ _ Hc) as Hnd. simpl in Hnd. apply NoDup_cons in Hnd as [Hcl _].
    inversion Hc as [|? ? ? Ec Hc']; subst. simpl in Hnot.
    assert (c <> this) as Hct by set_solver.
    rewrite (bind_eq _ _ _ _ _ (move_next_eq _ _ _ _ Et)).
    set (s1 := with_nodes _ s).
    assert (m_nodes s1 !! c = Some nc) as Ec1 by (simpl; by rewrite lookup_insert_ne).
    rewrite (bind_eq _ _ _ _ _ (node_eq _ _ _ Ec1)), (bind_eq _ _ _ _ _ (move_next_eq _ _ None _ Ec1)).
    set (s2 := with_nodes _ s1).
    assert (m_nodes s2 !! this = Some (set_next None n)) as Et2 by (simpl; by rewrite lookup_insert_ne, lookup_insert_eq).
    rewrite (bind_eq _ _ _ _ _ (move_next_eq _ _ (rn_next nc) _ Et2)).
    set (s3 := with_nodes _ s2).
    destruct (owned_gone s (members nc) (members_of l) [c] Ho) as [Ho1 Ho2].
    assert (m_nodes s3 !! c = Some (set_next None nc)) as Ec3
      by (simpl; by rewrite lookup_insert_ne, lookup_insert_eq by done).
    rewrite (bind_eq _ _ _ _ _ (delete_leaf stack loop c (set_next None nc) s3 Ec3 eq_refl Ho1)).
    set (s4 := gone _ _ s3).
    assert (m_nodes s4 !! this = Some (set_next (rn_next nc) n)) as Et4
      by (simpl; by rewrite lookup_delete_ne, lookup_insert_eq by done).
    rewrite (IH turns s4 this (set_next (rn_next nc) n)); [|done| |set_solver|exact Ho2|simpl in Hlen; lia].
    + f_equal. f_equal. unfold gone, with_nodes, s4, s3, s2, s1. simpl. f_equal.
      * unfold members_of. simpl. by rewrite fmap_app, without_app.
      * apply map_eq. intros a. rewrite !lookup_insert, !lookup_delete, !lookup_without, !lookup_delete, !lookup_insert.
        repeat case_decide; simplify_eq; set_solver.
      * unfold members_of. simpl. by rewrite fmap_app, app_assoc.
    + simpl. apply (chain_agree _ _ _ _ Hc'). intros a Ha.
      rewrite lookup_delete_ne, !lookup_insert_ne; [done|set_solver..].
Qed.

(** However long the list is, at most one destructor runs inside another, every
    request is freed, and each member is destroyed once, in the order of the list. *)
Theorem delete_exact stack loop a l s :
  chain (m_nodes s) (Some a) l -> owned s (members_of l) -> (2 <= stack)%nat -> (length l <= loop)%nat ->
  delete_req stack loop a s = Some (tt, gone (members_of l) l.*1 s).
Proof.
  intros Hc Ho Hs Hl. pose proof (chain_nodup _ _ _ Hc) as Hnd.
  inversion Hc as [|? n l' Ea Hc']; subst. destruct stack as [|[|stack]]; [lia|lia|]. destruct loop as [|loop]; [simpl in Hl; lia|].
  simpl in Hnd. apply NoDup_cons in Hnd as [Hal _]. cbn [delete_req]. rewrite (bind_eq _ _ _ _ _ (node_eq _ _ _ Ea)).
  destruct (owned_gone s (members n) (members_of l') [] Ho) as [Ho1 Ho2].
  rewrite (bind_eq _ _ _ _ _ (eq_trans (destroy_members_are n s) (releases_exact _ _ Ho1))).
  rewrite (bind_eq _ _ _ _ _ (drain_chain stack loop l' (Datatypes.S loop) (gone (members n) [] s) a n Ea Hc' Hal Ho2 Hl)).
  unfold modify, gone, with_nodes. simpl. rewrite delete_insert_eq. unfold members_of. simpl.
  rewrite !fmap_app, !without_app, app_assoc. do 3 f_equal.
Qed.


Lemma find_tail_exact l0 : forall loop a t n s,
  chain (m_nodes s) (Some a) (l0 ++ [(t, n)]) -> (length l0 < loop)%nat -> find_tail loop a s = Some (t, s).
Proof.
  induction l0 as [|[c nc] l0 IH]; intros loop a t n s Hc Hl; (destruct loop as [|loop]; [simpl in Hl; lia|]);
    inversion Hc as [|? ? ? Ea Hc' Heq]; subst; cbn [find_tail]; rewrite (bind_eq _ _ _ _ _ (node_eq _ _ _ Ea)).
  - inversion Hc'. done.
  - destruct (rn_next nc) as [c'|] eqn:En; [|inversion Hc' as [E|]; by destruct l0].
    apply (IH loop c' t n s Hc'). simpl in Hl. lia.
Qed.

Lemma chain_extend l0 : forall h p t n b l',
  chain h p (l0 ++ [(t, n)]) -> chain h (Some b) l' -> t ∉ l'.*1 ->
  chain (<[t := set_next (Some b) n]> h) p (l0 ++ (t, set_next (Some b) n) :: l').
Proof.
  induction l0 as [|[c nc] l0 IH]; intros h p t n b l' Hc Hb Ht; pose proof (chain_nodup _ _ _ Hc) as Hnd;
    inversion Hc as [|? ? ? Ea Hc' Heq]; subst; simpl.
  - constructor; [by rewrite lookup_insert_eq|]. simpl. apply (chain_agree _ _ _ _ Hb).
    intros a Ha. apply lookup_insert_ne. by intros ->.
  - simpl in Hnd. apply NoDup_cons in Hnd as [Hn _]. constructor.
    + rewrite lookup_insert_ne; [done|]. intros ->. apply Hn. rewrite fmap_app. set_solver.
    + by apply IH.
Qed.

(** [append] puts the whole second list behind the first one, and nothing else changes hands. *)
Theorem append_exact loop a l b l' s :
  chain (m_nodes s) (Some a) l -> chain (m_nodes s) (Some b) l' -> l.*1 ## l'.*1 -> (length l <= loop)%nat ->
  exists h l2, append loop a b s = Some (tt, with_nodes h s) /\ chain h (Some a) l2 /\
    l2.*1 = l.*1 ++ l'.*1 /\ members_of l2 = members_of l ++ members_of l' /\
    (forall c, c ∉ l.*1 -> h !! c = m_nodes s !! c).
Proof.
  intros Hc Hb Hd Hl. destruct l as [|[t n] l0 _] using rev_ind; [inversion Hc|].
  rewrite length_app in Hl. simpl in Hl. rewrite fmap_app in Hd. simpl in Hd.
  unfold append. rewrite (bind_eq _ _ _ _ _ (find_tail_exact l0 loop a t n s Hc ltac:(lia))).
  assert (m_nodes s !! t = Some n) as Et by (by pose proof (chain_suffix _ _ _ _ _ _ Hc) as H; inversion H).
  eexists _, _. split; [apply (move_next_eq _ _ _ _ Et)|]. split; [apply chain_extend; [done|done|set_solver]|].
  unfold members_of. rewrite !fmap_app, !fmap_cons, !concat_app. simpl. rewrite app_nil_r, <- !app_assoc.
  split_and!; [done|done|]. intros c Hn. apply lookup_insert_ne. set_solver.
Qed.

(** Built with [append] and deleted: both lists are gone. *)
Theorem appended_deleted loop a l b l' s s' :
  chain (m_nodes s) (Some a) l -> chain (m_nodes s) (Some b) l' -> l.*1 ## l'.*1 ->
  owned s (members_of l ++ members_of l') -> (length l + length l' <= loop)%nat ->
  append loop a b s = Some (tt, s') ->
  exists s2, delete_req 2 loop a s' = Some (tt, s2) /\ m_freed s2 = m_freed s ++ (members_of l ++ members_of l').*2 /\
    (forall c, m_nodes s2 !! c = if decide (c ∈ l.*1 ++ l'.*1) then None else m_nodes s !! c).
Proof.
  intros Hc Hb Hd Ho Hl Ha.
  destruct (append_exact loop a l b l' s Hc Hb Hd ltac:(lia)) as (h & l2 & E & Hc2 & Hl2 & Hm2 & Hh).
  rewrite E in Ha. injection Ha as <-. eexists. split.
  - apply (delete_exact 2 loop a l2 (with_nodes h s)); [done|by rewrite Hm2|lia|].
    rewrite <- (length_fmap fst), Hl2, length_app, !length_fmap. done.
  - simpl. rewrite Hm2, Hl2. split; [done|]. intros c. rewrite lookup_without. case_decide as Hin; [done|].
    apply Hh. set_solver.
Qed.

(** ** What the [bson_ptr]s hold *)

Definition held_by (p : option Z) : list Z := match p with Some a => [a] | None => [] end.

(** A held document is there, and held once. *)
Record holding (s : mem) : Prop := {
  held_live : forall x a, m_ptrs s !! x = Some (Some a) -> m_blocks s !! a = Some BsonDoc;
  held_once : forall x y a, m_ptrs s !! x = Some (Some a) -> m_ptrs s !! y = Some (Some a) -> x = y;
}.

(** Every document is held. *)
Definition all_held (s : mem) : Prop := forall a, m_blocks s !! a = Some BsonDoc -> exists x, m_ptrs s !! x = Some (Some a).

Inductive ptr_op :=
  | OpNull (x : Z)            (* [bson_ptr x;] *)
  | OpTake (x a : Z)          (* the library makes the document [a], and [bson_ptr x(a);] *)
  | OpMove (x o : Z)          (* [bson_ptr x(std::move(o));] *)
  | OpAssign (x o : Z)        (* [x = std::move(o);] *)
  | OpDestroy (x : Z).        (* the end of [x] *)

Definition run_op (o : ptr_op) : M unit :=
  match o with
  | OpNull x => bson_ptr_new x None
  | OpTake x a =>
      modify (fun s => MkMem (<[a := BsonDoc]> (m_blocks s)) (m_nodes s) (m_ptrs s) (m_freed s)) ;; bson_ptr_new x (Some a)
  | OpMove x o => bson_ptr_move x o
  | OpAssign x o => bson_ptr_assign x o
  | OpDestroy x => bson_ptr_destroy x
  end.

(** What the language asks for: a new object is made where none is, the others
    exist; a new document is at an address not in use. *)
Definition allowed (s : mem) (o : ptr_op) : Prop :=
  match o with
  | OpNull x => m_ptrs s !! x = None
  | OpTake x a => m_ptrs s !! x = None /\ m_blocks s !! a = None
  | OpMove x o => m_ptrs s !! x = None /\ is_Some (m_ptrs s !! o)
  | OpAssign x o => is_Some (m_ptrs s !! x) /\ is_Some (m_ptrs s !! o)
  | OpDestroy x => is_Some (m_ptrs s !! x)
  end.

Lemma the_ptr_eq x p (s : mem) : m_ptrs s !! x = Some p -> the_ptr x s = Some (p, s).
Proof. unfold the_ptr. by intros ->. Qed.

(** The pointer [x] held [p]: the document goes, if there is one. *)
Definition dropped (p : option Z) (s : mem) : mem :=
  MkMem (without (held_by p) (m_blocks s)) (m_nodes s) (m_ptrs s) (m_freed s ++ held_by p).

Lemma release_held x p s : holding s -> m_ptrs s !! x = Some p -> release_if BsonDoc p s = Some (tt, dropped p s).
Proof.
  intros H Hx. destruct p as [a|]; simpl.
  - unfold release. rewrite decide_True by (by apply (held_live s H x)). done.
  - unfold dropped. simpl. rewrite app_nil_r. by destruct s.
Qed.

(** The state after [x] has become [q], when what it held is gone and [q] came
    from elsewhere or from [o]. *)
Lemma destroy_eq x p s : holding s -> m_ptrs s !! x = Some p ->
  bson_ptr_destroy x s = Some (tt, with_ptrs (delete x (m_ptrs s)) (dropped p s)).
Proof.
  intros H Hx. unfold bson_ptr_destroy. rewrite (bind_eq _ _ _ _ _ (the_ptr_eq _ _ _ Hx)).
  by rewrite (bind_eq _ _ _ _ _ (release_held _ _ _ H Hx)).
Qed.

Lemma move_eq x o q s : m_ptrs s !! o = Some q ->
  bson_ptr_move x o s = Some (tt, with_ptrs (<[o := None]> (<[x := q]> (m_ptrs s))) s).
Proof. intros Ho. unfold bson_ptr_move. by rewrite (bind_eq _ _ _ _ _ (the_ptr_eq _ _ _ Ho)). Qed.

Lemma assign_eq x o p q s : holding s -> x <> o -> m_ptrs s !! x = Some p -> m_ptrs s !! o = Some q ->
  bson_ptr_assign x o s = Some (tt, with_ptrs (<[o := None]> (<[x := q]> (m_ptrs s))) (dropped p s)).
Proof.
  intros H Hxo Hx Ho. unfold bson_ptr_assign. apply Z.eqb_neq in Hxo. rewrite Hxo, (bind_eq _ _ _ _ _ (the_ptr_eq _ _ _ Hx)).
  by rewrite (bind_eq _ _ _ _ _ (release_held _ _ _ H Hx)), (bind_eq _ _ _ _ _ (the_ptr_eq _ _ (dropped p s) Ho)).
Qed.

Definition tidy (s : mem) : Prop := holding s /\ all_held s.

(** When [x] lets its document go, whatever becomes of [x]. *)
Lemma clear_tidy x p q s :
  tidy s -> m_ptrs s !! x = Some p -> (forall y, y <> x -> q !! y = m_ptrs s !! y) -> (forall a, q !! x <> Some (Some a)) ->
  tidy (with_ptrs q (dropped p s)).
Proof.
  intros [[Hl Ho] Ha] Hx Hq Hqx.
  assert (forall y a, q !! y = Some (Some a) -> y <> x /\ m_ptrs s !! y = Some (Some a)) as Hy.
  { intros y a E. destruct (decide (y = x)) as [->|Hn]; [by apply Hqx in E|]. by rewrite Hq in E. }
  split; [constructor|].
  - intros y a [Hn E]%Hy. simpl. rewrite lookup_without, decide_False; [by apply (Hl y)|].
    destruct p as [b|]; simpl; [|set_solver]. intros ->%list_elem_of_singleton. by apply Hn, (Ho y x b).
  - intros y z a [_ E]%Hy [_ E']%Hy. by apply (Ho y z a).
  - intros a E. simpl in E. rewrite lookup_without in E. case_decide as Hin; [done|].
    destruct (Ha a E) as [y Ey]. exists y. simpl. rewrite Hq; [done|]. intros ->.
    apply Hin. rewrite Ey in Hx. injection Hx as <-. simpl. set_solver.
Qed.

(** When [x], which holds nothing, takes what [o] holds. *)
Lemma move_tidy x o q s :
  tidy s -> x <> o -> (forall a, m_ptrs s !! x <> Some (Some a)) -> m_ptrs s !! o = Some q ->
  tidy (with_ptrs (<[o := None]> (<[x := q]> (m_ptrs s))) s).
Proof.
  intros [[Hl Ho] Ha] Hxo Hx Eo.
  assert (forall y a, <[o := None]> (<[x := q]> (m_ptrs s)) !! y = Some (Some a) ->
            m_ptrs s !! (if decide (y = x) then o else y) = Some (Some a) /\ y <> o) as Hy.
  { intros y a. rewrite !lookup_insert. repeat case_decide; intros E; simplify_eq; done. }
  split; [constructor|].
  - intros y a [E _]%Hy. by apply Hl in E.
  - intros y z a [E Hyo]%Hy [E' Hzo]%Hy. pose proof (Ho _ _ a E E') as Heq. repeat case_decide; simplify_eq; done.
  - intros a E. destruct (Ha a E) as [y Ey]. destruct (decide (y = o)) as [->|Hn].
    + exists x. simpl. rewrite lookup_insert_ne, lookup_insert_eq by done. congruence.
    + exists y. simpl. rewrite !lookup_insert_ne; [done| |done]. intros ->. by apply (Hx a).
Qed.

(** Whatever is done with [bson_ptr]s is defined: no document is destroyed twice,
    none is lost, and those that are there are each held by one pointer. *)
Theorem bson_ptr_safe s o : tidy s -> allowed s o -> exists s', run_op o s = Some (tt, s') /\ tidy s'.
Proof.
  intros Ht Hal. pose proof Ht as [Hh Ha]. destruct o as [x|x a|x o|x o|x]; simpl in Hal.
  - eexists. split; [done|]. destruct Hh as [Hl Ho]. split; [constructor|]; simpl.
    + intros y b. rewrite lookup_insert. case_decide; [done|]. apply Hl.
    + intros y z b. rewrite !lookup_insert. repeat case_decide; try done. apply Ho.
    + intros b [y E]%Ha. exists y. simpl. rewrite lookup_insert_ne; congruence.
  - destruct Hal as [Hx Hb]. eexists. split; [done|]. destruct Hh as [Hl Ho].
    assert (forall y, m_ptrs s !! y <> Some (Some a)) as Hn by (intros y E%Hl; congruence).
    split; [constructor|]; simpl.
    + intros y b. rewrite !lookup_insert. repeat case_decide; intros E; simplify_eq; [done..|by apply (Hl y)].
    + intros y z b. rewrite !lookup_insert. repeat case_decide; intros E E'; simplify_eq; try done; [by apply Hn in E'|by apply Hn in E|by apply (Ho y z b)].
    + intros b. simpl. rewrite lookup_insert. case_decide as Hab; [intros _; exists x; subst; by rewrite lookup_insert_eq|].
      intros [y E]%Ha. exists y. rewrite lookup_insert_ne; congruence.
  - destruct Hal as [Hx [q Eo]]. eexists. split; [by apply move_eq|]. apply move_tidy; [done| | |done]; congruence.
  - destruct Hal as [[p Hx] [q Eo]]. destruct (decide (x = o)) as [->|Hxo].
    + exists s. simpl. unfold bson_ptr_assign. by rewrite Z.eqb_refl.
    + eexists. split; [by apply assign_eq|].
      pose proof (clear_tidy x p (<[x := None]> (m_ptrs s)) s Ht Hx) as Hc.
      pose proof (move_tidy x o q (with_ptrs (<[x := None]> (m_ptrs s)) (dropped p s))) as Hm.
      simpl in Hm. rewrite insert_insert_eq in Hm. apply Hm; [|done| |by rewrite lookup_insert_ne].
      * apply Hc; [intros y Hy; by rewrite lookup_insert_ne|]. intros a. by rewrite lookup_insert_eq.
      * intros a. by rewrite lookup_insert_eq.
  - destruct Hal as [p Hx]. eexists. split; [by apply destroy_eq|].
    apply (clear_tidy x); [done..|intros y Hy; by rewrite lookup_delete_ne|intros a; by rewrite lookup_delete_eq].
Qed.

(** When no pointer is left, no document is. *)
Lemma tidy_end s a : tidy s -> m_ptrs s = ∅ -> m_blocks s !! a <> Some BsonDoc.
Proof. intros [_ Ha] E H. destruct (Ha a H) as [x Hx]. by rewrite E in Hx. Qed.

(** ** The end of a response *)

Definition held_docs (s : mem) (docs : list Z) : list Z :=
  concat ((fun x => match m_ptrs s !! x with Some p => held_by p | None => [] end) <$> docs).

Lemma ptrs_destroyed docs : forall s, tidy s -> NoDup docs -> Forall (fun x => is_Some (m_ptrs s !! x)) docs ->
  exists s', for_each bson_ptr_destroy docs s = Some (tt, s') /\ tidy s' /\
    m_ptrs s' = without docs (m_ptrs s) /\ m_freed s' = m_freed s ++ held_docs s docs.
Proof.
  induction docs as [|x docs IH]; intros s Ht Hn Hf; [exists s; unfold held_docs; simpl; by rewrite app_nil_r|].
  apply NoDup_cons in Hn as [Hx Hn]. apply Forall_cons in Hf as [[p Hp] Hf].
  cbn [for_each]. rewrite (bind_eq _ _ _ _ _ (destroy_eq x p s (proj1 Ht) Hp)).
  edestruct (IH (with_ptrs (delete x (m_ptrs s)) (dropped p s))) as (s' & E & Ht' & Hp' & Hfr); [| |..].
  - apply (clear_tidy x); [done..|intros y Hy; by rewrite lookup_delete_ne|intros a; by rewrite lookup_delete_eq].
  - done.
  - rewrite Forall_forall in Hf |- *. intros y Hy. simpl. rewrite lookup_delete_ne; [by apply Hf|]. by intros ->.
  - exists s'. split_and!; [done|done| |].
    + rewrite Hp'. simpl. apply map_eq. intros y. rewrite !lookup_without, !lookup_delete, lookup_without.
      repeat case_decide; done.
    + rewrite Hfr. simpl. unfold held_docs at 2. simpl. rewrite Hp, <- app_assoc. do 2 f_equal.
      unfold held_docs. f_equal. apply list_fmap_ext. intros i y Hy. simpl. rewrite lookup_delete_ne; [done|].
      intros ->. apply Hx. by eapply list_elem_of_lookup_2.
Qed.

(** The reply and the documents of a response are destroyed, each once. *)
Theorem resp_destroy_exact reply docs s :
  tidy s -> NoDup docs -> Forall (fun x => is_Some (m_ptrs s !! x)) docs ->
  (forall a, reply = Some a -> m_blocks s !! a = None) ->
  exists s', resp_destroy reply docs (MkMem (match reply with Some a => <[a := BsonDoc]> (m_blocks s) | None => m_blocks s end)
                                        (m_nodes s) (m_ptrs s) (m_freed s)) = Some (tt, s') /\
    tidy s' /\ m_ptrs s' = without docs (m_ptrs s) /\ m_freed s' = m_freed s ++ held_by reply ++ held_docs s docs.
Proof.
  intros Ht Hn Hf Hr.
  set (s1 := MkMem (m_blocks s) (m_nodes s) (m_ptrs s) (m_freed s ++ held_by reply)).
  assert (tidy s1) as Ht1 by (destruct Ht as [[Hl Ho] Ha]; by split; [constructor|]).
  destruct (ptrs_destroyed docs s1 Ht1 Hn Hf) as (s' & E & Ht' & Hp & Hfr).
  exists s'. split_and!; [|done|done|by rewrite Hfr; simpl; rewrite <- app_assoc].
  unfold resp_destroy. rewrite <- E. apply (bind_eq _ (fun _ => for_each bson_ptr_destroy docs) _ tt s1). destruct reply as [a|]; simpl.
  - unfold release. simpl. rewrite lookup_insert_eq, decide_True by done. do 3 f_equal.
    apply delete_insert_id. by apply Hr.
  - unfold s1. simpl. by rewrite app_nil_r.
Qed.

(** ** On concrete requests *)

(** A bulk request with options, an insert of two documents and a removal. *)
Definition sample_heap : mem :=
  MkMem (list_to_map [(1, BsonDoc); (2, BsonDoc); (3, BsonDoc); (4, PtrArray); (5, BsonDoc); (9, BsonDoc)])
    (list_to_map [(100, MkReqNode (Some 1) None None None None (Some 101));
       (101, MkReqNode None None None (Some (4, [Some 2; None; Some 3])) None None);
       (102, MkReqNode None (Some 5) None None None None)]) ∅ [].

Example sample_deleted :
  (append 3 100 102 ;; delete_req 2 3 100) sample_heap =
  Some (tt, MkMem {[9 := BsonDoc]} ∅ ∅ [1; 2; 3; 4; 5]).
Proof. vm_compute. reflexivity. Qed.

(** A request that would be deleted twice is noticed, and so is a list that
    destructors would have to walk by calling each other. *)
Example sample_twice : (delete_req 2 3 100 ;; delete_req 2 3 100) sample_heap = None.
Proof. vm_compute. reflexivity. Qed.

Example sample_depth : delete_req 1 3 100 sample_heap = None.
Proof. vm_compute. reflexivity. Qed.

Lemma delete_exact_witness :
  delete_req 2 1 102 sample_heap = Some (tt, gone [(BsonDoc, 5)] [102] sample_heap).
Proof.
  apply (delete_exact 2 1 102 [(102, MkReqNode None (Some 5) None None None None)]); simpl; [| |lia|lia].
  - constructor; [reflexivity|simpl; constructor].
  - split; simpl; [repeat constructor; set_solver|by repeat constructor].
Defined.

Definition sample_ptrs : mem := MkMem {[7 := BsonDoc]} ∅ {[50 := Some 7; 51 := None]} [].

Lemma sample_ptrs_tidy : tidy sample_ptrs.
Proof.
  unfold sample_ptrs. split; [constructor|]; simpl.
  - intros x a. rewrite lookup_insert, !lookup_singleton. repeat case_decide; intros; simplify_eq; reflexivity.
  - intros x y a. rewrite !lookup_insert, !lookup_singleton. repeat case_decide; intros; simplify_eq; reflexivity.
  - intros a. simpl. rewrite lookup_singleton. case_decide as E; [|done]. subst. intros _. exists 50. reflexivity.
Qed.

(** [x = std::move(y)] on a null pointer, and on itself. *)
Lemma bson_ptr_safe_witness :
  (exists s', run_op (OpAssign 51 50) sample_ptrs = Some (tt, s') /\ tidy s') /\
  (exists s', run_op (OpAssign 50 50) sample_ptrs = Some (tt, s') /\ tidy s').
Proof. split; apply (bson_ptr_safe sample_ptrs); [exact sample_ptrs_tidy|split; by eexists|exact sample_ptrs_tidy|split; by eexists]. Defined.

Lemma resp_destroy_exact_witness :
  exists s', resp_destroy (Some 8) [50; 51] (MkMem (<[8 := BsonDoc]> (m_blocks sample_ptrs)) ∅ (m_ptrs sample_ptrs) []) = Some (tt, s') /\
    tidy s' /\ m_ptrs s' = without [50; 51] (m_ptrs sample_ptrs) /\ m_freed s' = [] ++ [8] ++ held_docs sample_ptrs [50; 51].
Proof.
  apply (resp_destroy_exact (Some 8) [50; 51] sample_ptrs); [exact sample_ptrs_tidy|repeat constructor; set_solver| |].
  - repeat constructor; by eexists.
  - by intros a [= <-].
Defined.
