(* ===== verification/Random.v ===== *)
(** * Random numbers and strings ([fszm/random_utils.hpp])

    [std::uniform_int_distribution] over the thread's [std::mt19937] is the
    function [dist]: its value for a range depends on the draws made so far. *)

From Stdlib Require Import Strings.Byte.
From stdpp Require Import strings.
From S2P Require Import Prelude.

Inductive RandomStringType :=
| Numbers | Letters | CapitalLetters | LowercaseLetters | NumbersAndLetters
| NumbersAndCapitalLetters | NumbersAndLowercaseLetters | VisibleCharsThin | VisibleChars.

Definition NUMBERS : bytes := String.list_byte_of_string "0123456789".
Definition LOWER_CASE_LETTERS : bytes := String.list_byte_of_string "abcdefghijklmnopqrstuvwxyz".
Definition CAPITAL_LETTERS : bytes := String.list_byte_of_string "ABCDEFGHIJKLMNOPQRSTUVWXYZ".
Definition LETTERS : bytes := LOWER_CASE_LETTERS ++ CAPITAL_LETTERS.
Definition NUMBERS_AND_LETTERS : bytes := NUMBERS ++ LETTERS.
Definition NUMBERS_AND_CAPLETTERS : bytes := NUMBERS ++ CAPITAL_LETTERS.
Definition NUMBERS_AND_LOWLETTERS : bytes := NUMBERS ++ LOWER_CASE_LETTERS.
Definition VISIBLE_CHARS_THIN : bytes :=
  NUMBERS_AND_LETTERS ++ String.list_byte_of_string "~!@#$%^&*()_-+={}[]|:;,.<>?".
(** The quotation mark is written by its code. *)
Definition VISIBLE_CHARS : bytes :=
  VISIBLE_CHARS_THIN ++ String.list_byte_of_string "`" ++ [x22] ++ String.list_byte_of_string "'\/ ".

Section random.
(** [dist n lo hi]: the [n]-th draw, from [[lo, hi]]. *)
Context (dist : nat -> Z -> Z -> Z).

Definition INT_MAX : Z := 2 ^ 31 - 1.

Definition randomNumber (n : nat) : Z * nat := (dist n 0 INT_MAX, S n).

Definition randomNumber_range (range : Z) (n : nat) : Z * nat :=
  if range <=? 0 then (0, n) else (dist n 0 (range - 1), S n).

Definition randomNumber_between (min max : Z) (n : nat) : Z * nat :=
  let '(min, max) := if max <? min then (max, min) else (min, max) in (dist n min max, S n).

Fixpoint random_chars (source : bytes) (length : nat) (n : nat) : bytes * nat :=
  match length with
  | O => ([], n)
  | S length =>
      let '(i, n1) := randomNumber_range (size_of source) n in
      let '(rest, n2) := random_chars source length n1 in
      (default x00 (source !! Z.to_nat i) :: rest, n2)
  end.

Definition randomString_of (source : bytes) (length : Z) (n : nat) : bytes * nat :=
  if (size_of source =? 0) || (length <=? 0) then ([], n)
  else random_chars source (Z.to_nat length) n.

Definition chars_of (st : RandomStringType) : bytes :=
  match st with
  | Numbers => NUMBERS
  | Letters => LETTERS
  | CapitalLetters => CAPITAL_LETTERS
  | LowercaseLetters => LOWER_CASE_LETTERS
  | NumbersAndLetters => NUMBERS_AND_LETTERS
  | NumbersAndCapitalLetters => NUMBERS_AND_CAPLETTERS
  | NumbersAndLowercaseLetters => NUMBERS_AND_LOWLETTERS
  | VisibleCharsThin => VISIBLE_CHARS_THIN
  | VisibleChars => VISIBLE_CHARS
  end.

Definition randomString (st : RandomStringType) (length : Z) (n : nat) : bytes * nat :=
  randomString_of (chars_of st) length n.

(** [uniform_int_distribution] stays in its closed range. *)
Class DistLaws : Prop := dist_in n lo hi : lo <= hi -> lo <= dist n lo hi <= hi.

Context `{!DistLaws}.

Lemma range_in range n : 0 < range -> 0 <= fst (randomNumber_range range n) < range.
Proof.
  intros Hr. unfold randomNumber_range. case_if; [bool_Z; lia|]. cbn.
  pose proof (dist_in n 0 (range - 1) ltac:(lia)). lia.
Qed.

Lemma random_chars_spec source length n :
  0 < size_of source ->
  size_of (fst (random_chars source length n)) = Z.of_nat length /\
  Forall (fun b => b ∈ source) (fst (random_chars source length n)).
Proof.
  intros Hs. revert n. induction length as [|length IH]; intros n; cbn [random_chars]; [by split|].
  pose proof (range_in (size_of source) n Hs) as Hi. destruct (randomNumber_range (size_of source) n) as [i n1].
  destruct (IH n1) as [IH1 IH2]. destruct (random_chars source length n1) as [rest n2]. cbn in *.
  rewrite size_of_cons. split; [lia|]. constructor; [|done].
  destruct (source !! Z.to_nat i) as [b|] eqn:E; cbn; [by eapply list_elem_of_lookup_2|].
  apply lookup_ge_None_1 in E. unfold size_of in Hi. lia.
Qed.

Lemma chars_nonempty st : 0 < size_of (chars_of st).
Proof. by destruct st. Qed.

Lemma randomString_size st length n : 0 <= length -> size_of (fst (randomString st length n)) = length.
Proof.
  intros Hl. unfold randomString, randomString_of. pose proof (chars_nonempty st).
  rewrite (proj2 (Z.eqb_neq (size_of (chars_of st)) 0)) by lia. cbn [orb].
  case_if; bool_Z; [by replace length with 0 by lia|].
  destruct (random_chars_spec (chars_of st) (Z.to_nat length) n ltac:(done)) as [-> _]. lia.
Qed.

(** a random string has the length asked for, and its characters are of the
    kind asked for; asking for none, or for a negative number, gives the empty
    string and draws nothing. *)
Theorem randomString_ok st length n :
  let '(s, n') := randomString st length n in
  size_of s = Z.max 0 length /\ Forall (fun b => b ∈ chars_of st) s /\ (length <= 0 -> n' = n).
Proof.
  destruct (randomString st length n) as [s n'] eqn:E. unfold randomString, randomString_of in E.
  pose proof (chars_nonempty st). rewrite (proj2 (Z.eqb_neq (size_of (chars_of st)) 0)) in E by lia. cbn [orb] in E.
  destruct (length <=? 0) eqn:El; bool_Z.
  - injection E as <- <-. rewrite size_of_nil. split_and!; [lia|constructor|done].
  - destruct (random_chars_spec (chars_of st) (Z.to_nat length) n ltac:(done)) as [H1 H2]. rewrite E in *.
    cbn in *. split_and!; [lia|done|lia].
Qed.

End random.
Arguments DistLaws : clear implicits.

(** The distribution that goes round its range. *)
Definition round_dist (n : nat) (lo hi : Z) : Z := lo + Z.of_nat n mod (hi - lo + 1).

#[export] Instance round_dist_laws : DistLaws round_dist.
Proof. intros n lo hi H. unfold round_dist. pose proof (Z.mod_pos_bound (Z.of_nat n) (hi - lo + 1)). lia. Qed.

Lemma randomString_ok_witness : size_of (fst (randomString round_dist VisibleChars 200 7)) = 200.
Proof.
  pose proof (randomString_ok round_dist VisibleChars 200 7) as H.
  destruct (randomString round_dist VisibleChars 200 7) as [s n']. destruct H as [H _]. exact H.
Defined.
