(* ===== verification/Openssl.v ===== *)
(** * The cryptographic helpers ([fszm/openssl_utils_v2.hpp])

    The OpenSSL library is the interface [OpenSSL]: one field per function, or
    per group of functions that are always called together, with the documented
    behaviour the program relies on in [CipherLaws] and [KeyLaws]. The
    definitions are the functions of [openssl_utils] over it. A pointer is the
    bytes readable from it, or [None] for a null one; a result of [None] is a
    read beyond them. *)

From S2P Require Import Prelude.

(** ** OpenSSL *)

Inductive cipher_alg := DES | DES_EDE3 | CAMELLIA (bits : Z) | AES (bits : Z).
Inductive cipher_mode := ECB | CBC | CFB | OFB | CTR.
(** The [const EVP_CIPHER*] that [EVP_aes_128_cbc()] and the like return. *)
Record evp_cipher := EVP { evp_alg : cipher_alg; evp_mode : cipher_mode }.

Inductive pkey_operation := PKEY_encrypt | PKEY_decrypt | PKEY_sign | PKEY_verify_recover.
Inductive dh_param := DH_p | DH_g | DH_pub.

(** [key] is [EVP_PKEY*], never null; [bn] is [BIGNUM*]. A random choice is its
    seed. *)
Class OpenSSL (key bn : Type) := {
  malloc : Z -> bool;
  EVP_CIPHER_block_size : evp_cipher -> Z;
  EVP_CIPHER_key_length : evp_cipher -> Z;
  EVP_CIPHER_iv_length : evp_cipher -> Z;
  (* [EVP_EncryptInit_ex] or [EVP_DecryptInit_ex], with the legacy provider loaded or not *)
  EVP_CipherInit : bool -> bool -> evp_cipher -> bool;
  (* [EVP_EncryptUpdate] and [EVP_EncryptFinal_ex], or the same to decrypt, without padding: the
     key, the vector, the input that can be read and the length asked for, an [int] *)
  EVP_Cipher : evp_cipher -> bool -> bytes -> bytes -> bytes -> Z -> option bytes;
  EVP_PKEY_size : key -> Z;
  EVP_PKEY_CTX_new : key -> bool;
  (* [EVP_PKEY_encrypt_init] and its like; the call without an output; the call with one *)
  pkey_init : pkey_operation -> key -> bool;
  pkey_query : pkey_operation -> key -> bytes -> option Z;
  pkey_run : pkey_operation -> key -> bytes -> option bytes;
  EVP_PKEY_verify_init : key -> bool;
  EVP_PKEY_verify : key -> bytes -> bytes -> Z;
  EVP_PKEY_derive_set_peer : key -> key -> bool;
  (* [EVP_PKEY_derive] without a buffer gives the most that it can write; with one, what it writes *)
  EVP_PKEY_derive_size : key -> key -> option Z;
  EVP_PKEY_derive : key -> key -> option bytes;
  DH_paramgen : nat -> Z -> option key;
  EVP_PKEY_param_check : key -> bool;
  EVP_PKEY_public_check : key -> bool;
  EVP_PKEY_keygen : nat -> key -> option key;
  EVP_PKEY_get_bn_param : key -> dh_param -> option bn;
  DH_fromdata : bn -> bn -> option bn -> option key;
  BN_bin2bn : bytes -> option bn;
  BN_bn2bin : bn -> bytes;
  BN_bn2nativepad : bn -> Z;
  EC_keygen : nat -> Z -> option key;
  EC_get_pubkey : key -> option bytes;
  OBJ_nid2sn : Z -> option bytes;
  EC_fromdata : bytes -> bytes -> option key;
}.

(** ** Symmetric ciphers *)

Definition eET_DES_ECB : Z := 0.
Definition eET_DES_CBC : Z := 1.
Definition eET_DES_CFB : Z := 2.
Definition eET_DES_OFB : Z := 3.
Definition eET_3DES_ECB : Z := 4.
Definition eET_3DES_CBC : Z := 5.
Definition eET_3DES_CFB : Z := 6.
Definition eET_3DES_OFB : Z := 7.
Definition eET_CAMELLIA_ECB : Z := 8.
Definition eET_CAMELLIA_CBC : Z := 9.
Definition eET_CAMELLIA_CFB : Z := 10.
Definition eET_CAMELLIA_OFB : Z := 11.
Definition eET_CAMELLIA_CTR : Z := 12.
Definition eET_AES_ECB : Z := 13.
Definition eET_AES_CBC : Z := 14.
Definition eET_AES_CFB : Z := 15.
Definition eET_AES_OFB : Z := 16.
Definition eET_AES_CTR : Z := 17.
Definition eET_RSA_PUBLIC_ENC : Z := 18.
Definition eET_RSA_PRIVATE_DEC : Z := 19.
Definition eET_RSA_PRIVATE_ENC : Z := 20.
Definition eET_RSA_PUBLIC_DEC : Z := 21.

Section openssl.
Context {key bn : Type} `{O : OpenSSL key bn}.

(** [rc] and, when it is 0, the output; [None]: read past the key or the vector. *)
Definition cipher_result : Type := option (Z * bytes).

(** [OPSSL_CHECK_PARAM]. *)
Definition check_param (p : option bytes) (k : bytes -> cipher_result) : cipher_result :=
  match p with
  | None => Some (-1, [])
  | Some b => k b
  end.

(** The bytes a cipher reads from the vector; none from a null one. *)
Definition iv_bytes (cipher : evp_cipher) (in_ivec : option bytes) : option bytes :=
  match in_ivec with
  | None => Some []
  | Some iv =>
      if size_of iv <? EVP_CIPHER_iv_length cipher then None
      else Some (take (Z.to_nat (EVP_CIPHER_iv_length cipher)) iv)
  end.

Definition key_bytes (cipher : evp_cipher) (in_key : bytes) : option bytes :=
  if size_of in_key <? EVP_CIPHER_key_length cipher then None
  else Some (take (Z.to_nat (EVP_CIPHER_key_length cipher)) in_key).

(** [*out_len], an unsigned int: the input rounded up to whole blocks. *)
Definition cipher_out_len (cipher : evp_cipher) (in_len : Z) : Z :=
  let block_size := EVP_CIPHER_block_size cipher in
  if 1 <? block_size then wrap 32 (wrap 32 (in_len + block_size - 1) / block_size * block_size) else in_len.

(** [EVP_EncryptUpdate] takes the unsigned [*out_len] as an [int]. *)
Definition evp_cipher_op (cipher : evp_cipher) (in_data : bytes) (in_len : Z) (in_key : bytes)
    (in_ivec : option bytes) (encrypt : bool) : cipher_result :=
  let is_block := 1 <? EVP_CIPHER_block_size cipher in
  let out_len := cipher_out_len cipher in_len in
  if negb (malloc out_len) then Some (-100, [])
  else
    let input :=
      if is_block && (in_len <? out_len)
      then take (Z.to_nat in_len) in_data ++ replicate (Z.to_nat (out_len - in_len)) x00
      else take (Z.to_nat out_len) in_data in
    match key_bytes cipher in_key, iv_bytes cipher in_ivec with
    | Some k, Some iv =>
        if EVP_CipherInit false encrypt cipher || EVP_CipherInit true encrypt cipher then
          match EVP_Cipher cipher encrypt k iv input (swrap 32 out_len) with
          | None => Some (-1, [])
          | Some out => Some (0, out)
          end
        else Some (-1, [])
    | _, _ => None
    end.

(** [switch (bits)]. *)
Definition by_bits (f : Z -> cipher_alg) (mode : cipher_mode) (bits : Z) (k : evp_cipher -> cipher_result) : cipher_result :=
  if (bits =? 128) || (bits =? 192) || (bits =? 256) then k (EVP (f bits) mode) else Some (-1, []).

Definition des_encrypt_ecb (in_data : option bytes) (in_len : Z) (in_key : option bytes) (encrypt : bool) : cipher_result :=
  check_param in_data (fun d => check_param in_key (fun k =>
    evp_cipher_op (EVP DES ECB) d in_len k None encrypt)).

Definition des_encrypt_cbc (in_data : option bytes) (in_len : Z) (in_key in_ivec : option bytes) (encrypt : bool) : cipher_result :=
  check_param in_data (fun d => check_param in_key (fun k => check_param in_ivec (fun iv =>
    evp_cipher_op (EVP DES CBC) d in_len k (Some iv) encrypt))).

Definition des_encrypt_cfb (in_data : option bytes) (in_len : Z) (in_key in_ivec : option bytes) (encrypt : bool) : cipher_result :=
  check_param in_data (fun d => check_param in_key (fun k => check_param in_ivec (fun iv =>
    evp_cipher_op (EVP DES CFB) d in_len k (Some iv) encrypt))).

Definition des_encrypt_ofb (in_data : option bytes) (in_len : Z) (in_key in_ivec : option bytes) : cipher_result :=
  check_param in_data (fun d => check_param in_key (fun k => check_param in_ivec (fun iv =>
    evp_cipher_op (EVP DES OFB) d in_len k (Some iv) true))).

Definition des_encrypt_ecb3 (in_data : option bytes) (in_len : Z) (in_key : option bytes) (encrypt : bool) : cipher_result :=
  check_param in_data (fun d => check_param in_key (fun k =>
    evp_cipher_op (EVP DES_EDE3 ECB) d in_len k None encrypt)).

Definition des_encrypt_cbc3 (in_data : option bytes) (in_len : Z) (in_key in_ivec : option bytes) (encrypt : bool) : cipher_result :=
  check_param in_data (fun d => check_param in_key (fun k => check_param in_ivec (fun iv =>
    evp_cipher_op (EVP DES_EDE3 CBC) d in_len k (Some iv) encrypt))).

Definition des_encrypt_cfb3 (in_data : option bytes) (in_len : Z) (in_key in_ivec : option bytes) (encrypt : bool) : cipher_result :=
  check_param in_data (fun d => check_param in_key (fun k => check_param in_ivec (fun iv =>
    evp_cipher_op (EVP DES_EDE3 CFB) d in_len k (Some iv) encrypt))).

Definition des_encrypt_ofb3 (in_data : option bytes) (in_len : Z) (in_key in_ivec : option bytes) : cipher_result :=
  check_param in_data (fun d => check_param in_key (fun k => check_param in_ivec (fun iv =>
    evp_cipher_op (EVP DES_EDE3 OFB) d in_len k (Some iv) true))).

Definition camellia_encrypt_ecb (in_data : option bytes) (in_len : Z) (in_key : option bytes) (bits : Z) (encrypt : bool) : cipher_result :=
  check_param in_data (fun d => check_param in_key (fun k =>
    by_bits CAMELLIA ECB bits (fun c => evp_cipher_op c d in_len k None encrypt))).

Definition camellia_encrypt_cbc (in_data : option bytes) (in_len : Z) (in_key : option bytes) (bits : Z) (in_ivec : option bytes) (encrypt : bool) : cipher_result :=
  check_param in_data (fun d => check_param in_key (fun k => check_param in_ivec (fun iv =>
    by_bits CAMELLIA CBC bits (fun c => evp_cipher_op c d in_len k (Some iv) encrypt)))).

Definition camellia_encrypt_cfb (in_data : option bytes) (in_len : Z) (in_key : option bytes) (bits : Z) (in_ivec : option bytes) (encrypt : bool) : cipher_result :=
  check_param in_data (fun d => check_param in_key (fun k => check_param in_ivec (fun iv =>
    by_bits CAMELLIA CFB bits (fun c => evp_cipher_op c d in_len k (Some iv) encrypt)))).

Definition camellia_encrypt_ofb (in_data : option bytes) (in_len : Z) (in_key : option bytes) (bits : Z) (in_ivec : option bytes) : cipher_result :=
  check_param in_data (fun d => check_param in_key (fun k => check_param in_ivec (fun iv =>
    by_bits CAMELLIA OFB bits (fun c => evp_cipher_op c d in_len k (Some iv) true)))).

Definition camellia_encrypt_ctr (in_data : option bytes) (in_len : Z) (in_key : option bytes) (bits : Z) (in_ivec : option bytes) : cipher_result :=
  check_param in_data (fun d => check_param in_key (fun k => check_param in_ivec (fun iv =>
    by_bits CAMELLIA CTR bits (fun c => evp_cipher_op c d in_len k (Some iv) true)))).

Definition aes_encrypt_ecb (in_data : option bytes) (in_len : Z) (in_key : option bytes) (bits : Z) (encrypt : bool) : cipher_result :=
  check_param in_data (fun d => check_param in_key (fun k =>
    by_bits AES ECB bits (fun c => evp_cipher_op c d in_len k None encrypt))).

Definition aes_encrypt_cbc (in_data : option bytes) (in_len : Z) (in_key : option bytes) (bits : Z) (in_ivec : option bytes) (encrypt : bool) : cipher_result :=
  check_param in_data (fun d => check_param in_key (fun k => check_param in_ivec (fun iv =>
    by_bits AES CBC bits (fun c => evp_cipher_op c d in_len k (Some iv) encrypt)))).

Definition aes_encrypt_cfb (in_data : option bytes) (in_len : Z) (in_key : option bytes) (bits : Z) (in_ivec : option bytes) (encrypt : bool) : cipher_result :=
  check_param in_data (fun d => check_param in_key (fun k => check_param in_ivec (fun iv =>
    by_bits AES CFB bits (fun c => evp_cipher_op c d in_len k (Some iv) encrypt)))).

Definition aes_encrypt_ofb (in_data : option bytes) (in_len : Z) (in_key : option bytes) (bits : Z) (in_ivec : option bytes) : cipher_result :=
  check_param in_data (fun d => check_param in_key (fun k => check_param in_ivec (fun iv =>
    by_bits AES OFB bits (fun c => evp_cipher_op c d in_len k (Some iv) true)))).

Definition aes_encrypt_ctr (in_data : option bytes) (in_len : Z) (in_key : option bytes) (bits : Z) (in_ivec : option bytes) : cipher_result :=
  check_param in_data (fun d => check_param in_key (fun k => check_param in_ivec (fun iv =>
    by_bits AES CTR bits (fun c => evp_cipher_op c d in_len k (Some iv) true)))).

(** [c_str()]: the bytes of a string and its terminator. *)
Definition c_str (s : bytes) : option bytes := Some (s ++ [x00]).

(** The new [out_str] is the old one unless [rc] is 0. *)
Definition symmetric_encrypt (in_str in_key in_ivec : bytes) (eType : Z) (encrypt : bool) (out_str : bytes)
  : option (Z * bytes) :=
  let bits := 128 in
  if (size_of in_key <? 8) || (size_of in_ivec <? 8) then Some (-1, out_str)
  else if ((eType =? eET_3DES_ECB) || (eType =? eET_3DES_CBC)) && (size_of in_key <? 3 * 8) then Some (-1, out_str)
  else
    let d := c_str in_str in
    let len := wrap 32 (size_of in_str) in
    let k := c_str in_key in
    let iv := c_str in_ivec in
    let r :=
      if eType =? eET_AES_ECB then aes_encrypt_ecb d len k bits encrypt
      else if eType =? eET_AES_CBC then aes_encrypt_cbc d len k bits iv encrypt
      else if eType =? eET_AES_CFB then aes_encrypt_cfb d len k bits iv encrypt
      else if eType =? eET_AES_OFB then aes_encrypt_ofb d len k bits iv
      else if eType =? eET_AES_CTR then aes_encrypt_ctr d len k bits iv
      else if eType =? eET_CAMELLIA_ECB then camellia_encrypt_ecb d len k bits encrypt
      else if eType =? eET_CAMELLIA_CBC then camellia_encrypt_cbc d len k bits iv encrypt
      else if eType =? eET_CAMELLIA_CFB then camellia_encrypt_cfb d len k bits iv encrypt
      else if eType =? eET_CAMELLIA_OFB then camellia_encrypt_ofb d len k bits iv
      else if eType =? eET_CAMELLIA_CTR then camellia_encrypt_ctr d len k bits iv
      else if eType =? eET_3DES_ECB then des_encrypt_ecb3 d len k encrypt
      else if eType =? eET_3DES_CBC then des_encrypt_cbc3 d len k iv encrypt
      else if eType =? eET_3DES_CFB then des_encrypt_cfb3 d len k iv encrypt
      else if eType =? eET_3DES_OFB then des_encrypt_ofb3 d len k iv
      else if eType =? eET_DES_ECB then des_encrypt_ecb d len k encrypt
      else if eType =? eET_DES_CBC then des_encrypt_cbc d len k iv encrypt
      else if eType =? eET_DES_CFB then des_encrypt_cfb d len k iv encrypt
      else if eType =? eET_DES_OFB then des_encrypt_ofb d len k iv
      else Some (-1, []) in
    match r with
    | None => None
    | Some (rc, out) => Some (rc, if rc =? 0 then out else out_str)
    end.

(** ** Key pairs *)

(** [pkey_op]: the return code and, when the output was allocated and filled,
    the output. *)
Definition pkey_op (op : pkey_operation) (k : key) (in_data : bytes) : Z * bytes :=
  match pkey_query op k in_data with
  | None => (-1, [])
  | Some outlen =>
      if negb (malloc (wrap 32 outlen)) then (-100, [])
      else
        match pkey_run op k in_data with
        | None => (-1, [])
        | Some out => (swrap 32 (size_of out), out)
        end
  end.

(** With [in_data], [out_data] and [out_len] not null. *)
Definition rsa_encrypt (in_data : bytes) (in_key : option key) (eType : Z) : Z * bytes :=
  match in_key with
  | None => (-1, [])
  | Some k =>
      if negb (EVP_PKEY_CTX_new k) then (-1, [])
      else
        let run op := if pkey_init op k then pkey_op op k in_data else (-1, []) in
        let '(rc, out) :=
          if eType =? eET_RSA_PUBLIC_ENC then run PKEY_encrypt
          else if eType =? eET_RSA_PRIVATE_DEC then run PKEY_decrypt
          else if eType =? eET_RSA_PRIVATE_ENC then run PKEY_sign
          else if eType =? eET_RSA_PUBLIC_DEC then run PKEY_verify_recover
          else (-1, []) in
        if rc <? 0 then (rc, []) else (rc, out)
  end.

(** 1 and the signature, or the code of the failure. *)
Definition pkey_sign (dgst : bytes) (pkey : option key) : Z * bytes :=
  match pkey with
  | None => (-1, [])
  | Some k =>
      if negb (EVP_PKEY_CTX_new k) then (-100, [])
      else
        let '(rc, sig) := if pkey_init PKEY_sign k then pkey_op PKEY_sign k dgst else (-1, []) in
        if rc <=? 0 then (rc, []) else (1, sig)
  end.

Definition pkey_verify (dgst : bytes) (pkey : option key) (sig : bytes) : Z :=
  match pkey with
  | None => -1
  | Some k =>
      if negb (EVP_PKEY_CTX_new k) then -1
      else if negb (EVP_PKEY_verify_init k) then -1
      else EVP_PKEY_verify k sig dgst
  end.

Definition dsa_sign (dgst : bytes) (dsa_pri : option key) : Z * bytes := pkey_sign dgst dsa_pri.
Definition dsa_verify (dgst : bytes) (dsa_pub : option key) (sig : bytes) : Z := pkey_verify dgst dsa_pub sig.
Definition ecc_sign (dgst : bytes) (k : option key) : Z * bytes := pkey_sign dgst k.
Definition ecc_verify (dgst : bytes) (k : option key) (sig : bytes) : Z := pkey_verify dgst k sig.

(** The return code and, when it is positive, the bytes written to [out], a
    buffer of [len]. *)
Definition pkey_derive_shared (own_key peer_key : key) (len : Z) : Z * bytes :=
  if negb (EVP_PKEY_CTX_new own_key) then (-1, [])
  else if EVP_PKEY_derive_set_peer own_key peer_key then
    match EVP_PKEY_derive_size own_key peer_key with
    | None => (-1, [])
    | Some outlen =>
        if outlen <=? wrap 64 len then
          match EVP_PKEY_derive own_key peer_key with
          | None => (-1, [])
          | Some out => (swrap 32 (size_of out), out)
          end
        else (-1, [])
    end
  else (-1, []).

(** ** Diffie-Hellman *)

Definition dh_keygen_from_params (seed : nat) (params : key) : option key :=
  if negb (EVP_PKEY_CTX_new params) then None
  else
    match EVP_PKEY_keygen seed params with
    | None => None
    | Some k => if EVP_PKEY_CTX_new k && EVP_PKEY_public_check k then Some k else None
    end.

(** [dh_generate(int prime_len)]. *)
Definition dh_generate (seed : nat) (prime_len : Z) : option key :=
  match DH_paramgen seed prime_len with
  | None => None
  | Some params =>
      if EVP_PKEY_CTX_new params && EVP_PKEY_param_check params
      then dh_keygen_from_params seed params else None
  end.

Definition dh_build_from_bn (p g : bn) (pub : option bn) : option key :=
  if (BN_bn2nativepad p <=? 0) || (BN_bn2nativepad g <=? 0) then None
  else
    match pub with
    | None => DH_fromdata p g None
    | Some pb => if BN_bn2nativepad pb <=? 0 then None else DH_fromdata p g (Some pb)
    end.

Definition dh_create_params (p g : bn) : option key :=
  match dh_build_from_bn p g None with
  | None => None
  | Some dh => if EVP_PKEY_CTX_new dh && EVP_PKEY_param_check dh then Some dh else None
  end.

(** [dh_generate(p, g)]. *)
Definition dh_generate_pg (seed : nat) (p g : bytes) : option key :=
  if (size_of p =? 0) || (size_of g =? 0) then None
  else
    match BN_bin2bn p, BN_bin2bn g with
    | Some bn_p, Some bn_g =>
        match dh_create_params bn_p bn_g with
        | None => None
        | Some params => dh_keygen_from_params seed params
        end
    | _, _ => None
    end.

Definition dh_export (k : option key) (name : dh_param) : bytes :=
  match k with
  | None => []
  | Some k =>
      match EVP_PKEY_get_bn_param k name with
      | None => []
      | Some b => BN_bn2bin b
      end
  end.

(** With [sharekey] not null. *)
Definition dh_compute_sharekey (dh : option key) (peer_pub : bytes) (len : Z) : Z * bytes :=
  match dh with
  | None => (-1, [])
  | Some k =>
      if size_of peer_pub =? 0 then (-1, [])
      else
        match EVP_PKEY_get_bn_param k DH_p, EVP_PKEY_get_bn_param k DH_g with
        | Some p, Some g =>
            match BN_bin2bn peer_pub with
            | None => (-1, [])
            | Some pub =>
                match dh_build_from_bn p g (Some pub) with
                | None => (-1, [])
                | Some peer => pkey_derive_shared k peer len
                end
            end
        | _, _ => (-1, [])
        end
  end.

(** ** Elliptic curves *)

Definition ecc_create (seed : nat) (curve_nid : Z) : Z * option key :=
  match EC_keygen seed curve_nid with
  | None => (-1, None)
  | Some k => (1, Some k)
  end.

Definition ecc_export_pubkey (k : option key) : bytes :=
  match k with
  | None => []
  | Some k => default [] (EC_get_pubkey k)
  end.

Definition ecc_import_pubkey (curve_nid : Z) (pub : bytes) : option key :=
  if size_of pub =? 0 then None
  else
    match OBJ_nid2sn curve_nid with
    | None => None
    | Some curve_name => EC_fromdata curve_name pub
    end.

Definition ecc_compute_sharekey (k : option key) (curve_nid : Z) (peer_pub : bytes) (len : Z) : Z * bytes :=
  match k with
  | None => (-1, [])
  | Some k =>
      if size_of peer_pub =? 0 then (-1, [])
      else
        match ecc_import_pubkey curve_nid peer_pub with
        | None => (-1, [])
        | Some peer => pkey_derive_shared k peer len
        end
  end.

(** ** What the ciphers promise *)

Definition doc_block_size (c : evp_cipher) : Z :=
  match evp_mode c with
  | ECB | CBC => match evp_alg c with DES | DES_EDE3 => 8 | _ => 16 end
  | _ => 1
  end.
Definition doc_key_length (c : evp_cipher) : Z :=
  match evp_alg c with DES => 8 | DES_EDE3 => 24 | CAMELLIA bits | AES bits => bits / 8 end.
Definition doc_iv_length (c : evp_cipher) : Z :=
  match evp_mode c with ECB => 0 | _ => match evp_alg c with DES | DES_EDE3 => 8 | _ => 16 end end.

(** OFB and CTR add a key stream: the same call encrypts and decrypts. *)
Definition is_stream (c : evp_cipher) : bool := match evp_mode c with OFB | CTR => true | _ => false end.

Class CipherLaws : Prop := {
  malloc_ok n : 0 <= n -> malloc n = true;
  block_size_doc c : EVP_CIPHER_block_size c = doc_block_size c;
  key_length_doc c : EVP_CIPHER_key_length c = doc_key_length c;
  iv_length_doc c : EVP_CIPHER_iv_length c = doc_iv_length c;
  legacy_provides enc c : EVP_CipherInit true enc c = true;
  (* of a call on all of the input, whose length is not negative *)
  cipher_total c enc k iv d : size_of d < 2 ^ 31 -> size_of d mod doc_block_size c = 0 ->
    exists out, EVP_Cipher c enc k iv d (size_of d) = Some out /\ size_of out = size_of d;
  cipher_inverse c k iv m e : size_of m < 2 ^ 31 ->
    EVP_Cipher c true k iv m (size_of m) = Some e -> EVP_Cipher c false k iv e (size_of e) = Some m;
  keystream c k iv m e : size_of m < 2 ^ 31 -> is_stream c = true ->
    EVP_Cipher c true k iv m (size_of m) = Some e -> EVP_Cipher c true k iv e (size_of e) = Some m;
}.

Context {CL : CipherLaws}.

(** The cipher and the direction that a type stands for. *)
Definition cipher_of (eType : Z) : evp_cipher :=
  let m := nth (Z.to_nat eType)
    [ECB; CBC; CFB; OFB; ECB; CBC; CFB; OFB; ECB; CBC; CFB; OFB; CTR; ECB; CBC; CFB; OFB; CTR] ECB in
  EVP (if eType <? 4 then DES else if eType <? 8 then DES_EDE3 else if eType <? 13 then CAMELLIA 128 else AES 128) m.

Definition ivec_of (c : evp_cipher) (iv : bytes) : option bytes :=
  match evp_mode c with ECB => None | _ => c_str iv end.

Lemma symmetric_cases in_str in_key in_ivec t encrypt out_str :
  0 <= t <= 17 -> 8 <= size_of in_key -> 8 <= size_of in_ivec -> doc_key_length (cipher_of t) <= size_of in_key \/ 8 <= t ->
  symmetric_encrypt in_str in_key in_ivec t encrypt out_str =
  match evp_cipher_op (cipher_of t) (in_str ++ [x00]) (wrap 32 (size_of in_str)) (in_key ++ [x00])
          (ivec_of (cipher_of t) in_ivec) (encrypt || is_stream (cipher_of t)) with
  | None => None
  | Some (rc, out) => Some (rc, if rc =? 0 then out else out_str)
  end.
Proof.
  intros Ht Hk Hiv Hkl. unfold symmetric_encrypt.
  rewrite (proj2 (Z.ltb_ge _ _) Hk), (proj2 (Z.ltb_ge _ _) Hiv). cbn [orb].
  assert (((t =? eET_3DES_ECB) || (t =? eET_3DES_CBC)) && (size_of in_key <? 3 * 8) = false) as ->.
  { apply andb_false_iff. destruct Hkl as [Hkl|]; [|left; unfold eET_3DES_ECB, eET_3DES_CBC; lia].
    destruct ((t =? eET_3DES_ECB) || (t =? eET_3DES_CBC)) eqn:E; [right|by left].
    assert (t = 4 \/ t = 5) as [->| ->] by (unfold eET_3DES_ECB, eET_3DES_CBC in E; lia);
      cbn in Hkl; lia. }
  assert (t = 0 \/ t = 1 \/ t = 2 \/ t = 3 \/ t = 4 \/ t = 5 \/ t = 6 \/ t = 7 \/ t = 8 \/ t = 9 \/ t = 10 \/
    t = 11 \/ t = 12 \/ t = 13 \/ t = 14 \/ t = 15 \/ t = 16 \/ t = 17) as Hcases by lia.
  repeat destruct Hcases as [->|Hcases]; [..|subst t]; destruct encrypt; reflexivity.
Qed.

Lemma block_size_range c : 1 <= doc_block_size c <= 16.
Proof. destruct c as [[] []]; cbn; lia. Qed.

(** Rounding up to whole blocks. *)
Lemma out_len_spec c n :
  0 <= n < 2 ^ 32 - 16 ->
  n <= cipher_out_len c n < n + doc_block_size c /\ cipher_out_len c n mod doc_block_size c = 0.
Proof.
  intros Hn. unfold cipher_out_len. rewrite block_size_doc. pose proof (block_size_range c) as Hb.
  set (b := doc_block_size c) in *. case_if; bool_Z.
  - rewrite (wrap_id 32 (n + b - 1)) by (unfold in_uint; lia).
    pose proof (Z.div_mod (n + b - 1) b ltac:(lia)). pose proof (Z.mod_pos_bound (n + b - 1) b ltac:(lia)).
    rewrite wrap_id by (unfold in_uint; nia). split; [nia|]. apply Z_mod_mult.
  - assert (b = 1) as -> by lia. split; [lia|]. apply Z.mod_1_r.
Qed.

(** The block that reaches the cipher. *)
Definition padded (c : evp_cipher) (m : bytes) : bytes :=
  m ++ replicate (Z.to_nat (cipher_out_len c (size_of m) - size_of m)) x00.

Lemma size_padded c m : size_of m < 2 ^ 32 - 16 -> size_of (padded c m) = cipher_out_len c (size_of m).
Proof.
  intros Hm. pose proof (size_of_nonneg m). destruct (out_len_spec c (size_of m) ltac:(lia)) as [Hl _].
  unfold padded. rewrite size_of_app. unfold size_of at 2. rewrite length_replicate. lia.
Qed.

(** What [evp_cipher_op] hands to the cipher. *)
Lemma cipher_op_input c m :
  size_of m < 2 ^ 32 - 16 ->
  (if (1 <? EVP_CIPHER_block_size c) && (size_of m <? cipher_out_len c (size_of m))
   then take (Z.to_nat (size_of m)) (m ++ [x00]) ++ replicate (Z.to_nat (cipher_out_len c (size_of m) - size_of m)) x00
   else take (Z.to_nat (cipher_out_len c (size_of m))) (m ++ [x00])) = padded c m.
Proof.
  intros Hm. pose proof (size_of_nonneg m) as Hnn. destruct (out_len_spec c (size_of m) ltac:(lia)) as [Hl _].
  unfold padded. destruct (decide (size_of m < cipher_out_len c (size_of m))) as [Hlt|Hge].
  - rewrite (proj2 (Z.ltb_lt _ _) Hlt), take_size_app. rewrite block_size_doc in *.
    case_if; [done|]. bool_Z. lia.
  - replace (cipher_out_len c (size_of m)) with (size_of m) by lia.
    rewrite Z.ltb_irrefl, andb_false_r, take_size_app, Z.sub_diag. by rewrite app_nil_r.
Qed.

(** On readable keys and vectors it is one call of the cipher. *)
Lemma cipher_op_call c m k iv enc :
  size_of m < 2 ^ 32 - 16 -> doc_key_length c <= size_of k ->
  match iv with None => evp_mode c = ECB | Some v => doc_iv_length c <= size_of v end ->
  exists kb ivb, key_bytes c k = Some kb /\ iv_bytes c iv = Some ivb /\
    evp_cipher_op c (m ++ [x00]) (size_of m) k iv enc =
      Some (match EVP_Cipher c enc kb ivb (padded c m) (swrap 32 (cipher_out_len c (size_of m))) with
            | None => (-1, [])
            | Some out => (0, out)
            end).
Proof.
  intros Hm Hk Hiv. pose proof (size_of_nonneg m) as Hnn. destruct (out_len_spec c (size_of m) ltac:(lia)) as [Hl _].
  assert (exists kb, key_bytes c k = Some kb) as [kb Ekb].
  { unfold key_bytes. rewrite key_length_doc, (proj2 (Z.ltb_ge _ _) Hk). by eexists. }
  assert (exists ivb, iv_bytes c iv = Some ivb) as [ivb Eiv].
  { unfold iv_bytes. destruct iv as [v|]; [|by eexists]. rewrite iv_length_doc, (proj2 (Z.ltb_ge _ _) Hiv). by eexists. }
  exists kb, ivb. split; [done|]. split; [done|].
  unfold evp_cipher_op. rewrite malloc_ok by lia. cbn [negb]. rewrite Ekb, Eiv, legacy_provides, orb_true_r, cipher_op_input by done.
  by destruct (EVP_Cipher _ _ _ _ _ _).
Qed.

(** Short of 2 GB, the length survives the conversion. *)
Lemma int_len c m : size_of m <= 2 ^ 31 - 16 ->
  swrap 32 (cipher_out_len c (size_of m)) = size_of (padded c m) /\ size_of (padded c m) < 2 ^ 31 /\
  size_of (padded c m) mod doc_block_size c = 0.
Proof.
  intros Hm. pose proof (size_of_nonneg m). destruct (out_len_spec c (size_of m) ltac:(lia)) as [Hl Hmod].
  rewrite size_padded by lia. assert (cipher_out_len c (size_of m) < 2 ^ 31).
  { pose proof (block_size_range c). lia. }
  split; [|done]. rewrite swrap_id; [done|lia|unfold in_sint; lia].
Qed.

(** The whole of [evp_cipher_op] on readable keys and vectors. *)
Lemma cipher_op_ok c m k iv enc :
  size_of m <= 2 ^ 31 - 16 -> doc_key_length c <= size_of k ->
  match iv with None => evp_mode c = ECB | Some v => doc_iv_length c <= size_of v end ->
  exists kb ivb, key_bytes c k = Some kb /\ iv_bytes c iv = Some ivb /\ exists out,
    EVP_Cipher c enc kb ivb (padded c m) (size_of (padded c m)) = Some out /\ size_of out = cipher_out_len c (size_of m) /\
    evp_cipher_op c (m ++ [x00]) (size_of m) k iv enc = Some (0, out).
Proof.
  intros Hm Hk Hiv. destruct (cipher_op_call c m k iv enc ltac:(lia) Hk Hiv) as (kb & ivb & Ekb & Eiv & E).
  destruct (int_len c m Hm) as (Hi & Hlt & Hmod). destruct (cipher_total c enc kb ivb (padded c m) Hlt Hmod) as (out & Ho & Hs).
  exists kb, ivb. split; [done|]. split; [done|]. exists out. split; [done|]. rewrite Hs, size_padded by lia. split; [done|].
  by rewrite E, Hi, Ho.
Qed.

Lemma key_overread c m n k iv enc :
  0 <= n < 2 ^ 32 - 16 -> size_of k < doc_key_length c -> evp_cipher_op c m n k iv enc = None.
Proof.
  intros Hn Hk. destruct (out_len_spec c n Hn) as [Hl _]. unfold evp_cipher_op. rewrite malloc_ok by lia.
  cbn [negb]. unfold key_bytes. by rewrite key_length_doc, (proj2 (Z.ltb_lt _ _) Hk).
Qed.

Lemma iv_overread c m n k iv enc :
  0 <= n < 2 ^ 32 - 16 -> size_of iv < doc_iv_length c -> evp_cipher_op c m n k (Some iv) enc = None.
Proof.
  intros Hn Hk. destruct (out_len_spec c n Hn) as [Hl _]. unfold evp_cipher_op. rewrite malloc_ok by lia.
  cbn [negb]. unfold iv_bytes. rewrite iv_length_doc, (proj2 (Z.ltb_lt _ _) Hk). by destruct (key_bytes c k).
Qed.

Lemma symmetric_refused t k iv m enc out :
  size_of k < 8 \/ size_of iv < 8 -> symmetric_encrypt m k iv t enc out = Some (-1, out).
Proof.
  intros Hs. unfold symmetric_encrypt. by replace ((size_of k <? 8) || (size_of iv <? 8)) with true by lia.
Qed.

Lemma overread_short t k iv m enc out :
  eET_AES_ECB <= t <= eET_AES_CTR -> size_of m < 2 ^ 32 - 16 ->
  symmetric_encrypt m k iv t enc out = None <->
  8 <= size_of k /\ 8 <= size_of iv /\ (size_of k < 15 \/ (t <> eET_AES_ECB /\ size_of iv < 15)).
Proof.
  unfold eET_AES_ECB, eET_AES_CTR. intros Ht Hm. pose proof (size_of_nonneg m).
  destruct (decide (size_of k < 8 \/ size_of iv < 8)) as [Hs|Hs]; [rewrite symmetric_refused by done; split; [done|lia]|].
  rewrite symmetric_cases by lia. rewrite wrap_id by (unfold in_uint; lia).
  assert (doc_key_length (cipher_of t) = 16 /\
    match ivec_of (cipher_of t) iv with
    | None => t = 13 /\ evp_mode (cipher_of t) = ECB
    | Some v => t <> 13 /\ v = iv ++ [x00] /\ doc_iv_length (cipher_of t) = 16
    end) as [Hkl Hvl].
  { assert (t = 13 \/ t = 14 \/ t = 15 \/ t = 16 \/ t = 17) as Hc by lia.
    repeat destruct Hc as [->|Hc]; [..|subst t]; cbn; split_and!; done. }
  assert (size_of (k ++ [x00]) = size_of k + 1 /\ size_of (iv ++ [x00]) = size_of iv + 1) as [Hk1 Hi1]
    by (rewrite !size_of_app; done).
  destruct (decide (size_of k < 15)) as [Hk|Hk].
  { split; [intros _; lia|]. intros _. by rewrite key_overread by lia. }
  destruct (ivec_of (cipher_of t) iv) as [v|] eqn:Ev.
  - destruct Hvl as (Hne & -> & Hil). destruct (decide (size_of iv < 15)) as [Hi|Hi].
    + split; [intros _; lia|]. intros _. by rewrite iv_overread by lia.
    + destruct (cipher_op_call (cipher_of t) m (k ++ [x00]) (Some (iv ++ [x00])) (enc || is_stream (cipher_of t)))
        as (? & ? & _ & _ & ->); [lia|lia|cbn beta iota; lia|]. split; [by destruct (EVP_Cipher _ _ _ _ _ _)|lia].
  - destruct Hvl as [-> Hmode]. destruct (cipher_op_call (cipher_of 13) m (k ++ [x00]) None (enc || is_stream (cipher_of 13)))
      as (? & ? & _ & _ & ->); [lia|lia|done|]. split; [by destruct (EVP_Cipher _ _ _ _ _ _)|lia].
Qed.

(** ** Properties *)

(** Key and vector are long enough for the cipher. *)
Definition secret_ok (t : Z) (k iv : bytes) : Prop :=
  8 <= size_of k /\ 8 <= size_of iv /\ doc_key_length (cipher_of t) <= size_of k /\
  doc_iv_length (cipher_of t) <= size_of iv.

Lemma ivec_ok t k iv : secret_ok t k iv ->
  match ivec_of (cipher_of t) iv with
  | None => evp_mode (cipher_of t) = ECB
  | Some v => doc_iv_length (cipher_of t) <= size_of v
  end.
Proof.
  intros (_ & _ & _ & Hiv). unfold ivec_of, c_str. destruct (evp_mode (cipher_of t)); try done;
    rewrite size_of_app; change (size_of [x00]) with 1; lia.
Qed.

(** One call, on a text of a legal size. *)
Lemma symmetric_call t k iv m enc out_str :
  0 <= t <= 17 -> secret_ok t k iv -> size_of m <= 2 ^ 31 - 16 ->
  exists kb ivb out, key_bytes (cipher_of t) (k ++ [x00]) = Some kb /\ iv_bytes (cipher_of t) (ivec_of (cipher_of t) iv) = Some ivb /\
    EVP_Cipher (cipher_of t) (enc || is_stream (cipher_of t)) kb ivb (padded (cipher_of t) m) (size_of (padded (cipher_of t) m)) = Some out /\
    size_of out = cipher_out_len (cipher_of t) (size_of m) /\
    symmetric_encrypt m k iv t enc out_str = Some (0, out).
Proof.
  intros Ht Hs Hm. pose proof (ivec_ok _ _ _ Hs) as Hiv. destruct Hs as (Hk & Hv & Hkl & _).
  pose proof (size_of_nonneg m).
  destruct (cipher_op_ok (cipher_of t) m (k ++ [x00]) (ivec_of (cipher_of t) iv) (enc || is_stream (cipher_of t)))
    as (kb & ivb & Ekb & Eiv & out & Ho & Hso & Hr); [done| |done|].
  { rewrite size_of_app. change (size_of [x00]) with 1. lia. }
  exists kb, ivb, out. split_and!; try done.
  rewrite symmetric_cases by (done || by left). rewrite wrap_id by (unfold in_uint; lia). by rewrite Hr.
Qed.

(** Decrypting gives the padded text back. *)
Lemma symmetric_inverse t k iv m out_str out_str' :
  0 <= t <= 17 -> secret_ok t k iv -> size_of m <= 2 ^ 31 - 16 ->
  exists e, symmetric_encrypt m k iv t true out_str = Some (0, e) /\
    size_of e = cipher_out_len (cipher_of t) (size_of m) /\
    symmetric_encrypt e k iv t false out_str' = Some (0, padded (cipher_of t) m).
Proof.
  intros Ht Hs Hm. pose proof (size_of_nonneg m). pose proof (block_size_range (cipher_of t)) as Hb.
  destruct (out_len_spec (cipher_of t) (size_of m) ltac:(lia)) as [Hl Hmod].
  destruct (symmetric_call t k iv m true out_str Ht Hs ltac:(lia)) as (kb & ivb & e & Ekb & Eiv & He & Hse & Hr).
  exists e. split; [done|]. split; [done|].
  destruct (int_len (cipher_of t) m Hm) as (_ & Hlt & _). pose proof (size_padded (cipher_of t) m ltac:(lia)) as Hsp.
  assert (size_of e <= 2 ^ 31 - 16) as Hse16.
  { rewrite Hse. destruct (decide (doc_block_size (cipher_of t) = 1)) as [Hb1|Hb1]; [lia|].
    apply Z.mod_divide in Hmod as [q Hq]; [|lia]. rewrite Hq in *.
    assert (doc_block_size (cipher_of t) = 8 \/ doc_block_size (cipher_of t) = 16) as [E|E]
      by (clear -Hb1; destruct (cipher_of t) as [[] []]; cbn in *; lia); rewrite E in *; lia. }
  destruct (symmetric_call t k iv e false out_str' Ht Hs Hse16) as (kb' & ivb' & d & Ekb' & Eiv' & Hd & _ & ->).
  assert (cipher_out_len (cipher_of t) (size_of e) = size_of e) as Hfix.
  { rewrite Hse. destruct (out_len_spec (cipher_of t) (cipher_out_len (cipher_of t) (size_of m)) ltac:(lia)) as [Hr1 Hr2].
    set (b := doc_block_size (cipher_of t)) in *. apply Z.mod_divide in Hmod, Hr2; [|lia..].
    destruct Hmod as [x Hx], Hr2 as [y Hy]. rewrite Hx, Hy in *. clear -Hr1 Hb.
    assert (x <= y) by nia. assert (y < x + 1) by nia. by replace y with x by lia. }
  simplify_eq. assert (padded (cipher_of t) e = e) as Hpe by (unfold padded; by rewrite Hfix, Z.sub_diag, app_nil_r).
  rewrite Hpe in Hd. do 2 f_equal.
  cbn [orb] in He, Hd. destruct (is_stream (cipher_of t)) eqn:Est.
  - rewrite (keystream _ _ _ _ _ Hlt Est He) in Hd. by simplify_eq.
  - rewrite (cipher_inverse _ _ _ _ _ Hlt He) in Hd. by simplify_eq.
Qed.

(** C33: encryption and decryption are inverse, for each of the 18 symmetric
    types, on keys and vectors long enough for the cipher and texts of at most
    2^31 - 16 bytes, which an [int] can count when padded: both calls succeed,
    the stream modes give the text back exactly and the block modes give it
    back followed by fewer zero bytes than a block. *)
Theorem symmetric_roundtrip t k iv m :
  0 <= t <= 17 -> secret_ok t k iv -> size_of m <= 2 ^ 31 - 16 ->
  exists e pad, symmetric_encrypt m k iv t true [] = Some (0, e) /\
    symmetric_encrypt e k iv t false [] = Some (0, m ++ replicate pad x00) /\
    size_of e = size_of m + Z.of_nat pad /\ Z.of_nat pad < doc_block_size (cipher_of t).
Proof.
  intros Ht Hs Hm. destruct (symmetric_inverse t k iv m [] [] Ht Hs Hm) as (e & He & Hse & Hd).
  pose proof (size_of_nonneg m). pose proof (block_size_range (cipher_of t)).
  destruct (out_len_spec (cipher_of t) (size_of m) ltac:(lia)) as [Hl _].
  exists e, (Z.to_nat (cipher_out_len (cipher_of t) (size_of m) - size_of m)).
  split_and!; [done|exact Hd|lia|lia].
Qed.

(** decryption has no notion of a malformed ciphertext: of whatever length short of 2 GB,
    it is completed with zero bytes to whole blocks and decrypted with success. *)
Theorem decrypt_accepts_any_length t k iv e :
  0 <= t <= 17 -> secret_ok t k iv -> size_of e <= 2 ^ 31 - 16 ->
  exists m, symmetric_encrypt e k iv t false [] = Some (0, m) /\
    size_of m = cipher_out_len (cipher_of t) (size_of e) /\
    size_of e <= size_of m < size_of e + doc_block_size (cipher_of t).
Proof.
  intros Ht Hs He. pose proof (size_of_nonneg e).
  destruct (symmetric_call t k iv e false [] Ht Hs He) as (kb & ivb & m & _ & _ & _ & Hm & ->).
  exists m. split; [done|]. split; [done|]. rewrite Hm. apply (out_len_spec (cipher_of t) (size_of e)). lia.
Qed.

(** a longer text is asked for with a negative length. *)
Theorem long_text_negative c (m : bytes) : 2 ^ 31 <= size_of m < 2 ^ 32 - 16 -> swrap 32 (cipher_out_len c (size_of m)) < 0.
Proof.
  intros Hm. destruct (out_len_spec c (size_of m) ltac:(lia)) as [Hl _]. pose proof (block_size_range c).
  unfold swrap. change (2 ^ (32 - 1)) with 2147483648 in *. change (2 ^ 32) with 4294967296 in *. change (2 ^ 31) with 2147483648 in *.
  Z.div_mod_to_equations. lia.
Qed.

(** C35: the check of the key and the vector asks for 8 bytes. For AES, whose key
    and vector have 16, a shorter one that passes it is read beyond its end,
    terminator included; shorter than 8, the call is refused and the output left
    alone. *)
Theorem aes_overread_iff t k iv m enc out :
  eET_AES_ECB <= t <= eET_AES_CTR -> size_of m < 2 ^ 32 - 16 ->
  (symmetric_encrypt m k iv t enc out = None <->
   8 <= size_of k /\ 8 <= size_of iv /\ (size_of k < 15 \/ (t <> eET_AES_ECB /\ size_of iv < 15))) /\
  (size_of k < 8 \/ size_of iv < 8 -> symmetric_encrypt m k iv t enc out = Some (-1, out)).
Proof. intros Ht Hm. split; [by apply overread_short|apply symmetric_refused]. Qed.

End openssl.
Arguments CipherLaws key bn {O}.

(** ** What the key pairs promise *)

Section keys.
Context {key bn : Type} `{O : OpenSSL key bn}.

(** [own] with the public half [peer] gives the secret [z]; the size that is asked
    for beforehand is the most that it can have. *)
Definition derives (own peer : key) (z : bytes) : Prop :=
  EVP_PKEY_derive_set_peer own peer = true /\ EVP_PKEY_derive own peer = Some z /\ 0 < size_of z /\
  exists most, EVP_PKEY_derive_size own peer = Some most /\ size_of z <= most <= EVP_PKEY_size own.

(** A number or point that travels: not empty, and short. *)
Definition exported (b : bytes) : Prop := 0 < size_of b < 2 ^ 20.

Class KeyLaws (rsa_pub rsa_pri : key) : Prop := {
  ctx_ok k : EVP_PKEY_CTX_new k = true;
  pkey_size k : 0 < EVP_PKEY_size k < 2 ^ 16;
  (* one RSA key pair, of more than 11 bytes, with the padding of PKCS#1 *)
  rsa_size : 11 < EVP_PKEY_size rsa_pub /\ EVP_PKEY_size rsa_pri = EVP_PKEY_size rsa_pub;
  rsa_init : pkey_init PKEY_encrypt rsa_pub = true /\ pkey_init PKEY_decrypt rsa_pri = true;
  rsa_query b : pkey_query PKEY_encrypt rsa_pub b = Some (EVP_PKEY_size rsa_pub) /\
    pkey_query PKEY_decrypt rsa_pri b = Some (EVP_PKEY_size rsa_pri);
  rsa_inverse b : 0 < size_of b <= EVP_PKEY_size rsa_pub - 11 ->
    exists e, pkey_run PKEY_encrypt rsa_pub b = Some e /\ size_of e = EVP_PKEY_size rsa_pub /\
      pkey_run PKEY_decrypt rsa_pri e = Some b;
  (* the two sides of an exchange derive the same secret *)
  ecdh_agree s1 s2 nid k1 k2 : EC_keygen s1 nid = Some k1 -> EC_keygen s2 nid = Some k2 ->
    exists name b1 b2 p1 p2 z, OBJ_nid2sn nid = Some name /\
      EC_get_pubkey k1 = Some b1 /\ exported b1 /\ EC_fromdata name b1 = Some p1 /\
      EC_get_pubkey k2 = Some b2 /\ exported b2 /\ EC_fromdata name b2 = Some p2 /\
      derives k1 p2 z /\ derives k2 p1 z;
  bn_roundtrip b : BN_bin2bn (BN_bn2bin b) = Some b;
  dh_has_params s params k : EVP_PKEY_keygen s params = Some k -> exists p g,
    EVP_PKEY_get_bn_param k DH_p = Some p /\ EVP_PKEY_get_bn_param k DH_g = Some g /\
    exported (BN_bn2bin p) /\ exported (BN_bn2bin g) /\ 0 < BN_bn2nativepad p /\ 0 < BN_bn2nativepad g;
  dh_agree s1 s2 params1 params2 k1 k2 p g :
    EVP_PKEY_keygen s1 params1 = Some k1 ->
    EVP_PKEY_get_bn_param k1 DH_p = Some p -> EVP_PKEY_get_bn_param k1 DH_g = Some g ->
    DH_fromdata p g None = Some params2 -> EVP_PKEY_keygen s2 params2 = Some k2 ->
    EVP_PKEY_get_bn_param k2 DH_p = Some p /\ EVP_PKEY_get_bn_param k2 DH_g = Some g /\
    exists pub1 pub2 q1 q2 z,
      EVP_PKEY_get_bn_param k1 DH_pub = Some pub1 /\ exported (BN_bn2bin pub1) /\ 0 < BN_bn2nativepad pub1 /\
      EVP_PKEY_get_bn_param k2 DH_pub = Some pub2 /\ exported (BN_bn2bin pub2) /\ 0 < BN_bn2nativepad pub2 /\
      DH_fromdata p g (Some pub1) = Some q1 /\ DH_fromdata p g (Some pub2) = Some q2 /\
      derives k1 q2 z /\ derives k2 q1 z;
}.

Context {CL : CipherLaws key bn} (rsa_pub rsa_pri : key) {KL : KeyLaws rsa_pub rsa_pri}.

Lemma derive_shared own peer z : derives own peer z ->
  pkey_derive_shared own peer (EVP_PKEY_size own) = (size_of z, z).
Proof.
  intros (Hp & Hd & Hz & most & Hq & Hm). pose proof (pkey_size own) as Hs. unfold pkey_derive_shared.
  rewrite ctx_ok, Hp, Hq, Hd. cbn [negb]. rewrite wrap_id by (unfold in_uint; lia).
  rewrite (proj2 (Z.leb_le _ _)) by lia. rewrite swrap_id; [done|lia|unfold in_sint; lia].
Qed.

Lemma rsa_encrypt_block b : 0 < size_of b <= EVP_PKEY_size rsa_pub - 11 ->
  exists e, rsa_encrypt b (Some rsa_pub) eET_RSA_PUBLIC_ENC = (EVP_PKEY_size rsa_pub, e) /\
    size_of e = EVP_PKEY_size rsa_pub /\ rsa_encrypt e (Some rsa_pri) eET_RSA_PRIVATE_DEC = (size_of b, b).
Proof.
  intros Hb. destruct (rsa_inverse b Hb) as (e & He & Hs & Hd). destruct rsa_size as [HL1 HL2], rsa_init as [Hi1 Hi2].
  pose proof (pkey_size rsa_pub) as HL. exists e. destruct (rsa_query b) as [Hq _], (rsa_query e) as [_ Hq'].
  assert (forall x, 0 < x < 2 ^ 16 -> malloc (wrap 32 x) = true) as Hm
    by (intros x Hx; apply malloc_ok; unfold wrap; by apply Z.mod_pos_bound).
  split_and!; [|done|]; unfold rsa_encrypt, pkey_op; rewrite ctx_ok; cbn [negb].
  - change (eET_RSA_PUBLIC_ENC =? eET_RSA_PUBLIC_ENC) with true. cbn iota. rewrite Hi1, Hq, Hm, He by lia. cbn [negb].
    rewrite Hs, swrap_id by (unfold in_sint; lia). by rewrite (proj2 (Z.ltb_ge _ _)) by lia.
  - change (eET_RSA_PRIVATE_DEC =? eET_RSA_PUBLIC_ENC) with false.
    change (eET_RSA_PRIVATE_DEC =? eET_RSA_PRIVATE_DEC) with true. cbn iota. rewrite Hi2, Hq', HL2, Hm, Hd by lia. cbn [negb].
    rewrite swrap_id by (unfold in_sint; lia). by rewrite (proj2 (Z.ltb_ge _ _)) by lia.
Qed.

(** Both sides of an elliptic curve exchange compute one secret. *)
Lemma ecc_agree s1 s2 nid k1 k2 :
  ecc_create s1 nid = (1, Some k1) -> ecc_create s2 nid = (1, Some k2) ->
  exported (ecc_export_pubkey (Some k1)) /\ exported (ecc_export_pubkey (Some k2)) /\ exists z, 0 < size_of z /\
    ecc_compute_sharekey (Some k1) nid (ecc_export_pubkey (Some k2)) (EVP_PKEY_size k1) = (size_of z, z) /\
    ecc_compute_sharekey (Some k2) nid (ecc_export_pubkey (Some k1)) (EVP_PKEY_size k2) = (size_of z, z).
Proof.
  unfold ecc_create. intros H1 H2. destruct (EC_keygen s1 nid) as [x|] eqn:E1; [|done]. injection H1 as ->.
  destruct (EC_keygen s2 nid) as [x|] eqn:E2; [|done]. injection H2 as ->.
  destruct (ecdh_agree _ _ _ _ _ E1 E2) as (name & b1 & b2 & p1 & p2 & z & Hn & Hb1 & Hx1 & Hp1 & Hb2 & Hx2 & Hp2 & Hd1 & Hd2).
  unfold ecc_export_pubkey, ecc_compute_sharekey, ecc_import_pubkey. rewrite Hb1, Hb2, Hn. cbn [default from_option id].
  unfold exported in *. rewrite !(proj2 (Z.eqb_neq _ 0)) by lia. rewrite Hp1, Hp2.
  split; [done|]. split; [done|]. exists z. rewrite (derive_shared _ _ _ Hd1), (derive_shared _ _ _ Hd2).
  destruct Hd1 as (_ & _ & ? & _). split; [lia|done].
Qed.

(** Both sides of a Diffie-Hellman exchange compute one secret. *)
Lemma dh_both_agree s1 s2 len k1 k2 :
  dh_generate s1 len = Some k1 ->
  dh_generate_pg s2 (dh_export (Some k1) DH_p) (dh_export (Some k1) DH_g) = Some k2 ->
  exported (dh_export (Some k1) DH_p) /\ exported (dh_export (Some k1) DH_g) /\
  exported (dh_export (Some k1) DH_pub) /\ exported (dh_export (Some k2) DH_pub) /\ exists z, 0 < size_of z /\
    dh_compute_sharekey (Some k1) (dh_export (Some k2) DH_pub) (EVP_PKEY_size k1) = (size_of z, z) /\
    dh_compute_sharekey (Some k2) (dh_export (Some k1) DH_pub) (EVP_PKEY_size k2) = (size_of z, z).
Proof.
  intros H1 H2.
  assert (forall s params k, dh_keygen_from_params s params = Some k -> EVP_PKEY_keygen s params = Some k) as Hgen.
  { intros s params k. unfold dh_keygen_from_params. rewrite ctx_ok. cbn [negb].
    destruct (EVP_PKEY_keygen s params) as [x|]; [|done]. by destruct (EVP_PKEY_CTX_new x && EVP_PKEY_public_check x). }
  unfold dh_generate in H1. destruct (DH_paramgen s1 len) as [params|]; [|done].
  destruct (EVP_PKEY_CTX_new params && EVP_PKEY_param_check params); [|done]. apply Hgen in H1.
  destruct (dh_has_params _ _ _ H1) as (p & g & Hp & Hg & Hxp & Hxg & Hnp & Hng).
  unfold dh_generate_pg in H2. unfold dh_export in *. rewrite Hp, Hg in *. rewrite !bn_roundtrip in H2.
  unfold exported in *. rewrite !(proj2 (Z.eqb_neq _ 0)) in H2 by lia. cbn [orb] in H2.
  unfold dh_create_params, dh_build_from_bn in H2. rewrite !(proj2 (Z.leb_gt _ 0)) in H2 by lia. cbn [orb] in H2.
  destruct (DH_fromdata p g None) as [params2|] eqn:E2; [|done].
  destruct (EVP_PKEY_CTX_new params2 && EVP_PKEY_param_check params2); [|done]. apply Hgen in H2.
  destruct (dh_agree _ _ _ _ _ _ _ _ H1 Hp Hg E2 H2) as (Hp2 & Hg2 & pub1 & pub2 & q1 & q2 & z &
    Hb1 & Hx1 & Hn1 & Hb2 & Hx2 & Hn2 & Hq1 & Hq2 & Hd1 & Hd2).
  rewrite Hb1, Hb2. do 4 (split; [done|]). exists z. split; [by destruct Hd1 as (_ & _ & ? & _)|].
  unfold exported in *. unfold dh_compute_sharekey, dh_build_from_bn. rewrite !(proj2 (Z.eqb_neq _ 0)) by lia.
  rewrite Hp, Hg, Hp2, Hg2, !bn_roundtrip. rewrite !(proj2 (Z.leb_gt _ 0)) by lia. cbn [orb].
  by rewrite Hq1, Hq2, (derive_shared _ _ _ Hd1), (derive_shared _ _ _ Hd2).
Qed.

End keys.
Arguments KeyLaws {key bn O}.

(** ** Witnesses: a toy library *)

(** RSA blocks carry a length byte and zeros; the ciphers are the identity; a
    key pair is its private number, its public half the same number, and the
    exchange multiplies modulo 2^32. *)
Definition toy_seal (b : bytes) : bytes := byte_of_Z (size_of b) :: b ++ replicate (63 - length b) x00.
Definition toy_open (b : bytes) : option bytes :=
  match b with [] => None | n :: b => Some (take (Z.to_nat (Z_of_byte n)) b) end.

Definition toy_pub (k : Z) : bytes := le_bytes 4 k.
Definition toy_share (k pub : Z) : bytes := le_bytes 40 ((k * pub) mod 2 ^ 32).

#[export] Instance toy : OpenSSL Z bytes := {
  malloc n := true;
  EVP_CIPHER_block_size := doc_block_size;
  EVP_CIPHER_key_length := doc_key_length;
  EVP_CIPHER_iv_length := doc_iv_length;
  EVP_CipherInit legacy _ c := legacy || match evp_alg c with DES => false | _ => true end;
  EVP_Cipher _ _ _ _ d inl := if inl <? 0 then None else Some (take (Z.to_nat inl) d);
  EVP_PKEY_size _ := 64;
  EVP_PKEY_CTX_new _ := true;
  pkey_init _ _ := true;
  pkey_query _ _ _ := Some 64;
  pkey_run op _ d := match op with PKEY_encrypt => Some (toy_seal d) | _ => toy_open d end;
  EVP_PKEY_verify_init _ := true;
  EVP_PKEY_verify _ _ _ := 1;
  EVP_PKEY_derive_set_peer _ _ := true;
  EVP_PKEY_derive_size _ _ := Some 48;
  EVP_PKEY_derive k peer := Some (toy_share k peer);
  DH_paramgen _ _ := Some 0;
  EVP_PKEY_param_check _ := true;
  EVP_PKEY_public_check _ := true;
  EVP_PKEY_keygen s _ := Some (Z.of_nat s);
  EVP_PKEY_get_bn_param k n := Some (match n with DH_p => [x17] | DH_g => [x05] | DH_pub => toy_pub k end);
  DH_fromdata _ _ pub := Some (match pub with None => 0 | Some b => le_val b end);
  BN_bin2bn b := Some b;
  BN_bn2bin b := b;
  BN_bn2nativepad b := size_of b;
  EC_keygen s nid := if 0 <? nid then Some (Z.of_nat s) else None;
  EC_get_pubkey k := Some (toy_pub k);
  OBJ_nid2sn _ := Some [];
  EC_fromdata _ b := Some (le_val b);
}.

#[export] Instance toy_cipher_laws : CipherLaws Z bytes.
Proof.
  split; try done.
  all: assert (forall (d : bytes), (if size_of d <? 0 then None else Some (take (Z.to_nat (size_of d)) d)) = Some d) as Ht
    by (intros d; pose proof (size_of_nonneg d); rewrite (proj2 (Z.ltb_ge _ _)) by lia; unfold size_of;
        by rewrite Nat2Z.id, firstn_all).
  - intros c enc k iv d _ _. exists d. cbn. by rewrite Ht.
  - intros c k iv m e _. cbn. rewrite !Ht. by intros [= <-].
  - intros c k iv m e _ _. cbn. rewrite !Ht. by intros [= <-].
Qed.

Lemma toy_agree k1 k2 : toy_share k1 (le_val (toy_pub k2)) = toy_share k2 (le_val (toy_pub k1)).
Proof.
  unfold toy_share, toy_pub. rewrite !le_val_le_bytes. change (8 * Z.of_nat 4) with 32.
  f_equal. rewrite !Zmult_mod_idemp_r. by rewrite Z.mul_comm.
Qed.

Lemma toy_derives k pub : derives (key:=Z) (bn:=bytes) k pub (toy_share k pub).
Proof.
  unfold derives. assert (size_of (toy_share k pub) = 40) as -> by (unfold toy_share, size_of; by rewrite length_le_bytes).
  split; [reflexivity|]. split; [reflexivity|]. split; [lia|]. exists 48. split; [reflexivity|].
  change (EVP_PKEY_size (OpenSSL:=toy) k) with 64. lia.
Qed.

#[export] Instance toy_key_laws : KeyLaws (key:=Z) (bn:=bytes) 0 0.
Proof.
  split; try done.
  - intros b Hb. change (EVP_PKEY_size (OpenSSL:=toy) 0) with 64 in *. exists (toy_seal b).
    assert (length b <= 53)%nat as Hl by (unfold size_of in Hb; lia). split; [done|]. split.
    + unfold toy_seal. rewrite size_of_cons, size_of_app. unfold size_of. rewrite length_replicate. lia.
    + cbn. do 2 f_equal. rewrite Z_of_byte_of_Z, Z.mod_small by (unfold size_of in *; lia). apply take_size_app.
  - intros s1 s2 nid k1 k2 _ _.
    exists [], (toy_pub k1), (toy_pub k2), (le_val (toy_pub k1)), (le_val (toy_pub k2)), (toy_share k1 (le_val (toy_pub k2))).
    split_and!; try done; [apply toy_derives|rewrite toy_agree; apply toy_derives].
  - intros s params k _. exists [x17], [x05]. done.
  - intros s1 s2 params1 params2 k1 k2 p g _ [= <-] [= <-] _ _. split_and!; try done.
    exists (toy_pub k1), (toy_pub k2), (le_val (toy_pub k1)), (le_val (toy_pub k2)), (toy_share k1 (le_val (toy_pub k2))).
    split_and!; try done; [apply toy_derives|rewrite toy_agree; apply toy_derives].
Qed.

Lemma symmetric_roundtrip_witness : exists e pad,
  symmetric_encrypt (repeat x41 20) (repeat x42 16) (repeat x43 16) eET_AES_CBC false e = Some (0, repeat x41 20 ++ replicate pad x00).
Proof.
  destruct (symmetric_roundtrip eET_AES_CBC (repeat x42 16) (repeat x43 16) (repeat x41 20)) as (e & pad & He & Hd & _ & _).
  - unfold eET_AES_CBC. lia.
  - vm_compute. split_and!; discriminate.
  - vm_compute. discriminate.
  - exists [], pad. injection He as <-. exact Hd.
Defined.

Lemma decrypt_accepts_any_length_witness : exists m,
  symmetric_encrypt [x41] (repeat x42 16) (repeat x43 16) eET_AES_ECB false [] = Some (0, m) /\ size_of m = 16.
Proof.
  destruct (decrypt_accepts_any_length eET_AES_ECB (repeat x42 16) (repeat x43 16) [x41]) as (m & Hm & Hs & _).
  - unfold eET_AES_ECB. lia.
  - vm_compute. split_and!; discriminate.
  - vm_compute. discriminate.
  - exists m. split; [exact Hm|exact Hs].
Defined.

Lemma aes_overread_iff_witness :
  symmetric_encrypt [x41] (repeat x42 16) (repeat x43 10) eET_AES_CFB true [] = None /\
  symmetric_encrypt [x41] (repeat x42 16) (repeat x43 7) eET_AES_CFB true [] = Some (-1, []).
Proof.
  split.
  - apply (aes_overread_iff eET_AES_CFB); [unfold eET_AES_ECB, eET_AES_CFB, eET_AES_CTR; lia|vm_compute; reflexivity|].
    split; [vm_compute; discriminate|]. split; [vm_compute; discriminate|]. right. split; [discriminate|vm_compute; reflexivity].
  - apply (aes_overread_iff eET_AES_CFB); [unfold eET_AES_ECB, eET_AES_CFB, eET_AES_CTR; lia|vm_compute; reflexivity|].
    right. vm_compute. reflexivity.
Defined.
