(* ===== verification/Handshake.v ===== *)
(** * The key-exchange handshake ([lygc/handshake_helper_v2.hpp])

    The four messages' data and their serialization, and the steps of
    [handshake_helper] for client and server, over the helpers of [Openssl] and
    [Random]. A step that cannot end normally ends in a [fault]. *)

From S2P Require Import Prelude Serialize DbReq Random Openssl.
#[local] Open Scope reader_scope.

(** ** Data *)

Definition KX_DH : Z := 0.
Definition KX_ECDH : Z := 1.

Record DHExchangeReq := MkDHReq { dh_p : bytes; dh_g : bytes; dh_pubkey : bytes }.
Record ECDHExchangeReq := MkECDHReq { curve_nid : Z (* uint32_t *); ecdh_pubkey : bytes }.

Definition DHExchangeReq_serialize (oss : bytes) (r : DHExchangeReq) : bytes :=
  serialize_str (serialize_str (serialize_str oss (dh_p r)) (dh_g r)) (dh_pubkey r).
Definition DHExchangeReq_deserialize : D DHExchangeReq :=
  let! p := deserialize_str in
  let! g := deserialize_str in
  let! pubkey := deserialize_str in
  ret (MkDHReq p g pubkey).

(** [serialize_int32] of a [uint32_t]. *)
Definition ECDHExchangeReq_serialize (oss : bytes) (r : ECDHExchangeReq) : bytes :=
  serialize_str (serialize_int32 oss (swrap 32 (curve_nid r))) (ecdh_pubkey r).
Definition ECDHExchangeReq_deserialize : D ECDHExchangeReq :=
  let! nid := deserialize_int32 in
  let! pubkey := deserialize_str in
  ret (MkECDHReq (wrap 32 nid) pubkey).

(** [DHExchangeResp] and [ECDHExchangeResp] hold one public key. *)
Definition ExchangeResp_serialize (oss : bytes) (pubkey : bytes) : bytes := serialize_str oss pubkey.
Definition ExchangeResp_deserialize : D bytes := deserialize_str.
Definition DHExchangeResp_serialize := ExchangeResp_serialize.
Definition DHExchangeResp_deserialize := ExchangeResp_deserialize.

Record HandshakeReq := MkHSReq {
  rq_kx_type : Z;             (* uint8_t *)
  rq_dh : DHExchangeReq;
  rq_ecdh : ECDHExchangeReq;
  temp_symsec : bytes;
  temp_symsec_type : Z;       (* uint8_t *)
}.

Record HandshakeResp := MkHSResp {
  rs_kx_type : Z;             (* uint8_t *)
  rs_dh : bytes;
  rs_ecdh : bytes;
  session_symsec_type : Z;    (* uint8_t *)
}.

Definition no_dh : DHExchangeReq := MkDHReq [] [] [].
Definition no_ecdh : ECDHExchangeReq := MkECDHReq 0 [].

Definition req_getPeerPubkey (r : HandshakeReq) : bytes :=
  if rq_kx_type r =? KX_ECDH then ecdh_pubkey (rq_ecdh r) else dh_pubkey (rq_dh r).
Definition resp_getPeerPubkey (r : HandshakeResp) : bytes :=
  if rs_kx_type r =? KX_ECDH then rs_ecdh r else rs_dh r.

Definition HandshakeReq_serialize (r : HandshakeReq) : bytes :=
  let oss := serialize_uint8 [] (rq_kx_type r) in
  let oss := if rq_kx_type r =? KX_ECDH then ECDHExchangeReq_serialize oss (rq_ecdh r)
             else DHExchangeReq_serialize oss (rq_dh r) in
  let oss := serialize_str oss (temp_symsec r) in
  serialize_uint8 oss (temp_symsec_type r).

Definition HandshakeReq_deserialize : D HandshakeReq :=
  let! kx := deserialize_uint8 in
  if kx =? KX_ECDH then
    let! e := ECDHExchangeReq_deserialize in
    let! sec := deserialize_str in
    let! ty := deserialize_uint8 in
    ret (MkHSReq kx no_dh e sec ty)
  else
    let! d := DHExchangeReq_deserialize in
    let! sec := deserialize_str in
    let! ty := deserialize_uint8 in
    ret (MkHSReq kx d no_ecdh sec ty).

Definition HandshakeResp_serialize (r : HandshakeResp) : bytes :=
  let oss := serialize_uint8 [] (rs_kx_type r) in
  let oss := if rs_kx_type r =? KX_ECDH then ExchangeResp_serialize oss (rs_ecdh r)
             else ExchangeResp_serialize oss (rs_dh r) in
  serialize_uint8 oss (session_symsec_type r).

Definition HandshakeResp_deserialize : D HandshakeResp :=
  let! kx := deserialize_uint8 in
  if kx =? KX_ECDH then
    let! e := ExchangeResp_deserialize in
    let! ty := deserialize_uint8 in
    ret (MkHSResp kx [] e ty)
  else
    let! d := ExchangeResp_deserialize in
    let! ty := deserialize_uint8 in
    ret (MkHSResp kx d [] ty).

(** ** The steps *)

(** What a step can end in besides its result: an integer division by zero, the
    [std::out_of_range] of [substr], a read past a key or a vector. *)
Inductive fault := DivisionByZero | OutOfRange | Overread.
Inductive result (A : Type) := Ok (a : A) | Fault (f : fault).
Arguments Ok {A}. Arguments Fault {A}.

Section helper.
Context {key bn : Type} {OP : OpenSSL key bn} (dist : nat -> Z -> Z -> Z).

Record handshake_helper := MkHelper {
  _dh : option key;
  _ecKey : option key;
  _rsaKey : option key;
  _kx_type : Z;
  _ec_curve_nid : Z;   (* int *)
}.

Definition new_helper (rsaKey : option key) : handshake_helper := MkHelper None None rsaKey KX_ECDH 0.

(** [seed] stands for the random choices of the call. *)
Definition creatHSReq (seed : nat) (kx_type prime_len tempType : Z) (h : handshake_helper)
  : option HandshakeReq * handshake_helper :=
  if (tempType <? eET_AES_ECB) || (eET_AES_CTR <? tempType) then (None, h)
  else
    let sec := fst (randomString dist NumbersAndLetters 32 seed) in
    if kx_type =? KX_ECDH then
      let '(rc, k) := ecc_create seed prime_len in
      if negb (rc =? 1) then (None, MkHelper (_dh h) k (_rsaKey h) kx_type (_ec_curve_nid h))
      else
        (Some (MkHSReq kx_type no_dh (MkECDHReq (wrap 32 prime_len) (ecc_export_pubkey k)) sec (wrap 8 tempType)),
         MkHelper (_dh h) k (_rsaKey h) kx_type prime_len)
    else if (prime_len <? 512) || (4096 <? prime_len) then
      (None, MkHelper (_dh h) (_ecKey h) (_rsaKey h) kx_type (_ec_curve_nid h))
    else
      let k := dh_generate seed prime_len in
      let h1 := MkHelper k (_ecKey h) (_rsaKey h) kx_type (_ec_curve_nid h) in
      match k with
      | None => (None, h1)
      | Some _ =>
          (Some (MkHSReq kx_type (MkDHReq (dh_export k DH_p) (dh_export k DH_g) (dh_export k DH_pub)) no_ecdh sec
                   (wrap 8 tempType)), h1)
      end.

(** The loop of [rsaEncrypt]: blocks from [data] on; [None] if one fails. *)
Fixpoint rsa_blocks (n : nat) (block_in : Z) (k : option key) (encType : Z) (data : bytes) : option bytes :=
  match n with
  | O => Some []
  | S n =>
      let '(rc, dst) := rsa_encrypt (take (Z.to_nat block_in) data) k encType in
      if 0 <? rc then
        match rsa_blocks n block_in k encType (drop (Z.to_nat block_in) data) with
        | None => None
        | Some r => Some (dst ++ r)
        end
      else None
  end.

(** [EVP_PKEY_size] is 0 for a null key. *)
Definition size_of_key (k : option key) : Z :=
  match k with
  | None => 0
  | Some k => EVP_PKEY_size k
  end.

(** [times] is a [size_t] division cut to an int; the result is cleared when a
    block fails. *)
Definition rsaEncrypt (data : bytes) (enc : bool) (h : handshake_helper) : result bytes :=
  let rsa_len := size_of_key (_rsaKey h) in
  let block_in := if enc then rsa_len - 11 else rsa_len in
  let encType := if enc then eET_RSA_PUBLIC_ENC else eET_RSA_PRIVATE_DEC in
  let divisor := wrap 64 block_in in
  if divisor =? 0 then Fault DivisionByZero
  else
    let times := swrap 32 (wrap 64 (size_of data + divisor - 1) / divisor) in
    Ok (default [] (rsa_blocks (Z.to_nat times) block_in (_rsaKey h) encType data)).

Definition encryptHSReq (r : HandshakeReq) (h : handshake_helper) : result bytes :=
  rsaEncrypt (HandshakeReq_serialize r) true h.

Definition decryptHSReq (data : bytes) (h : handshake_helper) : result (option HandshakeReq) :=
  match rsaEncrypt data false h with
  | Fault f => Fault f
  | Ok [] => Ok None
  | Ok result => Ok (Some (fst (HandshakeReq_deserialize result)))
  end.

Definition creatHSResp (seed : nat) (req : HandshakeReq) (sessionType : Z) (h : handshake_helper)
  : option HandshakeResp * handshake_helper :=
  if (sessionType <? eET_AES_ECB) || (eET_AES_CTR <? sessionType) then (None, h)
  else if rq_kx_type req =? KX_ECDH then
    let nid := swrap 32 (curve_nid (rq_ecdh req)) in
    let '(rc, k) := ecc_create seed nid in
    if negb (rc =? 1) then (None, MkHelper (_dh h) k (_rsaKey h) (rq_kx_type req) (_ec_curve_nid h))
    else
      (Some (MkHSResp (rq_kx_type req) [] (ecc_export_pubkey k) (wrap 8 sessionType)),
       MkHelper (_dh h) k (_rsaKey h) (rq_kx_type req) nid)
  else
    let k := dh_generate_pg seed (dh_p (rq_dh req)) (dh_g (rq_dh req)) in
    let h1 := MkHelper k (_ecKey h) (_rsaKey h) (rq_kx_type req) (_ec_curve_nid h) in
    match k with
    | None => (None, h1)
    | Some _ => (Some (MkHSResp (rq_kx_type req) (dh_export k DH_pub) [] (wrap 8 sessionType)), h1)
    end.

(** [temp_symsec.substr(0, 16)] and [substr(16)], which throws on a shorter
    string: [None]. *)
Definition key_and_ivec (sec : bytes) : option (bytes * bytes) :=
  if size_of sec <? 16 then None else Some (take 16 sec, drop 16 sec).

(** [symmetric_encrypt] under the two halves of the temporary secret. *)
Definition temp_encrypt (in_str sec : bytes) (encType : Z) (enc : bool) : result (Z * bytes) :=
  match key_and_ivec sec with
  | None => Fault OutOfRange
  | Some (k, iv) =>
      match symmetric_encrypt in_str k iv encType enc [] with
      | None => Fault Overread
      | Some r => Ok r
      end
  end.

Definition encryptHSResp (resp : HandshakeResp) (sec : bytes) (encType : Z) : result bytes :=
  match temp_encrypt (HandshakeResp_serialize resp) sec encType true with
  | Fault f => Fault f
  | Ok (_, result) => Ok result
  end.

Definition decryptHSResp (data : bytes) (sec : bytes) (encType : Z) : result (option HandshakeResp) :=
  match temp_encrypt data sec encType false with
  | Fault f => Fault f
  | Ok (rc, result) => Ok (if negb (rc =? 0) then None else Some (fst (HandshakeResp_deserialize result)))
  end.

(** The empty string when a step fails. *)
Definition makeShareKey (h : handshake_helper) (peer_pubkey : bytes) : bytes :=
  let key := if _kx_type h =? KX_ECDH then _ecKey h else _dh h in
  let keyLen := size_of_key key in
  if 0 <? keyLen then
    let '(len, shrKey) :=
      if _kx_type h =? KX_ECDH then ecc_compute_sharekey (_ecKey h) (_ec_curve_nid h) peer_pubkey keyLen
      else dh_compute_sharekey (_dh h) peer_pubkey keyLen in
    if 0 <? len then shrKey else []
  else [].

(** ** Lemmas *)

Lemma exported_ok b : exported b -> str_ok b.
Proof. unfold exported, str_ok. lia. Qed.

(** The requests that a client can send. *)
Definition req_ok (r : HandshakeReq) : Prop :=
  in_uint 8 (rq_kx_type r) /\ in_uint 8 (temp_symsec_type r) /\ size_of (temp_symsec r) < 2 ^ 20 /\
  if rq_kx_type r =? KX_ECDH
  then in_uint 32 (curve_nid (rq_ecdh r)) /\ exported (ecdh_pubkey (rq_ecdh r)) /\ rq_dh r = no_dh
  else exported (dh_p (rq_dh r)) /\ exported (dh_g (rq_dh r)) /\ exported (dh_pubkey (rq_dh r)) /\ rq_ecdh r = no_ecdh.

(** The responses that [creatHSResp] makes. *)
Definition resp_ok (r : HandshakeResp) : Prop :=
  in_uint 8 (rs_kx_type r) /\ in_uint 8 (session_symsec_type r) /\
  if rs_kx_type r =? KX_ECDH then exported (rs_ecdh r) /\ rs_dh r = [] else exported (rs_dh r) /\ rs_ecdh r = [].

Lemma HandshakeReq_read r rest :
  req_ok r -> HandshakeReq_deserialize (HandshakeReq_serialize r ++ rest) = (r, rest).
Proof.
  intros (Hk & Ht & Hs32 & Hx). assert (str_ok (temp_symsec r)) as Hs by (unfold str_ok; lia).
  unfold HandshakeReq_serialize, HandshakeReq_deserialize.
  destruct r as [kx [p g pk] [nid epk] sec ty]; cbn [rq_kx_type rq_dh rq_ecdh temp_symsec temp_symsec_type dh_p dh_g dh_pubkey curve_nid ecdh_pubkey] in *.
  destruct (kx =? KX_ECDH) eqn:E.
  - destruct Hx as (Hn & Hp%exported_ok & [= -> -> ->]). unfold ECDHExchangeReq_serialize, ECDHExchangeReq_deserialize.
    cbn [curve_nid ecdh_pubkey]. flatten. unfold bind at 1. read1. rewrite E.
    assert (in_sint 32 (swrap 32 nid)) as Hsr by (apply swrap_range; lia).
    unfold bind, ret. do 4 read1. by rewrite wrap_swrap, wrap_id by done.
  - destruct Hx as (Hp%exported_ok & Hg%exported_ok & Hpk%exported_ok & [= -> ->]). unfold DHExchangeReq_serialize, DHExchangeReq_deserialize.
    cbn [dh_p dh_g dh_pubkey]. flatten. unfold bind at 1. read1. rewrite E. unfold bind, ret. do 5 read1. done.
Qed.

Lemma HandshakeReq_nonempty r : HandshakeReq_serialize r <> [].
Proof.
  unfold HandshakeReq_serialize, serialize_uint8. intros E%(f_equal length).
  rewrite length_app in E. change (length (le_bytes 1 (temp_symsec_type r))) with 1%nat in E. cbn [length] in E. lia.
Qed.

Lemma HandshakeResp_read r rest :
  resp_ok r -> HandshakeResp_deserialize (HandshakeResp_serialize r ++ rest) = (r, rest).
Proof.
  intros (Hk & Ht & Hx). unfold HandshakeResp_serialize, HandshakeResp_deserialize, ExchangeResp_serialize, ExchangeResp_deserialize.
  destruct r as [kx d e ty]; cbn [rs_kx_type rs_dh rs_ecdh session_symsec_type] in *.
  destruct (kx =? KX_ECDH) eqn:E; destruct Hx as [Hs%exported_ok ->]; flatten; unfold bind at 1; read1; rewrite E;
    unfold bind, ret; do 2 read1; done.
Qed.

Context {CL : CipherLaws key bn} (rsa_pub rsa_pri : key) {KL : KeyLaws rsa_pub rsa_pri} {DL : DistLaws dist}.

Lemma rsa_blocks_inverse n m :
  let L := EVP_PKEY_size rsa_pub in
  (Z.of_nat n - 1) * (L - 11) < size_of m <= Z.of_nat n * (L - 11) ->
  exists e, rsa_blocks n (L - 11) (Some rsa_pub) eET_RSA_PUBLIC_ENC m = Some e /\ size_of e = Z.of_nat n * L /\
    rsa_blocks n L (Some rsa_pri) eET_RSA_PRIVATE_DEC e = Some m.
Proof.
  intros L. destruct rsa_size as [HL1 HL2]. fold L in HL1, HL2.
  revert m. induction n as [|n IH]; intros m Hm.
  - exists []. pose proof (size_of_nonneg m). split; [done|]. split; [done|]. cbn.
    by rewrite (size_of_zero m) by lia.
  - pose proof (size_of_nonneg m) as Hnn.
    assert (0 < size_of (take (Z.to_nat (L - 11)) m) <= L - 11) as Hb.
    { unfold size_of in *. rewrite length_take. nia. }
    destruct (rsa_encrypt_block rsa_pub rsa_pri _ Hb) as (e1 & He1 & Hs1 & Hd1). fold L in Hs1, He1.
    destruct (IH (drop (Z.to_nat (L - 11)) m)) as (e2 & He2 & Hs2 & Hd2).
    { unfold size_of in *. rewrite length_drop. nia. }
    exists (e1 ++ e2). cbn [rsa_blocks]. rewrite He1, He2, (proj2 (Z.ltb_lt _ _)) by lia. split; [done|].
    split; [rewrite size_of_app; lia|]. rewrite <- Hs1, take_size_app, drop_size_app, Hd1.
    rewrite (proj2 (Z.ltb_lt _ _)) by lia. rewrite Hs1, Hd2. by rewrite take_drop.
Qed.

(** The number of blocks is rounded up; the encrypted blocks are whole. *)
Lemma rsaEncrypt_inverse m (hc hs : handshake_helper) :
  _rsaKey hc = Some rsa_pub -> _rsaKey hs = Some rsa_pri -> size_of m < 2 ^ 31 ->
  exists e, rsaEncrypt m true hc = Ok e /\ rsaEncrypt e false hs = Ok m.
Proof.
  intros Hkc Hks Hm. destruct rsa_size as [HL1 HL2]. pose proof (pkey_size rsa_pub) as HL3. unfold rsaEncrypt.
  rewrite Hkc, Hks. cbn [size_of_key]. rewrite HL2. set (L := EVP_PKEY_size rsa_pub) in *.
  set (t := (size_of m + (L - 11) - 1) / (L - 11)). pose proof (size_of_nonneg m).
  pose proof (Z.div_mod (size_of m + (L - 11) - 1) (L - 11) ltac:(lia)) as Hdiv. fold t in Hdiv.
  pose proof (Z.mod_pos_bound (size_of m + (L - 11) - 1) (L - 11) ltac:(lia)).
  assert (0 <= t < 2 ^ 31) as Ht by nia.
  destruct (rsa_blocks_inverse (Z.to_nat t) m) as (e & He & Hse & Hd).
  { fold L. rewrite Z2Nat.id by lia. nia. }
  fold L in He, Hse, Hd. rewrite Z2Nat.id in Hse by lia. exists e.
  rewrite !(wrap_id 64 (L - 11)), !(wrap_id 64 L) by (unfold in_uint; lia).
  rewrite !(proj2 (Z.eqb_neq _ 0)) by lia. rewrite !(wrap_id 64) by (unfold in_uint; nia).
  assert ((size_of e + L - 1) / L = t) as -> by (symmetry; apply (Z.div_unique_pos _ _ t (L - 1)); lia).
  fold t. rewrite !swrap_id by (try lia; unfold in_sint; lia). by rewrite He, Hd.
Qed.

Lemma size_str oss d : size_of (serialize_str oss d) = size_of oss + 4 + size_of d.
Proof. unfold serialize_str, serialize_uint32. by rewrite !size_of_app, size_le_bytes. Qed.

Lemma size_int32 oss v : size_of (serialize_int32 oss v) = size_of oss + 4.
Proof. unfold serialize_int32, serialize_uint32. by rewrite size_of_app, size_le_bytes. Qed.

Lemma size_uint8 oss v : size_of (serialize_uint8 oss v) = size_of oss + 1.
Proof. unfold serialize_uint8. by rewrite size_of_app, size_le_bytes. Qed.

#[local] Hint Rewrite size_str size_int32 size_uint8 : sizes.

Lemma HandshakeReq_size r : req_ok r -> 0 < size_of (HandshakeReq_serialize r) < 2 ^ 31.
Proof.
  intros (_ & _ & Hs & Hx). pose proof (size_of_nonneg (temp_symsec r)).
  unfold HandshakeReq_serialize. cbv zeta. unfold exported in Hx.
  case_if; unfold ECDHExchangeReq_serialize, DHExchangeReq_serialize;
    autorewrite with sizes;
    [destruct Hx as (_ & ? & _)|destruct Hx as (? & ? & ? & _)]; lia.
Qed.

(** What the client sends under the RSA key is what the server reads. *)
Lemma request_arrives r (hc hs : handshake_helper) :
  req_ok r -> _rsaKey hc = Some rsa_pub -> _rsaKey hs = Some rsa_pri ->
  exists e, encryptHSReq r hc = Ok e /\ decryptHSReq e hs = Ok (Some r).
Proof.
  intros Hr Hkc Hks. pose proof (HandshakeReq_size r Hr) as Hs.
  destruct (rsaEncrypt_inverse (HandshakeReq_serialize r) hc hs Hkc Hks ltac:(lia)) as (e & He & Hd).
  exists e. split; [done|]. unfold decryptHSReq. rewrite Hd.
  destruct (HandshakeReq_serialize r) eqn:E; [by destruct Hs as [Hs _]|].
  by rewrite <- E, <- (app_nil_r (HandshakeReq_serialize r)), HandshakeReq_read.
Qed.

Lemma aes_secret_ok t sec : eET_AES_ECB <= t <= eET_AES_CTR -> size_of sec = 32 -> secret_ok t (take 16 sec) (drop 16 sec).
Proof.
  unfold eET_AES_ECB, eET_AES_CTR, secret_ok. intros Ht Hs.
  assert (size_of (take 16 sec) = 16 /\ size_of (drop 16 sec) = 16) as [-> ->]
    by (unfold size_of in *; rewrite length_take, length_drop; lia).
  assert (t = 13 \/ t = 14 \/ t = 15 \/ t = 16 \/ t = 17) as Hc by lia.
  repeat destruct Hc as [->|Hc]; [..|subst t]; vm_compute; split_and!; discriminate.
Qed.

(** What the server sends under the temporary secret is what the client reads. *)
Lemma response_arrives r sec t :
  resp_ok r -> size_of sec = 32 -> eET_AES_ECB <= t <= eET_AES_CTR ->
  exists e, encryptHSResp r sec t = Ok e /\ 0 < size_of e /\ decryptHSResp e sec t = Ok (Some r).
Proof.
  intros Hr Hs Ht. pose proof (aes_secret_ok t sec Ht Hs) as Hsec. unfold eET_AES_ECB, eET_AES_CTR in Ht.
  assert (0 < size_of (HandshakeResp_serialize r) < 2 ^ 30) as Hsz.
  { destruct Hr as (_ & _ & Hx). unfold HandshakeResp_serialize, exported in *. cbv zeta. case_if;
      unfold ExchangeResp_serialize; autorewrite with sizes; destruct Hx as [? _]; lia. }
  destruct (symmetric_inverse t (take 16 sec) (drop 16 sec) (HandshakeResp_serialize r) [] [] ltac:(lia) Hsec ltac:(lia))
    as (e & He & Hse & Hd).
  destruct (out_len_spec (cipher_of t) (size_of (HandshakeResp_serialize r)) ltac:(lia)) as [Hl _].
  exists e. unfold encryptHSResp, decryptHSResp, temp_encrypt, key_and_ivec.
  rewrite (proj2 (Z.ltb_ge _ _)) by lia. rewrite He, Hd. split; [done|]. split; [lia|].
  change (0 =? 0) with true. unfold padded. by rewrite HandshakeResp_read.
Qed.

(** What [creatHSReq] and [creatHSResp] leave behind. *)
Lemma creatHSReq_ok s kx prime_len tempType h req hc :
  creatHSReq s kx prime_len tempType h = (Some req, hc) ->
  eET_AES_ECB <= tempType <= eET_AES_CTR /\ temp_symsec_type req = tempType /\ rq_kx_type req = kx /\
  _kx_type hc = kx /\ _rsaKey hc = _rsaKey h /\ size_of (temp_symsec req) = 32 /\
  if kx =? KX_ECDH
  then exists k, ecc_create s prime_len = (1, Some k) /\ _ecKey hc = Some k /\ _ec_curve_nid hc = prime_len /\
    rq_dh req = no_dh /\ rq_ecdh req = MkECDHReq (wrap 32 prime_len) (ecc_export_pubkey (Some k))
  else exists k, dh_generate s prime_len = Some k /\ _dh hc = Some k /\ rq_ecdh req = no_ecdh /\
    rq_dh req = MkDHReq (dh_export (Some k) DH_p) (dh_export (Some k) DH_g) (dh_export (Some k) DH_pub).
Proof.
  unfold creatHSReq. destruct ((tempType <? eET_AES_ECB) || (eET_AES_CTR <? tempType)) eqn:Et; [done|]. bool_Z.
  assert (wrap 8 tempType = tempType) as -> by (apply wrap_id; unfold in_uint, eET_AES_ECB, eET_AES_CTR in *; lia).
  assert (forall s, size_of (fst (randomString dist NumbersAndLetters 32 s)) = 32) as Hr
    by (intros; by apply (randomString_size dist)).
  case_if.
  - unfold ecc_create. destruct (EC_keygen s prime_len) as [k|]; [|done]. cbn.
    intros [= <- <-]. split_and!; try done. by exists k.
  - case_if; [done|]. destruct (dh_generate s prime_len) as [k|]; [|done].
    intros [= <- <-]. split_and!; try done. by exists k.
Qed.

Lemma creatHSResp_ok s req sessionType h resp hs :
  creatHSResp s req sessionType h = (Some resp, hs) ->
  eET_AES_ECB <= sessionType <= eET_AES_CTR /\ session_symsec_type resp = sessionType /\
  rs_kx_type resp = rq_kx_type req /\ _kx_type hs = rq_kx_type req /\ _rsaKey hs = _rsaKey h /\
  if rq_kx_type req =? KX_ECDH
  then exists k, ecc_create s (swrap 32 (curve_nid (rq_ecdh req))) = (1, Some k) /\ _ecKey hs = Some k /\
    _ec_curve_nid hs = swrap 32 (curve_nid (rq_ecdh req)) /\ rs_dh resp = [] /\ rs_ecdh resp = ecc_export_pubkey (Some k)
  else exists k, dh_generate_pg s (dh_p (rq_dh req)) (dh_g (rq_dh req)) = Some k /\ _dh hs = Some k /\
    rs_ecdh resp = [] /\ rs_dh resp = dh_export (Some k) DH_pub.
Proof.
  unfold creatHSResp. destruct ((sessionType <? eET_AES_ECB) || (eET_AES_CTR <? sessionType)) eqn:Et; [done|]. bool_Z.
  assert (wrap 8 sessionType = sessionType) as -> by (apply wrap_id; unfold in_uint, eET_AES_ECB, eET_AES_CTR in *; lia).
  case_if.
  - unfold ecc_create. destruct (EC_keygen s (swrap 32 (curve_nid (rq_ecdh req)))) as [k|]; [|done]. cbn.
    intros [= <- <-]. split_and!; try done. by exists k.
  - destruct (dh_generate_pg s (dh_p (rq_dh req)) (dh_g (rq_dh req))) as [k|]; [|done].
    intros [= <- <-]. split_and!; try done. by exists k.
Qed.

(** The two secrets agree, and what travels is well formed. *)
Lemma exchange_agrees s1 s2 kx prime_len tempType sessionType h1 h2 req hc resp hs :
  kx = KX_DH \/ kx = KX_ECDH -> in_sint 32 prime_len ->
  creatHSReq s1 kx prime_len tempType h1 = (Some req, hc) ->
  creatHSResp s2 req sessionType h2 = (Some resp, hs) ->
  req_ok req /\ resp_ok resp /\ exists secret, 0 < size_of secret /\
    makeShareKey hs (req_getPeerPubkey req) = secret /\ makeShareKey hc (resp_getPeerPubkey resp) = secret.
Proof.
  intros Hkx Hnid Hreq%creatHSReq_ok Hresp%creatHSResp_ok.
  destruct Hreq as (Htt & Htt' & Hk1 & Hkc & _ & Hs32 & Hreq), Hresp as (Hst & Hst' & Hk2 & Hks & _ & Hresp).
  unfold req_ok, resp_ok, makeShareKey, req_getPeerPubkey, resp_getPeerPubkey.
  unfold eET_AES_ECB, eET_AES_CTR in *. rewrite Htt', Hst', Hk2, Hkc, Hks, Hk1, Hs32 in *.
  assert (in_uint 8 kx /\ in_uint 8 tempType /\ in_uint 8 sessionType) as (Hu1 & Hu2 & Hu3)
    by (unfold in_uint, KX_DH, KX_ECDH in *; lia).
  destruct (kx =? KX_ECDH) eqn:E.
  - destruct Hreq as (k1 & Hc1 & He1 & Hn1 & Hr1 & Hq1), Hresp as (k2 & Hc2 & He2 & Hn2 & Hr2 & Hq2).
    rewrite He1, He2, Hn1, Hn2, Hq1, Hq2, Hr1, Hr2 in *. cbn [curve_nid ecdh_pubkey size_of_key] in *.
    rewrite swrap_wrap, swrap_id in * by (done || lia).
    destruct (ecc_agree rsa_pub rsa_pri _ _ _ _ _ Hc1 Hc2) as (Hx1 & Hx2 & z & Hz & -> & ->).
    split_and!; try done; [apply wrap_range; lia|]. exists z. rewrite (proj2 (Z.ltb_lt _ _) Hz).
    pose proof (pkey_size k1). pose proof (pkey_size k2). by rewrite !(proj2 (Z.ltb_lt _ _)) by lia.
  - destruct Hreq as (k1 & Hc1 & He1 & Hr1 & Hq1), Hresp as (k2 & Hc2 & He2 & Hr2 & Hq2).
    rewrite He1, He2, Hq1, Hq2, Hr1, Hr2 in *. cbn [dh_p dh_g dh_pubkey size_of_key] in *.
    destruct (dh_both_agree rsa_pub rsa_pri _ _ _ _ _ Hc1 Hc2) as (Hx1 & Hx2 & Hx3 & Hx4 & z & Hz & -> & ->).
    split_and!; try done. exists z. rewrite (proj2 (Z.ltb_lt _ _) Hz).
    pose proof (pkey_size k1). pose proof (pkey_size k2). by rewrite !(proj2 (Z.ltb_lt _ _)) by lia.
Qed.

(** ** Properties *)

(** C32: the handshake ends with both sides holding the same secret, for either
    exchange, every key pair that satisfies the laws, every curve or prime
    length and every AES mode: what the client encrypts with the server's
    public RSA key, in as many blocks as it takes, is the request the server
    reads; what the server answers under the temporary key is the response the
    client reads, whatever padding AES leaves behind it; and the two shared
    keys are equal. *)
Theorem handshake_agreement s1 s2 kx prime_len tempType sessionType h1 h2 req hc resp hs :
  kx = KX_DH \/ kx = KX_ECDH -> in_sint 32 prime_len ->
  _rsaKey h1 = Some rsa_pub -> _rsaKey h2 = Some rsa_pri ->
  creatHSReq s1 kx prime_len tempType h1 = (Some req, hc) ->
  creatHSResp s2 req sessionType h2 = (Some resp, hs) ->
  exists hello answer secret,
    encryptHSReq req hc = Ok hello /\ decryptHSReq hello h2 = Ok (Some req) /\
    encryptHSResp resp (temp_symsec req) (temp_symsec_type req) = Ok answer /\
    decryptHSResp answer (temp_symsec req) (temp_symsec_type req) = Ok (Some resp) /\
    0 < size_of secret /\
    makeShareKey hs (req_getPeerPubkey req) = secret /\
    makeShareKey hc (resp_getPeerPubkey resp) = secret.
Proof.
  intros Hkx Hnid Hk1 Hk2 Hreq Hresp.
  destruct (exchange_agrees _ _ _ _ _ _ _ _ _ _ _ _ Hkx Hnid Hreq Hresp) as (Hq & Hr & secret & Hz & Hss & Hsc).
  apply creatHSReq_ok in Hreq as (Ht & Ht' & _ & _ & Hkc & Hs32 & _).
  destruct (request_arrives req hc h2 Hq ltac:(congruence) Hk2) as (hello & He & Hd).
  destruct (response_arrives resp (temp_symsec req) (temp_symsec_type req) Hr Hs32 ltac:(lia)) as (answer & He' & _ & Hd').
  by exists hello, answer, secret.
Qed.

(** the steps of a server whose client does not keep to the protocol. A
    temporary secret of less than 16 bytes makes the response throw, one whose
    second part has 8 to 14 bytes is read beyond its end under an AES mode with
    a vector, and one whose second part is shorter is refused with an empty
    answer; without an RSA key the first message divides by zero. *)
Theorem bad_temp_secret resp sec t data h :
  eET_AES_ECB <= t <= eET_AES_CTR -> size_of (HandshakeResp_serialize resp) < 2 ^ 32 - 16 ->
  (size_of sec < 16 -> encryptHSResp resp sec t = Fault OutOfRange) /\
  (24 <= size_of sec < 31 -> t <> eET_AES_ECB -> encryptHSResp resp sec t = Fault Overread) /\
  (16 <= size_of sec < 24 -> encryptHSResp resp sec t = Ok []) /\
  (_rsaKey h = None -> decryptHSReq data h = Fault DivisionByZero).
Proof.
  intros Ht Hsz. pose proof (size_of_nonneg sec).
  assert (16 <= size_of sec -> size_of (take 16 sec) = 16 /\ size_of (drop 16 sec) = size_of sec - 16) as Hcut
    by (unfold size_of; rewrite length_take, length_drop; lia).
  unfold encryptHSResp, temp_encrypt, key_and_ivec. split_and!.
  - intros Hs. by rewrite (proj2 (Z.ltb_lt _ _)) by lia.
  - intros Hs Hne. destruct (Hcut ltac:(lia)) as [H16 Hiv]. rewrite (proj2 (Z.ltb_ge _ _)) by lia.
    rewrite (proj2 (overread_short t (take 16 sec) (drop 16 sec) _ true [] Ht Hsz)); [done|]. lia.
  - intros Hs. destruct (Hcut ltac:(lia)) as [H16 Hiv]. rewrite (proj2 (Z.ltb_ge _ _)) by lia.
    rewrite symmetric_refused by lia. done.
  - intros Hk. unfold decryptHSReq, rsaEncrypt. by rewrite Hk.
Qed.

End helper.
Arguments handshake_helper : clear implicits.

(** ** Witnesses: the toy library *)

Lemma handshake_agreement_witness :
  match creatHSReq round_dist 7 KX_ECDH 415 eET_AES_CBC (new_helper (Some 0)) with
  | (Some req, hc) =>
      match creatHSResp 9 req eET_AES_CFB (new_helper (Some 0)) with
      | (Some resp, hs) =>
          (exists hello, encryptHSReq req hc = Ok hello /\ decryptHSReq hello (new_helper (Some 0)) = Ok (Some req)) /\
          makeShareKey hc (resp_getPeerPubkey resp) = makeShareKey hs (req_getPeerPubkey req)
      | _ => False
      end
  | _ => False
  end.
Proof.
  destruct (creatHSReq round_dist 7 KX_ECDH 415 eET_AES_CBC (new_helper (Some 0))) as [[req|] hc] eqn:E1; [|discriminate E1].
  destruct (creatHSResp 9 req eET_AES_CFB (new_helper (Some 0))) as [[resp|] hs] eqn:E2.
  - destruct (handshake_agreement round_dist 0 0 7 9 KX_ECDH 415 eET_AES_CBC eET_AES_CFB (new_helper (Some 0)) (new_helper (Some 0))
      req hc resp hs (or_intror eq_refl) ltac:(unfold in_sint; lia) eq_refl eq_refl E1 E2)
      as (hello & answer & z & He & Hd & _ & _ & _ & Hz1 & Hz2).
    split; [exists hello; split; [exact He|exact Hd]|]. rewrite Hz1. exact Hz2.
  - injection E1 as <- <-. discriminate E2.
Defined.

Lemma bad_temp_secret_witness :
  encryptHSResp (MkHSResp KX_ECDH [] [x04] 15) [x41] eET_AES_CFB = Fault OutOfRange.
Proof.
  apply (bad_temp_secret (MkHSResp KX_ECDH [] [x04] 15) [x41] eET_AES_CFB [] (new_helper (Some 0))).
  - unfold eET_AES_ECB, eET_AES_CFB, eET_AES_CTR. lia.
  - vm_compute. reflexivity.
  - vm_compute. reflexivity.
Defined.
