(* ===== verification/HandshakeKeys.v ===== *)
(** * The keys of a handshake ([handshake_helper] of
      [lygc/handshake_helper_v2.hpp]: [loadRSAKey] and the destructor)

    A key of OpenSSL belongs to the helper whose field points to it. The steps of
    [Handshake] create keys; here is what is loaded and what is released. *)

From S2P Require Import Prelude Text Encode Openssl Handshake.

Section keys.
Context {key bn : Type} {OP : OpenSSL key bn} {OT : OpensslText key} (dist : nat -> Z -> Z -> Z).
Abbreviation helper := (@handshake_helper key).

(** [fopen]: what can be read under a path. *)
Definition loadRSAKey (fopen : bytes -> option bytes) (rsaKeyPath : bytes) (pub : bool) (h : helper) : bool * helper :=
  let k := load_rsa_key (Some (Text.c_str rsaKeyPath)) fopen pub in
  (match k with None => false | Some _ => true end, MkHelper (_dh h) (_ecKey h) k (_kx_type h) (_ec_curve_nid h)).

(** A field of the destructor: the key that is freed. *)
Definition free_field (free : option (option key) -> option key * option (option key)) (k : option key) : list key :=
  match k with None => [] | Some _ => option_list (free (Some k)).1 end.

(** [~handshake_helper]: the keys that are freed, in order. *)
Definition destroy_helper (h : helper) : list key :=
  free_field dh_destroy (_dh h) ++ free_field ecc_destroy (_ecKey h) ++ free_field free_rsa_key (_rsaKey h).

(** The text of the log. *)
Definition hex (data : bytes) : bytes := hex2string (Some data) false.

(** The keys a helper points to. *)
Definition held_keys (h : helper) : list key := option_list (_dh h) ++ option_list (_ecKey h) ++ option_list (_rsaKey h).

(** The destructor frees the keys that the helper holds, each once. *)
Theorem destroy_exact h : destroy_helper h = held_keys h.
Proof. unfold destroy_helper, held_keys, free_field. by destruct h as [[] [] [] ? ?]. Qed.

(** A helper without a key that loads one and makes a request holds what was
    created for it, and frees exactly that. *)
Theorem fresh_helper_keys fopen path pub seed kx prime_len tempType :
  let '(ok, h1) := loadRSAKey fopen path pub (new_helper None) in
  let '(req, h2) := creatHSReq dist seed kx prime_len tempType h1 in
  (ok = true <-> is_Some (load_rsa_key (Some (Text.c_str path)) fopen pub)) /\
  _rsaKey h2 = load_rsa_key (Some (Text.c_str path)) fopen pub /\
  (is_Some req -> length (destroy_helper h2) = (length (option_list (if (kx =? KX_ECDH)%Z then (ecc_create seed prime_len).2 else dh_generate seed prime_len)) +
    length (option_list (_rsaKey h2)))%nat).
Proof.
  unfold loadRSAKey. cbn. set (k := load_rsa_key (Some (Text.c_str path)) fopen pub). unfold creatHSReq.
  assert (match k with None => false | Some _ => true end = true <-> is_Some k) as Hk by (destruct k; split; (done || by intros [])).
  case_if; [split_and!; [done..|by intros []]|]. destruct (kx =? KX_ECDH).
  - destruct (ecc_create seed prime_len) as [rc ek]. case_if; (split_and!; [done..|]); [by intros []|]. intros _.
    rewrite destroy_exact. unfold held_keys. cbn. by rewrite length_app.
  - case_if; [split_and!; [done..|by intros []]|]. destruct (dh_generate seed prime_len) as [dk|]; (split_and!; [done..|]); [|by intros []].
    intros _. by rewrite destroy_exact.
Qed.

(** A second request, or a second load, leaves the key of the first behind: what
    the helper holds, and so what it frees, does not depend on it. *)
Theorem second_key_lost fopen path pub seed prime_len tempType h k :
  ((tempType <? eET_AES_ECB) || (eET_AES_CTR <? tempType)) = false ->
  held_keys (creatHSReq dist seed KX_ECDH prime_len tempType (MkHelper (_dh h) k (_rsaKey h) (_kx_type h) (_ec_curve_nid h))).2 =
    held_keys (creatHSReq dist seed KX_ECDH prime_len tempType h).2 /\
  (loadRSAKey fopen path pub (MkHelper (_dh h) (_ecKey h) k (_kx_type h) (_ec_curve_nid h))).2 = (loadRSAKey fopen path pub h).2.
Proof.
  intros Ht. split; [|done]. unfold creatHSReq. rewrite Ht. cbn. destruct (ecc_create seed prime_len) as [rc ek]. by case_if.
Qed.
End keys.
