(* ===== verification/Shards.v ===== *)
(** * Pending requests in shards ([NetServer::_reqShards] of
      [lygc/net_server.hpp], [DBCltPoolCtx] of [lygc/dbproxy_base.hpp])

    Both servers keep the context of a request that is answered later in an
    array of 16 maps, chosen by the low bits of the request id. [PendStore] is
    what they rely on: a single map with the insertion of
    [std::unordered_map::insert], taking an entry out, and a sweep.
    [shard_store] is the implementation, proved against the interface. *)

From S2P Require Import Prelude.

(** ** The interface *)

Class PendStore (S V : Type) := {
  ps_new : S;
  ps_find : S -> Z -> option V;
  ps_insert : S -> Z -> V -> S;
  ps_take : S -> Z -> option V * S;
  ps_sweep : (V -> bool) -> S -> S;
  ps_ok : S -> Prop;
}.

Class PendStoreLaws (S V : Type) `{PendStore S V} : Prop := {
  new_ok : ps_ok ps_new;
  insert_ok s k v : ps_ok s -> ps_ok (ps_insert s k v);
  take_ok s k : ps_ok s -> ps_ok (snd (ps_take s k));
  sweep_ok f s : ps_ok s -> ps_ok (ps_sweep f s);
  find_new k : ps_find ps_new k = None;
  (* an entry that is there stays *)
  find_insert s k v k' : ps_ok s ->
    ps_find (ps_insert s k v) k' =
    if decide (k = k') then Some (default v (ps_find s k)) else ps_find s k';
  take_found s k : ps_ok s -> fst (ps_take s k) = ps_find s k;
  find_take s k k' : ps_ok s ->
    ps_find (snd (ps_take s k)) k' = if decide (k = k') then None else ps_find s k';
  find_sweep f s k : ps_ok s ->
    ps_find (ps_sweep f s) k = ps_find s k ≫= fun v => if f v then None else Some v;
}.

(** ** The shards *)

Definition REQ_SHARD_BITS : Z := 4.
Definition REQ_SHARD_COUNT : Z := Z.shiftl 1 REQ_SHARD_BITS.

(** [reqId & (REQ_SHARD_COUNT - 1)]. *)
Definition shardIdx (reqId : Z) : nat := Z.to_nat (Z.land reqId (REQ_SHARD_COUNT - 1)).

Section shards.
Context {V : Type}.

Abbreviation shards := (list (gmap Z V)).

Definition new_shards : shards := replicate (Z.to_nat REQ_SHARD_COUNT) ∅.

Definition shard_find (s : shards) (reqId : Z) : option V :=
  match s !! shardIdx reqId with
  | None => None
  | Some m => m !! reqId
  end.

(** [shard.map.insert(std::make_pair(reqId, ctx))]. *)
Definition shard_insert (s : shards) (reqId : Z) (ctx : V) : shards :=
  alter (fun m => match m !! reqId with Some _ => m | None => <[reqId := ctx]> m end) (shardIdx reqId) s.

(** [find], then [erase]. *)
Definition shard_take (s : shards) (reqId : Z) : option V * shards :=
  match s !! shardIdx reqId with
  | None => (None, s)
  | Some m =>
      match m !! reqId with
      | None => (None, s)
      | Some ctx => (Some ctx, <[shardIdx reqId := delete reqId m]> s)
      end
  end.

(** One pass over every shard, erasing the entries that satisfy [gone]. *)
Definition shard_sweep (gone : V -> bool) (s : shards) : shards :=
  map (omap (fun ctx => if gone ctx then None else Some ctx)) s.

#[export] Instance shard_store : PendStore shards V := {
  ps_new := new_shards;
  ps_find := shard_find;
  ps_insert := shard_insert;
  ps_take := shard_take;
  ps_sweep := shard_sweep;
  ps_ok s := length s = Z.to_nat REQ_SHARD_COUNT;
}.

Lemma shardIdx_range reqId : (shardIdx reqId < Z.to_nat REQ_SHARD_COUNT)%nat.
Proof.
  unfold shardIdx. change (REQ_SHARD_COUNT - 1) with (Z.ones 4). change REQ_SHARD_COUNT with 16.
  rewrite Z.land_ones by lia. pose proof (Z.mod_pos_bound reqId (2 ^ 4) ltac:(lia)). lia.
Qed.

Lemma shard_there (s : shards) reqId :
  length s = Z.to_nat REQ_SHARD_COUNT -> exists m, s !! shardIdx reqId = Some m.
Proof. intros Hs. apply lookup_lt_is_Some. rewrite Hs. apply shardIdx_range. Qed.

(** An update of one shard is seen only by the ids of that shard. *)
Lemma shard_find_update (s : shards) k (f : gmap Z V -> gmap Z V) k' :
  (forall m, k <> k' -> f m !! k' = m !! k') ->
  shard_find (alter f (shardIdx k) s) k' =
  if decide (k = k') then match s !! shardIdx k with None => None | Some m => f m !! k end else shard_find s k'.
Proof.
  intros Hf. unfold shard_find. case_decide as E.
  - subst. rewrite list_lookup_alter_eq. by destruct (s !! shardIdx k').
  - destruct (decide (shardIdx k = shardIdx k')) as [Hi|Hi].
    + rewrite Hi, list_lookup_alter_eq. destruct (s !! shardIdx k') as [m|]; [|done]. cbn. by apply Hf.
    + by rewrite list_lookup_alter_ne.
Qed.

#[export] Instance shard_laws : PendStoreLaws shards V.
Proof.
  split; cbn [ps_ok ps_new ps_find ps_insert ps_take ps_sweep shard_store].
  - apply length_replicate.
  - intros. unfold shard_insert. by rewrite length_alter.
  - intros s k Hs. unfold shard_take. destruct (s !! shardIdx k) as [m|]; [|done].
    destruct (m !! k); [|done]. cbn. by rewrite length_insert.
  - intros. unfold shard_sweep. by rewrite length_map.
  - intros k. unfold shard_find, new_shards. rewrite lookup_replicate_2 by apply shardIdx_range. apply lookup_empty.
  - intros s k v k' Hs. unfold shard_insert.
    rewrite shard_find_update.
    + case_decide; [|done]. subst. destruct (shard_there s k' Hs) as [m Hm]. unfold shard_find. rewrite Hm.
      destruct (m !! k') as [x|] eqn:E; cbn; [by rewrite E|]. by rewrite lookup_insert_eq.
    + intros m Hne. destruct (m !! k); [done|]. by rewrite lookup_insert_ne.
  - intros s k Hs. unfold shard_take, shard_find. destruct (s !! shardIdx k) as [m|]; [|done]. by destruct (m !! k).
  - intros s k k' Hs. unfold shard_take. destruct (shard_there s k Hs) as [m Hm]. rewrite Hm.
    destruct (m !! k) as [x|] eqn:E; cbn.
    + assert (<[shardIdx k := delete k m]> s = alter (delete k) (shardIdx k) s) as ->.
      { rewrite list_insert_alter. apply list_alter_ext; [|done]. intros x' ?. by simplify_eq. }
      rewrite shard_find_update by (intros; by rewrite lookup_delete_ne). rewrite Hm.
      case_decide; [|done]. apply lookup_delete_eq.
    + unfold shard_find. case_decide; [|done]. subst. by rewrite Hm.
  - intros f s k Hs. unfold shard_sweep, shard_find. rewrite list_lookup_fmap.
    destruct (s !! shardIdx k) as [m|]; [|done]. cbn. by rewrite lookup_omap.
Qed.

End shards.

(** C29: the array of shards behaves like one map: for the operations of
    [savePenddingReq], [response] and the clean-up, looking an id up afterwards
    gives what it gives in a single map, whichever shards the ids fall into. *)
Theorem shards_refine_map {V : Type} (s : list (gmap Z V)) (m : gmap Z V) :
  length s = Z.to_nat REQ_SHARD_COUNT -> (forall k, shard_find s k = m !! k) ->
  (forall k v, m !! k = None -> forall k', shard_find (shard_insert s k v) k' = <[k := v]> m !! k') /\
  (forall k, fst (shard_take s k) = m !! k /\
     forall k', shard_find (snd (shard_take s k)) k' = delete k m !! k') /\
  (forall f k, shard_find (shard_sweep f s) k = filter (fun kv => f (snd kv) = false) m !! k).
Proof.
  intros Hs Hm. split_and!.
  - intros k v Hk k'. pose proof (find_insert s k v k' Hs) as Hf. cbn in Hf. rewrite Hf, !Hm, Hk.
    rewrite lookup_insert. by repeat case_decide.
  - intros k. pose proof (take_found s k Hs) as Hf. cbn in Hf. rewrite Hf, Hm. split; [done|].
    intros k'. pose proof (find_take s k k' Hs) as Ht. cbn in Ht. rewrite Ht, Hm, lookup_delete.
    by repeat case_decide.
  - intros f k. pose proof (find_sweep f s k Hs) as Hf. cbn in Hf. rewrite Hf, Hm.
    rewrite map_lookup_filter. destruct (m !! k) as [v|]; [|done]. cbn.
    destruct (f v) eqn:E; case_guard; cbn in *; congruence.
Qed.

Lemma shards_refine_map_witness :
  shard_find (shard_insert (@new_shards nat) 117 5%nat) 117 = Some 5%nat /\
  shard_find (shard_insert (@new_shards nat) 117 5%nat) 101 = None.
Proof.
  assert (forall k, shard_find (@new_shards nat) k = (∅ : gmap Z nat) !! k) as Hm.
  { intros k. rewrite lookup_empty. exact (find_new (S:=list (gmap Z nat)) k). }
  destruct (shards_refine_map (@new_shards nat) ∅ eq_refl Hm) as [H _].
  split; by rewrite (H 117 5%nat eq_refl).
Defined.
