(* ===== verification/NetServer.v ===== *)
(** * The request server and its client ([lygc/net_server.hpp])

    [net] is the state of a [NetServer]: the handlers by origin, the requests
    waiting for an answer (any [PendStore]; the server uses the shards of
    [Shards]) and, for its connections, which are alive and which handler each
    has cached. [net_log] records what the server does, for the proofs: the
    requests it saved, the answers it gave them and the other messages it
    posted. [nstep] are the critical sections of the entry points, in any order
    and by any thread;
    [X] is the state a subclass adds ([GateServer]: see [Gate]).
    [net_client] is a [NetClient]: the handlers of its open requests. *)

From S2P Require Import Prelude Lymsg Shards.

Definition SYNC_RESPONSE : Z := 0.
Definition NO_RESPONSE : Z := 1.
Definition ASYNC_RESPONSE : Z := 2.
Definition MinRequestId : Z := 101.

(** ** [NetServer] *)

Record ReqContext := MkCtx {
  userWeak : nat;
  reqHeader : lymsg_header;
  reqData : bytes;
}.

Inductive net_event :=
| Saved (reqId : Z) (ctx : ReqContext)
| Answered (reqId : Z) (user : nat) (msg : bytes)
| Posted (user : nat) (msg : bytes).

(** [NetUser::createResponse]; [origin] is [_baseOrigin]. *)
Definition createResponse (origin : Z) (reqHeader : lymsg_header) (respData : bytes) : bytes :=
  packMsg (MkHeader origin 0 (Z.lor (htype reqHeader) LYMSG_TYPE_RESP) (serial reqHeader) 0) respData.

Section server.
Context {S : Type} `{PS : PendStore S ReqContext} {X : Type}.

Record net := MkNet {
  net_origin : Z;                       (* _config.origin *)
  net_handlers : gmap Z nat;            (* _userHandlers *)
  net_pending : S;                      (* _reqShards *)
  net_reqId : Z;                        (* _reqIdCreator, uint64_t *)
  net_alive : gset nat;                 (* connection objects somebody owns *)
  net_cached : gmap nat nat;            (* NetUser::_handler *)
  net_ext : X;
  net_log : list net_event;
}.

Definition set_pending (n : net) (s : S) : net :=
  MkNet (net_origin n) (net_handlers n) s (net_reqId n) (net_alive n) (net_cached n) (net_ext n) (net_log n).
Definition set_cached (n : net) (c : gmap nat nat) : net :=
  MkNet (net_origin n) (net_handlers n) (net_pending n) (net_reqId n) (net_alive n) c (net_ext n) (net_log n).
Definition set_users (n : net) (alive : gset nat) (c : gmap nat nat) : net :=
  MkNet (net_origin n) (net_handlers n) (net_pending n) (net_reqId n) alive c (net_ext n) (net_log n).
Definition set_ext (n : net) (x : X) : net :=
  MkNet (net_origin n) (net_handlers n) (net_pending n) (net_reqId n) (net_alive n) (net_cached n) x (net_log n).
Definition log (e : net_event) (n : net) : net :=
  MkNet (net_origin n) (net_handlers n) (net_pending n) (net_reqId n) (net_alive n) (net_cached n) (net_ext n)
    (net_log n ++ [e]).

Definition registerUserHandler (origin : Z) (handler : nat) (n : net) : net :=
  MkNet (net_origin n) (<[origin := handler]> (net_handlers n)) (net_pending n) (net_reqId n) (net_alive n)
    (net_cached n) (net_ext n) (net_log n).

Definition getUserHandler (origin : Z) (n : net) : option nat := net_handlers n !! origin.

Definition genRequestId (n : net) : Z * net :=
  (net_reqId n,
   MkNet (net_origin n) (net_handlers n) (net_pending n) (wrap 64 (net_reqId n + 1)) (net_alive n)
     (net_cached n) (net_ext n) (net_log n)).

Definition saveReqContext (reqId : Z) (user : nat) (h : lymsg_header) (d : bytes) (n : net) : net :=
  let ctx := MkCtx user h d in
  log (Saved reqId ctx) (set_pending n (ps_insert (net_pending n) reqId ctx)).

Definition savePenddingReq (user : nat) (h : lymsg_header) (d : bytes) (n : net) : Z * net :=
  let '(reqId, n1) := genRequestId n in (reqId, saveReqContext reqId user h d n1).

(** The virtual [createResponse], by user. *)
Context (mkResponse : net -> nat -> lymsg_header -> bytes -> bytes).

(** [response(reqId, respData)]; [post] is [postMsg] on the user. *)
Definition response (reqId : Z) (respData : bytes) (n : net) : Z * net :=
  match ps_take (net_pending n) reqId with
  | (None, s) => (-1, set_pending n s)
  | (Some ctx, s) =>
      let n1 := set_pending n s in
      if bool_decide (userWeak ctx ∈ net_alive n1)
      then (0, log (Answered reqId (userWeak ctx) (mkResponse n1 (userWeak ctx) (reqHeader ctx) respData)) n1)
      else (-1, n1)
  end.

(** [!ctxUser || ctxUser == userShared]. *)
Definition ctx_gone (n : net) (user : nat) (ctx : ReqContext) : bool :=
  negb (bool_decide (userWeak ctx ∈ net_alive n)) || bool_decide (userWeak ctx = user).

Definition cleanupUserContext (user : nat) (n : net) : net :=
  set_pending n (ps_sweep (ctx_gone n user) (net_pending n)).

Definition onDisconnect (user : nat) (n : net) : net := cleanupUserContext user n.

(** A message posted on a connection outside [response]. *)
Definition postMsg (user : nat) (msg : bytes) (n : net) : net := log (Posted user msg) n.

(** The application's handlers: [UserHandler::onRequest] of handler [k]; the
    request id it returns, [syncRespData], and what it did to the server. *)
Definition handlers : Type := nat -> nat -> lymsg_header -> bytes -> net -> Z * bytes * net.

Definition onRequest (handle : handlers) (user : nat) (h : lymsg_header) (d : bytes) (n : net) : net :=
  let found := match net_cached n !! user with Some k => Some k | None => getUserHandler (origin h) n end in
  match found with
  | None => n
  | Some k =>
      let n1 := set_cached n (<[user := k]> (net_cached n)) in
      let '(reqId, respData, n2) := handle k user h d n1 in
      if reqId =? SYNC_RESPONSE then postMsg user (mkResponse n2 user h respData) n2
      else if reqId =? NO_RESPONSE then postMsg user (mkResponse n2 user h []) n2
      else n2
  end.

(** [onRecvMsg], with the virtual [onRequest] of the connection's class. *)
Definition onRecvMsg (onReq : nat -> lymsg_header -> bytes -> net -> net) (user : nat) (msg : bytes) (n : net) : net :=
  match unpackMsg (Some msg) with
  | None => n
  | Some (h, d) => onReq user h d n
  end.

(** ** Any order of entry points *)

(** The ids under which requests were saved. *)
Definition saved_ids (l : list net_event) : list Z :=
  omap (fun e => match e with Saved id _ => Some id | _ => None end) l.

(** A clean-up that is interrupted, between two shards, has taken some of its
    entries: [ns_swept] is one of them. *)
Inductive nstep : net -> net -> Prop :=
(* savePenddingReq: a thread takes an id, and one that has an id saves under it *)
| ns_id n : net_reqId n < 2 ^ 64 - 1 -> nstep n (snd (genRequestId n))
| ns_save n reqId user h d : MinRequestId <= reqId < net_reqId n -> reqId ∉ saved_ids (net_log n) ->
    user ∈ net_alive n -> nstep n (saveReqContext reqId user h d n)
| ns_response n reqId d : nstep n (snd (response reqId d n))
| ns_cleanup n user : user ∈ net_alive n -> nstep n (onDisconnect user n)
| ns_swept n user reqId ctx : user ∈ net_alive n -> ps_find (net_pending n) reqId = Some ctx -> ctx_gone n user ctx = true ->
    nstep n (set_pending n (snd (ps_take (net_pending n) reqId)))
| ns_post n user m : nstep n (postMsg user m n)
| ns_register n o k : nstep n (registerUserHandler o k n)
| ns_cache n user k : nstep n (set_cached n (<[user := k]> (net_cached n)))
| ns_ext n x : nstep n (set_ext n x)
| ns_create n user : user ∉ net_alive n -> (forall id ctx, ps_find (net_pending n) id = Some ctx -> userWeak ctx <> user) ->
    nstep n (set_users n ({[user]} ∪ net_alive n) (delete user (net_cached n)))
| ns_destroy n user : nstep n (set_users n (net_alive n ∖ {[user]}) (delete user (net_cached n))).

Definition new_net (origin : Z) (x : X) : net :=
  MkNet origin ∅ ps_new MinRequestId ∅ ∅ x [].

Definition net_reachable (n : net) : Prop := exists origin x, rtc nstep (new_net origin x) n.

(** The ids answered so far. *)
Definition answered_ids (l : list net_event) : list Z :=
  omap (fun e => match e with Answered id _ _ => Some id | _ => None end) l.

(** ** The invariant *)

Context `{!PendStoreLaws S ReqContext}.

Record net_inv (n : net) : Prop := {
  ni_ok : ps_ok (net_pending n);
  ni_next : MinRequestId <= net_reqId n < 2 ^ 64;
  (* a pending request was saved, with this context, and not answered *)
  ni_pending : forall id ctx, ps_find (net_pending n) id = Some ctx ->
    Saved id ctx ∈ net_log n /\ id ∉ answered_ids (net_log n);
  ni_saved : forall id, id ∈ saved_ids (net_log n) -> MinRequestId <= id < net_reqId n;
  ni_saved_once : NoDup (saved_ids (net_log n));
  ni_answered : NoDup (answered_ids (net_log n));
  (* an answer follows its request, goes to its connection and is made from it *)
  ni_match : forall pre id u m post, net_log n = pre ++ Answered id u m :: post ->
    exists h d n0 data, Saved id (MkCtx u h d) ∈ pre /\ m = mkResponse n0 u h data;
}.

Lemma saved_in id ctx l : Saved id ctx ∈ l -> id ∈ saved_ids l.
Proof. intros Hin. apply list_elem_of_omap. by exists (Saved id ctx). Qed.

Lemma answered_app l e :
  answered_ids (l ++ [e]) = answered_ids l ++ match e with Answered id _ _ => [id] | _ => [] end.
Proof. unfold answered_ids. rewrite omap_app. by destruct e. Qed.

Lemma saved_app l e : saved_ids (l ++ [e]) = saved_ids l ++ match e with Saved id _ => [id] | _ => [] end.
Proof. unfold saved_ids. rewrite omap_app. by destruct e. Qed.

(** Nothing but the pending store shrinks. *)
Lemma inv_shrink n n' :
  net_inv n -> ps_ok (net_pending n') -> net_reqId n' = net_reqId n -> net_log n' = net_log n ->
  (forall id ctx, ps_find (net_pending n') id = Some ctx -> ps_find (net_pending n) id = Some ctx) ->
  net_inv n'.
Proof. intros [H1 H2 H3 H4 H5 H6 H7] Hok Hr Hl Hf. split; rewrite ?Hr, ?Hl; auto. Qed.

(** The answers of a log, as a statement on every event. *)
Definition event_ok (pre : list net_event) (e : net_event) : Prop :=
  match e with
  | Answered id u m => exists h d n0 data, Saved id (MkCtx u h d) ∈ pre /\ m = mkResponse n0 u h data
  | _ => True
  end.

Lemma net_events_ok n : net_inv n -> forall pre e post, net_log n = pre ++ e :: post -> event_ok pre e.
Proof. intros Hinv pre [] post Heq; try done. by eapply ni_match. Qed.

Lemma inv_log n e n' :
  net_inv n -> net_log n' = net_log n ++ [e] -> ps_ok (net_pending n') ->
  MinRequestId <= net_reqId n' < 2 ^ 64 -> net_reqId n <= net_reqId n' -> event_ok (net_log n) e ->
  match e with
  | Saved id ctx => (id ∉ saved_ids (net_log n)) /\ MinRequestId <= id < net_reqId n' /\
      (forall i c, ps_find (net_pending n') i = Some c -> (i = id /\ c = ctx) \/ ps_find (net_pending n) i = Some c)
  | Answered id _ _ => (id ∉ answered_ids (net_log n)) /\ ps_find (net_pending n') id = None /\
      (forall i c, ps_find (net_pending n') i = Some c -> ps_find (net_pending n) i = Some c)
  | Posted _ _ => forall i c, ps_find (net_pending n') i = Some c -> ps_find (net_pending n) i = Some c
  end ->
  net_inv n'.
Proof.
  intros Hinv Hl Hok Hr Hle He Hm. pose proof (net_events_ok _ Hinv) as Hev. destruct Hinv as [H1 H2 H3 H4 H5 H6 H7].
  split; try done; rewrite ?Hl, ?saved_app, ?answered_app.
  - intros id ctx Hf. rewrite elem_of_app, not_elem_of_app. destruct e as [i c|i u m|u m].
    + destruct Hm as (Hns & Hlt & Hm). apply Hm in Hf as [[-> ->]|Hf].
      * split; [right; by apply list_elem_of_singleton|]. split; [|set_solver].
        intros Hin. apply list_elem_of_omap in Hin as (x & Hx & Hxe). destruct x; try done. injection Hxe as ->.
        apply list_elem_of_split in Hx as (l1 & l2 & Hx).
        destruct (H7 _ _ _ _ _ Hx) as (h & d & n0 & data & Hs & _).
        apply Hns, (saved_in _ (MkCtx user h d)). rewrite Hx. set_solver.
      * destruct (H3 _ _ Hf). split; [by left|]. split; [done|set_solver].
    + destruct Hm as (Hn & Hnone & Hm). destruct (H3 _ _ (Hm _ _ Hf)). split; [by left|]. split; [done|].
      rewrite list_elem_of_singleton. intros ->. congruence.
    + destruct (H3 _ _ (Hm _ _ Hf)). split; [by left|]. split; [done|set_solver].
  - intros id. rewrite elem_of_app. intros [Hin%H4|Hin]; [lia|]. destruct e; try by apply not_elem_of_nil in Hin.
    apply list_elem_of_singleton in Hin as ->. lia.
  - destruct e; rewrite ?app_nil_r; try done. apply NoDup_app. split; [done|]. split; [|apply NoDup_singleton].
    intros x Hx ->%list_elem_of_singleton. by destruct Hm.
  - destruct e; rewrite ?app_nil_r; try done. apply NoDup_app. split; [done|]. split; [|apply NoDup_singleton].
    intros x Hx ->%list_elem_of_singleton. by destruct Hm.
  - intros pre id u m post Heq. apply (snoc_events event_ok) in Heq; [exact Heq|exact Hev|exact He].
Qed.

Lemma response_spec reqId d n :
  net_inv n ->
  let n' := snd (response reqId d n) in
  (forall i, ps_find (net_pending n') i = if decide (reqId = i) then None else ps_find (net_pending n) i) /\
  ps_ok (net_pending n') /\ net_reqId n' = net_reqId n /\ net_alive n' = net_alive n /\
  match ps_find (net_pending n) reqId with
  | Some ctx =>
      if bool_decide (userWeak ctx ∈ net_alive n)
      then fst (response reqId d n) = 0 /\ exists n1,
        net_log n' = net_log n ++ [Answered reqId (userWeak ctx) (mkResponse n1 (userWeak ctx) (reqHeader ctx) d)]
      else fst (response reqId d n) = -1 /\ net_log n' = net_log n
  | None => fst (response reqId d n) = -1 /\ net_log n' = net_log n
  end.
Proof.
  intros Hinv. cbn zeta. pose proof (ni_ok _ Hinv) as Hok. unfold response.
  pose proof (take_found (net_pending n) reqId Hok) as Hf. pose proof (take_ok _ reqId Hok) as Hok'.
  pose proof (fun i => find_take (net_pending n) reqId i Hok) as Hft.
  destruct (ps_take (net_pending n) reqId) as [[ctx|] s]; cbn in Hf, Hok', Hft; rewrite <- Hf.
  - cbn [net_alive set_pending]. case_bool_decide; cbn; split_and!; try done. by eexists.
  - cbn. by split_and!.
Qed.

Lemma save_spec reqId user h d n :
  net_inv n -> reqId ∉ saved_ids (net_log n) ->
  let n' := saveReqContext reqId user h d n in
  (forall i, ps_find (net_pending n') i =
     if decide (reqId = i) then Some (MkCtx user h d) else ps_find (net_pending n) i) /\
  ps_ok (net_pending n') /\ net_log n' = net_log n ++ [Saved reqId (MkCtx user h d)].
Proof.
  intros Hinv Hns. pose proof (ni_ok _ Hinv) as Hok. cbn. split_and!; [|by apply insert_ok|done].
  intros i. rewrite find_insert by done. case_decide as E; [|done]. do 2 f_equal.
  destruct (ps_find (net_pending n) reqId) as [c|] eqn:Ef; [|done].
  apply (ni_pending _ Hinv) in Ef as [Hs _]. by apply saved_in in Hs.
Qed.

Lemma cleanup_spec user n :
  net_inv n ->
  let n' := onDisconnect user n in
  (forall i, ps_find (net_pending n') i =
     ps_find (net_pending n) i ≫= fun c => if ctx_gone n user c then None else Some c) /\
  ps_ok (net_pending n') /\ net_log n' = net_log n.
Proof.
  intros Hinv. pose proof (ni_ok _ Hinv) as Hok. cbn. split_and!; [|by apply sweep_ok|done].
  intros i. by apply find_sweep.
Qed.

Lemma nstep_inv n n' : net_inv n -> nstep n n' -> net_inv n'.
Proof.
  intros Hinv Hs.
  destruct Hs as [n Hlt|n reqId user h d Hid Hns Ha|n reqId d|n user Ha|n user reqId ctx Ha Hc Hg|n user m|n o k|n user k|n x|n user|n user].
  - pose proof (ni_next _ Hinv) as Hn. unfold MinRequestId in Hn.
    assert (wrap 64 (net_reqId n + 1) = net_reqId n + 1) as Hw by (apply wrap_id; unfold in_uint; lia).
    destruct Hinv as [H1 H2 H3 H4 H5 H6 H7]. split; cbn; rewrite ?Hw; try done; [unfold MinRequestId; lia|].
    intros id Hid%H4. lia.
  - destruct (save_spec reqId user h d n Hinv Hns) as (Hf & Hok & Hl). pose proof (ni_next _ Hinv).
    eapply inv_log; [done|exact Hl|done|done|done|done|]. cbn beta iota. split; [done|]. split; [done|].
    intros i c. rewrite Hf. case_decide; [|by right]. intros [= <-]. by left.
  - destruct (response_spec reqId d n Hinv) as (Hf & Hok & Hr & _ & Hm). pose proof (ni_next _ Hinv).
    assert (forall i c, ps_find (net_pending (snd (response reqId d n))) i = Some c -> ps_find (net_pending n) i = Some c) as Hsub.
    { intros i c. rewrite Hf. by case_decide. }
    destruct (ps_find (net_pending n) reqId) as [ctx|] eqn:E.
    2:{ destruct Hm as [_ Hl]. by eapply inv_shrink. }
    case_bool_decide; [|destruct Hm as [_ Hl]; by eapply inv_shrink].
    destruct Hm as [_ [n1 Hl]]. destruct (ni_pending _ Hinv _ _ E) as [Hsv Hna].
    eapply inv_log; [done|exact Hl|done|rewrite Hr; lia|lia| |].
    + exists (reqHeader ctx), (reqData ctx), n1, d. split; [|done]. by destruct ctx.
    + split; [done|]. split; [|done]. rewrite Hf. by rewrite decide_True.
  - destruct (cleanup_spec user n Hinv) as (Hf & Hok & Hl). eapply inv_shrink; [done|done|done|done|].
    intros i c. rewrite Hf. destruct (ps_find (net_pending n) i) as [x|]; [|done]. cbn. by case_if.
  - pose proof (ni_ok _ Hinv) as Hok. eapply inv_shrink; [done|by apply take_ok|done|done|].
    intros i c. cbn. rewrite find_take by done. by case_decide.
  - pose proof (ni_next _ Hinv). eapply inv_log; [done|reflexivity|apply (ni_ok _ Hinv)|done|done|done|].
    by intros i c.
  - eapply inv_shrink; [done|apply (ni_ok _ Hinv)|done..].
  - eapply inv_shrink; [done|apply (ni_ok _ Hinv)|done..].
  - eapply inv_shrink; [done|apply (ni_ok _ Hinv)|done..].
  - eapply inv_shrink; [done|apply (ni_ok _ Hinv)|done..].
  - eapply inv_shrink; [done|apply (ni_ok _ Hinv)|done..].
Qed.

(** [savePenddingReq] without an interruption is two steps. *)
Lemma save_steps user h d n :
  net_inv n -> user ∈ net_alive n -> net_reqId n < 2 ^ 64 - 1 -> rtc nstep n (snd (savePenddingReq user h d n)).
Proof.
  intros Hinv Ha Hlt. pose proof (ni_next _ Hinv) as Hn. eapply rtc_l; [by apply ns_id|]. apply rtc_once.
  apply (ns_save (snd (genRequestId n)) (net_reqId n)); [|by intros Hin%(ni_saved _ Hinv); lia|done].
  cbn. unfold MinRequestId in *. rewrite wrap_id by (unfold in_uint; lia). lia.
Qed.

Lemma new_inv origin x : net_inv (new_net origin x).
Proof.
  split; cbn; try done.
  - apply new_ok.
  - intros id ctx. by rewrite find_new.
  - intros id Hin. by apply not_elem_of_nil in Hin.
  - apply NoDup_nil_2.
  - apply NoDup_nil_2.
  - intros [|? ?]; done.
Qed.

Lemma net_reachable_inv n : net_reachable n -> net_inv n.
Proof.
  intros (origin & x & Hr). pose proof (new_inv origin x) as Hi. induction Hr; [done|]. eauto using nstep_inv.
Qed.

(** ** Properties *)


(** [response] on a pending request of a connection that is still there
    answers it and returns 0; for an unknown or already answered id, or when
    the connection is gone, it returns -1 and posts nothing. In every case the
    request is no longer pending and no other request is touched. *)
Theorem response_exact reqId d n :
  net_reachable n ->
  let n' := snd (response reqId d n) in
  (forall i, ps_find (net_pending n') i = if decide (reqId = i) then None else ps_find (net_pending n) i) /\
  ps_ok (net_pending n') /\ net_reqId n' = net_reqId n /\ net_alive n' = net_alive n /\
  match ps_find (net_pending n) reqId with
  | Some ctx =>
      if bool_decide (userWeak ctx ∈ net_alive n)
      then fst (response reqId d n) = 0 /\ exists n1,
        net_log n' = net_log n ++ [Answered reqId (userWeak ctx) (mkResponse n1 (userWeak ctx) (reqHeader ctx) d)]
      else fst (response reqId d n) = -1 /\ net_log n' = net_log n
  | None => fst (response reqId d n) = -1 /\ net_log n' = net_log n
  end.
Proof. intros Hinv%net_reachable_inv. by apply response_spec. Qed.

(** the clean-up after a disconnection removes exactly the pending requests
    of that connection and of connections that no longer exist, in every
    shard, and posts nothing. *)
Theorem cleanup_exact user n :
  net_reachable n ->
  let n' := onDisconnect user n in
  (forall i c, ps_find (net_pending n') i = Some c <->
     ps_find (net_pending n) i = Some c /\ userWeak c <> user /\ userWeak c ∈ net_alive n) /\
  net_log n' = net_log n.
Proof.
  intros Hinv%net_reachable_inv. destruct (cleanup_spec user n Hinv) as (Hf & _ & Hl). split; [|done].
  intros i c. rewrite Hf. destruct (ps_find (net_pending n) i) as [x|]; cbn; [|naive_solver].
  unfold ctx_gone. repeat case_bool_decide; cbn; naive_solver.
Qed.

(** The handlers of an application act on the server by its entry points. *)
Definition handlers_ok (handle : handlers) : Prop :=
  forall k user h d n, net_inv n -> user ∈ net_alive n -> rtc nstep n (snd (handle k user h d n)).

Lemma onRequest_run (handle : handlers) user h d n :
  handlers_ok handle -> net_inv n -> user ∈ net_alive n -> rtc nstep n (onRequest handle user h d n).
Proof.
  intros Hh Hinv Ha. unfold onRequest.
  destruct (match net_cached n !! user with Some k => Some k | None => getUserHandler (origin h) n end) as [k|]; [|done].
  set (n1 := set_cached n (<[user := k]> (net_cached n))).
  assert (net_inv n1) as Hi1 by (apply (nstep_inv n); [done|apply ns_cache]).
  pose proof (Hh k user h d n1 Hi1 Ha) as Hr. destruct (handle k user h d n1) as [[reqId resp] n2]. cbn in Hr.
  assert (rtc nstep n n2) as Hr2 by (eapply rtc_l; [apply ns_cache|exact Hr]).
  repeat case_if; try done; (eapply rtc_r; [exact Hr2|apply ns_post]).
Qed.

(** [onRequest] is a run of the server's entry points: it uses the handler
    cached by the connection, or else the one registered for the request's
    origin, which it caches; it posts exactly the synchronous response (or an
    empty one for [NO_RESPONSE]) after what the handler did, and nothing for an
    asynchronous one or without a handler. *)
Theorem onRequest_runs (handle : handlers) user h d n :
  handlers_ok handle -> net_reachable n -> user ∈ net_alive n ->
  rtc nstep n (onRequest handle user h d n) /\
  match (match net_cached n !! user with Some k => Some k | None => getUserHandler (origin h) n end) with
  | None => onRequest handle user h d n = n
  | Some k =>
      let '(reqId, resp, n2) := handle k user h d (set_cached n (<[user := k]> (net_cached n))) in
      net_log (onRequest handle user h d n) = net_log n2 ++
        (if reqId =? SYNC_RESPONSE then [Posted user (mkResponse n2 user h resp)]
         else if reqId =? NO_RESPONSE then [Posted user (mkResponse n2 user h [])] else [])
  end.
Proof.
  intros Hh Hr Ha. split; [apply onRequest_run; [done|by apply net_reachable_inv|done]|]. unfold onRequest.
  destruct (match net_cached n !! user with Some k => Some k | None => getUserHandler (origin h) n end) as [k|]; [|done].
  destruct (handle k user h d (set_cached n (<[user := k]> (net_cached n)))) as [[reqId resp] n2].
  by repeat case_if; rewrite ?app_nil_r.
Qed.

(** the handler of a connection is the one of its first request: once a
    connection has cached a handler, a request with any other origin is given
    to it, whatever is registered for that origin. *)
Theorem first_origin_decides (handle : handlers) user k h d n :
  net_cached n !! user = Some k ->
  onRequest handle user h d n =
  let '(reqId, resp, n2) := handle k user h d n in
  if reqId =? SYNC_RESPONSE then postMsg user (mkResponse n2 user h resp) n2
  else if reqId =? NO_RESPONSE then postMsg user (mkResponse n2 user h []) n2
  else n2.
Proof.
  intros Hk. unfold onRequest. rewrite Hk.
  replace (set_cached n (<[user := k]> (net_cached n))) with n; [done|].
  destruct n. unfold set_cached. cbn in *. by rewrite insert_id.
Qed.

End server.

(** ** [NetClient] *)

Section client.
Context {K : Type}.        (* handlers, and the default responser *)

Record net_client := MkNetClient {
  nc_handlers : gmap Z K;            (* _msgHandlers, by serial *)
  nc_origin : Z;                     (* _localOrigin *)
  nc_default : option K;             (* _defaultResponser *)
}.

Definition new_net_client (localOrigin : Z) : net_client := MkNetClient ∅ localOrigin None.
Definition attachResponser (r : option K) (c : net_client) : net_client :=
  MkNetClient (nc_handlers c) (nc_origin c) r.
Definition set_handlers (c : net_client) (m : gmap Z K) : net_client :=
  MkNetClient m (nc_origin c) (nc_default c).

(** [tcpsock_ha_asynclt::post]. *)
Context {P : Type} (post : P -> bytes -> Z * P).

(** [request(reqHeader, reqData, handler)]; the header is an in-out argument. *)
Definition request (reqHeader : option lymsg_header) (reqData : bytes) (handler : option K) (c : net_client) (p : P)
  : Z * option lymsg_header * net_client * P :=
  match reqHeader with
  | None => (-1, None, c, p)
  | Some h =>
      let h1 := MkHeader (nc_origin c) (reserve h) (htype h) (serial h) (hsize h) in
      let msg := packMsg h1 reqData in
      let c1 :=
        match handler with
        | None => c
        | Some k =>
            set_handlers c (match nc_handlers c !! serial h1 with
                            | Some _ => nc_handlers c
                            | None => <[serial h1 := k]> (nc_handlers c)
                            end)
        end in
      let '(rc, p1) := post p msg in
      let c2 :=
        match handler with
        | Some _ => if rc =? 0 then c1 else set_handlers c1 (delete (serial h1) (nc_handlers c1))
        | None => c1
        end in
      (rc, Some h1, c2, p1)
  end.

(** What [onResponse] calls. *)
Inductive call :=
| CallHandler (k : K) (h : lymsg_header) (d : bytes)
| CallDefault (r : K) (h : lymsg_header) (d : bytes)
| NoCall.

Definition onResponse (msg : bytes) (c : net_client) : call * net_client :=
  match unpackMsg (Some msg) with
  | None => (NoCall, c)
  | Some (h, d) =>
      match nc_handlers c !! serial h with
      | Some k => (CallHandler k h d, set_handlers c (delete (serial h) (nc_handlers c)))
      | None =>
          match nc_default c with
          | Some r => (CallDefault r h d, c)
          | None => (NoCall, c)
          end
      end
  end.

(** ** A request and its answer, end to end *)

(** The response made from a received request is read by the requester with its
    own serial, the response bit and the body. *)
Lemma reply_read h d rh rd o resp :
  header_ok h -> size_of d < 2 ^ 32 -> in_uint 16 o -> size_of resp < 2 ^ 32 ->
  unpackMsg (Some (packMsg h d)) = Some (rh, rd) ->
  rd = d /\ exists ch, unpackMsg (Some (createResponse o rh resp)) = Some (ch, resp) /\
    serial ch = serial h /\ htype ch = Z.lor (htype h) LYMSG_TYPE_RESP /\ origin ch = o.
Proof.
  intros Hh Hd Ho Hr. rewrite unpack_pack by done. intros [= <- <-]. split; [done|].
  unfold createResponse. cbn [htype serial set_serial set_hsize].
  rewrite unpack_pack; [|split; cbn|done].
  - eexists. split; [done|]. cbn. split; [|done]. apply swap_halves_involutive. by destruct Hh.
  - done.
  - done.
  - apply lor_range; [done|by destruct Hh|done].
  - apply swap_halves_range. by destruct Hh.
  - done.
Qed.

(** The client has an open request with this serial. *)
Lemma onResponse_open msg h d k c :
  unpackMsg (Some msg) = Some (h, d) -> nc_handlers c !! serial h = Some k ->
  onResponse msg c = (CallHandler k h d, set_handlers c (delete (serial h) (nc_handlers c))).
Proof. intros E Hk. unfold onResponse. by rewrite E, Hk. Qed.

(** C5: a remote call, answered at once. A request that is sent with a handler
    and a serial not in use, received by the server and answered synchronously
    by the handler registered there, comes back to exactly that client handler,
    once, with the body the server's handler wrote and the client's serial. *)
Theorem rpc_sync {S} `{PS : PendStore S ReqContext} {X} (handle : handlers (S:=S) (X:=X)) h d k c p p1 n user resp :
  let h1 := MkHeader (nc_origin c) (reserve h) (htype h) (serial h) (hsize h) in
  header_ok h1 -> size_of d < 2 ^ 32 -> size_of resp < 2 ^ 32 -> in_uint 16 (net_origin n) ->
  nc_handlers c !! serial h = None -> post p (packMsg h1 d) = (0, p1) ->
  (* the server's handler answers synchronously *)
  (forall s rh m, net_cached n !! user = Some s \/ net_handlers n !! nc_origin c = Some s ->
     handle s user rh d m = (SYNC_RESPONSE, resp, m)) ->
  is_Some (net_cached n !! user) \/ is_Some (net_handlers n !! nc_origin c) ->
  let mk m (_ : nat) := createResponse (net_origin m) in
  let '(rc, _, c1, _) := request (Some h) d (Some k) c p in
  let n' := onRecvMsg (onRequest mk handle) user (packMsg h1 d) n in
  rc = 0 /\
  exists reply ch, net_log n' = net_log n ++ [Posted user reply] /\
    onResponse reply c1 = (CallHandler k ch resp, c) /\ serial ch = serial h /\
    htype ch = Z.lor (htype h) LYMSG_TYPE_RESP.
Proof.
  intros h1 Hh Hd Hr Ho Hfree Hp Hhand Hsome mk. unfold request. fold h1. rewrite Hp.
  change (serial h1) with (serial h). rewrite Hfree. cbn zeta. change (0 =? 0) with true. cbn iota beta.
  split; [done|]. unfold onRecvMsg.
  pose proof (unpack_pack h1 d Hh Hd) as Hu. rewrite Hu. set (rh := set_serial _ _) in *.
  destruct (reply_read h1 d rh d (net_origin n) resp Hh Hd Ho Hr Hu) as (_ & ch & Hch & Hs & Ht & _).
  exists (createResponse (net_origin n) rh resp), ch. unfold onRequest, getUserHandler.
  change (origin rh) with (nc_origin c).
  assert (exists s, match net_cached n !! user with Some k => Some k | None => net_handlers n !! nc_origin c end = Some s /\
    (net_cached n !! user = Some s \/ net_handlers n !! nc_origin c = Some s)) as (s & -> & Hs').
  { destruct (net_cached n !! user) as [s|]; [by exists s; auto|].
    destruct Hsome as [[? ?]|[s ?]]; [done|]. exists s; auto. }
  rewrite (Hhand s rh _ Hs'). cbn. split; [done|]. split; [|done].
  rewrite (onResponse_open _ ch resp k _ Hch); cbn; rewrite Hs; [|by rewrite lookup_insert_eq].
  rewrite delete_insert_id by done. by destruct c.
Qed.

(** a remote call, answered later. If the request was saved and is pending,
    whoever calls [response] with its id, the message it posts comes back to
    the handler of the request, once. *)
Theorem rpc_async {S} `{PS : PendStore S ReqContext} `{!PendStoreLaws S ReqContext} {X}
    h d rh rd k (c : net_client) (n : net (S:=S) (X:=X)) reqId user resp :
  let mk m (_ : nat) := createResponse (net_origin m) in
  header_ok h -> size_of d < 2 ^ 32 -> size_of resp < 2 ^ 32 -> in_uint 16 (net_origin n) ->
  unpackMsg (Some (packMsg h d)) = Some (rh, rd) -> nc_handlers c !! serial h = Some k ->
  ps_ok (net_pending n) -> ps_find (net_pending n) reqId = Some (MkCtx user rh rd) -> user ∈ net_alive n ->
  let '(rc, n') := response mk reqId resp n in
  rc = 0 /\ ps_find (net_pending n') reqId = None /\
  exists reply ch, net_log n' = net_log n ++ [Answered reqId user reply] /\
    onResponse reply c = (CallHandler k ch resp, set_handlers c (delete (serial h) (nc_handlers c))) /\
    serial ch = serial h.
Proof.
  intros mk Hh Hd Hr Ho Hu Hk Hok Hf Ha. unfold response.
  pose proof (take_found (net_pending n) reqId Hok) as Ht. pose proof (find_take (net_pending n) reqId reqId Hok) as Hn.
  rewrite decide_True in Hn by done.
  destruct (ps_take (net_pending n) reqId) as [r s]. cbn in Ht, Hn. rewrite Ht, Hf. cbn [userWeak reqHeader].
  rewrite bool_decide_true by done. split; [done|]. split; [done|].
  destruct (reply_read h d rh rd (net_origin n) resp Hh Hd Ho Hr Hu) as (_ & ch & Hch & Hs & _).
  exists (createResponse (net_origin n) rh resp), ch. split; [done|]. split; [|done].
  rewrite (onResponse_open _ ch resp k c Hch); by rewrite Hs.
Qed.

(** a serial already in use. The new handler is not kept: if the message is
    sent, its answer goes to the handler of the earlier request, and if it is
    not, the earlier request's handler is lost. *)
Theorem duplicate_serial_loses_handler h d k k0 c p :
  nc_handlers c !! serial h = Some k0 ->
  let '(rc, _, c', _) := request (Some h) d (Some k) c p in
  nc_handlers c' !! serial h = if rc =? 0 then Some k0 else None.
Proof.
  intros Hk. unfold request. cbn [serial]. destruct (post p _) as [rc p1]. rewrite Hk.
  case_if; cbn; [done|]. by rewrite lookup_delete_eq.
Qed.

End client.

(** ** Witnesses: a server with one handler, the shards and one connection *)

Abbreviation demo_net := (net (S:=list (gmap Z ReqContext)) (X:=unit)).

Definition demo_mk (n : demo_net) (_ : nat) : lymsg_header -> bytes -> bytes := createResponse (net_origin n).
Definition demo_header : lymsg_header := MkHeader 7 0 3 5 0.

(** Connection 1, and the handler 9 of origin 7. *)
Definition demo_ready : demo_net :=
  registerUserHandler 7 9%nat (set_users (new_net 2 tt) {[1%nat]} (delete 1%nat ∅)).
Definition demo_waiting : demo_net := snd (savePenddingReq 1%nat demo_header [x41] demo_ready).

(** A handler that echoes, and one that answers later. *)
Definition demo_echo : handlers (S:=list (gmap Z ReqContext)) (X:=unit) := fun _ _ _ d n => (SYNC_RESPONSE, d, n).

Lemma demo_ready_reachable : net_reachable demo_mk demo_ready.
Proof.
  exists 2, tt. eapply rtc_l; [|apply rtc_once; apply ns_register].
  pose proof (ns_create demo_mk (new_net 2 tt) 1%nat) as Hc. cbn [net_alive new_net] in Hc.
  rewrite (right_id_L ∅ (∪)) in Hc. apply Hc; [set_solver|]. intros id ctx Hf.
  change (ps_find (ps_new (S:=list (gmap Z ReqContext))) id = Some ctx) in Hf. by rewrite find_new in Hf.
Defined.

Lemma demo_waiting_reachable : net_reachable demo_mk demo_waiting.
Proof.
  pose proof (net_reachable_inv demo_mk _ demo_ready_reachable) as Hi.
  destruct demo_ready_reachable as (o & x & Hr). exists o, x. etrans; [exact Hr|].
  apply save_steps; [exact Hi|cbn; set_solver|reflexivity].
Defined.


Lemma response_exact_witness :
  fst (response demo_mk 101 [x42] demo_waiting) = 0 /\ fst (response demo_mk 102 [x42] demo_waiting) = -1.
Proof.
  destruct (response_exact demo_mk 101 [x42] _ demo_waiting_reachable) as (_ & _ & _ & _ & H1).
  destruct (response_exact demo_mk 102 [x42] _ demo_waiting_reachable) as (_ & _ & _ & _ & H2).
  change (ps_find (net_pending demo_waiting) 101) with (Some (MkCtx 1%nat demo_header [x41])) in H1.
  change (ps_find (net_pending demo_waiting) 102) with (@None ReqContext) in H2.
  cbv beta iota in H1, H2. rewrite bool_decide_true in H1 by (cbn; set_solver). split; [apply H1|apply H2].
Defined.

Lemma cleanup_exact_witness : ps_find (net_pending (onDisconnect 1%nat demo_waiting)) 101 = None.
Proof.
  destruct (cleanup_exact demo_mk 1%nat _ demo_waiting_reachable) as [H _].
  destruct (ps_find (net_pending (onDisconnect 1%nat demo_waiting)) 101) as [c|] eqn:E; [|reflexivity].
  apply H in E as (Hf & Hne & _). injection Hf as <-. by destruct Hne.
Defined.

Lemma onRequest_runs_witness :
  net_log (onRequest demo_mk demo_echo 1%nat demo_header [x41] demo_ready) =
  [Posted 1%nat (createResponse 2 demo_header [x41])].
Proof.
  assert (handlers_ok demo_mk demo_echo) as Hok by (intros k user h d n _ _; apply rtc_refl).
  destruct (onRequest_runs demo_mk demo_echo 1%nat demo_header [x41] demo_ready Hok demo_ready_reachable) as [_ H].
  - cbn. set_solver.
  - exact H.
Defined.

Lemma first_origin_decides_witness :
  onRequest demo_mk demo_echo 1%nat (MkHeader 8 0 3 5 0) [x41] (set_cached demo_ready {[1%nat := 9%nat]}) =
  postMsg 1%nat (createResponse 2 (MkHeader 8 0 3 5 0) [x41]) (set_cached demo_ready {[1%nat := 9%nat]}).
Proof. exact (first_origin_decides demo_mk demo_echo 1%nat 9%nat _ _ (set_cached demo_ready {[1%nat := 9%nat]}) eq_refl). Defined.

(** The client: handlers are numbers, and posting succeeds when the flag says so. *)
Definition demo_post (ok : bool) (_ : bytes) : Z * bool := (if ok then 0 else -1, ok).
Definition demo_client : net_client (K:=nat) := new_net_client 7.

Lemma rpc_sync_witness :
  let '(rc, _, c1, _) := request demo_post (Some demo_header) [x41] (Some 3%nat) demo_client true in
  let n' := onRecvMsg (onRequest demo_mk demo_echo) 1%nat (packMsg demo_header [x41]) demo_ready in
  rc = 0 /\ exists reply ch, net_log n' = [Posted 1%nat reply] /\ onResponse reply c1 = (CallHandler 3%nat ch [x41], demo_client).
Proof.
  pose proof (rpc_sync demo_post (fun k u h d n => (SYNC_RESPONSE, [x41], n)) demo_header [x41] 3%nat demo_client
    true true demo_ready 1%nat [x41]) as H.
  destruct H as (Hrc & reply & ch & Hl & Hc & _); try done.
  - right. by exists 9%nat.
  - split; [exact Hrc|]. exists reply, ch. split; [exact Hl|exact Hc].
Defined.

Lemma rpc_async_witness :
  match unpackMsg (Some (packMsg demo_header [x41])) with
  | None => False
  | Some (rh, rd) =>
      let n := snd (savePenddingReq 1%nat rh rd demo_ready) in
      let '(rc, n') := response demo_mk 101 [x42] n in
      rc = 0 /\ ps_find (net_pending n') 101 = None
  end.
Proof.
  destruct (unpackMsg (Some (packMsg demo_header [x41]))) as [[rh rd]|] eqn:E; [|discriminate E].
  pose proof (rpc_async demo_header [x41] rh rd 3%nat (set_handlers demo_client {[5 := 3%nat]})
    (snd (savePenddingReq 1%nat rh rd demo_ready)) 101 1%nat [x42]) as H. cbn zeta in *.
  destruct (response demo_mk 101 [x42] (snd (savePenddingReq 1%nat rh rd demo_ready))) as [rc n'] eqn:Er.
  change (response _ 101 [x42] _) with (response demo_mk 101 [x42] (snd (savePenddingReq 1%nat rh rd demo_ready))) in H.
  rewrite Er in H. destruct H as (Hrc & Hn & _); try done.
Defined.

Lemma duplicate_serial_loses_handler_witness :
  let c := set_handlers demo_client {[5 := 3%nat]} in
  let '(_, _, c', _) := request demo_post (Some demo_header) [x41] (Some 4%nat) c false in
  nc_handlers c' !! 5 = None.
Proof. exact (duplicate_serial_loses_handler demo_post demo_header [x41] 4%nat 3%nat (set_handlers demo_client {[5 := 3%nat]}) false eq_refl). Defined.
