(* ===== verification/NetLife.v ===== *)
(** * The life cycle of a request server ([NetServer] of [lygc/net_server.hpp])

    [nlife] puts the parts of a [NetServer] together: the transport of
    [ServerLife], the manager of asynchronous clients of [AsyncLife], the timer
    and the handlers. [nl_objs] are the handler objects that exist. [None] is
    undefined behaviour, such as deleting an object twice. *)

From S2P Require Import Prelude MemChunk TcpMessage SocketPoll SocketUtils TcpUser AsyncClient Dispatch TcpServer.
From S2P Require Import Text Timer Shards NetServer.
From S2P Require ServerLife AsyncLife Config.
From S2P Require TimerLife.
Import ServerLife(life, lf_ids, lf_threads, lf_io, lf_srv, lf_stat).
Import AsyncLife(amgr, MkAmgr, al_mgr, al_shutdown, al_threads).

(** [showStatus], as what it does to the timer: it counts, and stays. *)
Definition showStatus : task Z := fun w => (true, w + 1).

Section net.
Context {P : Type} {PI : Poller P} {PF : PollerFactory P} {W : Type} {SW : Sys W} (fresh : Z -> bytes).
Context {S X : Type} `{PS : PendStore S ReqContext}.

Record nlife := MkNlife {
  nl_config : Config.ServerConfig;     (* _config *)
  nl_srv : life P;
  nl_net : net (S:=S) (X:=X);
  nl_objs : gset nat;
  nl_mgr : amgr P W;                   (* _asynCltMgr *)
  nl_startAsync : bool;                (* _startAsyncMgr *)
  nl_timer : timer Z;             (* _timerHelper *)
  nl_timer_thread : bool;
  nl_timer_stopped : bool;
}.

(** The constructor. *)
Definition new_nlife (conf : Config.ServerConfig) (x : X) (p : P) (w : W) : nlife :=
  MkNlife conf (ServerLife.new_life p) (new_net (Config.origin conf) x) ∅ (MkAmgr (idle_manager p w) false false) false
    (MkTimer TenSecond ∅) false false.

Definition set_srv (v : life P) (l : nlife) : nlife :=
  MkNlife (nl_config l) v (nl_net l) (nl_objs l) (nl_mgr l) (nl_startAsync l) (nl_timer l) (nl_timer_thread l) (nl_timer_stopped l).
Definition set_mgr (m : amgr P W) (l : nlife) : nlife :=
  MkNlife (nl_config l) (nl_srv l) (nl_net l) (nl_objs l) m (nl_startAsync l) (nl_timer l) (nl_timer_thread l) (nl_timer_stopped l).
Definition set_handlers (n : net (S:=S) (X:=X)) (objs : gset nat) (l : nlife) : nlife :=
  MkNlife (nl_config l) (nl_srv l) n objs (nl_mgr l) (nl_startAsync l) (nl_timer l) (nl_timer_thread l) (nl_timer_stopped l).

(** ** [addAsynClient] *)

(** The loop over a group of servers. *)
Fixpoint add_connects (h : nat) (group : list Config.ServerConfig) (g : manager) : option (manager (P:=P) (W:=W)) :=
  match group with
  | [] => Some g
  | conf :: group => addConnect fresh h (c_str (Config.host conf)) (Config.port conf) g ≫= add_connects h group
  end.

(** The overload for a group, with the new object [h]; the client, if there is one. *)
Definition addAsynClients (h : nat) (group : list Config.ServerConfig) (g : manager) : option (option nat * manager (P:=P) (W:=W)) :=
  match group with
  | [] => Some (None, g)
  | _ =>
      g1 ← add_connects h group (upd_has g (<[h := new_ha_asynclt]> (m_has g)) (m_haClients g));
      Some (Some h, manageClient h g1)
  end.
Definition addAsynClient (h : nat) (target : Config.ServerConfig) (g : manager) : option (option nat * manager (P:=P) (W:=W)) :=
  g1 ← addConnect fresh h (c_str (Config.host target)) (Config.port target) (upd_has g (<[h := new_ha_asynclt]> (m_has g)) (m_haClients g));
  Some (Some h, manageClient h g1).

(** ** Starting and stopping *)

Definition open (e : ServerLife.open_env) (l : nlife) : Z * list Z * nlife :=
  let '(rc, closed, s) := ServerLife.open e (lf_srv (nl_srv l)) in
  let v := nl_srv l in
  (rc, closed, set_srv (ServerLife.MkLife s (ServerLife.lf_shutdown v) (lf_ids v) (lf_threads v) (lf_io v) (lf_stat v)) l).

(** Starting a timer whose thread is joinable terminates the program. *)
Definition start (serverWorkers cltMgrWorkers : Z) (l : nlife) : option nlife :=
  v ← ServerLife.start serverWorkers [] (nl_srv l);
  let async := 0 <? cltMgrWorkers in
  let m := if async then AsyncLife.start cltMgrWorkers (nl_mgr l) else nl_mgr l in
  if nl_timer_thread l then None
  else Some (MkNlife (nl_config l) v (nl_net l) (nl_objs l) m async (addTimerTask (nl_timer l) (5 * 60 / 10) showStatus) true (nl_timer_stopped l)).

(** [delete handler] for each entry. *)
Fixpoint delete_all (hs : list nat) (objs : gset nat) : option (gset nat) :=
  match hs with [] => Some objs | h :: hs => if bool_decide (h ∈ objs) then delete_all hs (objs ∖ {[h]}) else None end.

Definition clear_handlers (n : net (S:=S) (X:=X)) : net :=
  MkNet (net_origin n) ∅ (net_pending n) (net_reqId n) (net_alive n) (net_cached n) (net_ext n) (net_log n).

Definition serveUtilStop (l : nlife) : option nlife :=
  v ← ServerLife.serveUtilStop (nl_srv l);
  m ← (if nl_startAsync l then AsyncLife.stop true (nl_mgr l) else Some (nl_mgr l));
  objs ← delete_all (snd <$> map_to_list (net_handlers (nl_net l))) (nl_objs l);
  Some (MkNlife (nl_config l) v (clear_handlers (nl_net l)) objs m (nl_startAsync l) (nl_timer l) false true).

(** [tcpsock_server::stop], with the virtual [serveUtilStop]. *)
Definition stop (join : bool) (l : nlife) : option nlife :=
  v ← ServerLife.stop false (nl_srv l); if join then serveUtilStop (set_srv v l) else Some (set_srv v l).

(** ** Clients *)

Lemma add_connects_spec h group (g : manager) ha :
  m_has g !! h = Some ha ->
  exists g', add_connects h group g = Some g' /\ rtc (setup fresh) g g' /\ m_haClients g' = m_haClients g /\
    exists ha', m_has g' !! h = Some ha' /\ size_of (h_clients ha') = size_of (h_clients ha) + size_of group.
Proof.
  revert g ha. induction group as [|conf group IH]; intros g ha Hh; cbn [add_connects].
  - exists g. split_and!; [done|apply rtc_refl|done|]. exists ha. split; [done|]. rewrite size_of_nil. lia.
  - destruct (addConnect fresh h (c_str (Config.host conf)) (Config.port conf) g) as [g1|] eqn:E.
    2: { unfold addConnect in E. rewrite Hh in E. by destruct (a_connect _ _ _) as [[??]?]. }
    pose proof E as Es. unfold addConnect in E. rewrite Hh in E. destruct (a_connect _ _ _) as [[rc a] w1].
    cbn [mbind option_bind]. injection E as Eg. destruct (IH g1 (MkHaAsync (h_clients ha ++ [m_next g]) (h_cursor ha) (wrap 64 (h_seq ha + 1)) (h_workerIdx ha)))
      as (g' & -> & Hr & Hl & ha' & Hha & Hsz). { rewrite <- Eg. cbn. apply lookup_insert_eq. }
    exists g'. split; [done|]. split; [eapply rtc_l; [by eapply su_connect|done]|]. split; [by rewrite Hl, <- Eg|].
    exists ha'. split; [done|]. rewrite Hsz. cbn [h_clients]. rewrite size_of_app, !size_of_cons, size_of_nil. lia.
Qed.

(** Adding a client makes one connection for each server of the group, in a group
    that the manager knows; an empty group adds nothing. What it does are steps
    of setting up, so that what is proved of the manager holds after it. *)
Theorem add_client_exact h group (g : manager) :
  m_has g !! h = None -> h ∉ m_haClients g ->
  exists r g', addAsynClients h group g = Some (r, g') /\ rtc (setup fresh) g g' /\
    (group = [] -> r = None /\ g' = g) /\
    (group <> [] -> r = Some h /\ m_haClients g' = m_haClients g ++ [h] /\
       exists ha, m_has g' !! h = Some ha /\ size_of (h_clients ha) = size_of group) /\
    (forall conf, group = [conf] -> addAsynClient h conf g = Some (r, g')).
Proof.
  intros Hn Hnm. destruct group as [|c0 group0] eqn:Eg.
  { exists None, g. by split_and!. }
  rewrite <- Eg. set (g0 := upd_has g (<[h := new_ha_asynclt]> (m_has g)) (m_haClients g)).
  destruct (add_connects_spec h group g0 new_ha_asynclt) as (g1 & E & Hr & Hl & ha & Hha & Hsz); [apply lookup_insert_eq|].
  exists (Some h), (manageClient h g1). unfold addAsynClients. rewrite Eg, <- Eg. fold g0. rewrite E. cbn [mbind option_bind].
  split; [done|]. split; [|split; [by rewrite Eg|split]].
  - eapply rtc_l; [by apply (su_group _ _ h)|]. eapply rtc_r; [exact Hr|]. apply su_manage; [by eexists|by rewrite Hl].
  - intros _. split; [done|]. unfold manageClient. cbn [upd_has m_haClients m_has]. split; [by rewrite Hl|].
    change (size_of (h_clients new_ha_asynclt)) with 0 in Hsz. destruct (0 <? m_workerNum g1); [rewrite lookup_alter_eq, Hha|rewrite Hha]; eexists; (split; [done|]); cbn; lia.
  - intros conf Ec. unfold addAsynClient. fold g0. rewrite Ec in E. cbn [add_connects] in E.
    destruct (addConnect _ _ _ _ g0) as [g2|]; [|done]. cbn [mbind option_bind] in *. congruence.
Qed.

(** ** A run *)

Lemma delete_all_spec hs objs : NoDup hs -> (forall h, h ∈ hs -> h ∈ objs) ->
  delete_all hs objs = Some (objs ∖ list_to_set hs).
Proof.
  revert objs. induction hs as [|h hs IH]; intros objs Hnd Hin; cbn [delete_all].
  - f_equal. cbn. set_solver.
  - apply NoDup_cons in Hnd as [Hn Hnd]. rewrite bool_decide_true by (apply Hin; by left). rewrite IH; [|done|].
    + f_equal. cbn [list_to_set]. set_solver.
    + intros x Hx. apply elem_of_difference. split; [apply Hin; by right|]. set_solver.
Qed.

Lemma delete_all_twice hs objs : ~ NoDup hs -> delete_all hs objs = None.
Proof.
  revert objs. induction hs as [|h hs IH]; intros objs Hnd; cbn [delete_all]; [by destruct Hnd; constructor|].
  case_bool_decide; [|done]. destruct (decide (h ∈ hs)) as [Hin|Hn].
  - clear IH Hnd. assert (h ∉ objs ∖ {[h]}) as Hno by set_solver. revert Hno. generalize (objs ∖ {[h]}).
    induction hs as [|x hs IH]; intros o Hno; [by apply elem_of_nil in Hin|]. cbn [delete_all]. case_bool_decide; [|done].
    apply elem_of_cons in Hin as [->|Hin]; [done|]. apply IH; [done|set_solver].
  - apply IH. intros Hd. apply Hnd. by constructor.
Qed.

(** Before the first start. *)
Record unstarted (l : nlife) : Prop := {
  un_life : ServerLife.fresh_life (nl_srv l);
  un_timer : nl_timer_thread l = false;
  un_unit : _tickUnit (nl_timer l) = TenSecond;
}.

(** Stopping the transport of a running server, then the virtual [serveUtilStop]. *)
Lemma stop_spec n (l : nlife) : ServerLife.running n (nl_srv l) ->
  exists v, ServerLife.halted v /\
    stop true l =
      (m ← (if nl_startAsync l then AsyncLife.stop true (nl_mgr l) else Some (nl_mgr l));
       objs ← delete_all (snd <$> map_to_list (net_handlers (nl_net l))) (nl_objs l);
       Some (MkNlife (nl_config l) v (clear_handlers (nl_net l)) objs m (nl_startAsync l) (nl_timer l) false true)).
Proof.
  intros Hr. destruct (ServerLife.stop_running n true (nl_srv l) Hr) as (v & E & _ & _ & H & _).
  exists v. split; [by apply H|].
  rewrite ServerLife.stop_then_join in E. unfold stop. destruct (ServerLife.stop false (nl_srv l)) as [v1|]; [|done].
  cbn [mbind option_bind] in *. unfold serveUtilStop. cbn [set_srv nl_srv nl_startAsync nl_mgr nl_net nl_objs nl_config nl_timer].
  by rewrite E.
Qed.

Lemma start_spec n c (l : nlife) : unstarted l ->
  exists v, ServerLife.running n v /\ is_Some (TimerLife.ts_thd (TimerLife.lg_timer (lf_stat v))) /\
    start n c l = Some (MkNlife (nl_config l) v (nl_net l) (nl_objs l)
      (if 0 <? c then AsyncLife.start c (nl_mgr l) else nl_mgr l) (0 <? c) (addTimerTask (nl_timer l) 30 showStatus) true (nl_timer_stopped l)).
Proof.
  intros [H1 H5 H6]. destruct (ServerLife.start_fresh n [] (nl_srv l) H1) as (v & E & Hr & _ & Hth); [constructor|reflexivity|].
  exists v. split; [exact Hr|]. split; [exact Hth|]. unfold start. rewrite E. cbn [mbind option_bind]. by rewrite H5.
Qed.

(** The statistics logger of the transport. *)
Definition stat_of (l : nlife) : TimerLife.logger := lf_stat (nl_srv l).

(** What happens to a server between its start and its stop: the manager works,
    handlers are registered, and the statistics logger runs and is told of the
    workers. *)
Definition served (m : amgr P W) (n : net (S:=S) (X:=X)) (objs : gset nat) (g : TimerLife.logger) (l : nlife) : nlife :=
  set_srv (ServerLife.set_stat g (nl_srv l)) (set_handlers n objs (set_mgr m l)).

Context {SL : SysLaws W} (proto : protocol).

(** C38: a server that is started once and stopped, whatever its clients, its handlers
    and the thread of its statistics logger did in between: no thread of the
    transport is left, the logger's thread and the timer's are joined, the logger
    knows no statistics any more, and every handler object that was registered,
    under one origin each, is deleted. With workers for its clients, these are
    shut down: no client of a managed group, no queue and no thread of the
    manager is left. Without, the manager is what it was, with all its
    connections. *)
Theorem net_run n c (l : nlife) m net' objs :
  unstarted l ->
  NoDup (snd <$> map_to_list (net_handlers net')) -> (forall o h, net_handlers net' !! o = Some h -> h ∈ objs) ->
  (0 < c -> al_shutdown m = false /\ async_reachable fresh proto (al_mgr m)) ->
  exists l1, start n c l = Some l1 /\ nl_timer_thread l1 = true /\ is_Some (TimerLife.ts_thd (TimerLife.lg_timer (stat_of l1))) /\
    forall g, rtc TimerLife.tlstep (TimerLife.lg_timer (stat_of l1)) (TimerLife.lg_timer g) ->
      TimerLife.ts_call (TimerLife.lg_timer g) = TimerLife.StopNone ->
    exists l2, stop true (served m net' objs g l1) = Some l2 /\
    lf_threads (nl_srv l2) = [] /\ lf_io (nl_srv l2) = false /\ nl_timer_thread l2 = false /\ nl_timer_stopped l2 = true /\
    TimerLife.ts_thd (TimerLife.lg_timer (stat_of l2)) = None /\ TimerLife.ts_stopped (TimerLife.lg_timer (stat_of l2)) = true /\
    TimerLife.lg_allStat (stat_of l2) = [] /\ net_handlers (nl_net l2) = ∅ /\
    (forall h, h ∈ nl_objs l2 <-> h ∈ objs /\ forall o, net_handlers net' !! o <> Some h) /\
    (0 < c -> al_threads (nl_mgr l2) = false /\ m_queues (al_mgr (nl_mgr l2)) = [] /\ m_haClients (al_mgr (nl_mgr l2)) = [] /\
       forall id, id ∈ AsyncLife.members (m_has (al_mgr m)) (m_haClients (al_mgr m)) -> m_heap (al_mgr (nl_mgr l2)) !! id = None) /\
    (c <= 0 -> nl_mgr l2 = m).
Proof.
  intros Hu Hnd Hobj Hm. destruct (start_spec n c l Hu) as (v & Hr & Hth & Es).
  eexists. split; [exact Es|]. split; [done|]. split; [exact Hth|]. intros g Hg Hcall.
  assert (exists m2, (if 0 <? c then AsyncLife.stop true m else Some m) = Some m2 /\
    (0 < c -> al_threads m2 = false /\ m_queues (al_mgr m2) = [] /\ m_haClients (al_mgr m2) = [] /\
       forall id, id ∈ AsyncLife.members (m_has (al_mgr m)) (m_haClients (al_mgr m)) -> m_heap (al_mgr m2) !! id = None) /\
    (c <= 0 -> m2 = m)) as (m2 & Em & Hm2 & Hm3).
  { destruct (Z.ltb_spec 0 c) as [Hc|Hc]; [|exists m; split_and!; [done|lia|done]].
    destruct (Hm Hc) as [Hs Ha]. destruct m as [gm sd th]. cbn in Hs, Ha. subst sd.
    destruct (AsyncLife.shutdown_closes_all fresh proto gm th Ha) as (m2 & E & _ & _ & _ & Hheap & Hha & _ & _ & Hq & Ht & _).
    exists m2. split; [done|]. split; [|lia]. intros _. split_and!; [done..|]. intros id Hid. cbn in Hid. by rewrite Hheap, decide_True. }
  assert (ServerLife.running n (ServerLife.set_stat g v)) as Hrg.
  { destruct Hr as [R1 R2 R3 R4 [R5 _] ]. split; [done..|]. split; [|by left]. by eapply TimerLife.tlsteps_ok. }
  match type of Es with _ = Some ?l1 => destruct (stop_spec n (served m net' objs g l1) Hrg) as (v2 & Hh & Est) end.
  destruct Hh as (Ht2 & Hio2 & _ & Hg1 & Hg2 & Hg3).
  cbn [served set_srv set_handlers set_mgr nl_startAsync nl_mgr nl_net nl_objs nl_config nl_timer] in Est. rewrite Em in Est. cbn [mbind option_bind] in Est.
  rewrite delete_all_spec in Est; [|done|].
  2: { intros h (p & -> & Hin)%list_elem_of_fmap. destruct p as [o h]. apply elem_of_map_to_list in Hin. by apply (Hobj o). }
  cbn [mbind option_bind] in Est. eexists. split; [exact Est|]. unfold stat_of. cbn [nl_srv nl_timer_thread nl_timer_stopped nl_net nl_objs nl_mgr].
  split_and!; try done. intros h. rewrite elem_of_difference, elem_of_list_to_set. split; intros [Hin Hn]; (split; [done|]).
  - intros o Ho. apply Hn, list_elem_of_fmap. exists (o, h). split; [done|]. by apply elem_of_map_to_list.
  - intros (p & -> & Hp)%list_elem_of_fmap. destruct p as [o h]. apply elem_of_map_to_list in Hp. by apply (Hn o).
Qed.

(** A handler that was registered for two origins is deleted twice. *)
Theorem shared_handler_deleted_twice n (l : nlife) o1 o2 h :
  ServerLife.running n (nl_srv l) -> o1 <> o2 ->
  net_handlers (nl_net l) !! o1 = Some h -> net_handlers (nl_net l) !! o2 = Some h -> stop true l = None.
Proof.
  intros Hr Hne H1 H2. destruct (stop_spec n l Hr) as (v & _ & ->).
  destruct (if nl_startAsync l then _ else _) as [m|]; [|done]. cbn [mbind option_bind].
  rewrite delete_all_twice; [done|]. intros Hnd. apply elem_of_map_to_list in H1, H2.
  apply list_elem_of_lookup in H1 as [i Hi], H2 as [j Hj].
  assert (i = j) as ->.
  { eapply NoDup_lookup; [exact Hnd| |]; rewrite list_lookup_fmap; [by rewrite Hi|by rewrite Hj]. }
  congruence.
Qed.

(** The status is reported every five minutes of timer rounds, for as long as the
    timer runs. *)
Theorem status_period n c (l l1 : nlife) : unstarted l -> _timerTasks (nl_timer l) = ∅ -> start n c l = Some l1 ->
  tasks_at (nl_timer l1) 30 = [showStatus] /\ waitMs (_tickUnit (nl_timer l1)) * 30 = 5 * 60 * 1000 /\
  (forall k, (0 < k)%nat -> fires (_tickUnit (nl_timer l1)) 30 k = true <-> (30 | Z.of_nat k)) /\
  forall count, onTicks (fun _ => false) (nl_timer l1) 30 count = (nl_timer l1, count + 1).
Proof.
  intros Hu Ht Hs. destruct (start_spec n c l Hu) as (v & _ & _ & E). rewrite E in Hs. injection Hs as <-. cbn [nl_timer].
  destruct Hu as [_ _ H6]. destruct (nl_timer l) as [u ts]. cbn in H6, Ht. subst u ts.
  split; [by vm_compute|]. split; [reflexivity|]. split.
  - apply slot_period; [apply (bool_decide_unpack _); vm_compute; exact I|by exists 2].
  - intros count. vm_compute. reflexivity.
Qed.
End net.
Arguments nlife : clear implicits.

(** ** Witnesses *)

#[local] Instance net_poller : Poller WinPoll.state := WinPoll.win_poller 0x0300 0x0010.

Definition demo_config : Config.ServerConfig := Config.MkConfig [x61] 7 [x62] 9000.
Definition demo_server : nlife WinPoll.state script (list (gmap Z ReqContext)) unit :=
  new_nlife demo_config tt (WinPoll.MkState ∅ 1) (MkScript [] (MkView ∅ [])).
(** One handler, 5, for the origin 3; [started_group] is the manager at work. *)
Definition demo_net : net (S:=list (gmap Z ReqContext)) (X:=unit) := registerUserHandler 3 5 (nl_net demo_server).

Lemma server_unstarted : unstarted demo_server.
Proof. split; [apply ServerLife.new_life_fresh|done..]. Qed.

Lemma net_run_witness : exists l1 l2,
  start 2 4 demo_server = Some l1 /\
  stop true (served (MkAmgr started_group false true) demo_net {[5; 6]}%nat (stat_of l1) l1) = Some l2 /\
  TimerLife.ts_thd (TimerLife.lg_timer (stat_of l2)) = None /\
  lf_threads (nl_srv l2) = [] /\ m_haClients (al_mgr (nl_mgr l2)) = [] /\ m_heap (al_mgr (nl_mgr l2)) !! 0%nat = None.
Proof.
  destruct (net_run zero_fresh default_msg_proto 2 4 demo_server (MkAmgr started_group false true) demo_net {[5; 6]}%nat
    server_unstarted) as (l1 & E1 & _ & _ & H).
  - apply (bool_decide_unpack _). vm_compute. exact I.
  - intros o h. unfold demo_net, registerUserHandler. cbn [net_handlers]. intros [[<- <-]|[_ H]]%lookup_insert_Some; [set_solver|].
    cbn in H. by rewrite lookup_empty in H.
  - intros _. split; [done|apply started_reachable].
  - destruct (H (stat_of l1)) as (l2 & E2 & Ht & _ & _ & _ & Hg & _ & _ & _ & _ & Hm & _); [apply rtc_refl| |].
    { assert (TimerLife.ts_call (TimerLife.lg_timer (stat_of (default demo_server (start 2 4 demo_server)))) = TimerLife.StopNone) as Hc
        by (vm_compute; reflexivity). rewrite E1 in Hc. exact Hc. }
    exists l1, l2. destruct (Hm eq_refl) as (_ & _ & Hha & Hh). split; [exact E1|]. split; [exact E2|]. split; [exact Hg|].
    split; [exact Ht|]. split; [exact Hha|]. apply Hh. vm_compute. by left.
Defined.

(** Without workers for them, the clients stay, connected. *)
Example clients_without_workers_stay :
  (l ← start 2 0 demo_server; l ← stop true (set_mgr (MkAmgr one_group false false) l);
   Some (map_to_list ((fun a => TcpClient.c_fd (a_clt a)) <$> m_heap (al_mgr (nl_mgr l))))) = Some [(0%nat, 7)].
Proof. vm_compute. reflexivity. Qed.

Lemma shared_handler_deleted_twice_witness : exists l1, start 2 0 demo_server = Some l1 /\
  stop true (set_handlers (registerUserHandler 4 5 demo_net) {[5%nat]} l1) = None.
Proof.
  destruct (start_spec 2 0 demo_server server_unstarted) as (v & Hr & _ & E). eexists. split; [exact E|].
  eapply (shared_handler_deleted_twice 2 _ 3 4 5); [exact Hr|done|vm_compute; reflexivity..].
Defined.

Lemma add_client_exact_witness : exists g', addAsynClients zero_fresh 0 [demo_config; demo_config] (al_mgr (nl_mgr demo_server)) = Some (Some 0%nat, g') /\
  m_haClients g' = [0%nat].
Proof.
  destruct (add_client_exact zero_fresh 0 [demo_config; demo_config] (al_mgr (nl_mgr demo_server))) as (r & g' & E & _ & _ & H & _).
  - reflexivity.
  - apply not_elem_of_nil.
  - destruct H as (-> & Hl & _); [done|]. exists g'. split; [exact E|exact Hl].
Defined.

Lemma status_period_witness : exists l1, start 2 0 demo_server = Some l1 /\ fires (_tickUnit (nl_timer l1)) 30 60 = true.
Proof.
  destruct (start_spec 2 0 demo_server server_unstarted) as (v & _ & _ & E). eexists. split; [exact E|].
  destruct (status_period 2 0 demo_server _ server_unstarted eq_refl E) as (_ & _ & H & _). apply H; [lia|]. by exists 2.
Defined.
