(* ===== verification/Gate.v ===== *)
(** * The gate: encrypted sessions ([lygc/gate_server.hpp])

    [gate] is what [GateServer] and its [GateUser]s add to a [NetServer]: the
    session of each connection and the handshake helper they share. The state
    of the server is [net] with [gate] as its extension, and every entry point
    is a run of the steps of [NetServer]. *)

From S2P Require Import Prelude Lymsg Shards NetServer Random Openssl Handshake.

(** [GateUser]'s own fields. *)
Record gate_user := MkGateUser {
  _secret : bytes;
  _ivec : bytes;
  _enctype : Z;
  _handshakeFin : bool;
}.

Definition new_gate_user : gate_user := MkGateUser [] [] eET_AES_CFB false.

Section gate.
Context {key bn : Type} {OP : OpenSSL key bn} {S : Type} `{PS : PendStore S ReqContext}.

(** [GateServer]; [g_users] are the connections that were given a session. *)
Record gate := MkGate {
  g_users : gmap nat gate_user;
  g_serverSide : handshake_helper key;
  g_session_symsec_type : Z;
  g_seed : nat;                       (* random choices made *)
}.

Abbreviation gnet := (net (S:=S) (X:=gate)).

Definition new_gate (rsaKey : option key) : gate := MkGate ∅ (new_helper rsaKey) eET_AES_CFB O.

Definition user_of (g : gate) (user : nat) : gate_user := default new_gate_user (g_users g !! user).
Definition set_user (g : gate) (user : nat) (u : gate_user) : gate :=
  MkGate (<[user := u]> (g_users g)) (g_serverSide g) (g_session_symsec_type g) (g_seed g).

Definition setSessionSecType (t : Z) (g : gate) : gate := MkGate (g_users g) (g_serverSide g) t (g_seed g).

(** ** [GateUser] *)

Definition setHandshakeSuccess (shareKey : bytes) (sessionType : Z) (u : gate_user) : gate_user :=
  if 32 <=? size_of shareKey
  then MkGateUser (take 16 shareKey) (take 16 (drop 16 shareKey)) sessionType true
  else MkGateUser (_secret u) (_ivec u) (_enctype u) false.

Definition setHandshakeFail (u : gate_user) : gate_user := MkGateUser (_secret u) (_ivec u) (_enctype u) false.

(** The text, [Ok None] when the call fails. *)
Definition crypt (enc : bool) (data : bytes) (u : gate_user) : result (option bytes) :=
  match symmetric_encrypt data (_secret u) (_ivec u) (_enctype u) enc [] with
  | None => Fault Overread
  | Some (rc, out) => Ok (if negb (rc =? 0) then None else Some out)
  end.

Definition decrypt (data : bytes) (u : gate_user) : result (option bytes) := crypt false data u.
Definition encrypt (data : bytes) (u : gate_user) : result (option bytes) := crypt true data u.

Definition isHandshakeDone (u : gate_user) : bool := _handshakeFin u.

Definition is_enc (h : lymsg_header) : bool := negb (Z.land (htype h) LYMSG_TYPE_ENC =? 0).

(** What [createResponse] packs. *)
Definition pack_data (u : gate_user) (h : lymsg_header) (respData : bytes) : result bytes :=
  if is_enc h then
    if isHandshakeDone u then
      match encrypt respData u with
      | Fault f => Fault f
      | Ok None => Ok []
      | Ok (Some out) => Ok out
      end
    else Ok []
  else Ok respData.

(** [GateUser::createResponse]; a fault does not happen ([sessions_usable]), and
    is given the empty body here. *)
Definition gateResponse (n : gnet) (user : nat) (h : lymsg_header) (respData : bytes) : bytes :=
  createResponse (net_origin n) h
    (match pack_data (user_of (net_ext n) user) h respData with Ok d => d | Fault _ => [] end).

(** ** [GateServer::onHandshake]: the response, the shared key. *)
Definition onHandshake (reqData : bytes) (g : gate) : result (bytes * bytes * gate) :=
  match decryptHSReq reqData (g_serverSide g) with
  | Fault f => Fault f
  | Ok None => Ok ([], [], g)
  | Ok (Some hsReq) =>
      let '(hsResp, h1) := creatHSResp (g_seed g) hsReq (g_session_symsec_type g) (g_serverSide g) in
      let g1 := MkGate (g_users g) h1 (g_session_symsec_type g) (Datatypes.S (g_seed g)) in
      match hsResp with
      | None => Ok ([], [], g1)
      | Some resp =>
          let shareKey := makeShareKey h1 (req_getPeerPubkey hsReq) in
          match encryptHSResp resp (temp_symsec hsReq) (temp_symsec_type hsReq) with
          | Fault f => Fault f
          | Ok respData => Ok (respData, shareKey, g1)
          end
      end
  end.

(** ** [GateUser::onRequest] *)

(** What follows [onHandshake] for a message that says hello. The session's type is
    read again, by [getSessionSecType], and the lock is not held any more. *)
Definition hello_finish (user : nat) (h : lymsg_header) (respData shareKey : bytes) (n : gnet) : gnet :=
  let g := net_ext n in
  match respData with
  | [] => postMsg user (createResponse (net_origin n) h []) (set_ext n (set_user g user (setHandshakeFail (user_of g user))))
  | _ =>
      postMsg user (createResponse (net_origin n) h respData)
        (set_ext n (set_user g user (setHandshakeSuccess shareKey (g_session_symsec_type g) (user_of g user))))
  end.

Definition on_hello (user : nat) (h : lymsg_header) (d : bytes) (n : gnet) : result gnet :=
  match onHandshake d (net_ext n) with
  | Fault f => Fault f
  | Ok (respData, shareKey, g) => Ok (hello_finish user h respData shareKey (set_ext n g))
  end.

Definition onRequest (handle : handlers (S:=S) (X:=gate)) (user : nat) (h : lymsg_header) (d : bytes) (n : gnet) : result gnet :=
  if htype h =? LYMSG_TYPE_HANDSHAKE then on_hello user h d n
  else if is_enc h then
    if isHandshakeDone (user_of (net_ext n) user) then
      match decrypt d (user_of (net_ext n) user) with
      | Fault f => Fault f
      | Ok None => Ok n
      | Ok (Some decrypted) => Ok (NetServer.onRequest gateResponse handle user h decrypted n)
      end
    else Ok n
  else Ok (NetServer.onRequest gateResponse handle user h d n).

(** [createUser]: a new connection, without a session. *)
Definition createUser (user : nat) (n : gnet) : gnet :=
  let g := net_ext n in
  set_ext (set_users n ({[user]} ∪ net_alive n) (delete user (net_cached n)))
    (MkGate (delete user (g_users g)) (g_serverSide g) (g_session_symsec_type g) (g_seed g)).

(** ** The sessions that can be used *)

(** What [setHandshakeSuccess] leaves: a key and a vector of 16 bytes, and an AES
    mode. *)
Definition session_ok (u : gate_user) : Prop :=
  _handshakeFin u = true ->
  size_of (_secret u) = 16 /\ size_of (_ivec u) = 16 /\ eET_AES_ECB <= _enctype u <= eET_AES_CTR.

Definition sessions_ok (g : gate) : Prop := forall user, session_ok (user_of g user).

(** A hello that a worker has answered and not finished. *)
Record hello := MkHello { hl_user : nat; hl_header : lymsg_header; hl_respData : bytes; hl_shareKey : bytes }.

(** What changes the sessions: a message, a new connection, a configuration. The
    workers that are between the two reads of the session's type are on the left;
    a message may also be handled at one go. A type that is not an AES mode is
    configured only when no worker is there. *)
Inductive gstep (handle : handlers (S:=S) (X:=gate)) : list hello * gnet -> list hello * gnet -> Prop :=
| gs_request hs n user h d n' : onRequest handle user h d n = Ok n' -> gstep handle (hs, n) (hs, n')
| gs_hello hs n user h d respData shareKey g :
    htype h = LYMSG_TYPE_HANDSHAKE -> onHandshake d (net_ext n) = Ok (respData, shareKey, g) ->
    gstep handle (hs, n) (MkHello user h respData shareKey :: hs, set_ext n g)
| gs_finish hs1 hl hs2 n :
    gstep handle (hs1 ++ hl :: hs2, n) (hs1 ++ hs2, hello_finish (hl_user hl) (hl_header hl) (hl_respData hl) (hl_shareKey hl) n)
| gs_create hs n user : gstep handle (hs, n) (hs, createUser user n)
| gs_type hs n t : eET_AES_ECB <= t <= eET_AES_CTR \/ hs = [] ->
    gstep handle (hs, n) (hs, set_ext n (setSessionSecType t (net_ext n)))
| gs_net hs n n' : nstep gateResponse n n' -> net_ext n' = net_ext n -> gstep handle (hs, n) (hs, n').

(** The handlers of an application leave the sessions alone. *)
Definition handlers_keep (handle : handlers (S:=S) (X:=gate)) : Prop :=
  forall k user h d n, net_ext (snd (handle k user h d n)) = net_ext n.

Lemma user_of_set g user u user' : user_of (set_user g user u) user' = if decide (user = user') then u else user_of g user'.
Proof. unfold user_of, set_user. cbn. rewrite lookup_insert. by case_decide. Qed.

Lemma onRequest_ext handle user h d n :
  handlers_keep handle -> net_ext (NetServer.onRequest gateResponse handle user h d n) = net_ext n.
Proof.
  intros Hk. unfold NetServer.onRequest.
  destruct (match net_cached n !! user with Some k => Some k | None => getUserHandler (origin h) n end) as [k|]; [|done].
  pose proof (Hk k user h d (set_cached n (<[user := k]> (net_cached n)))) as He.
  destruct (handle k user h d (set_cached n (<[user := k]> (net_cached n)))) as [[reqId resp] n2]. cbn in He.
  by repeat case_if.
Qed.

(** What an answered handshake says about the helper's own checks. *)
Lemma onHandshake_session d g respData shareKey g' :
  onHandshake d g = Ok (respData, shareKey, g') ->
  g_users g' = g_users g /\ g_session_symsec_type g' = g_session_symsec_type g /\
  (respData <> [] -> eET_AES_ECB <= g_session_symsec_type g <= eET_AES_CTR).
Proof.
  unfold onHandshake. destruct (decryptHSReq d (g_serverSide g)) as [[req|]|f]; [|by intros [= <- <- <-]|done].
  destruct (creatHSResp (g_seed g) req (g_session_symsec_type g) (g_serverSide g)) as [[resp|] h1] eqn:E;
    [|by intros [= <- <- <-]].
  apply creatHSResp_ok in E as (Ht & _). destruct (encryptHSResp resp (temp_symsec req) (temp_symsec_type req)); [|done].
  by intros [= <- <- <-].
Qed.

Lemma success_ok shareKey t u : eET_AES_ECB <= t <= eET_AES_CTR -> session_ok (setHandshakeSuccess shareKey t u).
Proof.
  intros Ht. unfold session_ok, setHandshakeSuccess. case_if; bool_Z; [|done]. cbn. intros _.
  unfold size_of in *. rewrite !length_take, length_drop. lia.
Qed.

(** A hello that was answered is finished under an AES mode. *)
Definition hellos_ok (hs : list hello) (g : gate) : Prop :=
  Exists (fun hl => hl_respData hl <> []) hs -> eET_AES_ECB <= g_session_symsec_type g <= eET_AES_CTR.

Lemma hello_finish_ok user h respData shareKey n :
  sessions_ok (net_ext n) -> (respData <> [] -> eET_AES_ECB <= g_session_symsec_type (net_ext n) <= eET_AES_CTR) ->
  sessions_ok (net_ext (hello_finish user h respData shareKey n)) /\
  g_session_symsec_type (net_ext (hello_finish user h respData shareKey n)) = g_session_symsec_type (net_ext n).
Proof.
  intros Hok Haes. unfold hello_finish. destruct respData as [|b rest]; (split; [|done]); intros user';
    cbn [net_ext postMsg log set_ext]; rewrite user_of_set; case_decide; try apply Hok.
  - by unfold session_ok.
  - apply success_ok. by apply Haes.
Qed.

Lemma onRequest_sessions handle user h d n n' :
  handlers_keep handle -> sessions_ok (net_ext n) -> onRequest handle user h d n = Ok n' ->
  sessions_ok (net_ext n') /\ g_session_symsec_type (net_ext n') = g_session_symsec_type (net_ext n).
Proof.
  intros Hk Hok Hr. unfold onRequest in Hr. case_if.
  - unfold on_hello in Hr. destruct (onHandshake d (net_ext n)) as [[[respData shareKey] g]|f] eqn:E; [|done].
    apply onHandshake_session in E as (Hu & Ht & Haes). injection Hr as <-. rewrite <- Ht in *.
    destruct (hello_finish_ok user h respData shareKey (set_ext n g)) as [H1 H2]; [|done|by rewrite H2].
    intros v. unfold user_of. cbn. rewrite Hu. apply Hok.
  - case_if; [case_if; [|by injection Hr as <-]|].
    + destruct (decrypt d (user_of (net_ext n) user)) as [[x|]|f]; [| |done]; injection Hr as <-; [|done].
      by rewrite onRequest_ext.
    + injection Hr as <-. by rewrite onRequest_ext.
Qed.

Lemma gstep_sessions handle c c' :
  handlers_keep handle -> sessions_ok (net_ext c.2) -> hellos_ok c.1 (net_ext c.2) -> gstep handle c c' ->
  sessions_ok (net_ext c'.2) /\ hellos_ok c'.1 (net_ext c'.2).
Proof.
  intros Hk Hok Hh Hs. unfold hellos_ok in *.
  destruct Hs as [hs n user h d n' Hr|hs n user h d respData shareKey g _ E|hs1 hl hs2 n|hs n user|hs n t Ht|hs n n' _ He]; cbn [fst snd] in *.
  - destruct (onRequest_sessions _ _ _ _ _ _ Hk Hok Hr) as [H1 H2]. by rewrite H2.
  - apply onHandshake_session in E as (Hu & Ht & Haes). cbn [set_ext net_ext]. split.
    + intros v. unfold user_of. rewrite Hu. apply Hok.
    + rewrite Ht. intros [Hne|Hex]%Exists_cons; [by apply Haes|by apply Hh].
  - destruct (hello_finish_ok (hl_user hl) (hl_header hl) (hl_respData hl) (hl_shareKey hl) n Hok) as [H1 H2].
    { intros Hne. apply Hh, Exists_app. right. by apply Exists_cons_hd. }
    rewrite H2. split; [done|]. intros Hex. apply Hh. apply Exists_app in Hex as [Hex|Hex]; apply Exists_app; [by left|right].
    by apply Exists_cons_tl.
  - split; [|exact Hh]. intros user'. unfold user_of. cbn. rewrite lookup_delete. case_decide; [done|]. apply Hok.
  - split; [exact Hok|]. cbn. intros Hex. destruct Ht as [?| ->]; [done|]. by apply Exists_nil in Hex.
  - by rewrite He.
Qed.

Definition new_gate_net (origin : Z) (rsaKey : option key) : gnet := new_net origin (new_gate rsaKey).

Definition gate_reachable (handle : handlers (S:=S) (X:=gate)) (n : gnet) : Prop :=
  exists origin rsaKey hs, rtc (gstep handle) ([], new_gate_net origin rsaKey) (hs, n).

Lemma gate_sessions handle n : handlers_keep handle -> gate_reachable handle n -> sessions_ok (net_ext n).
Proof.
  intros Hk (o & r & hs & Hr). change n with (snd (hs, n)). remember (@nil hello, new_gate_net o r) as c0 eqn:E.
  assert (sessions_ok (net_ext c0.2) /\ hellos_ok c0.1 (net_ext c0.2)) as H0.
  { subst. split; [intros user; by unfold user_of|]. by intros Hex%Exists_nil. }
  clear E. induction Hr as [|c1 c2 c3 Hs _ IH]; [apply H0|]. destruct H0. eauto using gstep_sessions.
Qed.

Context {CL : CipherLaws key bn}.

Lemma session_secret_ok u : session_ok u -> _handshakeFin u = true ->
  0 <= _enctype u <= 17 /\ secret_ok (_enctype u) (_secret u) (_ivec u).
Proof.
  intros Hok Hf. destruct (Hok Hf) as (Hs & Hi & Ht). unfold eET_AES_ECB, eET_AES_CTR in Ht. split; [lia|].
  unfold secret_ok. rewrite Hs, Hi.
  assert (_enctype u = 13 \/ _enctype u = 14 \/ _enctype u = 15 \/ _enctype u = 16 \/ _enctype u = 17) as Hc by lia.
  repeat destruct Hc as [->|Hc]; [..|rewrite Hc]; vm_compute; split_and!; discriminate.
Qed.

Lemma session_crypt u enc d : session_ok u -> _handshakeFin u = true -> size_of d <= 2 ^ 31 - 16 ->
  exists out, crypt enc d u = Ok (Some out) /\ size_of d <= size_of out < size_of d + 16.
Proof.
  intros Hok Hf Hd. destruct (session_secret_ok u Hok Hf) as [Ht Hs]. pose proof (size_of_nonneg d).
  destruct (symmetric_call (_enctype u) (_secret u) (_ivec u) d enc [] Ht Hs Hd) as (_ & _ & out & _ & _ & _ & Hsz & Hr).
  destruct (out_len_spec (cipher_of (_enctype u)) (size_of d) ltac:(lia)) as [Hl _].
  pose proof (block_size_range (cipher_of (_enctype u))).
  exists out. split; [|lia]. unfold crypt. by rewrite Hr.
Qed.

(** What one side encrypts the other decrypts, up to the padding of a block. *)
Lemma session_inverse u u' m :
  session_ok u -> _handshakeFin u = true -> _secret u' = _secret u -> _ivec u' = _ivec u -> _enctype u' = _enctype u ->
  size_of m <= 2 ^ 31 - 16 ->
  exists e pad, encrypt m u = Ok (Some e) /\ decrypt e u' = Ok (Some (m ++ replicate pad x00)) /\ (pad < 16)%nat.
Proof.
  intros Hok Hf H1 H2 H3 Hm. destruct (session_secret_ok u Hok Hf) as [Ht Hs]. pose proof (size_of_nonneg m).
  destruct (symmetric_inverse (_enctype u) (_secret u) (_ivec u) m [] [] Ht Hs Hm) as (e & He & _ & Hd).
  destruct (out_len_spec (cipher_of (_enctype u)) (size_of m) ltac:(lia)) as [Hl _].
  pose proof (block_size_range (cipher_of (_enctype u))).
  exists e, (Z.to_nat (cipher_out_len (cipher_of (_enctype u)) (size_of m) - size_of m)).
  unfold encrypt, decrypt, crypt. rewrite He, H1, H2, H3, Hd. split; [done|]. split; [done|]. lia.
Qed.

(** ** Properties *)

(** C36: every session in use can be used. Whatever is received, configured or
    connected, in whatever order the workers come between the two reads of the
    session's type, a connection whose handshake is done holds a key and a vector
    of 16 bytes and an AES mode, so that encrypting and decrypting any message of
    at most 2^31 - 16 bytes succeeds, without reading outside the key or the
    vector. This is for a server that configures a type other than an AES mode
    only while no hello is between the two reads ([type_between_reads]). *)
Theorem sessions_usable handle n user enc d :
  handlers_keep handle -> gate_reachable handle n -> _handshakeFin (user_of (net_ext n) user) = true ->
  size_of d <= 2 ^ 31 - 16 ->
  exists out, crypt enc d (user_of (net_ext n) user) = Ok (Some out) /\ size_of d <= size_of out < size_of d + 16.
Proof. intros Hk Hr Hf Hd. apply session_crypt; [by eapply gate_sessions|done|done]. Qed.

(** before the handshake, or after one that failed, an encrypted request
    does nothing at all, and the response to an encrypted request carries no
    byte of the answer; a plain request is served all the same. *)
Theorem no_session_no_service handle user h d resp n :
  _handshakeFin (user_of (net_ext n) user) = false -> htype h <> LYMSG_TYPE_HANDSHAKE ->
  if is_enc h
  then onRequest handle user h d n = Ok n /\ gateResponse n user h resp = createResponse (net_origin n) h []
  else onRequest handle user h d n = Ok (NetServer.onRequest gateResponse handle user h d n) /\
       gateResponse n user h resp = createResponse (net_origin n) h resp.
Proof.
  intros Hf Ht. unfold onRequest, gateResponse, pack_data, isHandshakeDone. rewrite Hf, (proj2 (Z.eqb_neq _ _) Ht).
  by destruct (is_enc h).
Qed.

(** what a handshake message does to the session. An empty answer closes it.
    Any other answer opens it with the two halves of the shared key, if that has
    32 bytes; with a shorter one, of a small curve for instance, the session is
    closed, and the same positive answer is sent. *)
Theorem handshake_outcome user h d n respData shareKey g :
  onHandshake d (net_ext n) = Ok (respData, shareKey, g) ->
  exists n', on_hello user h d n = Ok n' /\
    net_log n' = net_log n ++ [Posted user (createResponse (net_origin n) h respData)] /\
    (forall v, v <> user -> user_of (net_ext n') v = user_of (net_ext n) v) /\
    let u := user_of (net_ext n') user in
    _handshakeFin u = negb (size_of respData =? 0) && (32 <=? size_of shareKey) /\
    (_handshakeFin u = true -> _secret u ++ _ivec u = take 32 shareKey /\
       _enctype u = g_session_symsec_type (net_ext n)).
Proof.
  intros He. unfold on_hello, hello_finish. rewrite He. apply onHandshake_session in He as (Hu & Ht & _).
  assert (forall v, user_of g v = user_of (net_ext n) v) as Huo by (intros v; unfold user_of; by rewrite Hu).
  destruct respData as [|b rest]; (eexists; split; [done|]); (split; [done|]); cbn [net_ext postMsg log set_ext].
  - split; [intros v Hv; by rewrite user_of_set, decide_False|]. by rewrite user_of_set, decide_True.
  - split; [intros v Hv; by rewrite user_of_set, decide_False|]. rewrite user_of_set, decide_True by done.
    rewrite (proj2 (Z.eqb_neq _ 0)) by (rewrite size_of_cons; pose proof (size_of_nonneg rest); lia).
    unfold setHandshakeSuccess. cbn [negb andb]. destruct (32 <=? size_of shareKey) eqn:E; cbn; [|done]. split; [done|]. intros _.
    split; [|done]. change 32%nat with (16 + 16)%nat. by rewrite <- (take_take_drop shareKey 16 16).
Qed.

(** the gate is a server: a message that is handled is a run of the entry
    points of [NetServer], so its guarantees about pending requests hold. *)
Theorem gate_refines_server `{!PendStoreLaws S ReqContext} (handle : handlers (S:=S) (X:=gate)) user h d n n' :
  handlers_ok gateResponse handle -> net_reachable gateResponse n -> user ∈ net_alive n ->
  onRequest handle user h d n = Ok n' ->
  rtc (nstep gateResponse) n n'.
Proof.
  intros Hh Hi Ha Hr. apply net_reachable_inv in Hi; [|done]. unfold onRequest in Hr.
  case_if.
  - unfold on_hello in Hr. destruct (onHandshake d (net_ext n)) as [[[respData shareKey] g]|f]; [|done].
    destruct respData; injection Hr as <-; (eapply rtc_l; [apply ns_ext|apply rtc_once, ns_post]).
  - case_if; [case_if; [|by injection Hr as <-]|].
    + destruct (decrypt d (user_of (net_ext n) user)) as [[x|]|f]; [| |done]; injection Hr as <-; [|done].
      by apply onRequest_run.
    + injection Hr as <-. by apply onRequest_run.
Qed.

(** C13: an encrypted call, end to end. A client that holds the session's key,
    vector and mode encrypts its request; the gate decrypts it, the handler sees
    the text (with fewer than 16 zero bytes behind it), its answer is encrypted
    in the response, and the client decrypts it to the answer. Text and answer
    are at most 2^31 - 16 bytes, the lengths that OpenSSL's [int] can count. *)
Theorem encrypted_call (handle : handlers (S:=S) (X:=gate)) user h m n uc k (f : bytes -> bytes) :
  let u := user_of (net_ext n) user in
  session_ok u -> _handshakeFin u = true ->
  _secret uc = _secret u -> _ivec uc = _ivec u -> _enctype uc = _enctype u -> _handshakeFin uc = true ->
  is_enc h = true -> htype h <> LYMSG_TYPE_HANDSHAKE ->
  (match net_cached n !! user with Some k => Some k | None => getUserHandler (origin h) n end) = Some k ->
  (forall d n1, handle k user h d n1 = (SYNC_RESPONSE, f d, n1)) ->
  size_of m <= 2 ^ 31 - 16 -> (forall d, size_of (f d) <= 2 ^ 31 - 16) ->
  exists e pad, encrypt m uc = Ok (Some e) /\ (pad < 16)%nat /\ exists n' body,
    onRequest handle user h e n = Ok n' /\
    net_log n' = net_log n ++ [Posted user (createResponse (net_origin n) h body)] /\
    exists pad', (pad' < 16)%nat /\
      decrypt body uc = Ok (Some (f (m ++ replicate pad x00) ++ replicate pad' x00)).
Proof.
  intros u Hok Hf Hsec Hiv Het Hfc Henc Hht Hk Hh Hm Hfs.
  assert (session_ok uc) as Hokc by (unfold session_ok; rewrite Hsec, Hiv, Het; intros _; by apply Hok).
  destruct (session_inverse uc u m Hokc Hfc ltac:(done) ltac:(done) ltac:(done) ltac:(lia)) as (e & pad & He & Hd & Hpad).
  set (text := m ++ replicate pad x00) in *. pose proof (Hfs text).
  destruct (session_inverse u uc (f text) Hok Hf ltac:(done) ltac:(done) ltac:(done) ltac:(lia))
    as (body & pad' & Hb & Hb' & Hpad').
  exists e, pad. split; [done|]. split; [done|].
  eexists _, body. split; [|split; [|by exists pad']].
  - unfold onRequest. rewrite (proj2 (Z.eqb_neq _ _) Hht), Henc. unfold isHandshakeDone. fold u. rewrite Hf, Hd. done.
  - unfold NetServer.onRequest. rewrite Hk, Hh. cbn. unfold gateResponse, pack_data, isHandshakeDone.
    cbn [net_ext net_origin set_cached]. fold u. by rewrite Henc, Hf, Hb.
Qed.

(** ** The handshake, with its cryptography *)

Context (dist : nat -> Z -> Z -> Z) {DL : DistLaws dist} (rsa_pub rsa_pri : key) {KL : KeyLaws rsa_pub rsa_pri}.

(** C14: the handshake opens a session that both sides hold. Whatever a client
    asks for with [creatHSReq], if the gate can answer and the shared key has
    32 bytes, then the gate's session is done, the client reads the gate's
    answer, and the gate's key and vector are the two halves of the key that
    the client computes from it, under the mode the answer names. *)
Theorem handshake_opens_session handle seed kx prime_len tempType h1 req hc resp hs user h n :
  let g := net_ext n in
  kx = KX_DH \/ kx = KX_ECDH -> in_sint 32 prime_len ->
  _rsaKey h1 = Some rsa_pub -> _rsaKey (g_serverSide g) = Some rsa_pri ->
  creatHSReq dist seed kx prime_len tempType h1 = (Some req, hc) ->
  creatHSResp (g_seed g) req (g_session_symsec_type g) (g_serverSide g) = (Some resp, hs) ->
  let secret := makeShareKey hc (resp_getPeerPubkey resp) in
  32 <= size_of secret -> htype h = LYMSG_TYPE_HANDSHAKE ->
  exists hello n' answer, encryptHSReq req hc = Ok hello /\ onRequest handle user h hello n = Ok n' /\
    net_log n' = net_log n ++ [Posted user (createResponse (net_origin n) h answer)] /\
    decryptHSResp answer (temp_symsec req) (temp_symsec_type req) = Ok (Some resp) /\
    user_of (net_ext n') user =
      MkGateUser (take 16 secret) (take 16 (drop 16 secret)) (session_symsec_type resp) true.
Proof.
  intros g Hkx Hnid Hk1 Hk2 Hreq Hresp secret Hlen Hht.
  destruct (exchange_agrees dist rsa_pub rsa_pri _ _ _ _ _ _ _ _ _ _ _ _ Hkx Hnid Hreq Hresp) as (Hq & Hr & z & Hz & Hss & Hsc).
  apply creatHSReq_ok in Hreq as (Ht & Ht' & _ & _ & Hkc & Hs32 & _); [|done].
  destruct (request_arrives rsa_pub rsa_pri req hc (g_serverSide g) Hq ltac:(congruence) Hk2) as (hello & He & Hd).
  destruct (response_arrives resp (temp_symsec req) (temp_symsec_type req) Hr Hs32 ltac:(lia)) as (answer & He' & Hsz & Hd').
  assert (onHandshake hello g = Ok (answer, secret, MkGate (g_users g) hs (g_session_symsec_type g) (Datatypes.S (g_seed g)))) as Hon.
  { unfold onHandshake. rewrite Hd, Hresp, He'. do 3 f_equal. unfold secret. congruence. }
  eexists hello, _, answer. split; [done|]. unfold onRequest. rewrite Hht. change (LYMSG_TYPE_HANDSHAKE =? LYMSG_TYPE_HANDSHAKE) with true.
  unfold on_hello, hello_finish. fold g. rewrite Hon. destruct answer as [|b rest]; [done|]. split; [done|]. split; [done|]. split; [done|].
  cbn [net_ext postMsg log set_ext]. rewrite user_of_set, decide_True by done. unfold setHandshakeSuccess.
  rewrite (proj2 (Z.leb_le _ _) Hlen). apply creatHSResp_ok in Hresp as (_ & <- & _). done.
Qed.

(** C34: one message of a client ends the process. It needs the public key, and
    no session: a handshake whose temporary secret is empty is decrypted,
    answered up to the last step, and throws an [std::out_of_range] that nothing
    catches. *)
Theorem hostile_hello handle nid pub t k hc user h n :
  let g := net_ext n in
  _rsaKey hc = Some rsa_pub -> _rsaKey (g_serverSide g) = Some rsa_pri ->
  EC_keygen (g_seed g) nid = Some k -> 0 <= nid < 2 ^ 31 -> exported pub -> in_uint 8 t ->
  eET_AES_ECB <= g_session_symsec_type g <= eET_AES_CTR -> htype h = LYMSG_TYPE_HANDSHAKE ->
  exists hello, encryptHSReq (MkHSReq KX_ECDH no_dh (MkECDHReq nid pub) [] t) hc = Ok hello /\
    onRequest handle user h hello n = Fault OutOfRange.
Proof.
  intros g Hk1 Hk2 Hgen Hnid Hpub Ht Haes Hht. set (req := MkHSReq _ _ _ _ _).
  assert (req_ok req) as Hreq by (unfold req_ok, in_uint in *; cbn; split_and!; try done; lia).
  destruct (request_arrives rsa_pub rsa_pri req hc (g_serverSide g) Hreq Hk1 Hk2) as (hello & He & Hd).
  exists hello. split; [done|]. unfold onRequest. rewrite Hht. change (LYMSG_TYPE_HANDSHAKE =? LYMSG_TYPE_HANDSHAKE) with true.
  unfold on_hello, onHandshake. fold g. rewrite Hd. unfold creatHSResp.
  rewrite (proj2 (Z.ltb_ge _ _)), (proj2 (Z.ltb_ge _ _)) by lia. cbn [orb rq_kx_type rq_ecdh curve_nid req].
  change (KX_ECDH =? KX_ECDH) with true. rewrite swrap_id by (try lia; unfold in_sint; lia).
  unfold ecc_create. rewrite Hgen. done.
Qed.

End gate.
Arguments gate : clear implicits.

(** ** Witnesses: the toy library, one connection and a handler that echoes 100 bytes *)

Abbreviation demo_gnet := (net (S:=list (gmap Z ReqContext)) (X:=gate Z)).

Definition echo : handlers (S:=list (gmap Z ReqContext)) (X:=gate Z) := fun _ _ _ d n => (SYNC_RESPONSE, take 100 d, n).
Definition start_net : demo_gnet :=
  createUser 1%nat (registerUserHandler 7 9%nat (new_gate_net 2 (Some 0))).

Definition hello_header : lymsg_header := MkHeader 7 0 LYMSG_TYPE_HANDSHAKE 5 0.
Definition enc_header : lymsg_header := MkHeader 7 0 LYMSG_TYPE_ENC 6 0.

(** The client's request and what it keeps. *)
Definition client_hello : option HandshakeReq * handshake_helper Z :=
  creatHSReq round_dist 7 KX_ECDH 415 eET_AES_CBC (new_helper (Some 0)).
Definition hello_bytes : bytes :=
  match client_hello with
  | (Some req, hc) => match encryptHSReq req hc with Ok e => e | Fault _ => [] end
  | _ => []
  end.

(** The gate after the handshake. *)
Definition session_net : demo_gnet :=
  match onRequest echo 1%nat hello_header hello_bytes start_net with Ok n => n | Fault _ => start_net end.

Lemma echo_keeps : handlers_keep echo.
Proof. intros k user h d n. reflexivity. Qed.

Lemma session_reachable : gate_reachable echo session_net.
Proof.
  exists 2, (Some 0), []. eapply rtc_l; [apply gs_net; [apply ns_register|reflexivity]|].
  eapply rtc_l; [apply gs_create|]. apply rtc_once.
  apply (gs_request echo [] start_net 1%nat hello_header hello_bytes). unfold session_net.
  destruct (onRequest echo 1%nat hello_header hello_bytes start_net) as [n|f] eqn:E; [reflexivity|].
  vm_compute in E. discriminate E.
Qed.

Lemma session_done : _handshakeFin (user_of (net_ext session_net) 1%nat) = true.
Proof. vm_compute. reflexivity. Qed.

Lemma sessions_usable_witness : exists out, crypt true [x41] (user_of (net_ext session_net) 1%nat) = Ok (Some out).
Proof.
  destruct (sessions_usable echo session_net 1%nat true [x41] echo_keeps session_reachable session_done) as [out [H _]].
  - vm_compute. discriminate.
  - exists out. exact H.
Defined.

(** A type that is not an AES mode, configured between the two reads: the session
    is opened with a key that is too short for its cipher. *)
Example type_between_reads :
  match onHandshake hello_bytes (net_ext start_net) with
  | Ok (respData, shareKey, g) =>
      let n := hello_finish 1%nat hello_header respData shareKey (set_ext start_net (setSessionSecType eET_3DES_CFB g)) in
      let u := user_of (net_ext n) 1%nat in
      _handshakeFin u = true /\ encrypt [x41] u = Fault Overread
  | Fault _ => False
  end.
Proof. vm_compute. split; reflexivity. Qed.

Lemma no_session_no_service_witness : onRequest echo 1%nat enc_header [x41] start_net = Ok start_net.
Proof. apply (no_session_no_service echo 1%nat enc_header [x41] [x42] start_net); [reflexivity|discriminate]. Defined.

Lemma handshake_outcome_witness : exists n',
  on_hello 1%nat hello_header [] start_net = Ok n' /\ _handshakeFin (user_of (net_ext n') 1%nat) = false.
Proof.
  assert (onHandshake [] (net_ext start_net) = Ok ([], [], net_ext start_net)) as H by (vm_compute; reflexivity).
  destruct (handshake_outcome 1%nat hello_header [] start_net [] [] (net_ext start_net) H) as (n' & Hr & _ & _ & Hf & _).
  exists n'. split; [exact Hr|exact Hf].
Defined.

Lemma gate_refines_server_witness : rtc (nstep gateResponse) start_net session_net.
Proof.
  apply (gate_refines_server echo 1%nat hello_header hello_bytes).
  - intros k user h d n _ _. apply rtc_refl.
  - exists 2, (net_ext start_net). eapply rtc_l; [apply (ns_register _ _ 7 9%nat)|].
    eapply rtc_l; [apply (ns_create _ _ 1%nat); [cbn; set_solver|]|apply rtc_refl].
    intros id ctx Hf. change (ps_find (ps_new (S:=list (gmap Z ReqContext))) id = Some ctx) in Hf. by rewrite find_new in Hf.
  - cbn. set_solver.
  - unfold session_net. destruct (onRequest echo 1%nat hello_header hello_bytes start_net) as [n|f] eqn:E; [reflexivity|].
    vm_compute in E. discriminate E.
Defined.

Lemma encrypted_call_witness : exists e n' body,
  encrypt [x41] (user_of (net_ext session_net) 1%nat) = Ok (Some e) /\
  onRequest echo 1%nat enc_header e session_net = Ok n' /\
  net_log n' = net_log session_net ++ [Posted 1%nat (createResponse 2 enc_header body)].
Proof.
  destruct (encrypted_call echo 1%nat enc_header [x41] session_net (user_of (net_ext session_net) 1%nat) 9%nat (take 100))
    as (e & pad & He & _ & n' & body & Hr & Hl & _).
  - apply (gate_sessions echo); [exact echo_keeps|exact session_reachable].
  - exact session_done.
  - reflexivity.
  - reflexivity.
  - reflexivity.
  - exact session_done.
  - reflexivity.
  - discriminate.
  - vm_compute. reflexivity.
  - reflexivity.
  - vm_compute. discriminate.
  - intros d. unfold size_of. rewrite length_take. lia.
  - exists e, n', body. split; [exact He|]. split; [exact Hr|exact Hl].
Defined.

Lemma handshake_opens_session_witness : exists n',
  onRequest echo 1%nat hello_header hello_bytes start_net = Ok n' /\
  _handshakeFin (user_of (net_ext n') 1%nat) = true.
Proof.
  destruct client_hello as [[req|] hc] eqn:E1; [|vm_compute in E1; discriminate E1].
  destruct (creatHSResp 0 req eET_AES_CFB (new_helper (Some 0))) as [[resp|] hs] eqn:E2.
  - destruct (handshake_opens_session round_dist 0 0 echo 7 KX_ECDH 415 eET_AES_CBC (new_helper (Some 0)) req hc resp hs
      1%nat hello_header start_net (or_intror eq_refl) ltac:(unfold in_sint; lia) eq_refl eq_refl E1 E2)
      as (hello & n' & answer & He & Hr & _ & _ & Hu).
    + injection E1 as <- <-. injection E2 as <- <-. vm_compute. discriminate.
    + reflexivity.
    + exists n'. unfold hello_bytes. rewrite E1, He. split; [exact Hr|]. by rewrite Hu.
  - injection E1 as <- <-. vm_compute in E2. discriminate E2.
Defined.

Lemma hostile_hello_witness : exists hello, onRequest echo 1%nat hello_header hello start_net = Fault OutOfRange.
Proof.
  destruct (hostile_hello 0 0 echo 415 [x04] 15 0 (new_helper (Some 0)) 1%nat hello_header start_net) as (hello & _ & H);
    try reflexivity; try lia.
  - by vm_compute.
  - unfold in_uint. lia.
  - cbn. unfold eET_AES_ECB, eET_AES_CTR, eET_AES_CFB. lia.
  - exists hello. exact H.
Defined.
