(* ===== verification/DbPool.v ===== *)
(** * The pools of database connections ([mysql_client_pool] of
      [wjp/mysql_client.hpp], [redis_client_pool] of [wjp/redis_client.hpp])

    The two classes are the same program up to the type of the requests and the
    switch of [handleRequest]. [dbpool] is the state of one: the queue of
    requests, the connections ([_clt2idle]), the requests that a submitting thread
    has given an id and not pushed yet, and what each worker thread is doing. [pstep] are the critical sections of the threads that submit, of the
    workers and of the thread that stops the pool, in any order; what a
    connection answers, and whether it is still there afterwards, is up to the
    environment. [dp_log] records what happened to each request. *)

From S2P Require Import Prelude.
From S2P Require SafeQueue.

Definition PoolSize : Z := 10.
Definition MaxPendingReq : Z := 256.
Definition MinReqId : Z := 100.
Definition PoolIsBusy : Z := 1.
Definition MaxRetryTimes : Z := 3.
Definition RESP_RC_PARAM_INVALID : Z := 1001.
Definition RESP_RC_TYPE_INVALID : Z := 1002.
Definition RESP_RC_NO_AVAIL_CLT : Z := 1003.

Section pool.
Context {R A : Type}.      (* requests, responses *)

(** The fields of a request that the pool uses. *)
Record dbreq := MkDbReq { req_id : Z; retry_times : Z; body : R }.

(** Where a worker is in its loop. *)
Inductive phase :=
| Waiting                                  (* in [pop_timeout] *)
| Popped (r : dbreq)                       (* has a request *)
| Connecting (r : dbreq) (c : nat)         (* [newClt->connect] *)
| Ready (r : dbreq) (c : option nat)       (* [getIdleClient] returned *)
| Ran (c : nat)                            (* [handleRequest] returned *)
| Exited.

Inductive event :=
| Submitted (id : Z)
| Busy (id : Z)
| Responded (id : Z) (a : option A)        (* [None]: [RESP_RC_NO_AVAIL_CLT] *)
| Dropped (id : Z).

Record dbpool := MkPool {
  dp_queue : SafeQueue.squeue dbreq;
  dp_reqId : Z;                            (* uint64_t *)
  dp_poolSize : Z;
  dp_clients : gmap nat bool;              (* _clt2idle *)
  dp_conn : gmap nat bool;                 (* getConnState of the clients *)
  dp_workers : list phase;
  dp_taken : list dbreq;                   (* in [submit], before the push *)
  dp_log : list event;
}.

Definition new_pool : dbpool := MkPool SafeQueue.empty_queue MinReqId 0 ∅ ∅ [] [] [].

Definition set_queue q p := MkPool q (dp_reqId p) (dp_poolSize p) (dp_clients p) (dp_conn p) (dp_workers p) (dp_taken p) (dp_log p).
Definition set_clients c k p := MkPool (dp_queue p) (dp_reqId p) (dp_poolSize p) c k (dp_workers p) (dp_taken p) (dp_log p).
Definition set_workers w p := MkPool (dp_queue p) (dp_reqId p) (dp_poolSize p) (dp_clients p) (dp_conn p) w (dp_taken p) (dp_log p).
Definition set_taken t p := MkPool (dp_queue p) (dp_reqId p) (dp_poolSize p) (dp_clients p) (dp_conn p) (dp_workers p) t (dp_log p).
Definition logs e p := MkPool (dp_queue p) (dp_reqId p) (dp_poolSize p) (dp_clients p) (dp_conn p) (dp_workers p) (dp_taken p) (dp_log p ++ [e]).

(** [start]: as many workers as connections, from 1 to 16. *)
Definition start (poolSize : Z) (p : dbpool) : dbpool :=
  let poolSize := Z.min (Z.max poolSize 1) 16 in
  MkPool (dp_queue p) (dp_reqId p) poolSize (dp_clients p) (dp_conn p)
    (dp_workers p ++ replicate (Z.to_nat poolSize) Waiting) (dp_taken p) (dp_log p).

(** [_reqId.fetch_add(1)]. *)
Definition genRequestId (p : dbpool) : Z * dbpool :=
  (dp_reqId p, MkPool (dp_queue p) (wrap 64 (dp_reqId p + 1)) (dp_poolSize p) (dp_clients p) (dp_conn p) (dp_workers p) (dp_taken p) (dp_log p)).

(** The first part of [submit]: the request has its id. *)
Definition submit_id (r : R) (p : dbpool) : dbpool :=
  let '(rc, p1) := genRequestId p in set_taken (dp_taken p1 ++ [MkDbReq rc 0 r]) p1.

(** The second: [_queue.push] of a request that has one. *)
Definition submit_push (x : dbreq) (p : dbpool) : Z * dbpool :=
  let '(ok, q) := SafeQueue.push MaxPendingReq (dp_queue p) x in
  if (ok : bool) then (req_id x, logs (Submitted (req_id x)) (set_queue q p)) else (PoolIsBusy, logs (Busy (req_id x)) p).

(** [submit], when nothing comes between. *)
Definition submit (r : R) (p : dbpool) : Z * dbpool :=
  let '(rc, p1) := genRequestId p in submit_push (MkDbReq rc 0 r) p1.

(** The locked part of [getIdleClient]: [Some (c, new)] is an idle connection
    or a new one; [pick] and [fresh] are the choices of the map's order and of
    the allocator. *)
Inductive idle_client (clients : gmap nat bool) (poolSize : Z) : option (nat * bool) -> gmap nat bool -> Prop :=
| ic_idle c : clients !! c = Some true -> idle_client clients poolSize (Some (c, false)) (<[c := false]> clients)
| ic_new c : (forall c', clients !! c' <> Some true) -> Z.of_nat (base.size clients) < poolSize -> clients !! c = None ->
    idle_client clients poolSize (Some (c, true)) (<[c := false]> clients)
| ic_none : (forall c', clients !! c' <> Some true) -> poolSize <= Z.of_nat (base.size clients) ->
    idle_client clients poolSize None clients.

Definition markClientIdle (c : nat) (clients : gmap nat bool) : gmap nat bool :=
  match clients !! c with
  | Some _ => <[c := true]> clients
  | None => clients
  end.

Definition closeClient (c : nat) (p : dbpool) : dbpool :=
  set_clients (delete c (dp_clients p)) (delete c (dp_conn p)) p.

Definition getConnState (p : dbpool) (c : nat) : bool := default false (dp_conn p !! c).

(** The answer [RESP_RC_NO_AVAIL_CLT]. *)
Definition retryFailure (r : dbreq) (p : dbpool) : dbpool := logs (Responded (req_id r) None) p.

(** What a worker does with a request that found no connection. *)
Definition no_client (r : dbreq) (p : dbpool) : dbpool :=
  if MaxRetryTimes <=? retry_times r then retryFailure r p
  else set_queue (SafeQueue.requeue (dp_queue p) (MkDbReq (req_id r) (retry_times r + 1) (body r))) p.

(** One worker goes from a phase to the next. *)
Inductive wstep (p : dbpool) : phase -> phase -> dbpool -> Prop :=
| ws_pop rc r q : SafeQueue.pop_timeout_wake (dp_queue p) = (rc, Some r, q) ->
    wstep p Waiting (Popped r) (set_queue q p)
| ws_timeout q : SafeQueue.pop_timeout_wake (dp_queue p) = (SafeQueue.SQ_TIMEOUT, None, q) -> wstep p Waiting Waiting p
| ws_exit q : SafeQueue.pop_timeout_wake (dp_queue p) = (SafeQueue.SQ_EXIT, None, q) -> wstep p Waiting Exited p
| ws_idle r c m : idle_client (dp_clients p) (dp_poolSize p) (Some (c, false)) m ->
    wstep p (Popped r) (Ready r (Some c)) (set_clients m (dp_conn p) p)
| ws_new r c m : idle_client (dp_clients p) (dp_poolSize p) (Some (c, true)) m ->
    wstep p (Popped r) (Connecting r c) (set_clients m (<[c := false]> (dp_conn p)) p)
| ws_none r : idle_client (dp_clients p) (dp_poolSize p) None (dp_clients p) ->
    wstep p (Popped r) (Ready r None) p
| ws_connected r c : wstep p (Connecting r c) (Ready r (Some c)) (set_clients (dp_clients p) (<[c := true]> (dp_conn p)) p)
| ws_refused r c : wstep p (Connecting r c) (Ready r None) (closeClient c p)
| ws_handle r c a b : getConnState p c = true ->
    wstep p (Ready r (Some c)) (Ran c)
      (logs (Responded (req_id r) (Some a)) (set_clients (dp_clients p) (<[c := b]> (dp_conn p)) p))
| ws_close r c : getConnState p c = false -> wstep p (Ready r (Some c)) (Ready r None) (closeClient c p)
| ws_retry r : wstep p (Ready r None) Waiting (no_client r p)
| ws_release c : getConnState p c = true ->
    wstep p (Ran c) Waiting (set_clients (markClientIdle c (dp_clients p)) (dp_conn p) p)
| ws_lost c : getConnState p c = false -> wstep p (Ran c) Waiting (closeClient c p).

(** Every connection is closed and released. *)
Definition uninitPool (p : dbpool) : dbpool := set_clients ∅ ∅ p.

Definition all_exited (p : dbpool) : Prop := Forall (eq Exited) (dp_workers p).

Inductive pstep : dbpool -> dbpool -> Prop :=
| ps_id p r : dp_reqId p < 2 ^ 64 - 1 -> pstep p (submit_id r p)
| ps_push p t1 x t2 : dp_taken p = t1 ++ x :: t2 -> pstep p (snd (submit_push x (set_taken (t1 ++ t2) p)))
| ps_worker p p' l1 w w' l2 : dp_workers p = l1 ++ w :: l2 -> wstep p w w' p' ->
    pstep p (set_workers (l1 ++ w' :: l2) p')
| ps_stop p : pstep p (set_queue (SafeQueue.stop (dp_queue p)) p)
(* serveUtilStop, once the workers are joined: the queue is emptied, then the connections *)
| ps_drain p r q : all_exited p -> SafeQueue.raw_pop (dp_queue p) = (Some r, q) ->
    pstep p (logs (Dropped (req_id r)) (set_queue q p))
| ps_uninit p : all_exited p -> pstep p (uninitPool p).

Definition reachable (p : dbpool) : Prop := exists poolSize, rtc pstep (start poolSize new_pool) p.

(** ** What the pool holds *)

Definition held (w : phase) : list dbreq :=
  match w with
  | Popped r | Connecting r _ | Ready r _ => [r]
  | _ => []
  end.
Definition holds (w : phase) : list nat :=
  match w with
  | Connecting _ c | Ready _ (Some c) | Ran c => [c]
  | _ => []
  end.
Definition submitted (l : list event) : list Z := omap (fun e => match e with Submitted id => Some id | _ => None end) l.
(** The requests that are done with. *)
Definition settled (l : list event) : list Z :=
  omap (fun e => match e with Responded id _ | Dropped id => Some id | _ => None end) l.

Definition pending (p : dbpool) : list dbreq := SafeQueue._queue (dp_queue p) ++ concat (map held (dp_workers p)).
Definition holders (p : dbpool) : list nat := concat (map holds (dp_workers p)).

Record pool_inv (p : dbpool) : Prop := {
  pi_next : MinReqId <= dp_reqId p < 2 ^ 64;
  pi_ids : forall id, id ∈ map req_id (dp_taken p) ++ submitted (dp_log p) -> MinReqId <= id < dp_reqId p;
  pi_once : NoDup (map req_id (dp_taken p) ++ submitted (dp_log p));
  (* every accepted request is waiting, held by a worker, or settled *)
  pi_where : submitted (dp_log p) ≡ₚ map req_id (pending p) ++ settled (dp_log p);
  pi_retries : Forall (fun r => 0 <= retry_times r <= MaxRetryTimes) (dp_taken p ++ pending p);
  (* every connection in use has one worker; the idle ones are connected *)
  pi_holders : NoDup (holders p);
  pi_busy : forall c, c ∈ holders p <-> dp_clients p !! c = Some false;
  pi_idle : forall c, dp_clients p !! c = Some true -> getConnState p c = true;
  pi_size : Z.of_nat (base.size (dp_clients p)) <= dp_poolSize p;
  pi_ready : forall r c, Ready r (Some c) ∈ dp_workers p -> getConnState p c = true;
}.

Lemma concat_split {X Y} (f : X -> list Y) l1 x l2 :
  concat (map f (l1 ++ x :: l2)) ≡ₚ f x ++ concat (map f (l1 ++ l2)).
Proof. rewrite !map_app, !concat_app. cbn. solve_Permutation. Qed.

(** The requests of a pool one of whose workers changes phase. *)
Lemma pending_set p l1 w l2 :
  pending (set_workers (l1 ++ w :: l2) p) ≡ₚ
  SafeQueue._queue (dp_queue p) ++ held w ++ concat (map held (l1 ++ l2)).
Proof. unfold pending. cbn [dp_queue dp_workers set_workers]. by rewrite concat_split. Qed.

Lemma holders_set p l1 w l2 :
  holders (set_workers (l1 ++ w :: l2) p) ≡ₚ holds w ++ concat (map holds (l1 ++ l2)).
Proof. unfold holders. cbn [dp_workers set_workers]. by rewrite concat_split. Qed.

Lemma submitted_app l l' : submitted (l ++ l') = submitted l ++ submitted l'.
Proof. apply omap_app. Qed.
Lemma settled_app l l' : settled (l ++ l') = settled l ++ settled l'.
Proof. apply omap_app. Qed.

(** ** Requests *)

(** The part of the invariant that is about requests: [taken] are those that have
    only their id, [pend] those that wait or that workers hold. *)
Record req_inv (next : Z) (taken pend : list dbreq) (log : list event) : Prop := {
  ri_next : MinReqId <= next < 2 ^ 64;
  ri_ids : forall id, id ∈ map req_id taken ++ submitted log -> MinReqId <= id < next;
  ri_once : NoDup (map req_id taken ++ submitted log);
  ri_where : submitted log ≡ₚ map req_id pend ++ settled log;
  ri_retries : Forall (fun r => 0 <= retry_times r <= MaxRetryTimes) (taken ++ pend);
}.

(** Requests change hands, or are settled. *)
Lemma req_step n taken pend log pend' e :
  req_inv n taken pend log -> submitted e = [] -> map req_id pend ≡ₚ map req_id pend' ++ settled e ->
  Forall (fun r => 0 <= retry_times r <= MaxRetryTimes) pend' -> req_inv n taken pend' (log ++ e).
Proof.
  intros [H1 H2 H3 H4 H5] He Hp Hr. split; rewrite ?submitted_app, ?settled_app, ?He, ?app_nil_r; try done.
  - rewrite H4, Hp. solve_Permutation.
  - apply Forall_app in H5 as [H5 _]. by apply Forall_app.
Qed.

Lemma req_perm n taken pend log pend' : req_inv n taken pend log -> pend ≡ₚ pend' -> req_inv n taken pend' log.
Proof. intros [H1 H2 H3 H4 H5] Hp. split; try done; by rewrite <- Hp. Qed.

(** An id is given out. *)
Lemma req_take n taken pend log r : req_inv n taken pend log -> n < 2 ^ 64 - 1 ->
  req_inv (n + 1) (taken ++ [MkDbReq n 0 r]) pend log.
Proof.
  intros [H1 H2 H3 H4 H5] Hn. unfold MinReqId in *. assert (n ∉ map req_id taken ++ submitted log) as Hf by (intros ?%H2; lia).
  split; try done; rewrite ?map_app; cbn [map req_id]; unfold MinReqId; try lia.
  - intros id Hid. assert (id ∈ map req_id taken ++ submitted log \/ id = n) as [?%H2| ->] by set_solver; lia.
  - rewrite (Permutation_app_comm (map req_id taken) [n]), <- app_assoc. by constructor.
  - rewrite <- app_assoc. apply Forall_app in H5 as [H5 H5']. apply Forall_app. split; [done|]. constructor; [|done].
    cbn. unfold MaxRetryTimes. lia.
Qed.

(** The push: accepted, or not. *)
Lemma req_accept n t1 x t2 pend log : req_inv n (t1 ++ x :: t2) pend log ->
  req_inv n (t1 ++ t2) (x :: pend) (log ++ [Submitted (req_id x)]).
Proof.
  assert (forall l : list Z, map req_id (t1 ++ x :: t2) ++ l ≡ₚ map req_id (t1 ++ t2) ++ l ++ [req_id x]) as Hp
    by (intros l; rewrite !map_app; cbn [map]; solve_Permutation).
  intros [H1 H2 H3 H4 H5]. rewrite Hp in H3. setoid_rewrite Hp in H2.
  assert (submitted [Submitted (req_id x)] = [req_id x] /\ settled [Submitted (req_id x)] = []) as [E1 E2] by done.
  split; rewrite ?submitted_app, ?settled_app, ?E1, ?E2, ?app_nil_r; try done.
  - rewrite H4. cbn. solve_Permutation.
  - assert ((t1 ++ t2) ++ x :: pend ≡ₚ (t1 ++ x :: t2) ++ pend) as -> by solve_Permutation. done.
Qed.

Lemma req_busy n t1 x t2 pend log : req_inv n (t1 ++ x :: t2) pend log ->
  req_inv n (t1 ++ t2) pend (log ++ [Busy (req_id x)]).
Proof.
  assert (forall l : list Z, map req_id (t1 ++ x :: t2) ++ l ≡ₚ req_id x :: map req_id (t1 ++ t2) ++ l) as Hp
    by (intros l; rewrite !map_app; cbn [map]; solve_Permutation).
  intros [H1 H2 H3 H4 H5]. rewrite Hp in H3. setoid_rewrite Hp in H2. apply NoDup_cons in H3 as [_ H3].
  assert (submitted [Busy (req_id x)] = [] /\ settled [Busy (req_id x)] = []) as [E1 E2] by done.
  split; rewrite ?submitted_app, ?settled_app, ?E1, ?E2, ?app_nil_r; try done.
  - intros id Hid. apply H2. by right.
  - assert ((t1 ++ x :: t2) ++ pend ≡ₚ x :: (t1 ++ t2) ++ pend) as Hp' by solve_Permutation. rewrite Hp' in H5.
    by apply Forall_cons in H5 as [_ H5].
Qed.

(** What a worker's step does to the requests: those it and the queue hold are
    settled, or still there. *)
Lemma wstep_requests p w w' p' :
  wstep p w w' p' -> dp_reqId p' = dp_reqId p /\ dp_taken p' = dp_taken p /\
  exists e, dp_log p' = dp_log p ++ e /\ submitted e = [] /\ (length (settled e) <= 1)%nat /\
  map req_id (SafeQueue._queue (dp_queue p) ++ held w) ≡ₚ
  map req_id (SafeQueue._queue (dp_queue p') ++ held w') ++ settled e.
Proof.
  assert (forall q (r : dbreq) q' rc, SafeQueue.pop_timeout_wake q = (rc, Some r, q') ->
    SafeQueue._queue q = r :: SafeQueue._queue q') as Hpop.
  { intros q r q' rc H%SafeQueue.pop_wake_spec. by destruct H as [<- _]. }
  intros [rc r q E| | |r c m _|r c m _|r _|r c|r c|r c a b _|r c _|r|c _|c _];
    try (cbn; split; [done|]; split; [done|]; exists []; rewrite !app_nil_r; split_and!; (done || cbn; lia)).
  - split; [done|]. split; [done|]. exists []. cbn. rewrite !app_nil_r. apply Hpop in E as ->. rewrite map_app. cbn.
    split_and!; try done; [lia|]. by rewrite Permutation_app_comm.
  - split; [done|]. split; [done|]. eexists. split; [done|]. split; [done|]. split; [done|]. cbn. by rewrite app_nil_r, map_app.
  - unfold no_client. case_if; cbn.
    + split; [done|]. split; [done|]. eexists. split; [done|]. split; [done|]. split; [done|]. cbn. by rewrite app_nil_r, map_app.
    + split; [done|]. split; [done|]. exists []. cbn. rewrite !app_nil_r, map_app. split_and!; try done; [lia|]. cbn.
      by rewrite Permutation_app_comm.
Qed.

Lemma wstep_retries p w w' p' (ok : dbreq -> Prop) :
  (forall r, ok r <-> 0 <= retry_times r <= MaxRetryTimes) ->
  wstep p w w' p' -> Forall ok (SafeQueue._queue (dp_queue p) ++ held w) ->
  Forall ok (SafeQueue._queue (dp_queue p') ++ held w').
Proof.
  intros Hok. rewrite !Forall_app.
  intros [rc r q E| | |r c m _|r c m _|r _|r c|r c|r c a b _|r c _|r|c _|c _] [H1 H2];
    try (cbn in *; split; [done|]; first [done|by repeat constructor]).
  - apply SafeQueue.pop_wake_spec in E as [Hq _]. cbn in *. rewrite <- Hq in H1. apply Forall_cons in H1 as [? ?].
    split; [done|by repeat constructor].
  - unfold no_client. case_if; cbn; split; try done; try by repeat constructor.
    constructor; [|done]. cbn in H2. apply Forall_cons in H2 as [H2 _]. apply Hok in H2. apply Hok. bool_Z. cbn. lia.
Qed.

(** ** Connections *)

Record clients_ok (hs : list nat) (size : Z) (m conn : gmap nat bool) : Prop := {
  co_nodup : NoDup hs;
  co_busy : forall c, c ∈ hs <-> m !! c = Some false;
  co_idle : forall c, m !! c = Some true -> default false (conn !! c) = true;
  co_size : Z.of_nat (base.size m) <= size;
}.

Lemma clients_perm hs hs' size m conn : hs ≡ₚ hs' -> clients_ok hs size m conn -> clients_ok hs' size m conn.
Proof. intros He [H1 H2 H3 H4]. split; try done; [by rewrite <- He|]. intros c. by rewrite <- He. Qed.

(** A connection is taken: an idle one, or a new one below the limit. *)
Lemma clients_take hs size m conn conn' c :
  clients_ok hs size m conn -> m !! c <> Some false -> (forall c', c' <> c -> conn' !! c' = conn !! c') ->
  Z.of_nat (base.size (<[c:=false]> m)) <= size -> clients_ok (c :: hs) size (<[c:=false]> m) conn'.
Proof.
  intros [H1 H2 H3 H4] Hc Hconn Hs. split; try done.
  - constructor; [|done]. by intros ?%H2.
  - intros c'. rewrite elem_of_cons, H2, lookup_insert. case_decide; naive_solver.
  - intros c'. rewrite lookup_insert. case_decide; [done|]. rewrite Hconn by done. apply H3.
Qed.

(** A connection is closed. *)
Lemma clients_close hs size m conn c :
  clients_ok (c :: hs) size m conn -> clients_ok hs size (delete c m) (delete c conn).
Proof.
  intros [H1 H2 H3 H4]. apply NoDup_cons in H1 as [Hc H1]. split; try done.
  - intros c'. rewrite lookup_delete. case_decide; [naive_solver|]. rewrite <- H2, elem_of_cons. naive_solver.
  - intros c'. rewrite !lookup_delete. case_decide; [done|]. apply H3.
  - rewrite map_size_delete. destruct (m !! c); cbn [id]; lia.
Qed.

(** Nothing but the state of a connection in use changes. *)
Lemma clients_conn hs size m conn c b :
  clients_ok hs size m conn -> c ∈ hs -> clients_ok hs size m (<[c := b]> conn).
Proof.
  intros [H1 H2 H3 H4] Hc%H2. split; try done. intros c' Ht. rewrite lookup_insert. case_decide; [congruence|auto].
Qed.

(** A connection is given back. *)
Lemma clients_free hs size m conn c :
  clients_ok (c :: hs) size m conn -> default false (conn !! c) = true -> clients_ok hs size (markClientIdle c m) conn.
Proof.
  intros [H1 H2 H3 H4] Hconn. apply NoDup_cons in H1 as [Hc H1].
  assert (m !! c = Some false) as Hm by (apply H2; set_solver). unfold markClientIdle. rewrite Hm. split; try done.
  - intros c'. rewrite lookup_insert. case_decide; [naive_solver|]. rewrite <- H2, elem_of_cons. naive_solver.
  - intros c'. rewrite lookup_insert. case_decide; [by subst|apply H3].
  - rewrite map_size_insert_Some by done. lia.
Qed.

Lemma wstep_clients p w w' p' others :
  wstep p w w' p' -> clients_ok (holds w ++ others) (dp_poolSize p) (dp_clients p) (dp_conn p) ->
  dp_poolSize p' = dp_poolSize p /\ clients_ok (holds w' ++ others) (dp_poolSize p') (dp_clients p') (dp_conn p').
Proof.
  intros [rc r q _| | |r c m Hi|r c m Hi|r _|r c|r c|r c a b _|r c _|r|c Hc|c _] Hok; cbn in *; try done.
  - inversion Hi as [c' Hc E1 E2| |]; subst. split; [done|]. apply (clients_take _ _ _ (dp_conn p)); try done; [congruence|].
    rewrite map_size_insert_Some by done. apply Hok.
  - inversion Hi as [|c' _ Hs Hc E1 E2|]; subst. split; [done|]. apply (clients_take _ _ _ (dp_conn p)); try done; [congruence| |].
    + intros c' Hne. by rewrite lookup_insert_ne.
    + rewrite map_size_insert_None by done. lia.
  - split; [done|]. apply clients_conn; [done|set_solver].
  - split; [done|]. by apply clients_close.
  - split; [done|]. apply clients_conn; [done|set_solver].
  - split; [done|]. by apply clients_close.
  - unfold no_client. by case_if.
  - split; [done|]. by apply clients_free.
  - split; [done|]. by apply clients_close.
Qed.

(** A worker's step leaves the connections of the others as they were. *)
Lemma wstep_conn p w w' p' c :
  wstep p w w' p' -> dp_clients p !! c = Some false -> c ∉ holds w -> getConnState p' c = getConnState p c.
Proof.
  unfold getConnState.
  intros [rc r q _| | |r c' m Hi|r c' m Hi|r _|r c'|r c'|r c' a b _|r c' _|r|c' Hc|c' _] Hok Hn; cbn in *; try done;
    try (rewrite ?lookup_insert_ne, ?lookup_delete_ne by set_solver; done).
  - inversion Hi; subst. rewrite lookup_insert_ne; [done|]. congruence.
  - unfold no_client. by case_if.
Qed.

Lemma wstep_ready p w w' p' r c :
  wstep p w w' p' -> w' = Ready r (Some c) -> (forall c, dp_clients p !! c = Some true -> getConnState p c = true) ->
  getConnState p' c = true.
Proof.
  intros Hs -> Hi. inversion Hs as [| | |? ? m Hic| | |? ?|? ?|? ? ? ?|? ? ?|?|? ?|? ?]; subst; cbn.
  - inversion Hic; subst. by apply Hi.
  - unfold getConnState. cbn. by rewrite lookup_insert_eq.
Qed.

(** ** Every run *)

Lemma inv_clients p : pool_inv p <->
  req_inv (dp_reqId p) (dp_taken p) (pending p) (dp_log p) /\
  clients_ok (holders p) (dp_poolSize p) (dp_clients p) (dp_conn p) /\
  (forall r c, Ready r (Some c) ∈ dp_workers p -> getConnState p c = true).
Proof.
  split.
  - intros [H1 H2 H3 H4 H5 H6 H7 H8 H9 H10]. split; [by split|]. split; [by split|done].
  - intros ([H1 H2 H3 H4 H5] & [H6 H7 H8 H9] & H10). by split.
Qed.

Lemma worker_inv p p' l1 w w' l2 :
  pool_inv p -> dp_workers p = l1 ++ w :: l2 -> wstep p w w' p' -> pool_inv (set_workers (l1 ++ w' :: l2) p').
Proof.
  rewrite !inv_clients. intros (Hq & Hc & Hr) Hw Hs.
  assert (p = set_workers (l1 ++ w :: l2) p) as Hp by (destruct p; cbn in *; by rewrite Hw).
  set (others := concat (map held (l1 ++ l2))).
  assert (pending p ≡ₚ (SafeQueue._queue (dp_queue p) ++ held w) ++ others) as Hpe
    by (rewrite Hp at 1; rewrite pending_set, app_assoc; done).
  assert (holders p ≡ₚ holds w ++ concat (map holds (l1 ++ l2))) as Hho by (rewrite Hp at 1; apply holders_set).
  destruct (wstep_requests _ _ _ _ Hs) as (Hid & Htk & e & Hl & Hse & _ & Hre). split; [|split].
  - assert (dp_reqId (set_workers (l1 ++ w' :: l2) p') = dp_reqId p' /\ dp_log (set_workers (l1 ++ w' :: l2) p') = dp_log p' /\
      dp_taken (set_workers (l1 ++ w' :: l2) p') = dp_taken p')
      as (-> & -> & ->) by done. rewrite Hid, Htk, Hl. apply (req_perm _ _ ((SafeQueue._queue (dp_queue p') ++ held w') ++ others));
      [|by rewrite pending_set, app_assoc].
    pose proof (ri_retries _ _ _ _ Hq) as H5. apply Forall_app in H5 as [_ H5]. rewrite Hpe, Forall_app in H5. destruct H5 as [H5 H5'].
    eapply req_step; [exact Hq|done| |].
    + rewrite Hpe, !(map_app _ _ others), Hre. solve_Permutation.
    + rewrite Forall_app. split; [|done]. by eapply (wstep_retries p w w' p').
  - apply (clients_perm _ _ _ _ _ Hho) in Hc.
    destruct (wstep_clients _ _ _ _ _ Hs Hc) as [_ Hc']. eapply clients_perm; [|exact Hc']. by rewrite holders_set.
  - intros r c Hin. change (getConnState p' c = true). apply elem_of_app in Hin. rewrite elem_of_cons in Hin.
    assert (w' = Ready r (Some c) \/ Ready r (Some c) ∈ l1 ++ l2) as [Hw'|Hin'] by set_solver.
    + eapply wstep_ready; [exact Hs|exact Hw'|]. apply Hc.
    + assert (c ∈ concat (map holds (l1 ++ l2))) as Hcin.
      { apply list_elem_of_In, in_concat. exists [c]. split; [|by left].
        change [c] with (holds (Ready r (Some c))). by apply in_map, list_elem_of_In. }
      assert (Ready r (Some c) ∈ dp_workers p) as Hold by (rewrite Hw; set_solver).
      rewrite (wstep_conn _ _ _ _ _ Hs); [by eapply Hr| |].
      * apply (co_busy _ _ _ _ Hc). rewrite Hho. set_solver.
      * intros Hcw. pose proof (co_nodup _ _ _ _ Hc) as Hnd. rewrite Hho in Hnd. apply NoDup_app in Hnd as (_ & Hd & _).
        by eapply Hd.
Qed.

Lemma exited_pending p : all_exited p -> pending p = SafeQueue._queue (dp_queue p) /\ holders p = [].
Proof.
  unfold all_exited, pending, holders. intros H. induction H as [|x l <- _ [IH1 IH2]]; cbn; [by rewrite app_nil_r|]. done.
Qed.

Lemma dp_step_inv p p' : pool_inv p -> pstep p p' -> pool_inv p'.
Proof.
  intros Hinv Hs. destruct Hs as [p r Hlt|p t1 x t2 Ht|p p' l1 w w' l2 Hw Hs|p|p r q He Hq|p He].
  - apply inv_clients in Hinv as (Hq & Hc & Hr). pose proof (ri_next _ _ _ _ Hq) as Hb. unfold MinReqId in *.
    assert (wrap 64 (dp_reqId p + 1) = dp_reqId p + 1) as Hwr by (apply wrap_id; unfold in_uint; lia).
    unfold submit_id, genRequestId. apply inv_clients. split; [|by split]. cbn. rewrite Hwr.
    by apply (req_take _ (dp_taken p) (pending p) _ r).
  - apply inv_clients in Hinv as (Hq & Hc & Hr). rewrite Ht in Hq. unfold submit_push.
    destruct (SafeQueue.push MaxPendingReq _ _) as [ok q] eqn:Ep. unfold SafeQueue.push in Ep. cbn [dp_queue set_taken] in Ep.
    destruct ok; case_if; simplify_eq; apply inv_clients; (split; [|by split]); cbn.
    + eapply req_perm; [by apply req_accept|]. unfold pending. cbn. solve_Permutation.
    + by apply req_busy.
  - by eapply worker_inv.
  - destruct Hinv. by split.
  - apply inv_clients in Hinv as (Hi & Hc & Hr). apply inv_clients. split; [|by split].
    apply SafeQueue.raw_pop_spec in Hq as [Hq _]. pose proof (ri_retries _ _ _ _ Hi) as H5. apply Forall_app in H5 as [_ H5]. unfold pending in *. rewrite <- Hq in *.
    eapply req_step; [exact Hi|done| |by apply Forall_cons in H5 as [_ ?]]. cbn. by rewrite <- Permutation_cons_append.
  - destruct (exited_pending p He) as [_ Hh]. destruct Hinv as [H1 H2 H3 H4 H5 H6 H7 H8 H9 H10].
    split; cbn; try done.
    + intros c. split; [|done]. intros Hin. change (c ∈ holders p) in Hin. rewrite Hh in Hin. by apply not_elem_of_nil in Hin.
    + rewrite map_size_empty. cbn. lia.
    + intros r c Hin. unfold all_exited in He. rewrite Forall_forall in He. by apply He in Hin.
Qed.

Lemma dp_start_inv poolSize : pool_inv (start poolSize new_pool).
Proof.
  assert (forall n, pending (MkPool SafeQueue.empty_queue 0 0 ∅ ∅ (replicate n Waiting) [] []) = [] /\
    holders (MkPool SafeQueue.empty_queue 0 0 ∅ ∅ (replicate n Waiting) [] []) = []) as Hr.
  { intros n. unfold pending, holders. cbn. by induction n. }
  unfold start, new_pool. destruct (Hr (Z.to_nat (Z.min (Z.max poolSize 1) 16))) as [Hp Hh].
  unfold pending, holders in *. cbn in *. split; unfold pending, holders; cbn; rewrite ?Hp, ?Hh; try done.
  - intros id Hid. by apply not_elem_of_nil in Hid.
  - apply NoDup_nil_2.
  - apply NoDup_nil_2.
  - intros c. split; [by intros ?%not_elem_of_nil|done].
  - rewrite map_size_empty. lia.
  - intros r c Hin. by apply elem_of_replicate in Hin as [? _].
Qed.

Lemma pool_size_const p p' : pstep p p' -> dp_poolSize p' = dp_poolSize p.
Proof.
  intros Hs. destruct Hs as [p r _|p t1 x t2 _|p p' l1 w w' l2 _ Hs| | |]; try done.
  - unfold submit_push. destruct (SafeQueue.push MaxPendingReq _ _) as [[] q]; done.
  - cbn. destruct Hs; try done. cbn. unfold no_client. by case_if.
Qed.

Lemma dp_reachable_inv p : reachable p -> pool_inv p /\ dp_poolSize p <= 16.
Proof.
  intros (n & Hr). assert (dp_poolSize (start n new_pool) <= 16) as Hn by (cbn; lia). pose proof (dp_start_inv n) as Hi.
  induction Hr as [|x y z Hxy _ IH]; [done|]. apply IH; [by rewrite (pool_size_const _ _ Hxy)|by eapply dp_step_inv].
Qed.

(** ** Properties *)

(** C15: a request is answered at most once. Whatever the submitting threads, the
    workers and the databases do, no id is given out twice, and every accepted
    request is in exactly one place: in the queue, with one worker, or settled,
    which is to say answered once or dropped once by the shutdown. *)
Theorem pool_exactly_once p :
  reachable p ->
  NoDup (submitted (dp_log p)) /\ submitted (dp_log p) ≡ₚ map req_id (pending p) ++ settled (dp_log p) /\
  NoDup (settled (dp_log p)) /\
  (all_exited p -> SafeQueue._queue (dp_queue p) = [] -> submitted (dp_log p) ≡ₚ settled (dp_log p)).
Proof.
  intros [Hinv _]%dp_reachable_inv. pose proof (pi_once _ Hinv) as Hn. pose proof (pi_where _ Hinv) as Hw.
  apply NoDup_app in Hn as (_ & _ & Hn).
  split; [done|]. split; [done|]. split.
  - rewrite Hw in Hn. by apply NoDup_app in Hn as (_ & _ & ?).
  - intros He Hq. destruct (exited_pending p He) as [Hp _]. by rewrite Hw, Hp, Hq.
Qed.

(** a connection serves one worker at a time. Each connection in use is held
    by exactly one worker, there are never more connections than the pool was
    given, at most 16, and a request is only run, or a connection kept, when the
    connection is up. *)
Theorem pool_connections p :
  reachable p ->
  NoDup (holders p) /\ (forall c, c ∈ holders p <-> dp_clients p !! c = Some false) /\
  Z.of_nat (base.size (dp_clients p)) <= dp_poolSize p <= 16 /\
  (forall c, dp_clients p !! c = Some true -> getConnState p c = true) /\
  (forall r c, Ready r (Some c) ∈ dp_workers p -> getConnState p c = true).
Proof.
  intros [Hinv Hs]%dp_reachable_inv. destruct Hinv as [H1 H2 H3 H4 H5 H6 H7 H8 H9 H10]. split_and!; done.
Qed.

(** a request without a connection goes back to the head of the queue, three
    times and no more: the worker that then finds none answers
    [RESP_RC_NO_AVAIL_CLT]. *)
Theorem retries_bounded p r l1 l2 :
  reachable p -> dp_workers p = l1 ++ Ready r None :: l2 ->
  0 <= retry_times r <= 3 /\
  if retry_times r =? 3
  then dp_log (no_client r p) = dp_log p ++ [Responded (req_id r) None] /\ dp_queue (no_client r p) = dp_queue p
  else dp_log (no_client r p) = dp_log p /\
       SafeQueue._queue (dp_queue (no_client r p)) = MkDbReq (req_id r) (retry_times r + 1) (body r) :: SafeQueue._queue (dp_queue p).
Proof.
  intros [Hinv _]%dp_reachable_inv Hw. pose proof (pi_retries _ Hinv) as Hr. apply Forall_app in Hr as [_ Hr]. unfold pending in Hr.
  rewrite Hw, map_app, concat_app in Hr. cbn in Hr. rewrite !Forall_app, Forall_cons in Hr.
  destruct Hr as (_ & _ & Hr & _). unfold MaxRetryTimes in Hr. split; [done|]. unfold no_client, MaxRetryTimes.
  destruct (Z.eqb_spec (retry_times r) 3) as [->|Hne]; [done|]. rewrite (proj2 (Z.leb_gt _ _)) by lia. done.
Qed.

Definition answered (l : list event) : list Z := omap (fun e => match e with Responded id _ => Some id | _ => None end) l.

(** a pool that was stopped goes on accepting. Once its workers have
    returned, a submission to a queue that is not full still gets an id, as if
    it were under way, and is never answered. *)
Theorem late_submit_unanswered p r p' :
  all_exited p -> size_of (SafeQueue._queue (dp_queue p)) < MaxPendingReq ->
  let '(rc, p1) := submit r p in
  rc = dp_reqId p /\ dp_log p1 = dp_log p ++ [Submitted rc] /\
  (rtc pstep p1 p' -> answered (dp_log p') = answered (dp_log p)).
Proof.
  intros He Hq. unfold submit, genRequestId, submit_push, SafeQueue.push. cbn [dp_queue].
  rewrite (proj2 (Z.ltb_lt _ _) Hq). split; [done|]. split; [done|]. set (p1 := logs _ _).
  assert (all_exited p1 /\ answered (dp_log p1) = answered (dp_log p)) as [He1 <-].
  { split; [exact He|]. unfold answered. cbn. by rewrite omap_app, app_nil_r. }
  intros Hr. induction Hr as [|x y z Hxy _ IH]; [done|].
  assert (all_exited y /\ answered (dp_log y) = answered (dp_log x)) as [Hey <-]; [|by apply IH].
  destruct Hxy as [x r' _|x t1 z' t2 _|x y l1 w w' l2 Hw Hs|x|x r' q _ _|x _]; try done.
  - unfold submit_push. destruct (SafeQueue.push MaxPendingReq _ _) as [[] q]; (split; [exact He1|]);
      unfold answered; cbn; by rewrite omap_app, app_nil_r.
  - exfalso. unfold all_exited in He1. rewrite Hw, Forall_app, Forall_cons in He1. destruct He1 as (_ & <- & _).
    inversion Hs.
  - split; [exact He1|]. unfold answered. cbn. by rewrite omap_app, app_nil_r.
Qed.

End pool.
Arguments dbpool : clear implicits.

(** [submit] without an interruption is two steps. *)
Lemma submit_steps {R A} (r : R) (p : dbpool R A) : dp_reqId p < 2 ^ 64 - 1 -> rtc pstep p (snd (submit r p)).
Proof.
  intros Hlt. eapply rtc_l; [by apply (ps_id p r)|]. apply rtc_once.
  pose proof (ps_push (submit_id r p) (dp_taken p) (MkDbReq (dp_reqId p) 0 r) [] eq_refl) as Hs. rewrite app_nil_r in Hs. exact Hs.
Qed.

(** [redis_client_pool]: the same program, on the requests and responses of
    Redis. *)
Section redis.
Context {R A : Type}.
Abbreviation redis_pool := (dbpool R A).

Definition redis_new_pool : redis_pool := new_pool.
Definition redis_start : Z -> redis_pool -> redis_pool := start.
Definition redis_genRequestId : redis_pool -> Z * redis_pool := genRequestId.
Definition redis_submit_id : R -> redis_pool -> redis_pool := submit_id.
Definition redis_submit_push : dbreq -> redis_pool -> Z * redis_pool := submit_push.
Definition redis_submit : R -> redis_pool -> Z * redis_pool := submit.
Definition redis_getIdleClient := idle_client.
Definition redis_markClientIdle := markClientIdle.
Definition redis_closeClient : nat -> redis_pool -> redis_pool := closeClient.
Definition redis_retryFailure : dbreq -> redis_pool -> redis_pool := retryFailure.
Definition redis_uninitPool : redis_pool -> redis_pool := uninitPool.
Definition redis_no_client : dbreq -> redis_pool -> redis_pool := no_client.
Definition redis_worker : redis_pool -> phase -> phase -> redis_pool -> Prop := wstep.
Definition redis_pstep : redis_pool -> redis_pool -> Prop := pstep.
End redis.

(** ** Witnesses: one worker, whose connection is refused *)

Abbreviation demo := (dbpool nat nat).

Definition demo_start : demo := start 1 new_pool.
Definition demo_submitted : demo := snd (submit 7%nat demo_start).
Definition demo_req : dbreq := MkDbReq 100 0 7%nat.
Definition demo_refused : demo :=
  set_workers [Ready demo_req None] (set_clients ∅ ∅ (set_queue SafeQueue.empty_queue demo_submitted)).
Definition demo_exited : demo := set_workers [Exited] (set_queue (SafeQueue.stop SafeQueue.empty_queue) demo_start).

Lemma demo_submitted_reachable : reachable demo_submitted.
Proof. exists 1. apply submit_steps. reflexivity. Qed.

Lemma demo_refused_reachable : reachable demo_refused.
Proof.
  destruct demo_submitted_reachable as [n Hr]. exists n. etrans; [exact Hr|].
  eapply rtc_l; [exact (ps_worker demo_submitted _ [] _ _ [] eq_refl
    (ws_pop demo_submitted SafeQueue.SQ_POP_SUCCESS demo_req SafeQueue.empty_queue eq_refl))|].
  eapply rtc_l.
  - eapply (ps_worker _ _ [] (Popped demo_req) (Connecting demo_req 0%nat) []); [reflexivity|].
    apply (ws_new _ demo_req 0%nat {[0%nat := false]}). apply (ic_new ∅ 1 0%nat); done.
  - eapply rtc_l; [|apply rtc_refl].
    exact (ps_worker (set_workers [Connecting demo_req 0%nat] (set_clients {[0%nat := false]} {[0%nat := false]}
      (set_queue SafeQueue.empty_queue demo_submitted))) _ [] _ _ [] eq_refl (ws_refused _ demo_req 0%nat)).
Qed.

Lemma pool_exactly_once_witness :
  NoDup (settled (dp_log demo_refused)) /\ submitted (dp_log demo_refused) ≡ₚ map req_id (pending demo_refused).
Proof.
  destruct (pool_exactly_once demo_refused demo_refused_reachable) as (_ & Hw & Hn & _).
  split; [exact Hn|]. cbn in Hw. exact Hw.
Defined.

Lemma pool_connections_witness : Z.of_nat (base.size (dp_clients demo_refused)) <= 16.
Proof. destruct (pool_connections demo_refused demo_refused_reachable) as (_ & _ & [H1 H2] & _). lia. Defined.

Lemma retries_bounded_witness :
  SafeQueue._queue (dp_queue (no_client demo_req demo_refused)) = [MkDbReq 100 1 7%nat].
Proof. apply (retries_bounded demo_refused demo_req [] [] demo_refused_reachable eq_refl). Defined.

Lemma late_submit_unanswered_witness : fst (submit 7%nat demo_exited) = 100.
Proof.
  pose proof (late_submit_unanswered demo_exited 7%nat demo_exited ltac:(repeat constructor) eq_refl) as H.
  destruct (submit 7%nat demo_exited) as [rc p1]. destruct H as [-> _]. reflexivity.
Defined.
