(* ===== verification/DbDirect.v ===== *)
(** * Queries in the caller's thread ([mysql_client_pool::execQuery] of
      [wjp/mysql_client.hpp])

    Any thread may take a connection of the pool for a query of its own, while
    the workers of [DbPool] use theirs. [direct] adds to the state of the pool the
    calls that are under way; [dstep] interleaves their critical sections with
    the steps of the pool. *)

From S2P Require Import Prelude DbPool.
From S2P Require SafeQueue.

Section direct.
Context {R A : Type}.
Abbreviation pool := (dbpool R A).

(** A call of [execQuery]: before [getIdleClient]; while a new connection is
    opened; after [getIdleClient]; after the query; its end. *)
Inductive call :=
| CStart
| COpening (c : nat)
| CGot (c : option nat)
| CRan (c : nat) (rc : Z)
| CDone (rc : Z).

Definition call_holds (k : call) : list nat :=
  match k with COpening c | CGot (Some c) | CRan c _ => [c] | _ => [] end.

(** The steps of a call; the answer [rc] of the query and the state [b] it leaves
    the connection in are the database's. *)
Inductive cstep (p : pool) : call -> call -> pool -> Prop :=
| cs_idle c m : idle_client (dp_clients p) (dp_poolSize p) (Some (c, false)) m ->
    cstep p CStart (CGot (Some c)) (set_clients m (dp_conn p) p)
| cs_new c m : idle_client (dp_clients p) (dp_poolSize p) (Some (c, true)) m ->
    cstep p CStart (COpening c) (set_clients m (<[c := false]> (dp_conn p)) p)
| cs_none : idle_client (dp_clients p) (dp_poolSize p) None (dp_clients p) -> cstep p CStart (CGot None) p
| cs_connected c : cstep p (COpening c) (CGot (Some c)) (set_clients (dp_clients p) (<[c := true]> (dp_conn p)) p)
| cs_refused c : cstep p (COpening c) (CGot None) (closeClient c p)
| cs_nothing : cstep p (CGot None) (CDone (-1)) p
| cs_query c rc b : cstep p (CGot (Some c)) (CRan c rc) (set_clients (dp_clients p) (<[c := b]> (dp_conn p)) p)
| cs_lost c rc : getConnState p c = false -> cstep p (CRan c rc) (CDone rc) (closeClient c p)
| cs_release c rc : getConnState p c = true ->
    cstep p (CRan c rc) (CDone rc) (set_clients (markClientIdle c (dp_clients p)) (dp_conn p) p).

Record direct := MkDirect { di_pool : pool; di_calls : list call }.

Definition call_holders (cs : list call) : list nat := concat (map call_holds cs).

(** [execQuery]: the steps of the calls between those of the pool. *)
Inductive dstep : direct -> direct -> Prop :=
| ds_pool p p' cs : pstep p p' -> dstep (MkDirect p cs) (MkDirect p' cs)
| ds_call p cs : dstep (MkDirect p cs) (MkDirect p (cs ++ [CStart]))
| ds_step p p' l1 k k' l2 : cstep p k k' p' -> dstep (MkDirect p (l1 ++ k :: l2)) (MkDirect p' (l1 ++ k' :: l2)).

(** The same, while the pool is not taken down under a call. *)
Definition kept (d : direct) : Prop := all_exited (di_pool d) -> call_holders (di_calls d) = [].
Definition safe_step (d d' : direct) : Prop := kept d /\ dstep d d'.

Definition connections_ok (d : direct) : Prop :=
  clients_ok (holders (di_pool d) ++ call_holders (di_calls d)) (dp_poolSize (di_pool d)) (dp_clients (di_pool d)) (dp_conn (di_pool d)).

Lemma cstep_clients (p : pool) k k' (p' : pool) others :
  cstep p k k' p' -> clients_ok (call_holds k ++ others) (dp_poolSize p) (dp_clients p) (dp_conn p) ->
  dp_workers p' = dp_workers p /\ dp_poolSize p' = dp_poolSize p /\
  clients_ok (call_holds k' ++ others) (dp_poolSize p') (dp_clients p') (dp_conn p').
Proof.
  intros [c m Hi|c m Hi|_|c|c| |c rc b|c rc Hc|c rc Hc] Hok; cbn in *; try done.
  - inversion Hi as [c' Hc E1 E2| |]; subst. split_and!; [done..|]. apply (clients_take _ _ _ (dp_conn p)); try done; [congruence|].
    rewrite map_size_insert_Some by done. apply Hok.
  - inversion Hi as [|c' _ Hs Hc E1 E2|]; subst. split_and!; [done..|]. apply (clients_take _ _ _ (dp_conn p)); try done; [congruence| |].
    + intros c' Hne. by rewrite lookup_insert_ne.
    + rewrite map_size_insert_None by done. lia.
  - split_and!; [done..|]. apply clients_conn; [done|set_solver].
  - split_and!; [done..|]. by apply clients_close.
  - split_and!; [done..|]. apply clients_conn; [done|set_solver].
  - split_and!; [done..|]. by apply clients_close.
  - split_and!; [done..|]. by apply clients_free.
Qed.

(** A step of a worker, next to what the calls hold. *)
Lemma worker_clients (p : pool) l1 w l2 w' (p' : pool) K :
  dp_workers p = l1 ++ w :: l2 -> wstep p w w' p' ->
  clients_ok (holders p ++ K) (dp_poolSize p) (dp_clients p) (dp_conn p) ->
  let p1 := set_workers (l1 ++ w' :: l2) p' in
  dp_poolSize p1 = dp_poolSize p /\ clients_ok (holders p1 ++ K) (dp_poolSize p1) (dp_clients p1) (dp_conn p1).
Proof.
  intros E Hs Hok. destruct (wstep_clients p w w' p' (concat (map holds (l1 ++ l2)) ++ K) Hs) as [H1 H2].
  - eapply clients_perm; [|exact Hok]. unfold holders. by rewrite E, concat_split, app_assoc.
  - split; [done|]. eapply clients_perm; [|exact H2]. rewrite app_assoc. f_equiv. symmetry. apply holders_set.
Qed.

Lemma safe_step_ok d d' : safe_step d d' -> connections_ok d -> connections_ok d'.
Proof.
  intros [Hk Hs] Hok. unfold connections_ok in *. destruct Hs as [p p' cs Hp|p cs|p p' l1 k k' l2 Hc]; cbn in *.
  - destruct Hp as [p r Hr|p t1 x t2 Ht|p p' l1 w w' l2 E Hw|p|p r q He Hq|p He]; try done.
    + unfold submit_push. by destruct (SafeQueue.push MaxPendingReq _ _) as [[] q].
    + by eapply worker_clients.
    + unfold kept in Hk. cbn in Hk. rewrite (Hk He). unfold holders. cbn.
      assert (concat (map holds (dp_workers p)) = []) as ->.
      { clear -He. unfold all_exited in He. induction He as [|w ws <- _ IH]; [done|]. cbn. done. }
      split; cbn; [constructor|by intros c; split; [intros ?%elem_of_nil|]|done|]. destruct Hok as [_ _ _ H]. rewrite map_size_empty. lia.
  - unfold call_holders in *. rewrite map_app, concat_app. cbn. by rewrite app_nil_r.
  - destruct (cstep_clients p k k' p' (call_holders (l1 ++ l2) ++ holders p) Hc) as (E1 & E2 & H).
    + eapply clients_perm; [|exact Hok]. unfold call_holders. rewrite (concat_split call_holds). solve_Permutation.
    + eapply clients_perm; [|exact H]. unfold call_holders. rewrite (concat_split call_holds). unfold holders. rewrite E1. solve_Permutation.
Qed.

(** Workers and calls never use a connection together, and the pool never opens
    more than it may, as long as it is not taken down while a call uses one. *)
Theorem direct_exclusive poolSize d :
  rtc safe_step (MkDirect (start poolSize new_pool) []) d ->
  NoDup (holders (di_pool d) ++ call_holders (di_calls d)) /\
  Z.of_nat (base.size (dp_clients (di_pool d))) <= dp_poolSize (di_pool d) /\
  (forall c, c ∈ call_holders (di_calls d) -> dp_clients (di_pool d) !! c = Some false).
Proof.
  intros Hr. assert (connections_ok d) as [H1 H2 _ H4].
  { assert (connections_ok (MkDirect (start poolSize new_pool) [])) as H0.
    { unfold connections_ok, holders. cbn. assert (concat (map (holds (R := R)) (replicate (Z.to_nat (Z.min (Z.max poolSize 1) 16)) Waiting)) = ([] : list nat)) as E.
      { induction (Z.to_nat (Z.min (Z.max poolSize 1) 16)) as [|n IH]; [done|]. done. }
      rewrite E. split; cbn; [constructor|by intros c; split; [intros ?%elem_of_nil|]|done|rewrite map_size_empty; lia]. }
    clear -Hr H0. induction Hr as [|x y z Hxy _ IH]; [done|]. by eapply IH, safe_step_ok. }
  split_and!; [done..|]. intros c Hc. apply H2. set_solver.
Qed.

(** A call gives its connection back, or closes it: at its end it holds none. *)
Lemma call_ends (p : pool) k rc (p' : pool) : cstep p k (CDone rc) p' -> call_holds (CDone rc) = [] /\ (k = CGot None -> rc = -1).
Proof. intros H. split; [done|]. intros ->. by inversion H. Qed.
End direct.

(** ** Concrete runs *)

Section race.
Abbreviation demo := (dbpool nat nat).

Definition race_pool : demo := start 1 new_pool.
(** A call uses the connection 0, and the pool's worker has ended. *)
Definition race_busy : direct (R := nat) (A := nat) :=
  MkDirect (set_workers [Exited] (set_queue (SafeQueue.stop SafeQueue.empty_queue)
    (set_clients (<[0%nat := false]> ∅) (<[0%nat := true]> (<[0%nat := false]> ∅)) race_pool))) [CGot (Some 0%nat)].
Definition race_freed : direct (R := nat) (A := nat) := MkDirect (uninitPool (di_pool race_busy)) [CGot (Some 0%nat)].

(** The pool may be taken down while a call uses a connection, which is then
    closed and deleted under it. *)
Theorem execQuery_race :
  rtc dstep (MkDirect race_pool []) race_freed /\
  0%nat ∈ call_holders (di_calls race_freed) /\ dp_clients (di_pool race_freed) !! 0%nat = None.
Proof.
  split; [|by split; [left|]].
  eapply rtc_l; [apply ds_call|]. cbn [app].
  eapply rtc_l; [eapply (ds_step _ _ [] CStart (COpening 0) []), cs_new, ic_new; [done..|reflexivity]|]. cbn [app].
  eapply rtc_l; [eapply (ds_step _ _ [] (COpening 0) (CGot (Some 0%nat)) []), cs_connected|]. cbn [app].
  eapply rtc_l; [apply ds_pool, ps_stop|].
  eapply rtc_l; [eapply ds_pool, (ps_worker _ _ [] Waiting Exited []); [reflexivity|by eapply ws_exit]|].
  apply rtc_once, ds_pool. apply (ps_uninit (di_pool race_busy)). by repeat constructor.
Qed.
End race.

Lemma direct_exclusive_witness :
  NoDup (holders (di_pool (MkDirect race_pool [CStart])) ++ call_holders [CStart]).
Proof.
  apply (direct_exclusive 1 (MkDirect race_pool [CStart])). apply rtc_once. split; [done|apply ds_call].
Defined.
