(* ===== verification/DbProxy.v ===== *)
(** * The database proxies ([lygc/dbproxy_base.hpp], [dbproxy_mysql.hpp],
      [dbproxy_redis.hpp], [dbproxy_mongo.hpp])

    A proxy hands each request to the pool of its slot and keeps the requester
    until the pool calls back. It sees a pool as a [view]: the next id, the ids given out
    whose request is not pushed yet, and the ids still to be answered; [DbPool]
    refines it ([pool_refines_view]), and [MongoPool] does. Taking an id, pushing
    the request and saving the requester are three steps of the code, and three
    steps here. [PendStore] is the interface of [Shards]. *)

From S2P Require Import Prelude Lymsg Shards Serialize DbReq DbPool.

(** ** What the proxy sees of a pool *)

Record view := MkView { v_next : Z; v_taken : list Z; v_open : list Z }.

(** The ids that are not done with. *)
Definition v_ids (v : view) : list Z := v_taken v ++ v_open v.

Inductive vstep : view -> view -> Prop :=
(* [submit] takes an id, and pushes the request, or finds the queue full *)
| vs_take v : vstep v (MkView (v_next v + 1) (v_next v :: v_taken v) (v_open v))
| vs_push v id t : v_taken v ≡ₚ id :: t -> vstep v (MkView (v_next v) t (id :: v_open v))
| vs_busy v id t : v_taken v ≡ₚ id :: t -> vstep v (MkView (v_next v) t (v_open v))
(* the call of [onResponse], or the end of the pool *)
| vs_settle v id o : v_open v ≡ₚ id :: o -> vstep v (MkView (v_next v) (v_taken v) o).

(** The ids open in a pool are those accepted and not settled. *)
Definition pool_view {R A} (p : dbpool R A) : view -> Prop :=
  fun v => v_next v = dp_reqId p /\ v_taken v ≡ₚ map req_id (dp_taken p) /\ v_open v ≡ₚ map req_id (pending p).

Lemma view_settle ids rest v :
  (length ids <= 1)%nat -> v_open v ≡ₚ ids ++ rest ->
  exists v', (v' = v \/ vstep v v') /\ v_next v' = v_next v /\ v_taken v' = v_taken v /\ v_open v' ≡ₚ rest.
Proof.
  intros Hl Ho. destruct ids as [|id [|? ?]]; cbn in Hl; [| |lia].
  - exists v. split_and!; try done. by left.
  - exists (MkView (v_next v) (v_taken v) rest). split_and!; try done. right. by apply (vs_settle _ id).
Qed.

(** C19: the pool is what the proxies take it for. Every step of a pool, of any of
    its threads, is nothing on the view or one step of it: the next id taken, the
    request of a taken id accepted or refused, in whatever order the submitting
    threads come to that, or an open id settled. *)
Theorem pool_refines_view {R A} (p p' : dbpool R A) v :
  reachable p -> pool_view p v -> pstep p p' -> exists v', (v' = v \/ vstep v v') /\ pool_view p' v'.
Proof.
  intros Hr (Hn & Ht & Ho) Hs. pose proof (dp_reachable_inv _ Hr) as [Hinv _]. unfold pool_view.
  destruct Hs as [p r Hlt|p t1 x t2 Htk|p p' l1 w w' l2 Hw Hs|p|p r q He Hq|p He].
  - pose proof (pi_next _ Hinv) as Hb. unfold MinReqId in Hb.
    assert (wrap 64 (dp_reqId p + 1) = dp_reqId p + 1) as Hwr by (apply wrap_id; unfold in_uint; lia).
    eexists. split; [right; apply vs_take|]. cbn. rewrite Hn, Hwr, Ht, map_app. split; [done|]. split; [|done].
    cbn. apply Permutation_cons_append.
  - rewrite Htk, map_app in Ht. cbn in Ht. rewrite <- Permutation_middle, <- map_app in Ht.
    unfold submit_push. destruct (SafeQueue.push MaxPendingReq _ _) as [ok q] eqn:Ep.
    unfold SafeQueue.push in Ep. cbn [dp_queue set_taken] in Ep. destruct ok; case_if; simplify_eq.
    + eexists. split; [right; by apply (vs_push _ (req_id x))|]. cbn. split; [done|]. split; [done|].
      rewrite Ho. unfold pending. cbn. rewrite !map_app. cbn. solve_Permutation.
    + eexists. split; [right; by apply (vs_busy _ (req_id x))|]. by split.
  - destruct (wstep_requests _ _ _ _ Hs) as (Hid & Htk & e & Hl & Hse & Hlen & Hre).
    assert (p = set_workers (l1 ++ w :: l2) p) as Hp by (destruct p; cbn in *; by rewrite Hw).
    assert (map req_id (pending p) ≡ₚ map req_id (pending (set_workers (l1 ++ w' :: l2) p')) ++ settled e) as Hpe.
    { rewrite Hp at 1. rewrite !pending_set. set (others := concat (map held (l1 ++ l2))).
      rewrite !(app_assoc (SafeQueue._queue _)), !(map_app _ _ others), Hre. solve_Permutation. }
    rewrite Hpe, Permutation_app_comm in Ho. destruct (view_settle _ _ _ Hlen Ho) as (v' & Hv & Hn' & Ht' & Ho').
    exists v'. split; [done|]. cbn [dp_reqId dp_taken set_workers]. rewrite Hid, Htk, Hn', Ht'. by split_and!.
  - exists v. split; [by left|]. by split_and!.
  - unfold pending in *. apply SafeQueue.raw_pop_spec in Hq as [Hq _]. rewrite <- Hq in Ho. cbn in Ho.
    eexists. split; [right; by apply (vs_settle _ (req_id r))|]. by split_and!.
  - exists v. split; [by left|]. by split_and!.
Qed.

(** ** The proxy *)

Definition MAX_DB_SLOTS : Z := 64.

Record PenddingReq := MkPend { userWeak : nat; reqHeader : lymsg_header }.

(** [DBProxyUserBase::createResponse]. *)
Definition createResponse (origin : Z) (reqHeader : lymsg_header) (respData : bytes) : bytes :=
  packMsg (MkHeader origin 0 (Z.lor (htype reqHeader) LYMSG_TYPE_RESP) (serial reqHeader) 0) respData.

Section proxy.
Context {S : Type} `{PS : PendStore S PenddingReq}.

Inductive event :=
| Saved (slot id : Z) (req : PenddingReq)
| Answered (slot id : Z) (user : nat) (msg : bytes).

(** A thread that has an id, before the push or between [pool->submit] and
    [savePenddingReq]. *)
Record saving := MkSaving { sv_id : Z; sv_slot : Z; sv_req : PenddingReq }.

Record proxy := MkProxy {
  px_origin : Z;
  px_slots : gset Z;                (* the slots of _pools that are not null *)
  px_views : gmap Z view;           (* the pools, running or stopping *)
  px_ctx : gmap Z S;                (* _poolCtx *)
  px_alive : gset nat;
  px_pushing : list saving;         (* threads in [pool->submit] *)
  px_saving : list saving;          (* threads in [savePenddingReq] *)
  px_log : list event;
}.

Definition new_proxy (origin : Z) : proxy := MkProxy origin ∅ ∅ ∅ ∅ [] [] [].

Definition set_ctx c p := MkProxy (px_origin p) (px_slots p) (px_views p) c (px_alive p) (px_pushing p) (px_saving p) (px_log p).
Definition set_views v p := MkProxy (px_origin p) (px_slots p) v (px_ctx p) (px_alive p) (px_pushing p) (px_saving p) (px_log p).
Definition set_saving s p := MkProxy (px_origin p) (px_slots p) (px_views p) (px_ctx p) (px_alive p) (px_pushing p) s (px_log p).
Definition set_pushing s p := MkProxy (px_origin p) (px_slots p) (px_views p) (px_ctx p) (px_alive p) s (px_saving p) (px_log p).
Definition set_alive a p := MkProxy (px_origin p) (px_slots p) (px_views p) (px_ctx p) a (px_pushing p) (px_saving p) (px_log p).
Definition set_slots s p := MkProxy (px_origin p) s (px_views p) (px_ctx p) (px_alive p) (px_pushing p) (px_saving p) (px_log p).
Definition logs e p := MkProxy (px_origin p) (px_slots p) (px_views p) (px_ctx p) (px_alive p) (px_pushing p) (px_saving p) (px_log p ++ [e]).

(** [savePenddingReq(dbReqId, reqHeader, user, db_slot)]. *)
Definition savePenddingReq (dbReqId : Z) (req : PenddingReq) (db_slot : Z) (p : proxy) : proxy :=
  if MAX_DB_SLOTS <=? db_slot then p
  else
    match px_ctx p !! db_slot with
    | None => p
    | Some s => logs (Saved db_slot dbReqId req) (set_ctx (<[db_slot := ps_insert s dbReqId req]> (px_ctx p)) p)
    end.

(** [onResponseBase(dbReqId, respData, db_slot)]. *)
Definition onResponseBase (dbReqId : Z) (respData : bytes) (db_slot : Z) (p : proxy) : proxy :=
  if MAX_DB_SLOTS <=? db_slot then p
  else
    match px_ctx p !! db_slot with
    | None => p
    | Some s =>
        let '(pendReq, s') := ps_take s dbReqId in
        let p1 := set_ctx (<[db_slot := s']> (px_ctx p)) p in
        match pendReq with
        | None => p1
        | Some req =>
            if bool_decide (userWeak req ∈ px_alive p1)
            then logs (Answered db_slot dbReqId (userWeak req) (createResponse (px_origin p) (reqHeader req) respData)) p1
            else p1
        end
    end.

Definition req_gone (p : proxy) (user : nat) (req : PenddingReq) : bool :=
  negb (bool_decide (userWeak req ∈ px_alive p)) || bool_decide (userWeak req = user).

Definition cleanupUserPending (user : nat) (p : proxy) : proxy :=
  set_ctx (fmap (ps_sweep (req_gone p user)) (px_ctx p)) p.

(** A clean-up that is interrupted, between two slots or shards, has taken some of
    its entries: one of them. *)
Definition swept (slot id : Z) (p : proxy) : proxy :=
  match px_ctx p !! slot with
  | None => p
  | Some s => set_ctx (<[slot := snd (ps_take s id)]> (px_ctx p)) p
  end.

Definition onDisconnect (user : nat) (p : proxy) : proxy := cleanupUserPending user p.

(** [registerPoolCtx], with the new, empty context of [initPools]. *)
Definition registerPoolCtx (slot : Z) (p : proxy) : proxy :=
  if MAX_DB_SLOTS <=? slot then p else set_ctx (<[slot := ps_new]> (px_ctx p)) p.

(** One round of [initPools]: the pool of the slot starts; a slot given twice
    has its first pool forgotten. *)
Definition initPool (slot : Z) (p : proxy) : proxy :=
  if MAX_DB_SLOTS <=? slot then p
  else registerPoolCtx slot (set_slots ({[slot]} ∪ px_slots p) (set_views (<[slot := MkView MinReqId [] []]> (px_views p)) p)).

(** [submit], as far as [genRequestId] of the pool: the request, if there is a
    pool for it, has an id. *)
Definition submit_id (slot : Z) (req : PenddingReq) (p : proxy) : option saving * proxy :=
  if MAX_DB_SLOTS <=? slot then (None, p)
  else if bool_decide (slot ∈ px_slots p) then
    match px_views p !! slot with
    | None => (None, p)
    | Some v =>
        let dbReqId := v_next v in
        (Some (MkSaving dbReqId slot req),
         set_views (<[slot := MkView (dbReqId + 1) (dbReqId :: v_taken v) (v_open v)]> (px_views p)) p)
    end
  else (None, p).

(** From there to the return of [pool->submit]: [full] says whether the queue
    was, and a request that was accepted has its requester still to be saved. *)
Definition submit_push (full : bool) (x : saving) (p : proxy) : proxy :=
  match px_views p !! sv_slot x with
  | None => p
  | Some v =>
      let taken := filter (fun id => id <> sv_id x) (v_taken v) in
      if full then set_views (<[sv_slot x := MkView (v_next v) taken (v_open v)]> (px_views p)) p
      else set_saving (x :: px_saving p) (set_views (<[sv_slot x := MkView (v_next v) taken (sv_id x :: v_open v)]> (px_views p)) p)
  end.

(** The thread is left between the two. *)
Definition submit_begin (slot : Z) (req : PenddingReq) (p : proxy) : proxy :=
  match submit_id slot req p with
  | (Some x, p1) => set_pushing (x :: px_pushing p1) p1
  | (None, p1) => p1
  end.

(** Nothing comes between the two. *)
Definition submit (full : bool) (slot : Z) (req : PenddingReq) (p : proxy) : proxy :=
  match submit_id slot req p with
  | (Some x, p1) => submit_push full x p1
  | (None, p1) => p1
  end.

(** [onRecvMsg] of a proxy whose requests have the type [ty] and name their slot
    as [slot_of] says, up to its call of [submit]. *)
Definition received (ty : Z) (slot_of : bytes -> Z) (user : nat) (msg : bytes) : option (Z * PenddingReq) :=
  match unpackMsg (Some msg) with
  | None => None
  | Some (h, d) => if htype h =? ty then Some (slot_of d, MkPend user h) else None
  end.

Definition onRecvMsg_begin ty slot_of (user : nat) (msg : bytes) (p : proxy) : proxy :=
  match received ty slot_of user msg with Some (slot, req) => submit_begin slot req p | None => p end.

Definition onRecvMsg ty slot_of (full : bool) (user : nat) (msg : bytes) (p : proxy) : proxy :=
  match received ty slot_of user msg with Some (slot, req) => submit full slot req p | None => p end.

Definition mysql_onRecvMsg := onRecvMsg LYMSG_TYPE_DB_MYSQL (fun d => my_db_slot (fst (mysql_req_deserialize d))).
Definition redis_onRecvMsg := onRecvMsg LYMSG_TYPE_DB_REDIS (fun d => rd_db_slot (fst (redis_req_deserialize d))).
Definition mongo_onRecvMsg {B} (bson_new_from_data : bytes -> option B) :=
  onRecvMsg LYMSG_TYPE_DB_MONGO
    (fun d => match mongo_req_deserialize bson_new_from_data d with Some (r, _) => mg_db_slot (fst r) | None => 0 end).

(** [cleanupPools] takes the pools out of service; [serveUtilStop] releases the
    contexts when they have stopped. *)
Definition forgetPools (p : proxy) : proxy := set_slots ∅ p.
Definition releaseCtx (p : proxy) : proxy := set_ctx ∅ (set_views ∅ p).

(** ** Any order of the threads *)

Inductive pxstep : proxy -> proxy -> Prop :=
| px_recv p ty slot_of user msg : user ∈ px_alive p -> pxstep p (onRecvMsg_begin ty slot_of user msg p)
| px_push p s1 x s2 full : px_pushing p = s1 ++ x :: s2 -> pxstep p (submit_push full x (set_pushing (s1 ++ s2) p))
| px_save p s1 x s2 : px_saving p = s1 ++ x :: s2 ->
    pxstep p (savePenddingReq (sv_id x) (sv_req x) (sv_slot x) (set_saving (s1 ++ s2) p))
(* a pool calls back; only for an id that is open *)
| px_response p slot v id o data : px_views p !! slot = Some v -> v_open v ≡ₚ id :: o ->
    pxstep p (onResponseBase id data slot (set_views (<[slot := MkView (v_next v) (v_taken v) o]> (px_views p)) p))
(* a pool that stops drops a request *)
| px_drop p slot v id o : px_views p !! slot = Some v -> v_open v ≡ₚ id :: o ->
    pxstep p (set_views (<[slot := MkView (v_next v) (v_taken v) o]> (px_views p)) p)
| px_disconnect p user : user ∈ px_alive p -> pxstep p (onDisconnect user p)
| px_swept p user slot s id req : user ∈ px_alive p -> px_ctx p !! slot = Some s -> ps_find s id = Some req ->
    req_gone p user req = true -> pxstep p (swept slot id p)
| px_create p user : user ∉ px_alive p -> pxstep p (set_alive ({[user]} ∪ px_alive p) p)
| px_destroy p user : pxstep p (set_alive (px_alive p ∖ {[user]}) p)
| px_forget p : pxstep p (forgetPools p).

Definition started (origin : Z) (slots : list Z) : proxy := foldr initPool (new_proxy origin) slots.
Definition px_reachable (p : proxy) : Prop := exists origin slots, NoDup slots /\ rtc pxstep (started origin slots) p.

(** What is kept for an id of a slot. *)
Definition px_find (p : proxy) (slot id : Z) : option PenddingReq := px_ctx p !! slot ≫= fun s => ps_find s id.

(** An id that its pool has given out and settled: it will not call back. *)
Definition closed (p : proxy) (slot id : Z) : Prop :=
  exists v, px_views p !! slot = Some v /\ id < v_next v /\ id ∉ v_ids v.

Definition answers (l : list event) : list (Z * Z) :=
  omap (fun e => match e with Answered slot id _ _ => Some (slot, id) | _ => None end) l.

Context {PL : PendStoreLaws S PenddingReq}.

Definition sv_key (x : saving) : Z * Z := (sv_slot x, sv_id x).

Record px_inv (p : proxy) : Prop := {
  px_ok : forall slot s, px_ctx p !! slot = Some s -> ps_ok s;
  px_fresh : forall slot v, px_views p !! slot = Some v -> NoDup (v_ids v) /\ forall id, id ∈ v_ids v -> id < v_next v;
  (* the threads in [pool->submit] have different ids, and these are taken *)
  px_keys : NoDup (map sv_key (px_pushing p));
  px_taken : forall x, x ∈ px_pushing p -> exists v, px_views p !! sv_slot x = Some v /\ sv_id x ∈ v_taken v;
  (* what is pending was saved *)
  px_kept : forall slot id req, px_find p slot id = Some req -> Saved slot id req ∈ px_log p;
  px_once : NoDup (answers (px_log p));
  px_closed : forall slot id, (slot, id) ∈ answers (px_log p) -> closed p slot id;
  (* an answer follows the saving of its requester *)
  px_match : forall pre slot id u m post, px_log p = pre ++ Answered slot id u m :: post ->
    exists h data, Saved slot id (MkPend u h) ∈ pre /\ m = createResponse (px_origin p) h data;
}.

Lemma answers_app l e :
  answers (l ++ [e]) = answers l ++ match e with Answered slot id _ _ => [(slot, id)] | _ => [] end.
Proof. unfold answers. rewrite omap_app. by destruct e. Qed.

(** [closed] survives every change of a view by a step of its pool. *)
Lemma closed_view p slot v slot' v' id :
  px_views p !! slot = Some v -> closed p slot' id ->
  (forall i, i < v_next v -> i ∉ v_ids v -> i < v_next v' /\ i ∉ v_ids v') ->
  exists w, <[slot := v']> (px_views p) !! slot' = Some w /\ id < v_next w /\ id ∉ v_ids w.
Proof.
  intros Hv (w & Hw & Hlt & Hn) Hmono. destruct (decide (slot = slot')) as [->|Hne].
  - rewrite Hv in Hw. injection Hw as ->. exists v'. rewrite lookup_insert_eq. split; [done|]. by apply Hmono.
  - exists w. by rewrite lookup_insert_ne.
Qed.

(** A step that changes neither the log nor the views, and forgets at most. *)
Lemma inv_forget p p' :
  px_inv p -> px_log p' = px_log p -> px_views p' = px_views p -> px_origin p' = px_origin p ->
  px_pushing p' = px_pushing p ->
  (forall slot s, px_ctx p' !! slot = Some s -> ps_ok s) ->
  (forall slot id req, px_find p' slot id = Some req -> px_find p slot id = Some req) -> px_inv p'.
Proof.
  intros [H1 H2 Hk Ht H3 H4 H5 H6] Hl Hv Ho Hp Hok Hf. split; rewrite ?Hl, ?Hv, ?Ho, ?Hp; auto.
  intros slot id Ha. unfold closed. rewrite Hv. by apply H5.
Qed.

(** A step that moves one view on. *)
Lemma inv_view p slot v v' :
  px_inv p -> px_views p !! slot = Some v -> NoDup (v_ids v') -> (forall id, id ∈ v_ids v' -> id < v_next v') ->
  (forall i, i < v_next v -> i ∉ v_ids v -> i < v_next v' /\ i ∉ v_ids v') ->
  (forall x, x ∈ px_pushing p -> sv_slot x = slot -> sv_id x ∈ v_taken v -> sv_id x ∈ v_taken v') ->
  px_inv (set_views (<[slot := v']> (px_views p)) p).
Proof.
  intros [H1 H2 Hk Ht H3 H4 H5 H6] Hv Hnd Hlt Hmono Htk. split; try done.
  - intros slot' w. cbn. rewrite lookup_insert. case_decide; [|apply H2]. intros [= <-]. done.
  - intros x Hx. cbn. destruct (Ht x Hx) as (w & Hw & Hin). rewrite lookup_insert. case_decide; [|by exists w].
    subst slot. rewrite Hv in Hw. injection Hw as <-. exists v'. auto.
  - intros slot' id Ha%H5. by eapply closed_view.
Qed.

Lemma keys_split (s1 : list saving) x s2 :
  NoDup (map sv_key (s1 ++ x :: s2)) -> NoDup (map sv_key (s1 ++ s2)) /\ forall y, y ∈ s1 ++ s2 -> sv_key y <> sv_key x.
Proof.
  rewrite !map_app. cbn. rewrite <- Permutation_middle, NoDup_cons, <- map_app. intros [Hn Hd]. split; [done|].
  intros y Hy E. apply Hn. rewrite <- E. by apply list_elem_of_fmap_2.
Qed.

Definition event_ok (p : proxy) (pre : list event) (e : event) : Prop :=
  match e with
  | Answered slot id u m =>
      exists h data, Saved slot id (MkPend u h) ∈ pre /\ m = createResponse (px_origin p) h data
  | Saved _ _ _ => True
  end.

Lemma px_events_ok p : px_inv p -> forall pre e post, px_log p = pre ++ e :: post -> event_ok p pre e.
Proof. intros Hinv pre [] post Heq; [done|]. by eapply px_match. Qed.

Lemma find_set p slot s slot' id :
  px_find (set_ctx (<[slot := s]> (px_ctx p)) p) slot' id = if decide (slot = slot') then ps_find s id else px_find p slot' id.
Proof. unfold px_find. cbn. rewrite lookup_insert. by case_decide. Qed.

Lemma save_inv p id req slot : px_inv p -> px_inv (savePenddingReq id req slot p).
Proof.
  intros Hinv. unfold savePenddingReq. case_if; [done|]. destruct (px_ctx p !! slot) as [s|] eqn:Es; [|done].
  pose proof (px_events_ok p Hinv) as Hev. destruct Hinv as [H1 H2 Hk Ht H3 H4 H5 H6]. pose proof (H1 _ _ Es) as Hs.
  split; cbn; rewrite ?answers_app, ?app_nil_r; try done.
  - intros slot' s'. rewrite lookup_insert. case_decide; [|apply H1]. intros [= <-]. by apply insert_ok.
  - intros slot' id' req' Hf. change (px_find (set_ctx (<[slot:=ps_insert s id req]> (px_ctx p)) p) slot' id' = Some req') in Hf.
    rewrite find_set in Hf. apply elem_of_app. case_decide as Hd; [|left; by apply H3]. subst slot'.
    rewrite find_insert in Hf by done. case_decide as Hi; [subst id'|].
    + destruct (ps_find s id) as [old|] eqn:Ef; cbn in Hf; simplify_eq.
      * left. apply H3. unfold px_find. by rewrite Es.
      * right. by apply list_elem_of_singleton.
    + left. apply H3. unfold px_find. by rewrite Es.
  - intros pre slot' id' u m post Heq. apply (snoc_events (event_ok p)) in Heq; [exact Heq|exact Hev|done].
Qed.

(** What [onResponseBase] does, on an id that its pool has settled and nobody has
    answered. *)
Lemma response_inv p id data slot :
  px_inv p -> closed p slot id -> (slot, id) ∉ answers (px_log p) -> px_inv (onResponseBase id data slot p).
Proof.
  intros Hinv Hcl Hna. unfold onResponseBase. case_if; [done|]. destruct (px_ctx p !! slot) as [s|] eqn:Es; [|done].
  pose proof (px_events_ok p Hinv) as Hev. pose proof (px_ok p Hinv _ _ Es) as Hs.
  pose proof (take_found s id Hs) as Ht. pose proof (fun i => find_take s id i Hs) as Hft. pose proof (take_ok s id Hs) as Hok.
  destruct (ps_take s id) as [found s']. cbn in Ht, Hft, Hok. set (p1 := set_ctx (<[slot := s']> (px_ctx p)) p).
  assert (px_inv p1) as Hinv1.
  { apply (inv_forget p); try done.
    - intros slot' w. unfold p1. cbn. rewrite lookup_insert. case_decide; [by intros [= <-]|]. by apply (px_ok p Hinv).
    - intros slot' i req. unfold p1. rewrite find_set. case_decide; [|done]. subst slot'. rewrite Hft. case_decide; [done|].
      unfold px_find. by rewrite Es. }
  destruct found as [req|]; [|done]. case_bool_decide; [|done].
  assert (Saved slot id req ∈ px_log p) as Hsv by (apply (px_kept p Hinv); unfold px_find; rewrite Es; cbn; by rewrite <- Ht).
  destruct Hinv1 as [H1 H2 Hk Htk H3 H4 H5 H6]. split; cbn; rewrite ?answers_app; try done.
  - intros slot' i r Hf. apply elem_of_app. left. by apply H3.
  - apply NoDup_app. split; [done|]. split; [|apply NoDup_singleton].
    intros x Hx ->%list_elem_of_singleton. by apply Hna.
  - intros slot' i. rewrite elem_of_app, list_elem_of_singleton. intros [Hin|[= -> ->]]; [|exact Hcl]. by apply H5.
  - intros pre slot' i u m post Heq. apply (snoc_events (event_ok p)) in Heq; [exact Heq|exact Hev|].
    exists (reqHeader req), data. by destruct req.
Qed.

Lemma px_settle_inv p slot v id o :
  px_inv p -> px_views p !! slot = Some v -> v_open v ≡ₚ id :: o ->
  let p' := set_views (<[slot := MkView (v_next v) (v_taken v) o]> (px_views p)) p in
  px_inv p' /\ closed p' slot id /\ (slot, id) ∉ answers (px_log p').
Proof.
  intros Hinv Hv Ho p'. destruct (px_fresh p Hinv _ _ Hv) as [Hnd Hlt].
  assert (v_ids v ≡ₚ id :: v_taken v ++ o) as Hids by (unfold v_ids; rewrite Ho; solve_Permutation).
  rewrite Hids in Hnd. setoid_rewrite Hids in Hlt. apply NoDup_cons in Hnd as [Hni Hnd].
  split; [|split].
  - apply (inv_view p slot v); try done.
    + intros i Hi. apply Hlt. by right.
    + intros i Hi Hn. split; [done|]. intros Hin. apply Hn. rewrite Hids. by right.
  - exists (MkView (v_next v) (v_taken v) o). cbn. rewrite lookup_insert_eq. split; [done|]. split; [|done]. apply Hlt. by left.
  - intros (w & Hw & _ & Hn)%(px_closed p Hinv). rewrite Hv in Hw. injection Hw as <-. apply Hn. rewrite Hids. by left.
Qed.

Lemma begin_inv slot req p : px_inv p -> px_inv (submit_begin slot req p).
Proof.
  intros Hinv. unfold submit_begin, submit_id. repeat case_if; try done. destruct (px_views p !! slot) as [v|] eqn:Hv; [|done].
  destruct (px_fresh p Hinv _ _ Hv) as [Hnd Hlt].
  assert ((slot, v_next v) ∉ map sv_key (px_pushing p)) as Hnew.
  { intros (x & E & Hx)%list_elem_of_fmap. destruct (px_taken p Hinv x Hx) as (w & Hw & Hin). injection E as -> E.
    rewrite Hv in Hw. injection Hw as <-. rewrite <- E in Hin. assert (v_next v < v_next v); [|lia].
    apply Hlt. apply elem_of_app. by left. }
  set (v' := MkView (v_next v + 1) (v_next v :: v_taken v) (v_open v)).
  assert (px_inv (set_views (<[slot:=v']> (px_views p)) p)) as [H1 H2 Hk Ht H3 H4 H5 H6].
  { apply (inv_view p slot v); try done; cbn.
    - constructor; [|done]. intros ?%Hlt. lia.
    - intros i. rewrite elem_of_cons. intros [->|?%Hlt]; lia.
    - intros i Hi Hn. split; [lia|]. rewrite elem_of_cons. intros [->|?]; [lia|done].
    - intros x _ _ Hx. by right. }
  split; try done.
  - cbn. by constructor.
  - intros x. cbn. rewrite elem_of_cons. intros [->|Hx]; [|by apply Ht]. exists v'. cbn. rewrite lookup_insert_eq.
    split; [done|]. by left.
Qed.

(** The ids of a pool, when the request of one of them is pushed. *)
Lemma push_ids (full : bool) v id : NoDup (v_ids v) -> id ∈ v_taken v ->
  let v' := MkView (v_next v) (filter (fun i => i <> id) (v_taken v)) (if full then v_open v else id :: v_open v) in
  NoDup (v_ids v') /\ forall i, i ∈ v_ids v' -> i ∈ v_ids v.
Proof.
  unfold v_ids. intros (Ht & Hd & Ho)%NoDup_app Hin. cbn. split.
  - apply NoDup_app. split; [by apply NoDup_filter|]. split.
    + intros i [Hne Hi]%list_elem_of_filter Hx. destruct full; [by apply (Hd i)|].
      apply elem_of_cons in Hx as [?|Hx]; [done|by apply (Hd i)].
    + destruct full; [done|]. constructor; [|done]. by apply Hd.
  - intros i. rewrite !elem_of_app, list_elem_of_filter. destruct full; [tauto|]. rewrite elem_of_cons.
    intros [[_ ?]|[->|?]]; tauto.
Qed.

(** What [submit_push] does to the views. *)
Lemma push_view full x p v : px_views p !! sv_slot x = Some v ->
  let v' := MkView (v_next v) (filter (fun i => i <> sv_id x) (v_taken v)) (if (full : bool) then v_open v else sv_id x :: v_open v) in
  let p' := set_views (<[sv_slot x := v']> (px_views p)) p in
  submit_push full x p = if full then p' else set_saving (x :: px_saving p) p'.
Proof. intros Hv. unfold submit_push. rewrite Hv. by destruct full. Qed.

Lemma push_inv full s1 x s2 p : px_inv p -> px_pushing p = s1 ++ x :: s2 ->
  px_inv (submit_push full x (set_pushing (s1 ++ s2) p)).
Proof.
  intros Hinv Hp. pose proof (px_keys p Hinv) as Hk. rewrite Hp in Hk. destruct (keys_split _ _ _ Hk) as [Hk' Hne].
  assert (x ∈ px_pushing p) as Hx by (rewrite Hp; set_solver). destruct (px_taken p Hinv x Hx) as (v & Hv & Hin).
  destruct (px_fresh p Hinv _ _ Hv) as [Hnd Hlt]. destruct (push_ids full v (sv_id x) Hnd Hin) as [Hnd' Hsub].
  assert (px_inv (set_pushing (s1 ++ s2) p)) as Hi0.
  { destruct Hinv as [H1 H2 _ Ht H3 H4 H5 H6]. split; try done. intros y Hy. apply Ht. rewrite Hp. set_solver. }
  rewrite (push_view full x (set_pushing (s1 ++ s2) p) v Hv). set (v' := MkView _ _ _) in *. cbn [set_pushing px_views px_saving] in *.
  assert (px_inv (set_views (<[sv_slot x:=v']> (px_views p)) (set_pushing (s1 ++ s2) p))) as Hi1.
  { apply (inv_view (set_pushing (s1 ++ s2) p) (sv_slot x) v); try done.
    - intros i Hi%Hsub. by apply Hlt.
    - intros i Hi Hn. split; [done|]. by intros ?%Hsub.
    - intros y Hy Hs Hyt. cbn. apply list_elem_of_filter. split; [|done]. intros E. apply (Hne y Hy). unfold sv_key. congruence. }
  destruct full; [done|]. by destruct Hi1.
Qed.

Lemma sweep_find p f slot id :
  px_inv p -> px_find (set_ctx (fmap (ps_sweep f) (px_ctx p)) p) slot id =
  px_find p slot id ≫= fun r => if f r then None else Some r.
Proof.
  intros Hinv. unfold px_find. cbn. rewrite lookup_fmap. destruct (px_ctx p !! slot) as [s|] eqn:Es; [|done]. cbn.
  apply find_sweep. by apply (px_ok p Hinv slot).
Qed.

Lemma swept_find p slot s id slot' id' : px_inv p -> px_ctx p !! slot = Some s ->
  px_find (swept slot id p) slot' id' = if decide ((slot, id) = (slot', id')) then None else px_find p slot' id'.
Proof.
  intros Hinv Es. unfold swept. rewrite Es, find_set. case_decide as Hd.
  - subst slot'. rewrite find_take by (by apply (px_ok p Hinv slot)). unfold px_find. rewrite Es. cbn.
    repeat case_decide; naive_solver.
  - by rewrite decide_False by naive_solver.
Qed.

Lemma pxstep_inv p p' : px_inv p -> pxstep p p' -> px_inv p'.
Proof.
  intros Hinv Hs. destruct Hs as [p ty slot_of user msg _|p s1 x s2 full Hp|p s1 x s2 Hsv|p slot v id o data Hv Ho|p slot v id o Hv Ho|
    p user _|p user slot s id req Hu Es Hf Hg|p user _|p user|p].
  - unfold onRecvMsg_begin. destruct (received ty slot_of user msg) as [[slot req]|]; [|done]. by apply begin_inv.
  - by apply push_inv.
  - apply save_inv. by destruct Hinv.
  - destruct (px_settle_inv p slot v id o Hinv Hv Ho) as (Hi & Hcl & Hna). by apply response_inv.
  - by apply (px_settle_inv p slot v id o).
  - apply (inv_forget p); try done.
    + intros slot s. cbn. rewrite lookup_fmap. destruct (px_ctx p !! slot) as [w|] eqn:E; [|done]. cbn. intros [= <-].
      apply sweep_ok. by apply (px_ok p Hinv slot).
    + intros slot id req. unfold onDisconnect, cleanupUserPending. rewrite sweep_find by done.
      destruct (px_find p slot id); [|done]. cbn. by case_if.
  - apply (inv_forget p); try done; try (unfold swept; by rewrite Es).
    + intros slot' w. unfold swept. rewrite Es. cbn. rewrite lookup_insert. case_decide; [|apply (px_ok p Hinv)].
      intros [= <-]. apply take_ok. by apply (px_ok p Hinv slot).
    + intros slot' id' r. rewrite (swept_find p slot s id slot' id' Hinv Es). by case_decide.
  - by destruct Hinv.
  - by destruct Hinv.
  - by destruct Hinv.
Qed.

Lemma started_inv origin slots : px_inv (started origin slots).
Proof.
  induction slots as [|slot slots IH]; cbn.
  - split; try done; try apply NoDup_nil_2.
    + intros x Hx. by apply not_elem_of_nil in Hx.
    + intros slot id Hin. by apply not_elem_of_nil in Hin.
    + by intros [|? ?].
  - fold (started origin slots). set (p := started origin slots) in *. unfold initPool, registerPoolCtx.
    destruct (MAX_DB_SLOTS <=? slot) eqn:E; [done|].
    assert (px_log p = []) as Hl.
    { unfold p. clear. induction slots as [|x l IHl]; [done|]. cbn. unfold initPool, registerPoolCtx.
      by destruct (MAX_DB_SLOTS <=? x). }
    assert (px_pushing p = []) as Hpu.
    { unfold p. clear. induction slots as [|x l IHl]; [done|]. cbn. unfold initPool, registerPoolCtx.
      by destruct (MAX_DB_SLOTS <=? x). }
    destruct IH as [H1 H2 Hk Ht H3 H4 H5 H6]. split; cbn; rewrite ?Hl, ?Hpu; try done.
    + intros slot' s. rewrite lookup_insert. case_decide; [intros [= <-]; apply new_ok|apply H1].
    + intros slot' v. rewrite lookup_insert. case_decide; [intros [= <-]|apply H2]. split; [apply NoDup_nil_2|].
      intros id Hin. by apply not_elem_of_nil in Hin.
    + apply NoDup_nil_2.
    + intros x Hx. by apply not_elem_of_nil in Hx.
    + intros slot' id req. unfold px_find. cbn. rewrite lookup_insert. case_decide.
      * cbn. by rewrite find_new.
      * intros Hf. rewrite <- Hl. by apply H3.
    + apply NoDup_nil_2.
    + intros slot' id Hin. by apply not_elem_of_nil in Hin.
    + by intros [|? ?].
Qed.

Lemma px_reachable_inv p : px_reachable p -> px_inv p.
Proof.
  intros (origin & slots & _ & Hr). pose proof (started_inv origin slots) as Hi.
  induction Hr; [done|]. eauto using pxstep_inv.
Qed.

(** No id comes back when one is settled. *)
Lemma settle_ids v id o : v_open v ≡ₚ id :: o ->
  forall j, j < v_next v -> j ∉ v_ids v -> j < v_next (MkView (v_next v) (v_taken v) o) /\ j ∉ v_ids (MkView (v_next v) (v_taken v) o).
Proof. intros Ho j Hj Hn. split; [done|]. unfold v_ids in *. rewrite Ho in Hn. set_solver. Qed.

(** [closed] is for ever, and nothing is answered under a closed id. *)
Lemma closed_step p p' slot id :
  px_inv p -> closed p slot id -> pxstep p p' ->
  closed p' slot id /\ ((slot, id) ∈ answers (px_log p') -> (slot, id) ∈ answers (px_log p)).
Proof.
  intros Hinv Hcl Hs.
  assert (forall i req x q, px_views (savePenddingReq i req x q) = px_views q /\
    answers (px_log (savePenddingReq i req x q)) = answers (px_log q)) as Hsave.
  { intros i req x q. unfold savePenddingReq. case_if; [done|]. destruct (px_ctx q !! x); [|done]. cbn.
    by rewrite answers_app, app_nil_r. }
  assert (forall i data x q, px_views (onResponseBase i data x q) = px_views q /\
    ((slot, id) ∈ answers (px_log (onResponseBase i data x q)) -> (slot, id) ∈ answers (px_log q) \/ (slot, id) = (x, i))) as Hresp.
  { intros i data x q. unfold onResponseBase. case_if; [split; [done|by left]|].
    destruct (px_ctx q !! x) as [s|]; [|split; [done|by left]]. destruct (ps_take s i) as [[req|] s'];
      [case_bool_decide|]; (split; [done|]); cbn; rewrite ?answers_app, ?elem_of_app, ?list_elem_of_singleton; tauto. }
  destruct Hs as [p ty slot_of user msg _|p s1 x s2 full Hp|p s1 x s2 Hsv|p slot' v i o data Hv Ho|p slot' v i o Hv Ho|
    p user _|p user slot' s i req Hu Es Hf Hg|p user _|p user|p]; try done; try (unfold swept; by rewrite Es).
  - unfold onRecvMsg_begin. destruct (received ty slot_of user msg) as [[slot' req]|]; [|done].
    unfold submit_begin, submit_id. repeat case_if; try done. destruct (px_views p !! slot') as [v|] eqn:Hv; [|done]. split; [|done].
    eapply (closed_view p); [exact Hv|exact Hcl|]. cbn. intros i ? ?. split; [lia|]. rewrite elem_of_cons. intros [->|?]; [lia|done].
  - assert (x ∈ px_pushing p) as Hx by (rewrite Hp; set_solver). destruct (px_taken p Hinv x Hx) as (v & Hv & Hin).
    destruct (push_ids full v (sv_id x) (proj1 (px_fresh p Hinv _ _ Hv)) Hin) as [_ Hsub].
    rewrite (push_view full x (set_pushing (s1 ++ s2) p) v Hv). split; [|by destruct full].
    destruct (closed_view p (sv_slot x) v slot (MkView (v_next v) (filter (fun i => i <> sv_id x) (v_taken v))
      (if full then v_open v else sv_id x :: v_open v)) id Hv Hcl) as (w & Hw & Hlw); [|by exists w; destruct full].
    intros i ? Hn. split; [done|]. by intros ?%Hsub.
  - unfold closed. destruct (Hsave (sv_id x) (sv_req x) (sv_slot x) (set_saving (s1 ++ s2) p)) as [-> ->]. done.
  - destruct (Hresp i data slot' (set_views (<[slot':=MkView (v_next v) (v_taken v) o]> (px_views p)) p)) as [Hv' Ha]. split.
    + unfold closed. rewrite Hv'. eapply (closed_view p); [exact Hv|exact Hcl|]. by eapply settle_ids.
    + intros [?|[= -> ->]]%Ha; [done|]. destruct Hcl as (w & Hw & _ & Hn). rewrite Hv in Hw. injection Hw as <-.
      destruct Hn. unfold v_ids. rewrite Ho. set_solver.
  - split; [|done]. eapply (closed_view p); [exact Hv|exact Hcl|]. by eapply settle_ids.
Qed.

Lemma closed_forever p p' slot id :
  px_inv p -> closed p slot id -> rtc pxstep p p' ->
  (slot, id) ∈ answers (px_log p') -> (slot, id) ∈ answers (px_log p).
Proof.
  intros Hinv Hcl Hr. induction Hr as [|x y z Hxy _ IH]; [done|]. intros Hz.
  destruct (closed_step x y slot id Hinv Hcl Hxy) as [Hcl' Ha]. apply Ha, IH; [by eapply pxstep_inv|done|done].
Qed.

(** A request that is accepted at once. *)
Lemma submit_run slot req p v :
  slot < MAX_DB_SLOTS -> slot ∈ px_slots p -> px_views p !! slot = Some v ->
  exists w, v_next w = v_next v + 1 /\
    submit false slot req p =
      set_saving (MkSaving (v_next v) slot req :: px_saving p) (set_views (<[slot := w]> (px_views p)) p).
Proof.
  intros Hlt Hs Hv. unfold submit, submit_id. rewrite (proj2 (Z.leb_gt _ _) Hlt), (bool_decide_true _ Hs), Hv.
  eexists (MkView (v_next v + 1) _ _). split; [reflexivity|]. unfold submit_push. cbn [sv_slot px_views set_views].
  rewrite lookup_insert_eq, insert_insert_eq. reflexivity.
Qed.

(** [onRecvMsg] without an interruption is at most two steps. *)
Lemma recv_steps ty slot_of full user msg p :
  user ∈ px_alive p -> rtc pxstep p (onRecvMsg ty slot_of full user msg p).
Proof.
  intros Hu. pose proof (px_recv p ty slot_of user msg Hu) as Hs. unfold onRecvMsg, onRecvMsg_begin in *.
  destruct (received ty slot_of user msg) as [[slot req]|]; [|apply rtc_refl].
  unfold submit, submit_begin in *. destruct (submit_id slot req p) as [[x|] p1] eqn:E; [|by apply rtc_once].
  eapply rtc_l; [exact Hs|]. apply rtc_once. pose proof (px_push (set_pushing (x :: px_pushing p1) p1) [] x (px_pushing p1) full eq_refl) as Hp.
  by destruct p1.
Qed.

(** What [onResponseBase] does: a pending request of a connection that is still
    there is answered; one of a connection that is gone, and an id nobody saved, are
    not. In every case the id is no longer pending, and no other one is touched, in
    no slot. *)
Lemma onResponse_exact p slot id data :
  px_inv p -> slot < MAX_DB_SLOTS ->
  let p' := onResponseBase id data slot p in
  (forall slot' id', px_find p' slot' id' =
     if decide ((slot, id) = (slot', id')) then None else px_find p slot' id') /\
  px_log p' = px_log p ++
    match px_find p slot id with
    | Some req =>
        if bool_decide (userWeak req ∈ px_alive p)
        then [Answered slot id (userWeak req) (createResponse (px_origin p) (reqHeader req) data)] else []
    | None => []
    end.
Proof.
  intros Hinv Hs. unfold onResponseBase. rewrite (proj2 (Z.leb_gt _ _) Hs).
  destruct (px_ctx p !! slot) as [s|] eqn:Es.
  - pose proof (px_ok p Hinv _ _ Es) as Hok. pose proof (take_found s id Hok) as Ht.
    pose proof (fun i => find_take s id i Hok) as Hft. destruct (ps_take s id) as [found s']. cbn in Ht, Hft.
    assert (px_find p slot id = found) as -> by (unfold px_find; rewrite Es; cbn; by rewrite Ht).
    assert (forall slot' id', px_find (set_ctx (<[slot:=s']> (px_ctx p)) p) slot' id' =
      if decide ((slot, id) = (slot', id')) then None else px_find p slot' id') as Hfind.
    { intros slot' id'. rewrite find_set. case_decide as Hd.
      - subst slot'. rewrite Hft. unfold px_find. rewrite Es. cbn. repeat case_decide; naive_solver.
      - by rewrite decide_False by naive_solver. }
    destruct found as [req|]; [|by rewrite app_nil_r]. cbn [px_alive set_ctx].
    case_bool_decide; cbn; [done|by rewrite app_nil_r].
  - unfold px_find at 3. rewrite Es. cbn. rewrite app_nil_r. split; [|done]. intros slot' id'. case_decide; [|done].
    simplify_eq. unfold px_find. by rewrite Es.
Qed.

(** Saving a requester takes away nobody. *)
Lemma save_keeps_find p dbReqId r db_slot slot id req :
  px_inv p -> px_find p slot id = Some req -> px_find (savePenddingReq dbReqId r db_slot p) slot id = Some req.
Proof.
  intros Hinv Hf. unfold savePenddingReq. case_if; [done|]. destruct (px_ctx p !! db_slot) as [s|] eqn:Es; [|done].
  change (px_find (set_ctx (<[db_slot:=ps_insert s dbReqId r]> (px_ctx p)) p) slot id = Some req).
  rewrite find_set. case_decide; [|done]. subst db_slot. unfold px_find in Hf. rewrite Es in Hf. cbn in Hf.
  rewrite find_insert by (by apply (px_ok p Hinv slot)). case_decide; [|done]. subst id. by rewrite Hf.
Qed.

Definition answer_to (p : proxy) (slot id : Z) (req : PenddingReq) (data : bytes) : event :=
  Answered slot id (userWeak req) (createResponse (px_origin p) (reqHeader req) data).

(** Who is kept, stays so, until the answer, or the end of the connection. *)
Lemma kept_or_answered p p' slot id req :
  px_inv p -> pxstep p p' -> px_find p slot id = Some req ->
  px_find p' slot id = Some req \/ (exists data, px_log p' = px_log p ++ [answer_to p slot id req data]) \/
  userWeak req ∉ px_alive p \/ p' = onDisconnect (userWeak req) p \/ p' = swept slot id p.
Proof.
  intros Hinv Hs Hf. destruct Hs as [p ty slot_of user msg _|p s1 x s2 full Hp|p s1 x s2 Hsv|p slot' v i o data Hv Ho|p slot' v i o Hv Ho|
    p user _|p user slot' s i r Hu Es Hfi Hg|p user _|p user|p]; try (left; exact Hf).
  - left. unfold onRecvMsg_begin. destruct (received ty slot_of user msg) as [[slot' r]|]; [|done].
    unfold submit_begin, submit_id. repeat case_if; try done. by destruct (px_views p !! slot').
  - left. unfold submit_push. destruct (px_views _ !! sv_slot x); [|done]. by destruct full.
  - left. apply save_keeps_find; [by destruct Hinv|exact Hf].
  - destruct (px_settle_inv p slot' v i o Hinv Hv Ho) as (Hi & _ & _).
    destruct (decide (slot' < MAX_DB_SLOTS)) as [Hlt|Hge].
    + destruct (onResponse_exact _ slot' i data Hi Hlt) as [Hfind Hlog]. rewrite Hfind. case_decide as Hd; [|by left].
      injection Hd as -> ->. change (px_find (set_views _ p) slot id) with (px_find p slot id) in Hlog. rewrite Hf in Hlog.
      destruct (decide (userWeak req ∈ px_alive p)) as [Ha|Ha]; [|by right; right; left]. right. left. exists data.
      by rewrite bool_decide_true in Hlog.
    + left. unfold onResponseBase. by rewrite (proj2 (Z.leb_le _ _)) by lia.
  - unfold onDisconnect, cleanupUserPending. destruct (decide (userWeak req = user)) as [<-|Hne]; [by right; right; right; left|].
    rewrite sweep_find, Hf by done. cbn. unfold req_gone. rewrite (bool_decide_false _ Hne).
    case_bool_decide; cbn; [by left|by right; right; left].
  - rewrite (swept_find p slot' s i slot id Hinv Es). case_decide as Hd; [|by left]. injection Hd as -> ->.
    by right; right; right; right.
Qed.

(** ** Properties *)


(** C16: an answer that comes before its request was saved is lost. A worker may
    call back between [pool->submit] and [savePenddingReq]: then nobody is found
    and nothing is posted, the requester that is saved afterwards is kept, and
    no later call-back ever answers it. *)
Theorem early_answer_lost p p' slot v x s1 s2 o data :
  px_reachable p -> px_saving p = s1 ++ x :: s2 -> sv_slot x = slot -> slot < MAX_DB_SLOTS ->
  px_views p !! slot = Some v -> v_open v ≡ₚ sv_id x :: o -> px_find p slot (sv_id x) = None ->
  let p1 := onResponseBase (sv_id x) data slot (set_views (<[slot := MkView (v_next v) (v_taken v) o]> (px_views p)) p) in
  pxstep p p1 /\ px_log p1 = px_log p /\
  (rtc pxstep p1 p' -> (slot, sv_id x) ∉ answers (px_log p')) /\
  (px_ctx p1 !! slot <> None -> px_find (savePenddingReq (sv_id x) (sv_req x) slot p1) slot (sv_id x) = Some (sv_req x)).
Proof.
  intros Hinv%px_reachable_inv Hsv Hsl Hlt Hv Ho Hf p1.
  destruct (px_settle_inv p slot v (sv_id x) o Hinv Hv Ho) as (Hi & Hcl & Hna).
  assert (pxstep p p1) as Hstep by (by apply px_response). pose proof (pxstep_inv _ _ Hinv Hstep) as Hinv1.
  unfold px_find in Hf.
  assert (px_log p1 = px_log p /\ closed p1 slot (sv_id x) /\ px_find p1 slot (sv_id x) = None) as (Hl & Hcl1 & Hf1).
  { unfold p1, onResponseBase. rewrite (proj2 (Z.leb_gt _ _) Hlt). cbn [px_ctx set_views].
    destruct (px_ctx p !! slot) as [s|] eqn:Es; [|by split_and!; [done|done|unfold px_find; cbn; rewrite Es]].
    pose proof (px_ok p Hinv _ _ Es) as Hok. pose proof (take_found s (sv_id x) Hok) as Ht.
    pose proof (find_take s (sv_id x) (sv_id x) Hok) as Hft. rewrite decide_True in Hft by done. cbn in Hf. rewrite Hf in Ht.
    destruct (ps_take s (sv_id x)) as [found s']. cbn in Ht, Hft. subst found. split_and!; [done|done|].
    unfold px_find. cbn. by rewrite lookup_insert_eq. }
  split; [done|]. split; [done|]. split.
  - intros Hr Ha. apply (closed_forever p1 p' slot (sv_id x) Hinv1 Hcl1 Hr) in Ha. rewrite Hl in Ha. by apply Hna.
  - intros Hctx. unfold savePenddingReq. rewrite (proj2 (Z.leb_gt _ _) Hlt).
    destruct (px_ctx p1 !! slot) as [s|] eqn:Es; [|done]. unfold px_find. cbn. rewrite lookup_insert_eq. cbn.
    rewrite find_insert by (by apply (px_ok p1 Hinv1 slot)). rewrite decide_True by done.
    unfold px_find in Hf1. rewrite Es in Hf1. cbn in Hf1. by rewrite Hf1.
Qed.

(** a disconnection forgets, in every slot, exactly the requests of that
    connection and of those that are gone. *)
Theorem proxy_cleanup_exact p user slot id req :
  px_reachable p ->
  px_find (onDisconnect user p) slot id = Some req <->
  px_find p slot id = Some req /\ userWeak req <> user /\ userWeak req ∈ px_alive p.
Proof.
  intros Hinv%px_reachable_inv. unfold onDisconnect, cleanupUserPending. rewrite sweep_find by done.
  destruct (px_find p slot id) as [r|]; cbn; [|naive_solver]. unfold req_gone. repeat case_bool_decide; cbn; naive_solver.
Qed.

End proxy.

(** ** Witnesses: one slot, one connection, one request *)

Abbreviation demo := (proxy (S:=list (gmap Z PenddingReq))).

Definition demo_header : lymsg_header := MkHeader 7 0 LYMSG_TYPE_DB_MYSQL 5 0.
Definition demo_user : demo := set_alive ({[1%nat]} ∪ ∅) (started 3 [0]).
Definition demo_sent : demo :=
  onRecvMsg LYMSG_TYPE_DB_MYSQL (fun _ => 0) false 1%nat (packMsg demo_header [x41]) demo_user.
Definition demo_read : lymsg_header :=
  match unpackMsg (Some (packMsg demo_header [x41])) with Some (h, _) => h | None => demo_header end.
Definition demo_saving : saving := MkSaving 100 0 (MkPend 1%nat demo_read).
Definition demo_saved : demo := savePenddingReq 100 (MkPend 1%nat demo_read) 0 (set_saving [] demo_sent).

Lemma demo_sent_reachable : px_reachable demo_sent.
Proof.
  exists 3, [0]. split; [apply NoDup_singleton|]. eapply rtc_l; [apply (px_create _ 1%nat); cbn; set_solver|].
  apply recv_steps. cbn. set_solver.
Qed.

Lemma demo_saved_reachable : px_reachable demo_saved.
Proof.
  destruct demo_sent_reachable as (o & l & Hl & Hr). exists o, l. split; [exact Hl|]. eapply rtc_r; [exact Hr|].
  exact (px_save demo_sent [] demo_saving [] eq_refl).
Qed.

Lemma pool_refines_view_witness : exists v',
  (v' = MkView 101 [100] [] \/ vstep (MkView 101 [100] []) v') /\ pool_view DbPool.demo_submitted v'.
Proof.
  apply (pool_refines_view (DbPool.submit_id 7%nat DbPool.demo_start)).
  - exists 1. apply rtc_once. apply ps_id. reflexivity.
  - split_and!; reflexivity.
  - exact (ps_push (DbPool.submit_id 7%nat DbPool.demo_start) [] (MkDbReq 100 0 7%nat) [] eq_refl).
Defined.

Definition demo_answered : demo :=
  onResponseBase 100 [x42] 0 (set_views (<[0 := MkView 101 [] []]> (px_views demo_saved)) demo_saved).


Lemma early_answer_lost_witness :
  px_log (onResponseBase 100 [x42] 0 (set_views (<[0 := MkView 101 [] []]> (px_views demo_sent)) demo_sent)) = px_log demo_sent.
Proof.
  destruct (early_answer_lost demo_sent demo_sent 0 (MkView 101 [] [100]) demo_saving [] [] [] [x42] demo_sent_reachable)
    as (_ & H & _); first [reflexivity|exact H].
Defined.

Lemma proxy_cleanup_exact_witness : px_find (onDisconnect 1%nat demo_saved) 0 100 = None.
Proof.
  destruct (px_find (onDisconnect 1%nat demo_saved) 0 100) as [req|] eqn:E; [|reflexivity].
  apply (proxy_cleanup_exact demo_saved 1%nat 0 100 req demo_saved_reachable) in E as (Hf & Hne & _).
  injection Hf as <-. by destruct Hne.
Defined.
