(* ===== verification/ProxyLife.v ===== *)
(** * The life cycle of a database proxy ([lygc/dbproxy_base.hpp],
      [dbproxy_mysql.hpp], [dbproxy_redis.hpp], [dbproxy_mongo.hpp])

    Opening, starting, stopping and closing, over the server of [ServerLife] and
    the [proxy] of [DbProxy]. The pools are objects of a heap, with the state of
    their threads; [pl_log] records what happens to the driver, the pools and the
    contexts, in order. The three classes are the same program up to the calls of
    the driver. *)

From S2P Require Import Prelude SocketPoll TcpUser Dispatch TcpServer ServerLife Shards.
From S2P Require DbProxy.

Inductive db_kind := MySQL | Redis | Mongo.

#[export] Instance db_kind_eq_dec : EqDecision db_kind.
Proof. solve_decision. Defined.

Inductive pool_state := Running | Stopped | Joined.

(** [MySQLPoolConf] and its kind: [param.DBSlotNo] and [pool_size]. *)
Record pool_conf := MkPoolConf { pc_slot : Z; pc_size : Z }.
Record pool_obj := MkPoolObj { po_conf : pool_conf; po_state : pool_state }.

Inductive life_event :=
| DriverInit
| DriverCleanup
| PoolStart (id : nat)
| PoolStop (id : nat)
| PoolJoin (id : nat)
| PoolDelete (id : nat)
| CtxReset.

Section life.
Context {P : Type} {PI : Poller P} {PF : PollerFactory P} {S : Type} `{PS : PendStore S DbProxy.PenddingReq}.

Record plife := MkPlife {
  pl_srv : life P;
  pl_proxy : DbProxy.proxy (S:=S);
  pl_heap : gmap nat pool_obj;
  pl_next : nat;
  pl_pools : gmap Z nat;             (* _pools *)
  pl_log : list life_event;
}.

Definition new_plife (p : P) (origin : Z) : plife := MkPlife (new_life p) (DbProxy.new_proxy origin) ∅ 0 ∅ [].

Definition logs (es : list life_event) (l : plife) : plife :=
  MkPlife (pl_srv l) (pl_proxy l) (pl_heap l) (pl_next l) (pl_pools l) (pl_log l ++ es).
Definition set_srv (v : life P) (l : plife) : plife :=
  MkPlife v (pl_proxy l) (pl_heap l) (pl_next l) (pl_pools l) (pl_log l).

(** [initDriver], [cleanupDriver]: hiredis has none. *)
Definition driver (k : db_kind) (e : life_event) (l : plife) : plife := match k with Redis => l | _ => logs [e] l end.
Definition initDriver (k : db_kind) : plife -> plife := driver k DriverInit.
Definition cleanupDriver (k : db_kind) : plife -> plife := driver k DriverCleanup.

(** One round of [initPools]. The result of the pool's [start] is not looked at. *)
Definition initPool (l : plife) (conf : pool_conf) : plife :=
  if DbProxy.MAX_DB_SLOTS <=? pc_slot conf then l
  else
    let id := pl_next l in
    MkPlife (pl_srv l) (DbProxy.initPool (pc_slot conf) (pl_proxy l)) (<[id := MkPoolObj conf Running]> (pl_heap l)) (id + 1)
      (<[pc_slot conf := id]> (pl_pools l)) (pl_log l ++ [PoolStart id]).
Definition initPools (confs : list pool_conf) (l : plife) : plife := foldl initPool l confs.

Definition open (k : db_kind) (e : open_env) (l : plife) : Z * list Z * plife :=
  let '(rc, closed, s) := ServerLife.open e (lf_srv (pl_srv l)) in
  let v := pl_srv l in
  let l1 := set_srv (MkLife s (lf_shutdown v) (lf_ids v) (lf_threads v) (lf_io v) (lf_stat v)) l in
  (rc, closed, if rc =? 0 then initDriver k l1 else l1).

Definition start (confs : list pool_conf) (serverWorkers : Z) (l : plife) : option plife :=
  let l1 := initPools confs l in
  v ← ServerLife.start serverWorkers [] (pl_srv l1); Some (set_srv v l1).

(** One round of [cleanupPools]: [pool->stop()], [pool->serveUtilStop()], [delete]. *)
Definition end_pool (l : plife) (id : nat) : plife :=
  MkPlife (pl_srv l) (pl_proxy l) (delete id (pl_heap l)) (pl_next l) (pl_pools l)
    (pl_log l ++ [PoolStop id; PoolJoin id; PoolDelete id]).

(** The slots in order; the pools of the copy of [_pools], in the order of the slots. *)
Definition slots : list Z := Z.of_nat <$> seq 0 (Z.to_nat DbProxy.MAX_DB_SLOTS).
Definition in_order (pools : gmap Z nat) : list nat := omap (fun slot => pools !! slot) slots.
Definition cleanupPools (l : plife) : plife :=
  foldl end_pool (MkPlife (pl_srv l) (DbProxy.forgetPools (pl_proxy l)) (pl_heap l) (pl_next l) ∅ (pl_log l)) (in_order (pl_pools l)).

Definition serveUtilStop (l : plife) : option plife :=
  v ← ServerLife.serveUtilStop (pl_srv l);
  let l1 := cleanupPools (set_srv v l) in
  Some (MkPlife (pl_srv l1) (DbProxy.releaseCtx (pl_proxy l1)) (pl_heap l1) (pl_next l1) (pl_pools l1) (pl_log l1 ++ [CtxReset])).

(** [tcpsock_server::stop], with the virtual [serveUtilStop]. *)
Definition stop (join : bool) (l : plife) : option plife :=
  v ← ServerLife.stop false (pl_srv l); if join then serveUtilStop (set_srv v l) else Some (set_srv v l).

Definition close (k : db_kind) (l : plife) : list Z * plife :=
  let '(fds, s) := ServerLife.close (lf_srv (pl_srv l)) in
  let v := pl_srv l in
  (fds, cleanupDriver k (set_srv (MkLife s (lf_shutdown v) (lf_ids v) (lf_threads v) (lf_io v) (lf_stat v)) l)).

(** The three classes. *)
Definition mysql_initPools := initPools.
Definition redis_initPools := initPools.
Definition mongo_initPools := initPools.
Definition mysql_start := start.
Definition redis_start := start.
Definition mongo_start := start.
Definition mysql_cleanupPools := cleanupPools.
Definition redis_cleanupPools := cleanupPools.
Definition mongo_cleanupPools := cleanupPools.
Definition redis_submit := DbProxy.submit (S:=S).
Definition mongo_submit := DbProxy.submit (S:=S).

(** ** Starting *)

(** The configurations that name a slot. *)
Definition valid (confs : list pool_conf) : list pool_conf := filter (fun c => pc_slot c < DbProxy.MAX_DB_SLOTS) confs.

(** The last configuration of a slot. *)
Definition last_of (vs : list pool_conf) (slot : Z) (id : nat) : Prop :=
  (exists c, vs !! id = Some c /\ pc_slot c = slot) /\ forall j c, (id < j)%nat -> vs !! j = Some c -> pc_slot c <> slot.

Lemma last_of_snoc vs c slot id :
  last_of (vs ++ [c]) slot id <-> (if decide (pc_slot c = slot) then id = length vs else last_of vs slot id).
Proof.
  unfold last_of. setoid_rewrite lookup_app. split.
  - intros [(c' & Hc & Hs) Hl]. case_decide as Hd.
    + destruct (vs !! id) as [x|] eqn:E.
      * exfalso. apply (Hl (length vs) c); [by eapply lookup_lt_Some|by rewrite lookup_ge_None_2, Nat.sub_diag|done].
      * apply lookup_ge_None in E. destruct (id - length vs)%nat eqn:En; [lia|done].
    + destruct (vs !! id) as [x|] eqn:E.
      * split; [by exists c'|]. intros j d Hj Hd'. apply (Hl j d Hj). by rewrite Hd'.
      * destruct (id - length vs)%nat; [|done]. by injection Hc as ->.
  - case_decide as Hd.
    + intros ->. rewrite lookup_ge_None_2, Nat.sub_diag by lia. split; [by exists c|].
      intros j d Hj. rewrite lookup_ge_None_2 by lia. destruct (j - length vs)%nat eqn:En; [lia|done].
    + intros [(c' & Hc & Hs) Hl]. rewrite Hc. split; [by exists c'|]. intros j d Hj.
      destruct (vs !! j) as [x|] eqn:E; [intros [= <-]; by apply (Hl j)|]. destruct (j - length vs)%nat; [|done]. by intros [= <-].
Qed.

Record pools_are (vs : list pool_conf) (l : plife) : Prop := {
  pa_heap : forall id, pl_heap l !! id = (fun c => MkPoolObj c Running) <$> vs !! id;
  pa_next : pl_next l = length vs;
  pa_pools : forall slot id, pl_pools l !! slot = Some id <-> last_of vs slot id;
}.

(** Before the first start. *)
Record unstarted (origin : Z) (l : plife) : Prop := {
  un_proxy : pl_proxy l = DbProxy.new_proxy origin;
  un_heap : pl_heap l = ∅;
  un_next : pl_next l = 0%nat;
  un_pools : pl_pools l = ∅;
}.

Lemma initPools_spec confs l0 origin : unstarted origin l0 ->
  let l := initPools confs l0 in
  pools_are (valid confs) l /\ pl_srv l = pl_srv l0 /\
  pl_proxy l = DbProxy.started origin (reverse (pc_slot <$> valid confs)) /\
  pl_log l = pl_log l0 ++ (PoolStart <$> seq 0 (length (valid confs))).
Proof.
  intros [U1 U2 U3 U4]. unfold initPools, valid. induction confs as [|c confs IH] using rev_ind; cbn zeta in *.
  - split; [|by rewrite app_nil_r]. split; cbn [foldl]; rewrite ?U2, ?U3, ?U4; [done|done|]. intros slot id. rewrite lookup_empty.
    split; [done|]. intros [(c & Hc & _) _]. done.
  - rewrite foldl_app, filter_app. cbn [foldl]. destruct IH as ([H1 H2 H3] & H4 & H5 & H6).
    set (l := foldl initPool l0 confs) in *. set (vs := filter _ confs) in *.
    unfold initPool. destruct (Z.leb_spec DbProxy.MAX_DB_SLOTS (pc_slot c)) as [Hge|Hlt].
    + rewrite filter_cons, decide_False, filter_nil, app_nil_r by lia. split; [by split|done].
    + rewrite filter_cons, decide_True, filter_nil by lia. cbn [pl_heap pl_next pl_pools pl_srv pl_proxy pl_log]. split_and!.
      * split; cbn [pl_heap pl_next pl_pools].
        -- intros id. rewrite lookup_insert, H2, H1. case_decide as Hd.
           ++ subst id. by rewrite lookup_app_r, Nat.sub_diag by lia.
           ++ destruct (decide (id < length vs)%nat); [by rewrite lookup_app_l|].
              rewrite !lookup_ge_None_2; [done|rewrite length_app; cbn; lia|lia].
        -- rewrite H2, length_app. done.
        -- intros slot id. rewrite lookup_insert, last_of_snoc, H2. case_decide; [|by rewrite H3]. split; [by intros [= ->]|by intros ->].
      * done.
      * rewrite H5, fmap_app, reverse_app. done.
      * rewrite H6, length_app, H2, <- app_assoc. cbn [length]. by rewrite seq_app, fmap_app.
Qed.

(** ** Ending *)

Lemma foldl_end_pool ids l :
  let l' := foldl end_pool l ids in
  pl_srv l' = pl_srv l /\ pl_proxy l' = pl_proxy l /\ pl_pools l' = pl_pools l /\
  (forall id, pl_heap l' !! id = if decide (id ∈ ids) then None else pl_heap l !! id) /\
  pl_log l' = pl_log l ++ concat ((fun id => [PoolStop id; PoolJoin id; PoolDelete id]) <$> ids).
Proof.
  revert l. induction ids as [|i ids IH]; intros l; cbn [foldl]; cbn zeta.
  - split_and!; try done. cbn. by rewrite app_nil_r.
  - destruct (IH (end_pool l i)) as (H1 & H2 & H3 & H4 & H5). split_and!; [done..| |].
    + intros id. rewrite H4. cbn [end_pool pl_heap]. destruct (decide (id ∈ ids)) as [Hin|Hin].
      * by rewrite decide_True by (by right).
      * destruct (decide (id = i)) as [->|Hne]; [by rewrite lookup_delete_eq, decide_True by left|].
        rewrite lookup_delete_ne by done. rewrite decide_False; [done|]. by apply not_elem_of_cons.
    + rewrite H5. cbn [end_pool pl_log fmap list_fmap concat]. by rewrite <- app_assoc.
Qed.

Lemma slots_elem s : s ∈ slots <-> 0 <= s < DbProxy.MAX_DB_SLOTS.
Proof.
  unfold slots. rewrite list_elem_of_fmap. split.
  - intros (n & -> & Hn%elem_of_seq). unfold DbProxy.MAX_DB_SLOTS in *. lia.
  - intros Hs. exists (Z.to_nat s). split; [lia|]. apply elem_of_seq. unfold DbProxy.MAX_DB_SLOTS in *. lia.
Qed.

(** The pools that the last configuration of each slot made. *)
Lemma in_order_elem vs l id : pools_are vs l -> Forall (fun c => 0 <= pc_slot c < DbProxy.MAX_DB_SLOTS) vs ->
  id ∈ in_order (pl_pools l) <-> exists c, vs !! id = Some c /\ forall j c', (id < j)%nat -> vs !! j = Some c' -> pc_slot c' <> pc_slot c.
Proof.
  intros Hp Hv. unfold in_order. rewrite list_elem_of_omap. setoid_rewrite (pa_pools _ _ Hp). split.
  - intros (s & _ & (c & Hc & <-) & Hl). by exists c.
  - intros (c & Hc & Hl). exists (pc_slot c). split; [|split; [by exists c|done]]. apply slots_elem.
    by apply (Forall_lookup_1 _ _ _ _ Hv Hc).
Qed.

Lemma cleanupPools_spec l :
  let l' := cleanupPools l in
  pl_srv l' = pl_srv l /\ pl_proxy l' = DbProxy.forgetPools (pl_proxy l) /\ pl_pools l' = ∅ /\
  (forall id, pl_heap l' !! id = if decide (id ∈ in_order (pl_pools l)) then None else pl_heap l !! id) /\
  pl_log l' = pl_log l ++ concat ((fun id => [PoolStop id; PoolJoin id; PoolDelete id]) <$> in_order (pl_pools l)).
Proof.
  unfold cleanupPools. set (l1 := MkPlife _ _ _ _ _ _). apply (foldl_end_pool (in_order (pl_pools l)) l1).
Qed.

Lemma serveUtilStop_spec l v : ServerLife.serveUtilStop (pl_srv l) = Some v ->
  exists l', serveUtilStop l = Some l' /\ pl_srv l' = v /\ pl_pools l' = ∅ /\
    pl_proxy l' = DbProxy.releaseCtx (DbProxy.forgetPools (pl_proxy l)) /\
    (forall id, pl_heap l' !! id = if decide (id ∈ in_order (pl_pools l)) then None else pl_heap l !! id) /\
    pl_log l' = pl_log l ++ concat ((fun id => [PoolStop id; PoolJoin id; PoolDelete id]) <$> in_order (pl_pools l)) ++ [CtxReset].
Proof.
  intros E. unfold serveUtilStop. rewrite E. cbn [mbind option_bind].
  destruct (cleanupPools_spec (set_srv v l)) as (H1 & H2 & H3 & H4 & H5).
  set (l1 := cleanupPools (set_srv v l)) in *. clearbody l1. cbn [set_srv pl_srv pl_pools pl_proxy pl_heap pl_log] in H1, H2, H3, H4, H5.
  eexists. split; [reflexivity|]. cbn [pl_srv pl_pools pl_proxy pl_heap pl_log].
  rewrite H2, H5, <- app_assoc. by split_and!.
Qed.

(** A proxy that is started once and stopped, whatever its pools: before the
    server's threads run, each configuration with a valid slot has a pool that
    runs and the proxy is as [DbProxy] starts it; at the end no thread of the
    server, its logger's included, no slot and no context is left, and the pools were stopped, joined
    and deleted before the contexts were released. What is left is the pools
    whose slot a later configuration took: they still run. *)
Theorem proxy_run confs n origin (l : plife) :
  unstarted origin l -> fresh_life (pl_srv l) -> Forall (fun c => 0 <= pc_slot c) confs ->
  exists l1 l2, start confs n l = Some l1 /\ stop true l1 = Some l2 /\
    (forall id, pl_heap l1 !! id = (fun c => MkPoolObj c Running) <$> valid confs !! id) /\
    (NoDup (pc_slot <$> valid confs) -> DbProxy.px_reachable (pl_proxy l1)) /\
    halted (pl_srv l2) /\
    DbProxy.px_slots (pl_proxy l2) = ∅ /\ DbProxy.px_ctx (pl_proxy l2) = ∅ /\ pl_pools l2 = ∅ /\
    (forall id po, pl_heap l2 !! id = Some po <-> exists c j c', valid confs !! id = Some c /\ po = MkPoolObj c Running /\
       (id < j)%nat /\ valid confs !! j = Some c' /\ pc_slot c' = pc_slot c) /\
    pl_log l2 = pl_log l ++ (PoolStart <$> seq 0 (length (valid confs))) ++
      concat ((fun id => [PoolStop id; PoolJoin id; PoolDelete id]) <$> in_order (pl_pools l1)) ++ [CtxReset].
Proof.
  intros Hu Hf Hs. destruct (initPools_spec confs l origin Hu) as (Hp & Hsrv & Hpx & Hlog).
  set (l0 := initPools confs l) in *.
  destruct (start_fresh n [] (pl_srv l) Hf) as (v1 & E1 & Hr & _); [constructor|reflexivity|].
  destruct (stop_running n true v1 Hr) as (v3 & E3 & _ & _ & H3 & _). specialize (H3 eq_refl).
  rewrite ServerLife.stop_then_join in E3. destruct (ServerLife.stop false v1) as [v2|] eqn:E2; [|done]. cbn [mbind option_bind] in E3.
  assert (start confs n l = Some (set_srv v1 l0)) as Es by (unfold start; fold l0; by rewrite Hsrv, E1).
  destruct (serveUtilStop_spec (set_srv v2 (set_srv v1 l0)) _ E3) as (l2 & El2 & F1 & F3 & F2 & F4 & F5).
  exists (set_srv v1 l0), l2. split; [done|]. split.
  { unfold stop. cbn [set_srv pl_srv]. rewrite E2. exact El2. }
  cbn [set_srv pl_heap pl_proxy pl_log pl_pools] in *. split_and!.
  - apply (pa_heap _ _ Hp).
  - intros Hnd. exists origin, (reverse (pc_slot <$> valid confs)). split; [by rewrite reverse_Permutation|]. rewrite Hpx. apply rtc_refl.
  - by rewrite F1.
  - by rewrite F2.
  - by rewrite F2.
  - done.
  - intros id po. rewrite F4, (pa_heap _ _ Hp).
    assert (Forall (fun c => 0 <= pc_slot c < DbProxy.MAX_DB_SLOTS) (valid confs)) as Hv.
    { unfold valid. apply Forall_forall. intros c [Hc Hin]%list_elem_of_filter. rewrite Forall_forall in Hs. specialize (Hs c Hin). lia. }
    pose proof (in_order_elem _ _ id Hp Hv) as Hel. case_decide as Hd.
    + split; [done|]. intros (c & j & c' & Hc & _ & Hj & Hc' & E). apply Hel in Hd as (c0 & Hc0 & Hn).
      assert (c0 = c) as -> by congruence. by destruct (Hn j c' Hj Hc').
    + destruct (valid confs !! id) as [c|] eqn:Hc; [|split; [done|by intros (c & ? & ? & ? & _)]]. cbn [fmap option_fmap option_map].
      split; [|by intros (c1 & j & c' & [= <-] & -> & _)]. intros [= <-]. exists c.
      destruct (decide (Exists (fun c' => pc_slot c' = pc_slot c) (drop (Datatypes.S id) (valid confs)))) as [He|He].
      * apply Exists_exists in He as (c' & Hin & E). apply list_elem_of_lookup in Hin as [k Hk]. rewrite lookup_drop in Hk.
        exists (Datatypes.S id + k)%nat, c'. split_and!; [done..|lia|done|done].
      * destruct Hd. apply Hel. exists c. split; [done|]. intros j c' Hj Hc' E. apply He. apply Exists_exists. exists c'.
        split; [|done]. apply list_elem_of_lookup. exists (j - Datatypes.S id)%nat. rewrite lookup_drop.
        by replace (Datatypes.S id + (j - Datatypes.S id))%nat with j by lia.
  - rewrite F5, Hlog. by rewrite <- !app_assoc.
Qed.

(** After that, the answer of a pool that still runs is dropped. *)
Theorem late_answer_dropped id data slot (p : DbProxy.proxy (S:=S)) :
  DbProxy.px_ctx p = ∅ -> DbProxy.onResponseBase id data slot p = p.
Proof. intros H. unfold DbProxy.onResponseBase. case_if; [done|]. by rewrite H, lookup_empty. Qed.

(** The driver is set up when the server listens, and only then; closing cleans it
    up in any case. *)
Theorem driver_exact k e (l : plife) :
  let '(rc, closed, l1) := open k e l in
  pl_log l1 = pl_log l ++ (if (rc =? 0) && negb (bool_decide (k = Redis)) then [DriverInit] else []) /\
  pl_log (snd (close k l1)) = pl_log l1 ++ (if bool_decide (k = Redis) then [] else [DriverCleanup]) /\
  (rc = 0 <-> fst (fst (ServerLife.open e (lf_srv (pl_srv l)))) = 0).
Proof.
  unfold open, close. destruct (ServerLife.open e (lf_srv (pl_srv l))) as [[rc closed] s]. cbn [fst].
  destruct (ServerLife.close _) as [fds s1]. split; [|split; [|done]]; destruct (rc =? 0), k; cbn; by rewrite ?app_nil_r.
Qed.
End life.
Arguments plife : clear implicits.

(** ** Witnesses *)

#[local] Instance proxy_poller : Poller WinPoll.state := WinPoll.win_poller 0x0300 0x0010.

Definition demo_life : plife WinPoll.state (list (gmap Z DbProxy.PenddingReq)) := new_plife (WinPoll.MkState ∅ 0) 3.
Definition demo_confs : list pool_conf := [MkPoolConf 0 4; MkPoolConf 70 4; MkPoolConf 5 2].

Lemma demo_unstarted : unstarted 3 demo_life.
Proof. done. Qed.

Lemma proxy_run_witness : exists l1 l2, start demo_confs 2 demo_life = Some l1 /\ stop true l1 = Some l2 /\
  pl_log l2 = [PoolStart 0; PoolStart 1; PoolStop 0; PoolJoin 0; PoolDelete 0; PoolStop 1; PoolJoin 1; PoolDelete 1; CtxReset].
Proof.
  destruct (proxy_run demo_confs 2 3 demo_life demo_unstarted (new_life_fresh _)) as
    (l1 & l2 & E1 & E2 & _ & _ & _ & _ & _ & _ & _ & H).
  { repeat constructor; discriminate. }
  exists l1, l2. split; [exact E1|]. split; [exact E2|]. rewrite H.
  assert (default demo_life (start demo_confs 2 demo_life) = l1) as <- by (rewrite E1; reflexivity). vm_compute. reflexivity.
Defined.

(** Two configurations with the same slot: the first pool is never stopped. *)
Example same_slot_leaks :
  (l ← start [MkPoolConf 1 4; MkPoolConf 1 2] 2 demo_life; l ← stop true l; Some (map_to_list (pl_heap l))) =
    Some [(0%nat, MkPoolObj (MkPoolConf 1 4) Running)].
Proof. vm_compute. reflexivity. Qed.

(** A proxy that could not listen cleans up a driver that was not set up. *)
Example cleanup_without_init :
  pl_log (snd (close MySQL (snd (open MySQL (MkOpenEnv false 0 0 0 0 0) demo_life)))) = [DriverCleanup].
Proof. vm_compute. reflexivity. Qed.

Lemma late_answer_dropped_witness : DbProxy.onResponseBase 100 [] 0 (pl_proxy demo_life) = pl_proxy demo_life.
Proof. by apply late_answer_dropped. Defined.
