(* ===== verification/RedisClient.v ===== *)
(** * The Redis client ([redis_client] of [wjp/redis_client.hpp])

    hiredis is the interface [Hiredis]: one operation per call, on an abstract
    world [W]; [ctx_err] and [ctx_errstr] read the fields of a context. A client
    is its fields and the world; [rc_trace] is a ghost, the calls it made. A
    method returns what it returns and what it leaves in [err] and [errmsg],
    which every caller passes as 0 and empty. *)

From Stdlib Require Import Strings.String.
From S2P Require Import Prelude Text Serialize DbReq.
From S2P Require DbPool.

(** ** hiredis *)

(** [struct redisReply], the fields that are used. *)
Inductive redisReply := MkReply (type integer : Z) (str : option bytes) (element : list redisReply).

Definition r_type (r : redisReply) : Z := let '(MkReply t _ _ _) := r in t.
Definition r_integer (r : redisReply) : Z := let '(MkReply _ i _ _) := r in i.
Definition r_str (r : redisReply) : option bytes := let '(MkReply _ _ s _) := r in s.
Definition r_element (r : redisReply) : list redisReply := let '(MkReply _ _ _ e) := r in e.

Definition REDIS_ERR : Z := -1.
Definition REDIS_ERR_OOM : Z := 5.
Definition REDIS_REPLY_STRING : Z := 1.
Definition REDIS_REPLY_ARRAY : Z := 2.
Definition REDIS_REPLY_INTEGER : Z := 3.
Definition REDIS_REPLY_NIL : Z := 4.
Definition REDIS_REPLY_STATUS : Z := 5.
Definition REDIS_REPLY_ERROR : Z := 6.

Record redis_client_connect_param := MkRedisParam {
  rp_host : bytes;
  rp_port : Z;
  rp_auth_str : bytes;
  rp_dbname : bytes;
  rp_timeout : Z;
  rp_DBSlotNo : Z;
}.

(** A [timeval]: seconds and microseconds. *)
Abbreviation timeval := (Z * Z)%type.

Class Hiredis (W : Type) := {
  redisConnectWithTimeout : W -> bytes -> Z -> timeval -> option Z * W;   (* None: a null context *)
  redisSetTimeout : W -> Z -> timeval -> Z * W;
  redisCommandArgv : W -> Z -> list bytes -> option redisReply * W;
  redisFree : W -> Z -> W;
  ctx_err : W -> Z -> Z;
  ctx_errstr : W -> Z -> option bytes;
}.

(** A call that fails sets the context's error. *)
Class HiredisLaws (W : Type) `{Hiredis W} : Prop := {
  law_timeout w c tv w' : redisSetTimeout w c tv = (REDIS_ERR, w') -> ctx_err w' c <> 0;
}.

Inductive rcall :=
| RConnect (c : Z)
| RFree (c : Z)
| RAuth (c : Z) (reply : option redisReply)
| RCommand (c : Z) (argv : list bytes) (reply : option redisReply).

Section client.
Context {W : Type} {HW : Hiredis W}.

Record redis_client := MkRedisClient {
  rc_context : option Z;
  rc_connState : bool;
  rc_param : redis_client_connect_param;
  rc_world : W;
  rc_trace : list rcall;
}.

Definition new_redis_client (w : W) : redis_client :=
  MkRedisClient None false (MkRedisParam (lit "127.0.0.1") 6379 [] [] 1000 0) w [].

Definition flushConnState (state : bool) (s : redis_client) : redis_client :=
  MkRedisClient (rc_context s) state (rc_param s) (rc_world s) (rc_trace s).

Definition getConnState (s : redis_client) : bool := rc_connState s.

(** The world after a call that is recorded. *)
Definition called (e : list rcall) (w : W) (s : redis_client) : redis_client :=
  MkRedisClient (rc_context s) (rc_connState s) (rc_param s) w (rc_trace s ++ e).

Definition set_context (c : option Z) (s : redis_client) : redis_client :=
  MkRedisClient c (rc_connState s) (rc_param s) (rc_world s) (rc_trace s).

Definition close (s : redis_client) : redis_client :=
  let s :=
    match rc_context s with
    | Some c => set_context None (called [RFree c] (redisFree (rc_world s) c) s)
    | None => s
    end in
  flushConnState false s.

Definition timeval_of (timeout : Z) : timeval := (Z.quot timeout 1000, Z.rem timeout 1000 * 1000).

Definition setTimeout (timeout : Z) (s : redis_client) : Z * redis_client :=
  match rc_context s with
  | None => (-1, s)
  | Some c => let '(rc, w) := redisSetTimeout (rc_world s) c (timeval_of timeout) in (rc, called [] w s)
  end.

Definition auth_errmsg (err : Z) (errstr : option bytes) (reply : option redisReply) : bytes :=
  match (if err =? 0 then None else errstr), reply with
  | Some m, _ => m
  | None, Some r => if r_type r =? REDIS_REPLY_ERROR then default (lit "unknown error") (r_str r) else lit "unknown error"
  | None, None => lit "unknown error"
  end.

(** The result, [err], [errmsg] and the client. *)
Definition connect (s : redis_client) : Z * Z * bytes * redis_client :=
  let s := close s in
  let tv := timeval_of (rp_timeout (rc_param s)) in
  let '(c, w) := redisConnectWithTimeout (rc_world s) (c_str (rp_host (rc_param s))) (rp_port (rc_param s)) tv in
  let s := set_context c (called (RConnect <$> option_list c) w s) in
  match c with
  | None => (-1, REDIS_ERR_OOM, lit "redisConnectWithTimeout returned null (out of memory)", s)
  | Some c =>
      if negb (ctx_err w c =? 0)
      then (-2, ctx_err w c, default (lit "unknown error") (ctx_errstr w c), close s)
      else
        let '(rc, w) := redisSetTimeout w c tv in
        let s := called [] w s in
        if REDIS_ERR =? rc
        then (-3, ctx_err w c, default (lit "redisSetTimeout failed") (ctx_errstr w c), close s)
        else if bool_decide (rp_auth_str (rc_param s) = []) then (0, 0, [], flushConnState true s)
        else
          let '(reply, w) := redisCommandArgv w c [lit "AUTH"; rp_auth_str (rc_param s)] in
          let s := called [RAuth c reply] w s in
          let failed := match reply with None => true | Some r => r_type r =? REDIS_REPLY_ERROR end in
          if failed || negb (ctx_err w c =? 0) then
            (-4, (if ctx_err w c =? 0 then REDIS_REPLY_ERROR else ctx_err w c),
             auth_errmsg (ctx_err w c) (ctx_errstr w c) reply, close s)
          else (0, 0, [], flushConnState true s)
  end.

Definition open (param : redis_client_connect_param) (s : redis_client) : Z * Z * bytes * redis_client :=
  connect (MkRedisClient (rc_context s) (rc_connState s) param (rc_world s) (rc_trace s)).

(** [redisCommandArgv] on the current context. *)
Definition command (c : Z) (args : list bytes) (s : redis_client) : option redisReply * redis_client :=
  let '(reply, w) := redisCommandArgv (rc_world s) c args in
  (reply, called [RCommand c args reply] w s).

(** The end of [execCommand], from the check of the reply on. *)
Definition check_reply (c : Z) (reply : option redisReply) (err : Z) (errmsg : bytes) (s : redis_client)
  : option redisReply * Z * bytes * redis_client :=
  let e := ctx_err (rc_world s) c in
  match reply with
  | Some r =>
      if negb (e =? 0)
      then (None, e, default (lit "unknown error") (ctx_errstr (rc_world s) c), close s)
      else if r_type r =? REDIS_REPLY_ERROR
      then (None, REDIS_REPLY_ERROR, default (lit "unknown error") (r_str r), s)
      else (Some r, err, errmsg, flushConnState true s)
  | None =>
      (None, (if e =? 0 then REDIS_REPLY_ERROR else e), default (lit "unknown error") (ctx_errstr (rc_world s) c), close s)
  end.

(** [redisCommandArgv], and once more on a new connection when it fails. *)
Definition exec_on (c : Z) (args : list bytes) (err : Z) (errmsg : bytes) (s : redis_client)
  : option redisReply * Z * bytes * redis_client :=
  let '(reply, s) := command c args s in
  match reply with
  | Some _ => check_reply c reply err errmsg s
  | None =>
      let '(rc, err, errmsg, s) := connect s in
      if negb (rc =? 0) then (None, err, errmsg, s)
      else
        match rc_context s with
        | None => (None, err, errmsg, s)
        | Some c => let '(reply, s) := command c args s in check_reply c reply err errmsg s
        end
  end.

Definition execCommand (args : list bytes) (s : redis_client) : option redisReply * Z * bytes * redis_client :=
  match rc_context s with
  | Some c => exec_on c args 0 [] s
  | None =>
      let '(rc, err, errmsg, s) := connect s in
      if negb (rc =? 0) then (None, err, errmsg, s)
      else
        match rc_context s with
        | None => (None, err, errmsg, s)
        | Some c => exec_on c args err errmsg s
        end
  end.

(** ** Conversion of the replies *)

Definition ExecSuccess : Z := 0.
Definition ExecKeyNotExist : Z := 10001.
Definition ExecUnexpectedType : Z := 10002.

Definition getReplyStr (r : redisReply) : bytes := default [] (r_str r).

(** [*ec], for a reply that should be of type [expected]. *)
Definition reply_code (expected : Z) (r : redisReply) : Z :=
  if r_type r =? expected then ExecSuccess
  else if r_type r =? REDIS_REPLY_NIL then ExecKeyNotExist
  else ExecUnexpectedType.

(** What [execCommandStat] to [execCommandSCA] have in common: the result, [ec]
    and the client. *)
Definition exec_as {A} (expected : Z) (convert : redisReply -> A) (none : A) (args : list bytes) (s : redis_client)
  : A * Z * redis_client :=
  let '(reply, err, _, s) := execCommand args s in
  match reply with
  | Some r => ((if r_type r =? expected then convert r else none), reply_code expected r, s)
  | None => (none, err, s)
  end.

(** [strncmp(str, "OK", 2) == 0]. *)
Definition stat_of (r : redisReply) : bool :=
  match r_str r with Some m => (2 <=? size_of m) && bool_decide (take 2 m = lit "OK") | None => false end.

(** [int rc = reply->integer]. *)
Definition int_of (r : redisReply) : Z := swrap 32 (r_integer r).

Definition element_text (r : redisReply) : option bytes :=
  if r_type r =? REDIS_REPLY_STRING then Some (getReplyStr r)
  else if r_type r =? REDIS_REPLY_INTEGER then Some (to_string (r_integer r))
  else None.

Definition array_of (r : redisReply) : DataRow := omap element_text (r_element r).

(** The loop of [execCommandSM] from element [i] on. *)
Fixpoint map_loop (i : Z) (l : list redisReply) (key : bytes) (result : StringMap) : StringMap :=
  match l with
  | [] => result
  | r :: l =>
      match (if r_type r =? REDIS_REPLY_NIL then Some [] else element_text r) with
      | Some x => if Z.even i then map_loop (i + 1) l x result else map_loop (i + 1) l key (map_set result key x)
      | None => map_loop (i + 1) l key result
      end
  end.
Definition map_of (r : redisReply) : StringMap := map_loop 0 (r_element r) [] [].

(** The loop of [execCommandSCA]. *)
Fixpoint score_loop (i : Z) (l : list redisReply) (str : bytes) (result : ScoreArray) : ScoreArray :=
  match l with
  | [] => result
  | r :: l =>
      if r_type r =? REDIS_REPLY_STRING then
        if Z.even i then score_loop (i + 1) l (getReplyStr r) result
        else score_loop (i + 1) l str (result ++ [(strtod (getReplyStr r), str)])
      else if r_type r =? REDIS_REPLY_INTEGER then
        if Z.even i then score_loop (i + 1) l (to_string (r_integer r)) result
        else score_loop (i + 1) l str (result ++ [(double_of_int (r_integer r), str)])
      else if r_type r =? REDIS_REPLY_NIL then
        if Z.even i then score_loop (i + 1) l [] result
        else score_loop (i + 1) l str (if bool_decide (str = []) then result else result ++ [(0, str)])
      else score_loop (i + 1) l str result
  end.
Definition scores_of (r : redisReply) : ScoreArray := score_loop 0 (r_element r) [] [].

Definition execCommandStat := exec_as REDIS_REPLY_STATUS stat_of false.
Definition execCommandInt := exec_as REDIS_REPLY_INTEGER int_of 0.
Definition execCommandStr := exec_as REDIS_REPLY_STRING getReplyStr [].
Definition execCommandSA := exec_as REDIS_REPLY_ARRAY array_of [].
Definition execCommandSM := exec_as REDIS_REPLY_ARRAY map_of [].
Definition execCommandSCA (args : list bytes) := exec_as REDIS_REPLY_ARRAY scores_of [] (args ++ [lit "WITHSCORES"]).

(** ** [redis_client_pool::handleRequest] *)

(** The response it hands to the listener, once, and the client. *)
Definition handleRequest (id : Z) (req : redis_client_req) (s : redis_client) : redis_client_resp * redis_client :=
  let resp := MkRedisResp 0 id (rd_type req) in
  let rc_of ec := if negb (ec =? 0) then -1 else 0 in
  if rd_type req =? DbReq.execCommandStat then
    let '(v, ec, s) := execCommandStat (rd_argv req) s in (resp (rc_of ec) v 0 [] [] [] [], s)
  else if rd_type req =? DbReq.execCommandInt then
    let '(v, ec, s) := execCommandInt (rd_argv req) s in (resp (rc_of ec) false v [] [] [] [], s)
  else if rd_type req =? DbReq.execCommandStr then
    let '(v, ec, s) := execCommandStr (rd_argv req) s in (resp (rc_of ec) false 0 v [] [] [], s)
  else if rd_type req =? DbReq.execCommandSA then
    let '(v, ec, s) := execCommandSA (rd_argv req) s in (resp (rc_of ec) false 0 [] v [] [], s)
  else if rd_type req =? DbReq.execCommandSM then
    let '(v, ec, s) := execCommandSM (rd_argv req) s in (resp (rc_of ec) false 0 [] [] v [], s)
  else if rd_type req =? DbReq.execCommandSCA then
    let '(v, ec, s) := execCommandSCA (rd_argv req) s in (resp (rc_of ec) false 0 [] [] [] v, s)
  else (resp DbPool.RESP_RC_TYPE_INVALID false 0 [] [] [] [], s).

(** ** The contexts *)

(** Following the calls from a current context: [None] where a context is
    leaked, used after it was freed, or freed twice. *)
Fixpoint follow (c : option Z) (l : list rcall) : option (option Z) :=
  match l with
  | [] => Some c
  | RConnect c' :: l => match c with None => follow (Some c') l | Some _ => None end
  | RFree c' :: l => if bool_decide (c = Some c') then follow None l else None
  | RAuth c' _ :: l | RCommand c' _ _ :: l => if bool_decide (c = Some c') then follow c l else None
  end.

(** The connection state is that there is a context, and the calls so far used
    contexts properly. *)
Record client_ok (s : redis_client) : Prop := {
  ok_state : rc_connState s = bool_decide (is_Some (rc_context s));
  ok_calls : follow None (rc_trace s) = Some (rc_context s);
}.

(** How often a command was sent. *)
Definition sent (args : list bytes) (l : list rcall) : list (option redisReply) :=
  omap (fun e => match e with RCommand _ a r => if bool_decide (a = args) then Some r else None | _ => None end) l.
End client.

(** ** Properties *)

Section properties.
Context {W : Type} {HW : Hiredis W}.
Abbreviation client := (redis_client (W:=W)).

Lemma follow_app c l k : follow c (l ++ k) = (follow c l ≫= fun c' => follow c' k).
Proof. revert c. induction l as [|e l IH]; intros c; [done|]. destruct e; cbn; repeat case_match; auto. Qed.

Lemma sent_app args l k : sent args (l ++ k) = sent args l ++ sent args k.
Proof. apply omap_app. Qed.

(** What a part of a method did: the calls it added, the command [args] sent
    with the answers [rs]. *)
Record ran (s : client) (args : list bytes) (rs : list (option redisReply)) (s' : client) : Prop := {
  ran_ok : follow None (rc_trace s') = Some (rc_context s');
  ran_calls : exists l, rc_trace s' = rc_trace s ++ l /\ sent args l = rs;
}.

Definition connected (s : client) : Prop := rc_connState s = bool_decide (is_Some (rc_context s)).

Lemma client_ok_ran s args rs s' : ran s args rs s' -> connected s' -> client_ok s'.
Proof. by intros [H _] Hc. Qed.

Lemma ran_same s args : follow None (rc_trace s) = Some (rc_context s) -> ran s args [] s.
Proof. intros H. split; [done|]. exists []. by rewrite app_nil_r. Qed.

Lemma ran_trans s1 s2 s3 args rs rs' : ran s1 args rs s2 -> ran s2 args rs' s3 -> ran s1 args (rs ++ rs') s3.
Proof.
  intros [_ (l & E & H)] [Hok (l' & E' & H')]. split; [done|].
  exists (l ++ l'). rewrite E', E, sent_app, H, H'. split; [|done]. by rewrite app_assoc.
Qed.

(** A call on the current context, then more. *)
Lemma ran_called s e w args rs s' c :
  follow None (rc_trace s) = Some (rc_context s) -> follow (rc_context s) e = Some c ->
  ran (set_context c (called e w s)) args rs s' -> ran s args (sent args e ++ rs) s'.
Proof.
  intros Hs He. apply ran_trans. split; cbn; [|by exists e]. by rewrite follow_app, Hs.
Qed.

Lemma close_ran s args : follow None (rc_trace s) = Some (rc_context s) ->
  ran s args [] (close s) /\ rc_context (close s) = None /\ connected (close s) /\ rc_param (close s) = rc_param s.
Proof.
  intros Hc. unfold close, connected. destruct (rc_context s) as [c|] eqn:E; cbn.
  - split_and!; try done. split; [|by exists [RFree c]]. cbn.
    rewrite follow_app, Hc. cbn. by rewrite bool_decide_true.
  - split_and!; try done; [|by rewrite E]. split; cbn; [by rewrite Hc, E|]. exists []. by rewrite app_nil_r.
Qed.

Lemma flush_ran s args c : follow None (rc_trace s) = Some (rc_context s) -> rc_context s = Some c ->
  ran s args [] (flushConnState true s) /\ connected (flushConnState true s).
Proof. intros Hc E. split; [split; cbn; [done|]; exists []; by rewrite app_nil_r|]. unfold connected. cbn. by rewrite E. Qed.

(** A call that is not recorded. *)
Lemma quiet_ran s args rs s' w : ran s args rs s' -> ran s args rs (called [] w s').
Proof.
  intros [H (l & E & Hl)]. split; cbn; [by rewrite app_nil_r|]. exists l. by rewrite E, app_nil_r.
Qed.

Lemma auth_ran s args rs s' w c reply :
  ran s args rs s' -> rc_context s' = Some c -> ran s args rs (called [RAuth c reply] w s').
Proof.
  intros [H (l & E & Hl)] Hc. split; cbn.
  - rewrite follow_app, H, Hc. cbn. by rewrite bool_decide_true.
  - exists (l ++ [RAuth c reply]). by rewrite E, app_assoc, sent_app, Hl, app_nil_r.
Qed.

Lemma command_ran s args rs s' reply c s'' :
  ran s args rs s' -> rc_context s' = Some c -> command c args s' = (reply, s'') ->
  ran s args (rs ++ [reply]) s'' /\ rc_context s'' = Some c /\ rc_connState s'' = rc_connState s'.
Proof.
  intros [H (l & E & Hl)] Hc. unfold command. destruct (redisCommandArgv _ _ _) as [r w].
  intros [= <- <-]. split_and!; [|done..]. split; cbn.
  - rewrite follow_app, H, Hc. cbn. by rewrite bool_decide_true.
  - exists (l ++ [RCommand c args r]). rewrite E, app_assoc, sent_app, Hl. cbn. by rewrite bool_decide_true.
Qed.

Lemma fail_ran s args rs s' : ran s args rs s' ->
  ran s args rs (close s') /\ rc_context (close s') = None /\ connected (close s').
Proof.
  intros R. destruct (close_ran s' args (ran_ok _ _ _ _ R)) as (R' & E & C & _). split_and!; [|done..].
  rewrite <- (app_nil_r rs). by eapply ran_trans.
Qed.

Lemma success_ran s args rs s' c : ran s args rs s' -> rc_context s' = Some c ->
  ran s args rs (flushConnState true s') /\ connected (flushConnState true s').
Proof.
  intros R E. destruct (flush_ran s' args c (ran_ok _ _ _ _ R) E) as [R' C]. split; [|done].
  rewrite <- (app_nil_r rs). by eapply ran_trans.
Qed.

(** [connect] leaves a context if and only if it returns 0, and sends no command. *)
Lemma connect_ran s args rc err errmsg s' :
  follow None (rc_trace s) = Some (rc_context s) -> connect s = (rc, err, errmsg, s') ->
  ran s args [] s' /\ connected s' /\
  ((rc = 0 /\ err = 0 /\ errmsg = [] /\ exists c, rc_context s' = Some c) \/
   (-4 <= rc < 0 /\ rc_context s' = None /\ (HiredisLaws W -> err <> 0))).
Proof.
  intros Hs. destruct (close_ran s args Hs) as (R1 & E1 & C1 & _). unfold connect.
  set (s1 := close s) in *. clearbody s1.
  assert (forall s2 rc' err' msg', ran s args [] s2 -> -4 <= rc' < 0 -> (HiredisLaws W -> err' <> 0) ->
    (rc', err', msg', close s2) = (rc, err, errmsg, s') ->
    ran s args [] s' /\ connected s' /\
    ((rc = 0 /\ err = 0 /\ errmsg = [] /\ exists c, rc_context s' = Some c) \/
     (-4 <= rc < 0 /\ rc_context s' = None /\ (HiredisLaws W -> err <> 0)))) as Hfail.
  { intros s2 rc' err' msg' R Hr He [= <- <- <- <-]. destruct (fail_ran _ _ _ _ R) as (? & ? & ?). auto 6. }
  assert (forall s2 c, ran s args [] s2 -> rc_context s2 = Some c ->
    (0, 0, [], flushConnState true s2) = (rc, err, errmsg, s') ->
    ran s args [] s' /\ connected s' /\
    ((rc = 0 /\ err = 0 /\ errmsg = [] /\ exists c, rc_context s' = Some c) \/
     (-4 <= rc < 0 /\ rc_context s' = None /\ (HiredisLaws W -> err <> 0)))) as Hok.
  { intros s2 c R E [= <- <- <- <-]. destruct (success_ran _ _ _ _ _ R E). split_and!; [done..|]. left. eauto. }
  destruct (redisConnectWithTimeout _ _ _ _) as [[c|] w].
  2:{ intros [= <- <- <- <-]. split_and!.
      - destruct (quiet_ran _ _ _ _ w R1) as [H Hl]. split; [|done]. cbn in *. by rewrite H, E1.
      - unfold connected in *. cbn. by rewrite C1, E1.
      - right. split_and!; [lia..|done|]. by intros _. }
  set (s2 := set_context (Some c) _).
  assert (ran s args [] s2) as R2.
  { apply (ran_trans _ _ _ _ [] [] R1). split; cbn; [|by exists [RConnect c]].
    by rewrite follow_app, (ran_ok _ _ _ _ R1), E1. }
  destruct (Z.eqb_spec (ctx_err w c) 0) as [H0|H0]; cbn [negb]; [|by apply Hfail].
  destruct (redisSetTimeout w c _) as [r w1] eqn:Et. destruct (Z.eqb_spec REDIS_ERR r) as [<-|Hr].
  { apply Hfail; [by apply quiet_ran|lia|]. intros L. by eapply law_timeout. }
  case_bool_decide; [by eapply Hok; [apply quiet_ran|]|].
  destruct (redisCommandArgv w1 c _) as [reply w2].
  set (s3 := called [RAuth c reply] w2 _).
  assert (ran s args [] s3 /\ rc_context s3 = Some c) as [R3 E3] by (split; [by apply auth_ran; [apply quiet_ran|]|done]).
  case_match; [|by eapply Hok].
  apply Hfail; [done|lia|]. intros _. destruct (Z.eqb_spec (ctx_err w2 c) 0); done.
Qed.

(** How a command may end: with a reply; with an error reply, the connection
    being kept; without a connection. *)
Definition exec_end (rs : list (option redisReply)) (r : option redisReply) (err : Z) (s : client) : Prop :=
  match r with
  | Some reply => last rs = Some (Some reply) /\ r_type reply <> REDIS_REPLY_ERROR /\ err = 0 /\ is_Some (rc_context s)
  | None => (HiredisLaws W -> err <> 0) /\
      (rc_context s = None \/ exists e, last rs = Some (Some e) /\ r_type e = REDIS_REPLY_ERROR /\ is_Some (rc_context s))
  end.

Lemma check_reply_ran s s1 args rs c reply errmsg r err msg s' :
  ran s args (rs ++ [reply]) s1 -> rc_context s1 = Some c -> rc_connState s1 = true ->
  check_reply c reply 0 errmsg s1 = (r, err, msg, s') ->
  ran s args (rs ++ [reply]) s' /\ connected s' /\ exec_end (rs ++ [reply]) r err s'.
Proof.
  intros R E C. destruct (fail_ran _ _ _ _ R) as (Rc & Ec & Cc). unfold check_reply, exec_end. rewrite last_snoc.
  destruct reply as [re|].
  - destruct (Z.eqb_spec (ctx_err (rc_world s1) c) 0); cbn [negb];
      [|intros [= <- <- _ <-]; split_and!; try done; by left].
    destruct (Z.eqb_spec (r_type re) REDIS_REPLY_ERROR) as [Ht|Ht]; intros [= <- <- _ <-].
    + split_and!; [done|unfold connected; by rewrite C, E|done|]. right. exists re. by rewrite E.
    + destruct (success_ran _ _ _ _ _ R E). split_and!; try done.
  - intros [= <- <- _ <-]. split_and!; try done; [|by left]. intros _.
    destruct (Z.eqb_spec (ctx_err (rc_world s1) c) 0); done.
Qed.

Lemma exec_on_ran s s1 args c errmsg r err msg s' :
  ran s args [] s1 -> rc_context s1 = Some c -> rc_connState s1 = true ->
  exec_on c args 0 errmsg s1 = (r, err, msg, s') ->
  exists rs, ran s args rs s' /\ connected s' /\ exec_end rs r err s' /\
    ((exists x, rs = [x]) \/ exists l, rs = None :: l /\ (length l <= 1)%nat).
Proof.
  intros R E C. unfold exec_on. destruct (command c args s1) as [reply s2] eqn:Ecmd.
  destruct (command_ran _ _ _ _ _ _ _ R E Ecmd) as (R2 & E2 & C2). rewrite C in C2. destruct reply as [re|].
  - intros Hc. destruct (check_reply_ran _ _ _ [] _ _ _ _ _ _ _ R2 E2 C2 Hc) as (R' & C' & X').
    exists [Some re]. split_and!; [done..|]. left. eauto.
  - destruct (connect s2) as [[[rc e] m] s3] eqn:Econ.
    destruct (connect_ran s2 args _ _ _ _ (ran_ok _ _ _ _ R2) Econ) as (R3 & C3 & Hrc).
    pose proof (ran_trans _ _ _ _ _ _ R2 R3) as R'. cbn in R'. destruct Hrc as [(-> & -> & -> & c' & E3)|(Hr & E3 & He)].
    + cbn [negb Z.eqb]. rewrite E3. destruct (command c' args s3) as [reply' s4] eqn:Ecmd'.
      destruct (command_ran _ _ _ _ _ _ _ R' E3 Ecmd') as (R4 & E4 & C4).
      unfold connected in C3. rewrite C3, E3 in C4. intros Hc.
      destruct (check_reply_ran _ _ _ [None] _ _ _ _ _ _ _ R4 E4 C4 Hc) as (R'' & C'' & X'').
      exists [None; reply']. split_and!; [done..|]. right. by exists [reply'].
    + rewrite (proj2 (Z.eqb_neq rc 0)) by lia. intros [= <- <- _ <-]. exists [None].
      split_and!; [done|done|split; [done|by left]|left; by exists None].
Qed.

(** [execCommand] keeps the client well formed, and sends the command to at most
    two connections, to the second only when the first gave no reply. *)
Lemma execCommand_ran s args r err msg s' : client_ok s -> execCommand args s = (r, err, msg, s') ->
  exists rs, ran s args rs s' /\ connected s' /\ exec_end rs r err s' /\
    (rs = [] \/ (exists x, rs = [x]) \/ exists l, rs = None :: l /\ (length l <= 1)%nat).
Proof.
  intros [Hs Ho]. unfold execCommand. destruct (rc_context s) as [c|] eqn:E.
  - intros He. destruct (exec_on_ran s s args c _ _ _ _ _ (ran_same s args ltac:(by rewrite E)) E Hs He) as (rs & ? & ? & ? & ?).
    exists rs. split_and!; [done..|]. by right.
  - destruct (connect s) as [[[rc e] m] s1] eqn:Econ.
    destruct (connect_ran s args _ _ _ _ ltac:(by rewrite E) Econ) as (R1 & C1 & Hrc).
    destruct Hrc as [(-> & -> & -> & c' & E1)|(Hr & E1 & He)].
    + cbn [negb Z.eqb]. rewrite E1. unfold connected in C1. rewrite E1 in C1. intros Hx.
      destruct (exec_on_ran s s1 args c' _ _ _ _ _ R1 E1 C1 Hx) as (rs & ? & ? & ? & ?).
      exists rs. split_and!; [done..|]. by right.
    + rewrite (proj2 (Z.eqb_neq rc 0)) by lia. intros [= <- <- _ <-]. exists [].
      split_and!; [done|done|split; [done|by left]|by left].
Qed.

(** A predicate on worlds that every call but the command keeps, and the command
    when it gets no reply, holds when the command gets its reply. *)
Definition quiet (I : W -> Prop) : Prop :=
  (forall w h p tv, I w -> I (snd (redisConnectWithTimeout w h p tv))) /\
  (forall w c tv, I w -> I (snd (redisSetTimeout w c tv))) /\
  (forall w c pw, I w -> I (snd (redisCommandArgv w c [lit "AUTH"; pw]))) /\
  (forall w c, I w -> I (redisFree w c)).

Lemma connect_world I s rc err msg s' : quiet I -> I (rc_world s) -> connect s = (rc, err, msg, s') -> I (rc_world s').
Proof.
  intros (Hc & Ht & Ha & Hf) Hs.
  assert (forall s : client, I (rc_world s) -> I (rc_world (close s))) as Hclose.
  { intros s1 H. unfold close. destruct (rc_context s1); cbn; auto. }
  specialize (Hclose s Hs) as H0. unfold connect. set (s1 := close s) in *. clearbody s1.
  specialize (Hc _ (c_str (rp_host (rc_param s1))) (rp_port (rc_param s1)) (timeval_of (rp_timeout (rc_param s1))) H0).
  destruct (redisConnectWithTimeout _ _ _ _) as [[c|] w]; cbn [snd] in Hc; [|by intros [= _ _ _ <-]].
  case_if; [intros [= _ _ _ <-]; by apply Hclose|].
  specialize (Ht _ c (timeval_of (rp_timeout (rc_param s1))) Hc). destruct (redisSetTimeout _ _ _) as [r w1]. cbn [snd] in Ht.
  case_if; [intros [= _ _ _ <-]; by apply Hclose|]. case_if; [by intros [= _ _ _ <-]|].
  specialize (Ha _ c (rp_auth_str (rc_param (called [] w1 (set_context (Some c)
    (called (RConnect <$> option_list (Some c)) w s1))))) Ht).
  destruct (redisCommandArgv _ _ _) as [reply w2]. cbn [snd] in Ha.
  case_if; intros [= _ _ _ <-]; [by apply Hclose|done].
Qed.

Lemma check_reply_world c reply err m s r err' m' s' : check_reply c reply err m s = (Some r, err', m', s') ->
  reply = Some r /\ ctx_err (rc_world s) c = 0 /\ r_type r <> REDIS_REPLY_ERROR /\ rc_world s' = rc_world s.
Proof.
  unfold check_reply. destruct reply; [|done].
  destruct (Z.eqb_spec (ctx_err (rc_world s) c) 0); cbn [negb]; [|done].
  destruct (Z.eqb_spec (r_type r0) REDIS_REPLY_ERROR); [done|]. by intros [= <- _ _ <-].
Qed.

Lemma exec_on_world I J c args err m s r err' m' s' :
  quiet I -> (forall w c w', I w -> redisCommandArgv w c args = (None, w') -> I w') ->
  (forall w c r w', I w -> redisCommandArgv w c args = (Some r, w') -> ctx_err w' c = 0 ->
     r_type r <> REDIS_REPLY_ERROR -> J r w') ->
  I (rc_world s) -> exec_on c args err m s = (Some r, err', m', s') -> J r (rc_world s').
Proof.
  intros Hq Hn HJ Hs. unfold exec_on, command. destruct (redisCommandArgv _ _ _) as [reply w] eqn:E. destruct reply as [r0|].
  - intros (Hr & He & Ht & ->)%check_reply_world. injection Hr as ->. by eapply HJ.
  - destruct (connect _) as [[[rc e] m1] s1] eqn:Ec.
    assert (I (rc_world s1)) as H1 by (eapply connect_world; [done| |done]; by eapply Hn).
    case_if; [done|]. destruct (rc_context s1) as [c'|]; [|done].
    destruct (redisCommandArgv (rc_world s1) _ _) as [reply w'] eqn:E'.
    intros (-> & He & Ht & ->)%check_reply_world. by eapply HJ.
Qed.

Lemma exec_world I J args s r err m s' :
  quiet I -> (forall w c w', I w -> redisCommandArgv w c args = (None, w') -> I w') ->
  (forall w c r w', I w -> redisCommandArgv w c args = (Some r, w') -> ctx_err w' c = 0 ->
     r_type r <> REDIS_REPLY_ERROR -> J r w') ->
  I (rc_world s) -> execCommand args s = (Some r, err, m, s') -> J r (rc_world s').
Proof.
  intros Hq Hn HJ Hs. unfold execCommand. destruct (rc_context s) as [c|]; [by eapply exec_on_world|].
  destruct (connect s) as [[[rc e] m1] s1] eqn:Ec. case_if; [done|]. destruct (rc_context s1) as [c|]; [|done].
  eapply exec_on_world; [done..|]. by eapply connect_world.
Qed.
(** ** The contract of a command *)

Lemma attempts_bound (rs : list (option redisReply)) :
  (rs = [] \/ (exists x, rs = [x]) \/ exists l, rs = None :: l /\ (length l <= 1)%nat) ->
  (length rs <= 2)%nat /\ (length rs = 2%nat -> head rs = Some None).
Proof. intros [->|[[x ->]|(l & -> & H)]]; cbn; split; try lia; done. Qed.

Definition contract (s : client) (args : list bytes) (r : option redisReply) (err : Z) (s' : client) : Prop :=
  client_ok s' /\ (err = 0 <-> is_Some r) /\
  exists l, rc_trace s' = rc_trace s ++ l /\
    (length (sent args l) <= 2)%nat /\ (length (sent args l) = 2%nat -> head (sent args l) = Some None) /\
    forall reply, r = Some reply -> last (sent args l) = Some (Some reply) /\ getConnState s' = true.

Lemma command_facts `{!HiredisLaws W} s args r err msg s' :
  client_ok s -> execCommand args s = (r, err, msg, s') -> contract s args r err s'.
Proof.
  intros Hok He. destruct (execCommand_ran s args r err msg s' Hok He) as (rs & R & C & X & B).
  apply attempts_bound in B as [B1 B2]. destruct (ran_calls _ _ _ _ R) as (l & El & <-).
  split; [by eapply client_ok_ran|]. split.
  - destruct r as [reply|]; cbn in X; [by destruct X as (_ & _ & -> & _)|].
    split; [by intros ->; destruct X as [X _]; destruct (X _)|by intros [? ?]].
  - exists l. split_and!; [done..|]. intros reply ->. destruct X as (Hl & _ & _ & Hc). split; [done|].
    unfold getConnState. rewrite C. by apply bool_decide_true.
Qed.

(** What a client's owner does with it. *)
Inductive client_op := OpOpen (param : redis_client_connect_param) | OpClose | OpTimeout (timeout : Z) | OpCommand (args : list bytes).

Definition run_op (s : client) (o : client_op) : client :=
  match o with
  | OpOpen param => snd (open param s)
  | OpClose => close s
  | OpTimeout t => snd (setTimeout t s)
  | OpCommand args => snd (execCommand args s)
  end.

Lemma run_op_ok `{!HiredisLaws W} s o : client_ok s -> client_ok (run_op s o).
Proof.
  intros [Hc Ho]. destruct o as [param| |t|args]; cbn [run_op].
  - unfold open. destruct (connect _) as [[[rc err] msg] s1] eqn:E. cbn [snd].
    destruct (connect_ran (MkRedisClient (rc_context s) (rc_connState s) param (rc_world s) (rc_trace s)) [] _ _ _ _ Ho E) as (R & C & _).
    by eapply client_ok_ran.
  - destruct (close_ran s [] Ho) as (R & _ & C & _). by eapply client_ok_ran.
  - unfold setTimeout. destruct (rc_context s) as [c|] eqn:E; cbn [snd]; [|by split; rewrite ?E].
    destruct (redisSetTimeout _ _ _) as [rc w]. split; cbn; [by rewrite Hc, E|]. by rewrite app_nil_r, Ho, E.
  - destruct (execCommand args s) as [[[r err] msg] s1] eqn:E. by destruct (command_facts s args r err msg s1 (Build_client_ok _ Hc Ho) E).
Qed.

(** C24: whatever was done with a client before, a command ends with a reply or with
    an error code, never both; the reply is what the server answered to it last.
    It is sent at most twice, the second time because the first got no reply.
    The client's connection state says whether it has a context, and no context
    is leaked, used after it was freed, or freed twice. *)
Theorem command_contract `{!HiredisLaws W} w ops args r err msg s' :
  let s := foldl run_op (new_redis_client w) ops in
  execCommand args s = (r, err, msg, s') -> contract s args r err s'.
Proof.
  apply command_facts. assert (client_ok (new_redis_client w)) as Hnew by (by split). revert Hnew.
  generalize (new_redis_client w). induction ops as [|o ops IH]; intros s Hs; [done|]. cbn. by apply IH, run_op_ok.
Qed.

(** ** Responses *)

(** The reply type and the result of a request's type. *)
Definition expected_type (type : Z) : Z :=
  if type =? DbReq.execCommandStat then REDIS_REPLY_STATUS
  else if type =? DbReq.execCommandInt then REDIS_REPLY_INTEGER
  else if type =? DbReq.execCommandStr then REDIS_REPLY_STRING
  else REDIS_REPLY_ARRAY.

Definition answer (id type : Z) (r : redisReply) : redis_client_resp :=
  let resp := MkRedisResp 0 id type 0 in
  if type =? DbReq.execCommandStat then resp (stat_of r) 0 [] [] [] []
  else if type =? DbReq.execCommandInt then resp false (int_of r) [] [] [] []
  else if type =? DbReq.execCommandStr then resp false 0 (getReplyStr r) [] [] []
  else if type =? DbReq.execCommandSA then resp false 0 [] (array_of r) [] []
  else if type =? DbReq.execCommandSM then resp false 0 [] [] (map_of r) []
  else resp false 0 [] [] [] (scores_of r).

Definition no_answer (id type rc : Z) : redis_client_resp := MkRedisResp 0 id type rc false 0 [] [] [] [].

(** The command a request stands for. *)
Definition request_args (req : redis_client_req) : list bytes :=
  if rd_type req =? DbReq.execCommandSCA then rd_argv req ++ [lit "WITHSCORES"] else rd_argv req.

Lemma exec_as_spec {A} t (f : redisReply -> A) none args s v ec s' :
  exec_as t f none args s = (v, ec, s') ->
  exists r err msg, execCommand args s = (r, err, msg, s') /\
    match r with
    | Some x => v = (if r_type x =? t then f x else none) /\ ec = reply_code t x
    | None => v = none /\ ec = err
    end.
Proof.
  unfold exec_as. destruct (execCommand args s) as [[[r err] msg] s1]. intros E. exists r, err, msg. destruct r as [x|]; injection E as <- <- <-; done.
Qed.

Lemma reply_code_zero t r : reply_code t r = 0 <-> r_type r = t.
Proof.
  unfold reply_code. destruct (Z.eqb_spec (r_type r) t) as [|Hne]; [done|]. split; [|done]. case_if; done.
Qed.

(** One of the six requests: the response is the conversion of the reply when
    the reply has the type the request asks for, and a failure otherwise. *)
Lemma response_of_exec `{!HiredisLaws W} id type t s args r err msg s' :
  client_ok s -> execCommand args s = (r, err, msg, s') ->
  forall (B : Type) (f : redisReply -> B) (none : B) (mk : Z -> B -> redis_client_resp) v ec,
    match r with
    | Some x => v = (if r_type x =? t then f x else none) /\ ec = reply_code t x
    | None => v = none /\ ec = err
    end ->
    mk (-1) none = no_answer id type (-1) ->
    mk (if negb (ec =? 0) then -1 else 0) v =
      match r with
      | Some x => if r_type x =? t then mk 0 (f x) else no_answer id type (-1)
      | None => no_answer id type (-1)
      end.
Proof.
  intros Hok He B f none mk v ec Hv Hn. destruct (command_facts s args r err msg s' Hok He) as (_ & Herr & _).
  destruct r as [x|]; destruct Hv as [-> ->].
  - unfold reply_code. destruct (Z.eqb_spec (r_type x) t); [done|].
    destruct (r_type x =? REDIS_REPLY_NIL); cbn; done.
  - destruct (Z.eqb_spec err 0) as [H0|H0]; [|done]. apply Herr in H0. by destruct H0.
Qed.

Lemma exec_case `{!HiredisLaws W} id type s resp s' {B} t (f : redisReply -> B) (none : B) args (mk : Z -> B -> redis_client_resp) :
  client_ok s -> mk (-1) none = no_answer id type (-1) -> (forall b, rr_rc (mk 0 b) = 0) ->
  (forall rc b, rr_req_id (mk rc b) = id /\ rr_type (mk rc b) = type) ->
  (let '(v, ec, s') := exec_as t f none args s in (mk (if negb (ec =? 0) then -1 else 0) v, s')) = (resp, s') ->
  client_ok s' /\ rr_req_id resp = id /\ rr_type resp = type /\
  exists r err msg, execCommand args s = (r, err, msg, s') /\
    (rr_rc resp = 0 <-> exists x, r = Some x /\ r_type x = t) /\
    resp = match r with
           | Some x => if r_type x =? t then mk 0 (f x) else no_answer id type (-1)
           | None => no_answer id type (-1)
           end.
Proof.
  intros Hok Hn H0 Hid. destruct (exec_as t f none args s) as [[v ec] s1] eqn:E. intros [= <- <-].
  destruct (exec_as_spec _ _ _ _ _ _ _ _ E) as (r & err & msg & He & Hv).
  destruct (command_facts s args r err msg s1 Hok He) as (Hok1 & _). destruct (Hid (if negb (ec =? 0) then -1 else 0) v).
  pose proof (response_of_exec id type t s args r err msg s1 Hok He B f none mk v ec Hv Hn) as Hr.
  split_and!; [done..|]. exists r, err, msg. split_and!; [done| |done]. rewrite Hr.
  destruct r as [x|]; [|split; [done|by intros (? & ? & ?)]].
  destruct (Z.eqb_spec (r_type x) t) as [Ht|Ht]; (split; [try done; eauto|intros (? & [= <-] & ?); auto; done]).
Qed.

(** [handleRequest] gives one response, with the request's id and type. An
    unknown type sends nothing. Otherwise the request's command is executed,
    and the result code is 0 if and only if the server answered with the type
    the request asks for; then the field of that type, and no other, is the
    conversion of the answer. *)
Theorem redis_response_exact `{!HiredisLaws W} id req s resp s' :
  client_ok s -> handleRequest id req s = (resp, s') ->
  client_ok s' /\ rr_req_id resp = id /\ rr_type resp = rd_type req /\
  if (0 <=? rd_type req) && (rd_type req <? redisReqNone) then
    exists r err msg, execCommand (request_args req) s = (r, err, msg, s') /\
      (rr_rc resp = 0 <-> exists x, r = Some x /\ r_type x = expected_type (rd_type req)) /\
      resp = match r with
             | Some x => if r_type x =? expected_type (rd_type req) then answer id (rd_type req) x
                         else no_answer id (rd_type req) (-1)
             | None => no_answer id (rd_type req) (-1)
             end
  else resp = no_answer id (rd_type req) DbPool.RESP_RC_TYPE_INVALID /\ s' = s.
Proof.
  intros Hok. unfold handleRequest, expected_type, answer, request_args.
  destruct (Z.eqb_spec (rd_type req) DbReq.execCommandStat) as [->|].
  { by apply (exec_case id _ s resp s' _ stat_of false _ (fun rc v => MkRedisResp 0 id _ rc v 0 [] [] [] [])). }
  destruct (Z.eqb_spec (rd_type req) DbReq.execCommandInt) as [->|].
  { by apply (exec_case id _ s resp s' _ int_of 0 _ (fun rc v => MkRedisResp 0 id _ rc false v [] [] [] [])). }
  destruct (Z.eqb_spec (rd_type req) DbReq.execCommandStr) as [->|].
  { by apply (exec_case id _ s resp s' _ getReplyStr [] _ (fun rc v => MkRedisResp 0 id _ rc false 0 v [] [] [])). }
  destruct (Z.eqb_spec (rd_type req) DbReq.execCommandSA) as [->|].
  { by apply (exec_case id _ s resp s' _ array_of [] _ (fun rc v => MkRedisResp 0 id _ rc false 0 [] v [] [])). }
  destruct (Z.eqb_spec (rd_type req) DbReq.execCommandSM) as [->|].
  { by apply (exec_case id _ s resp s' _ map_of [] _ (fun rc v => MkRedisResp 0 id _ rc false 0 [] [] v [])). }
  destruct (Z.eqb_spec (rd_type req) DbReq.execCommandSCA) as [->|].
  { by apply (exec_case id _ s resp s' _ scores_of [] _ (fun rc v => MkRedisResp 0 id _ rc false 0 [] [] [] v)). }
  intros [= <- <-]. split_and!; [done..|].
  replace (_ && _) with false; [done|]. symmetry. apply andb_false_iff.
  destruct (Z.leb_spec 0 (rd_type req)); [right; apply Z.ltb_ge|by left].
  unfold redisReqNone, DbReq.execCommandStat, DbReq.execCommandInt, DbReq.execCommandStr, DbReq.execCommandSA,
    DbReq.execCommandSM, DbReq.execCommandSCA in *. lia.
Qed.
End properties.

(** ** Conversions *)

Definition str_reply (s : bytes) : redisReply := MkReply REDIS_REPLY_STRING 0 (Some s) [].
Definition int_reply (n : Z) : redisReply := MkReply REDIS_REPLY_INTEGER n None [].
Definition nil_reply : redisReply := MkReply REDIS_REPLY_NIL 0 None [].
Definition status_reply (s : bytes) : redisReply := MkReply REDIS_REPLY_STATUS 0 (Some s) [].
Definition array_reply (l : list redisReply) : redisReply := MkReply REDIS_REPLY_ARRAY 0 None l.
Definition bulk_reply (v : option bytes) : redisReply := match v with Some s => str_reply s | None => nil_reply end.

(** An integer arrives if and only if it fits an [int], although response and
    reply have 64 bits. *)
Theorem int_fits n : - 2 ^ 63 <= n < 2 ^ 63 -> int_of (int_reply n) = n <-> in_sint 32 n.
Proof.
  intros Hn. unfold int_of. cbn. split; [|apply swrap_id; lia]. intros <-. apply swrap_range. lia.
Qed.

(** Values that do not exist are left out of an array: what is returned for
    several keys does not say which value belongs to which key. *)
Theorem array_drops_missing (vs : list (option bytes)) : array_of (array_reply (bulk_reply <$> vs)) = omap id vs.
Proof.
  unfold array_of. cbn [r_element array_reply]. induction vs as [|[v|] vs IH]; [done| |]; cbn in *; by rewrite <- IH.
Qed.

Definition flat_pairs (kvs : list (bytes * bytes)) : list redisReply := kvs ≫= fun kv => [str_reply (fst kv); str_reply (snd kv)].

Fixpoint find_key (m : StringMap) (k : bytes) : option bytes :=
  match m with
  | [] => None
  | (k', v) :: m => if bool_decide (k = k') then Some v else find_key m k
  end.

Lemma str_compare_refl a : str_compare a a = Eq.
Proof. induction a as [|x a IH]; [done|]. cbn. by rewrite Z.compare_refl. Qed.

Lemma str_compare_eq a b : str_compare a b = Eq -> a = b.
Proof.
  revert b. induction a as [|x a IH]; intros [|y b]; cbn; try done.
  destruct (Z.compare_spec (Z_of_byte x) (Z_of_byte y)) as [E| |]; try done. intros H%IH. subst.
  f_equal. by rewrite <- (byte_of_Z_of_byte x), E, byte_of_Z_of_byte.
Qed.

Lemma find_map_set m k v k' : find_key (map_set m k v) k' = if bool_decide (k' = k) then Some v else find_key m k'.
Proof.
  induction m as [|[k0 v0] m IH]; [done|]. cbn [map_set]. destruct (str_compare k k0) eqn:E; cbn [find_key].
  - apply str_compare_eq in E as ->. by repeat case_bool_decide.
  - done.
  - rewrite IH. repeat case_bool_decide; try done. subst. by rewrite str_compare_refl in E.
Qed.

Lemma map_loop_str i s l key m :
  map_loop i (str_reply s :: l) key m = if Z.even i then map_loop (i + 1) l s m else map_loop (i + 1) l key (map_set m key s).
Proof. done. Qed.

Lemma map_loop_pairs kvs i key m : Z.even i = true ->
  map_loop i (flat_pairs kvs) key m = foldl (fun m kv => map_set m (fst kv) (snd kv)) m kvs.
Proof.
  revert i key m. induction kvs as [|[k v] kvs IH]; intros i key m Hi; [done|].
  change (flat_pairs ((k, v) :: kvs)) with (str_reply k :: str_reply v :: flat_pairs kvs).
  assert (Z.even (i + 1) = false /\ Z.even (i + 1 + 1) = true) as [H1 H2] by (by rewrite !Z.even_add, Hi).
  by rewrite !map_loop_str, Hi, H1, IH.
Qed.

Lemma find_foldl kvs m k : NoDup kvs.*1 ->
  forall v, find_key (foldl (fun m kv => map_set m (fst kv) (snd kv)) m kvs) k = Some v <->
    ((k, v) ∈ kvs) \/ ((k ∉ kvs.*1) /\ find_key m k = Some v).
Proof.
  revert m. induction kvs as [|[k0 v0] kvs IH]; intros m Hn v; cbn [foldl fmap list_fmap fst snd] in *.
  { split; [intros H; right; split; [apply not_elem_of_nil|done]|by intros [?%elem_of_nil|[_ ?]]]. }
  apply NoDup_cons in Hn as [Hk Hn]. rewrite IH by done. rewrite find_map_set, elem_of_cons, not_elem_of_cons.
  assert ((k0, v) ∉ kvs) as Hnot by (intros H; apply Hk; by apply (list_elem_of_fmap_2 fst _ (k0, v))).
  case_bool_decide as E; [subst k0|]; naive_solver.
Qed.

(** The reply to [HGETALL], pairs of fields in any order, becomes the map. *)
Theorem map_of_pairs kvs k v : NoDup kvs.*1 -> find_key (map_of (array_reply (flat_pairs kvs))) k = Some v <-> (k, v) ∈ kvs.
Proof.
  intros Hn. unfold map_of. cbn [r_element array_reply]. rewrite map_loop_pairs by done. rewrite find_foldl by done.
  naive_solver.
Qed.

Lemma score_loop_str i s l str r :
  score_loop i (str_reply s :: l) str r =
    if Z.even i then score_loop (i + 1) l s r else score_loop (i + 1) l str (r ++ [(strtod s, str)]).
Proof. done. Qed.

Lemma score_loop_pairs kvs i str l : Z.even i = true ->
  score_loop i (flat_pairs kvs) str l = l ++ ((fun kv => (strtod (snd kv), fst kv)) <$> kvs).
Proof.
  revert i str l. induction kvs as [|[k v] kvs IH]; intros i str l Hi; [by rewrite app_nil_r|].
  change (flat_pairs ((k, v) :: kvs)) with (str_reply k :: str_reply v :: flat_pairs kvs).
  assert (Z.even (i + 1) = false /\ Z.even (i + 1 + 1) = true) as [H1 H2] by (by rewrite !Z.even_add, Hi).
  rewrite !score_loop_str, Hi, H1, IH by done. cbn. by rewrite <- app_assoc.
Qed.

(** The reply to a command with [WITHSCORES] becomes the members with their
    scores, in the order of the reply. *)
Theorem scores_of_pairs kvs : scores_of (array_reply (flat_pairs kvs)) = (fun kv => (strtod (snd kv), fst kv)) <$> kvs.
Proof. unfold scores_of. cbn [r_element array_reply]. by rewrite score_loop_pairs. Qed.

(** ** The pool *)

(** A worker of [DbPool] that has a connected client and a request: what it
    does with them is a step of the pool, whose answer and connection state are
    those of [handleRequest]. *)
Theorem worker_handles {W} `{!Hiredis W} `{!HiredisLaws W}
    (p : DbPool.dbpool redis_client_req redis_client_resp) r c (s s' : redis_client (W:=W)) resp :
  client_ok s -> DbPool.getConnState p c = getConnState s -> getConnState s = true ->
  handleRequest (DbPool.req_id r) (DbPool.body r) s = (resp, s') ->
  client_ok s' /\ rr_req_id resp = DbPool.req_id r /\
  DbPool.wstep p (DbPool.Ready r (Some c)) (DbPool.Ran c)
    (DbPool.logs (DbPool.Responded (DbPool.req_id r) (Some resp))
      (DbPool.set_clients (DbPool.dp_clients p) (<[c := getConnState s']> (DbPool.dp_conn p)) p)).
Proof.
  intros Hok Hp Hc Hr. destruct (redis_response_exact _ _ _ _ _ Hok Hr) as (? & ? & _). split_and!; [done..|].
  apply DbPool.ws_handle. by rewrite Hp.
Qed.

(** ** A server for the witnesses *)

(** It counts the commands it gets; while [tw_lose], it runs one and the
    connection breaks before the reply. *)
Record toy := MkToy { tw_count : Z; tw_lose : bool; tw_next : Z; tw_bad : Z }.

#[export] Instance toy_redis : Hiredis toy := {
  redisConnectWithTimeout w _ _ _ := (Some (tw_next w), MkToy (tw_count w) (tw_lose w) (tw_next w + 1) (tw_bad w));
  redisSetTimeout w _ _ := (0, w);
  redisCommandArgv w c args :=
    if tw_lose w then (None, MkToy (tw_count w + 1) false (tw_next w) c)
    else (Some (int_reply (tw_count w + 1)), MkToy (tw_count w + 1) false (tw_next w) (tw_bad w));
  redisFree w _ := w;
  ctx_err w c := if c =? tw_bad w then 3 else 0;
  ctx_errstr w c := Some (lit "Server closed the connection");
}.

#[export] Instance toy_laws : HiredisLaws toy.
Proof. split. cbn. by intros. Qed.

Definition toy_client : redis_client := snd (open (MkRedisParam (lit "h") 6379 [] [] 1000 0) (new_redis_client (MkToy 0 true 1 0))).

Lemma toy_client_ok : client_ok toy_client.
Proof. by split. Qed.

Definition incr : redis_client_req := MkRedisReq 0 DbReq.execCommandInt 0 [lit "INCR"; lit "n"].

(** A command whose reply is lost is sent again: the server has executed one
    request twice, and the response does not say so. *)
Theorem command_runs_twice :
  let '(resp, s') := handleRequest 7 incr toy_client in
  rr_rc resp = 0 /\ rr_resInt resp = 2 /\ tw_count (rc_world s') = tw_count (rc_world toy_client) + 2.
Proof. vm_compute. done. Qed.

Lemma command_contract_witness :
  let '(r, err, _, s') := execCommand [lit "INCR"; lit "n"] toy_client in
  contract toy_client [lit "INCR"; lit "n"] r err s' /\ sent [lit "INCR"; lit "n"] (rc_trace s') = [None; Some (int_reply 2)].
Proof.
  destruct (execCommand [lit "INCR"; lit "n"] toy_client) as [[[r err] msg] s'] eqn:E.
  split; [|vm_compute in E; by injection E as <- <- <- <-].
  apply (command_contract (MkToy 0 true 1 0) [OpOpen (MkRedisParam (lit "h") 6379 [] [] 1000 0)] [lit "INCR"; lit "n"] r err msg s' E).
Defined.

Lemma redis_response_exact_witness :
  let '(resp, s') := handleRequest 7 incr toy_client in client_ok s' /\ rr_req_id resp = 7 /\ rr_resInt resp = 2.
Proof.
  destruct (handleRequest 7 incr toy_client) as [resp s'] eqn:E.
  pose proof (redis_response_exact 7 incr toy_client resp s' toy_client_ok E) as (H1 & H2 & _).
  split_and!; [done..|]. vm_compute in E. by injection E as <- <-.
Defined.

Lemma worker_handles_witness :
  let p : DbPool.dbpool redis_client_req redis_client_resp :=
    DbPool.set_clients {[1%nat := false]} {[1%nat := true]} DbPool.new_pool in
  let '(resp, s') := handleRequest 7 incr toy_client in
  DbPool.wstep p (DbPool.Ready (DbPool.MkDbReq 7 0 incr) (Some 1%nat)) (DbPool.Ran 1%nat)
    (DbPool.logs (DbPool.Responded 7 (Some resp))
      (DbPool.set_clients {[1%nat := false]} (<[1%nat := getConnState s']> {[1%nat := true]}) p)).
Proof.
  intros p. destruct (handleRequest 7 incr toy_client) as [resp s'] eqn:E.
  apply (worker_handles p (DbPool.MkDbReq 7 0 incr) 1%nat toy_client s' resp toy_client_ok eq_refl eq_refl E).
Defined.

Lemma int_fits_witness : 2 ^ 31 - 1 < 2 ^ 63 /\ int_of (int_reply (2 ^ 31 - 1)) = 2 ^ 31 - 1.
Proof. split; [done|]. apply (int_fits (2 ^ 31 - 1)); [done|]. by split. Defined.

Lemma map_of_pairs_witness : find_key (map_of (array_reply (flat_pairs [(lit "b", lit "1"); (lit "a", lit "2")]))) (lit "a") = Some (lit "2").
Proof. apply (map_of_pairs [(lit "b", lit "1"); (lit "a", lit "2")]); [by vm_compute; repeat constructor; set_solver|]. set_solver. Defined.
