(* ===== verification/RedisCommands.v ===== *)
(** * The commands of the Redis client ([redis_client] of
      [wjp/redis_client.hpp])

    One definition per method, with the source's name; the overloads that take
    an array have a prime. Each returns its result, [ec] (which the methods that
    take no [ec] drop) and the client. What
    the theorems assume of a Redis server is [RedisStrings]: the documented
    effect and replies of [SET], [GET] and [MGET] on the strings it stores. *)

From Stdlib Require Import Strings.String.
From S2P Require Import Prelude Text Serialize RedisClient.

Section commands.
Context {W : Type} {HW : Hiredis W}.
Abbreviation client := (redis_client (W:=W)).

(** [1 == execCommandInt(args)]. *)
Definition exec_one (args : list bytes) (s : client) : bool * Z * client :=
  let '(rc, ec, s) := execCommandInt args s in (1 =? rc, ec, s).

Definition flat (data : StringMap) : list bytes := data ≫= fun kv => [fst kv; snd kv].

(** Keys. *)
Definition DEL (key : bytes) : client -> Z * Z * client := execCommandInt [lit "DEL"; key].
Definition EXISTS (key : bytes) : client -> bool * Z * client := exec_one [lit "EXISTS"; key].
Definition EXPIRE (key : bytes) (seconds : Z) : client -> bool * Z * client := exec_one [lit "EXPIRE"; key; to_string seconds].
Definition PERSIST (key : bytes) : client -> bool * Z * client := exec_one [lit "PERSIST"; key].
Definition TTL (key : bytes) : client -> Z * Z * client := execCommandInt [lit "TTL"; key].

(** Strings. *)
Definition SET (key val : bytes) : client -> bool * Z * client := execCommandStat [lit "SET"; key; val].
Definition SETNX (key val : bytes) : client -> Z * Z * client := execCommandInt [lit "SETNX"; key; val].
Definition GET (key : bytes) : client -> bytes * Z * client := execCommandStr [lit "GET"; key].
Definition MSET (data : StringMap) : client -> bool * Z * client := execCommandStat (lit "MSET" :: flat data).
Definition MGET (keys : list bytes) : client -> DataRow * Z * client := execCommandSA (lit "MGET" :: keys).

(** Hashes. *)
Definition HDEL (key field : bytes) : client -> Z * Z * client := execCommandInt [lit "HDEL"; key; field].
Definition HDEL' (key : bytes) (fields : list bytes) : client -> Z * Z * client := execCommandInt ([lit "HDEL"; key] ++ fields).
Definition HEXISTS (key field : bytes) : client -> bool * Z * client := exec_one [lit "HEXISTS"; key; field].
Definition HLEN (key : bytes) : client -> Z * Z * client := execCommandInt [lit "HLEN"; key].
Definition HSET (key field val : bytes) : client -> Z * Z * client := execCommandInt [lit "HSET"; key; field; val].
Definition HGET (key field : bytes) : client -> bytes * Z * client := execCommandStr [lit "HGET"; key; field].
Definition HMSET (key : bytes) (data : StringMap) : client -> bool * Z * client :=
  execCommandStat ([lit "HMSET"; key] ++ flat data).
Definition HMGET (key : bytes) (fields : list bytes) : client -> DataRow * Z * client :=
  execCommandSA ([lit "HMGET"; key] ++ fields).
Definition HGETALL (key : bytes) : client -> StringMap * Z * client := execCommandSM [lit "HGETALL"; key].

(** Lists. *)
Definition LINDEX (key : bytes) (index : Z) : client -> bytes * Z * client :=
  execCommandStr [lit "LINDEX"; key; to_string index].
Definition LLEN (key : bytes) : client -> Z * Z * client := execCommandInt [lit "LLEN"; key].
Definition LRANGE (key : bytes) (start stop : Z) : client -> DataRow * Z * client :=
  execCommandSA [lit "LRANGE"; key; to_string start; to_string stop].
Definition LTRIM (key : bytes) (start stop : Z) : client -> bool * Z * client :=
  execCommandStat [lit "LTRIM"; key; to_string start; to_string stop].
Definition LPOP (key : bytes) : client -> bytes * Z * client := execCommandStr [lit "LPOP"; key].
Definition LPUSH (key val : bytes) : client -> Z * Z * client := execCommandInt [lit "LPUSH"; key; val].
Definition LPUSH' (key : bytes) (vals : list bytes) : client -> Z * Z * client := execCommandInt ([lit "LPUSH"; key] ++ vals).
Definition RPOP (key : bytes) : client -> bytes * Z * client := execCommandStr [lit "RPOP"; key].
Definition RPUSH (key val : bytes) : client -> Z * Z * client := execCommandInt [lit "RPUSH"; key; val].
Definition RPUSH' (key : bytes) (vals : list bytes) : client -> Z * Z * client := execCommandInt ([lit "RPUSH"; key] ++ vals).

(** Sets. *)
Definition SADD (key member : bytes) : client -> Z * Z * client := execCommandInt [lit "SADD"; key; member].
Definition SADD' (key : bytes) (members : list bytes) : client -> Z * Z * client :=
  execCommandInt ([lit "SADD"; key] ++ members).
Definition SCARD (key : bytes) : client -> Z * Z * client := execCommandInt [lit "SCARD"; key].
Definition SISMEMBER (key member : bytes) : client -> bool * Z * client := exec_one [lit "SISMEMBER"; key; member].

(** [std::set<std::string>]: its elements in order. *)
Fixpoint set_add (x : bytes) (l : list bytes) : list bytes :=
  match l with
  | [] => [x]
  | y :: l' => match str_compare x y with Lt => x :: l | Eq => l | Gt => y :: set_add x l' end
  end.
Definition SMEMBERS (key : bytes) (s : client) : list bytes * Z * client :=
  let '(temp, ec, s) := execCommandSA [lit "SMEMBERS"; key] s in (foldl (fun l x => set_add x l) [] temp, ec, s).

Definition SPOP (key : bytes) : client -> bytes * Z * client := execCommandStr [lit "SPOP"; key].
Definition SREM (key member : bytes) : client -> Z * Z * client := execCommandInt [lit "SREM"; key; member].
Definition SREM' (key : bytes) (members : list bytes) : client -> Z * Z * client :=
  execCommandInt ([lit "SREM"; key] ++ members).

(** Sorted sets; a score is a double. *)
Definition ZADD (key : bytes) (score : Z) (member : bytes) : client -> Z * Z * client :=
  execCommandInt [lit "ZADD"; key; to_string_double score; member].
Definition ZADD' (key : bytes) (members : ScoreArray) : client -> Z * Z * client :=
  execCommandInt ([lit "ZADD"; key] ++ (members ≫= fun m => [to_string_double (fst m); snd m])).
Definition ZCARD (key : bytes) : client -> Z * Z * client := execCommandInt [lit "ZCARD"; key].
Definition ZCOUNT (key : bytes) (min max : Z) : client -> Z * Z * client :=
  execCommandInt [lit "ZCOUNT"; key; to_string_double min; to_string_double max].
Definition ZRANGE (key : bytes) (start stop : Z) : client -> ScoreArray * Z * client :=
  execCommandSCA [lit "ZRANGE"; key; to_string start; to_string stop].
Definition ZRANGEBYSCORE (key : bytes) (min max : Z) : client -> ScoreArray * Z * client :=
  execCommandSCA [lit "ZRANGEBYSCORE"; key; to_string_double min; to_string_double max].
Definition ZREM (key member : bytes) : client -> Z * Z * client := execCommandInt [lit "ZREM"; key; member].
Definition ZREM' (key : bytes) (members : list bytes) : client -> Z * Z * client :=
  execCommandInt ([lit "ZREM"; key] ++ members).
Definition ZREMRANGEBYSCORE (key : bytes) (min max : Z) : client -> Z * Z * client :=
  execCommandInt [lit "ZREMRANGEBYSCORE"; key; to_string_double min; to_string_double max].
Definition ZREVRANGE (key : bytes) (start stop : Z) : client -> ScoreArray * Z * client :=
  execCommandSCA [lit "ZREVRANGE"; key; to_string start; to_string stop].
Definition ZREVRANGEBYSCORE (key : bytes) (max min : Z) : client -> ScoreArray * Z * client :=
  execCommandSCA [lit "ZREVRANGEBYSCORE"; key; to_string_double max; to_string_double min].
Definition ZSCORE (key member : bytes) (s : client) : Z * Z * client :=
  let '(str, ec, s) := execCommandStr [lit "ZSCORE"; key; member] s in
  (if negb (ec =? 0) then quiet_NaN else strtod str, ec, s).

(** ** Properties *)

(** The documented commands on strings: [db] are the strings of the server. *)
Class RedisStrings := {
  db : W -> list (bytes * bytes);
  value (w : W) (k : bytes) : option bytes := find_key (db w) k;
  law_same k v : quiet (fun w => value w k = v);
  law_set w c k v r w' : redisCommandArgv w c [lit "SET"; k; v] = (r, w') ->
    match r with
    | Some x => r_type x <> REDIS_REPLY_ERROR -> x = status_reply (lit "OK") /\ value w' k = Some v
    | None => True
    end;
  law_get w c k r w' : redisCommandArgv w c [lit "GET"; k] = (r, w') ->
    (forall k, value w' k = value w k) /\
    match r with Some x => r_type x <> REDIS_REPLY_ERROR -> x = bulk_reply (value w k) | None => True end;
  law_mget w c ks r w' : redisCommandArgv w c (lit "MGET" :: ks) = (r, w') ->
    (forall k, value w' k = value w k) /\
    match r with
    | Some x => r_type x <> REDIS_REPLY_ERROR -> x = array_reply (bulk_reply ∘ value w <$> ks)
    | None => True
    end;
}.

Context {RS : RedisStrings} {HL : HiredisLaws W}.

Lemma quiet_all (f : bytes -> option bytes) : quiet (fun w => forall k, value w k = f k).
Proof.
  assert (forall k, quiet (fun w => value w k = f k)) as Hq by (intros k; apply law_same).
  split_and!; intros * Hw k; match goal with k : bytes |- _ => pose proof (Hq k) as (H1 & H2 & H3 & H4) end; auto.
Qed.

Lemma exec_as_zero {A} t (f : redisReply -> A) none args s v s' :
  client_ok s -> exec_as t f none args s = (v, 0, s') ->
  exists r err msg, execCommand args s = (Some r, err, msg, s') /\ r_type r = t /\ v = f r.
Proof.
  intros Hok E. destruct (exec_as_spec _ _ _ _ _ _ _ _ E) as (r & err & msg & He & Hr).
  destruct (command_facts s args r err msg s' Hok He) as (_ & Herr & _). destruct r as [x|].
  - destruct Hr as [-> Ht]. symmetry in Ht. apply reply_code_zero in Ht as Hx. exists x, err, msg.
    by rewrite Hx, Z.eqb_refl.
  - destruct Hr as [_ <-]. destruct (proj1 Herr eq_refl). done.
Qed.

Lemma get_world k v s r err msg s' : value (rc_world s) k = Some v -> execCommand [lit "GET"; k] s = (Some r, err, msg, s') ->
  r = str_reply v /\ value (rc_world s') k = Some v.
Proof.
  intros Hv. apply (exec_world (fun w => value w k = Some v) (fun r w => r = str_reply v /\ value w k = Some v)); [..|done].
  - apply law_same.
  - intros w c w' Hw E. destruct (law_get _ _ _ _ _ E) as [H _]. by rewrite H.
  - intros w c x w' Hw E _ Ht. destruct (law_get _ _ _ _ _ E) as [H Hx]. rewrite H, Hw in *. split; [|done]. by apply Hx.
Qed.

Lemma set_world k v s r err msg s' : execCommand [lit "SET"; k; v] s = (Some r, err, msg, s') ->
  r = status_reply (lit "OK") /\ value (rc_world s') k = Some v.
Proof.
  apply (exec_world (fun _ => True) (fun r w => r = status_reply (lit "OK") /\ value w k = Some v)); [|done| |done].
  - by split_and!.
  - intros w c x w' _ E _ Ht. by apply (law_set _ _ _ _ _ _ E).
Qed.

(** C25: what [SET] has stored [GET] returns, through every reconnection; a [GET]
    that fails returns an empty string and an error, and [SET] returns true if
    and only if it reports no error. *)
Theorem set_then_get k v s ok ec s1 :
  client_ok s -> SET k v s = (ok, ec, s1) ->
  client_ok s1 /\ (ok = true <-> ec = 0) /\
  (ok = true -> forall x ec2 s2, GET k s1 = (x, ec2, s2) ->
     client_ok s2 /\ ((ec2 = 0 /\ x = v) \/ (ec2 <> 0 /\ x = []))).
Proof.
  intros Hok E. unfold SET, GET in *.
  destruct (exec_as_spec _ _ _ _ _ _ _ _ E) as (r & err & msg & He & Hr).
  destruct (command_facts s _ r err msg s1 Hok He) as (Hok1 & Herr & _). split; [done|].
  destruct r as [r|]; destruct Hr as [-> ->]; [|split; [|done]; split; [done|]; intros H; by destruct (proj1 Herr H)].
  destruct (set_world _ _ _ _ _ _ _ He) as [-> Hv]. split; [done|]. intros _ x ec2 s2 E2.
  destruct (exec_as_spec _ _ _ _ _ _ _ _ E2) as (r2 & err2 & msg2 & He2 & Hr2).
  destruct (command_facts s1 _ r2 err2 msg2 s2 Hok1 He2) as (Hok2 & Herr2 & _). split; [done|].
  destruct r2 as [r2|]; destruct Hr2 as [-> ->].
  - destruct (get_world _ _ _ _ _ _ _ Hv He2) as [-> _]. by left.
  - right. split; [|done]. intros H. by destruct (proj1 Herr2 H).
Qed.

(** [MGET] returns the values that exist, in the order of the keys, and nothing
    in the places of those that do not. *)
Theorem mget_values ks s l s' : client_ok s -> MGET ks s = (l, 0, s') -> l = omap (value (rc_world s)) ks.
Proof.
  intros Hok E. destruct (exec_as_zero _ _ _ _ _ _ _ Hok E) as (r & err & msg & He & _ & ->).
  assert (r = array_reply (bulk_reply ∘ value (rc_world s) <$> ks)) as ->.
  { revert He. apply (exec_world (fun w => forall k, value w k = value (rc_world s) k)
      (fun r _ => r = array_reply (bulk_reply ∘ value (rc_world s) <$> ks))); [apply quiet_all|..|done].
    - intros w c w' Hw Ec. destruct (law_mget _ _ _ _ _ Ec) as [H _]. intros k. by rewrite H.
    - intros w c x w' Hw Ec _ Ht. destruct (law_mget _ _ _ _ _ Ec) as [_ Hx]. rewrite (Hx Ht). f_equal.
      apply list_fmap_ext. intros i k _. cbn. by rewrite Hw. }
  rewrite list_fmap_compose, array_drops_missing. clear E He. induction ks as [|k ks IH]; [done|]. cbn. rewrite IH.
  by destruct (value (rc_world s) k).
Qed.
End commands.

(** ** A server for the witnesses *)

(** Its strings, and the next context. *)
Record shop := MkShop { sh_db : list (bytes * bytes); sh_next : Z }.

Definition shop_run (w : shop) (args : list bytes) : redisReply * shop :=
  let cmd c := bool_decide (head args = Some (lit c)) in
  match args with
  | [_; k; v] => if cmd "SET"%string then (status_reply (lit "OK"), MkShop ((k, v) :: sh_db w) (sh_next w))
                 else if cmd "MGET"%string then (array_reply [bulk_reply (find_key (sh_db w) k); bulk_reply (find_key (sh_db w) v)], w)
                 else (nil_reply, w)
  | _ :: ks => if cmd "GET"%string then (bulk_reply (head ks ≫= find_key (sh_db w)), w)
               else if cmd "MGET"%string then (array_reply (bulk_reply ∘ find_key (sh_db w) <$> ks), w)
               else (nil_reply, w)
  | [] => (nil_reply, w)
  end.

#[export] Instance shop_redis : Hiredis shop := {
  redisConnectWithTimeout w _ _ _ := (Some (sh_next w), MkShop (sh_db w) (sh_next w + 1));
  redisSetTimeout w _ _ := (0, w);
  redisCommandArgv w _ args := let '(r, w') := shop_run w args in (Some r, w');
  redisFree w _ := w;
  ctx_err _ _ := 0;
  ctx_errstr _ _ := None;
}.

#[export] Instance shop_laws : HiredisLaws shop.
Proof. by split. Qed.

#[export] Instance shop_strings : RedisStrings (W:=shop).
Proof.
  refine {| db := sh_db |}.
  - intros k v. by split_and!.
  - intros w c k v r w' [= <- <-] _. split; [done|]. cbn. by rewrite bool_decide_true.
  - by intros w c k r w' [= <- <-].
  - intros w c [|k1 [|k2 [|k3 ks]]] r w' [= <- <-]; done.
Defined.

Definition shop_client : redis_client := new_redis_client (MkShop [] 1).
Lemma shop_client_ok : client_ok shop_client.
Proof. by split. Qed.

Lemma set_then_get_witness :
  let '(ok, _, s1) := SET (lit "k") (lit "v") shop_client in
  let '(x, ec, _) := GET (lit "k") s1 in ok = true /\ ((ec = 0 /\ x = lit "v") \/ (ec <> 0 /\ x = [])).
Proof.
  destruct (SET (lit "k") (lit "v") shop_client) as [[ok ec] s1] eqn:E.
  destruct (GET (lit "k") s1) as [[x ec2] s2] eqn:E2.
  destruct (set_then_get (lit "k") (lit "v") shop_client ok ec s1 shop_client_ok E) as (_ & _ & H).
  assert (ok = true) as Hok by (vm_compute in E; by injection E as <- _ _). split; [done|].
  by apply (H Hok x ec2 s2 E2).
Defined.

Definition stored_client : redis_client := snd (SET (lit "b") (lit "2") shop_client).
Lemma stored_client_ok : client_ok stored_client.
Proof. by split. Qed.

Lemma mget_values_witness : fst (fst (MGET [lit "a"; lit "b"; lit "c"] stored_client)) = [lit "2"].
Proof.
  destruct (MGET [lit "a"; lit "b"; lit "c"] stored_client) as [[l ec] s'] eqn:E.
  assert (ec = 0) as Hec by (vm_compute in E; by injection E as _ <- _). subst ec.
  by rewrite (mget_values [lit "a"; lit "b"; lit "c"] stored_client l s' stored_client_ok E).
Defined.
