(* ===== verification/MysqlClient.v ===== *)
(** * The MySQL client ([mysql_client] of [wjp/mysql_client.hpp])

    libmysqlclient is the interface [MySQL]: one operation per call, on an
    abstract world [W], for the one handle and the one statement a client has at
    a time. [mc_trace] is a ghost, the calls that change something on the
    server. A method is a computation ([Effect]); [goto exit] is an exit. *)

From Stdlib Require Import Strings.String.
From S2P Require Import Prelude Text Serialize DbReq Effect.
#[local] Open Scope effect_scope.
From S2P Require DbPool.

Record mysql_client_connect_param := MkMysqlParam {
  mp_host : bytes;
  mp_user : bytes;
  mp_passwd : bytes;
  mp_dbname : bytes;
  mp_port : Z;
  mp_autocommit : bool;
}.

(** What [mysql_stmt_fetch] leaves of a column: null or not, the length of the
    value, and the bytes it wrote to the buffer. *)
Record fetched := MkFetched { f_null : bool; f_length : Z; f_data : bytes }.

(** The type and the length of a [MYSQL_FIELD]; the type and the buffer size of
    a [MYSQL_BIND]. *)
Abbreviation field := (Z * Z)%type.
Abbreviation bind_out := (Z * Z)%type.

Class MySQL (W : Type) := {
  mysql_init : W -> bool * W;
  mysql_real_connect : W -> mysql_client_connect_param -> bool * W;
  mysql_close : W -> W;
  mysql_query : W -> bytes -> Z * W;
  mysql_real_query : W -> bytes -> Z * W;
  mysql_errno : W -> Z;
  mysql_store_result : W -> option (list (list (option bytes))) * W;
  mysql_next_result : W -> Z * W;
  mysql_stmt_init : W -> bool * W;
  mysql_stmt_prepare : W -> bytes -> Z * W;
  mysql_stmt_errno : W -> Z;
  mysql_stmt_param_count : W -> Z;
  mysql_stmt_reset : W -> W;
  mysql_stmt_bind_param : W -> list bytes -> Z * W;
  mysql_stmt_result_metadata : W -> option (list field) * W;
  mysql_stmt_bind_result : W -> list bind_out -> Z * W;
  mysql_stmt_execute : W -> Z * W;
  mysql_stmt_store_result : W -> Z * W;
  mysql_stmt_num_rows : W -> Z;
  mysql_stmt_fetch : W -> (Z * list fetched) * W;
  mysql_stmt_close : W -> W;
}.

Inductive mcall :=
| MOpen
| MClose
| MQuery (sql : bytes) (rc : Z)
| MStmtOpen
| MExecute (row : list bytes) (rc : Z)
| MStmtClose.

Definition CR_CONNECTION_ERROR : Z := 2002.
Definition CR_SERVER_GONE_ERROR : Z := 2006.
Definition CR_SERVER_LOST : Z := 2013.
Definition MYSQL_NO_DATA : Z := 100.
Definition MAX_STRING_SIZE : Z := 65536.
Definition MAX_BLOB_SIZE : Z := 16 * 1048576.

Definition MYSQL_TYPE_TINY : Z := 1.
Definition MYSQL_TYPE_SHORT : Z := 2.
Definition MYSQL_TYPE_LONG : Z := 3.
Definition MYSQL_TYPE_FLOAT : Z := 4.
Definition MYSQL_TYPE_DOUBLE : Z := 5.
Definition MYSQL_TYPE_LONGLONG : Z := 8.
Definition MYSQL_TYPE_DATE : Z := 10.
Definition MYSQL_TYPE_TIME : Z := 11.
Definition MYSQL_TYPE_DATETIME : Z := 12.
Definition MYSQL_TYPE_VARCHAR : Z := 15.
Definition MYSQL_TYPE_JSON : Z := 245.
Definition MYSQL_TYPE_NEWDECIMAL : Z := 246.
Definition MYSQL_TYPE_TINY_BLOB : Z := 249.
Definition MYSQL_TYPE_MEDIUM_BLOB : Z := 250.
Definition MYSQL_TYPE_LONG_BLOB : Z := 251.
Definition MYSQL_TYPE_BLOB : Z := 252.
Definition MYSQL_TYPE_VAR_STRING : Z := 253.
Definition MYSQL_TYPE_STRING : Z := 254.
(** [sizeof(MYSQL_TIME)] on a 64-bit Linux. *)
Definition sizeof_MYSQL_TIME : Z := 40.

Definition one_of (t : Z) (types : list Z) : bool := existsb (Z.eqb t) types.

Definition blob_types : list Z := [MYSQL_TYPE_BLOB; MYSQL_TYPE_LONG_BLOB; MYSQL_TYPE_MEDIUM_BLOB; MYSQL_TYPE_TINY_BLOB].
Definition string_size (length : Z) : Z := if (0 <? length) && (length <? MAX_STRING_SIZE) then length + 1 else MAX_STRING_SIZE.
Definition blob_size (length : Z) : Z := if (0 <? length) && (length <? MAX_BLOB_SIZE) then length else MAX_BLOB_SIZE.

(** The switch of [bindStmtOut]. *)
Definition bind_typed (f : field) : bind_out :=
  let '(t, length) := f in
  if t =? MYSQL_TYPE_TINY then (MYSQL_TYPE_TINY, 1)
  else if t =? MYSQL_TYPE_SHORT then (MYSQL_TYPE_SHORT, 2)
  else if t =? MYSQL_TYPE_LONG then (MYSQL_TYPE_LONG, 4)
  else if t =? MYSQL_TYPE_LONGLONG then (MYSQL_TYPE_LONGLONG, 8)
  else if t =? MYSQL_TYPE_FLOAT then (MYSQL_TYPE_FLOAT, 4)
  else if t =? MYSQL_TYPE_DOUBLE then (MYSQL_TYPE_DOUBLE, 8)
  else if one_of t [MYSQL_TYPE_DATE; MYSQL_TYPE_TIME; MYSQL_TYPE_DATETIME] then (t, sizeof_MYSQL_TIME)
  else if one_of t blob_types then (MYSQL_TYPE_BLOB, blob_size length)
  else (MYSQL_TYPE_STRING, string_size length).

(** The switch of [bindStmtOutSimple]. *)
Definition bind_simple (f : field) : bind_out :=
  let '(t, length) := f in
  if one_of t [MYSQL_TYPE_VARCHAR; MYSQL_TYPE_STRING; MYSQL_TYPE_VAR_STRING; MYSQL_TYPE_JSON]
  then (MYSQL_TYPE_STRING, string_size length)
  else if one_of t blob_types then (MYSQL_TYPE_BLOB, blob_size length)
  else (MYSQL_TYPE_STRING, 32).

Section client.
Context {W : Type} {MW : MySQL W}.

Record mysql_client := MkMysqlClient {
  mc_client : bool;        (* _client is not null *)
  mc_connState : bool;
  mc_world : W;
  mc_trace : list mcall;
}.

Definition new_mysql_client (w : W) : mysql_client := MkMysqlClient false false w [].

Abbreviation M := (eff mysql_client).

(** A call of the library, and what it adds to the trace. *)
Definition call {A} (f : W -> A * W) (e : A -> list mcall) : M A :=
  fun s => let '(a, w) := f (mc_world s) in
           Some (a, MkMysqlClient (mc_client s) (mc_connState s) w (mc_trace s ++ e a)).
Definition quietly {A} (f : W -> A * W) : M A := call f (fun _ => []).
Definition effect (f : W -> W) (e : list mcall) : M unit := call (fun w => (tt, f w)) (fun _ => e).
End client.

Section methods.
Context {W : Type} {MW : MySQL W}.
Abbreviation client := (mysql_client (W:=W)).
Abbreviation M := (eff client).
Abbreviation E := (exc client).

Definition set_handle (h : bool) : M unit :=
  modify (fun s => MkMysqlClient h (mc_connState s) (mc_world s) (mc_trace s)).
Definition set_state (b : bool) : M unit :=
  modify (fun s => MkMysqlClient (mc_client s) b (mc_world s) (mc_trace s)).

Definition getConnState (s : client) : bool := mc_connState s.

Definition flushConnState (err : Z) : M unit :=
  if (err =? CR_CONNECTION_ERROR) || (err =? CR_SERVER_LOST) || (err =? CR_SERVER_GONE_ERROR) then set_state false else ret tt.

(** [flushConnState(mysql_errno(_client))], and for a statement. *)
Definition flush_errno : M unit := let* err := gets (fun s => mysql_errno (mc_world s)) in flushConnState err.
Definition flush_stmt_errno : M unit := let* err := gets (fun s => mysql_stmt_errno (mc_world s)) in flushConnState err.

Definition connect (param : mysql_client_connect_param) : M Z :=
  let* ok := call mysql_init (fun ok => if (ok : bool) then [MOpen] else []) in
  set_handle ok ;;
  if ok then
    let* ok := quietly (fun w => mysql_real_connect w param) in
    if (ok : bool) then set_state true ;; ret 0
    else effect mysql_close [MClose] ;; set_handle false ;; ret (-1)
  else ret (-1).

Definition disconnect : M unit :=
  let* h := gets mc_client in
  (if (h : bool) then effect mysql_close [MClose] ;; set_handle false else ret tt) ;;
  set_state false.

Definition query (sql : bytes) : M Z := call (fun w => mysql_query w (c_str sql)) (fun rc => [MQuery (c_str sql) rc]).

Definition isEmptyString (str : option bytes) : bool :=
  match str with None | Some [] => true | Some (b :: _) => Z_of_byte b =? 0 end.

(** [while (!mysql_next_result(_client))]: the further results are dropped. *)
Fixpoint drain_results (fuel : nat) : M unit :=
  match fuel with
  | O => undefined
  | S fuel =>
      let* rc := quietly mysql_next_result in
      if rc =? 0 then let* r := quietly mysql_store_result in drain_results fuel else ret tt
  end.

Definition begin : bytes := lit "begin;".
Definition commit : bytes := lit "commit;".
Definition rollback : bytes := lit "rollback;".

(** [rawQuery(sql, length, real, transaction)]; [sql] has [length] bytes. *)
Definition rawQuery (fuel : nat) (sql : option bytes) (real transaction : bool) : M Z :=
  match sql with
  | None => ret (-1)
  | Some text =>
      if isEmptyString sql then ret (-1)
      else
        let* h := gets mc_client in
        if negb (h : bool) then ret (-1)
        else
          let* brc := (if transaction then query begin else ret 0) in
          if negb (brc =? 0) then flush_errno ;; ret (-2)
          else
            let* rc := (if real then call (fun w => mysql_real_query w text) (fun rc => [MQuery text rc]) else query text) in
            (if negb (rc =? 0) then flush_errno
             else let* r := quietly mysql_store_result in drain_results fuel) ;;
            if transaction then
              let* trans_rc := query (if rc =? 0 then commit else rollback) in
              (if negb (trans_rc =? 0) then flush_errno else ret tt) ;;
              ret (if rc =? 0 then trans_rc else rc)
            else ret rc
  end.

(** The overloads of [execQuery]. *)
Definition execQuery (fuel : nat) (sql : option bytes) (transaction : bool) : M Z :=
  rawQuery fuel sql false transaction.

Definition execRealQuery (fuel : nat) (sql : option bytes) (transaction : bool) : M Z :=
  match sql with
  | Some [] => ret (-1)
  | _ => rawQuery fuel sql true transaction
  end.

(** The result, and the rows added to the table. *)
Definition execQueryForResult (fuel : nat) (sql : option bytes) : M (Z * DataTable) :=
  match sql with
  | None => ret (-1, [])
  | Some text =>
      if isEmptyString sql then ret (-1, [])
      else
        let* h := gets mc_client in
        if negb (h : bool) then ret (-1, [])
        else
          let* rc := query text in
          if rc =? 0 then
            let* result := quietly mysql_store_result in
            let table := match result with Some rows => map (map (default [])) rows | None => [] end in
            (match result with Some _ => ret tt | None => flush_errno end) ;;
            drain_results fuel ;;
            ret (rc, table)
          else flush_errno ;; ret (rc, [])
  end.

Definition setTransactionIsolation (fuel : nat) (isolationLevel : option bytes) : M Z :=
  match isolationLevel with
  | None => ret (-1)
  | Some level =>
      if isEmptyString isolationLevel then ret (-1)
      else
        let* h := gets mc_client in
        if negb (h : bool) then ret (-1)
        else execQuery fuel (Some (lit "SET SESSION TRANSACTION ISOLATION LEVEL " ++ c_str level ++ lit ";")) false
  end.
End methods.

(** ** Statements *)

Section statement.
Context {W : Type} {MW : MySQL W}.
Abbreviation client := (mysql_client (W:=W)).
Abbreviation M := (eff client).
Abbreviation E := (exc client).

(** [bindStmtOut] and [bindStmtOutSimple], with their switch: the result, the
    types of the fields and the sizes of the buffers. *)
Definition bindStmtOut (switch : field -> bind_out) (resultCols : Z) (fieldsType : FieldsType)
  : M (Z * FieldsType * list Z) :=
  let* meta := quietly mysql_stmt_result_metadata in
  match meta with
  | None => ret (-1, fieldsType, [])
  | Some fields =>
      if negb (size_of fields =? wrap 32 resultCols) then ret (-2, fieldsType, [])
      else
        let types := match fieldsType with [] => map fst fields | _ => fieldsType end in
        let* rc := quietly (fun w => mysql_stmt_bind_result w (map switch fields)) in
        ret (rc, types, map (fun f => snd (switch f)) fields)
  end.

Definition bindStmtOutTyped : Z -> FieldsType -> M (Z * FieldsType * list Z) := bindStmtOut bind_typed.
Definition bindStmtOutSimple : Z -> FieldsType -> M (Z * FieldsType * list Z) := bindStmtOut bind_simple.

(** A buffer after the library wrote to it. *)
Definition written (f : fetched) (buffer : bytes) : bytes := f_data f ++ drop (length (f_data f)) buffer.

(** The value of a column: [real_length] bytes of its buffer at most. *)
Definition column (f : fetched) (buffer : bytes) : bytes :=
  if f_null f then [] else take (Z.to_nat (Z.min (f_length f) (size_of buffer))) buffer.

Fixpoint fetch_rows (n : nat) (buffers : list bytes) (result : DataTable) : E DataTable :=
  match n with
  | O => continue result
  | S n =>
      let* r := quietly mysql_stmt_fetch in
      let '(fetch_rc, cols) := r in
      if fetch_rc =? 1 then exit_with (-9)
      else if fetch_rc =? MYSQL_NO_DATA then continue result
      else
        let buffers := zip_with written cols buffers in
        fetch_rows n buffers (result ++ [zip_with column cols buffers])
  end.

(** A call that must return 0; [flush] when its error may be the connection's. *)
Definition must (m : M Z) (flush : bool) (code : Z) : E unit :=
  let* rc := m in
  if rc =? 0 then continue tt else (if flush then flush_stmt_errno else ret tt) ;; exit_with code.

(** [mysql_stmt_bind_param] reads as many elements of [bind_in] as the statement
    has parameters; a string is bound with its terminating [NUL]. *)
Definition bind_param (row : list bytes) : M Z :=
  let* n := gets (fun s => mysql_stmt_param_count (mc_world s)) in
  if size_of row <? n then undefined
  else quietly (fun w => mysql_stmt_bind_param w (map (fun p => p ++ [x00]) row)).

Definition execute (row : list bytes) : M Z := call mysql_stmt_execute (fun rc => [MExecute row rc]).

(** One row of parameters: the results with its table, if there is one. *)
Definition exec_row (switch : field -> bind_out) (resultCols : Z) (row : list bytes) (results : DataTables)
    (fieldsType : FieldsType) : E (DataTables * FieldsType) :=
  effect mysql_stmt_reset [] ;;
  let^ _ := must (bind_param row) false (-5) in
  if 0 <? resultCols then
    let* b := bindStmtOut switch resultCols fieldsType in
    let '(rc, types, sizes) := b in
    if negb (rc =? 0) then exit_with (-6)
    else
      let^ _ := must (execute row) true (-7) in
      let^ _ := must (quietly mysql_stmt_store_result) false (-8) in
      let* num_rows := gets (fun s => swrap 32 (mysql_stmt_num_rows (mc_world s))) in
      let^ table := fetch_rows (Z.to_nat num_rows) (map (fun n => replicate (Z.to_nat n) x00) sizes) [] in
      continue (results ++ [table], types)
  else
    let^ _ := must (execute row) true (-10) in continue (results, fieldsType).

Fixpoint exec_rows (switch : field -> bind_out) (resultCols : Z) (rows : DataTable) (results : DataTables)
    (fieldsType : FieldsType) : E (DataTables * FieldsType) :=
  match rows with
  | [] => continue (results, fieldsType)
  | row :: rows =>
      let^ r := exec_row switch resultCols row results fieldsType in
      exec_rows switch resultCols rows (fst r) (snd r)
  end.

(** The rows of parameters that have as many columns as declared: [paramCols] is
    converted to the unsigned type of [size()]. *)
Definition valid_params (params : DataTable) (paramCols : Z) : DataTable :=
  filter (fun row => size_of row = wrap 64 paramCols) params.

(** From the preparation to the label [exit]. *)
Definition statement_body (switch : field -> bind_out) (sql : bytes) (params : DataTable) (paramCols resultCols : Z)
    (results : DataTables) : E (DataTables * FieldsType) :=
  let^ _ := must (quietly (fun w => mysql_stmt_prepare w sql)) true (-4) in
  match valid_params params paramCols with
  | [] => exit_with (-11)
  | rows => exec_rows switch resultCols rows results []
  end.

(** From [mysql_stmt_init] to [mysql_stmt_close]. *)
Definition run_statement (switch : field -> bind_out) (sql : bytes) (params : DataTable) (paramCols resultCols : Z)
    (results : DataTables) : E (DataTables * FieldsType) :=
  let* stmt := call mysql_stmt_init (fun ok => if (ok : bool) then [MStmtOpen] else []) in
  if (stmt : bool) then
    let* r := statement_body switch sql params paramCols resultCols results in
    effect mysql_stmt_close [MStmtClose] ;; ret r
  else exit_with (-3).

Definition execStatement (bindOutSimple : bool) (sql : option bytes) (params : DataTable) (paramCols resultCols : Z)
    (results : DataTables) (fieldsType : FieldsType) (transaction : bool) : M (Z * DataTables * FieldsType) :=
  match sql with
  | None => ret (-1, results, fieldsType)
  | Some text =>
      if isEmptyString sql then ret (-1, results, fieldsType)
      else
        let* h := gets mc_client in
        if negb (h : bool) then ret (-1, results, fieldsType)
        else
          let* brc := (if transaction then query begin else ret 0) in
          if negb (brc =? 0) then flush_errno ;; ret (-2, [], [])
          else
            let* r := run_statement (if bindOutSimple then bind_simple else bind_typed) (c_str text)
                        params paramCols resultCols results in
            let '(rc, results, types) := match r with inl code => (code, [], []) | inr (t, ty) => (0, t, ty) end in
            if transaction then
              let* trans_rc := query (if rc =? 0 then commit else rollback) in
              if negb (trans_rc =? 0)
              then flush_errno ;; ret ((if rc =? 0 then trans_rc else rc), results, types)
              else ret (rc, results, types)
            else ret (rc, results, types)
  end.

(** The overloads without a result set, and with one row of parameters. *)
Definition execStatement_row (sql : option bytes) (param : DataRow) (transaction : bool) : M Z :=
  let* r := execStatement true sql [param] (swrap 32 (size_of param)) 0 [] [] transaction in ret (fst (fst r)).

Definition execStatement_table (sql : option bytes) (params : DataTable) (paramCols : Z) (transaction : bool) : M Z :=
  let* r := execStatement true sql params paramCols 0 [] [] transaction in ret (fst (fst r)).

Definition execStatement_one (sql : option bytes) (param : DataRow) (resultCols : Z) (result : DataTable)
    (fieldsType : FieldsType) (transaction : bool) : M (Z * DataTable * FieldsType) :=
  let* r := execStatement true sql [param] (swrap 32 (size_of param)) resultCols [] fieldsType transaction in
  let '(rc, results, types) := r in
  ret (rc, match results with t :: _ => if rc =? 0 then t else result | [] => result end, types).

(** ** [mysql_client_pool::handleRequest] *)

(** The response it hands to the listener, once. *)
Definition handleRequest (fuel : nat) (id : Z) (req : mysql_client_req) : M mysql_client_resp :=
  let resp := MkMysqlResp 0 id in
  if my_type req =? DbReq.execQuery then
    let* rc := execQuery fuel (Some (my_sql req)) (my_transaction req) in ret (resp rc [] [])
  else if my_type req =? DbReq.execRealQuery then
    let* rc := execRealQuery fuel (Some (my_sql req)) (my_transaction req) in ret (resp rc [] [])
  else if my_type req =? DbReq.execQueryForResult then
    let* r := execQueryForResult fuel (Some (my_sql req)) in
    let '(rc, result) := r in ret (resp rc (if rc =? 0 then [result] else []) [])
  else if my_type req =? DbReq.execStatement then
    match my_stmt_param req with
    | Some p =>
        let* r := execStatement true (Some (my_sql req)) (params p) (paramCols p) (resultCols p) [] [] (my_transaction req) in
        let '(rc, results, types) := r in ret (resp rc results types)
    | None => ret (resp DbPool.RESP_RC_PARAM_INVALID [] [])
    end
  else ret (resp DbPool.RESP_RC_TYPE_INVALID [] []).
End statement.

(** ** Reasoning about a method *)

Section reasoning.
Context {W : Type} {MW : MySQL W}.
Abbreviation client := (mysql_client (W:=W)).
Abbreviation M := (eff client).
Abbreviation E := (exc client).

(** What a method did to the client: the calls [l] it added; the handle is as
    before, and so is the state or the connection was found lost. *)
Record did (l : list mcall) (s s' : client) : Prop := {
  did_handle : mc_client s' = mc_client s;
  did_trace : mc_trace s' = mc_trace s ++ l;
  did_state : mc_connState s' = true -> mc_connState s = true;
}.

Lemma did_nil s : did [] s s.
Proof. split; [done|by rewrite app_nil_r|done]. Qed.

Lemma did_app l l' s1 s2 s3 : did l s1 s2 -> did l' s2 s3 -> did (l ++ l') s1 s3.
Proof. intros [H1 H2 H3] [H1' H2' H3']. split; [congruence| |auto]. by rewrite H2', H2, app_assoc. Qed.

Lemma did_quiet l s1 s2 s3 : did l s1 s2 -> did [] s2 s3 -> did l s1 s3.
Proof. intros H H'. rewrite <- (app_nil_r l). by eapply did_app. Qed.

Lemma spec_call {A} (f : W -> A * W) e s :
  spec (call f e) s (fun a s' => did (e a) s s' /\ mc_connState s' = mc_connState s).
Proof. intros a s'. unfold call. destruct (f (mc_world s)) as [x w]. by intros [= <- <-]. Qed.

Lemma spec_flush err s : spec (flushConnState err) s (fun _ s' => did [] s s').
Proof.
  unfold flushConnState. case_if; [|apply spec_ret, did_nil].
  intros a s' [= _ <-]. split; cbn; [done|by rewrite app_nil_r|done].
Qed.

Lemma spec_flush_errno s : spec flush_errno s (fun _ s' => did [] s s').
Proof. apply spec_bind, spec_gets, spec_flush. Qed.
Lemma spec_flush_stmt_errno s : spec flush_stmt_errno s (fun _ s' => did [] s s').
Proof. apply spec_bind, spec_gets, spec_flush. Qed.

Lemma spec_query sql s : spec (query sql) s (fun rc s' => did [MQuery (c_str sql) rc] s s').
Proof. eapply spec_mono; [apply spec_call|]. by intros ? ? [? _]. Qed.

Lemma spec_quietly {A} (f : W -> A * W) s : spec (quietly f) s (fun _ s' => did [] s s').
Proof. eapply spec_mono; [apply spec_call|]. by intros ? ? [? _]. Qed.

Lemma spec_effect (f : W -> W) e s : spec (effect f e) s (fun _ s' => did e s s').
Proof. eapply spec_mono; [apply spec_call|]. by intros ? ? [? _]. Qed.

(** [must] goes on with what the call did, or exits. *)
Lemma spec_must m flush code s l :
  spec m s (fun rc s' => did (l rc) s s') ->
  spec (must m flush code) s (fun r s' =>
    match r with inl c => c = code /\ exists rc, rc <> 0 /\ did (l rc) s s' | inr _ => did (l 0) s s' end).
Proof.
  intros H. apply spec_bind. eapply spec_mono; [exact H|]. intros rc s1 H1.
  destruct (Z.eqb_spec rc 0) as [->|Hn]; [by apply spec_ret|]. apply spec_bind.
  apply (spec_mono _ _ (fun _ s' => did [] s1 s')).
  - destruct flush; [apply spec_flush_stmt_errno|apply spec_ret, did_nil].
  - intros _ s2 H2. apply spec_ret. split; [done|]. exists rc. split; [done|]. exact (did_quiet _ _ _ _ H1 H2).
Qed.

(** The statements executed in a piece of the trace. *)
Definition executed (l : list mcall) : list (list bytes * Z) :=
  omap (fun c => match c with MExecute row rc => Some (row, rc) | _ => None end) l.
Definition only_executes (l : list mcall) : Prop :=
  Forall (fun c => match c with MExecute _ _ => True | _ => False end) l.
End reasoning.

(** ** Statements and transactions *)

Section transactions.
Context {W : Type} {MW : MySQL W}.
Abbreviation client := (mysql_client (W:=W)).
Abbreviation M := (eff client).
Abbreviation E := (exc client).

Lemma only_executes_app l k : only_executes l -> only_executes k -> only_executes (l ++ k).
Proof. apply Forall_app_2. Qed.

Lemma fetch_rows_did n buffers result (s : client) :
  spec (fetch_rows n buffers result) s (fun r s' => did [] s s' /\ match r with inl c => c = -9 | inr _ => True end).
Proof.
  revert buffers result s. induction n as [|n IH]; intros buffers result s; cbn [fetch_rows].
  { apply spec_ret. split; [apply did_nil|done]. }
  apply spec_bind. eapply spec_mono; [apply spec_quietly|]. intros [rc cols] s1 H1.
  case_if; [by apply spec_ret|]. case_if; [by apply spec_ret|].
  eapply spec_mono; [apply IH|]. intros r s2 [H2 Hr]. split; [|done]. exact (did_quiet _ _ _ _ H1 H2).
Qed.

Lemma bindStmtOut_did sw rcols types (s : client) : spec (bindStmtOut sw rcols types) s (fun _ s' => did [] s s').
Proof.
  apply spec_bind. eapply spec_mono; [apply spec_quietly|]. intros [fields|] s1 H1; [|by apply spec_ret].
  case_if; [by apply spec_ret|]. apply spec_bind. eapply spec_mono; [apply spec_quietly|]. intros rc s2 H2.
  apply spec_ret. exact (did_quiet _ _ _ _ H1 H2).
Qed.

Lemma bind_param_did row (s : client) : spec (bind_param row) s (fun _ s' => did [] s s').
Proof. apply spec_bind, spec_gets. case_if; [done|apply spec_quietly]. Qed.

Lemma execute_did row (s : client) : spec (execute row) s (fun rc s' => did [MExecute row rc] s s').
Proof. eapply spec_mono; [apply spec_call|]. by intros ? ? [? _]. Qed.

(** One row: it is executed at most once; when [exec_row] goes on, it was
    executed, and its table was added if there is one. *)
Lemma exec_row_did sw rcols row results types (s : client) :
  spec (exec_row sw rcols row results types) s (fun r s' => exists l, did l s s' /\ only_executes l /\
    match r with
    | inl c => -10 <= c <= -5
    | inr (results', _) => executed l = [(row, 0)] /\
        if 0 <? rcols then exists t, results' = results ++ [t] else results' = results
    end).
Proof.
  apply spec_bind. eapply spec_mono; [apply spec_effect|]. intros [] s1 H1.
  apply spec_ebind. eapply spec_mono; [apply (spec_must _ _ _ _ (fun _ => [])), bind_param_did|].
  intros [c|_] s2 H2.
  { destruct H2 as (-> & rc & _ & H2). exists []. split_and!; [exact (did_quiet _ _ _ _ H1 H2)|constructor|lia..]. }
  pose proof (did_quiet _ _ _ _ H1 H2) as H. destruct (0 <? rcols).
  - apply spec_bind. eapply spec_mono; [apply bindStmtOut_did|]. intros [[rc types'] sizes] s3 H3.
    pose proof (did_quiet _ _ _ _ H H3) as H4. case_if.
    { apply spec_ret. exists []. split_and!; [done|constructor|lia..]. }
    apply spec_ebind. eapply spec_mono; [apply spec_must, execute_did|]. intros [c|_] s4 H5.
    { destruct H5 as (-> & e & _ & H5). exists [MExecute row e]. split_and!; [exact (did_app [] _ _ _ _ H4 H5)|by repeat constructor|lia..]. }
    pose proof (did_app [] _ _ _ _ H4 H5) as H6. apply spec_ebind.
    eapply spec_mono; [apply (spec_must _ _ _ _ (fun _ => [])), spec_quietly|]. intros [c|_] s5 H7.
    { destruct H7 as (-> & e & _ & H7). exists [MExecute row 0]. split_and!; [exact (did_quiet _ _ _ _ H6 H7)|by repeat constructor|lia..]. }
    pose proof (did_quiet _ _ _ _ H6 H7) as H8. apply spec_bind, spec_gets, spec_ebind.
    eapply spec_mono; [apply fetch_rows_did|]. intros [c|t] s6 [H9 Hc];
      pose proof (did_quiet _ _ _ _ H8 H9) as H10; [|apply spec_ret]; exists [MExecute row 0];
      (split_and!; [done|by repeat constructor|..]); [lia..| |]; eauto.
  - apply spec_ebind. eapply spec_mono; [apply spec_must, execute_did|]. intros [c|_] s3 H3; [|apply spec_ret].
    + destruct H3 as (-> & e & _ & H3). exists [MExecute row e].
      split_and!; [exact (did_app [] _ _ _ _ H H3)|by repeat constructor|lia..].
    + exists [MExecute row 0]. split_and!; [exact (did_app [] _ _ _ _ H H3)|by repeat constructor|done|done].
Qed.

Lemma executed_app l k : executed (l ++ k) = executed l ++ executed k.
Proof. apply omap_app. Qed.

Lemma exec_rows_did sw rcols rows results types (s : client) :
  spec (exec_rows sw rcols rows results types) s (fun r s' => exists l, did l s s' /\ only_executes l /\
    match r with
    | inl c => -10 <= c <= -5
    | inr (results', _) => executed l = (fun row => (row, 0)) <$> rows /\
        if 0 <? rcols then exists ts, results' = results ++ ts /\ length ts = length rows else results' = results
    end).
Proof.
  revert results types s. induction rows as [|row rows IH]; intros results types s; cbn [exec_rows].
  { apply spec_ret. exists []. split_and!; [apply did_nil|constructor|done|].
    destruct (0 <? rcols); [|done]. exists []. by rewrite app_nil_r. }
  apply spec_ebind. eapply spec_mono; [apply exec_row_did|]. intros [c|[results1 types1]] s1 (l & H1 & Ho & Hr).
  { by exists l. }
  destruct Hr as [He Hr]. eapply spec_mono; [apply IH|]. intros r s2 (l' & H2 & Ho' & Hr').
  exists (l ++ l'). split_and!; [exact (did_app _ _ _ _ _ H1 H2)|by apply only_executes_app|].
  destruct r as [c|[results2 types2]]; [done|]. destruct Hr' as [He' Hr']. rewrite executed_app, He, He'.
  split; [done|]. destruct (0 <? rcols); [|by subst]. destruct Hr as [t ->], Hr' as (ts & -> & Hl).
  exists (t :: ts). cbn [fst]. rewrite <- app_assoc. split; [done|]. cbn. by rewrite Hl.
Qed.

Lemma statement_body_did sw sql params pcols rcols results (s : client) :
  spec (statement_body sw sql params pcols rcols results) s (fun r s' => exists l, did l s s' /\ only_executes l /\
    match r with
    | inl c => -11 <= c <= -4
    | inr (results', _) => executed l = (fun row => (row, 0)) <$> valid_params params pcols /\ valid_params params pcols <> [] /\
        if 0 <? rcols then exists ts, results' = results ++ ts /\ length ts = length (valid_params params pcols)
        else results' = results
    end).
Proof.
  apply spec_ebind. eapply spec_mono; [apply (spec_must _ _ _ _ (fun _ => [])), spec_quietly|]. intros [c|[]] s1 H1.
  { destruct H1 as (-> & rc & _ & H1). exists []. split_and!; [done|constructor|lia..]. }
  destruct (valid_params params pcols) as [|row rows].
  { apply spec_ret. exists []. split_and!; [done|constructor|lia..]. }
  eapply spec_mono; [apply exec_rows_did|]. intros r s2 (l & H2 & Ho & Hr). exists l.
  split_and!; [exact (did_app [] _ _ _ _ H1 H2)|done|]. destruct r as [c|[results2 types2]]; [lia|].
  by destruct Hr.
Qed.

(** What a statement did, between the query that begins the transaction and the
    one that ends it: the statement was closed if it was opened. *)
Definition statement_trace (l : list mcall) : Prop :=
  l = [] \/ exists l', l = MStmtOpen :: l' ++ [MStmtClose] /\ only_executes l'.

Lemma run_statement_did sw sql params pcols rcols results (s : client) :
  spec (run_statement sw sql params pcols rcols results) s
    (fun r s' => exists l, did l s s' /\ statement_trace l /\
       match r with
       | inl c => -11 <= c <= -3
       | inr (results', _) => executed l = (fun row => (row, 0)) <$> valid_params params pcols /\ valid_params params pcols <> [] /\
           if 0 <? rcols then exists ts, results' = results ++ ts /\ length ts = length (valid_params params pcols)
           else results' = results
       end).
Proof.
  apply spec_bind. eapply spec_mono; [apply spec_call|]. intros [] s1 [H1 _].
  - apply spec_bind. eapply spec_mono; [apply statement_body_did|]. intros r s2 (l & H2 & Ho & Hr).
    apply spec_bind. eapply spec_mono; [apply spec_effect|]. intros [] s3 H3. apply spec_ret.
    exists (MStmtOpen :: l ++ [MStmtClose]). split_and!.
    + exact (did_app [MStmtOpen] _ _ _ _ H1 (did_app _ _ _ _ _ H2 H3)).
    + right. by exists l.
    + destruct r as [c|[results' types']]; [lia|]. destruct Hr as [He Hr]. split; [|done]. cbn.
      by rewrite executed_app, app_nil_r.
  - apply spec_ret. exists []. split_and!; [done|by left|lia..].
Qed.

Lemma begin_did (transaction : bool) (s : client) :
  spec (if transaction then query begin else ret 0) s (fun rc s' =>
    did (if transaction then [MQuery begin rc] else []) s s' /\ (transaction = false -> rc = 0)).
Proof.
  destruct transaction; [|apply spec_ret; split; [apply did_nil|done]].
  eapply spec_mono; [apply spec_query|]. by intros rc s' H.
Qed.

(** The query that ends a transaction: its result, given the result before it. *)
Lemma end_did {A} rc (k : Z -> A) (s : client) :
  spec (let* trans_rc := query (if rc =? 0 then commit else rollback) in
        if negb (trans_rc =? 0) then flush_errno ;; ret (k (if rc =? 0 then trans_rc else rc)) else ret (k rc)) s
    (fun r s' => exists trc, did [MQuery (if rc =? 0 then commit else rollback) trc] s s' /\
       r = k (if rc =? 0 then trc else rc)).
Proof.
  apply spec_bind. eapply spec_mono; [apply spec_query|]. intros trc s1 H1.
  replace (c_str (if rc =? 0 then commit else rollback)) with (if rc =? 0 then commit else rollback) in H1
    by (by destruct (rc =? 0)).
  destruct (Z.eqb_spec trc 0) as [->|Hn]; cbn [negb].
  - apply spec_ret. exists 0. split; [done|]. by destruct (Z.eqb_spec rc 0) as [->|].
  - apply spec_bind. eapply spec_mono; [apply spec_flush_errno|]. intros [] s2 H2. apply spec_ret.
    exists trc. split; [exact (did_quiet _ _ _ _ H1 H2)|done].
Qed.

(** How a statement with parameters ends. Without a transaction its result is
    that of the statement. With one, either it could not be begun, and nothing
    else was sent; or it was ended by [commit] or [rollback] as the last thing
    sent, and the result is 0 if and only if [commit] was sent and succeeded;
    then every valid row was executed once, in order, successfully. *)
Definition ended_well (transaction : bool) (rows : DataTable) (resultCols rc : Z) (results : DataTables) (l : list mcall) : Prop :=
  if transaction then
    (exists b, b <> 0 /\ rc = -2 /\ l = [MQuery begin b] /\ results = []) \/
    (exists l' last trc, l = MQuery begin 0 :: l' ++ [MQuery last trc] /\ statement_trace l' /\
       (last = commit \/ last = rollback) /\ (rc = 0 <-> last = commit /\ trc = 0) /\
       (last = rollback -> results = []) /\
       (last = commit -> executed l' = (fun row => (row, 0)) <$> rows /\
          length results = if 0 <? resultCols then length rows else 0%nat))
  else statement_trace l /\ (rc <> 0 -> results = []) /\
       (rc = 0 -> executed l = (fun row => (row, 0)) <$> rows /\
          length results = if 0 <? resultCols then length rows else 0%nat).

Lemma execStatement_did simple text params pcols rcols types transaction (s : client) :
  isEmptyString (Some text) = false -> mc_client s = true ->
  spec (execStatement simple (Some text) params pcols rcols [] types transaction) s (fun r s' =>
    exists l, did l s s' /\ ended_well transaction (valid_params params pcols) rcols (fst (fst r)) (snd (fst r)) l).
Proof.
  intros Ht Hc. unfold execStatement. rewrite Ht. apply spec_bind, spec_gets. rewrite Hc. cbn [negb].
  apply spec_bind. eapply spec_mono; [apply begin_did|]. intros brc s1 [H1 Hb].
  destruct (Z.eqb_spec brc 0) as [->|Hn]; cbn [negb].
  2:{ destruct transaction; [|by rewrite Hb in Hn]. apply spec_bind. eapply spec_mono; [apply spec_flush_errno|].
      intros [] s2 H2. apply spec_ret. exists [MQuery begin brc]. split; [exact (did_quiet _ _ _ _ H1 H2)|].
      left. by exists brc. }
  apply spec_bind. eapply spec_mono; [apply run_statement_did|]. intros r s2 (l & H2 & Hl & Hr).
  pose proof (did_app _ _ _ _ _ H1 H2) as H3.
  set (rc := match r with inl c => c | inr _ => 0 end). set (res := match r with inl _ => [] | inr (t, _) => t end).
  set (ty := match r with inl _ => [] | inr (_, ty) => ty end).
  assert ((let '(rc, results, types) := match r with inl code => (code, [], []) | inr (t, ty) => (0, t, ty) end in
           if transaction then
             let* trans_rc := query (if rc =? 0 then commit else rollback) in
             if negb (trans_rc =? 0)
             then flush_errno ;; ret ((if rc =? 0 then trans_rc else rc), results, types)
             else ret (rc, results, types)
           else ret (rc, results, types)) =
          (if transaction then
             let* trans_rc := query (if rc =? 0 then commit else rollback) in
             if negb (trans_rc =? 0)
             then flush_errno ;; ret ((if rc =? 0 then trans_rc else rc), res, ty)
             else ret (rc, res, ty)
           else ret (rc, res, ty))) as -> by (by destruct r as [|[]]).
  assert ((rc <> 0 -> res = []) /\ (rc = 0 -> executed l = (fun row => (row, 0)) <$> valid_params params pcols /\
            length res = if 0 <? rcols then length (valid_params params pcols) else 0%nat)) as [Hr1 Hr2].
  { unfold rc, res. destruct r as [c|[t ty']]; [split; [done|lia]|]. destruct Hr as (He & _ & Ht').
    split; [done|]. intros _. split; [done|]. destruct (0 <? rcols); [by destruct Ht' as (ts & -> & <-)|by subst]. }
  clearbody rc res ty. destruct transaction; cbn [app] in H3.
  - eapply spec_mono; [apply (end_did rc (fun rc => (rc, res, ty)))|]. intros r' s3 (trc & H4 & ->). cbn [fst snd].
    eexists. split; [exact (did_app _ _ _ _ _ H3 H4)|]. right. exists l, (if rc =? 0 then commit else rollback), trc.
    split_and!; [done|done|by destruct (rc =? 0); [left|right]|..]; destruct (Z.eqb_spec rc 0) as [->|Hn]; naive_solver.
  - apply spec_ret. exists l. by split.
Qed.
End transactions.

(** ** Requests *)

Section requests.
Context {W : Type} {MW : MySQL W}.
Abbreviation client := (mysql_client (W:=W)).
Abbreviation M := (eff client).
Abbreviation E := (exc client).

Lemma drain_did fuel (s : client) : spec (drain_results fuel) s (fun _ s' => did [] s s').
Proof.
  revert s. induction fuel as [|f IH]; intros s; cbn [drain_results]; [done|].
  apply spec_bind. eapply spec_mono; [apply spec_quietly|]. intros rc s1 H1. case_if; [|by apply spec_ret].
  apply spec_bind. eapply spec_mono; [apply spec_quietly|]. intros r s2 H2.
  eapply spec_mono; [apply IH|]. intros [] s3 H3. exact (did_quiet _ _ _ _ (did_quiet _ _ _ _ H1 H2) H3).
Qed.

(** What is sent for a query in a transaction. *)
Definition query_trace (text : bytes) (real transaction : bool) (rc : Z) (l : list mcall) : Prop :=
  let sent := if real then text else c_str text in
  if transaction then
    (exists b, b <> 0 /\ rc = -2 /\ l = [MQuery begin b]) \/
    (exists q trc, l = [MQuery begin 0; MQuery sent q; MQuery (if q =? 0 then commit else rollback) trc] /\
       rc = if q =? 0 then trc else q)
  else l = [MQuery sent rc].

Lemma rawQuery_did fuel text real transaction (s : client) :
  isEmptyString (Some text) = false -> mc_client s = true ->
  spec (rawQuery fuel (Some text) real transaction) s (fun rc s' => exists l, did l s s' /\ query_trace text real transaction rc l).
Proof.
  intros Ht Hc. unfold rawQuery. rewrite Ht. apply spec_bind, spec_gets. rewrite Hc. cbn [negb].
  apply spec_bind. eapply spec_mono; [apply begin_did|]. intros brc s1 [H1 Hb].
  destruct (Z.eqb_spec brc 0) as [->|Hn]; cbn [negb].
  2:{ destruct transaction; [|by rewrite Hb in Hn]. apply spec_bind. eapply spec_mono; [apply spec_flush_errno|].
      intros [] s2 H2. apply spec_ret. exists [MQuery begin brc]. split; [exact (did_quiet _ _ _ _ H1 H2)|].
      left. by exists brc. }
  set (sent := if real then text else c_str text).
  apply spec_bind. apply (spec_mono _ _ (fun rc s' => did [MQuery sent rc] s1 s')).
  { destruct real; [|apply spec_query]. eapply spec_mono; [apply spec_call|]. by intros ? ? [? _]. }
  intros q s2 H2. pose proof (did_app _ _ _ _ _ H1 H2) as H3.
  apply spec_bind. apply (spec_mono _ _ (fun _ s' => did [] s2 s')).
  { case_if; [apply spec_flush_errno|]. apply spec_bind. eapply spec_mono; [apply spec_quietly|]. intros r s3 H4.
    eapply spec_mono; [apply drain_did|]. intros [] s4 H5. exact (did_quiet _ _ _ _ H4 H5). }
  intros [] s3 H4. pose proof (did_quiet _ _ _ _ H3 H4) as H5. destruct transaction; cbn [app] in H5.
  - apply spec_bind. eapply spec_mono; [apply spec_query|]. intros trc s4 H6.
    pose proof (did_app _ _ _ _ _ H5 H6) as H7. apply spec_bind.
    apply (spec_mono _ _ (fun _ s' => did [] s4 s')).
    { case_if; [apply spec_flush_errno|apply spec_ret, did_nil]. }
    intros [] s5 H8. apply spec_ret. eexists. split; [exact (did_quiet _ _ _ _ H7 H8)|]. right. exists q, trc.
    by destruct (q =? 0).
  - apply spec_ret. eexists. by split.
Qed.

(** How a transaction ends: either it could not be begun, the result is -2 and
    nothing else was sent; or the last thing sent is [commit] or [rollback], and
    the result is 0 if and only if it is a [commit] that succeeded. In between
    is the query, or one statement that was closed again. *)
Definition transacted (rc : Z) (l : list mcall) : Prop :=
  (exists b, b <> 0 /\ rc = -2 /\ l = [MQuery begin b]) \/
  (exists l' last trc, l = MQuery begin 0 :: l' ++ [MQuery last trc] /\
     ((exists sql q, l' = [MQuery sql q]) \/ statement_trace l') /\
     (last = commit \/ last = rollback) /\ (rc = 0 <-> last = commit /\ trc = 0)).

Lemma query_transacted text real rc l : query_trace text real true rc l -> transacted rc l.
Proof.
  intros [H|(q & trc & -> & ->)]; [by left|right].
  exists [MQuery (if real then text else c_str text) q], (if q =? 0 then commit else rollback), trc.
  split_and!; [done|left; eauto|by destruct (q =? 0); [left|right]|].
  destruct (Z.eqb_spec q 0) as [->|Hn]; naive_solver.
Qed.

Lemma statement_transacted rows rcols rc results l : ended_well true rows rcols rc results l -> transacted rc l.
Proof.
  intros [(b & Hb & Hrc & Hl & _)|(l' & last & trc & Hl & Htr & Hlast & Hrc & _)]; [left; by exists b|right].
  exists l', last, trc. split_and!; [done|by right|done|apply Hrc..].
Qed.

Lemma handleRequest_did fuel id req (s : client) :
  my_transaction req = true -> mc_client s = true -> isEmptyString (Some (my_sql req)) = false ->
  (my_type req = DbReq.execQuery \/ my_type req = DbReq.execRealQuery \/
   my_type req = DbReq.execStatement /\ is_Some (my_stmt_param req)) ->
  spec (handleRequest fuel id req) s (fun resp s' =>
    myr_req_id resp = id /\ exists l, did l s s' /\ transacted (myr_rc resp) l).
Proof.
  intros Ht Hc Hs Hty. unfold handleRequest. rewrite Ht.
  destruct Hty as [E|[E|[E [p Ep]]]]; rewrite E; cbn [Z.eqb DbReq.execQuery DbReq.execRealQuery DbReq.execQueryForResult
    DbReq.execStatement Pos.eqb].
  - apply spec_bind. eapply spec_mono; [by apply rawQuery_did|]. intros rc s1 (l & H1 & Hq). apply spec_ret. split; [done|].
    exists l. split; [done|]. by eapply query_transacted.
  - unfold execRealQuery. destruct (my_sql req) as [|b0 rest] eqn:Esql; [done|]. rewrite <- Esql in *.
    apply spec_bind. eapply spec_mono; [by apply rawQuery_did|]. intros rc s1 (l & H1 & Hq). apply spec_ret. split; [done|].
    exists l. split; [done|]. by eapply query_transacted.
  - rewrite Ep. apply spec_bind. eapply spec_mono; [by apply execStatement_did|].
    intros [[rc results] types] s1 (l & H1 & He). apply spec_ret. split; [done|]. exists l. split; [done|].
    by eapply statement_transacted.
Qed.

(** C20: a request in a transaction keeps the client's handle, its response has the
    request's id, and the transaction is ended: see [transacted]. *)
Theorem request_transaction fuel id req (s s' : client) resp :
  my_transaction req = true -> mc_client s = true -> isEmptyString (Some (my_sql req)) = false ->
  (my_type req = DbReq.execQuery \/ my_type req = DbReq.execRealQuery \/
   my_type req = DbReq.execStatement /\ is_Some (my_stmt_param req)) ->
  handleRequest fuel id req s = Some (resp, s') ->
  myr_req_id resp = id /\ mc_client s' = true /\ (getConnState s' = true -> getConnState s = true) /\
  exists l, mc_trace s' = mc_trace s ++ l /\ transacted (myr_rc resp) l.
Proof.
  intros Ht Hc Hs Hty E. destruct (handleRequest_did fuel id req s Ht Hc Hs Hty resp s' E) as (Hid & l & [Hh Hl Hst] & Htr).
  split_and!; [done|congruence|done|]. by exists l.
Qed.
End requests.

(** ** The values of a result *)

Section values.
Context {W : Type} {MW : MySQL W}.
Abbreviation client := (mysql_client (W:=W)).
Abbreviation M := (eff client).
Abbreviation E := (exc client).

(** What [mysql_stmt_fetch] does with the rows that are left, the values being
    bound to buffers of these sizes: a value that does not fit is cut, and its
    length is that of the whole value. *)
Class MySQLRows := {
  rows_of : W -> list (list (option bytes));
  buffers_of : W -> list Z;
  law_fetch w rc cols w' : mysql_stmt_fetch w = ((rc, cols), w') ->
    match rows_of w with
    | [] => rc = MYSQL_NO_DATA
    | row :: rows => rc <> 1 /\ rc <> MYSQL_NO_DATA /\ rows_of w' = rows /\ buffers_of w' = buffers_of w /\
        cols = zip_with (fun v n => match v with
                                    | Some d => MkFetched false (size_of d) (take (Z.to_nat n) d)
                                    | None => MkFetched true 0 []
                                    end) row (buffers_of w)
    end;
}.
Context {MR : MySQLRows}.

(** What of a value is returned. *)
Definition shown (n : Z) (v : option bytes) : bytes := match v with Some d => take (Z.to_nat n) d | None => [] end.

Lemma take_take_min (d : bytes) n : take (Nat.min (Nat.min (length d) n) n) d = take n d.
Proof. destruct (Nat.le_gt_cases n (length d)); [f_equal; lia|]. rewrite !take_ge; [done|lia..]. Qed.

Lemma column_shown n v buffer : size_of buffer = n ->
  let f := match v with Some d => MkFetched false (size_of d) (take (Z.to_nat n) d) | None => MkFetched true 0 [] end in
  size_of (written f buffer) = n /\ column f (written f buffer) = shown n v.
Proof.
  intros Hb. destruct v as [d|]; cbn; unfold written; cbn [f_data]; [|by rewrite drop_0].
  unfold size_of in *. split; [rewrite length_app, length_drop, length_take; lia|].
  unfold column. cbn [f_null f_length]. unfold size_of. subst n. rewrite Nat2Z.id in *.
  replace (Z.to_nat _) with (Nat.min (length d) (length buffer))
    by (rewrite length_app, length_drop, length_take; lia).
  rewrite take_app_le by (rewrite length_take; lia). rewrite take_take. apply take_take_min.
Qed.

(** The fetch loop returns all rows in order, every value cut to its buffer. *)
Theorem fetch_values rows buffers result (s : client) :
  rows_of (mc_world s) = rows -> buffers_of (mc_world s) = map size_of buffers ->
  Forall (fun row => length row = length buffers) rows ->
  exists s', fetch_rows (length rows) buffers result s =
    Some (inr (result ++ map (zip_with shown (map size_of buffers)) rows), s').
Proof.
  revert buffers result s. induction rows as [|row rows IH]; intros buffers result s Hr Hb Hl; cbn [fetch_rows length].
  { exists s. cbn. by rewrite app_nil_r. }
  apply Forall_cons in Hl as [Hrow Hl].
  unfold bind, quietly, call. destruct (mysql_stmt_fetch (mc_world s)) as [[rc cols] w'] eqn:Ef.
  pose proof (law_fetch _ _ _ _ Ef) as H. rewrite Hr in H. destruct H as (H1 & H2 & Hr' & Hb' & Hc).
  rewrite (proj2 (Z.eqb_neq _ _) H1), (proj2 (Z.eqb_neq _ _) H2).
  assert (forall (row : list (option bytes)) buffers, length row = length buffers ->
    let cols := zip_with (fun v n => match v with
                                    | Some d => MkFetched false (size_of d) (take (Z.to_nat n) d)
                                    | None => MkFetched true 0 []
                                    end) row (map size_of buffers) in
    map size_of (zip_with written cols buffers) = map size_of buffers /\
    zip_with column cols (zip_with written cols buffers) = zip_with shown (map size_of buffers) row) as Hcols.
  { clear. induction row as [|v row IH]; intros [|b buffers] Hl; try done. injection Hl as Hl.
    destruct (IH buffers Hl) as [I1 I2]. destruct (column_shown (size_of b) v b eq_refl) as [J1 J2].
    cbn [map zip_with]. by rewrite J1, J2, I1, I2. }
  rewrite Hb in Hc. destruct (Hcols row buffers Hrow) as [C1 C2]. rewrite <- Hc in C1, C2.
  destruct (IH (zip_with written cols buffers) (result ++ [zip_with column cols (zip_with written cols buffers)])
    (MkMysqlClient (mc_client s) (mc_connState s) w' (mc_trace s ++ []))) as [s' Hs']; [done| | |].
  - cbn [mc_world]. by rewrite Hb', Hb.
  - assert (length (zip_with written cols buffers) = length buffers) as ->; [|done].
    pose proof (f_equal length C1) as E. by rewrite !length_map in E.
  - exists s'. rewrite Hs', C1, C2, <- app_assoc. done.
Qed.

(** A value is returned whole if and only if it fits its buffer. *)
Theorem value_whole (switch : field -> bind_out) f v : 0 <= snd (switch f) ->
  shown (snd (switch f)) (Some v) = v <-> size_of v <= snd (switch f).
Proof.
  intros H. unfold shown, size_of. split; [|intros Hv; apply take_ge; lia].
  intros E. apply (f_equal length) in E. rewrite length_take in E. lia.
Qed.
End values.

(** A decimal of 65 digits has a buffer of 32 bytes: the rest is cut off, and
    the statement succeeds. *)
Example decimal_cut_off :
  let v := replicate 65 x39 in
  bind_simple (MYSQL_TYPE_NEWDECIMAL, 67) = (MYSQL_TYPE_STRING, 32) /\
  shown (snd (bind_simple (MYSQL_TYPE_NEWDECIMAL, 67))) (Some v) = replicate 32 x39.
Proof. vm_compute. done. Qed.

(** ** Every request is answered *)

Section answered.
Context {W : Type} {MW : MySQL W}.
Abbreviation client := (mysql_client (W:=W)).
Abbreviation M := (eff client).
Abbreviation E := (exc client).

(** The further results of a query come to an end: [more] of them are left. *)
Class MySQLResults := {
  more : W -> nat;
  law_next w w' : mysql_next_result w = (0, w') -> (more w' < more w)%nat;
  law_store w : more (snd (mysql_store_result w)) = more w;
}.
Context {ME : MySQLResults}.

Lemma drain_eventually (s : client) : eventually drain_results s.
Proof.
  remember (more (mc_world s)) as n eqn:Hn. revert s Hn.
  induction n as [n IH] using lt_wf_ind. intros s Hn.
  assert (forall f, drain_results (S f) s =
    (let* rc := quietly mysql_next_result in
     if rc =? 0 then let* r := quietly mysql_store_result in drain_results f else ret tt) s) as Hstep by done.
  unfold bind at 1, quietly at 1, call at 1 in Hstep.
  destruct (mysql_next_result (mc_world s)) as [rc w] eqn:Ew. destruct (Z.eqb_spec rc 0) as [->|Hrc].
  - unfold bind, quietly, call in Hstep. cbn [mc_world] in Hstep. pose proof (law_store w) as Hs.
    destruct (mysql_store_result w) as [r w']. cbn [snd] in Hs.
    destruct (IH (more w') ltac:(rewrite Hn, Hs; by apply law_next)
      (MkMysqlClient (mc_client s) (mc_connState s) w' ((mc_trace s ++ []) ++ [])) eq_refl) as (f0 & a & s' & H).
    exists (S f0), a, s'. intros [|f] Hf; [lia|]. rewrite Hstep. apply H. lia.
  - eexists 1%nat, tt, _. intros [|f] Hf; [lia|]. rewrite Hstep. reflexivity.
Qed.

Lemma some_flush (m : M unit) s : m = flush_errno \/ m = ret tt -> is_Some (m s).
Proof.
  intros [->| ->]; [|by eexists]. unfold flush_errno, bind, gets, flushConnState. case_if; by eexists.
Qed.

Lemma some_call {A} (f : W -> A * W) e (s : client) : is_Some (call f e s).
Proof. unfold call. destruct (f (mc_world s)). by eexists. Qed.

Lemma rawQuery_eventually sql real transaction (s : client) : eventually (fun f => rawQuery f sql real transaction) s.
Proof.
  destruct sql as [text|]; [|by apply eventually_now; eexists]. unfold rawQuery. case_if; [by apply eventually_now; eexists|].
  apply eventually_bind; [by apply eventually_now; eexists|]. intros _ h s1 _.
  case_if; [by apply eventually_now; eexists|]. apply eventually_bind.
  { apply eventually_now. destruct transaction; [apply some_call|by eexists]. }
  intros _ brc s2 _. case_if.
  { apply eventually_bind; [apply eventually_now, some_flush; auto|]. intros. apply eventually_now. by eexists. }
  apply eventually_bind. { apply eventually_now. destruct real; apply some_call. }
  intros _ rc s3 _. apply eventually_bind.
  { case_if; [apply eventually_now, some_flush; auto|].
    apply eventually_bind; [apply eventually_now, some_call|]. intros. apply drain_eventually. }
  intros _ [] s4 _. destruct transaction; [|apply eventually_now; by eexists].
  apply eventually_bind; [apply eventually_now, some_call|]. intros _ trc s5 _.
  apply eventually_bind; [apply eventually_now; case_if; apply some_flush; auto|]. intros. apply eventually_now. by eexists.
Qed.

Lemma queryForResult_eventually sql (s : client) : eventually (fun f => execQueryForResult f sql) s.
Proof.
  destruct sql as [text|]; [|by apply eventually_now; eexists]. unfold execQueryForResult.
  case_if; [by apply eventually_now; eexists|].
  apply eventually_bind; [by apply eventually_now; eexists|]. intros _ h s1 _.
  case_if; [by apply eventually_now; eexists|]. apply eventually_bind; [apply eventually_now, some_call|].
  intros _ rc s2 _. case_if.
  - apply eventually_bind; [apply eventually_now, some_call|]. intros _ r s3 _.
    apply eventually_bind; [apply eventually_now; destruct r; apply some_flush; auto|]. intros _ [] s4 _.
    apply eventually_bind; [apply drain_eventually|]. intros. apply eventually_now. by eexists.
  - apply eventually_bind; [apply eventually_now, some_flush; auto|]. intros. apply eventually_now. by eexists.
Qed.
End answered.

Section answers.
Context {W : Type} {MW : MySQL W}.
Abbreviation client := (mysql_client (W:=W)).
Abbreviation M := (eff client).
Abbreviation E := (exc client).

(** [mysql_stmt_bind_param] is given an array with one element for each column
    of the row: it reads past its end when the statement has more parameters. *)
Theorem bind_param_overread row (s : client) : bind_param row s = None <-> size_of row < mysql_stmt_param_count (mc_world s).
Proof.
  unfold bind_param, bind, gets. destruct (Z.ltb_spec (size_of row) (mysql_stmt_param_count (mc_world s))); [done|].
  destruct (some_call (fun w => mysql_stmt_bind_param w (map (fun p => p ++ [x00]) row)) (fun _ => []) s) as [x E].
  unfold quietly. rewrite E. split; [done|lia].
Qed.

Lemma some_must m flush code (s : client) : is_Some (m s) -> is_Some (must m flush code s).
Proof.
  intros Hm. apply some_bind; [done|]. intros rc s' _. case_if; [by eexists|].
  apply some_bind; [|by eexists]. destruct flush; [|by eexists].
  unfold flush_stmt_errno, bind, gets, flushConnState. case_if; by eexists.
Qed.

Lemma some_fetch n buffers result (s : client) : is_Some (fetch_rows n buffers result s).
Proof.
  revert buffers result s. induction n as [|n IH]; intros; cbn [fetch_rows]; [by eexists|].
  apply some_bind; [apply some_call|]. intros [rc cols] s' _. case_if; [by eexists|]. case_if; [by eexists|]. apply IH.
Qed.

Context (count : Z) (Hcount : forall w, mysql_stmt_param_count w <= count).

Lemma some_row sw rcols row results types (s : client) :
  count <= size_of row -> is_Some (exec_row sw rcols row results types s).
Proof.
  intros Hrow. apply some_bind; [apply some_call|]. intros [] s1 _. apply some_ebind.
  { apply some_must. apply not_eq_None_Some. rewrite bind_param_overread. pose proof (Hcount (mc_world s1)). lia. }
  intros [] s2 _. case_if.
  - apply some_bind.
    { apply some_bind; [apply some_call|]. intros [fields|] s3 _; [|by eexists]. case_if; [by eexists|].
      apply some_bind; [apply some_call|]. by eexists. }
    intros [[rc types'] sizes] s3 _. case_if; [by eexists|].
    apply some_ebind; [apply some_must, some_call|]. intros [] s4 _.
    apply some_ebind; [apply some_must, some_call|]. intros [] s5 _.
    apply some_bind; [by eexists|]. intros n s6 _. apply some_ebind; [apply some_fetch|]. by eexists.
  - apply some_ebind; [apply some_must, some_call|]. by eexists.
Qed.

Lemma some_rows sw rcols rows results types (s : client) :
  Forall (fun row => count <= size_of row) rows -> is_Some (exec_rows sw rcols rows results types s).
Proof.
  intros Hr. revert results types s. induction Hr as [|row rows Hrow Hr IH]; intros; cbn [exec_rows]; [by eexists|].
  apply some_ebind; [by apply some_row|]. intros [] s' _. apply IH.
Qed.

(** A statement whose rows have a column for every parameter returns. *)
Lemma some_statement simple sql params pcols rcols results types transaction (s : client) :
  count <= wrap 64 pcols ->
  is_Some (execStatement simple sql params pcols rcols results types transaction s).
Proof.
  intros Hc. destruct sql as [text|]; [|by eexists]. unfold execStatement. case_if; [by eexists|].
  apply some_bind; [by eexists|]. intros h s1 _. case_if; [by eexists|].
  apply some_bind; [destruct transaction; [apply some_call|by eexists]|]. intros brc s2 _. case_if.
  { apply some_bind; [apply some_flush; auto|by eexists]. }
  apply some_bind.
  { apply some_bind; [apply some_call|]. intros [] s3 _; [|by eexists]. apply some_bind.
    - apply some_ebind; [apply some_must, some_call|]. intros [] s4 _.
      assert (Forall (fun row => count <= size_of row) (valid_params params pcols)) as Hv.
      { apply Forall_forall. intros row [Hrow _]%list_elem_of_filter. lia. }
      destruct (valid_params params pcols); [by eexists|]. by apply some_rows.
    - intros r s4 _. apply some_bind; [apply some_call|by eexists]. }
  intros r s3 _. destruct r as [code|[t ty]]; (destruct transaction; [|by eexists]);
    (apply some_bind; [apply some_call|]; intros trc s4 _; case_if; [apply some_bind; [apply some_flush; auto|]|]; by eexists).
Qed.

(** C21: every request is answered, with its id, whatever the server does, provided
    its results come to an end and the statement of a request has no more
    parameters than the request has columns. *)
Theorem request_answered `{!MySQLResults} id req (s : client) :
  (forall p, my_stmt_param req = Some p -> count <= wrap 64 (paramCols p)) ->
  exists f0 resp s', myr_req_id resp = id /\ forall f, (f0 <= f)%nat -> handleRequest f id req s = Some (resp, s').
Proof.
  intros Hp.
  assert (forall (m : nat -> M mysql_client_resp), eventually m s ->
    (forall f, spec (m f) s (fun resp _ => myr_req_id resp = id)) ->
    exists f0 resp s', myr_req_id resp = id /\ forall f, (f0 <= f)%nat -> m f s = Some (resp, s')) as Hdone.
  { intros m (f0 & a & s' & Hm) Hs. exists f0, a, s'. split; [|done]. by apply (Hs f0 a s'), Hm. }
  apply Hdone; unfold handleRequest.
  - destruct (my_type req =? DbReq.execQuery).
    { apply eventually_bind; [apply rawQuery_eventually|]. intros. apply eventually_now. by eexists. }
    destruct (my_type req =? DbReq.execRealQuery).
    { apply eventually_bind; [|intros; apply eventually_now; by eexists]. unfold execRealQuery.
      destruct (my_sql req); [apply eventually_now; by eexists|apply rawQuery_eventually]. }
    destruct (my_type req =? DbReq.execQueryForResult).
    { apply eventually_bind; [apply queryForResult_eventually|]. intros f [rc t] s' _. apply eventually_now. by eexists. }
    destruct (my_type req =? DbReq.execStatement); [|apply eventually_now; by eexists].
    destruct (my_stmt_param req) as [p|] eqn:E; [|apply eventually_now; by eexists].
    apply eventually_bind; [apply eventually_now; apply some_statement; auto|].
    intros f [[rc t] ty] s' _. apply eventually_now. by eexists.
  - intros f. assert (forall A (m : M A) (k : A -> M mysql_client_resp), (forall a s', spec (k a) s' (fun resp _ => myr_req_id resp = id)) ->
      spec (bind m k) s (fun resp _ => myr_req_id resp = id)) as Hb.
    { intros A m k Hk. apply spec_bind. intros a s' _. apply Hk. }
    repeat case_if; try destruct (my_stmt_param req) as [p|];
      try (apply Hb; intros a s'); repeat match goal with x : _ * _ |- _ => destruct x end; by apply spec_ret.
Qed.

Lemma flush_errno_world (s : client) : exists s', flush_errno s = Some (tt, s') /\ mc_world s' = mc_world s.
Proof. unfold flush_errno, bind, gets, flushConnState. case_if; by eexists. Qed.

(** A result that is lost on the way is reported as an empty one, with success,
    whatever the error was. *)
Theorem lost_result_is_success fuel id req (s : client) w1 w2 w3 n :
  my_type req = DbReq.execQueryForResult -> isEmptyString (Some (my_sql req)) = false -> mc_client s = true ->
  mysql_query (mc_world s) (c_str (my_sql req)) = (0, w1) -> mysql_store_result w1 = (None, w2) ->
  mysql_next_result w2 = (n, w3) -> n <> 0 ->
  exists s', handleRequest (S fuel) id req s = Some (MkMysqlResp 0 id 0 [[]] [], s').
Proof.
  intros Ht Hs Hc Hq Hr Hn Hn0.
  set (text := my_sql req) in *. set (sent := [MQuery (c_str text) 0]).
  set (s1 := MkMysqlClient (mc_client s) (mc_connState s) w1 (mc_trace s ++ sent)).
  set (s2 := MkMysqlClient (mc_client s) (mc_connState s) w2 ((mc_trace s ++ sent) ++ [])).
  assert (query text s = Some (0, s1)) as E1 by (unfold query, call; by rewrite Hq).
  assert (quietly mysql_store_result s1 = Some (None, s2)) as E2 by (unfold quietly, call; cbn [s1 mc_world]; by rewrite Hr).
  destruct (flush_errno_world s2) as (s3 & E3 & Hw). change (mc_world s2) with w2 in Hw.
  assert (quietly mysql_next_result s3 = Some (n, MkMysqlClient (mc_client s3) (mc_connState s3) w3 (mc_trace s3 ++ []))) as E4
    by (unfold quietly, call; by rewrite Hw, Hn).
  assert (drain_results (S fuel) s3 = Some (tt, MkMysqlClient (mc_client s3) (mc_connState s3) w3 (mc_trace s3 ++ []))) as E5.
  { cbn [drain_results]. rewrite (bind_eq _ _ _ _ _ E4). by rewrite (proj2 (Z.eqb_neq _ _) Hn0). }
  set (s5 := MkMysqlClient (mc_client s3) (mc_connState s3) w3 (mc_trace s3 ++ [])) in *.
  assert (execQueryForResult (S fuel) (Some text) s = Some ((0, []), s5)) as E.
  { unfold execQueryForResult. rewrite Hs. rewrite (bind_eq (gets mc_client) _ s _ _ eq_refl), Hc. cbn [negb].
    rewrite (bind_eq _ _ _ _ _ E1). cbn [Z.eqb]. rewrite (bind_eq _ _ _ _ _ E2).
    cbv beta iota zeta. rewrite (bind_eq _ _ _ _ _ E3). by rewrite (bind_eq _ _ _ _ _ E5). }
  exists s5. unfold handleRequest. rewrite Ht. cbn -[execQueryForResult]. fold text. by rewrite (bind_eq _ _ _ _ _ E).
Qed.
End answers.

(** ** Connecting, and the pool *)

Section connecting.
Context {W : Type} {MW : MySQL W}.
Abbreviation client := (mysql_client (W:=W)).
Abbreviation M := (eff client).
Abbreviation E := (exc client).

(** [connect] on a new client has a handle and a connection if it returns 0,
    and neither otherwise; what was opened is closed, also by [disconnect]. *)
Theorem connect_exact param (w : W) :
  exists rc s', connect param (new_mysql_client w) = Some (rc, s') /\
    ((rc = 0 /\ mc_client s' = true /\ mc_connState s' = true /\ mc_trace s' = [MOpen] /\
      exists s'', disconnect s' = Some (tt, s'') /\ mc_trace s'' = [MOpen; MClose] /\
        mc_client s'' = false /\ mc_connState s'' = false) \/
     (rc = -1 /\ mc_client s' = false /\ mc_connState s' = false /\ (mc_trace s' = [] \/ mc_trace s' = [MOpen; MClose]))).
Proof.
  unfold connect, new_mysql_client, effect, quietly, bind, call. cbn [mc_world].
  destruct (mysql_init w) as [ok w1]. cbn. destruct ok; cbn; [|do 2 eexists; split; [done|]; right; split_and!; try done; by left].
  destruct (mysql_real_connect w1 param) as [ok w2]. destruct ok; cbn; do 2 eexists; (split; [reflexivity|]).
  - left. split_and!; try done. eexists. split; [reflexivity|]. by split_and!.
  - right. split_and!; try done. by right.
Qed.

(** What a pool's worker does with a request and a connected client is a step of
    [DbPool], with the answer and the connection state of [handleRequest]. *)
Theorem mysql_worker_handles fuel (p : DbPool.dbpool mysql_client_req mysql_client_resp) r c (s s' : client) resp :
  DbPool.getConnState p c = getConnState s -> getConnState s = true ->
  handleRequest fuel (DbPool.req_id r) (DbPool.body r) s = Some (resp, s') ->
  DbPool.wstep p (DbPool.Ready r (Some c)) (DbPool.Ran c)
    (DbPool.logs (DbPool.Responded (DbPool.req_id r) (Some resp))
      (DbPool.set_clients (DbPool.dp_clients p) (<[c := getConnState s']> (DbPool.dp_conn p)) p)).
Proof. intros Hp Hc _. apply DbPool.ws_handle. by rewrite Hp. Qed.
End connecting.

(** ** A server for the witnesses *)

(** Every call succeeds, except that [commit] may fail; statements have the
    given number of parameters and one column; the rows of the result. *)
Record toy := MkToy { ty_params : Z; ty_commit : Z; ty_rows : list (list (option bytes)); ty_buffers : list Z }.

#[export] Instance toy_mysql : MySQL toy := {
  mysql_init w := (true, w);
  mysql_real_connect w _ := (true, w);
  mysql_close w := w;
  mysql_query w sql := (if bool_decide (sql = commit) then ty_commit w else 0, w);
  mysql_real_query w _ := (0, w);
  mysql_errno _ := CR_SERVER_LOST;
  mysql_store_result w := (None, w);
  mysql_next_result w := (-1, w);
  mysql_stmt_init w := (true, w);
  mysql_stmt_prepare w _ := (0, w);
  mysql_stmt_errno _ := 0;
  mysql_stmt_param_count w := Z.min 2 (ty_params w);
  mysql_stmt_reset w := w;
  mysql_stmt_bind_param w _ := (0, w);
  mysql_stmt_result_metadata w := (Some [(MYSQL_TYPE_VAR_STRING, 4)], w);
  mysql_stmt_bind_result w b := (0, MkToy (ty_params w) (ty_commit w) (ty_rows w) (map snd b));
  mysql_stmt_execute w := (0, w);
  mysql_stmt_store_result w := (0, w);
  mysql_stmt_num_rows w := size_of (ty_rows w);
  mysql_stmt_fetch w :=
    match ty_rows w with
    | [] => ((MYSQL_NO_DATA, []), w)
    | row :: rows =>
        ((0, zip_with (fun v n => match v with
                                  | Some d => MkFetched false (size_of d) (take (Z.to_nat n) d)
                                  | None => MkFetched true 0 []
                                  end) row (ty_buffers w)), MkToy (ty_params w) (ty_commit w) rows (ty_buffers w))
    end;
  mysql_stmt_close w := w;
}.

#[export] Instance toy_rows : MySQLRows (W:=toy).
Proof.
  refine {| rows_of := ty_rows; buffers_of := ty_buffers |}. intros w rc cols w'. cbn.
  destruct (ty_rows w); intros [= <- <- <-]; [done|]. by split_and!.
Defined.

#[export] Instance toy_results : MySQLResults (W:=toy).
Proof. by refine {| more := fun _ => O |}. Defined.

Definition toy_client (params commit_rc : Z) : mysql_client :=
  MkMysqlClient true true (MkToy params commit_rc [[Some (lit "Lily")]; [None]; [Some (lit "too long")]] [4]) [MOpen].

Definition insert : mysql_client_req :=
  MkMysqlReq 0 DbReq.execStatement 0 (lit "insert into t values(?)") true (Some (MkStmt [[lit "1"]; [lit "2"]] 1 0)).

(** A commit that fails: the response says so. *)
Lemma request_transaction_witness :
  exists resp s' l, handleRequest 1 7 insert (toy_client 1 5) = Some (resp, s') /\ myr_rc resp = 5 /\
    mc_trace s' = [MOpen] ++ l /\ transacted 5 l /\ executed l = [([lit "1"], 0); ([lit "2"], 0)].
Proof.
  destruct (handleRequest 1 7 insert (toy_client 1 5)) as [[resp s']|] eqn:E; [|vm_compute in E; done].
  destruct (request_transaction 1 7 insert (toy_client 1 5) s' resp eq_refl eq_refl eq_refl) as (_ & _ & _ & l & Hl & Ht);
    [by right; right; split|done|].
  exists resp, s', l. split_and!; [done| |done| |].
  all: vm_compute in E; injection E as <- <-; try done.
  cbn in Hl. by injection Hl as <-.
Defined.

Lemma fetch_values_witness :
  exists s', fetch_rows 3 [replicate 4 x00] [] (toy_client 1 0) = Some (inr [[lit "Lily"]; [[]]; [lit "too "]], s').
Proof.
  apply (fetch_values (ty_rows (mc_world (toy_client 1 0))) [replicate 4 x00] [] (toy_client 1 0)); [done|done|].
  by repeat constructor.
Defined.

Lemma value_whole_witness : 0 <= 32 /\ shown 32 (Some (lit "12.5")) = lit "12.5".
Proof. split; [done|]. by apply (value_whole bind_simple (MYSQL_TYPE_NEWDECIMAL, 5) (lit "12.5")). Defined.

Lemma request_answered_witness : exists f0 resp s', myr_req_id resp = 7 /\
  forall f, (f0 <= f)%nat -> handleRequest f 7
    (MkMysqlReq 0 DbReq.execStatement 0 (lit "insert into t values(?, ?)") false (Some (MkStmt [[lit "1"; lit "2"]] 2 0)))
    (toy_client 2 0) = Some (resp, s').
Proof.
  apply (@request_answered toy toy_mysql 2 ltac:(intros w; cbn; lia) toy_results). intros p Hp. by injection Hp as <-.
Defined.

(** A request that declares one parameter for a statement with two makes the
    driver read past the array of parameters. *)
Example unbound_parameter : handleRequest 1 7 insert (toy_client 2 0) = None.
Proof. vm_compute. done. Qed.

Lemma lost_result_is_success_witness : exists s',
  handleRequest 1 7 (MkMysqlReq 0 DbReq.execQueryForResult 0 (lit "select 1") false None) (toy_client 0 0) =
    Some (MkMysqlResp 0 7 0 [[]] [], s').
Proof.
  by apply (lost_result_is_success 0 7 (MkMysqlReq 0 DbReq.execQueryForResult 0 (lit "select 1") false None) (toy_client 0 0)
    (mc_world (toy_client 0 0)) (mc_world (toy_client 0 0)) (mc_world (toy_client 0 0)) (-1)).
Defined.

Lemma mysql_worker_handles_witness :
  let p : DbPool.dbpool mysql_client_req mysql_client_resp :=
    DbPool.set_clients {[1%nat := false]} {[1%nat := true]} DbPool.new_pool in
  exists resp s', handleRequest 1 7 insert (toy_client 1 0) = Some (resp, s') /\
  DbPool.wstep p (DbPool.Ready (DbPool.MkDbReq 7 0 insert) (Some 1%nat)) (DbPool.Ran 1%nat)
    (DbPool.logs (DbPool.Responded 7 (Some resp))
      (DbPool.set_clients {[1%nat := false]} (<[1%nat := getConnState s']> {[1%nat := true]}) p)).
Proof.
  intros p. destruct (handleRequest 1 7 insert (toy_client 1 0)) as [[resp s']|] eqn:E; [|vm_compute in E; done].
  exists resp, s'. split; [done|].
  apply (mysql_worker_handles 1 p (DbPool.MkDbReq 7 0 insert) 1%nat (toy_client 1 0) s' resp eq_refl eq_refl E).
Defined.

(** When the commit fails the response has an error, and the results too. *)
Example failed_commit_keeps_results :
  match handleRequest 1 7 (MkMysqlReq 0 DbReq.execStatement 0 (lit "select n from t") true (Some (MkStmt [[]] 0 1))) (toy_client 0 5) with
  | Some (resp, _) => myr_rc resp = 5 /\ myr_results resp = [[[lit "Lily"]; [[]]; [lit "too l"]]]
  | None => False
  end.
Proof. vm_compute. done. Qed.
