(* ===== verification/MongoClient.v ===== *)
(** * The MongoDB client ([mongo_client] and [mongo_client_pool::handleRequest]
      of [wjp/mongo_client.hpp])

    libmongoc is the interface [Mongoc], on an abstract world [W]; handles of
    databases, collections, bulk operations and sessions are numbers, documents
    a type [B]. A call that is given a null document where it requires one
    aborts the program, as its assertions do: [None]. [mo_trace] is a ghost, the
    calls that were made. Read preferences, which do not cross the wire, are
    left out, and so are the replies, for which a null pointer is passed. *)

From S2P Require Import Prelude Text Serialize DbReq Effect.
From S2P Require DbPool.
#[local] Open Scope effect_scope.

(** A write, by itself or in a bulk operation, with its options. *)
Inductive write (B : Type) :=
| InsertOne (doc : B) (opts : option B)
| InsertMany (docs : list B) (opts : option B)
| UpdateOne (query update : B) (opts : option B)
| UpdateMany (query update : B) (opts : option B)
| ReplaceOne (query update : B) (opts : option B)
| DeleteOne (query : B) (opts : option B)
| DeleteMany (query : B) (opts : option B).
Arguments InsertOne {B}.
Arguments InsertMany {B}.
Arguments UpdateOne {B}.
Arguments UpdateMany {B}.
Arguments ReplaceOne {B}.
Arguments DeleteOne {B}.
Arguments DeleteMany {B}.

Class Mongoc (W B : Type) := {
  mongoc_client_get_database : W -> bytes -> option Z * W;
  mongoc_database_destroy : W -> Z -> W;
  mongoc_database_drop : W -> Z -> bool * W;
  mongoc_database_get_collection : W -> Z -> bytes -> Z * W;
  mongoc_collection_destroy : W -> Z -> W;
  mongoc_collection_drop : W -> Z -> bool * W;
  mongoc_collection_write : W -> Z -> write B -> bool * W;
  (* the documents the cursor yields, and whether it ends with an error *)
  mongoc_collection_find_with_opts : W -> Z -> B -> option B -> option (list B * bool) * W;
  mongoc_client_command_with_opts : W -> Z -> B -> option B -> bool * W;
  mongoc_collection_create_bulk_operation_with_opts : W -> Z -> option B -> option Z * W;
  mongoc_bulk_operation_add : W -> Z -> write B -> bool * W;
  mongoc_bulk_operation_execute : W -> Z -> bool * W;
  mongoc_bulk_operation_destroy : W -> Z -> W;
  mongoc_client_start_session : W -> option Z * W;
  mongoc_client_session_start_transaction : W -> Z -> bool * W;
  mongoc_client_session_commit_transaction : W -> Z -> bool * W;
  mongoc_client_session_abort_transaction : W -> Z -> bool * W;
  mongoc_client_session_destroy : W -> Z -> W;
}.

(** The order in which the [unordered_map] of the collections is gone through. *)
Class HashOrder := { iteration (l : list (bytes * Z)) : list (bytes * Z); iteration_perm l : iteration l ≡ₚ l }.

(** A call that was made, with the handle it was made on, and what it returned. *)
Inductive gcall (B : Type) :=
| GDatabase (name : bytes) (h : Z)       (* opened *)
| GCollection (name : bytes) (h : Z)     (* opened *)
| GOpen (h : Z)                          (* a session, or read preferences *)
| GClose (h : Z)
| GDropDatabase (d : Z) (ok : bool)
| GDropCollection (c : Z) (ok : bool)
| GFind (c : Z) (query : B) (opts : option B) (results : option (list B * bool))
| GCommand (d : Z) (cmd : B) (opts : option B) (ok : bool)
| GWrite (h : Z) (w : write B) (ok : bool)   (* to a collection, or to a bulk operation *)
| GBulk (c : Z) (opts : option B) (h : option Z)
| GExecute (h : Z) (ok : bool)
| GBegin (session : Z) (ok : bool)
| GCommit (session : Z) (ok : bool)
| GAbort (session : Z) (ok : bool).
Arguments GDatabase {B}.
Arguments GCollection {B}.
Arguments GOpen {B}.
Arguments GClose {B}.
Arguments GDropDatabase {B}.
Arguments GDropCollection {B}.
Arguments GFind {B}.
Arguments GCommand {B}.
Arguments GWrite {B}.
Arguments GBulk {B}.
Arguments GExecute {B}.
Arguments GBegin {B}.
Arguments GCommit {B}.
Arguments GAbort {B}.

Definition dropDatabase : Z := 0.
Definition dropCollection : Z := 1.
Definition insertOne : Z := 2.
Definition insertMany : Z := 3.
Definition updateOne : Z := 4.
Definition updateMany : Z := 5.
Definition replaceOne : Z := 6.
Definition deleteOne : Z := 7.
Definition deleteMany : Z := 8.
Definition find_type : Z := 9.
Definition command_type : Z := 10.
Definition bulkExecute_type : Z := 11.
Definition execTransaction_type : Z := 12.
Definition mongoReqNone : Z := 13.

Definition RESP_RC_NOT_SUPPORT : Z := 1004.

Section client.
Context {W B : Type} {MW : Mongoc W B} {HO : HashOrder}.
Abbreviation one := (mongo_one B).

Record mongo_client := MkMongoClient {
  mo_client : bool;                      (* _client is not null *)
  mo_database : option Z;
  mo_name2coll : list (bytes * Z);
  mo_world : W;
  mo_trace : list (gcall B);
}.

Abbreviation M := (eff mongo_client).

Definition new_mongo_client (w : W) : mongo_client := MkMongoClient false None [] w [].

Definition set_client b (s : mongo_client) := MkMongoClient b (mo_database s) (mo_name2coll s) (mo_world s) (mo_trace s).
Definition set_database d (s : mongo_client) := MkMongoClient (mo_client s) d (mo_name2coll s) (mo_world s) (mo_trace s).
Definition set_colls c (s : mongo_client) := MkMongoClient (mo_client s) (mo_database s) c (mo_world s) (mo_trace s).

(** A call of the library, and what it adds to the trace. *)
Definition call {A} (f : W -> A * W) (e : A -> list (gcall B)) : M A :=
  fun s => let '(a, w) := f (mo_world s) in
           Some (a, MkMongoClient (mo_client s) (mo_database s) (mo_name2coll s) w (mo_trace s ++ e a)).
Definition effect (f : W -> W) (e : list (gcall B)) : M unit := call (fun w => (tt, f w)) (fun _ => e).

(** [open] with a name that is not null. *)
Definition open (db_name : bytes) : M Z :=
  let* c := gets mo_client in
  (if (c : bool) then
     let* d := call (fun w => mongoc_client_get_database w (c_str db_name)) (fun d => GDatabase (c_str db_name) <$> option_list d) in
     modify (set_database d)
   else ret tt) ;;
  let* d := gets mo_database in
  ret (match d with None => -1 | Some _ => 0 end).

Fixpoint destroy_colls (l : list (bytes * Z)) : M unit :=
  match l with
  | [] => ret tt
  | (_, h) :: l => effect (fun w => mongoc_collection_destroy w h) [GClose h] ;; destroy_colls l
  end.

Definition clearCachedCollections : M unit :=
  let* l := gets mo_name2coll in destroy_colls (iteration l) ;; modify (set_colls []).

Definition close : M unit :=
  clearCachedCollections ;;
  let* d := gets mo_database in
  match d with
  | Some h => effect (fun w => mongoc_database_destroy w h) [GClose h] ;; modify (set_database None)
  | None => ret tt
  end.

Definition attach (db_name : bytes) : M Z := modify (set_client true) ;; open db_name.
Definition detach : M unit := close ;; modify (set_client false).

Fixpoint find_coll (l : list (bytes * Z)) (name : bytes) : option Z :=
  match l with
  | [] => None
  | (n, h) :: l => if bool_decide (n = name) then Some h else find_coll l name
  end.

(** The database pointer of a call, which must not be null. *)
Definition database : M Z := let* d := gets mo_database in of_option d.

Definition getCollection (collName : bytes) : M Z :=
  let collName := c_str collName in
  let* l := gets mo_name2coll in
  match find_coll l collName with
  | Some h => ret h
  | None =>
      let* d := database in
      let* h := call (fun w => mongoc_database_get_collection w d collName) (fun h => [GCollection collName h]) in
      modify (fun s => set_colls (mo_name2coll s ++ [(collName, h)]) s) ;; ret h
  end.

Definition rc_of (ok : bool) : Z := if ok then 0 else -1.

Definition dropDatabase_ : M Z :=
  let* d := database in let* ok := call (fun w => mongoc_database_drop w d) (fun ok => [GDropDatabase d ok]) in ret (rc_of ok).
Definition dropCollection_ (collName : bytes) : M Z :=
  let* c := getCollection collName in
  let* ok := call (fun w => mongoc_collection_drop w c) (fun ok => [GDropCollection c ok]) in ret (rc_of ok).

(** [insertOne] to [deleteMany]. *)
Definition write_one (collName : bytes) (w : write B) : M Z :=
  let* c := getCollection collName in
  let* ok := call (fun x => mongoc_collection_write x c w) (fun ok => [GWrite c w ok]) in ret (rc_of ok).

(** The result code and the documents. *)
Definition find (collName : bytes) (query : B) (opts : option B) : M (Z * list B) :=
  let* c := getCollection collName in
  let* results := call (fun w => mongoc_collection_find_with_opts w c query opts) (fun r => [GFind c query opts r]) in
  ret (match results with
       | None => (-1, [])
       | Some (docs, cursor_error) => ((if (cursor_error : bool) then -2 else 0), docs)
       end).

Definition command (cmd : B) (opts : option B) : M Z :=
  let* d := database in
  let* ok := call (fun w => mongoc_client_command_with_opts w d cmd opts) (fun ok => [GCommand d cmd opts ok]) in ret (rc_of ok).

(** ** Transactions *)

(** The call-back's result: success. *)
Definition execTransaction (trans_proc : M bool) : M Z :=
  let* session := call mongoc_client_start_session (fun s => GOpen <$> option_list s) in
  match session with
  | None => ret (-1)
  | Some session =>
      let* started := call (fun w => mongoc_client_session_start_transaction w session) (fun ok => [GBegin session ok]) in
      let* rc :=
        (if negb (started : bool) then ret (-2)
         else
           let* exec_success := trans_proc in
           let* exec_success :=
             (if (exec_success : bool)
              then call (fun w => mongoc_client_session_commit_transaction w session) (fun ok => [GCommit session ok])
              else ret false) in
           if negb exec_success then
             let* ok := call (fun w => mongoc_client_session_abort_transaction w session) (fun ok => [GAbort session ok]) in
             ret (if (ok : bool) then -4 else -3)
           else ret 0) in
      effect (fun w => mongoc_client_session_destroy w session) [GClose session] ;; ret rc
  end.

(** ** Requests *)

(** The write a request stands for: [Some None] if it is none, [None] if a
    document that must be there is a null pointer. *)
Definition write_of (r : one) : option (option (write B)) :=
  let t := mg_type r in
  if t =? insertOne then d ← mg_write r; Some (Some (InsertOne d (mg_opts r)))
  else if t =? insertMany then l ← mapM id (mg_mult_write r); Some (Some (InsertMany l (mg_opts r)))
  else if t =? updateOne then q ← mg_query r; d ← mg_write r; Some (Some (UpdateOne q d (mg_opts r)))
  else if t =? updateMany then q ← mg_query r; d ← mg_write r; Some (Some (UpdateMany q d (mg_opts r)))
  else if t =? replaceOne then q ← mg_query r; d ← mg_write r; Some (Some (ReplaceOne q d (mg_opts r)))
  else if t =? deleteOne then q ← mg_query r; Some (Some (DeleteOne q (mg_opts r)))
  else if t =? deleteMany then q ← mg_query r; Some (Some (DeleteMany q (mg_opts r)))
  else Some None.

(** The loop of [transaction_proc]. *)
Fixpoint transaction_loop (l : list one) : M Z :=
  match l with
  | [] => ret 0
  | r :: l =>
      let* w := of_option (write_of r) in
      match w with
      | Some w => let* rc := write_one (mg_collName r) w in if negb (rc =? 0) then ret rc else transaction_loop l
      | None => ret (if mg_type r =? bulkExecute_type then RESP_RC_NOT_SUPPORT else DbPool.RESP_RC_TYPE_INVALID)
      end
  end.

Definition transaction_proc (l : list one) : M bool := let* rc := transaction_loop l in ret (0 =? rc).

Definition bulk_add (bulk : Z) (w : write B) : M Z :=
  let* ok := call (fun x => mongoc_bulk_operation_add x bulk w) (fun ok => [GWrite bulk w ok]) in ret (rc_of ok).

(** The loop over the documents of an [insertMany]. *)
Fixpoint bulk_docs (bulk : Z) (docs : list (option B)) (opts : option B) : M Z :=
  match docs with
  | [] => ret 0
  | d :: docs =>
      let* b := of_option d in
      let* rc := bulk_add bulk (InsertOne b opts) in if negb (rc =? 0) then ret rc else bulk_docs bulk docs opts
  end.

(** The loop of [bulkExecute]. *)
Fixpoint bulk_loop (bulk : Z) (l : list one) : M Z :=
  match l with
  | [] => ret 0
  | r :: l =>
      let* rc :=
        (if mg_type r =? insertMany then bulk_docs bulk (mg_mult_write r) (mg_opts r)
         else
           let* w := of_option (write_of r) in
           match w with
           | Some w => bulk_add bulk w
           | None => ret DbPool.RESP_RC_TYPE_INVALID
           end) in
      if negb (rc =? 0) then ret rc else bulk_loop bulk l
  end.

Definition bulkExecute (req : mongo_client_req (bson:=B)) : M Z :=
  let* c := getCollection (mg_collName (fst req)) in
  let* bulk := call (fun w => mongoc_collection_create_bulk_operation_with_opts w c (mg_opts (fst req)))
                    (fun b => [GBulk c (mg_opts (fst req)) b]) in
  match bulk with
  | None => ret DbPool.RESP_RC_PARAM_INVALID
  | Some bulk =>
      let* rc := bulk_loop bulk (snd req) in
      let* rc := (if rc =? 0 then let* ok := call (fun w => mongoc_bulk_operation_execute w bulk) (fun ok => [GExecute bulk ok]) in ret (rc_of ok)
                  else ret rc) in
      effect (fun w => mongoc_bulk_operation_destroy w bulk) [GClose bulk] ;; ret rc
  end.

(** [handleRequest]: the response it hands to the listener, once. [resp->reply]
    stays the null pointer that is passed to every call. *)
Definition handleRequest (id : Z) (req : mongo_client_req (bson:=B)) : M (mongo_client_resp B) :=
  let r := fst req in
  let t := mg_type r in
  let resp rc docs := MkMongoResp 0 id rc None docs in
  if t =? dropDatabase then let* rc := dropDatabase_ in ret (resp rc [])
  else if t =? dropCollection then let* rc := dropCollection_ (mg_collName r) in ret (resp rc [])
  else if t =? find_type then
    let* q := of_option (mg_query r) in
    let* res := find (mg_collName r) q (mg_opts r) in
    ret (resp (fst res) (map Some (snd res)))
  else if t =? command_type then
    let* d := of_option (mg_write r) in let* rc := command d (mg_opts r) in ret (resp rc [])
  else if t =? bulkExecute_type then let* rc := bulkExecute req in ret (resp rc [])
  else if t =? execTransaction_type then
    let* rc := execTransaction (transaction_proc (snd req)) in ret (resp rc [])
  else
    let* w := of_option (write_of r) in
    match w with
    | Some w => let* rc := write_one (mg_collName r) w in ret (resp rc [])
    | None => ret (resp DbPool.RESP_RC_TYPE_INVALID [])
    end.

(** What a worker does with a client of the driver and a request; [None] for
    the response if the database was not there. *)
Definition serve (db_name : bytes) (id : Z) (req : mongo_client_req (bson:=B)) : M (option (mongo_client_resp B)) :=
  let* rc := attach db_name in
  if rc =? 0 then let* resp := handleRequest id req in detach ;; ret (Some resp) else ret None.
End client.

(** ** Reasoning: what a computation did to the trace and to the handles *)

Definition opened {B} (l : list (gcall B)) : list Z :=
  omap (fun c => match c with GDatabase _ h | GCollection _ h | GOpen h => Some h | GBulk _ _ h => h | _ => None end) l.
Definition closed {B} (l : list (gcall B)) : list Z := omap (fun c => match c with GClose h => Some h | _ => None end) l.
(** The calls of a trace that do something for a request. *)
Definition acts {B} (l : list (gcall B)) : list (gcall B) :=
  omap (fun c => match c with GDatabase _ _ | GCollection _ _ | GOpen _ | GClose _ => None | _ => Some c end) l.
(** The handles of collections, by the name they were opened with. *)
Definition colls {B} (l : list (gcall B)) : list (bytes * Z) :=
  omap (fun c => match c with GCollection n h => Some (n, h) | _ => None end) l.

Lemma trace_app {B} (l k : list (gcall B)) :
  opened (l ++ k) = opened l ++ opened k /\ closed (l ++ k) = closed l ++ closed k /\
  acts (l ++ k) = acts l ++ acts k /\ colls (l ++ k) = colls l ++ colls k.
Proof. unfold opened, closed, acts, colls. by rewrite !omap_app. Qed.

Section reasoning.
Context {W B : Type} {MW : Mongoc W B} {HO : HashOrder}.
Abbreviation client := (mongo_client (W:=W) (B:=B)).
Abbreviation M := (eff client).

(** The handles a client keeps: its database and its collections. *)
Definition held (s : client) : list Z := option_list (mo_database s) ++ map snd (mo_name2coll s).

(** From [s] to [s'] the calls [l] were made, and every handle that was opened was
    closed, or is kept, or is one of [y]; [x] are handles from before. *)
Definition balance (l : list (gcall B)) (x y : list Z) (s s' : client) : Prop :=
  mo_trace s' = mo_trace s ++ l /\ opened l ++ x ++ held s ≡ₚ closed l ++ y ++ held s'.

Lemma balance_trans l k x y z (s1 s2 s3 : client) :
  balance l x y s1 s2 -> balance k y z s2 s3 -> balance (l ++ k) x z s1 s3.
Proof.
  intros [Ht Hp] [Ht' Hp']. split; [by rewrite Ht', Ht, app_assoc|]. destruct (trace_app l k) as (-> & -> & _).
  trans ((opened l ++ x ++ held s1) ++ opened k); [solve_Permutation|].
  rewrite Hp, <- !app_assoc, <- Hp'. solve_Permutation.
Qed.

(** Such a step of a request, which leaves the database alone, and forgets no
    collection; [v] are the calls that do something for the request. *)
Definition moved (x y : list Z) (v : list (gcall B)) (s s' : client) : Prop :=
  exists l, balance l x y s s' /\ acts l = v /\
    mo_name2coll s' = mo_name2coll s ++ colls l /\ mo_database s' = mo_database s.
Abbreviation did := (moved [] []).

Lemma moved_refl x (s : client) : moved x x [] s s.
Proof. exists []. split_and!; [split|..]; cbn; by rewrite ?app_nil_r. Qed.

Lemma moved_trans x y z v v' (s1 s2 s3 : client) : moved x y v s1 s2 -> moved y z v' s2 s3 -> moved x z (v ++ v') s1 s3.
Proof.
  intros (l & Hb & Hv & Hc & Hd) (k & Hb' & Hv' & Hc' & Hd'). exists (l ++ k). split; [by eapply balance_trans|].
  destruct (trace_app l k) as (_ & _ & -> & ->). split; [by rewrite Hv, Hv'|]. rewrite Hc', Hc, app_assoc.
  split; [done|congruence].
Qed.

Lemma moved_quiet x y z v (s1 s2 s3 : client) : moved x y v s1 s2 -> moved y z [] s2 s3 -> moved x z v s1 s3.
Proof. intros H H'. rewrite <- (app_nil_r v). by eapply moved_trans. Qed.

Lemma moved_frame z x y v (s s' : client) : moved x y v s s' -> moved (z ++ x) (z ++ y) v s s'.
Proof.
  intros (l & [Ht Hp] & Hv). exists l. split; [|done]. split; [done|].
  trans (z ++ opened l ++ x ++ held s); [solve_Permutation|]. rewrite Hp. solve_Permutation.
Qed.

(** The collections that are known stay so. *)
Lemma moved_known x y v (s s' : client) : moved x y v s s' -> mo_name2coll s ⊆ mo_name2coll s'.
Proof. intros (l & _ & _ & -> & _). set_solver. Qed.
Lemma moved_elem x y v (s s' : client) e : moved x y v s s' -> e ∈ mo_name2coll s -> e ∈ mo_name2coll s'.
Proof. intros H%moved_known. apply H. Qed.

(** A call that opens the handles [o] and closes [x] among those at hand. *)
Lemma spec_bcall {A} (f : W -> A * W) (e : A -> list (gcall B)) (s : client) x y :
  (forall a, opened (e a) ++ x ≡ₚ closed (e a) ++ y a) ->
  spec (call f e) s (fun a s' => balance (e a) x (y a) s s' /\ mo_database s' = mo_database s /\ mo_name2coll s' = mo_name2coll s).
Proof.
  intros H a s'. unfold call. destruct (f (mo_world s)) as [b w]. intros [= <- <-]. split; [|done].
  split; [done|]. unfold held. cbn. by rewrite !app_assoc, H.
Qed.

Lemma spec_mcall {A} (f : W -> A * W) (e : A -> list (gcall B)) (s : client) x y :
  (forall a, opened (e a) ++ x ≡ₚ closed (e a) ++ y a) -> (forall a, colls (e a) = []) ->
  spec (call f e) s (fun a s' => moved x (y a) (acts (e a)) s s' /\ mo_database s' = mo_database s /\ mo_name2coll s' = mo_name2coll s).
Proof.
  intros H Hc. eapply spec_mono; [by apply (spec_bcall f e s x y)|]. intros a s' (Hb & Hd & Hn). split; [|done].
  exists (e a). by rewrite Hc, app_nil_r.
Qed.

Lemma spec_act {A} (f : W -> A * W) (e : A -> list (gcall B)) (s : client) :
  (forall a, opened (e a) = [] /\ closed (e a) = [] /\ colls (e a) = []) ->
  spec (call f e) s (fun a s' => did (acts (e a)) s s').
Proof.
  intros H. eapply spec_mono; [apply (spec_mcall f e s [] (fun _ => []))| ]; [| |by intros ? ? [? _]];
    intros a; destruct (H a) as (E1 & E2 & E3); by rewrite ?E1, ?E2, ?E3.
Qed.

Lemma find_coll_elem l name h : find_coll l name = Some h -> (name, h) ∈ l.
Proof.
  induction l as [|[n k] l IH]; cbn; [done|]. case_bool_decide as E; [intros [= ->]; subst n; by left|]. intros H. right. auto.
Qed.

(** The handle is that of the collection with this name. *)
Lemma getCollection_did name (s : client) :
  spec (getCollection name) s (fun h s' => did [] s s' /\ (c_str name, h) ∈ mo_name2coll s').
Proof.
  apply spec_bind, spec_gets. destruct (find_coll _ _) as [h|] eqn:E.
  { apply spec_ret. split; [apply moved_refl|by apply find_coll_elem]. }
  apply spec_bind, spec_bind, spec_gets, spec_of_option. intros d _. apply spec_bind.
  eapply spec_mono; [apply (spec_bcall _ _ s [] (fun h => [h])); done|]. intros h s1 ([Ht Hp] & Hd & Hn).
  apply spec_bind, spec_modify, spec_ret. split; [|cbn; set_solver].
  exists [GCollection (c_str name) h]. split_and!; [|done|cbn; by rewrite Hn|done]. split; [done|].
  rewrite Hp. unfold held, set_colls. cbn. rewrite map_app. cbn. solve_Permutation.
Qed.

Lemma write_one_did name w (s : client) :
  spec (write_one name w) s (fun rc s' => exists c ok, rc = rc_of ok /\ (c_str name, c) ∈ mo_name2coll s' /\ did [GWrite c w ok] s s').
Proof.
  apply spec_bind. eapply spec_mono; [apply getCollection_did|]. intros c s1 [H1 Hc]. apply spec_bind.
  eapply spec_mono; [by apply spec_act|]. intros ok s2 H2. apply spec_ret. exists c, ok. split; [done|].
  split; [by apply (moved_elem _ _ _ _ _ _ H2)|]. exact (moved_trans _ _ _ _ _ _ _ _ H1 H2).
Qed.

(** A computation between a call that opens a handle and one that closes it. *)
Lemma moved_bracket h v v' (s s1 s2 s3 : client) : moved [] [h] v s s1 -> did v' s1 s2 -> moved [h] [] [] s2 s3 -> did (v ++ v') s s3.
Proof.
  intros H1 H2 H3. eapply moved_quiet; [|exact H3]. eapply moved_trans; [exact H1|]. by apply (moved_frame [h] [] []).
Qed.

(** The calls of a list of writes, of which [None] has a null document and
    [Some None] is not a write: they are made in order, to the first that fails, each
    on a handle for its place. *)
Inductive written {X} (on : X -> Z -> Prop) : list (option (option (X * write B))) -> list (gcall B) -> Z -> Prop :=
| wr_all : written on [] [] 0
| wr_next x w h l v rc : on x h -> written on l v rc -> written on (Some (Some (x, w)) :: l) (GWrite h w true :: v) rc
| wr_fail x w h l : on x h -> written on (Some (Some (x, w)) :: l) [GWrite h w false] (-1)
| wr_invalid l rc : rc <> 0 -> written on (Some None :: l) [] rc.

(** A request as a write, and the collection it names. *)
Definition named_write (r : mongo_one B) : option (option (bytes * write B)) :=
  option_map (option_map (pair (c_str (mg_collName r)))) (write_of r).

Definition among (k : list (bytes * Z)) (name : bytes) (c : Z) : Prop := (name, c) ∈ k.

Lemma transaction_loop_did l (s : client) :
  spec (transaction_loop l) s (fun rc s' => exists v, did v s s' /\
    forall k, mo_name2coll s' ⊆ k -> written (among k) (map named_write l) v rc).
Proof.
  revert s. induction l as [|r l IH]; intros s; cbn [transaction_loop map].
  { apply spec_ret. exists []. split; [apply moved_refl|constructor]. }
  unfold named_write at 1. apply spec_bind, spec_of_option. intros [w|] ->; cbn [option_map].
  - apply spec_bind. eapply spec_mono; [apply write_one_did|]. intros rc s1 (c & ok & -> & Hc & H1). destruct ok; cbn.
    + eapply spec_mono; [apply IH|]. intros rc s2 (v & H2 & Hw). exists (GWrite c w true :: v).
      split; [exact (moved_trans _ _ _ _ _ _ _ _ H1 H2)|]. intros k Hk. constructor; [|auto].
      apply Hk. by apply (moved_elem _ _ _ _ _ _ H2).
    + apply spec_ret. exists [GWrite c w false]. split; [done|]. intros k Hk. constructor. by apply Hk.
  - apply spec_ret. exists []. split; [apply moved_refl|]. constructor. by case_if.
Qed.

(** What a transaction does, and its result. *)
Inductive transacted (k : list (bytes * Z)) (items : list (option (option (bytes * write B)))) : Z -> list (gcall B) -> Prop :=
| ta_no_session : transacted k items (-1) []
| ta_not_started h : transacted k items (-2) [GBegin h false]
| ta_committed h v : written (among k) items v 0 -> transacted k items 0 (GBegin h true :: v ++ [GCommit h true])
| ta_write_failed h v rc ok : written (among k) items v rc -> rc <> 0 ->
    transacted k items (if (ok : bool) then -4 else -3) (GBegin h true :: v ++ [GAbort h ok])
| ta_commit_failed h v ok : written (among k) items v 0 ->
    transacted k items (if (ok : bool) then -4 else -3) (GBegin h true :: v ++ [GCommit h false; GAbort h ok]).

Lemma transaction_body_did l session (s : client) :
  spec (let* exec_success := transaction_proc l in
        let* exec_success :=
          (if (exec_success : bool)
           then call (fun w => mongoc_client_session_commit_transaction w session) (fun ok => [GCommit session ok])
           else ret false) in
        if negb exec_success then
          let* ok := call (fun w => mongoc_client_session_abort_transaction w session) (fun ok => [GAbort session ok]) in
          ret (if (ok : bool) then -4 else -3)
        else ret 0) s
    (fun rc s' => exists v, did v s s' /\
      forall k, mo_name2coll s' ⊆ k -> transacted k (map named_write l) rc (GBegin session true :: v)).
Proof.
  apply spec_bind, spec_bind. eapply spec_mono; [apply transaction_loop_did|]. intros rc s1 (v & H1 & Hw). apply spec_ret, spec_bind.
  destruct (Z.eqb_spec 0 rc) as [<-|Hn].
  - eapply spec_mono; [by apply spec_act|]. intros ok s2 H2. pose proof (moved_trans _ _ _ _ _ _ _ _ H1 H2) as H12.
    pose proof (moved_known _ _ _ _ _ H2) as Hk2.
    destruct ok; cbn [negb].
    { apply spec_ret; eexists; split; [exact H12|]. intros k Hk. constructor. apply Hw. by etrans. }
    apply spec_bind. eapply spec_mono; [by apply spec_act|]. intros ok s3 H3. pose proof (moved_known _ _ _ _ _ H3) as Hk3.
    apply spec_ret. eexists. split; [exact (moved_trans _ _ _ _ _ _ _ _ H12 H3)|]. intros k Hk.
    rewrite <- app_assoc. apply ta_commit_failed, Hw. etrans; [exact Hk2|by etrans].
  - apply spec_ret. cbn [negb]. apply spec_bind. eapply spec_mono; [by apply spec_act|]. intros ok s3 H3. apply spec_ret.
    eexists. split; [exact (moved_trans _ _ _ _ _ _ _ _ H1 H3)|]. intros k Hk. apply (ta_write_failed _ _ _ _ rc); [|done].
    apply Hw. etrans; [exact (moved_known _ _ _ _ _ H3)|done].
Qed.

Lemma execTransaction_did l (s : client) :
  spec (execTransaction (transaction_proc l)) s (fun rc s' => exists v, did v s s' /\
    forall k, mo_name2coll s' ⊆ k -> transacted k (map named_write l) rc v).
Proof.
  apply spec_bind. eapply spec_mono; [apply (spec_mcall _ _ s [] option_list); by intros []|].
  intros [h|] s1 (H1 & _); cbn in H1.
  2: { apply spec_ret. exists []. split; [done|constructor]. }
  apply spec_bind. eapply spec_mono; [by apply spec_act|]. intros started s2 H2. apply spec_bind.
  apply (spec_mono _ _ (fun rc s3 => exists v, did v s1 s3 /\ forall k, mo_name2coll s3 ⊆ k -> transacted k (map named_write l) rc v)).
  - destruct started; cbn [negb].
    + eapply spec_mono; [apply transaction_body_did|]. intros rc s3 (v & H3 & Ht). eexists. split; [|exact Ht].
      exact (moved_trans _ _ _ _ _ _ _ _ H2 H3).
    + apply spec_ret. eexists. split; [exact H2|constructor].
  - intros rc s3 (v & H3 & Ht). apply spec_bind. eapply spec_mono; [apply (spec_mcall _ _ s3 [h] (fun _ => [])); done|].
    intros _ s4 (H4 & _). apply spec_ret. exists v. split; [exact (moved_bracket _ _ _ _ _ _ _ H1 H3 H4)|].
    intros k Hk. apply Ht. etrans; [exact (moved_known _ _ _ _ _ H4)|done].
Qed.
End reasoning.

(** ** Bulk operations *)

Section bulk.
Context {W B : Type} {MW : Mongoc W B} {HO : HashOrder}.
Abbreviation client := (mongo_client (W:=W) (B:=B)).
Abbreviation did := (moved (W:=W) (B:=B) [] []).
Abbreviation items := (list (option (option (unit * write B)))).

(** The writes that one request of a bulk operation adds. *)
Definition bulk_items (r : mongo_one B) : items :=
  if mg_type r =? insertMany then map (fun d => b ← d; Some (Some (tt, InsertOne b (mg_opts r)))) (mg_mult_write r)
  else [option_map (option_map (pair tt)) (write_of r)].

(** They are all added to one bulk operation. *)
Definition added (bulk : Z) : items -> list (gcall B) -> Z -> Prop := written (fun _ h => h = bulk).

Lemma bulk_add_did bulk w (s : client) : spec (bulk_add bulk w) s (fun rc s' => exists ok, rc = rc_of ok /\ did [GWrite bulk w ok] s s').
Proof. apply spec_bind. eapply spec_mono; [by apply spec_act|]. intros ok s1 H1. apply spec_ret. by exists ok. Qed.

Lemma added_app b (k l : items) v v' rc : added b k v 0 -> added b l v' rc -> added b (k ++ l) (v ++ v') rc.
Proof.
  revert v. induction k as [|w k IH]; intros v Hk Hl; [by inversion Hk|].
  inversion Hk as [|x w' h l' v0 rc' Hh Hk'| |]; subst; [|done]. cbn. constructor; [done|]. by apply IH.
Qed.

Lemma added_stop b (k l : items) v rc : added b k v rc -> rc <> 0 -> added b (k ++ l) v rc.
Proof. unfold added. intros H Hn. induction H; [done|..]; cbn; constructor; auto. Qed.

Lemma bulk_docs_did bulk docs opts (s : client) :
  spec (bulk_docs bulk docs opts) s (fun rc s' => exists v, did v s s' /\
    added bulk (map (fun d => b ← d; Some (Some (tt, InsertOne b opts))) docs) v rc).
Proof.
  revert s. induction docs as [|d docs IH]; intros s; cbn [bulk_docs map].
  { apply spec_ret. exists []. split; [apply moved_refl|constructor]. }
  apply spec_bind, spec_of_option. intros b ->. apply spec_bind. eapply spec_mono; [apply bulk_add_did|].
  intros rc s1 (ok & -> & H1). destruct ok; cbn.
  - eapply spec_mono; [apply IH|]. intros rc s2 (v & H2 & Hw). exists (GWrite bulk (InsertOne b opts) true :: v).
    split; [exact (moved_trans _ _ _ _ _ _ _ _ H1 H2)|by constructor].
  - apply spec_ret. exists [GWrite bulk (InsertOne b opts) false]. split; [done|by constructor].
Qed.

Lemma bulk_loop_did bulk l (s : client) :
  spec (bulk_loop bulk l) s (fun rc s' => exists v, did v s s' /\ added bulk (flat_map bulk_items l) v rc).
Proof.
  revert s. induction l as [|r l IH]; intros s; cbn [bulk_loop flat_map].
  { apply spec_ret. exists []. split; [apply moved_refl|constructor]. }
  apply spec_bind, (spec_mono _ _ (fun rc s1 => exists v, did v s s1 /\ added bulk (bulk_items r) v rc)).
  - unfold bulk_items. destruct (mg_type r =? insertMany); [apply bulk_docs_did|].
    apply spec_bind, spec_of_option. intros [w|] ->; cbn [option_map].
    + eapply spec_mono; [apply bulk_add_did|]. intros rc s1 (ok & -> & H1). eexists. split; [exact H1|].
      destruct ok; repeat constructor.
    + apply spec_ret. exists []. split; [apply moved_refl|by constructor].
  - intros rc s1 (v & H1 & Hw). destruct (Z.eqb_spec rc 0) as [->|Hn]; cbn [negb].
    + eapply spec_mono; [apply IH|]. intros rc s2 (v' & H2 & Hw'). exists (v ++ v').
      split; [exact (moved_trans _ _ _ _ _ _ _ _ H1 H2)|by apply added_app].
    + apply spec_ret. exists v. split; [done|by apply added_stop].
Qed.

(** What a bulk operation on a collection does, and its result. *)
Inductive bulked (c : Z) (opts : option B) (l : items) : Z -> list (gcall B) -> Prop :=
| bk_not_created : bulked c opts l DbPool.RESP_RC_PARAM_INVALID [GBulk c opts None]
| bk_refused b v rc : added b l v rc -> rc <> 0 -> bulked c opts l rc (GBulk c opts (Some b) :: v)
| bk_executed b v ok : added b l v 0 -> bulked c opts l (rc_of ok) (GBulk c opts (Some b) :: v ++ [GExecute b ok]).

Lemma bulkExecute_did req (s : client) :
  spec (bulkExecute req) s (fun rc s' => exists c v, (c_str (mg_collName (fst req)), c) ∈ mo_name2coll s' /\ did v s s' /\
    bulked c (mg_opts (fst req)) (flat_map bulk_items (snd req)) rc v).
Proof.
  apply spec_bind. eapply spec_mono; [apply getCollection_did|]. intros c s0 [H0 Hc]. apply spec_bind.
  eapply spec_mono; [apply (spec_mcall _ _ s0 [] option_list); by intros []|].
  intros b s1 (H1 & _ & Hn1). cbn in H1. pose proof (moved_trans _ _ _ _ _ _ _ _ H0 H1) as H01. cbn [app] in H01.
  rewrite <- Hn1 in Hc. destruct b as [h|].
  2: { apply spec_ret. exists c. eexists. split; [done|]. split; [exact H01|constructor]. }
  apply spec_bind. eapply spec_mono; [apply bulk_loop_did|]. intros rc s2 (v & H2 & Hw). apply spec_bind.
  apply (spec_mono _ _ (fun rc s3 => exists v, did v s1 s3 /\
    bulked c (mg_opts (fst req)) (flat_map bulk_items (snd req)) rc (GBulk c (mg_opts (fst req)) (Some h) :: v))).
  - destruct (Z.eqb_spec rc 0) as [->|Hn].
    + apply spec_bind. eapply spec_mono; [by apply spec_act|]. intros ok s3 H3. apply spec_ret. eexists.
      split; [exact (moved_trans _ _ _ _ _ _ _ _ H2 H3)|by constructor].
    + apply spec_ret. exists v. split; [done|by constructor].
  - clear - H01 Hc. intros rc s3 (v & H3 & Ht). apply spec_bind. eapply spec_mono; [apply (spec_mcall _ _ s3 [h] (fun _ => [])); done|].
    intros _ s4 (H4 & _ & Hn4). apply spec_ret. exists c. eexists. split; [|split; [exact (moved_bracket _ _ _ _ _ _ _ H01 H3 H4)|exact Ht]].
    rewrite Hn4. by apply (moved_elem _ _ _ _ _ _ H3).
Qed.
End bulk.

(** ** Requests *)

Section requests.
Context {W B : Type} {MW : Mongoc W B} {HO : HashOrder}.
Abbreviation client := (mongo_client (W:=W) (B:=B)).
Abbreviation did := (moved (W:=W) (B:=B) [] []).

(** What a request does and answers, by its type, on the database [d], when [k]
    are the collections that were opened, by name. *)
Definition acted (d : Z) (k : list (bytes * Z)) (req : mongo_client_req (bson:=B)) (rc : Z) (docs : list (option B))
    (v : list (gcall B)) : Prop :=
  let r := fst req in
  let t := mg_type r in
  let coll c := among k (c_str (mg_collName r)) c in
  if t =? execTransaction_type then docs = [] /\ transacted k (map named_write (snd req)) rc v
  else if t =? bulkExecute_type then docs = [] /\ exists c, coll c /\ bulked c (mg_opts r) (flat_map bulk_items (snd req)) rc v
  else if t =? dropDatabase then docs = [] /\ exists ok, rc = rc_of ok /\ v = [GDropDatabase d ok]
  else if t =? dropCollection then docs = [] /\ exists c ok, coll c /\ rc = rc_of ok /\ v = [GDropCollection c ok]
  else if t =? find_type then exists c q res, coll c /\ mg_query r = Some q /\ v = [GFind c q (mg_opts r) res] /\
    (rc, docs) = match res with
                 | None => (-1, [])
                 | Some (found, cursor_error) => ((if (cursor_error : bool) then -2 else 0), map Some found)
                 end
  else if t =? command_type then docs = [] /\ exists cmd ok, mg_write r = Some cmd /\ rc = rc_of ok /\ v = [GCommand d cmd (mg_opts r) ok]
  else match write_of r with
       | Some (Some w) => docs = [] /\ exists c ok, coll c /\ rc = rc_of ok /\ v = [GWrite c w ok]
       | Some None => docs = [] /\ rc = DbPool.RESP_RC_TYPE_INVALID /\ v = []
       | None => False
       end.

Lemma database_is (s : client) : spec database s (fun d s' => s' = s /\ mo_database s = Some d).
Proof. intros d s'. unfold database, bind, gets. destruct (mo_database s); [|done]. by intros [= <- <-]. Qed.

Lemma dropDatabase_did (s : client) :
  spec dropDatabase_ s (fun rc s' => exists d ok, mo_database s = Some d /\ rc = rc_of ok /\ did [GDropDatabase d ok] s s').
Proof.
  apply spec_bind. eapply spec_mono; [apply database_is|]. intros d s0 [-> Hd]. apply spec_bind.
  eapply spec_mono; [by apply spec_act|]. intros ok s1 H1. apply spec_ret. by exists d, ok.
Qed.

Lemma dropCollection_did name (s : client) :
  spec (dropCollection_ name) s (fun rc s' => exists c ok,
    (c_str name, c) ∈ mo_name2coll s' /\ rc = rc_of ok /\ did [GDropCollection c ok] s s').
Proof.
  apply spec_bind. eapply spec_mono; [apply getCollection_did|]. intros c s0 [H0 Hc]. apply spec_bind.
  eapply spec_mono; [by apply spec_act|]. intros ok s1 H1. apply spec_ret. exists c, ok.
  split; [by apply (moved_elem _ _ _ _ _ _ H1)|]. split; [done|]. exact (moved_trans _ _ _ _ _ _ _ _ H0 H1).
Qed.

Lemma command_did cmd opts (s : client) :
  spec (command cmd opts) s (fun rc s' => exists d ok, mo_database s = Some d /\ rc = rc_of ok /\ did [GCommand d cmd opts ok] s s').
Proof.
  apply spec_bind. eapply spec_mono; [apply database_is|]. intros d s0 [-> Hd]. apply spec_bind.
  eapply spec_mono; [by apply spec_act|]. intros ok s1 H1. apply spec_ret. by exists d, ok.
Qed.

Lemma find_did name q opts (s : client) :
  spec (find name q opts) s (fun res s' => exists c r, (c_str name, c) ∈ mo_name2coll s' /\ did [GFind c q opts r] s s' /\
    res = match r with
          | None => (-1, [])
          | Some (docs, cursor_error) => ((if (cursor_error : bool) then -2 else 0), docs)
          end).
Proof.
  apply spec_bind. eapply spec_mono; [apply getCollection_did|]. intros c s0 [H0 Hc]. apply spec_bind.
  eapply spec_mono; [by apply spec_act|]. intros r s1 H1. apply spec_ret. exists c, r.
  split; [by apply (moved_elem _ _ _ _ _ _ H1)|]. split; [|done]. exact (moved_trans _ _ _ _ _ _ _ _ H0 H1).
Qed.

(** What [handleRequest] answers is what it did. *)
Lemma mongo_handleRequest_did id req d (s : client) :
  mo_database s = Some d ->
  spec (handleRequest id req) s (fun resp s' => exists v,
    did v s s' /\ resp = MkMongoResp 0 id (mgr_rc resp) None (mgr_result_docs resp) /\
    acted d (mo_name2coll s') req (mgr_rc resp) (mgr_result_docs resp) v).
Proof.
  intros Hd. unfold handleRequest, acted. set (r := fst req).
  destruct (Z.eqb_spec (mg_type r) dropDatabase) as [->|H0].
  { apply spec_bind. eapply spec_mono; [apply dropDatabase_did|]. intros rc s1 (d' & ok & Hd' & -> & H). apply spec_ret.
    assert (d' = d) as -> by congruence. eexists. split; [exact H|]. split; [done|]. cbn. split; [done|]. by exists ok. }
  destruct (Z.eqb_spec (mg_type r) dropCollection) as [->|H1].
  { apply spec_bind. eapply spec_mono; [apply dropCollection_did|]. intros rc s1 (c & ok & Hc & -> & H). apply spec_ret.
    eexists. split; [exact H|]. split; [done|]. cbn. split; [done|]. by exists c, ok. }
  destruct (Z.eqb_spec (mg_type r) find_type) as [->|H2].
  { apply spec_bind, spec_of_option. intros q Hq. apply spec_bind.
    eapply spec_mono; [apply find_did|]. intros res s1 (c & f & Hc & H & ->). apply spec_ret. eexists. split; [exact H|]. split; [done|].
    exists c, q, f. split_and!; [done..|]. by destruct f as [[docs e]|]. }
  destruct (Z.eqb_spec (mg_type r) command_type) as [->|H3].
  { apply spec_bind, spec_of_option. intros q Hq. apply spec_bind.
    eapply spec_mono; [apply command_did|]. intros rc s1 (d' & ok & Hd' & -> & H). apply spec_ret.
    assert (d' = d) as -> by congruence. eexists. split; [exact H|]. split; [done|]. cbn. split; [done|]. by exists q, ok. }
  destruct (Z.eqb_spec (mg_type r) bulkExecute_type) as [->|H4].
  { apply spec_bind. eapply spec_mono; [apply bulkExecute_did|]. intros rc s1 (c & v & Hc & H & Hv). apply spec_ret.
    exists v. split; [done|]. split; [done|]. cbn. split; [done|]. by exists c. }
  destruct (Z.eqb_spec (mg_type r) execTransaction_type) as [E|H5].
  { apply spec_bind. eapply spec_mono; [apply execTransaction_did|]. intros rc s1 (v & H & Hv). apply spec_ret.
    exists v. split; [done|]. split; [done|]. split; [done|]. by apply Hv. }
  apply spec_bind, spec_of_option. intros [w|] ->.
  - apply spec_bind. eapply spec_mono; [apply write_one_did|]. intros rc s1 (c & ok & -> & Hc & H). apply spec_ret.
    eexists. split; [exact H|]. split; [done|]. split; [done|]. by exists c, ok.
  - apply spec_ret. exists []. split; [apply moved_refl|]. by split_and!.
Qed.

(** ** What a worker does *)

(** A client that no request uses. *)
Definition idle (s : client) : Prop := mo_database s = None /\ mo_name2coll s = [].

Lemma idle_held (s : client) : idle s -> held s = [].
Proof. intros [Hd Hc]. unfold held. by rewrite Hd, Hc. Qed.

Lemma closes (l : list Z) : acts (B:=B) (map GClose l) = [] /\ colls (B:=B) (map GClose l) = [].
Proof. induction l as [|h l [IH1 IH2]]; [done|]. by split. Qed.

Lemma destroy_colls_did l y (s : client) :
  spec (destroy_colls l) s (fun _ s' => balance (map GClose (map snd l)) (map snd l ++ y) y s s' /\
    mo_database s' = mo_database s /\ mo_name2coll s' = mo_name2coll s).
Proof.
  revert s. induction l as [|[n h] l IH]; intros s; cbn [destroy_colls map].
  { apply spec_ret. split; [|done]. split; [by rewrite app_nil_r|done]. }
  apply spec_bind. eapply spec_mono; [apply (spec_bcall _ _ s (h :: map snd l ++ y) (fun _ => map snd l ++ y)); done|].
  intros _ s1 (H1 & Hd & Hc). eapply spec_mono; [apply IH|]. intros _ s2 (H2 & Hd' & Hc').
  split; [exact (balance_trans _ _ _ _ _ _ _ _ H1 H2)|]. split; congruence.
Qed.

Lemma detach_did (s : client) : spec detach s (fun _ s' => exists hs, balance (map GClose hs) [] [] s s' /\ idle s').
Proof.
  apply spec_bind, spec_bind, spec_bind, spec_gets, spec_bind.
  eapply spec_mono; [apply (destroy_colls_did _ [] s)|]. intros _ s1 (H1 & Hd1 & Hc1). apply spec_modify.
  set (s2 := set_colls [] s1). set (hs := map snd (iteration (mo_name2coll s))) in *.
  assert (balance (map GClose hs) [] [] s s2) as H2.
  { destruct H1 as [Ht Hp]. split; [exact Ht|]. unfold held in *. cbn. rewrite app_nil_r in *.
    assert (hs ≡ₚ map snd (mo_name2coll s)) as Hhs by (unfold hs; by rewrite iteration_perm).
    rewrite Hhs in Hp at 2. rewrite Hc1, Hd1 in Hp. rewrite Hd1.
    apply (Permutation_app_inv_r (map snd (mo_name2coll s))). rewrite <- !app_assoc.
    etrans; [|exact Hp]. solve_Permutation. }
  clearbody hs. apply spec_bind, spec_gets. destruct (mo_database s2) as [d|] eqn:E.
  - apply spec_bind. eapply spec_mono; [apply (spec_bcall _ _ s2 [d] (fun _ => [])); done|].
    intros _ s3 (H3 & Hd3 & Hc3). apply spec_modify, spec_modify. exists (hs ++ [d]). split; [|by split].
    rewrite map_app. eapply balance_trans; [exact H2|]. destruct H3 as [Ht Hp]. split; [exact Ht|].
    unfold held in *. rewrite Hd3, Hc3 in Hp. rewrite E in *. cbn in *. by rewrite Hc3.
  - apply spec_ret, spec_modify. exists hs. split; [exact H2|]. by split.
Qed.

(** The database is opened by its name. *)
Lemma attach_did db_name (s : client) :
  idle s -> spec (attach db_name) s (fun rc s' =>
    (rc = 0 /\ (exists d, mo_database s' = Some d /\ balance [GDatabase (c_str db_name) d] [] [] s s') /\ mo_name2coll s' = []) \/
    (rc = -1 /\ balance [] [] [] s s' /\ idle s')).
Proof.
  intros Hi. pose proof Hi as [Hd Hc]. apply spec_bind, spec_modify, spec_bind, spec_gets. cbn. apply spec_bind, spec_bind.
  eapply spec_mono; [apply (spec_bcall _ _ (set_client true s) [] option_list); by intros []|].
  intros d s1 ([Ht Hp] & Hd1 & Hc1). apply spec_modify, spec_bind, spec_gets, spec_ret. cbn in *.
  assert (balance (GDatabase (c_str db_name) <$> option_list d) [] [] s (set_database d s1)) as Hb.
  { split; [exact Ht|]. rewrite (idle_held s Hi). unfold held. cbn. rewrite Hc1, Hc. by destruct d. }
  destruct d as [d|]; [left|right]; (split; [done|]).
  - split; [by exists d|]. cbn. by rewrite Hc1.
  - split; [exact Hb|]. by split; cbn; rewrite ?Hc1.
Qed.

Lemma serve_did db_name id req (s : client) :
  idle s -> spec (serve db_name id req) s (fun o s' => exists l,
    mo_trace s' = mo_trace s ++ l /\ opened l ≡ₚ closed l /\ idle s' /\
    match o with
    | Some resp => resp = MkMongoResp 0 id (mgr_rc resp) None (mgr_result_docs resp) /\
        exists d, GDatabase (c_str db_name) d ∈ l /\ acted d (colls l) req (mgr_rc resp) (mgr_result_docs resp) (acts l)
    | None => acts l = []
    end).
Proof.
  intros Hi. assert (forall l s', balance l [] [] s s' -> idle s' -> opened l ≡ₚ closed l) as Hcl.
  { intros l s' [_ Hp] Hi'. rewrite (idle_held s Hi), (idle_held s' Hi') in Hp. cbn in Hp. by rewrite !app_nil_r in Hp. }
  apply spec_bind. eapply spec_mono; [by apply attach_did|].
  intros rc s1 [(-> & (d & Hd & H1) & Hn1)|(-> & H1 & Hi1)]; cbn.
  - apply spec_bind. eapply spec_mono; [by apply (mongo_handleRequest_did id req d)|].
    intros resp s2 (v & (l & H2 & Hv & Hn2 & _) & Hr & Ha).
    apply spec_bind. eapply spec_mono; [apply detach_did|]. intros _ s3 (hs & H3 & Hi3). apply spec_ret.
    pose proof (balance_trans _ _ _ _ _ _ _ _ (balance_trans _ _ _ _ _ _ _ _ H1 H2) H3) as H.
    exists (([GDatabase (c_str db_name) d] ++ l) ++ map GClose hs). split; [apply H|]. split; [by apply (Hcl _ s3)|]. split; [done|].
    split; [done|]. exists d. split; [by left|].
    destruct (trace_app ([GDatabase (c_str db_name) d] ++ l) (map GClose hs)) as (_ & _ & -> & ->).
    destruct (trace_app [GDatabase (c_str db_name) d] l) as (_ & _ & -> & ->).
    destruct (closes hs) as [-> ->]. rewrite !app_nil_r. cbn [app]. rewrite Hn2, Hn1 in Ha. by rewrite Hv.
  - apply spec_ret. exists []. split; [apply H1|]. by split_and!.
Qed.

(** C23: a request leaves nothing behind: every database, collection, bulk operation
    and session that it opened is closed, once, and the client is idle again,
    whichever branch the request took and whichever calls failed. The response has
    the id of the request. *)
Theorem serve_closes db_name id req (s s' : client) o :
  idle s -> serve db_name id req s = Some (o, s') ->
  exists l, mo_trace s' = mo_trace s ++ l /\ opened l ≡ₚ closed l /\ idle s' /\
    match o with Some resp => mgr_req_id resp = id | None => acts l = [] end.
Proof.
  intros Hi E. destruct (serve_did _ _ _ _ Hi _ _ E) as (l & Ht & Hp & Hi' & Ho). exists l. split_and!; try done.
  destruct o as [resp|]; [by destruct Ho as [-> _]|done].
Qed.

(** C22: a request does what its type says, on the worker's database and on the
    collection it names, and says in the response what came of it: the database or
    the collection is dropped, documents are looked up and handed over, a command is
    run, a write is made, once; a bulk operation is executed only if each of its
    writes was added to it, in order, and a transaction, begun, ends with a commit, or
    with an abort. Nothing else is done. *)
Theorem mongo_request_acts db_name id req (s s' : client) resp :
  idle s -> serve db_name id req s = Some (Some resp, s') ->
  exists l d, mo_trace s' = mo_trace s ++ l /\ GDatabase (c_str db_name) d ∈ l /\
    acted d (colls l) req (mgr_rc resp) (mgr_result_docs resp) (acts l).
Proof.
  intros Hi E. destruct (serve_did _ _ _ _ Hi _ _ E) as (l & Ht & _ & _ & _ & d & Hd & Ha). by exists l, d.
Qed.

(** No response has a reply. *)
Theorem no_reply db_name id req (s s' : client) resp :
  idle s -> serve db_name id req s = Some (Some resp, s') -> mgr_reply resp = None.
Proof. intros Hi E. by destruct (serve_did _ _ _ _ Hi _ _ E) as (l & _ & _ & _ & -> & _). Qed.
End requests.

(** ** When a request returns *)

Section defined.
Context {W B : Type} {MW : Mongoc W B} {HO : HashOrder}.
Abbreviation client := (mongo_client (W:=W) (B:=B)).

(** The documents that the request must have are there. *)
Definition complete (req : mongo_client_req (bson:=B)) : Prop :=
  let r := fst req in
  if mg_type r =? find_type then is_Some (mg_query r)
  else if mg_type r =? command_type then is_Some (mg_write r)
  else if mg_type r =? bulkExecute_type then Forall is_Some (flat_map bulk_items (snd req))
  else if mg_type r =? execTransaction_type then Forall is_Some (map write_of (snd req))
  else is_Some (write_of r).

(** [m] returns, and leaves the database of the client. *)
Definition total {A} (m : eff client A) : Prop :=
  forall s, is_Some (mo_database s) -> exists a s', m s = Some (a, s') /\ mo_database s' = mo_database s.

Lemma total_ret {A} (a : A) : total (ret a).
Proof. intros s _. by exists a, s. Qed.

Lemma total_bind {A C} (m : eff client A) (k : A -> eff client C) : total m -> (forall a, total (k a)) -> total (bind m k).
Proof.
  intros Hm Hk s Hs. destruct (Hm s Hs) as (a & s1 & E & Hd). destruct (Hk a s1) as (b & s2 & E' & Hd'); [by rewrite Hd|].
  exists b, s2. rewrite (bind_eq _ _ _ _ _ E), E'. split; [done|congruence].
Qed.

Lemma total_call {A} (f : W -> A * W) e : total (call f e).
Proof. intros s _. unfold call. destruct (f (mo_world s)) as [a w]. by eexists _, _. Qed.
Lemma total_gets {A} (f : client -> A) : total (gets f).
Proof. intros s _. by eexists _, _. Qed.
Lemma total_colls f : total (modify (fun s => set_colls (f s) s)).
Proof. intros s _. by eexists _, _. Qed.
Lemma total_database : total database.
Proof. intros s [d E]. exists d, s. unfold database, bind, gets. by rewrite E. Qed.
Lemma total_option {A} (o : option A) : is_Some o -> total (of_option o).
Proof. intros [a ->] s _. by exists a, s. Qed.

Lemma total_getCollection name : total (getCollection name).
Proof.
  apply total_bind; [apply total_gets|]. intros l. destruct (find_coll _ _); [apply total_ret|].
  apply total_bind; [apply total_database|]. intros d. apply total_bind; [apply total_call|]. intros h.
  apply total_bind; [apply (total_colls (fun s => mo_name2coll s ++ _))|]. intros _. apply total_ret.
Qed.

#[local] Hint Resolve total_ret total_call total_gets total_database total_option total_getCollection : core.
#[local] Ltac by_total := repeat first [done | apply total_bind; [by auto|intros ?] | by auto].

Lemma total_write_one name w : total (write_one name w).
Proof. unfold write_one. by_total. Qed.
#[local] Hint Resolve total_write_one : core.

Lemma total_transaction l : Forall is_Some (map write_of l) -> total (transaction_loop l).
Proof.
  induction l as [|r l IH]; intros H; cbn [transaction_loop]; [auto|]. apply Forall_cons in H as [Hr Hl].
  apply total_bind; [auto|]. intros [w|]; [|auto]. apply total_bind; [auto|]. intros rc. case_if; auto.
Qed.

Lemma total_execTransaction l : Forall is_Some (map write_of l) -> total (execTransaction (transaction_proc l)).
Proof.
  intros H%total_transaction. apply total_bind; [auto|]. intros [h|]; [|auto]. apply total_bind; [auto|]. intros started.
  apply total_bind; [|intros rc; unfold effect; by_total]. case_if; [auto|]. unfold transaction_proc. apply total_bind; [by_total|].
  intros b. apply total_bind; [by destruct b; auto|]. intros ok. case_if; by_total.
Qed.

Lemma total_bulk_docs bulk docs opts :
  Forall is_Some (map (fun d => b ← d; Some (Some (tt, InsertOne b opts))) docs) -> total (bulk_docs bulk docs opts).
Proof.
  induction docs as [|d docs IH]; intros H; cbn [bulk_docs]; [auto|]. apply Forall_cons in H as [Hd Hl].
  apply total_bind; [apply total_option; destruct d as [d|]; [eauto|by destruct Hd]|]. intros b.
  unfold bulk_add. apply total_bind; [by_total|]. intros rc. case_if; auto.
Qed.

Lemma mapped_some {X Y} (f : X -> Y) (o : option X) : is_Some (option_map f o) <-> is_Some o.
Proof. destruct o; cbn; split; by intros []. Qed.

Lemma total_bulk bulk l : Forall is_Some (flat_map bulk_items l) -> total (bulk_loop bulk l).
Proof.
  induction l as [|r l IH]; intros H; cbn [bulk_loop]; [auto|]. cbn [flat_map] in H. apply Forall_app in H as [Hr Hl].
  apply total_bind; [|intros rc; case_if; auto]. unfold bulk_items in Hr.
  destruct (mg_type r =? insertMany); [by apply total_bulk_docs|]. apply Forall_cons in Hr as [Hr%mapped_some _].
  apply total_bind; [auto|]. intros [w|]; [|auto]. unfold bulk_add. by_total.
Qed.

Lemma total_bulkExecute req : Forall is_Some (flat_map bulk_items (snd req)) -> total (bulkExecute req).
Proof.
  intros H. apply total_bind; [auto|]. intros c. apply total_bind; [auto|]. intros [h|]; [|auto].
  apply total_bind; [by apply total_bulk|]. intros rc. apply total_bind; [case_if; by_total|]. intros rc'. unfold effect. by_total.
Qed.

Lemma total_handleRequest id req : complete req -> total (handleRequest id req).
Proof.
  unfold handleRequest, complete. set (r := fst req).
  destruct (Z.eqb_spec (mg_type r) dropDatabase) as [->|_]; [intros _; unfold dropDatabase_; apply total_bind; [by_total|auto]|].
  destruct (Z.eqb_spec (mg_type r) dropCollection) as [->|_]; [intros _; unfold dropCollection_; apply total_bind; [by_total|auto]|].
  case_if; [intros H; unfold find; apply total_bind; [auto|intros q]; apply total_bind; [by_total|auto]|].
  case_if; [intros H; unfold command; apply total_bind; [auto|intros q]; apply total_bind; [by_total|auto]|].
  case_if; [intros H%total_bulkExecute; by_total|].
  case_if; [intros H%total_execTransaction; by_total|].
  intros H. apply total_bind; [auto|]. intros [w|]; by_total.
Qed.

Lemma destroy_colls_some l (s : client) : is_Some (destroy_colls l s).
Proof.
  revert s. induction l as [|[n h] l IH]; intros s; cbn; [by eexists|]. apply IH.
Qed.

Lemma detach_some (s : client) : is_Some (detach s).
Proof.
  apply some_bind; [|by eexists]. apply some_bind.
  - apply some_bind; [by eexists|]. intros l s1 _. apply some_bind; [apply destroy_colls_some|by eexists].
  - intros _ s1 _. apply some_bind; [by eexists|]. intros [h|] s2 _; [|by eexists]. apply some_bind; by eexists.
Qed.

(** A request is answered exactly if the documents it needs are there: with
    one of them missing, as a peer can arrange by sending a null document, libmongoc
    aborts the program. A bulk operation or a transaction is answered if all are there. *)
Theorem serve_returns db_name id req (s s1 : client) :
  idle s -> attach db_name s = Some (0, s1) ->
  (complete req -> is_Some (serve db_name id req s)) /\
  (mg_type (fst req) <> bulkExecute_type -> mg_type (fst req) <> execTransaction_type -> ~ complete req ->
   serve db_name id req s = None).
Proof.
  intros Hi Ea. destruct (attach_did _ _ Hi _ _ Ea) as [(_ & (d & Hd' & _) & _)|[? _]]; [|done].
  assert (is_Some (mo_database s1)) as Hd by by eexists.
  unfold serve. rewrite (bind_eq _ _ _ _ _ Ea). cbn [Z.eqb]. split.
  - intros Hc. destruct (total_handleRequest id req Hc s1 Hd) as (resp & s2 & E & _). rewrite (bind_eq _ _ _ _ _ E).
    apply some_bind; [apply detach_some|by eexists].
  - intros Hb Ht Hc. assert (handleRequest id req s1 = None) as E; [|unfold bind; by rewrite E].
    unfold handleRequest, complete in *. set (r := fst req) in *. apply Z.eqb_neq in Hb, Ht. rewrite Hb, Ht in *.
    destruct (Z.eqb_spec (mg_type r) dropDatabase) as [E|_]; [unfold write_of in Hc; rewrite E in Hc; cbn in Hc; by destruct Hc|].
    destruct (Z.eqb_spec (mg_type r) dropCollection) as [E|_]; [unfold write_of in Hc; rewrite E in Hc; cbn in Hc; by destruct Hc|].
    case_if; [by destruct (mg_query r); [destruct Hc|]|]. case_if; [by destruct (mg_write r); [destruct Hc|]|].
    by destruct (write_of r); [destruct Hc|].
Qed.
End defined.

(** ** Requests as programs make them *)

Section factories.
Context {B : Type}.
Abbreviation one := (mongo_one B).
Abbreviation request := (mongo_client_req (bson:=B)).

(** The documents are handed over as pointers. *)
Definition newDropDB (db_slot : Z) : request := (MkMongoOne 0 dropDatabase db_slot [] None None None [], []).
Definition newDropColl (db_slot : Z) (collName : bytes) : request :=
  (MkMongoOne 0 dropCollection db_slot (c_str collName) None None None [], []).
Definition newInsertOne (db_slot : Z) (collName : bytes) (doc opts : option B) : request :=
  (MkMongoOne 0 insertOne db_slot (c_str collName) opts None doc [], []).
Definition newInsertMany (db_slot : Z) (collName : bytes) (docs : list (option B)) (opts : option B) : request :=
  (MkMongoOne 0 insertMany db_slot (c_str collName) opts None None docs, []).
Definition newFind (db_slot : Z) (collName : bytes) (query opts : option B) : request :=
  (MkMongoOne 0 find_type db_slot (c_str collName) opts query None [], []).
Definition newUpdate (db_slot : Z) (collName : bytes) (query write : option B) (type : Z) (opts : option B) : request :=
  (MkMongoOne 0 type db_slot (c_str collName) opts query write [], []).
Definition newDelete (db_slot : Z) (collName : bytes) (query : option B) (type : Z) (opts : option B) : request :=
  (MkMongoOne 0 type db_slot (c_str collName) opts query None [], []).
Definition newCommand (db_slot : Z) (cmd opts : option B) : request :=
  (MkMongoOne 0 command_type db_slot [] opts None cmd [], []).
Definition newBulk (db_slot : Z) (collName : bytes) (opts : option B) : request :=
  (MkMongoOne 0 bulkExecute_type db_slot (c_str collName) opts None None [], []).
Definition newTransaction (db_slot : Z) : request := (MkMongoOne 0 execTransaction_type db_slot [] None None None [], []).

(** The requests that write one or more documents. *)
Inductive writing : request -> Prop :=
| wt_insertOne slot coll doc opts : writing (newInsertOne slot coll (Some doc) opts)
| wt_insertMany slot coll docs opts : writing (newInsertMany slot coll (map Some docs) opts)
| wt_update slot coll q d t opts : t ∈ [updateOne; updateMany; replaceOne] -> writing (newUpdate slot coll (Some q) (Some d) t opts)
| wt_delete slot coll q t opts : t ∈ [deleteOne; deleteMany] -> writing (newDelete slot coll (Some q) t opts).

(** The requests that the functions make of documents that exist; a bulk
    operation and a transaction are made empty, and [append]ed to. *)
Inductive built : request -> Prop :=
| bt_dropDB slot : built (newDropDB slot)
| bt_dropColl slot coll : built (newDropColl slot coll)
| bt_writing r : writing r -> built r
| bt_find slot coll q opts : built (newFind slot coll (Some q) opts)
| bt_command slot cmd opts : built (newCommand slot (Some cmd) opts)
| bt_bulk slot coll opts l : Forall writing l -> built (foldl mongo_append (newBulk slot coll opts) l)
| bt_transaction slot l : Forall writing l -> built (foldl mongo_append (newTransaction slot) l).

Lemma mapM_Some (l : list B) : mapM id (map Some l) = Some l.
Proof. induction l as [|d l IH]; [done|]. cbn. by rewrite IH. Qed.

Lemma writing_one (r : request) : writing r -> snd r = [] /\ (exists w, write_of (fst r) = Some (Some w)) /\
  Forall is_Some (bulk_items (fst r)) /\ mg_type (fst r) ∉ [find_type; command_type; bulkExecute_type; execTransaction_type].
Proof.
  intros [slot coll d o|slot coll ds o|slot coll q d t o Ht|slot coll q t o Ht]; (split; [done|]); cbn [fst].
  - split; [by eexists|]. split; [|by_decide]. repeat constructor. by eexists.
  - split; [|split; [|by_decide]].
    + eexists. unfold write_of. cbn -[mapM]. by rewrite mapM_Some.
    + unfold bulk_items. cbn -[map]. induction ds as [|d ds IH]; constructor; [by eexists|done].
  - rewrite !elem_of_cons in Ht. destruct Ht as [->|[->|[->|[]%elem_of_nil]]]; (split; [by eexists|]); (split; [|by_decide]);
      repeat constructor; by eexists.
  - rewrite !elem_of_cons in Ht. destruct Ht as [->|[->|[]%elem_of_nil]]; (split; [by eexists|]); (split; [|by_decide]);
      repeat constructor; by eexists.
Qed.

Lemma appended (h : request) l : Forall writing l -> fst (foldl mongo_append h l) = fst h /\
  snd (foldl mongo_append h l) = snd h ++ map fst l.
Proof.
  intros H. revert h. induction H as [|r l Hr _ IH]; intros h; cbn; [by rewrite app_nil_r|].
  destruct (IH (mongo_append h r)) as [-> ->]. apply writing_one in Hr as [Hr _]. unfold mongo_append. cbn.
  split; [done|]. by rewrite Hr, <- app_assoc.
Qed.

(** Requests that are built by these functions, of documents that exist, are
    complete: the client answers them. *)
Theorem built_complete (r : request) : built r -> complete r.
Proof.
  intros [slot|slot coll|r' Hr|slot coll q o|slot cmd o|slot coll o l Hl|slot l Hl]; unfold complete; try (by eexists).
  - apply writing_one in Hr as (_ & (w & E) & _ & Ht). rewrite !elem_of_cons in Ht. 
    rewrite !(proj2 (Z.eqb_neq _ _)) by naive_solver. rewrite E. by eexists.
  - destruct (appended (newBulk slot coll o) l Hl) as [-> ->]. cbn -[flat_map].
    induction Hl as [|r' l Hr _ IH]; cbn; [done|]. apply Forall_app. split; [|done].
    by apply writing_one in Hr as (_ & _ & ? & _).
  - destruct (appended (newTransaction slot) l Hl) as [-> ->]. cbn -[map].
    induction Hl as [|r' l Hr _ IH]; cbn; [done|]. constructor; [|done].
    apply writing_one in Hr as (_ & (w & E) & _). rewrite E. by eexists.
Qed.
End factories.

(** ** Transactions that are none *)

Definition write_opts {B} (w : write B) : option B :=
  match w with
  | InsertOne _ o | InsertMany _ o | UpdateOne _ _ o | UpdateMany _ _ o | ReplaceOne _ _ o | DeleteOne _ o | DeleteMany _ o => o
  end.

(** What libmongoc documents of transactions: a write belongs to one if its
    options hold the id of the session; otherwise it takes effect at once, and
    aborting a transaction has no effect on it. [durable] are the writes that
    took effect outside of transactions. *)
Class MongocSessions (W B : Type) {MW : Mongoc W B} := {
  has_session : option B -> bool;
  durable : W -> list (write B);
  collection_durable w d n : durable (snd (mongoc_database_get_collection w d n)) = durable w;
  write_durable w c x ok w' : mongoc_collection_write w c x = (ok, w') -> has_session (write_opts x) = false ->
    if ok then durable w' = durable w ++ [x] else durable w `sublist_of` durable w';
  session_durable w : durable (snd (mongoc_client_start_session w)) = durable w;
  begin_durable w h : durable (snd (mongoc_client_session_start_transaction w h)) = durable w;
  commit_durable w h : durable (snd (mongoc_client_session_commit_transaction w h)) = durable w;
  abort_durable w h : durable (snd (mongoc_client_session_abort_transaction w h)) = durable w;
  end_durable w h : durable (mongoc_client_session_destroy w h) = durable w;
}.

Section sessions.
Context {W B : Type} {MW : Mongoc W B} {HO : HashOrder} {MS : MongocSessions W B}.
Abbreviation client := (mongo_client (W:=W) (B:=B)).

Definition succeeded (l : list (gcall B)) : list (write B) :=
  omap (fun c => match c with GWrite _ w true => Some w | _ => None end) l.

(** The writes that succeeded took effect at once. *)
Definition at_once (s s' : client) : Prop := exists l, mo_trace s' = mo_trace s ++ l /\
  durable (mo_world s) ++ succeeded l `sublist_of` durable (mo_world s').

Lemma at_once_refl (s : client) : at_once s s.
Proof. exists []. by rewrite !app_nil_r. Qed.

Lemma at_once_trans (s1 s2 s3 : client) : at_once s1 s2 -> at_once s2 s3 -> at_once s1 s3.
Proof.
  intros (l & Ht & Hd) (k & Ht' & Hd'). exists (l ++ k). rewrite Ht', Ht, app_assoc. split; [done|].
  unfold succeeded in *. rewrite omap_app, app_assoc. etrans; [|exact Hd']. by apply sublist_app.
Qed.

Lemma once_call {A} (f : W -> A * W) e (s : client) :
  (forall w, durable (snd (f w)) = durable w) -> (forall a, succeeded (e a) = []) -> spec (call f e) s (fun _ s' => at_once s s').
Proof.
  intros Hf He a s'. unfold call. specialize (Hf (mo_world s)). destruct (f (mo_world s)) as [b w]. intros [= <- <-].
  exists (e b). cbn in *. by rewrite He, app_nil_r, Hf.
Qed.

Lemma once_getCollection name (s : client) : spec (getCollection name) s (fun _ s' => at_once s s').
Proof.
  apply spec_bind, spec_gets. destruct (find_coll _ _) as [h|]; [apply spec_ret, at_once_refl|].
  apply spec_bind, spec_bind, spec_gets, spec_of_option. intros d _. apply spec_bind.
  eapply spec_mono; [apply once_call; [intros w; apply collection_durable|done]|]. intros h s1 H1. by apply spec_bind, spec_modify, spec_ret.
Qed.

Lemma once_write name w (s : client) : has_session (write_opts w) = false -> spec (write_one name w) s (fun _ s' => at_once s s').
Proof.
  intros Hw. apply spec_bind. eapply spec_mono; [apply once_getCollection|]. intros c s1 H1. apply spec_bind. intros ok s2.
  unfold call. destruct (mongoc_collection_write _ _ _) as [b w'] eqn:E. intros [= <- <-]. apply spec_ret. eapply at_once_trans; [exact H1|].
  eexists. split; [reflexivity|]. pose proof (write_durable _ _ _ _ _ E Hw) as Hd. cbn. destruct b; cbn.
  - by rewrite Hd.
  - by rewrite app_nil_r.
Qed.

Lemma write_of_opts (r : mongo_one B) w : write_of r = Some (Some w) -> write_opts w = mg_opts r.
Proof.
  unfold write_of. intros E. repeat case_if; repeat (case_match || simplify_option_eq); done.
Qed.

Lemma once_loop l (s : client) :
  Forall (fun r => has_session (mg_opts r) = false) l -> spec (transaction_loop l) s (fun _ s' => at_once s s').
Proof.
  revert s. induction l as [|r l IH]; intros s H; cbn [transaction_loop]; [apply spec_ret, at_once_refl|].
  apply Forall_cons in H as [Hr Hl]. apply spec_bind, spec_of_option. intros [w|] Ew; [|apply spec_ret, at_once_refl].
  apply spec_bind. eapply spec_mono; [apply once_write; by rewrite (write_of_opts _ _ Ew)|]. intros rc s1 H1.
  case_if; [by apply spec_ret|]. eapply spec_mono; [by apply IH|]. intros ? s2 H2. exact (at_once_trans _ _ _ H1 H2).
Qed.

Lemma once_execTransaction l (s : client) :
  Forall (fun r => has_session (mg_opts r) = false) l ->
  spec (execTransaction (transaction_proc l)) s (fun _ s' => at_once s s').
Proof.
  intros Hl. apply spec_bind. eapply spec_mono; [apply once_call; [apply session_durable|by intros []]|].
  intros [h|] s1 H1; [|by apply spec_ret]. apply spec_bind.
  eapply spec_mono; [apply once_call; [intros w; apply begin_durable|done]|]. intros started s2 H2'. pose proof (at_once_trans _ _ _ H1 H2') as H2.
  apply spec_bind. apply (spec_mono _ _ (fun _ s3 => at_once s s3)).
  - case_if; [by apply spec_ret|]. apply spec_bind, spec_bind. eapply spec_mono; [by apply once_loop|].
    intros rc s3 H3'. pose proof (at_once_trans _ _ _ H2 H3') as H3. apply spec_ret, spec_bind.
    apply (spec_mono _ _ (fun _ s4 => at_once s s4)).
    + case_if; [|by apply spec_ret]. eapply spec_mono; [apply once_call; [intros w; apply commit_durable|done]|].
      intros ok s4 H4. exact (at_once_trans _ _ _ H3 H4).
    + intros ok s4 H4. case_if; [|by apply spec_ret]. apply spec_bind.
      eapply spec_mono; [apply once_call; [intros w; apply abort_durable|done]|]. intros ok' s5 H5. apply spec_ret.
      exact (at_once_trans _ _ _ H4 H5).
  - intros rc s4 H4. apply spec_bind. eapply spec_mono; [apply once_call; [intros w; apply end_durable|done]|].
    intros ? s5 H5. apply spec_ret. exact (at_once_trans _ _ _ H4 H5).
Qed.

(** A transaction request is no transaction: its writes are made with the
    options the request brought, and the session, which is opened only then, is not
    among them. So each write that succeeds takes effect at once, and is still
    there when the response says that the transaction was rolled back. *)
Theorem rollback_keeps_writes id req (s s' : client) resp :
  mg_type (fst req) = execTransaction_type -> Forall (fun r => has_session (mg_opts r) = false) (snd req) ->
  handleRequest id req s = Some (resp, s') ->
  exists l, mo_trace s' = mo_trace s ++ l /\ durable (mo_world s) ++ succeeded l `sublist_of` durable (mo_world s').
Proof.
  intros Ht Hl. revert resp s'. change (spec (handleRequest id req) s (fun _ s' => at_once s s')).
  unfold handleRequest. rewrite Ht. cbn -[execTransaction]. apply spec_bind.
  eapply spec_mono; [by apply once_execTransaction|]. intros rc s1 H1. by apply spec_ret.
Qed.
End sessions.

(** ** A database for the witnesses *)

(** The number of handles given out, the writes that took effect, and how many
    writes it takes. Documents are numbers; options that hold a session are 1. *)
Record toy := MkToy { ty_handles : Z; ty_stored : list (write Z); ty_room : nat }.

Definition toy_handle (w : toy) : Z * toy := (ty_handles w, MkToy (ty_handles w + 1) (ty_stored w) (ty_room w)).
Definition toy_write (w : toy) (x : write Z) : bool * toy :=
  match ty_room w with
  | O => (false, w)
  | S n => (true, MkToy (ty_handles w) (ty_stored w ++ [x]) n)
  end.

#[export] Instance toy_mongoc : Mongoc toy Z := {
  mongoc_client_get_database w _ := let '(h, w) := toy_handle w in (Some h, w);
  mongoc_database_destroy w _ := w;
  mongoc_database_drop w _ := (true, MkToy (ty_handles w) [] (ty_room w));
  mongoc_database_get_collection w _ _ := toy_handle w;
  mongoc_collection_destroy w _ := w;
  mongoc_collection_drop w _ := (true, w);
  mongoc_collection_write w _ x := toy_write w x;
  mongoc_collection_find_with_opts w _ q _ := (Some ([q], false), w);
  mongoc_client_command_with_opts w _ _ _ := (true, w);
  mongoc_collection_create_bulk_operation_with_opts w _ _ := let '(h, w) := toy_handle w in (Some h, w);
  mongoc_bulk_operation_add w _ x := (true, w);
  mongoc_bulk_operation_execute w _ := (true, w);
  mongoc_bulk_operation_destroy w _ := w;
  mongoc_client_start_session w := let '(h, w) := toy_handle w in (Some h, w);
  mongoc_client_session_start_transaction w _ := (true, w);
  mongoc_client_session_commit_transaction w _ := (true, w);
  mongoc_client_session_abort_transaction w _ := (true, w);
  mongoc_client_session_destroy w _ := w;
}.

#[export] Instance toy_order : HashOrder.
Proof. by refine {| iteration := fun l => l |}. Defined.

#[export] Instance toy_sessions : MongocSessions toy Z.
Proof.
  refine {| has_session := fun o => bool_decide (o = Some 1); durable := ty_stored |}; try done.
  intros [h l [|n]] c x ok w' [= <- <-] _; cbn; done.
Defined.

Definition toy_client (room : nat) : mongo_client (W:=toy) (B:=Z) := new_mongo_client (MkToy 10 [] room).
Definition insert (d : option Z) : mongo_one Z := MkMongoOne 0 insertOne 0 [x61] None None d [].
Definition transaction : mongo_client_req (bson:=Z) :=
  (MkMongoOne 0 execTransaction_type 0 [] None None None [], [insert (Some 5); insert (Some 6)]).

Lemma idle_toy room : idle (toy_client room).
Proof. done. Qed.

Lemma serve_closes_witness : exists o s' l, serve [x64] 7 transaction (toy_client 1) = Some (o, s') /\
  mo_trace s' = l /\ opened l ≡ₚ closed l /\ opened l = [10; 11; 12].
Proof.
  destruct (serve [x64] 7 transaction (toy_client 1)) as [[o s']|] eqn:E; [|vm_compute in E; done].
  destruct (serve_closes [x64] 7 transaction (toy_client 1) s' o (idle_toy 1) E) as (l & Ht & Hp & _ & _).
  exists o, s', l. split_and!; [done|exact Ht|exact Hp|]. change (mo_trace (toy_client 1)) with (@nil (gcall Z)) in Ht. cbn in Ht.
  rewrite <- Ht. vm_compute in E. by injection E as <- <-.
Defined.

(** The second write fails: the transaction is rolled back. *)
Lemma mongo_request_acts_witness : exists resp s' l d, serve [x64] 7 transaction (toy_client 1) = Some (Some resp, s') /\
  mgr_rc resp = -4 /\ acted d (colls l) transaction (-4) [] (acts l) /\ colls l = [([x61], 12)] /\
  acts l = [GBegin 11 true; GWrite 12 (InsertOne 5 None) true; GWrite 12 (InsertOne 6 None) false; GAbort 11 true].
Proof.
  destruct (serve [x64] 7 transaction (toy_client 1)) as [[[resp|] s']|] eqn:E; [|vm_compute in E; done..].
  destruct (mongo_request_acts [x64] 7 transaction (toy_client 1) s' resp (idle_toy 1) E) as (l & d & Ht & _ & Ha).
  vm_compute in E. injection E as <- <-. eexists _, _, l, d. split; [reflexivity|]. split; [done|]. split; [exact Ha|].
  cbn in Ht. by rewrite <- Ht.
Defined.

Lemma no_reply_witness : exists resp s', serve [x64] 7 (insert (Some 5), []) (toy_client 1) = Some (Some resp, s') /\
  mgr_reply resp = None.
Proof.
  destruct (serve [x64] 7 (insert (Some 5), []) (toy_client 1)) as [[[resp|] s']|] eqn:E; [|vm_compute in E; done..].
  exists resp, s'. split; [done|]. exact (no_reply [x64] 7 (insert (Some 5), []) (toy_client 1) s' resp (idle_toy 1) E).
Defined.

(** A null document. *)
Lemma serve_returns_witness : serve [x64] 7 (insert None, []) (toy_client 1) = None.
Proof.
  destruct (attach [x64] (toy_client 1)) as [[rc s1]|] eqn:E; [|vm_compute in E; done].
  assert (rc = 0) as -> by (vm_compute in E; by injection E).
  refine (proj2 (serve_returns [x64] 7 (insert None, []) (toy_client 1) s1 (idle_toy 1) E) _ _ _); [done..|].
  intros [d Hd]. vm_compute in Hd. done.
Defined.

(** The first write is there although the transaction was rolled back. *)
Lemma rollback_keeps_writes_witness :
  let s := set_database (Some 1) (toy_client 1) in
  exists resp s', handleRequest 7 transaction s = Some (resp, s') /\ mgr_rc resp = -4 /\
    [InsertOne 5 None] `sublist_of` ty_stored (mo_world s').
Proof.
  intros s. destruct (handleRequest 7 transaction s) as [[resp s']|] eqn:E; [|vm_compute in E; done].
  destruct (rollback_keeps_writes 7 transaction s s' resp) as (l & Ht & Hs); [done|by repeat constructor|done|].
  exists resp, s'. split; [done|]. vm_compute in E. injection E as <- <-. split; [done|]. cbn in Ht. by rewrite <- Ht in Hs.
Defined.

Lemma built_complete_witness : complete (mongo_append (newTransaction 0) (newInsertOne 0 [x61] (Some 5) None)).
Proof. apply built_complete, (bt_transaction 0 [newInsertOne 0 [x61] (Some 5) None]). repeat constructor. Defined.
