(* ===== verification/MongoPool.v ===== *)
(** * The pool of MongoDB clients ([mongo_client_pool] of [wjp/mongo_client.hpp])

    A worker takes a client of the driver from libmongoc's pool, and attaches a
    [mongo_client] to it for one request. [mp_raw] are the clients of the driver
    that are out; whether libmongoc has one is up to the environment. Requests,
    events and the map of the clients are those of [DbPool]; [mstep] are the
    critical sections of the threads, in any order. *)

From S2P Require Import Prelude Lymsg Serialize DbReq.
From S2P Require DbPool DbProxy SafeQueue Effect MongoClient.

Section pool.
Context {R A : Type}.      (* requests, responses *)
Abbreviation dbreq := (DbPool.dbreq (R:=R)).
Abbreviation event := (DbPool.event (A:=A)).

(** Where a worker is in its loop. *)
Inductive phase :=
| Waiting                                  (* in [pop_timeout] *)
| Popped (r : dbreq)                       (* has a request *)
| WithRaw (r : dbreq)                      (* and a client of the driver *)
| WithClient (r : dbreq) (c : nat)         (* and a client *)
| Handled (c : nat)                        (* [handleRequest] returned *)
| Unattached (r : dbreq) (c : nat)         (* [attach] failed *)
| Unserved (r : dbreq)                     (* not handled; the driver's client is still to be given back *)
| Served                                   (* handled; likewise *)
| Unhandled (r : dbreq)                    (* not handled, nothing left to give back *)
| Exited.

Record mongo_pool := MkPool {
  mp_queue : SafeQueue.squeue dbreq;
  mp_reqId : Z;                            (* uint64_t *)
  mp_poolSize : Z;
  mp_pool : bool;                          (* _pool is not null *)
  mp_raw : nat;
  mp_clients : gmap nat bool;              (* _clt2idle *)
  mp_workers : list phase;
  mp_taken : list dbreq;                   (* in [submit], before the push *)
  mp_log : list event;
}.

Definition new_pool : mongo_pool := MkPool SafeQueue.empty_queue DbPool.MinReqId 0 false 0 ∅ [] [] [].

Definition set_queue q p := MkPool q (mp_reqId p) (mp_poolSize p) (mp_pool p) (mp_raw p) (mp_clients p) (mp_workers p) (mp_taken p) (mp_log p).
Definition set_raw n p := MkPool (mp_queue p) (mp_reqId p) (mp_poolSize p) (mp_pool p) n (mp_clients p) (mp_workers p) (mp_taken p) (mp_log p).
Definition set_clients c p := MkPool (mp_queue p) (mp_reqId p) (mp_poolSize p) (mp_pool p) (mp_raw p) c (mp_workers p) (mp_taken p) (mp_log p).
Definition set_workers w p := MkPool (mp_queue p) (mp_reqId p) (mp_poolSize p) (mp_pool p) (mp_raw p) (mp_clients p) w (mp_taken p) (mp_log p).
Definition set_taken t p := MkPool (mp_queue p) (mp_reqId p) (mp_poolSize p) (mp_pool p) (mp_raw p) (mp_clients p) (mp_workers p) t (mp_log p).
Definition logs e p := MkPool (mp_queue p) (mp_reqId p) (mp_poolSize p) (mp_pool p) (mp_raw p) (mp_clients p) (mp_workers p) (mp_taken p) (mp_log p ++ [e]).

(** [initPool]; the arguments say whether the address was understood, whether
    libmongoc made a pool, and whether it took the version of its interface. *)
Definition initPool (uri new api : bool) (poolSize : Z) (p : mongo_pool) : Z * mongo_pool :=
  let at_size b := MkPool (mp_queue p) (mp_reqId p) poolSize b (mp_raw p) (mp_clients p) (mp_workers p) (mp_taken p) (mp_log p) in
  if negb uri then (-1, at_size false)
  else if negb new then (-2, at_size false)
  else if negb api then (-3, at_size false)
  else (0, at_size true).

(** [start]: as many workers as clients, from 1 to 16. *)
Definition start (uri new api : bool) (poolSize : Z) (p : mongo_pool) : Z * mongo_pool :=
  let poolSize := Z.min (Z.max poolSize 1) 16 in
  let '(rc, p) := initPool uri new api poolSize p in
  if rc =? 0 then (0, set_workers (mp_workers p ++ replicate (Z.to_nat poolSize) Waiting) p) else (rc, p).

Definition genRequestId (p : mongo_pool) : Z * mongo_pool :=
  (mp_reqId p, MkPool (mp_queue p) (wrap 64 (mp_reqId p + 1)) (mp_poolSize p) (mp_pool p) (mp_raw p) (mp_clients p) (mp_workers p) (mp_taken p) (mp_log p)).

(** The first part of [submit]: the request has its id. *)
Definition submit_id (r : R) (p : mongo_pool) : mongo_pool :=
  let '(rc, p1) := genRequestId p in set_taken (mp_taken p1 ++ [DbPool.MkDbReq rc 0 r]) p1.

(** The second: [_queue.push] of a request that has one. *)
Definition submit_push (x : dbreq) (p : mongo_pool) : Z * mongo_pool :=
  let '(ok, q) := SafeQueue.push DbPool.MaxPendingReq (mp_queue p) x in
  if (ok : bool) then (DbPool.req_id x, logs (DbPool.Submitted (DbPool.req_id x)) (set_queue q p))
  else (DbPool.PoolIsBusy, logs (DbPool.Busy (DbPool.req_id x)) p).

(** [submit], when nothing comes between. *)
Definition submit (r : R) (p : mongo_pool) : Z * mongo_pool :=
  let '(rc, p1) := genRequestId p in submit_push (DbPool.MkDbReq rc 0 r) p1.

Definition markClientIdle (c : nat) (p : mongo_pool) : mongo_pool := set_clients (DbPool.markClientIdle c (mp_clients p)) p.

(** The answer [RESP_RC_NO_AVAIL_CLT]. *)
Definition retryFailure (r : dbreq) (p : mongo_pool) : mongo_pool := logs (DbPool.Responded (DbPool.req_id r) None) p.

(** What a worker does with a request that it did not handle: [retryFailure], or
    back to the queue. *)
Definition not_handled (r : dbreq) (p : mongo_pool) : mongo_pool :=
  if DbPool.MaxRetryTimes <=? DbPool.retry_times r then retryFailure r p
  else set_queue (SafeQueue.requeue (mp_queue p)
                    (DbPool.MkDbReq (DbPool.req_id r) (DbPool.retry_times r + 1) (DbPool.body r))) p.

(** One worker goes from a phase to the next. *)
Inductive wstep (p : mongo_pool) : phase -> phase -> mongo_pool -> Prop :=
| ws_pop rc r q : SafeQueue.pop_timeout_wake (mp_queue p) = (rc, Some r, q) -> wstep p Waiting (Popped r) (set_queue q p)
| ws_timeout q : SafeQueue.pop_timeout_wake (mp_queue p) = (SafeQueue.SQ_TIMEOUT, None, q) -> wstep p Waiting Waiting p
| ws_exit q : SafeQueue.pop_timeout_wake (mp_queue p) = (SafeQueue.SQ_EXIT, None, q) -> wstep p Waiting Exited p
(* mongoc_client_pool_try_pop *)
| ws_raw r : wstep p (Popped r) (WithRaw r) (set_raw (S (mp_raw p)) p)
| ws_no_raw r : wstep p (Popped r) (Unhandled r) p
| ws_client r c new m : DbPool.idle_client (mp_clients p) (mp_poolSize p) (Some (c, new)) m ->
    wstep p (WithRaw r) (WithClient r c) (set_clients m p)
| ws_no_client r : DbPool.idle_client (mp_clients p) (mp_poolSize p) None (mp_clients p) ->
    wstep p (WithRaw r) (Unserved r) p
| ws_handle r c a : wstep p (WithClient r c) (Handled c) (logs (DbPool.Responded (DbPool.req_id r) (Some a)) p)
| ws_unattached r c : wstep p (WithClient r c) (Unattached r c) p
| ws_served c : wstep p (Handled c) Served (markClientIdle c p)
| ws_unserved r c : wstep p (Unattached r c) (Unserved r) (markClientIdle c p)
(* mongoc_client_pool_push *)
| ws_push : wstep p Served Waiting (set_raw (pred (mp_raw p)) p)
| ws_push_unserved r : wstep p (Unserved r) (Unhandled r) (set_raw (pred (mp_raw p)) p)
| ws_retry r : wstep p (Unhandled r) Waiting (not_handled r p).

Definition all_exited (p : mongo_pool) : Prop := Forall (eq Exited) (mp_workers p).

(** [uninitPool]. *)
Definition uninitPool (p : mongo_pool) : mongo_pool := set_clients ∅ p.

Inductive mstep : mongo_pool -> mongo_pool -> Prop :=
| ms_id p r : mp_reqId p < 2 ^ 64 - 1 -> mstep p (submit_id r p)
| ms_push p t1 x t2 : mp_taken p = t1 ++ x :: t2 -> mstep p (snd (submit_push x (set_taken (t1 ++ t2) p)))
| ms_worker p p' l1 w w' l2 : mp_workers p = l1 ++ w :: l2 -> wstep p w w' p' ->
    mstep p (set_workers (l1 ++ w' :: l2) p')
| ms_stop p : mstep p (set_queue (SafeQueue.stop (mp_queue p)) p)
(* serveUtilStop, once the workers are joined *)
| ms_drain p r q : all_exited p -> SafeQueue.raw_pop (mp_queue p) = (Some r, q) ->
    mstep p (logs (DbPool.Dropped (DbPool.req_id r)) (set_queue q p))
| ms_uninit p : all_exited p -> mstep p (uninitPool p).

(** A pool after [start], whatever [start] returned. *)
Definition reachable (p : mongo_pool) : Prop :=
  exists uri new api poolSize, rtc mstep (snd (start uri new api poolSize new_pool)) p.

(** ** What the pool holds *)

Definition held (w : phase) : list dbreq :=
  match w with
  | Popped r | WithRaw r | WithClient r _ | Unattached r _ | Unserved r | Unhandled r => [r]
  | _ => []
  end.
Definition holds (w : phase) : list nat :=
  match w with WithClient _ c | Handled c | Unattached _ c => [c] | _ => [] end.
Definition raw_of (w : phase) : nat :=
  match w with WithRaw _ | WithClient _ _ | Handled _ | Unattached _ _ | Unserved _ | Served => 1 | _ => 0 end.

Definition pending (p : mongo_pool) : list dbreq := SafeQueue._queue (mp_queue p) ++ concat (map held (mp_workers p)).
Definition holders (p : mongo_pool) : list nat := concat (map holds (mp_workers p)).

(** The clients that exist are all as good as connected: the connections are the driver's. *)
Definition conn_of (m : gmap nat bool) : gmap nat bool := (fun _ => true) <$> m.

Record pool_inv (p : mongo_pool) : Prop := {
  mi_requests : DbPool.req_inv (mp_reqId p) (mp_taken p) (pending p) (mp_log p);
  mi_clients : DbPool.clients_ok (holders p) (mp_poolSize p) (mp_clients p) (conn_of (mp_clients p));
  mi_raw : mp_raw p = list_sum (map raw_of (mp_workers p));
  mi_workers : Z.of_nat (length (mp_workers p)) <= mp_poolSize p;
}.
End pool.
Arguments mongo_pool : clear implicits.

Section inv.
Context {R A : Type}.
Abbreviation dbreq := (DbPool.dbreq (R:=R)).
Abbreviation mongo_pool := (mongo_pool R A).

Lemma mongo_pending_set (p : mongo_pool) l1 w l2 :
  pending (set_workers (l1 ++ w :: l2) p) ≡ₚ (SafeQueue._queue (mp_queue p) ++ held w) ++ concat (map held (l1 ++ l2)).
Proof. unfold pending. cbn [mp_queue mp_workers set_workers]. by rewrite DbPool.concat_split, app_assoc. Qed.

Lemma mongo_holders_set (p : mongo_pool) l1 w l2 :
  holders (set_workers (l1 ++ w :: l2) p) ≡ₚ holds w ++ concat (map holds (l1 ++ l2)).
Proof. unfold holders. cbn [mp_workers set_workers]. by rewrite DbPool.concat_split. Qed.

(** What a worker's step does to the requests. *)
Lemma mongo_wstep_requests (p p' : mongo_pool) w w' :
  wstep p w w' p' -> mp_reqId p' = mp_reqId p /\ mp_taken p' = mp_taken p /\
  exists e, mp_log p' = mp_log p ++ e /\ DbPool.submitted e = [] /\ (length (DbPool.settled e) <= 1)%nat /\
  map DbPool.req_id (SafeQueue._queue (mp_queue p) ++ held w) ≡ₚ
  map DbPool.req_id (SafeQueue._queue (mp_queue p') ++ held w') ++ DbPool.settled e.
Proof.
  intros [rc r q E| | | | |r c new m _|r _|r c a|r c|c|r c| |r|r];
    try (cbn; split; [done|]; split; [done|]; exists []; rewrite !app_nil_r; split_and!; (done || cbn; lia)).
  - split; [done|]. split; [done|]. exists []. cbn. rewrite !app_nil_r. apply SafeQueue.pop_wake_spec in E as [Hq _]. rewrite <- Hq, map_app. cbn.
    split_and!; try done; [lia|]. by rewrite Permutation_app_comm.
  - split; [done|]. split; [done|]. eexists. split; [done|]. split; [done|]. split; [done|]. cbn. by rewrite app_nil_r, map_app.
  - unfold not_handled. case_if; cbn.
    + split; [done|]. split; [done|]. eexists. split; [done|]. split; [done|]. split; [done|]. cbn. by rewrite app_nil_r, map_app.
    + split; [done|]. split; [done|]. exists []. cbn. rewrite !app_nil_r, map_app. split_and!; try done; [lia|]. cbn.
      by rewrite Permutation_app_comm.
Qed.

Lemma mongo_wstep_retries (p p' : mongo_pool) w w' :
  let ok r := 0 <= DbPool.retry_times r <= DbPool.MaxRetryTimes in
  wstep p w w' p' -> Forall ok (SafeQueue._queue (mp_queue p) ++ held w) -> Forall ok (SafeQueue._queue (mp_queue p') ++ held w').
Proof.
  intros ok. rewrite !Forall_app.
  intros [rc r q E| | | | |r c new m _|r _|r c a|r c|c|r c| |r|r] [H1 H2];
    try (cbn in *; split; [done|]; first [done|by repeat constructor]).
  - apply SafeQueue.pop_wake_spec in E as [Hq _]. cbn in *. rewrite <- Hq in H1. apply Forall_cons in H1 as [? ?].
    split; [done|by constructor].
  - unfold not_handled. case_if; cbn; split; try done; try by constructor.
    constructor; [|done]. cbn in H2. apply Forall_cons in H2 as [H2 _]. unfold ok in *. bool_Z. cbn. lia.
Qed.

Lemma conn_insert (m : gmap nat bool) c b : conn_of (<[c := b]> m) = <[c := true]> (conn_of m).
Proof. unfold conn_of. by rewrite fmap_insert. Qed.

Lemma take_client hs size m c new m' :
  DbPool.clients_ok hs size m (conn_of m) -> DbPool.idle_client m size (Some (c, new)) m' ->
  DbPool.clients_ok (c :: hs) size m' (conn_of m').
Proof.
  intros Hok Hi.
  assert (m' = <[c := false]> m /\ m !! c <> Some false /\ Z.of_nat (base.size m') <= size) as (-> & Hc & Hs).
  { inversion Hi as [c' Hc E1 E2|c' _ Hs Hc E1 E2|]; subst; (split; [done|]); (split; [congruence|]).
    - rewrite map_size_insert_Some by done. apply Hok.
    - rewrite map_size_insert_None by done. lia. }
  apply (DbPool.clients_take _ _ _ (conn_of m)); try done. intros c' Hne. by rewrite conn_insert, lookup_insert_ne.
Qed.

Lemma free_client hs size m c :
  DbPool.clients_ok (c :: hs) size m (conn_of m) ->
  DbPool.clients_ok hs size (DbPool.markClientIdle c m) (conn_of (DbPool.markClientIdle c m)).
Proof.
  intros Hok. assert (m !! c = Some false) as Hm by (apply (DbPool.co_busy _ _ _ _ Hok); set_solver).
  assert (conn_of m !! c = Some true) as Hc by (unfold conn_of; by rewrite lookup_fmap, Hm).
  replace (conn_of (DbPool.markClientIdle c m)) with (conn_of m).
  - apply DbPool.clients_free; [done|]. by rewrite Hc.
  - unfold DbPool.markClientIdle. by rewrite Hm, conn_insert, insert_id.
Qed.

Lemma mongo_wstep_clients (p p' : mongo_pool) w w' others :
  wstep p w w' p' ->
  DbPool.clients_ok (holds w ++ others) (mp_poolSize p) (mp_clients p) (conn_of (mp_clients p)) ->
  mp_poolSize p' = mp_poolSize p /\
  DbPool.clients_ok (holds w' ++ others) (mp_poolSize p') (mp_clients p') (conn_of (mp_clients p')).
Proof.
  intros [rc r q E| | | | |r c new m Hi|r _|r c a|r c|c|r c| |r|r] Hok; cbn in *; try done.
  - split; [done|]. by eapply take_client.
  - split; [done|]. by apply free_client.
  - split; [done|]. by apply free_client.
  - unfold not_handled. by case_if.
Qed.

Lemma wstep_raw (p p' : mongo_pool) w w' n :
  wstep p w w' p' -> mp_raw p = (raw_of w + n)%nat -> mp_raw p' = (raw_of w' + n)%nat.
Proof.
  intros [rc r q E| | | | |r c new m Hi|r _|r c a|r c|c|r c| |r|r] Hr; cbn in *; try done; try lia.
  unfold not_handled. by case_if.
Qed.

Lemma raw_split l1 w l2 :
  list_sum (map raw_of (l1 ++ w :: l2)) = (raw_of w + list_sum (map (raw_of (R:=R)) (l1 ++ l2)))%nat.
Proof.
  change (w :: l2) with ([w] ++ l2). rewrite !map_app, !list_sum_app. cbn [map].
  change (list_sum [raw_of w]) with (raw_of w + 0)%nat. lia.
Qed.

Lemma mongo_worker_inv (p p' : mongo_pool) l1 w w' l2 :
  pool_inv p -> mp_workers p = l1 ++ w :: l2 -> wstep p w w' p' -> pool_inv (set_workers (l1 ++ w' :: l2) p').
Proof.
  intros [Hq Hc Hr Hn] Hw Hs.
  assert (p = set_workers (l1 ++ w :: l2) p) as Hp by (destruct p; cbn in *; by rewrite Hw).
  pose proof (mongo_pending_set p l1 w l2) as Hpe. rewrite <- Hp in Hpe. pose proof (mongo_holders_set p l1 w l2) as Hho. rewrite <- Hp in Hho.
  destruct (mongo_wstep_requests _ _ _ _ Hs) as (Hid & Htk & e & Hl & Hse & _ & Hre).
  apply (DbPool.clients_perm _ _ _ _ _ Hho) in Hc. destruct (mongo_wstep_clients _ _ _ _ _ Hs Hc) as [Hsize Hc']. split.
  - cbn [mp_reqId mp_log mp_taken set_workers]. rewrite Hid, Htk, Hl. eapply DbPool.req_perm; [|by rewrite mongo_pending_set].
    pose proof (DbPool.ri_retries _ _ _ _ Hq) as H5. apply Forall_app in H5 as [_ H5]. rewrite Hpe, Forall_app in H5. destruct H5 as [H5 H5'].
    eapply DbPool.req_step; [exact Hq|done| |].
    + rewrite Hpe, !(map_app _ _ (concat _)), Hre. solve_Permutation.
    + rewrite Forall_app. split; [|done]. by eapply (mongo_wstep_retries p p' w w').
  - eapply DbPool.clients_perm; [by rewrite mongo_holders_set|]. exact Hc'.
  - cbn. rewrite raw_split. eapply wstep_raw; [exact Hs|]. rewrite Hr, Hw. apply raw_split.
  - cbn. rewrite Hsize. rewrite Hw in Hn. rewrite length_app in *. cbn in *. lia.
Qed.

Lemma exited_nothing (p : mongo_pool) : all_exited p ->
  pending p = SafeQueue._queue (mp_queue p) /\ holders p = [] /\ list_sum (map raw_of (mp_workers p)) = O.
Proof.
  unfold all_exited, pending, holders. intros H. induction H as [|x l <- _ (IH1 & IH2 & IH3)]; cbn; [by rewrite app_nil_r|]. done.
Qed.

Lemma mstep_inv (p p' : mongo_pool) : pool_inv p -> mstep p p' -> pool_inv p'.
Proof.
  intros Hinv Hs. destruct Hs as [p r Hlt|p t1 x t2 Ht|p p' l1 w w' l2 Hw Hs|p|p r q He Hq|p He].
  - destruct Hinv as [Hq Hc Hr Hn]. pose proof (DbPool.ri_next _ _ _ _ Hq) as Hb. unfold DbPool.MinReqId in *.
    assert (wrap 64 (mp_reqId p + 1) = mp_reqId p + 1) as Hwr by (apply wrap_id; unfold in_uint; lia).
    unfold submit_id, genRequestId. split; [|done..]. cbn. rewrite Hwr. by apply (DbPool.req_take _ (mp_taken p) (pending p) _ r).
  - destruct Hinv as [Hq Hc Hr Hn]. rewrite Ht in Hq. unfold submit_push.
    destruct (SafeQueue.push DbPool.MaxPendingReq _ _) as [ok q] eqn:Ep. unfold SafeQueue.push in Ep. cbn [mp_queue set_taken] in Ep.
    destruct ok; case_if; simplify_eq; (split; [|done..]); cbn.
    + eapply DbPool.req_perm; [by apply DbPool.req_accept|]. unfold pending. cbn. solve_Permutation.
    + by apply DbPool.req_busy.
  - by eapply mongo_worker_inv.
  - destruct Hinv. by split.
  - destruct Hinv as [Hi Hc Hr Hn]. split; [|done..]. apply SafeQueue.raw_pop_spec in Hq as [Hq _].
    pose proof (DbPool.ri_retries _ _ _ _ Hi) as H5. apply Forall_app in H5 as [_ H5]. unfold pending in *. rewrite <- Hq in *.
    eapply DbPool.req_step; [exact Hi|done| |by apply Forall_cons in H5 as [_ ?]]. cbn. by rewrite <- Permutation_cons_append.
  - destruct (exited_nothing p He) as (_ & Hh & _). destruct Hinv as [Hi [C1 C2 C3 C4] Hr Hn]. split; try done.
    change (holders (uninitPool p)) with (holders p). rewrite Hh in *. split; try done.
    + intros c. split; [by intros ?%not_elem_of_nil|done].
    + cbn. rewrite map_size_empty. lia.
Qed.

Lemma mongo_start_inv uri new api n : pool_inv (snd (start uri new api n (new_pool (R:=R) (A:=A)))).
Proof.
  assert (forall k, concat (map held (replicate k (Waiting (R:=R)))) = [] /\ concat (map holds (replicate k (Waiting (R:=R)))) = []
    /\ list_sum (map raw_of (replicate k (Waiting (R:=R)))) = O) as Hr by (intros k; by induction k).
  destruct (Hr (Z.to_nat (Z.min (Z.max n 1) 16))) as (H1 & H2 & H3).
  assert (forall q : mongo_pool, mp_queue q = SafeQueue.empty_queue -> mp_reqId q = DbPool.MinReqId -> mp_clients q = ∅ ->
    mp_taken q = [] -> mp_log q = [] -> mp_raw q = O -> concat (map held (mp_workers q)) = [] -> concat (map holds (mp_workers q)) = [] ->
    list_sum (map raw_of (mp_workers q)) = O -> Z.of_nat (length (mp_workers q)) <= mp_poolSize q -> pool_inv q) as Hq.
  { intros q E1 E2 E3 Et E4 E5 E6 E7 E8 E9. split; unfold pending, holders; rewrite ?E1, ?E2, ?E3, ?Et, ?E4, ?E5, ?E6, ?E7, ?E8; try done.
    - split; cbn; try done; [intros id ?%not_elem_of_nil; done|apply NoDup_nil_2].
    - split; try done; [apply NoDup_nil_2|intros c; split; [by intros ?%not_elem_of_nil|done]|rewrite map_size_empty; lia]. }
  unfold start, initPool, new_pool. destruct uri, new, api; cbn; apply Hq; cbn; try done; try lia.
  rewrite length_replicate. lia.
Qed.

Lemma size_const (p p' : mongo_pool) : mstep p p' -> mp_poolSize p' = mp_poolSize p.
Proof.
  intros Hs. destruct Hs as [p r _|p t1 x t2 _|p p' l1 w w' l2 _ Hs| | |]; try done.
  - unfold submit_push. destruct (SafeQueue.push DbPool.MaxPendingReq _ _) as [[] q]; done.
  - cbn. destruct Hs; try done. cbn. unfold not_handled. by case_if.
Qed.

Lemma mongo_reachable_inv (p : mongo_pool) : reachable p -> pool_inv p /\ mp_poolSize p <= 16.
Proof.
  intros (uri & new & api & n & Hr). pose proof (mongo_start_inv uri new api n) as Hi.
  assert (mp_poolSize (snd (start uri new api n (new_pool (R:=R) (A:=A)))) <= 16) as Hn.
  { unfold start, initPool. destruct uri, new, api; cbn; lia. }
  induction Hr as [|x y z Hxy _ IH]; [done|]. apply IH; [by eapply mstep_inv|by rewrite (size_const _ _ Hxy)].
Qed.
End inv.

(** ** Properties *)

Section properties.
Context {R A : Type}.
Abbreviation dbreq := (DbPool.dbreq (R:=R)).
Abbreviation mongo_pool := (mongo_pool R A).

(** A request is answered at most once, as with the other pools, also by
    the shorter way of a worker that finds no client of the driver. *)
Theorem mongo_exactly_once (p : mongo_pool) :
  reachable p ->
  NoDup (DbPool.submitted (mp_log p)) /\
  DbPool.submitted (mp_log p) ≡ₚ map DbPool.req_id (pending p) ++ DbPool.settled (mp_log p) /\
  NoDup (DbPool.settled (mp_log p)) /\
  (all_exited p -> SafeQueue._queue (mp_queue p) = [] -> DbPool.submitted (mp_log p) ≡ₚ DbPool.settled (mp_log p)).
Proof.
  intros [[[_ _ Hn Hw _] _ _ _] _]%mongo_reachable_inv. apply NoDup_app in Hn as (_ & _ & Hn). split; [done|]. split; [done|]. split.
  - rewrite Hw in Hn. by apply NoDup_app in Hn as (_ & _ & ?).
  - intros He Hq. destruct (exited_nothing p He) as (Hp & _). by rewrite Hw, Hp, Hq.
Qed.

Lemma holders_length (l : list phase) : (length (concat (map (holds (R:=R)) l)) <= length l)%nat.
Proof. induction l as [|w l IH]; cbn; [done|]. rewrite length_app. destruct w; cbn; lia. Qed.

(** If no client is idle, there are as many as are held. *)
Lemma busy_size hs size (m : gmap nat bool) conn :
  DbPool.clients_ok hs size m conn -> (forall c, m !! c <> Some true) -> base.size m = length hs.
Proof.
  intros [Hn Hb _ _] Hi. rewrite <- size_dom. transitivity (base.size (list_to_set hs : gset nat)).
  - f_equal. apply set_eq. intros c. rewrite elem_of_dom, elem_of_list_to_set, Hb.
    destruct (m !! c) as [[]|] eqn:E; [by destruct (Hi c)|naive_solver|split; [by intros []|done]].
  - by apply size_list_to_set.
Qed.

(** A client serves one worker at a time, there are never more than 16, and the
    branches of the code for a worker that gets none are dead: it has as many
    clients as workers. The workers give back every client of the driver they take,
    before they exit. *)
Theorem mongo_pool_clients (p : mongo_pool) :
  reachable p ->
  NoDup (holders p) /\ (forall c, c ∈ holders p <-> mp_clients p !! c = Some false) /\
  Z.of_nat (base.size (mp_clients p)) <= mp_poolSize p <= 16 /\
  (forall r m, WithRaw r ∈ mp_workers p -> ~ DbPool.idle_client (mp_clients p) (mp_poolSize p) None m) /\
  mp_raw p = list_sum (map raw_of (mp_workers p)) /\ (all_exited p -> mp_raw p = O).
Proof.
  intros [[_ Hc Hr Hn] Hs]%mongo_reachable_inv. pose proof Hc as [H1 H2 H3 H4]. split_and!; try done.
  - intros r m (l1 & l2 & Hw)%list_elem_of_split Hi. inversion Hi as [| |Hno Hsz]; subst.
    rewrite (busy_size _ _ _ _ Hc Hno) in Hsz.
    assert (length (holders p) <= length (l1 ++ l2))%nat as Hl.
    { unfold holders. rewrite Hw. rewrite DbPool.concat_split. cbn. apply holders_length. }
    rewrite Hw in Hn. rewrite length_app in Hn, Hl. cbn in Hn. lia.
  - intros (_ & _ & He)%exited_nothing. by rewrite Hr.
Qed.

(** A request that was not handled goes back to the head of the queue, three
    times and no more; then it is answered [RESP_RC_NO_AVAIL_CLT]. *)
Theorem mongo_retries_bounded (p : mongo_pool) r l1 l2 :
  reachable p -> mp_workers p = l1 ++ Unhandled r :: l2 ->
  0 <= DbPool.retry_times r <= 3 /\
  if DbPool.retry_times r =? 3
  then mp_log (not_handled r p) = mp_log p ++ [DbPool.Responded (DbPool.req_id r) None] /\ mp_queue (not_handled r p) = mp_queue p
  else mp_log (not_handled r p) = mp_log p /\
       SafeQueue._queue (mp_queue (not_handled r p)) =
         DbPool.MkDbReq (DbPool.req_id r) (DbPool.retry_times r + 1) (DbPool.body r) :: SafeQueue._queue (mp_queue p).
Proof.
  intros [[[_ _ _ _ Hr] _ _ _] _]%mongo_reachable_inv Hw. apply Forall_app in Hr as [_ Hr]. unfold pending in Hr.
  rewrite Hw, DbPool.concat_split in Hr. cbn in Hr. rewrite Forall_app, Forall_cons in Hr.
  destruct Hr as (_ & Hr & _). unfold DbPool.MaxRetryTimes in Hr. split; [done|]. unfold not_handled, DbPool.MaxRetryTimes.
  destruct (Z.eqb_spec (DbPool.retry_times r) 3) as [->|Hne]; [done|]. rewrite (proj2 (Z.leb_gt _ _)) by lia. done.
Qed.

(** The view that [DbProxy] has of a pool. *)
Definition mongo_view (p : mongo_pool) : DbProxy.view -> Prop :=
  fun v => DbProxy.v_next v = mp_reqId p /\ DbProxy.v_taken v ≡ₚ map DbPool.req_id (mp_taken p) /\
    DbProxy.v_open v ≡ₚ map DbPool.req_id (pending p).

(** This pool too is what the proxies take a pool for: every step is nothing, or an
    id taken, the request of a taken id accepted or refused, or an open id settled. So
    what is proved of the proxies holds of the proxy for MongoDB. *)
Theorem mongo_pool_refines_view (p p' : mongo_pool) v :
  reachable p -> mongo_view p v -> mstep p p' -> exists v', (v' = v \/ DbProxy.vstep v v') /\ mongo_view p' v'.
Proof.
  intros Hr (Hn & Ht & Ho) Hs. pose proof (mongo_reachable_inv _ Hr) as [Hinv _]. unfold mongo_view.
  destruct Hs as [p r Hlt|p t1 x t2 Htk|p p' l1 w w' l2 Hw Hs|p|p r q He Hq|p He].
  - pose proof (DbPool.ri_next _ _ _ _ (mi_requests _ Hinv)) as Hb. unfold DbPool.MinReqId in Hb.
    assert (wrap 64 (mp_reqId p + 1) = mp_reqId p + 1) as Hwr by (apply wrap_id; unfold in_uint; lia).
    eexists. split; [right; apply DbProxy.vs_take|]. cbn. rewrite Hn, Hwr, Ht, map_app. split; [done|]. split; [|done].
    cbn. apply Permutation_cons_append.
  - rewrite Htk, map_app in Ht. cbn in Ht. rewrite <- Permutation_middle, <- map_app in Ht.
    unfold submit_push. destruct (SafeQueue.push DbPool.MaxPendingReq _ _) as [ok q] eqn:Ep.
    unfold SafeQueue.push in Ep. cbn [mp_queue set_taken] in Ep. destruct ok; case_if; simplify_eq.
    + eexists. split; [right; by apply (DbProxy.vs_push _ (DbPool.req_id x))|]. cbn. split; [done|]. split; [done|].
      rewrite Ho. unfold pending. cbn. rewrite !map_app. cbn. solve_Permutation.
    + eexists. split; [right; by apply (DbProxy.vs_busy _ (DbPool.req_id x))|]. by split.
  - destruct (mongo_wstep_requests _ _ _ _ Hs) as (Hid & Htk & e & Hl & Hse & Hlen & Hre).
    pose proof (mongo_pending_set p l1 w l2) as Hpe. rewrite <- Hw in Hpe. replace (set_workers (mp_workers p) p) with p in Hpe by by destruct p.
    rewrite Hpe, map_app, Hre in Ho.
    destruct (DbProxy.view_settle (DbPool.settled e) (map DbPool.req_id (pending (set_workers (l1 ++ w' :: l2) p'))) v Hlen)
      as (v' & Hv & Hn' & Ht' & Ho').
    { rewrite Ho, mongo_pending_set, !map_app. solve_Permutation. }
    exists v'. split; [done|]. cbn [mp_reqId mp_taken set_workers]. rewrite Hid, Htk, Hn', Ht'. by split_and!.
  - exists v. split; [by left|]. by split_and!.
  - unfold pending in *. apply SafeQueue.raw_pop_spec in Hq as [Hq _]. rewrite <- Hq in Ho. cbn in Ho.
    eexists. split; [right; by apply (DbProxy.vs_settle _ (DbPool.req_id r))|]. by split_and!.
  - exists v. split; [by left|]. by split_and!.
Qed.

(** [initPools] of the proxy takes no notice of what [start] returned. A pool that
    did not start has no workers: it accepts requests until its queue is full, and
    answers none of them. *)
Theorem unstarted_never_answers uri new api n (p : mongo_pool) r :
  fst (start uri new api n (new_pool (R:=R) (A:=A))) <> 0 -> rtc mstep (snd (start uri new api n new_pool)) p ->
  DbPool.answered (mp_log p) = [] /\ mp_workers p = [] /\
  (size_of (SafeQueue._queue (mp_queue p)) < DbPool.MaxPendingReq -> fst (submit r p) = mp_reqId p).
Proof.
  intros Hs Hr. assert (DbPool.answered (mp_log p) = [] /\ mp_workers p = []) as [Ha Hw].
  { assert (DbPool.answered (mp_log (snd (start uri new api n (new_pool (R:=R) (A:=A))))) = [] /\
      mp_workers (snd (start uri new api n (new_pool (R:=R) (A:=A)))) = []) as H0 by (unfold start, initPool in *; by destruct uri, new, api).
    induction Hr as [|x y z Hxy _ IH]; [done|]. apply IH. destruct H0 as [Ha Hw].
    destruct Hxy as [x r' _|x t1 z' t2 _|x y l1 w w' l2 Hw' _|x|x r' q _ _|x _]; try done.
    - unfold submit_push. destruct (SafeQueue.push DbPool.MaxPendingReq _ _) as [[] q]; (split; [|done]);
        unfold DbPool.answered in *; cbn; by rewrite omap_app, app_nil_r.
    - rewrite Hw in Hw'. by destruct l1.
    - split; [|done]. unfold DbPool.answered in *. cbn. by rewrite omap_app, app_nil_r. }
  split; [done|]. split; [done|]. intros Hq. unfold submit, genRequestId, submit_push, SafeQueue.push. cbn [mp_queue].
  by rewrite (proj2 (Z.ltb_lt _ _) Hq).
Qed.
End properties.

(** ** The worker and its client *)

Section worker.
Context {W B : Type} {MW : MongoClient.Mongoc W B} {HO : MongoClient.HashOrder}.
Abbreviation request := (mongo_client_req (bson:=B)).
Abbreviation client := (MongoClient.mongo_client (W:=W) (B:=B)).

(** What a worker does with its request and an idle client is a step of the pool,
    whose answer is the response of the client, and the client is idle again, for
    the next request. *)
Theorem mongo_worker_serves db_name (p : mongo_pool request (mongo_client_resp B)) r c (s s' : client) o :
  MongoClient.idle s -> MongoClient.serve db_name (DbPool.req_id r) (DbPool.body r) s = Some (o, s') ->
  MongoClient.idle s' /\
  match o with
  | Some resp => mgr_req_id resp = DbPool.req_id r /\
      wstep p (WithClient r c) (Handled c) (logs (DbPool.Responded (DbPool.req_id r) (Some resp)) p)
  | None => wstep p (WithClient r c) (Unattached r c) p
  end.
Proof.
  intros Hi E. destruct (MongoClient.serve_did _ _ _ _ Hi _ _ E) as (l & _ & _ & Hi' & Ho). split; [done|].
  destruct o as [resp|]; [|constructor]. destruct Ho as [-> _]. split; [done|constructor].
Qed.
End worker.

(** ** Witnesses: one worker *)

Abbreviation demo := (mongo_pool nat nat).

Definition demo_start : demo := snd (start true true true 1 new_pool).
Definition demo_submitted : demo := snd (submit 7%nat demo_start).
Definition demo_req : DbPool.dbreq := DbPool.MkDbReq 100 0 7%nat.
Definition demo_popped : demo := set_workers [Popped demo_req] (set_queue SafeQueue.empty_queue demo_submitted).
Definition demo_raw : demo := set_workers [WithRaw demo_req] (set_raw 1 demo_popped).
Definition demo_unhandled : demo := set_workers [Unhandled demo_req] demo_popped.

Lemma mongo_submitted_reachable : reachable demo_submitted.
Proof.
  exists true, true, true, 1. eapply rtc_l; [apply (ms_id demo_start 7%nat); reflexivity|]. apply rtc_once.
  exact (ms_push (submit_id 7%nat demo_start) [] (DbPool.MkDbReq 100 0 7%nat) [] eq_refl).
Qed.

Lemma demo_popped_reachable : reachable demo_popped.
Proof.
  destruct mongo_submitted_reachable as (u & n & a & k & Hr). exists u, n, a, k. eapply rtc_r; [exact Hr|].
  exact (ms_worker demo_submitted _ [] _ _ [] eq_refl (ws_pop demo_submitted SafeQueue.SQ_POP_SUCCESS demo_req SafeQueue.empty_queue eq_refl)).
Qed.

Lemma demo_raw_reachable : reachable demo_raw.
Proof.
  destruct demo_popped_reachable as (u & n & a & k & Hr). exists u, n, a, k. eapply rtc_r; [exact Hr|].
  exact (ms_worker demo_popped _ [] _ _ [] eq_refl (ws_raw demo_popped demo_req)).
Qed.

Lemma demo_unhandled_reachable : reachable demo_unhandled.
Proof.
  destruct demo_popped_reachable as (u & n & a & k & Hr). exists u, n, a, k. eapply rtc_r; [exact Hr|].
  exact (ms_worker demo_popped _ [] _ _ [] eq_refl (ws_no_raw demo_popped demo_req)).
Qed.

Lemma mongo_exactly_once_witness :
  NoDup (DbPool.settled (mp_log demo_raw)) /\
  DbPool.submitted (mp_log demo_raw) ≡ₚ map DbPool.req_id (pending demo_raw) ++ DbPool.settled (mp_log demo_raw).
Proof. destruct (mongo_exactly_once demo_raw demo_raw_reachable) as (_ & Hw & Hn & _). by split. Defined.

Lemma mongo_pool_clients_witness : ~ DbPool.idle_client (mp_clients demo_raw) (mp_poolSize demo_raw) None (mp_clients demo_raw).
Proof.
  destruct (mongo_pool_clients demo_raw demo_raw_reachable) as (_ & _ & _ & H & _).
  apply (H demo_req). apply list_elem_of_singleton. reflexivity.
Defined.

Lemma mongo_retries_bounded_witness :
  SafeQueue._queue (mp_queue (not_handled demo_req demo_unhandled)) = [DbPool.MkDbReq 100 1 7%nat].
Proof. apply (mongo_retries_bounded demo_unhandled demo_req [] [] demo_unhandled_reachable eq_refl). Defined.

Lemma mongo_pool_refines_view_witness : exists v',
  (v' = DbProxy.MkView 101 [] [100] \/ DbProxy.vstep (DbProxy.MkView 101 [] [100]) v') /\ mongo_view demo_raw v'.
Proof.
  apply (mongo_pool_refines_view demo_popped demo_raw (DbProxy.MkView 101 [] [100]) demo_popped_reachable); [by split_and!|].
  exact (ms_worker demo_popped _ [] _ _ [] eq_refl (ws_raw demo_popped demo_req)).
Defined.

Definition demo_failed : demo := snd (start false true true 1 new_pool).

Lemma unstarted_never_answers_witness : fst (submit 7%nat demo_failed) = 100.
Proof.
  destruct (unstarted_never_answers false true true 1 demo_failed 7%nat) as (_ & _ & H); [done|apply rtc_refl|].
  by apply H.
Defined.

#[local] Existing Instances MongoClient.toy_mongoc MongoClient.toy_order.

Lemma mongo_worker_serves_witness :
  let r := DbPool.MkDbReq 100 0 MongoClient.transaction in
  let p : mongo_pool _ (mongo_client_resp Z) := set_workers [WithClient r 0%nat] new_pool in
  exists resp, mgr_req_id resp = 100 /\
    wstep p (WithClient r 0%nat) (Handled 0%nat) (logs (DbPool.Responded 100 (Some resp)) p).
Proof.
  intros r p.
  destruct (MongoClient.serve [x64] 100 MongoClient.transaction (MongoClient.toy_client 1)) as [[[resp|] s']|] eqn:E;
    [|vm_compute in E; done..].
  exists resp. destruct (mongo_worker_serves [x64] p r 0%nat (MongoClient.toy_client 1) s' (Some resp) (MongoClient.idle_toy 1) E) as (_ & Hid & Hs).
  by split.
Defined.
