(* ===== verification/MongoPrefs.v ===== *)
(** * Methods of [mongo_client] that the pool does not call
      ([wjp/mongo_client.hpp])

    The steps of a bulk operation by themselves, [commandSimple], the transaction
    that the driver runs, and read preferences. The calls of libmongoc they add
    to [MongoClient.Mongoc] are the class [MongocMore]. *)

From S2P Require Import Prelude Text Serialize DbReq Effect MongoClient.
#[local] Open Scope effect_scope.

Definition MONGOC_NO_MAX_STALENESS : Z := -1.
Definition MONGOC_SMALLEST_MAX_STALENESS_SECONDS : Z := 90.

Class MongocMore (W B : Type) := {
  mongoc_client_command_simple : W -> Z -> B -> bool * W;
  (* the driver runs the call-back, and repeats it, commits and aborts by itself *)
  mongoc_client_session_with_transaction : W -> Z -> bool * W;
  mongoc_read_prefs_new : W -> Z -> Z * W;
  mongoc_read_prefs_set_tags : W -> Z -> B -> W;
  mongoc_read_prefs_set_max_staleness_seconds : W -> Z -> Z -> W;
  mongoc_database_set_read_prefs : W -> Z -> Z -> W;
  mongoc_collection_set_read_prefs : W -> Z -> Z -> W;
  mongoc_read_prefs_destroy : W -> Z -> W;
}.

Section methods.
Context {W B : Type} {MW : Mongoc W B} {MM : MongocMore W B} {HO : HashOrder}.
Abbreviation client := (mongo_client (W := W) (B := B)).
Abbreviation M := (eff client).

(** ** Bulk operations *)

Definition createBulk (collName : bytes) (opts : option B) : M (option Z) :=
  let* c := getCollection collName in
  call (fun w => mongoc_collection_create_bulk_operation_with_opts w c opts) (fun b => [GBulk c opts b]).

Definition bulkExecute_ (bulk : Z) : M Z :=
  let* ok := call (fun w => mongoc_bulk_operation_execute w bulk) (fun ok => [GExecute bulk ok]) in ret (rc_of ok).

(** The pointer afterwards. *)
Definition destroyBulk (bulk : option Z) : M (option Z) :=
  match bulk with
  | Some b => effect (fun w => mongoc_bulk_operation_destroy w b) [GClose b] ;; ret None
  | None => ret None
  end.

(** ** Commands and transactions *)

Definition commandSimple (cmd : B) : M Z :=
  let* d := database in let* ok := call (fun w => mongoc_client_command_simple w d cmd) (fun ok => [GCommand d cmd None ok]) in ret (rc_of ok).

Definition execTransaction_cb : M Z :=
  let* session := call mongoc_client_start_session (fun s => GOpen <$> option_list s) in
  match session with
  | None => ret (-1)
  | Some session =>
      let* exec_success := call (fun w => mongoc_client_session_with_transaction w session) (fun _ => []) in
      let rc := if (exec_success : bool) then 0 else -2 in
      effect (fun w => mongoc_client_session_destroy w session) [GClose session] ;; ret rc
  end.

(** ** Read preferences *)

Definition staleness_set (max_staleness_seconds : Z) : bool :=
  (max_staleness_seconds =? MONGOC_NO_MAX_STALENESS) || (MONGOC_SMALLEST_MAX_STALENESS_SECONDS <=? max_staleness_seconds).

(** What both functions do with new preferences, before they are used. *)
Definition fill_prefs (prefs : Z) (tags : option B) (max_staleness_seconds : Z) : M unit :=
  match tags with Some t => effect (fun w => mongoc_read_prefs_set_tags w prefs t) [] | None => ret tt end ;;
  if staleness_set max_staleness_seconds
  then effect (fun w => mongoc_read_prefs_set_max_staleness_seconds w prefs max_staleness_seconds) [] else ret tt.

Definition setDBReadPrefs (mode : Z) (tags : option B) (max_staleness_seconds : Z) : M unit :=
  let* prefs := call (fun w => mongoc_read_prefs_new w mode) (fun h => [GOpen h]) in
  fill_prefs prefs tags max_staleness_seconds ;;
  let* d := database in
  effect (fun w => mongoc_database_set_read_prefs w d prefs) [] ;;
  effect (fun w => mongoc_read_prefs_destroy w prefs) [GClose prefs].

Definition setCollReadPrefs (collName : bytes) (mode : Z) (tags : option B) (max_staleness_seconds : Z) : M unit :=
  let* coll := getCollection collName in
  let* prefs := call (fun w => mongoc_read_prefs_new w mode) (fun h => [GOpen h]) in
  fill_prefs prefs tags max_staleness_seconds ;;
  effect (fun w => mongoc_collection_set_read_prefs w coll prefs) [] ;;
  effect (fun w => mongoc_read_prefs_destroy w prefs) [GClose prefs].

(** ** Theorems *)

(** The pool's bulk operation is made of the methods. *)
Theorem pool_bulk_methods (req : mongo_client_req (bson := B)) (s : client) :
  bulkExecute req s =
  bind (createBulk (mg_collName (fst req)) (mg_opts (fst req))) (fun bulk =>
    match bulk with
    | None => ret DbPool.RESP_RC_PARAM_INVALID
    | Some b =>
        bind (bulk_loop b (snd req)) (fun rc => bind (if rc =? 0 then bulkExecute_ b else ret rc) (fun rc =>
          bind (destroyBulk (Some b)) (fun _ => ret rc)))
    end) s.
Proof.
  unfold bulkExecute, createBulk, bind. destruct (getCollection _ s) as [[c s1]|]; [|done].
  unfold call. destruct (mongoc_collection_create_bulk_operation_with_opts _ c _) as [[b|] w]; [|done].
  destruct (bulk_loop b (snd req) _) as [[rc s2]|]; [|done]. unfold destroyBulk, bulkExecute_, effect, bind, call.
  destruct (rc =? 0); [|done]. by destruct (mongoc_bulk_operation_execute _ b) as [ok w2].
Qed.

(** A second [destroyBulk] of the same pointer does nothing. *)
Lemma destroy_once bulk (s : client) : spec (destroyBulk bulk) s (fun b s1 => b = None /\ destroyBulk b s1 = Some (None, s1)).
Proof. destruct bulk as [b|]; [|by apply spec_ret]. apply spec_bind. intros ? s1 _. by apply spec_ret. Qed.

(** The session is always ended; the result is 0 exactly if the driver says the
    transaction succeeded. *)
Theorem execTransaction_cb_closes (s : client) :
  spec execTransaction_cb s (fun rc s' => moved [] [] [] s s' /\ -2 <= rc <= 0).
Proof.
  apply spec_bind. eapply spec_mono; [apply (spec_mcall _ _ s [] (fun o => option_list o)); by intros [h|]|].
  intros [h|] s1 (H1 & _); [|apply spec_ret; split; [exact H1|lia]].
  apply spec_bind. eapply spec_mono; [by apply spec_act|]. intros ok s2 H2. apply spec_bind.
  eapply spec_mono; [apply (spec_mcall _ _ s2 [h] (fun _ => [])); by intros []|]. intros ? s3 (H3 & _). apply spec_ret.
  split; [|destruct ok; lia]. exact (moved_bracket _ _ _ _ _ _ _ H1 H2 H3).
Qed.

Lemma fill_prefs_did prefs tags max (s : client) :
  spec (fill_prefs prefs tags max) s (fun _ s' => moved [] [] [] s s' /\ mo_database s' = mo_database s).
Proof.
  apply spec_bind. eapply (spec_mono _ _ (fun _ s' => moved [] [] [] s s' /\ mo_database s' = mo_database s)).
  { destruct tags as [t|]; [|apply spec_ret; split; [apply moved_refl|done]].
    eapply spec_mono; [apply (spec_mcall _ _ s [] (fun _ => [])); done|]. by intros ? s1 (H & E & _). }
  intros ? s1 [H1 E1]. case_if; [|by apply spec_ret].
  eapply spec_mono; [apply (spec_mcall _ _ s1 [] (fun _ => [])); done|]. intros ? s2 (H2 & E2 & _).
  split; [by eapply moved_quiet|congruence].
Qed.

(** Read preferences that were created are destroyed, and nothing else is
    opened; a limit below the smallest is not passed on, and nobody is told. *)
Theorem setDBReadPrefs_closes mode tags max (s : client) :
  spec (setDBReadPrefs mode tags max) s (fun _ s' => moved [] [] [] s s') /\
  (0 <= max < MONGOC_SMALLEST_MAX_STALENESS_SECONDS -> staleness_set max = false /\
    setDBReadPrefs mode tags max s = setDBReadPrefs mode tags 0 s).
Proof.
  split.
  - apply spec_bind. eapply spec_mono; [apply (spec_mcall _ _ s [] (fun h => [h])); done|]. intros h s1 (H1 & _).
    apply spec_bind. eapply spec_mono; [apply fill_prefs_did|]. intros ? s2 [H2 _].
    apply spec_bind, spec_bind, spec_gets, spec_of_option. intros d _. apply spec_bind.
    eapply spec_mono; [by apply spec_act|]. intros ? s3 H3. eapply spec_mono; [apply (spec_mcall _ _ s3 [h] (fun _ => [])); done|].
    intros ? s4 (H4 & _). eapply (moved_bracket _ [] []); [exact H1| |exact H4]. by eapply moved_quiet.
  - unfold MONGOC_SMALLEST_MAX_STALENESS_SECONDS. intros Hm.
    assert (forall m, 0 <= m < 90 -> staleness_set m = false) as Hs.
    { intros m ?. unfold staleness_set, MONGOC_NO_MAX_STALENESS, MONGOC_SMALLEST_MAX_STALENESS_SECONDS. lia. }
    split; [by apply Hs|]. unfold setDBReadPrefs, fill_prefs. by rewrite !Hs by lia.
Qed.

Theorem setCollReadPrefs_closes collName mode tags max (s : client) :
  spec (setCollReadPrefs collName mode tags max) s (fun _ s' => moved [] [] [] s s').
Proof.
  apply spec_bind. eapply spec_mono; [apply getCollection_did|]. intros c s0 [H0 _].
  apply spec_bind. eapply spec_mono; [apply (spec_mcall _ _ s0 [] (fun h => [h])); done|]. intros h s1 (H1 & _).
  apply spec_bind. eapply spec_mono; [apply fill_prefs_did|]. intros ? s2 [H2 _]. apply spec_bind.
  eapply spec_mono; [by apply spec_act|]. intros ? s3 H3. eapply spec_mono; [apply (spec_mcall _ _ s3 [h] (fun _ => [])); done|].
  intros ? s4 (H4 & _). eapply moved_quiet; [exact H0|]. eapply (moved_bracket _ [] []); [exact H1| |exact H4]. by eapply moved_quiet.
Qed.
End methods.
