(* ===== verification/DbClient.v ===== *)
(** * The clients of the database proxies ([lygc/dbclient_mysql.hpp],
      [dbclient_redis.hpp], [dbclient_mongo.hpp])

    The three classes are one program over the type of the messages and their
    serialization ([DbMessages]): a request of [NetClient] whose handler reads
    the response first. Composed here with the proxies: what the pool answers
    is what the caller's handler is given ([database_call]). *)

From S2P Require Import Prelude Lymsg Shards Serialize DbReq NetServer.
From S2P Require DbPool DbProxy.

(** ** The client *)

(** What one kind of database sends and answers. *)
Class DbMessages (Req Resp : Type) := {
  db_type : Z;
  req_serialize : Req -> bytes;
  resp_serialize : Resp -> bytes;
  resp_deserialize : bytes -> Resp;
  (* on the side of the proxy *)
  slot_of : bytes -> Z;
  db_slot : Req -> Z;
  req_ok : Req -> Prop;
  resp_ok : Resp -> Prop;
  type_range : in_uint 32 db_type;
  slot_read r : req_ok r -> slot_of (req_serialize r) = db_slot r;
  resp_read r : resp_ok r -> resp_deserialize (resp_serialize r) = r;
}.

Section client.
Context {Req Resp : Type} {DM : DbMessages Req Resp}.
Context {K P : Type} (post : P -> bytes -> Z * P).

(** [request(h, req, cb)]; the header is an in-out argument. *)
Definition request (h : lymsg_header) (req : Req) (cb : K) (c : net_client (K:=K)) (p : P) :=
  let h := MkHeader (origin h) (reserve h) db_type (serial h) (hsize h) in
  NetServer.request post (Some h) (req_serialize req) (Some cb) c p.

(** The handler that [request] leaves with the client: it reads the response
    and calls [cb]. *)
Definition raw (cl : call (K:=K)) : option (K * lymsg_header * Resp) :=
  match cl with
  | CallHandler cb rh rd => Some (cb, rh, resp_deserialize rd)
  | _ => None
  end.
End client.

(** ** The ids of the pools at a proxy *)

Section ids.
Context {S : Type} `{PL : PendStoreLaws S DbProxy.PenddingReq}.
Abbreviation proxy := (DbProxy.proxy (S:=S)).

(** The pool of the slot has given this id out. *)
Definition given (p : proxy) (slot id : Z) : Prop :=
  exists v, DbProxy.px_views p !! slot = Some v /\ id < DbProxy.v_next v.

Record ids_inv (p : proxy) : Prop := {
  ii_pushing : forall x, x ∈ DbProxy.px_pushing p -> given p (DbProxy.sv_slot x) (DbProxy.sv_id x);
  ii_saving : forall x, x ∈ DbProxy.px_saving p -> given p (DbProxy.sv_slot x) (DbProxy.sv_id x);
  ii_find : forall slot id req, DbProxy.px_find p slot id = Some req -> given p slot id;
}.

Lemma given_insert (p : proxy) slot v v' slot' id :
  DbProxy.px_views p !! slot = Some v -> DbProxy.v_next v <= DbProxy.v_next v' -> given p slot' id ->
  exists w, <[slot := v']> (DbProxy.px_views p) !! slot' = Some w /\ id < DbProxy.v_next w.
Proof.
  intros Hv Hle (w & Hw & Hlt). rewrite lookup_insert. case_decide as Hd; [|by exists w]. subst slot'.
  rewrite Hv in Hw. injection Hw as <-. exists v'. split; [done|lia].
Qed.

(** A step that moves a view on and forgets at most; the threads that push or save
    have an id of that pool, or did so before. *)
Lemma ids_view (p p' : proxy) slot v v' :
  ids_inv p -> DbProxy.px_views p !! slot = Some v -> DbProxy.v_next v <= DbProxy.v_next v' ->
  DbProxy.px_views p' = <[slot := v']> (DbProxy.px_views p) ->
  (forall x, x ∈ DbProxy.px_pushing p' ++ DbProxy.px_saving p' ->
    x ∈ DbProxy.px_pushing p ++ DbProxy.px_saving p \/ DbProxy.sv_slot x = slot /\ DbProxy.sv_id x < DbProxy.v_next v') ->
  (forall s id req, DbProxy.px_find p' s id = Some req -> DbProxy.px_find p s id = Some req) -> ids_inv p'.
Proof.
  intros [Hp Hs Hf] Hv Hle Hviews Hsav Hfind.
  assert (forall x, x ∈ DbProxy.px_pushing p' ++ DbProxy.px_saving p' -> given p' (DbProxy.sv_slot x) (DbProxy.sv_id x)) as Hg.
  { intros x Hx. unfold given. rewrite Hviews. apply Hsav in Hx as [[Hx|Hx]%elem_of_app|[<- Hlt]].
    - apply Hp in Hx. by eapply given_insert.
    - apply Hs in Hx. by eapply given_insert.
    - exists v'. by rewrite lookup_insert_eq. }
  split.
  - intros x Hx. apply Hg, elem_of_app. by left.
  - intros x Hx. apply Hg, elem_of_app. by right.
  - intros s id req Hx%Hfind%Hf. unfold given. rewrite Hviews. by eapply given_insert.
Qed.

Lemma ids_forget (p p' : proxy) :
  ids_inv p -> DbProxy.px_views p' = DbProxy.px_views p -> DbProxy.px_pushing p' = DbProxy.px_pushing p ->
  (forall x, x ∈ DbProxy.px_saving p' -> x ∈ DbProxy.px_saving p) ->
  (forall s id req, DbProxy.px_find p' s id = Some req -> DbProxy.px_find p s id = Some req) -> ids_inv p'.
Proof.
  intros [Hp Hs Hf] Hv Hpu Hsav Hfind. split; unfold given; rewrite ?Hv, ?Hpu;
    [exact Hp|intros x Hx%Hsav; by apply Hs|intros s id req Hx%Hfind; by eapply Hf].
Qed.

(** [onResponseBase] and what it leaves alone. *)
Lemma response_keeps id data slot (p : proxy) :
  DbProxy.px_inv p ->
  let p' := DbProxy.onResponseBase id data slot p in
  DbProxy.px_views p' = DbProxy.px_views p /\ DbProxy.px_pushing p' = DbProxy.px_pushing p /\
  DbProxy.px_saving p' = DbProxy.px_saving p /\
  (forall s i req, DbProxy.px_find p' s i = Some req -> DbProxy.px_find p s i = Some req).
Proof.
  intros Hinv p'. unfold p', DbProxy.onResponseBase. case_if; [done|].
  destruct (DbProxy.px_ctx p !! slot) as [st|] eqn:Es; [|done].
  pose proof (DbProxy.px_ok p Hinv _ _ Es) as Hok. pose proof (fun i => find_take st id i Hok) as Hft.
  destruct (ps_take st id) as [found st'] eqn:Et. cbn [snd] in Hft.
  assert (forall s i req, DbProxy.px_find (DbProxy.set_ctx (<[slot:=st']> (DbProxy.px_ctx p)) p) s i = Some req ->
    DbProxy.px_find p s i = Some req) as Hsub.
  { intros s i req. rewrite DbProxy.find_set. case_decide; [|done]. subst s. rewrite Hft. case_decide; [done|].
    unfold DbProxy.px_find. by rewrite Es. }
  destruct found as [req|]; [case_bool_decide|]; done.
Qed.

Lemma save_find id req slot (p : proxy) s i r :
  DbProxy.px_inv p -> DbProxy.px_find (DbProxy.savePenddingReq id req slot p) s i = Some r ->
  DbProxy.px_find p s i = Some r \/ (s = slot /\ i = id).
Proof.
  intros Hinv. unfold DbProxy.savePenddingReq. case_if; [by left|].
  destruct (DbProxy.px_ctx p !! slot) as [st|] eqn:Es; [|by left]. intros Hf.
  change (DbProxy.px_find (DbProxy.set_ctx (<[slot:=ps_insert st id req]> (DbProxy.px_ctx p)) p) s i = Some r) in Hf.
  rewrite DbProxy.find_set in Hf. case_decide; [subst s|by left].
  rewrite find_insert in Hf by (by apply (DbProxy.px_ok p Hinv slot)). case_decide; [by right|]. left. unfold DbProxy.px_find. by rewrite Es.
Qed.

Lemma save_keeps id req slot (p : proxy) :
  DbProxy.px_views (DbProxy.savePenddingReq id req slot p) = DbProxy.px_views p /\
  DbProxy.px_pushing (DbProxy.savePenddingReq id req slot p) = DbProxy.px_pushing p /\
  DbProxy.px_saving (DbProxy.savePenddingReq id req slot p) = DbProxy.px_saving p.
Proof. unfold DbProxy.savePenddingReq. case_if; [done|]. by destruct (DbProxy.px_ctx p !! slot). Qed.

Lemma ids_step (p p' : proxy) : DbProxy.px_inv p -> ids_inv p -> DbProxy.pxstep p p' -> ids_inv p'.
Proof.
  intros Hinv Hi Hs. destruct Hs as [p ty slot_of user msg _|p s1 x s2 full Hp|p s1 x s2 Hsv|p slot v id o data Hv Ho|p slot v id o Hv Ho|
    p user _|p user slot s id req Hu Es Hf Hg|p user _|p user|p].
  - unfold DbProxy.onRecvMsg_begin. destruct (DbProxy.received ty slot_of user msg) as [[slot req]|]; [|done].
    unfold DbProxy.submit_begin, DbProxy.submit_id. repeat case_if; try done.
    destruct (DbProxy.px_views p !! slot) as [v|] eqn:Hv; [|done].
    eapply (ids_view p); [exact Hi|exact Hv| |reflexivity| |done]; [cbn; lia|].
    intros x. cbn. rewrite elem_of_cons. intros [->|Hx]; [|by left]. right. cbn. split; [done|lia].
  - assert (x ∈ DbProxy.px_pushing p) as Hx by (rewrite Hp; set_solver). destruct (DbProxy.px_taken p Hinv x Hx) as (v & Hv & Hin).
    rewrite (DbProxy.push_view full x (DbProxy.set_pushing (s1 ++ s2) p) v Hv).
    destruct full; (eapply (ids_view p); [exact Hi|exact Hv| |reflexivity| |done]; [cbn; lia|]);
      intros y Hy; left; rewrite Hp; cbn in Hy; set_solver.
  - destruct (save_keeps (DbProxy.sv_id x) (DbProxy.sv_req x) (DbProxy.sv_slot x) (DbProxy.set_saving (s1 ++ s2) p)) as (Hv & Hpu & Hsav).
    destruct Hi as [Hp Hs Hf]. split; unfold given; rewrite ?Hv, ?Hpu; cbn; [exact Hp| |].
    + intros y. rewrite Hsav. cbn. intros Hy. apply Hs. rewrite Hsv. set_solver.
    + intros s i r Hx. assert (DbProxy.px_inv (DbProxy.set_saving (s1 ++ s2) p)) as Hi' by (by destruct Hinv).
      destruct (save_find _ _ _ _ _ _ _ Hi' Hx) as [Hx'|[-> ->]]; [by eapply (Hf s i r)|]. apply Hs. rewrite Hsv. set_solver.
  - destruct (DbProxy.px_settle_inv p slot v id o Hinv Hv Ho) as (Hi' & _ & _).
    destruct (response_keeps id data slot _ Hi') as (Hv' & Hp' & Hs' & Hf').
    eapply (ids_view p); [exact Hi|exact Hv| |exact Hv'| |]; [done|rewrite Hs', Hp'; by left|done].
  - eapply (ids_view p); [exact Hi|exact Hv| |reflexivity| |done]; [done|by left].
  - apply (ids_forget p); [done..|]. intros s i req. unfold DbProxy.onDisconnect, DbProxy.cleanupUserPending.
    rewrite DbProxy.sweep_find by done. destruct (DbProxy.px_find p s i); [|done]. cbn. by case_if.
  - apply (ids_forget p); try done; try (unfold DbProxy.swept; by rewrite Es).
    intros s' i r. rewrite (DbProxy.swept_find p slot s id s' i Hinv Es). by case_decide.
  - by apply (ids_forget p).
  - by apply (ids_forget p).
  - by apply (ids_forget p).
Qed.

Lemma started_ids origin slots : ids_inv (DbProxy.started (S:=S) origin slots).
Proof.
  assert (DbProxy.px_pushing (DbProxy.started (S:=S) origin slots) = [] /\ DbProxy.px_saving (DbProxy.started (S:=S) origin slots) = [] /\
    forall s i, DbProxy.px_find (DbProxy.started (S:=S) origin slots) s i = None) as (Hp & Hs & Hf).
  { induction slots as [|slot slots (IH0 & IH1 & IH2)]; [done|]. cbn. fold (DbProxy.started (S:=S) origin slots).
    unfold DbProxy.initPool, DbProxy.registerPoolCtx. destruct (DbProxy.MAX_DB_SLOTS <=? slot); [done|]. cbn. split; [done|]. split; [done|].
    intros s i. unfold DbProxy.px_find. cbn. rewrite lookup_insert. case_decide; [cbn; apply find_new|apply IH2]. }
  split; [rewrite Hp; by intros x ?%not_elem_of_nil|rewrite Hs; by intros x ?%not_elem_of_nil|]. intros s i r. by rewrite Hf.
Qed.

Lemma reachable_ids (p : proxy) : DbProxy.px_reachable p -> ids_inv p.
Proof.
  intros (origin & slots & _ & Hr). pose proof (DbProxy.started_inv (S:=S) origin slots) as Hi.
  pose proof (started_ids origin slots) as Hids. induction Hr as [|x y z Hxy _ IH]; [done|].
  apply IH; [by eapply DbProxy.pxstep_inv|by eapply ids_step].
Qed.

(** The next id of a pool is new to the proxy. *)
Lemma next_unused (p : proxy) slot v :
  DbProxy.px_reachable p -> DbProxy.px_views p !! slot = Some v -> DbProxy.px_find p slot (DbProxy.v_next v) = None.
Proof.
  intros Hi%reachable_ids Hv. destruct (DbProxy.px_find _ _ _) as [r|] eqn:E; [|done].
  apply (ii_find _ Hi) in E as (w & Hw & Hlt). rewrite Hv in Hw. injection Hw as <-. lia.
Qed.

Lemma origin_const (p p' : proxy) : rtc DbProxy.pxstep p p' -> DbProxy.px_origin p' = DbProxy.px_origin p.
Proof.
  intros Hr. induction Hr as [|x y z Hxy _ IH]; [done|]. rewrite IH. clear IH.
  destruct Hxy as [p ty slot_of user msg _|p s1 x s2 full Hp|p s1 x s2 Hsv|p slot v id o data Hv Ho|p slot v id o Hv Ho|
    p user _|p user slot s id req Hu Es Hf Hg|p user _|p user|p]; try done; try (unfold DbProxy.swept; by rewrite Es).
  - unfold DbProxy.onRecvMsg_begin. destruct (DbProxy.received ty slot_of user msg) as [[slot req]|]; [|done].
    unfold DbProxy.submit_begin, DbProxy.submit_id. repeat case_if; try done. by destruct (DbProxy.px_views p !! slot).
  - unfold DbProxy.submit_push. destruct (DbProxy.px_views _ !! _); [|done]. by destruct full.
  - unfold DbProxy.savePenddingReq. case_if; [done|]. by destruct (DbProxy.px_ctx _ !! _).
  - unfold DbProxy.onResponseBase. case_if; [done|]. destruct (DbProxy.px_ctx _ !! _) as [st|]; [|done].
    destruct (ps_take st id) as [[req|] st']; [case_bool_decide|]; done.
Qed.
End ids.

(** ** A call, end to end *)

Section end_to_end.
Context {Req Resp : Type} {DM : DbMessages Req Resp}.
Context {K P : Type} (post : P -> bytes -> Z * P).
Context {S : Type} `{PL : PendStoreLaws S DbProxy.PenddingReq}.
Abbreviation proxy := (DbProxy.proxy (S:=S)).

(** C18: a call to a database. A request that is sent under a serial not in use and
    received by the proxy, for a slot that has a pool which is not full, is given
    to the pool under its next id and kept with its connection. Whenever the pool
    then answers that id, whatever happened in between, and the connection is still
    there, exactly that handler is called, once, with exactly the pool's response. *)
Theorem database_call (h : lymsg_header) (req : Req) (resp : Resp) (k : K) (c : net_client (K:=K)) (x x1 : P)
    (p p3 : proxy) user v :
  let h1 := MkHeader (nc_origin c) (reserve h) db_type (serial h) (hsize h) in
  let msg := packMsg h1 (req_serialize req) in
  let slot := db_slot req in
  let id := DbProxy.v_next v in
  header_ok h1 -> req_ok req -> resp_ok resp ->
  size_of (req_serialize req) < 2 ^ 32 -> size_of (resp_serialize resp) < 2 ^ 32 -> in_uint 16 (DbProxy.px_origin p) ->
  nc_handlers c !! serial h = None -> post x msg = (0, x1) ->
  DbProxy.px_reachable p -> user ∈ DbProxy.px_alive p -> slot < DbProxy.MAX_DB_SLOTS ->
  slot ∈ DbProxy.px_slots p -> DbProxy.px_views p !! slot = Some v -> DbProxy.px_ctx p !! slot <> None ->
  let '(rc, _, c1, _) := request post h req k c x in
  let p1 := DbProxy.onRecvMsg db_type slot_of false user msg p in
  rc = 0 /\ exists pend,
  DbProxy.px_saving p1 = DbProxy.MkSaving id slot pend :: DbProxy.px_saving p /\
  (let p2 := DbProxy.savePenddingReq id pend slot (DbProxy.set_saving (DbProxy.px_saving p) p1) in
   DbProxy.px_find p2 slot id = Some pend /\
   (rtc DbProxy.pxstep p2 p3 -> DbProxy.px_find p3 slot id = Some pend -> user ∈ DbProxy.px_alive p3 ->
    exists reply ch,
      DbProxy.px_log (DbProxy.onResponseBase id (resp_serialize resp) slot p3) =
        DbProxy.px_log p3 ++ [DbProxy.Answered slot id user reply] /\
      raw (fst (onResponse reply c1)) = Some (k, ch, resp) /\ snd (onResponse reply c1) = c /\ serial ch = serial h)).
Proof.
  intros h1 msg slot id Hh Hreq Hresp Hs Hs' Ho Hfree Hpost Hr Hu Hlt Hslot Hv Hctx. unfold request, NetServer.request.
  fold h1. cbn [nc_origin reserve htype serial hsize origin]. fold h1.
  replace (post x (packMsg h1 (req_serialize req))) with (0, x1) by done. rewrite Hfree. cbn iota beta. change (0 =? 0) with true. cbn iota.
  cbn zeta. split; [done|]. pose proof (unpack_pack h1 (req_serialize req) Hh Hs) as Hup. fold msg in Hup.
  set (rh := set_serial _ _) in *. set (pend := DbProxy.MkPend user rh).
  destruct (DbProxy.submit_run slot pend p v Hlt Hslot Hv) as (w & _ & Hsub). fold id in Hsub.
  assert (DbProxy.onRecvMsg db_type slot_of false user msg p = DbProxy.submit false slot pend p) as Hrecv.
  { unfold DbProxy.onRecvMsg, DbProxy.received. rewrite Hup. change (htype rh) with db_type. rewrite Z.eqb_refl. cbn iota beta.
    by rewrite slot_read. }
  pose proof (DbProxy.recv_steps db_type slot_of false user msg p Hu) as Hrs. rewrite Hrecv, Hsub in *. clear Hrecv Hsub.
  exists pend. split; [reflexivity|].
  pose proof (next_unused p slot v Hr Hv) as Hnone. pose proof (DbProxy.px_reachable_inv p Hr) as Hinv.
  destruct (DbProxy.px_ctx p !! slot) as [st|] eqn:Est; [|done].
  split.
  - unfold DbProxy.savePenddingReq. rewrite (proj2 (Z.leb_gt _ _) Hlt). cbn [DbProxy.px_ctx DbProxy.set_saving DbProxy.set_views].
    rewrite Est. unfold DbProxy.px_find. cbn. rewrite lookup_insert_eq. cbn.
    rewrite find_insert by (by apply (DbProxy.px_ok p Hinv slot)). rewrite decide_True by done.
    unfold DbProxy.px_find in Hnone. rewrite Est in Hnone. cbn in Hnone. fold id in Hnone. by rewrite Hnone.
  - intros Hr3 Hf Hu3. set (p1 := DbProxy.set_saving (DbProxy.MkSaving id slot pend :: DbProxy.px_saving p) _) in *.
    assert (rtc DbProxy.pxstep p p3) as Hsteps.
    { etrans; [exact Hrs|]. eapply rtc_l; [|exact Hr3].
      exact (DbProxy.px_save p1 [] (DbProxy.MkSaving id slot pend) (DbProxy.px_saving p) eq_refl). }
    assert (DbProxy.px_reachable p3) as Hreach3.
    { destruct Hr as (o & sl & Hnd & Hr). exists o, sl. split; [done|]. by etrans. }
    destruct (DbProxy.onResponse_exact p3 slot id (resp_serialize resp) (DbProxy.px_reachable_inv p3 Hreach3) Hlt) as [_ Hl].
    rewrite Hf in Hl. cbn [DbProxy.userWeak DbProxy.reqHeader pend] in Hl. rewrite bool_decide_true in Hl by done.
    destruct (reply_read h1 (req_serialize req) rh (req_serialize req) (DbProxy.px_origin p3) (resp_serialize resp)) as (_ & ch & Hch & Hser & _);
      [done|done|by rewrite (origin_const _ _ Hsteps)|done|exact Hup|].
    exists (DbProxy.createResponse (DbProxy.px_origin p3) rh (resp_serialize resp)), ch. split; [exact Hl|].
    rewrite (onResponse_open _ ch (resp_serialize resp) k _ Hch); cbn; rewrite Hser; [|by rewrite lookup_insert_eq].
    rewrite resp_read by done. split; [done|]. split; [|done]. rewrite delete_insert_id by done. by destruct c.
Qed.
End end_to_end.

(** ** The three databases *)

Definition mysql_messages : DbMessages mysql_client_req mysql_client_resp.
Proof.
  refine {| db_type := LYMSG_TYPE_DB_MYSQL; req_serialize := mysql_req_serialize; resp_serialize := mysql_resp_serialize;
    resp_deserialize := fun d => fst (mysql_resp_deserialize d); slot_of := fun d => my_db_slot (fst (mysql_req_deserialize d));
    db_slot := my_db_slot; req_ok := mysql_req_ok; resp_ok := mysql_resp_ok |}; [done| |].
  - intros r Hr. pose proof (mysql_req_roundtrip r [] Hr) as H. rewrite app_nil_r in H. by rewrite H.
  - intros r Hr. pose proof (mysql_resp_roundtrip r [] Hr) as H. rewrite app_nil_r in H. by rewrite H.
Defined.

Definition redis_messages : DbMessages redis_client_req redis_client_resp.
Proof.
  refine {| db_type := LYMSG_TYPE_DB_REDIS; req_serialize := redis_req_serialize; resp_serialize := redis_resp_serialize;
    resp_deserialize := fun d => fst (redis_resp_deserialize d); slot_of := fun d => rd_db_slot (fst (redis_req_deserialize d));
    db_slot := rd_db_slot; req_ok := redis_req_ok; resp_ok := redis_resp_ok |}; [done| |].
  - intros r Hr. pose proof (redis_req_roundtrip r [] Hr) as H. rewrite app_nil_r in H. by rewrite H.
  - intros r Hr. pose proof (redis_resp_roundtrip r [] Hr) as H. rewrite app_nil_r in H. by rewrite H.
Defined.

#[export] Existing Instances mysql_messages redis_messages.

Section mongo.
Context {bson : Type} (bson_get_data : bson -> bytes) (bson_new_from_data : bytes -> option bson).
Context (Hbson : forall b, bson_new_from_data (bson_get_data b) = Some b).

Definition mongo_messages : DbMessages (mongo_client_req (bson:=bson)) (mongo_client_resp bson).
Proof.
  refine {| db_type := LYMSG_TYPE_DB_MONGO; req_serialize := mongo_req_serialize bson_get_data;
    resp_serialize := mongo_resp_serialize bson_get_data;
    resp_deserialize := fun d => fst (mongo_resp_deserialize bson_new_from_data d);
    slot_of := fun d => match mongo_req_deserialize bson_new_from_data d with Some (r, _) => mg_db_slot (fst r) | None => 0 end;
    db_slot := fun r => mg_db_slot (fst r);
    req_ok := fun r => mongo_one_ok bson_get_data (fst r) /\ Forall (mongo_one_ok bson_get_data) (snd r);
    resp_ok := mongo_resp_ok bson_get_data |}; [done| |].
  - intros r [Hh Ht]. destruct (mongo_req_roundtrip bson_get_data bson_new_from_data Hbson r [] Hh Ht) as [H _].
    rewrite app_nil_r in H. by rewrite H.
  - intros r Hr. pose proof (mongo_resp_roundtrip bson_get_data bson_new_from_data Hbson r [] Hr) as H.
    rewrite app_nil_r in H. by rewrite H.
Defined.
End mongo.

(** The proxies dispatch what the clients send. *)
Example proxies_read_requests {S} `{PL : PendStore S DbProxy.PenddingReq} {bson} get_data new_from_data
    (Hb : forall b : bson, new_from_data (get_data b) = Some b) :
  DbProxy.mysql_onRecvMsg (S:=S) =
    DbProxy.onRecvMsg (db_type (DbMessages:=mysql_messages)) (slot_of (DbMessages:=mysql_messages)) /\
  DbProxy.redis_onRecvMsg (S:=S) =
    DbProxy.onRecvMsg (db_type (DbMessages:=redis_messages)) (slot_of (DbMessages:=redis_messages)) /\
  DbProxy.mongo_onRecvMsg (S:=S) new_from_data =
    DbProxy.onRecvMsg (db_type (DbMessages:=mongo_messages _ _ Hb)) (slot_of (DbMessages:=mongo_messages _ _ Hb)).
Proof. done. Qed.

(** ** Witness: a query, whose answer comes back *)

Definition demo_query : mysql_client_req := MkMysqlReq 0 DbReq.execQueryForResult 0 [x73; x31] false None.
Definition demo_rows : mysql_client_resp := MkMysqlResp 0 100 0 [[[[x31]]]] [].

Lemma demo_user_reachable : DbProxy.px_reachable DbProxy.demo_user.
Proof. exists 3, [0]. split; [apply NoDup_singleton|]. eapply rtc_l; [|apply rtc_refl]. apply (DbProxy.px_create (DbProxy.started 3 [0]) 1%nat). cbn. set_solver. Qed.

Definition demo_msg : bytes := packMsg (MkHeader 7 0 LYMSG_TYPE_DB_MYSQL 5 0) (mysql_req_serialize demo_query).
Definition demo_pend : DbProxy.PenddingReq :=
  DbProxy.MkPend 1%nat (match unpackMsg (Some demo_msg) with Some (rh, _) => rh | None => demo_header end).
(** The proxy that has the query, and keeps its requester. *)
Definition demo_kept : DbProxy.demo :=
  DbProxy.savePenddingReq 100 demo_pend 0 (DbProxy.set_saving [] (DbProxy.mysql_onRecvMsg false 1%nat demo_msg DbProxy.demo_user)).

Lemma database_call_witness :
  let '(rc, _, c1, _) := request demo_post demo_header demo_query 4%nat demo_client true in
  rc = 0 /\ exists reply ch,
    DbProxy.px_log (DbProxy.onResponseBase 100 (mysql_resp_serialize demo_rows) 0 demo_kept) =
      DbProxy.px_log demo_kept ++ [DbProxy.Answered 0 100 1%nat reply] /\
    raw (fst (onResponse reply c1)) = Some (4%nat, ch, demo_rows).
Proof.
  pose proof (database_call (DM:=mysql_messages) demo_post demo_header demo_query demo_rows 4%nat demo_client true true
    DbProxy.demo_user demo_kept 1%nat (DbProxy.MkView 100 [] [])) as H.
  destruct H as (Hrc & pend & Hsv & Hf & Hres); try reflexivity; try by_decide.
  - by split.
  - split_and!; [by_decide..|done].
  - exact demo_user_reachable.
  - split; [exact Hrc|]. assert (pend = demo_pend) as -> by (vm_compute in Hsv; injection Hsv as <-; reflexivity).
    destruct (Hres (rtc_refl _ _)) as (reply & ch & Hl & Hcl); [exact Hf|by_decide|].
    exists reply, ch. split; [exact Hl|]. exact (proj1 Hcl).
Defined.
