(* ===== verification/CurlHelper.v ===== *)
(** * Requests over HTTP ([fszm/curl_helper.hpp])

    libcurl is the class [Curl] on an abstract world [W]: what a transfer does up
    to the point where its body is sent, and the pieces of the response it then
    gives to the write function. [curl] is the state of a caller: the options of
    the handles, the strings of the program by their addresses, its files, and
    [cl_log], a ghost: what was opened and released, and what was sent.
    [CURLOPT_POSTFIELDS] keeps the address of a string, as libcurl documents, so
    that reading it after the string's end is undefined. *)

From Stdlib Require Import Strings.String.
From S2P Require Import Prelude Text Effect Config.
#[local] Open Scope effect_scope.

Definition CURLE_OK : Z := 0.
Definition CURLE_WRITE_ERROR : Z := 23.

(** [CURLOPT_WRITEFUNCTION] and [CURLOPT_WRITEDATA]. *)
Inductive write_function := WriteMemory | WriteFile.
Inductive write_data := ToString (p : Z) | ToFile (f : Z).

(** The options that the helper sets. *)
Inductive curlopt :=
| OptUrl (url : bytes)
| OptNoSignal (v : Z)
| OptNoProgress (v : Z)
| OptTimeoutMs (v : Z)
| OptVerifyPeer (v : Z)
| OptVerifyHost (v : Z)
| OptCookieJar (file : bytes)
| OptCookieFile (file : bytes)
| OptPost (v : Z)
| OptHttpHeader (list : option Z)
| OptPostFields (p : Z)                  (* an address: the text is not copied *)
| OptWriteFunction (f : write_function)
| OptWriteData (d : write_data)
| OptOther (code : Z) (v : bytes).       (* what only an extension sets *)

(** A piece of a response: what the write function gets, its size and number. *)
Record chunk := MkChunk { ck_data : bytes; ck_size : Z; ck_nmemb : Z }.

Class Curl (W : Type) := {
  cu_init : W -> option Z * W;
  cu_setopt : W -> Z -> curlopt -> W;
  cu_cleanup : W -> Z -> W;
  cu_slist_append : W -> bytes -> option Z * W;
  cu_slist_free_all : W -> option Z -> W;
  cu_escape : W -> Z -> bytes -> option (Z * bytes) * W;
  cu_free : W -> Z -> W;
  (* up to where the body is sent: 0, or the code with which the transfer ends *)
  cu_request : W -> Z -> Z * W;
  (* the pieces of the response, and the code if every one is accepted *)
  cu_response : W -> Z -> bytes -> (list chunk * Z) * W;
  (* the C library: a file, or none; how many elements are written *)
  cu_fopen : W -> bytes -> option Z * W;
  cu_fwrite : W -> Z -> Z -> Z * W;
  cu_fclose : W -> Z -> W;
}.

(** libcurl: the size is always 1, and the number is that of the bytes. *)
Definition whole_chunk (c : chunk) : Prop := ck_size c = 1 /\ ck_nmemb c = size_of (ck_data c) /\ size_of (ck_data c) < 2 ^ 64.

Class CurlLaws (W : Type) `{!Curl W} : Prop := {
  cu_chunks : forall w h body, Forall whole_chunk (cu_response w h body).1.1;
  cu_written : forall w f n, 0 <= n -> 0 <= (cu_fwrite w f n).1 <= n;
}.

Inductive resource := RHandle (h : Z) | RList (l : Z) | REscaped (p : Z) | RFile (f : Z) | RString (p : Z).
Inductive hcall := HOpen (r : resource) | HClose (r : resource) | HSend (h : Z) (opts : list curlopt) (body : bytes).

(** ** The code *)

Section code.
Context {W : Type} {CU : Curl W}.

Record curl := MkCurl {
  cl_world : W;
  cl_opts : gmap Z (list curlopt);    (* what is set, by handle, the last at the end *)
  cl_strs : gmap Z bytes;             (* the strings that are alive *)
  cl_open : gmap Z bytes;             (* the path of a file that is open *)
  cl_files : gmap bytes bytes;        (* path to content *)
  cl_log : list hcall;
}.
Abbreviation M := (eff curl).

Definition set_world (w : W) (s : curl) : curl := MkCurl w (cl_opts s) (cl_strs s) (cl_open s) (cl_files s) (cl_log s).
Definition set_opts (o : gmap Z (list curlopt)) (s : curl) : curl := MkCurl (cl_world s) o (cl_strs s) (cl_open s) (cl_files s) (cl_log s).
Definition set_strs (m : gmap Z bytes) (s : curl) : curl := MkCurl (cl_world s) (cl_opts s) m (cl_open s) (cl_files s) (cl_log s).
Definition set_open (m : gmap Z bytes) (s : curl) : curl := MkCurl (cl_world s) (cl_opts s) (cl_strs s) m (cl_files s) (cl_log s).
Definition set_files (m : gmap bytes bytes) (s : curl) : curl := MkCurl (cl_world s) (cl_opts s) (cl_strs s) (cl_open s) m (cl_log s).

Definition log (l : list hcall) : M unit :=
  modify (fun s => MkCurl (cl_world s) (cl_opts s) (cl_strs s) (cl_open s) (cl_files s) (cl_log s ++ l)).
Definition ask {A} (f : W -> A * W) : M A :=
  fun s => let '(a, w) := f (cl_world s) in Some (a, set_world w s).

(** Strings of the program. *)
Definition new_string (text : bytes) : M Z :=
  let* p := gets (fun s => fresh (dom (cl_strs s))) in
  modify (fun s => set_strs (<[p := text]> (cl_strs s)) s) ;; log [HOpen (RString p)] ;; ret p.
Definition read_string (p : Z) : M bytes := let* t := gets (fun s => cl_strs s !! p) in of_option t.
Definition append_string (p : Z) (d : bytes) : M unit :=
  let* t := read_string p in modify (fun s => set_strs (<[p := t ++ d]> (cl_strs s)) s).
Definition end_string (p : Z) : M unit :=
  modify (fun s => set_strs (delete p (cl_strs s)) s) ;; log [HClose (RString p)].

(** Handles. *)
Definition easy_init : M (option Z) :=
  let* h := ask cu_init in
  match h with
  | None => ret None
  | Some h => modify (fun s => set_opts (<[h := []]> (cl_opts s)) s) ;; log [HOpen (RHandle h)] ;; ret (Some h)
  end.
Definition setopt (h : Z) (o : curlopt) : M unit :=
  ask (fun w => (tt, cu_setopt w h o)) ;;
  modify (fun s => set_opts (alter (fun l => l ++ [o]) h (cl_opts s)) s).
Fixpoint setopts (h : Z) (os : list curlopt) : M unit :=
  match os with [] => ret tt | o :: os => setopt h o ;; setopts h os end.
Definition easy_cleanup (h : Z) : M unit :=
  ask (fun w => (tt, cu_cleanup w h)) ;; modify (fun s => set_opts (delete h (cl_opts s)) s) ;; log [HClose (RHandle h)].

(** The C library's files: [fopen] with ["wb"], [fwrite], [fclose]. *)
Definition fopen (path : bytes) : M (option Z) :=
  let* f := ask (fun w => cu_fopen w path) in
  match f with
  | None => ret None
  | Some f =>
      modify (fun s => set_files (<[path := []]> (cl_files s)) (set_open (<[f := path]> (cl_open s)) s)) ;;
      log [HOpen (RFile f)] ;; ret (Some f)
  end.
Definition fwrite (data : bytes) (size nmemb f : Z) : M Z :=
  let* path := gets (fun s => cl_open s !! f) in
  let* path := of_option path in
  let* n := ask (fun w => cu_fwrite w f nmemb) in
  modify (fun s => set_files (<[path := default [] (cl_files s !! path) ++ take (Z.to_nat (size * n)) data]> (cl_files s)) s) ;;
  ret n.
Definition fclose (f : Z) : M unit :=
  ask (fun w => (tt, cu_fclose w f)) ;; modify (fun s => set_open (delete f (cl_open s)) s) ;; log [HClose (RFile f)].

(** ** Write functions *)

Definition WriteMemoryCallback (data : bytes) (size nmemb obj : Z) : M Z :=
  let realsize := wrap 64 (size * nmemb) in
  append_string obj (take (Z.to_nat realsize) data) ;;
  ret realsize.

Definition WriteFileCallback (data : bytes) (size nmemb obj : Z) : M Z :=
  let* written := fwrite data size nmemb obj in
  ret written.

(** ** A transfer *)

(** The last value that was set. *)
Definition last_opt {A} (f : curlopt -> option A) (os : list curlopt) : option A := last (omap f os).
Definition post_fields (o : curlopt) : option Z := match o with OptPostFields p => Some p | _ => None end.
Definition get_function (o : curlopt) : option write_function := match o with OptWriteFunction f => Some f | _ => None end.
Definition get_data (o : curlopt) : option write_data := match o with OptWriteData d => Some d | _ => None end.

(** The write function, as it is set; another pair of function and object is
    undefined. *)
Definition write_with (os : list curlopt) (c : chunk) : M Z :=
  match last_opt get_function os, last_opt get_data os with
  | Some WriteMemory, Some (ToString p) => WriteMemoryCallback (ck_data c) (ck_size c) (ck_nmemb c) p
  | Some WriteFile, Some (ToFile f) => WriteFileCallback (ck_data c) (ck_size c) (ck_nmemb c) f
  | _, _ => undefined
  end.

(** Where the write function returns another number than it was given, the
    transfer ends. *)
Fixpoint deliver (os : list curlopt) (cs : list chunk) (code : Z) : M Z :=
  match cs with
  | [] => ret code
  | c :: cs =>
      let* n := write_with os c in
      if n =? ck_size c * ck_nmemb c then deliver os cs code else ret CURLE_WRITE_ERROR
  end.

(** [curl_easy_perform]. *)
Definition easy_perform (h : Z) : M Z :=
  let* os := gets (fun s => cl_opts s !! h) in
  let* os := of_option os in
  let* rc := ask (fun w => cu_request w h) in
  if negb (rc =? CURLE_OK) then ret rc
  else
    let* body := match last_opt post_fields os with None => ret [] | Some p => let* t := read_string p in ret (c_str t) end in
    log [HSend h os body] ;;
    let* r := ask (fun w => cu_response w h body) in
    deliver os r.1 r.2.

(** ** [CurlHelper] *)

Definition basic_opts (url : bytes) (timeout_ms : Z) (verify_ssl : bool) : list curlopt :=
  [OptUrl url; OptNoSignal 1; OptNoProgress 1; OptTimeoutMs timeout_ms;
   OptVerifyPeer (if verify_ssl then 1 else 0); OptVerifyHost (if verify_ssl then 2 else 0)].
Definition SetOptBasic (curl : Z) (url : bytes) (timeout_ms : Z) (verify_ssl : bool) : M unit :=
  setopts curl (basic_opts url timeout_ms verify_ssl).

Definition cookie_opts (cookie_mode : Z) : list curlopt :=
  if 1 =? cookie_mode then [OptCookieJar (lit "cookiestore")]
  else if 2 =? cookie_mode then [OptCookieFile (lit "cookiestore")] else [].
Definition SetOptCookie (curl cookie_mode : Z) : M unit := setopts curl (cookie_opts cookie_mode).

(** A pointer that is null or points to an empty text. *)
Definition no_text (t : option bytes) : bool := match t with None | Some [] => true | Some (b :: _) => bool_decide (b = x00) end.

(** [SetOptExtend]: the options it sets, or null. *)
Definition extend_opts (SetOptExtend : option (list curlopt)) : list curlopt := default [] SetOptExtend.

(** [doGet]: the result, and what is in [*error]. *)
Definition doGet (url : option bytes) (timeout cookie_mode : Z) (verify_ssl : bool) (SetOptExtend : option (list curlopt))
  : M (bytes * Z) :=
  if no_text url then ret ([], -1)
  else
    let* result := new_string [] in
    let* curl := easy_init in
    let* error :=
      match curl with
      | None => ret (-1)
      | Some curl =>
          SetOptBasic curl (c_str (default [] url)) timeout verify_ssl ;;
          SetOptCookie curl cookie_mode ;;
          setopts curl (extend_opts SetOptExtend) ;;
          setopt curl (OptWriteFunction WriteMemory) ;;
          setopt curl (OptWriteData (ToString result)) ;;
          let* res := easy_perform curl in
          easy_cleanup curl ;;
          ret res
      end in
    let* text := read_string result in
    end_string result ;;
    ret (text, error).

Definition json_header : bytes := lit "Content-Type: application/json".

(** [doPost] of a text, by its address. *)
Definition doPost (url : option bytes) (postJson : option Z) (timeout cookie_mode : Z) (verify_ssl : bool)
    (SetOptExtend : option (list curlopt)) : M (bytes * Z) :=
  if no_text url then ret ([], -1)
  else
    let* json := match postJson with None => ret None | Some p => let* t := read_string p in ret (Some t) end in
    match postJson with
    | None => ret ([], -1)
    | Some pj =>
        if no_text json then ret ([], -1)
        else
          let* result := new_string [] in
          let* curl := easy_init in
          let* error :=
            match curl with
            | None => ret (-1)
            | Some curl =>
                SetOptBasic curl (c_str (default [] url)) timeout verify_ssl ;;
                SetOptCookie curl cookie_mode ;;
                setopts curl (extend_opts SetOptExtend) ;;
                let* headers := ask (fun w => cu_slist_append w json_header) in
                log (match headers with Some l => [HOpen (RList l)] | None => [] end) ;;
                setopt curl (OptPost 1) ;;
                setopt curl (OptHttpHeader headers) ;;
                setopt curl (OptPostFields pj) ;;
                setopt curl (OptWriteFunction WriteMemory) ;;
                setopt curl (OptWriteData (ToString result)) ;;
                let* res := easy_perform curl in
                ask (fun w => (tt, cu_slist_free_all w headers)) ;;
                log (match headers with Some l => [HClose (RList l)] | None => [] end) ;;
                easy_cleanup curl ;;
                ret res
            end in
          let* text := read_string result in
          end_string result ;;
          ret (text, error)
    end.

Definition escape (curl : Z) (t : bytes) : M (option (Z * bytes)) :=
  let* e := ask (fun w => cu_escape w curl (c_str t)) in
  log (match e with Some (p, _) => [HOpen (REscaped p)] | None => [] end) ;; ret e.
Definition free_escaped (e : option (Z * bytes)) : M unit :=
  match e with None => ret tt | Some (p, _) => ask (fun w => (tt, cu_free w p)) ;; log [HClose (REscaped p)] end.

(** One turn of the loop over the form's fields: [param] with the pair. *)
Definition add_pair (first : bool) (k v : option (Z * bytes)) (param : bytes) : bytes :=
  match k, v with
  | Some (_, k), Some (_, v) => (if first then param else param ++ lit "&") ++ k ++ lit "=" ++ v
  | _, _ => param
  end.
Fixpoint form_loop (curl : Z) (first : bool) (postMap : list (bytes * bytes)) (param : bytes) : M bytes :=
  match postMap with
  | [] => ret param
  | (k, v) :: rest =>
      let* escaped_key := escape curl k in
      let* escaped_val := escape curl v in
      let param := add_pair first escaped_key escaped_val param in
      free_escaped escaped_key ;;
      free_escaped escaped_val ;;
      form_loop curl false rest param
  end.

(** [doPost] of a form: the fields in the order of their keys. [param] ends with
    its block, before the transfer. *)
Definition doPostForm (url : option bytes) (postMap : list (bytes * bytes)) (timeout cookie_mode : Z) (verify_ssl : bool)
    (SetOptExtend : option (list curlopt)) : M (bytes * Z) :=
  if no_text url then ret ([], -1)
  else if bool_decide (postMap = []) then ret ([], -1)
  else
    let* result := new_string [] in
    let* curl := easy_init in
    let* error :=
      match curl with
      | None => ret (-1)
      | Some curl =>
          SetOptBasic curl (c_str (default [] url)) timeout verify_ssl ;;
          SetOptCookie curl cookie_mode ;;
          setopts curl (extend_opts SetOptExtend) ;;
          setopt curl (OptPost 1) ;;
          let* text := form_loop curl true postMap [] in
          let* param := new_string text in
          setopt curl (OptPostFields param) ;;
          end_string param ;;
          setopt curl (OptWriteFunction WriteMemory) ;;
          setopt curl (OptWriteData (ToString result)) ;;
          let* res := easy_perform curl in
          easy_cleanup curl ;;
          ret res
      end in
    let* text := read_string result in
    end_string result ;;
    ret (text, error).

Definition downloadFile (url path : option bytes) (timeout : Z) (verify_ssl : bool) (SetOptExtend : option (list curlopt)) : M Z :=
  if no_text url || no_text path then ret (-1)
  else
    let* curl := easy_init in
    match curl with
    | None => ret (-1)
    | Some curl =>
        let* file := fopen (c_str (default [] path)) in
        let* rc :=
          match file with
          | None => ret (-1)
          | Some file =>
              SetOptBasic curl (c_str (default [] url)) timeout verify_ssl ;;
              SetOptCookie curl 2 ;;
              setopts curl (extend_opts SetOptExtend) ;;
              setopt curl (OptWriteFunction WriteFile) ;;
              setopt curl (OptWriteData (ToFile file)) ;;
              let* rc := easy_perform curl in
              fclose file ;;
              ret rc
          end in
        easy_cleanup curl ;;
        ret rc
    end.
End code.
Arguments curl : clear implicits.

(** ** What a program opens and releases *)

Definition opened (l : list hcall) : list resource := omap (fun c => match c with HOpen r => Some r | _ => None end) l.
Definition closed (l : list hcall) : list resource := omap (fun c => match c with HClose r => Some r | _ => None end) l.
Definition balanced (l : list hcall) : Prop := opened l ≡ₚ closed l.
Definition silent (l : list hcall) : Prop := opened l = [] /\ closed l = [].

Lemma silent_app l k : silent l -> silent k -> silent (l ++ k).
Proof. unfold silent, opened, closed. rewrite !omap_app. by intros [-> ->] [-> ->]. Qed.

Section logs.
Context {W : Type} {CU : Curl W}.
Abbreviation M := (eff (curl W)).

(** Every run that returns adds to the log what [P] says. *)
Definition logs {A} (m : M A) (P : A -> list hcall -> Prop) : Prop :=
  forall s, spec m s (fun a s' => exists l, cl_log s' = cl_log s ++ l /\ P a l).
Definition quiet {A} (m : M A) : Prop := logs m (fun _ l => silent l).

Lemma logs_ret {A} (a : A) (P : A -> list hcall -> Prop) : P a [] -> logs (ret a) P.
Proof. intros H s. apply spec_ret. exists []. by rewrite app_nil_r. Qed.

Lemma logs_bind {A B} (m : M A) (f : A -> M B) P Q :
  logs m P -> (forall a l, P a l -> logs (f a) (fun b k => Q b (l ++ k))) -> logs (bind m f) Q.
Proof.
  intros Hm Hf s. apply spec_bind. eapply spec_mono; [apply Hm|]. intros a s1 (l & E1 & HP).
  eapply spec_mono; [by apply (Hf a l HP)|]. intros b s2 (k & E2 & HQ). exists (l ++ k). by rewrite E2, E1, app_assoc.
Qed.

Lemma logs_mono {A} (m : M A) (P Q : A -> list hcall -> Prop) : logs m P -> (forall a l, P a l -> Q a l) -> logs m Q.
Proof. intros H HQ s. eapply spec_mono; [apply H|]. intros a s1 (l & E & HP). eauto. Qed.

Lemma logs_log l : logs (log (W := W) l) (fun _ k => k = l).
Proof. intros s. apply spec_modify. by exists l. Qed.

Lemma quiet_same {A} (m : M A) : (forall s, spec m s (fun _ s' => cl_log s' = cl_log s)) -> quiet m.
Proof. intros H s. eapply spec_mono; [apply H|]. intros a s1 E. exists []. by rewrite app_nil_r. Qed.

Lemma quiet_bind {A B} (m : M A) (f : A -> M B) : quiet m -> (forall a, quiet (f a)) -> quiet (bind m f).
Proof.
  intros Hm Hf. eapply logs_bind; [exact Hm|]. intros a l Hl. eapply logs_mono; [apply Hf|]. intros b k Hk. by apply silent_app.
Qed.

Lemma quiet_ret {A} (a : A) : quiet (ret a).
Proof. by apply logs_ret. Qed.

Lemma quiet_gets {A} (f : curl W -> A) : quiet (gets f).
Proof. apply quiet_same. intros s. by apply spec_gets. Qed.

Lemma quiet_ask {A} (f : W -> A * W) : quiet (ask f).
Proof. apply quiet_same. intros s a s1. unfold ask. destruct (f _). by intros [= <- <-]. Qed.

Lemma quiet_option {A} (o : option A) : quiet (of_option o).
Proof. apply quiet_same. intros s. by apply spec_of_option. Qed.

Lemma quiet_modify (f : curl W -> curl W) : (forall s, cl_log (f s) = cl_log s) -> quiet (modify f).
Proof. intros H. apply quiet_same. intros s. by apply spec_modify. Qed.

Lemma quiet_undefined {A} : quiet (undefined (A := A)).
Proof. by apply quiet_same. Qed.

Hint Resolve quiet_ret quiet_gets quiet_ask quiet_option quiet_modify quiet_undefined : core.

(** A program without [HOpen] and [HClose] is quiet, by its structure. *)
Ltac quietly := repeat first [apply quiet_bind; [|intros ?] | by eauto | case_match].

Lemma quiet_read p : quiet (read_string p).
Proof. unfold read_string. quietly. Qed.
Hint Resolve quiet_read : core.

Lemma quiet_setopts h os : quiet (setopts h os).
Proof. induction os as [|o os IH]; cbn [setopts]; unfold setopt; quietly. Qed.

Lemma quiet_setopt h o : quiet (setopt h o).
Proof. unfold setopt. quietly. Qed.

Lemma quiet_write os c : quiet (write_with os c).
Proof. unfold write_with, WriteMemoryCallback, WriteFileCallback, append_string, fwrite. quietly. Qed.
Hint Resolve quiet_setopts quiet_setopt quiet_write : core.

Lemma quiet_deliver os cs code : quiet (deliver os cs code).
Proof. induction cs as [|c cs IH]; cbn [deliver]; quietly. Qed.

Lemma quiet_send h os body : quiet (log [HSend h os body]).
Proof. eapply logs_mono; [apply logs_log|]. by intros ? ? ->. Qed.
Hint Resolve quiet_deliver quiet_send : core.

Lemma quiet_perform h : quiet (easy_perform h).
Proof. unfold easy_perform. quietly. Qed.
Hint Resolve quiet_perform : core.

(** Opening adds one [HOpen]; releasing, one [HClose]. *)
Lemma logs_new text : logs (new_string text) (fun p l => l = [HOpen (RString p)]).
Proof.
  unfold new_string. intros s p s'. unfold bind, gets, modify, log, ret. intros [= <- <-]. cbn. by eexists.
Qed.

Lemma logs_end p : logs (end_string p) (fun _ l => l = [HClose (RString p)]).
Proof. intros s a s'. unfold end_string, bind, modify, log. intros [= <- <-]. cbn. by eexists. Qed.

Lemma logs_init : logs easy_init (fun h l => l = match h with Some h => [HOpen (RHandle h)] | None => [] end).
Proof.
  intros s a s'. unfold easy_init, bind, ask. destruct (cu_init _) as [[h|] w]; intros [= <- <-]; cbn; eexists; split; try done.
  by rewrite app_nil_r.
Qed.

Lemma logs_cleanup h : logs (easy_cleanup h) (fun _ l => l = [HClose (RHandle h)]).
Proof. intros s a s'. unfold easy_cleanup, bind, ask, modify, log. intros [= <- <-]. cbn. by eexists. Qed.

Lemma logs_fopen path : logs (fopen path) (fun f l => l = match f with Some f => [HOpen (RFile f)] | None => [] end).
Proof.
  intros s a s'. unfold fopen, bind, ask. destruct (cu_fopen _ _) as [[h|] w]; intros [= <- <-]; cbn; eexists; split; try done.
  by rewrite app_nil_r.
Qed.

Lemma logs_fclose f : logs (fclose f) (fun _ l => l = [HClose (RFile f)]).
Proof. intros s a s'. unfold fclose, bind, ask, modify, log. intros [= <- <-]. cbn. by eexists. Qed.

(** ** Triples: what is held before, what after *)

Definition holds {A} (R : list resource) (m : M A) (R' : A -> list resource) : Prop :=
  logs m (fun a l => R ++ opened l ≡ₚ closed l ++ R' a).

Lemma holds_bind {A B} R (m : M A) (f : A -> M B) R1 R2 :
  holds R m R1 -> (forall a, holds (R1 a) (f a) R2) -> holds R (bind m f) R2.
Proof.
  intros Hm Hf. eapply logs_bind; [exact Hm|]. cbn beta. intros a l Hl. eapply logs_mono; [apply Hf|]. cbn beta. intros b k Hk.
  unfold opened, closed in *. rewrite !omap_app, app_assoc, Hl, <- !app_assoc. by f_equiv.
Qed.

Lemma holds_quiet {A} R (m : M A) : quiet m -> holds R m (fun _ => R).
Proof. intros H. eapply logs_mono; [exact H|]. intros a l [-> ->]. by rewrite app_nil_r. Qed.

Lemma holds_perm {A} R R0 (m : M A) R' : R ≡ₚ R0 -> holds R0 m R' -> holds R m R'.
Proof. intros HR H. eapply logs_mono; [exact H|]. cbn beta. intros a l <-. by rewrite HR. Qed.

Lemma holds_ret {A} (a : A) R : holds R (ret a) (fun _ => R).
Proof. apply holds_quiet, quiet_ret. Qed.

Lemma holds_return {A} (a : A) R : holds (R a) (ret a) R.
Proof. apply logs_ret. by rewrite app_nil_r. Qed.

Lemma holds_undefined {A} R R' : holds R (undefined (A := A)) R'.
Proof. done. Qed.

Lemma holds_opens {A} (m : M A) (rs : A -> list resource) R :
  logs m (fun a l => l = HOpen <$> rs a) -> holds R m (fun a => rs a ++ R).
Proof.
  intros H. eapply logs_mono; [exact H|]. cbn beta. intros a l ->.
  assert (opened (HOpen <$> rs a) = rs a /\ closed (HOpen <$> rs a) = []) as [-> ->].
  { unfold opened, closed. induction (rs a) as [|r l [IH1 IH2]]; [done|]. cbn. by rewrite IH1, IH2. }
  cbn. apply Permutation_app_comm.
Qed.

Lemma holds_closes {A} (m : M A) (rs : list resource) R :
  logs m (fun _ l => l = HClose <$> rs) -> holds (rs ++ R) m (fun _ => R).
Proof.
  intros H. eapply logs_mono; [exact H|]. cbn beta. intros a l ->.
  assert (opened (HClose <$> rs) = [] /\ closed (HClose <$> rs) = rs) as [-> ->].
  { clear H. unfold opened, closed. induction rs as [|r l [IH1 IH2]]; [done|]. cbn. by rewrite IH1, IH2. }
  by rewrite app_nil_r.
Qed.

Lemma holds_new text R : holds R (new_string text) (fun p => RString p :: R).
Proof. apply (holds_opens _ (fun p => [RString p])). apply logs_new. Qed.

Lemma holds_end p R : holds (RString p :: R) (end_string p) (fun _ => R).
Proof. apply (holds_closes _ [RString p]), logs_end. Qed.

Definition handle_of (h : option Z) : list resource := match h with Some h => [RHandle h] | None => [] end.
Definition file_of (f : option Z) : list resource := match f with Some f => [RFile f] | None => [] end.
Definition list_of (l : option Z) : list resource := match l with Some l => [RList l] | None => [] end.
Definition escaped_of (e : option (Z * bytes)) : list resource := match e with Some (p, _) => [REscaped p] | None => [] end.

Lemma holds_init R : holds R easy_init (fun h => handle_of h ++ R).
Proof. apply holds_opens. eapply logs_mono; [apply logs_init|]. by intros [?|] ? ->. Qed.

Lemma holds_cleanup h R : holds (RHandle h :: R) (easy_cleanup h) (fun _ => R).
Proof. apply (holds_closes _ [RHandle h]), logs_cleanup. Qed.

Lemma holds_fopen path R : holds R (fopen path) (fun f => file_of f ++ R).
Proof. apply holds_opens. eapply logs_mono; [apply logs_fopen|]. by intros [?|] ? ->. Qed.

Lemma holds_fclose f R : holds (RFile f :: R) (fclose f) (fun _ => R).
Proof. apply (holds_closes _ [RFile f]), logs_fclose. Qed.

Lemma holds_list l R : holds R (log (match l with Some l => [HOpen (RList l)] | None => [] end)) (fun _ => list_of l ++ R).
Proof. apply (holds_opens _ (fun _ => list_of l)). eapply logs_mono; [apply logs_log|]. by destruct l; intros ? ? ->. Qed.

Lemma holds_free_list l R : holds (list_of l ++ R) (log (match l with Some l => [HClose (RList l)] | None => [] end)) (fun _ => R).
Proof. apply holds_closes. eapply logs_mono; [apply logs_log|]. by destruct l; intros ? ? ->. Qed.

Lemma holds_escape h t R : holds R (escape h t) (fun e => escaped_of e ++ R).
Proof.
  unfold escape. eapply holds_bind; [apply holds_quiet, quiet_ask|]. intros e.
  eapply (holds_bind _ _ _ (fun _ => escaped_of e ++ R)); [|intros ?; apply (holds_return e (fun e => escaped_of e ++ R))].
  apply (holds_opens _ (fun _ => escaped_of e)).
  eapply logs_mono; [apply logs_log|]. by destruct e as [[]|]; intros ? ? ->.
Qed.

Lemma holds_free e R : holds (escaped_of e ++ R) (free_escaped e) (fun _ => R).
Proof.
  destruct e as [[p t]|]; [|apply holds_ret]. eapply holds_bind; [apply holds_quiet, quiet_ask|]. intros ?.
  apply (holds_closes _ [REscaped p]), logs_log.
Qed.

Lemma holds_form h ps : forall first param R, holds R (form_loop h first ps param) (fun _ => R).
Proof.
  induction ps as [|[k v] ps IH]; intros first param R; [apply holds_ret|]. cbn [form_loop].
  eapply holds_bind; [apply holds_escape|]. intros ek. eapply holds_bind; [apply holds_escape|]. intros ev.
  eapply holds_bind; [eapply (holds_perm _ (escaped_of ek ++ escaped_of ev ++ R)); [apply Permutation_app_swap_app|apply holds_free]|]. intros ?.
  eapply holds_bind; [apply holds_free|]. intros ?. apply IH.
Qed.

(** A step that holds what it held. *)
Ltac passes := eapply holds_bind; [apply holds_quiet; unfold SetOptBasic, SetOptCookie; quietly|intros ?].

(** The end of the functions that return a text. *)
Lemma holds_result p (error : Z) :
  holds [RString p] (bind (read_string p) (fun text => bind (end_string p) (fun _ => ret (text, error)))) (fun _ => []).
Proof. passes. eapply holds_bind; [apply holds_end|]. intros ?. apply holds_ret. Qed.

Lemma holds_doGet url timeout cm vs ext : holds [] (doGet url timeout cm vs ext) (fun _ => []).
Proof.
  unfold doGet. case_match; [apply holds_ret|]. eapply holds_bind; [apply holds_new|]. intros p.
  eapply holds_bind; [apply holds_init|]. intros h.
  eapply (holds_bind _ _ _ (fun _ => [RString p])); [|intros ?; apply holds_result].
  destruct h as [h|]; [|apply holds_ret]. cbn [handle_of app]. do 6 passes. eapply holds_bind; [apply holds_cleanup|]. intros ?. apply holds_ret.
Qed.

Lemma holds_doPost url pj timeout cm vs ext : holds [] (doPost url pj timeout cm vs ext) (fun _ => []).
Proof.
  unfold doPost. case_match; [apply holds_ret|]. passes. destruct pj as [pj|]; [|apply holds_ret].
  case_match; [apply holds_ret|]. eapply holds_bind; [apply holds_new|]. intros p.
  eapply holds_bind; [apply holds_init|]. intros h.
  eapply (holds_bind _ _ _ (fun _ => [RString p])); [|intros ?; apply holds_result].
  destruct h as [h|]; [|apply holds_ret]. cbn [handle_of app]. do 4 passes.
  eapply holds_bind; [apply holds_list|]. intros ?. do 7 passes. eapply holds_bind; [apply holds_free_list|]. intros ?.
  eapply holds_bind; [apply holds_cleanup|]. intros ?. apply holds_ret.
Qed.

Lemma holds_doPostForm url ps timeout cm vs ext : holds [] (doPostForm url ps timeout cm vs ext) (fun _ => []).
Proof.
  unfold doPostForm. case_match; [apply holds_ret|]. case_match; [apply holds_ret|].
  eapply holds_bind; [apply holds_new|]. intros p. eapply holds_bind; [apply holds_init|]. intros h.
  eapply (holds_bind _ _ _ (fun _ => [RString p])); [|intros ?; apply holds_result].
  destruct h as [h|]; [|apply holds_ret]. cbn [handle_of app]. do 4 passes.
  eapply holds_bind; [apply holds_form|]. intros text. eapply holds_bind; [apply holds_new|]. intros q. passes.
  eapply holds_bind; [apply holds_end|]. intros ?. do 3 passes. eapply holds_bind; [apply holds_cleanup|]. intros ?. apply holds_ret.
Qed.

Lemma holds_downloadFile url path timeout vs ext : holds [] (downloadFile url path timeout vs ext) (fun _ => []).
Proof.
  unfold downloadFile. case_match; [apply holds_ret|]. eapply holds_bind; [apply holds_init|]. intros [h|]; [|apply holds_ret].
  cbn [handle_of app]. eapply holds_bind; [apply holds_fopen|]. intros f.
  eapply (holds_bind _ _ _ (fun _ => [RHandle h])).
  - destruct f as [f|]; [|apply holds_ret]. cbn [file_of app]. do 6 passes. eapply holds_bind; [apply holds_fclose|]. intros ?. apply holds_ret.
  - intros rc. eapply holds_bind; [apply holds_cleanup|]. intros ?. apply holds_ret.
Qed.

Lemma holds_balanced {A} (m : M A) s : holds [] m (fun _ => []) -> spec m s (fun _ s' => exists l, cl_log s' = cl_log s ++ l /\ balanced l).
Proof. intros H. eapply spec_mono; [apply H|]. intros a s' (l & E & Hl). exists l. split; [done|]. by rewrite app_nil_r in Hl. Qed.

(** Handles, lists of headers, escaped texts, files and strings are released
    exactly once, whatever fails, when a request returns. *)
Theorem requests_release url path pj ps timeout cm vs ext s :
  let clean {A} (m : M A) := spec m s (fun _ s' => exists l, cl_log s' = cl_log s ++ l /\ balanced l) in
  clean (doGet url timeout cm vs ext) /\ clean (doPost url pj timeout cm vs ext) /\
  clean (doPostForm url ps timeout cm vs ext) /\ clean (downloadFile url path timeout vs ext).
Proof.
  cbn zeta. split_and!; apply holds_balanced; [apply holds_doGet|apply holds_doPost|apply holds_doPostForm|apply holds_downloadFile].
Qed.
End logs.

(** ** What a request returns *)

Section results.
Context {W : Type} {CU : Curl W} {CL : CurlLaws W}.

(** The reference: a transfer on the options that are set, without handles,
    strings or callbacks. *)
Definition set_all (h : Z) (os : list curlopt) (w : W) : W := foldl (fun w o => cu_setopt w h o) w os.
Definition transfer (h : Z) (body : bytes) (w : W) : bytes * Z * W :=
  let '(rc, w) := cu_request w h in
  if negb (rc =? CURLE_OK) then ([], rc, w)
  else let '(cs, code, w) := cu_response w h body in (concat (ck_data <$> cs), code, w).

Lemma setopt_on h x l w o st op fi lg :
  setopt h x (MkCurl w (<[h := l]> o) st op fi lg) = Some (tt, MkCurl (set_all h [x] w) (<[h := l ++ [x]]> o) st op fi lg).
Proof. unfold setopt, bind, ask, modify, set_opts, set_world. cbn. by rewrite alter_insert, decide_True by done. Qed.

Lemma setopts_on h os l w o st op fi lg :
  setopts h os (MkCurl w (<[h := l]> o) st op fi lg) = Some (tt, MkCurl (set_all h os w) (<[h := l ++ os]> o) st op fi lg).
Proof.
  revert l w. induction os as [|x os IH]; intros l w; [by rewrite app_nil_r|].
  cbn [setopts]. rewrite (bind_eq _ _ _ _ _ (setopt_on _ _ _ _ _ _ _ _ _)), IH. by rewrite <- app_assoc.
Qed.

Lemma last_opt_end {A} (f : curlopt -> option A) os o a : f o = Some a -> last_opt f (os ++ [o]) = Some a.
Proof. intros H. unfold last_opt. rewrite omap_app. cbn. rewrite H. apply last_snoc. Qed.

Lemma last_opt_skip {A} (f : curlopt -> option A) os o : f o = None -> last_opt f (os ++ [o]) = last_opt f os.
Proof. intros H. unfold last_opt. rewrite omap_app. cbn. by rewrite H, app_nil_r. Qed.

(** The write function of a text takes everything. *)
Lemma deliver_memory os p cs code t w o st op fi lg :
  last_opt get_function os = Some WriteMemory -> last_opt get_data os = Some (ToString p) -> Forall whole_chunk cs -> st !! p = Some t ->
  deliver os cs code (MkCurl w o st op fi lg) = Some (code, MkCurl w o (<[p := t ++ concat (ck_data <$> cs)]> st) op fi lg).
Proof.
  intros Hf Hd Hcs. revert t st. induction Hcs as [|c cs (E1 & E2 & E3) _ IH]; intros t st Ht.
  - cbn. by rewrite app_nil_r, insert_id.
  - cbn [deliver]. unfold write_with. rewrite Hf, Hd. unfold WriteMemoryCallback, append_string, read_string, bind, gets, of_option, modify, ret.
    cbn -[deliver]. rewrite Ht. cbn -[deliver]. rewrite E1, E2, Z.mul_1_l.
    assert (wrap 64 (size_of (ck_data c)) = size_of (ck_data c)) as -> by (apply Z.mod_small; unfold size_of in *; lia).
    assert (Z.to_nat (size_of (ck_data c)) = length (ck_data c)) as -> by (unfold size_of; lia). rewrite firstn_all, Z.eqb_refl.
    unfold set_strs. cbn [cl_world cl_opts cl_open cl_files cl_log cl_strs].
    rewrite (IH (t ++ ck_data c)) by (by rewrite lookup_insert, decide_True). by rewrite insert_insert, decide_True, <- app_assoc.
Qed.

(** What the state of a transfer to a text is afterwards. *)
Lemma perform_memory h os p t body w o st op fi lg :
  last_opt get_function os = Some WriteMemory -> last_opt get_data os = Some (ToString p) -> st !! p = Some t ->
  match last_opt post_fields os with None => body = [] | Some q => exists b, st !! q = Some b /\ body = c_str b end ->
  let '(d, code, w') := transfer h body w in
  exists k, silent k /\
    easy_perform h (MkCurl w (<[h := os]> o) st op fi lg) = Some (code, MkCurl w' (<[h := os]> o) (<[p := t ++ d]> st) op fi (lg ++ k)).
Proof.
  intros Hf Hd Ht Hb. unfold transfer, easy_perform, bind at 1 2 3, gets, ask, of_option, set_world. cbn -[deliver].
  rewrite lookup_insert, decide_True by done. cbn -[deliver].
  destruct (cu_request w h) as [rc w1] eqn:Er. cbn -[deliver].
  destruct (negb (rc =? CURLE_OK)) eqn:Ec.
  - exists []. split; [done|]. by rewrite !app_nil_r, (insert_id st p t) by done.
  - destruct (cu_response w1 h body) as [[cs code] w2] eqn:Es. exists [HSend h os body]. split; [done|].
    pose proof (cu_chunks w1 h body) as Hcs. rewrite Es in Hcs. cbn in Hcs.
    assert (forall B (k : bytes -> eff (curl W) B) s, cl_strs s = st ->
      bind (match last_opt post_fields os with None => ret [] | Some q => bind (read_string q) (fun t => ret (c_str t)) end) k s = k body s) as Hbody.
    { intros B k s Hs. destruct (last_opt post_fields os) as [q|]; [|by rewrite Hb].
      destruct Hb as (b & Hq & ->). unfold bind, read_string, gets, of_option, ret. cbn. unfold bind. cbn. by rewrite Hs, Hq. }
    rewrite Hbody by done. unfold bind, log, modify, ask. cbn -[deliver]. rewrite Es. cbn -[deliver]. by apply deliver_memory.
Qed.

(** The functions that return a text end with this. *)
Lemma result_end p t (error : Z) w o st op fi lg :
  bind (read_string (W := W) p) (fun text => bind (end_string p) (fun _ => ret (text, error))) (MkCurl w o (<[p := t]> st) op fi lg) =
  Some ((t, error), MkCurl w o (delete p st) op fi (lg ++ [HClose (RString p)])).
Proof.
  unfold bind, read_string, gets, of_option, end_string, modify, log, ret, set_strs. cbn. unfold bind. cbn.
  rewrite lookup_insert, decide_True by done. cbn. by rewrite delete_insert_eq.
Qed.

Lemma init_on w o st op fi lg h w1 : cu_init w = (Some h, w1) ->
  easy_init (MkCurl w o st op fi lg) = Some (Some h, MkCurl w1 (<[h := []]> o) st op fi (lg ++ [HOpen (RHandle h)])).
Proof. intros E. unfold easy_init, bind, ask, modify, log, ret. cbn. by rewrite E. Qed.

Lemma cleanup_on h l w o st op fi lg :
  easy_cleanup h (MkCurl w (<[h := l]> o) st op fi lg) = Some (tt, MkCurl (cu_cleanup w h) (delete h o) st op fi (lg ++ [HClose (RHandle h)])).
Proof. unfold easy_cleanup, bind, ask, modify, log, ret, set_opts. cbn. by rewrite delete_insert_eq. Qed.

Lemma new_on text w o st op fi lg : let p := fresh (dom st) in
  new_string (W := W) text (MkCurl w o st op fi lg) = Some (p, MkCurl w o (<[p := text]> st) op fi (lg ++ [HOpen (RString p)])).
Proof. done. Qed.

(** What is set for a text, before what [doPost] adds, and behind it. *)
Definition text_opts (url : bytes) (timeout cm : Z) (vs : bool) (ext : option (list curlopt)) : list curlopt :=
  basic_opts url timeout vs ++ cookie_opts cm ++ extend_opts ext.
Definition memory_opts (p : Z) : list curlopt := [OptWriteFunction WriteMemory; OptWriteData (ToString p)].

Lemma memory_opts_last os p :
  last_opt get_function (os ++ memory_opts p) = Some WriteMemory /\ last_opt get_data (os ++ memory_opts p) = Some (ToString p) /\
  last_opt post_fields (os ++ memory_opts p) = last_opt post_fields os.
Proof. unfold last_opt, memory_opts. rewrite !omap_app. cbn. by rewrite app_nil_r, !last_snoc. Qed.

Lemma fields_of_text url timeout cm vs ext : omap post_fields (extend_opts ext) = [] -> omap post_fields (text_opts url timeout cm vs ext) = [].
Proof. intros H. unfold text_opts. rewrite !omap_app, H. unfold cookie_opts. by repeat case_match. Qed.

(** The options of all three functions, on a new handle. *)
Lemma text_opts_on {A} url timeout cm vs ext h l w o st op fi lg (k : unit -> eff (curl W) A) :
  bind (SetOptBasic h url timeout vs) (fun _ => bind (SetOptCookie h cm) (fun _ => bind (setopts h (extend_opts ext)) k))
    (MkCurl w (<[h := l]> o) st op fi lg) =
  k tt (MkCurl (set_all h (text_opts url timeout cm vs ext) w) (<[h := l ++ text_opts url timeout cm vs ext]> o) st op fi lg).
Proof.
  unfold SetOptBasic, SetOptCookie. rewrite !(bind_eq _ _ _ _ _ (setopts_on _ _ _ _ _ _ _ _ _)).
  unfold text_opts, set_all. by rewrite !foldl_app, <- !app_assoc.
Qed.

(** [doGet] is a transfer without a body: it returns what was delivered, and the
    code; the state is as before but for the driver's. *)
Theorem doGet_exact url timeout cm vs ext s h w1 :
  no_text (Some url) = false -> cu_init (cl_world s) = (Some h, w1) -> omap post_fields (extend_opts ext) = [] ->
  exists p s', let os := text_opts (c_str url) timeout cm vs ext ++ memory_opts p in
  let '(d, code, w2) := transfer h [] (set_all h os w1) in
  doGet (Some url) timeout cm vs ext s = Some ((d, code), s') /\
  cl_world s' = cu_cleanup w2 h /\ cl_files s' = cl_files s /\ cl_strs s' = cl_strs s.
Proof.
  intros Hu Hi Hx. destruct s as [w o st op fi lg]. cbn in Hi. unfold doGet. rewrite Hu.
  rewrite (bind_eq _ _ _ _ _ (new_on _ _ _ _ _ _ _)). set (p := fresh (dom st)).
  assert (st !! p = None) as Hp by (apply not_elem_of_dom, is_fresh).
  rewrite (bind_eq _ _ _ _ _ (init_on _ _ _ _ _ _ _ _ Hi)). cbn [default from_option]. unfold id.
  exists p. set (os := text_opts (c_str url) timeout cm vs ext).
  destruct (transfer h [] (set_all h (os ++ memory_opts p) w1)) as [[d code] w2] eqn:Et.
  destruct (memory_opts_last os p) as (F1 & F2 & F3).
  pose proof (perform_memory h (os ++ memory_opts p) p [] [] (set_all h (os ++ memory_opts p) w1) o (<[p := []]> st) op fi
    ((lg ++ [HOpen (RString p)]) ++ [HOpen (RHandle h)]) F1 F2) as Hrun.
  rewrite Et in Hrun. rewrite lookup_insert, decide_True in Hrun by done.
  destruct Hrun as (k & _ & Hrun); [done|rewrite F3; unfold last_opt, os; by rewrite fields_of_text|].
  eexists. split.
  - unfold bind at 1. fold os. rewrite text_opts_on. fold os. unfold bind at 1. rewrite setopt_on.
    unfold bind at 1. rewrite setopt_on. unfold bind at 1. rewrite app_nil_l.
    assert (set_all h [OptWriteData (ToString p)] (set_all h [OptWriteFunction WriteMemory] (set_all h os w1)) = set_all h (os ++ memory_opts p) w1) as ->
      by (unfold set_all; by rewrite foldl_app).
    rewrite <- app_assoc. cbn [app]. fold (memory_opts p). rewrite Hrun. unfold bind at 1. rewrite cleanup_on. unfold ret at 1.
    rewrite insert_insert, decide_True by done. apply result_end.
  - cbn. split_and!; [done..|]. by apply delete_id.
Qed.

(** [doPost] of a text sends that text, with its header, and returns what was
    delivered, and the code. *)
Theorem doPost_exact url pj json timeout cm vs ext s h w1 :
  no_text (Some url) = false -> cl_strs s !! pj = Some json -> no_text (Some json) = false -> cu_init (cl_world s) = (Some h, w1) ->
  exists p s',
  let '(headers, w2) := cu_slist_append (set_all h (text_opts (c_str url) timeout cm vs ext) w1) json_header in
  let os := [OptPost 1; OptHttpHeader headers; OptPostFields pj] ++ memory_opts p in
  let '(d, code, w3) := transfer h (c_str json) (set_all h os w2) in
  doPost (Some url) (Some pj) timeout cm vs ext s = Some ((d, code), s') /\
  cl_world s' = cu_cleanup (cu_slist_free_all w3 headers) h /\ cl_files s' = cl_files s /\ cl_strs s' = cl_strs s.
Proof.
  intros Hu Hj Hn Hi. destruct s as [w o st op fi lg]. cbn in Hi, Hj. unfold doPost. rewrite Hu.
  set (p := fresh (dom st)). exists p. assert (st !! p = None) as Hp by (apply not_elem_of_dom, is_fresh).
  assert (p <> pj) as Hne by (intros E; rewrite E in Hp; congruence).
  set (os1 := text_opts (c_str url) timeout cm vs ext).
  destruct (cu_slist_append (set_all h os1 w1) json_header) as [hd w2] eqn:Eh.
  set (os2 := [OptPost 1; OptHttpHeader hd; OptPostFields pj]).
  destruct (transfer h (c_str json) (set_all h (os2 ++ memory_opts p) w2)) as [[d code] w3] eqn:Et.
  destruct (memory_opts_last (os1 ++ os2) p) as (F1 & F2 & F3).
  set (lg1 := ((lg ++ [HOpen (RString p)]) ++ [HOpen (RHandle h)]) ++ match hd with Some l => [HOpen (RList l)] | None => [] end).
  pose proof (perform_memory h ((os1 ++ os2) ++ memory_opts p) p [] (c_str json) (set_all h (os2 ++ memory_opts p) w2) o (<[p := []]> st) op fi lg1 F1 F2) as Hrun.
  rewrite Et in Hrun. rewrite lookup_insert, decide_True in Hrun by done.
  destruct Hrun as (k & _ & Hrun); [done| |].
  { rewrite F3. change os2 with ([OptPost 1; OptHttpHeader hd] ++ [OptPostFields pj]). rewrite app_assoc, (last_opt_end _ _ _ pj) by done.
    exists json. by rewrite lookup_insert_ne. }
  eexists. split.
  - unfold bind at 1 2. unfold read_string at 1, bind at 1, gets at 1. cbn [cl_strs]. rewrite Hj. unfold of_option, ret at 1 2. rewrite Hn.
    rewrite (bind_eq _ _ _ _ _ (new_on _ _ _ _ _ _ _)). fold p.
    rewrite (bind_eq _ _ _ _ _ (init_on _ _ _ _ _ _ _ _ Hi)). cbn [default from_option]. unfold id.
    unfold bind at 1. fold os1. rewrite text_opts_on. fold os1.
    unfold bind at 1, ask at 1. cbn [cl_world]. rewrite Eh. unfold bind at 1, log at 1, modify at 1, set_world. cbn [cl_world cl_opts cl_strs cl_open cl_files cl_log].
    fold lg1. unfold bind at 1. rewrite setopt_on. unfold bind at 1. rewrite setopt_on. unfold bind at 1. rewrite setopt_on.
    unfold bind at 1. rewrite setopt_on. unfold bind at 1. rewrite setopt_on. rewrite app_nil_l, <- !app_assoc in *. cbn [app] in *.
    fold (memory_opts p). unfold bind at 1. change (set_all h [OptWriteData (ToString p)] _) with (set_all h (os2 ++ memory_opts p) w2).
    change (os1 ++ OptPost 1 :: _) with (os1 ++ os2 ++ memory_opts p). rewrite Hrun.
    unfold bind at 1, ask at 1. cbn [cl_world]. unfold bind at 1, log at 1, modify at 1, set_world. cbn [cl_world cl_opts cl_strs cl_open cl_files cl_log].
    unfold bind at 1. rewrite cleanup_on. unfold ret at 1. rewrite insert_insert, decide_True by done. apply result_end.
  - cbn. split_and!; [done..|]. by apply delete_id.
Qed.

(** ** Forms *)

(** The loop leaves handles, strings and files as they are. *)
Lemma form_loop_runs h ps : forall first param w o st op fi lg, exists text w' lg',
  form_loop h first ps param (MkCurl w o st op fi lg) = Some (text, MkCurl w' o st op fi lg').
Proof.
  induction ps as [|[k v] ps IH]; intros first param w o st op fi lg; [by do 3 eexists|]. cbn [form_loop].
  unfold escape, free_escaped, bind, ask, log, modify, ret, set_world. cbn -[form_loop].
  destruct (cu_escape w h (c_str k)) as [[[p1 t1]|] w1]; cbn -[form_loop];
    destruct (cu_escape w1 h (c_str v)) as [[[p2 t2]|] w2]; cbn -[form_loop]; apply IH.
Qed.

(** The reference: escaped pairs, with [&] between them. *)
Definition pair_text (esc : bytes -> bytes) (kv : bytes * bytes) : bytes := esc (c_str kv.1) ++ lit "=" ++ esc (c_str kv.2).
Fixpoint joined (ts : list bytes) : bytes :=
  match ts with [] => [] | [t] => t | t :: ts => t ++ lit "&" ++ joined ts end.

Lemma joined_cons t ts : joined (t :: ts) = t ++ concat ((fun u => lit "&" ++ u) <$> ts).
Proof.
  revert t. induction ts as [|u ts IH]; intros t; [by rewrite app_nil_r|].
  change (joined (t :: u :: ts)) with (t ++ lit "&" ++ joined (u :: ts)). rewrite IH, fmap_cons. cbn [concat]. by rewrite <- app_assoc.
Qed.

Lemma escape_answers esc h t s :
  (forall w t, exists p, (cu_escape w h t).1 = Some (p, esc t)) ->
  spec (escape h t) s (fun e _ => exists p, e = Some (p, esc (c_str t))).
Proof.
  intros He e s2. unfold escape, bind, ask, log, modify, ret. destruct (He (cl_world s) (c_str t)) as [p Hp].
  destruct (cu_escape _ _ _) as [e' w]. cbn in Hp. subst e'. cbn. intros [= <- <-]. eauto.
Qed.

(** Where every text can be escaped, the form is the pairs joined by [&]. *)
Lemma form_rest esc h ps param s :
  (forall w t, exists p, (cu_escape w h t).1 = Some (p, esc t)) ->
  spec (form_loop h false ps param) s (fun text _ => text = param ++ concat ((fun kv => lit "&" ++ pair_text esc kv) <$> ps)).
Proof.
  intros He. revert param s. induction ps as [|[k v] ps IH]; intros param s; cbn [form_loop].
  { apply spec_ret. by rewrite app_nil_r. }
  apply spec_bind. eapply spec_mono; [by apply escape_answers|]. intros ? s1 [p1 ->]. apply spec_bind.
  eapply spec_mono; [by apply escape_answers|]. intros ? s2 [p2 ->]. apply spec_bind. intros ? s3 _. apply spec_bind. intros ? s4 _.
  eapply spec_mono; [apply IH|]. intros text s5 ->. rewrite fmap_cons. cbn [concat add_pair]. unfold pair_text. cbn [fst snd]. by rewrite <- !app_assoc.
Qed.

Theorem form_exact esc h k v ps s :
  (forall w t, exists p, (cu_escape w h t).1 = Some (p, esc t)) ->
  spec (form_loop h true ((k, v) :: ps) []) s (fun text _ => text = joined (pair_text esc <$> ((k, v) :: ps))).
Proof.
  intros He. cbn [form_loop].
  apply spec_bind. eapply spec_mono; [by apply escape_answers|]. intros ? s1 [p1 ->]. apply spec_bind.
  eapply spec_mono; [by apply escape_answers|]. intros ? s2 [p2 ->]. apply spec_bind. intros ? s3 _. apply spec_bind. intros ? s4 _.
  eapply spec_mono; [by apply form_rest|]. intros text s5 ->. rewrite fmap_cons, joined_cons, <- list_fmap_compose. reflexivity.
Qed.

(** The form is never sent: its text ends before the transfer, which reads it.
    Where the transfer gets as far as the body, the call is undefined. *)
Theorem form_undefined url ps timeout cm vs ext s h w1 :
  no_text (Some url) = false -> ps <> [] -> cu_init (cl_world s) = (Some h, w1) ->
  (forall w, (cu_request w h).1 = CURLE_OK) ->
  doPostForm (Some url) ps timeout cm vs ext s = None.
Proof.
  intros Hu Hps Hi Hr. destruct s as [w o st op fi lg]. cbn in Hi. unfold doPostForm. rewrite Hu.
  rewrite bool_decide_eq_false_2 by done. rewrite (bind_eq _ _ _ _ _ (new_on _ _ _ _ _ _ _)). set (p := fresh (dom st)).
  rewrite (bind_eq _ _ _ _ _ (init_on _ _ _ _ _ _ _ _ Hi)). unfold bind at 1. cbn [default from_option]. rewrite text_opts_on.
  unfold bind at 1. rewrite setopt_on. unfold bind at 1.
  match goal with |- context [form_loop h true ps [] (MkCurl ?w ?o ?st ?op ?fi ?lg)] =>
    destruct (form_loop_runs h ps true [] w o st op fi lg) as (text & w' & lg' & ->) end.
  rewrite (bind_eq _ _ _ _ _ (new_on _ _ _ _ _ _ _)). set (q := fresh _).
  assert (q ∉ dom (<[p := []]> st)) as Hq by apply is_fresh. apply not_elem_of_dom in Hq. clearbody q.
  unfold bind at 1. rewrite setopt_on. unfold bind at 1, end_string at 1, bind at 1, log at 1, modify, set_strs. cbn [cl_world cl_opts cl_strs cl_open cl_files cl_log].
  rewrite delete_insert_id by done. unfold bind at 1. rewrite setopt_on. unfold bind at 1. rewrite setopt_on.
  unfold bind at 1. unfold easy_perform, bind at 1 2 3, gets, ask, of_option, set_world. cbn -[deliver last_opt app text_opts].
  rewrite lookup_insert, decide_True by done. cbn -[deliver last_opt app text_opts].
  match goal with |- context [cu_request ?w h] => pose proof (Hr w) as Hw; destruct (cu_request w h) as [rc w2] end. cbn in Hw. subst rc.
  cbn -[deliver last_opt app text_opts].
  match goal with |- context [last_opt post_fields ?os] => assert (last_opt post_fields os = Some q) as -> end.
  { rewrite !last_opt_skip by done. by apply last_opt_end. }
  unfold read_string, bind, gets, of_option. cbn. by rewrite Hq.
Qed.

(** ** Downloads *)

(** What the pieces leave in the file: all of them, or a part and an error. *)
Definition stored (cs : list chunk) (code rc : Z) (d : bytes) : Prop :=
  (rc = code /\ d = concat (ck_data <$> cs)) \/ (rc = CURLE_WRITE_ERROR /\ d `prefix_of` concat (ck_data <$> cs)).

Lemma deliver_file os f path cs code w o st op fi lg t :
  last_opt get_function os = Some WriteFile -> last_opt get_data os = Some (ToFile f) -> Forall whole_chunk cs ->
  op !! f = Some path -> fi !! path = Some t ->
  spec (deliver os cs code) (MkCurl w o st op fi lg) (fun rc s' => exists w' d,
    s' = MkCurl w' o st op (<[path := t ++ d]> fi) lg /\ stored cs code rc d).
Proof.
  intros Hf Hd Hcs Ho. revert w fi t. induction Hcs as [|c cs (E1 & E2 & E3) _ IH]; intros w fi t Ht.
  - apply spec_ret. exists w, []. rewrite app_nil_r, insert_id by done. split; [done|by left].
  - cbn [deliver]. unfold write_with. rewrite Hf, Hd. unfold WriteFileCallback, fwrite, bind, gets, ask, of_option, modify, ret, set_world, set_files.
    intros rc s'. cbn -[deliver take]. rewrite Ho. cbn -[deliver take].
    pose proof (cu_written w f (ck_nmemb c)) as Hn. destruct (cu_fwrite w f (ck_nmemb c)) as [n w1]. cbn -[deliver take] in *. rewrite Ht. cbn -[deliver take].
    rewrite E1, E2, !Z.mul_1_l in *. assert (0 <= n <= size_of (ck_data c)) as Hn' by (apply Hn; unfold size_of; lia).
    destruct (Z.eqb_spec n (size_of (ck_data c))) as [->|Hne].
    + assert (take (Z.to_nat (size_of (ck_data c))) (ck_data c) = ck_data c) as -> by (apply take_ge; unfold size_of; lia).
      intros H. apply (IH _ _ (t ++ ck_data c)) in H as (w' & d & -> & Hd'); [|by rewrite lookup_insert, decide_True].
      exists w', (ck_data c ++ d). rewrite insert_insert, decide_True, <- app_assoc by done. split; [done|].
      destruct Hd' as [[-> ->]|[-> Hd']]; [by left|right]. split; [done|]. by apply prefix_app.
    + intros [= <- <-]. exists w1, (take (Z.to_nat n) (ck_data c)). split; [done|]. right. split; [done|].
      apply prefix_app_r. exists (drop (Z.to_nat n) (ck_data c)). by rewrite take_drop.
Qed.

Definition file_opts (f : Z) : list curlopt := [OptWriteFunction WriteFile; OptWriteData (ToFile f)].

Lemma perform_file h os f path w o st op fi lg t :
  last_opt get_function os = Some WriteFile -> last_opt get_data os = Some (ToFile f) -> last_opt post_fields os = None ->
  op !! f = Some path -> fi !! path = Some t ->
  spec (easy_perform h) (MkCurl w (<[h := os]> o) st op fi lg) (fun rc s' => exists w' d k,
    s' = MkCurl w' (<[h := os]> o) st op (<[path := t ++ d]> fi) (lg ++ k) /\
    (rc <> CURLE_OK \/ exists w1 cs w2, cu_response w1 h [] = ((cs, rc), w2) /\ d = concat (ck_data <$> cs))).
Proof.
  intros Hf Hd Hp Ho Ht rc s'. unfold easy_perform, bind at 1 2 3, gets, ask at 1, of_option, set_world. cbn -[deliver last_opt].
  rewrite lookup_insert, decide_True by done. cbn -[deliver last_opt]. destruct (cu_request w h) as [r w1]. cbn -[deliver last_opt].
  destruct (Z.eqb_spec r CURLE_OK) as [->|Hr]; cbn -[deliver last_opt].
  - rewrite Hp. unfold bind at 1, ret at 1, log, modify, bind at 1, ask. cbn -[deliver last_opt].
    unfold bind. cbn -[deliver last_opt]. pose proof (cu_chunks w1 h []) as Hcs.
    destruct (cu_response w1 h []) as [[cs code] w2] eqn:Er. cbn -[deliver last_opt] in *. intros H.
    apply (deliver_file _ f path _ _ _ _ _ _ _ _ t) in H as (w' & d & -> & Hst); [|done..]. exists w', d, [HSend h os []]. split; [done|].
    destruct Hst as [[-> ->]|[-> _]]; [right; eauto|by left].
  - intros [= <- <-]. exists w1, [], []. rewrite !app_nil_r, (insert_id fi path t) by done. split; [done|by left].
Qed.

Lemma fopen_on path f w o st op fi lg w1 : cu_fopen w path = (Some f, w1) ->
  fopen path (MkCurl w o st op fi lg) = Some (Some f, MkCurl w1 o st (<[f := path]> op) (<[path := []]> fi) (lg ++ [HOpen (RFile f)])).
Proof. intros E. unfold fopen, bind, ask, modify, log, ret. cbn. by rewrite E. Qed.

(** A download that reports success has stored the whole response; whatever it
    reports, what the file held before is gone once it could be opened. *)
Theorem downloadFile_stores url path timeout vs ext s h f w1 w2 :
  no_text (Some url) = false -> no_text (Some path) = false -> omap post_fields (extend_opts ext) = [] ->
  cu_init (cl_world s) = (Some h, w1) -> cu_fopen w1 (c_str path) = (Some f, w2) ->
  spec (downloadFile (Some url) (Some path) timeout vs ext) s (fun rc s' => exists d,
    cl_files s' = <[c_str path := d]> (cl_files s) /\
    (rc = CURLE_OK -> exists w3 cs w4, cu_response w3 h [] = ((cs, CURLE_OK), w4) /\ d = concat (ck_data <$> cs))).
Proof.
  intros Hu Hpath Hx Hi Hfo. destruct s as [w o st op fi lg]. cbn in Hi. unfold downloadFile. rewrite Hu, Hpath. cbn [orb].
  intros rc s'. rewrite (bind_eq _ _ _ _ _ (init_on _ _ _ _ _ _ _ _ Hi)). cbn [default from_option]. unfold id.
  rewrite (bind_eq _ _ _ _ _ (fopen_on _ _ _ _ _ _ _ _ _ Hfo)).
  set (os := text_opts (c_str url) timeout 2 vs ext). unfold bind at 1, id.
  rewrite (text_opts_on (c_str url) timeout 2 vs ext). fold os.
  unfold bind at 1. rewrite setopt_on. unfold bind at 1. rewrite setopt_on. unfold bind at 1. rewrite app_nil_l, <- app_assoc. cbn [app]. fold (file_opts f).
  match goal with |- context [easy_perform h ?s0] => destruct (easy_perform h s0) as [[r s1]|] eqn:Ep; [|done] end.
  apply (perform_file h _ f (c_str path) _ _ _ _ _ _ []) in Ep as (w' & d & k & -> & Hd);
    [|by unfold last_opt, file_opts; rewrite omap_app; cbn; rewrite ?last_snoc..
     |unfold last_opt, os; by rewrite omap_app, fields_of_text
     |by rewrite lookup_insert, decide_True|by rewrite lookup_insert, decide_True].
  unfold fclose, bind, ask, modify, log, ret, set_open, set_world. cbn. unfold set_opts. cbn. rewrite insert_insert, decide_True by done.
  intros [= <- <-]. exists d. cbn. split; [done|]. intros ->. destruct Hd as [?|(wa & cs & wb & ? & ?)]; [done|eauto].
Qed.
End results.

(** ** [CentralServClt] over HTTP ([lygc/central_client.hpp]) *)

Section client.
Context {W : Type} {CU : Curl W} {J : Type} {JS : Json J}.

Definition get (serverAddr api : bytes) : eff (curl W) bytes :=
  let* r := doGet (Some (clt_get_url serverAddr api)) 1000 0 false None in ret r.1.

(** [obj.dump()] may throw. *)
Definition clt_registerApi (serverAddr api : bytes) (jsonobj : J) : eff (curl W) bytes :=
  let url := serverAddr ++ lit "/register/api" in
  let* text := of_option (clt_register api jsonobj) in
  let* postData := new_string text in
  let* r := doPost (Some url) (Some postData) 1000 0 false None in
  end_string postData ;;
  ret r.1.
End client.

(** A network with the central server at [addr]: the library under it matches the
    path and gives the answer in one piece. *)
Section network.
Context {J : Type} {JS : Json J} {JL : JsonLaws J} (addr : bytes).

Record net := MkNet { nt_central : central; nt_url : bytes; nt_post : bool }.

Definition piece (t : bytes) : list chunk := if size_of t <? 2 ^ 64 then [MkChunk t 1 (size_of t)] else [].

Definition answer (n : net) (body : bytes) : option bytes * central :=
  let prefix := addr ++ lit "/api/" in
  if nt_post n then
    if bool_decide (nt_url n = addr ++ lit "/register/api") then serve (HttpPost body) (nt_central n) else (None, nt_central n)
  else if bool_decide (take (length prefix) (nt_url n) = prefix) then serve (HttpGet (drop (length prefix) (nt_url n))) (nt_central n)
  else (None, nt_central n).

#[local] Instance central_net : Curl net := {
  cu_init n := (Some 0, MkNet (nt_central n) [] false);
  cu_setopt n h o :=
    match o with
    | OptUrl u => MkNet (nt_central n) u (nt_post n)
    | OptPost v => MkNet (nt_central n) (nt_url n) (negb (v =? 0))
    | _ => n
    end;
  cu_cleanup n _ := n;
  cu_slist_append n _ := (Some 0, n);
  cu_slist_free_all n _ := n;
  cu_escape n _ t := (Some (0, t), n);
  cu_free n _ := n;
  cu_request n _ := (CURLE_OK, n);
  cu_response n _ body := let '(res, c) := answer n body in ((piece (default [] res), CURLE_OK), MkNet c (nt_url n) (nt_post n));
  cu_fopen n _ := (None, n);
  cu_fwrite n _ k := (k, n);
  cu_fclose n _ := n;
}.

#[local] Instance central_net_laws : CurlLaws net.
Proof.
  split; cbn.
  - intros n h body. destruct (answer n body) as [res c]. cbn. unfold piece. case_match; [|done]. by repeat constructor; cbn; lia.
  - intros n f k Hk. lia.
Qed.

Lemma piece_whole t : size_of t < 2 ^ 64 -> concat (ck_data <$> piece t) = t.
Proof. intros H. unfold piece. rewrite (proj2 (Z.ltb_lt _ _)) by done. cbn. apply app_nil_r. Qed.

Lemma answer_get c api : answer (MkNet c (clt_get_url addr api) false) [] = serve (HttpGet api) c.
Proof.
  unfold answer, clt_get_url. cbn [nt_post nt_url nt_central]. rewrite app_assoc, take_app_length, drop_app_length.
  by rewrite bool_decide_eq_true_2.
Qed.

Lemma answer_post c body : answer (MkNet c (addr ++ lit "/register/api") true) body = serve (HttpPost body) c.
Proof. unfold answer. cbn [nt_post nt_url nt_central]. by rewrite bool_decide_eq_true_2. Qed.

Lemma text_given u : c_str u = u -> u <> [] -> no_text (Some u) = false.
Proof.
  destruct u as [|b u]; [done|]. intros H _. cbn. apply bool_decide_eq_false_2. intros ->. by cbn in H.
Qed.

Lemma url_not_empty t api : addr ++ lit "/" ++ t ++ api <> [].
Proof. by destruct addr. Qed.

(** A query returns what the server answers. *)
Lemma get_answer api s :
  c_str (clt_get_url addr api) = clt_get_url addr api ->
  size_of (default [] (serve (HttpGet api) (nt_central (cl_world s))).1) < 2 ^ 64 ->
  exists s', get addr api s = Some (default [] (serve (HttpGet api) (nt_central (cl_world s))).1, s') /\
    nt_central (cl_world s') = nt_central (cl_world s).
Proof.
  intros Hu Hsz.
  destruct (doGet_exact (CU := central_net) (clt_get_url addr api) 1000 0 false None s 0 (MkNet (nt_central (cl_world s)) [] false) (text_given _ Hu (url_not_empty (lit "api/") api)) eq_refl eq_refl)
    as (p & s' & H). rewrite Hu in H. unfold transfer in H. cbn -[answer piece serve clt_get_url] in H. rewrite answer_get in H.
  cbn -[piece] in H. rewrite piece_whole in H by done.
  destruct H as (H & Hw & _). exists s'. split; [|by rewrite Hw].
  unfold get, bind. by rewrite H.
Qed.

(** A registration returns what the server answers, and changes its state. *)
Lemma register_answer api obj body s :
  let url := addr ++ lit "/register/api" in
  c_str url = url -> clt_register api obj = Some body -> c_str body = body -> body <> [] ->
  let '(res, c) := serve (HttpPost body) (nt_central (cl_world s)) in
  size_of (default [] res) < 2 ^ 64 ->
  exists s', clt_registerApi addr api obj s = Some (default [] res, s') /\ nt_central (cl_world s') = c.
Proof.
  intros url Hu Hb Hc Hne. destruct (serve _ _) as [res c] eqn:Es. intros Hsz.
  unfold clt_registerApi. rewrite Hb. unfold of_option. unfold bind at 1, ret at 1.
  destruct s as [w o st op fi lg]. cbn -[serve] in Es. rewrite (bind_eq _ _ _ _ _ (new_on _ _ _ _ _ _ _)). set (pj := fresh (dom st)).
  match goal with |- context [bind _ _ ?s] => set (s1 := s) end.
  assert (cl_strs s1 !! pj = Some body) as Hpj by (cbn; by rewrite lookup_insert, decide_True).
  destruct (doPost_exact (CU := central_net) url pj body 1000 0 false None s1 0 (MkNet (nt_central w) [] false) (text_given _ Hu (url_not_empty (lit "register/api") [])) Hpj (text_given _ Hc Hne) eq_refl)
    as (p & s' & H). rewrite Hu, Hc in H. unfold transfer in H. cbn -[answer piece serve] in H. rewrite answer_post, Es in H.
  cbn -[piece] in H. rewrite piece_whole in H by done.
  destruct H as (H & Hw & _). unfold bind at 1. fold url. rewrite H. eexists. split; [reflexivity|]. cbn. by rewrite Hw.
Qed.

(** What one process registers with the central server, another gets, over HTTP. *)
Theorem register_get_over_http rs api obj body text s :
  let registered := addr ++ lit "/register/api" in
  c_str registered = registered -> c_str (clt_get_url addr api) = clt_get_url addr api ->
  js_exact obj -> clt_register api obj = Some body -> c_str body = body -> body <> [] ->
  js_dump obj = Some text -> size_of text < 2 ^ 64 ->
  nt_central (cl_world s) = serve_all rs (registerApi new_central) ->
  exists s1 s2, clt_registerApi addr api obj s = Some (lit "OK", s1) /\ get addr api s1 = Some (text, s2).
Proof.
  intros url Hu Hg Hx Hb Hc Hne Ht Hsz Hs.
  pose proof (register_then_get rs api obj body text Hx Hb Ht) as H.
  pose proof (register_answer api obj body s Hu Hb Hc Hne) as H1. rewrite Hs in H1.
  cbn zeta in H. destruct (serve (HttpPost body) _) as [res c1]. destruct H as (-> & H2 & _).
  destruct H1 as (s1 & E1 & Hs1); [by apply Z.ltb_lt|].
  destruct (get_answer api s1 Hg) as (s2 & E2 & _); [by rewrite Hs1, H2|].
  exists s1, s2. rewrite Hs1, H2 in E2. by split.
Qed.
End network.

(** ** Concrete runs *)

#[local] Existing Instances central_net central_net_laws tree_json tree_laws.

Definition host : bytes := lit "http://h".
Definition idle : curl net := MkCurl (MkNet (registerApi new_central) [] false) ∅ ∅ ∅ ∅ [].
#[local] Instance demo_net : Curl net := central_net host.

Lemma register_get_over_http_witness : exists body s1 s2,
  clt_register (lit "db") (GenLeaf (inr 5) : tree) = Some body /\
  clt_registerApi host (lit "db") (GenLeaf (inr 5) : tree) idle = Some (lit "OK", s1) /\
  Some (get host (lit "db") s1) = (fun t => Some (t, s2)) <$> js_dump (GenLeaf (inr 5) : tree).
Proof.
  destruct (js_dump (GenLeaf (inr 5) : tree)) as [text|] eqn:Et; [|by vm_compute in Et].
  destruct (clt_register (lit "db") (GenLeaf (inr 5) : tree)) as [body|] eqn:Eb; [|by vm_compute in Eb].
  destruct (register_get_over_http host [] (lit "db") (GenLeaf (inr 5) : tree) body text idle) as (s1 & s2 & E1 & E2); try done.
  - vm_compute in Eb. by injection Eb as <-.
  - vm_compute in Eb. by injection Eb as <-.
  - vm_compute in Et. by injection Et as <-.
  - exists body, s1, s2. split; [done|]. split; [exact E1|]. by rewrite (E2 : get (CU := demo_net) _ _ _ = _).
Defined.

(** A form of one field, sent where the network works. *)
Lemma form_undefined_witness :
  doPostForm (Some (lit "http://h/login")) [(lit "user", lit "me")] 1000 0 false None idle = None.
Proof. by apply (form_undefined _ _ _ _ _ _ _ 0 (MkNet (registerApi new_central) [] false)). Defined.

(** The text of the form, before it ends. *)
Example form_text :
  fst <$> form_loop (CU := demo_net) 0 true [(lit "a", lit "1"); (lit "b", lit "2")] [] idle = Some (lit "a=1&b=2").
Proof. by vm_compute. Qed.

(** A network in which texts of more than three bytes cannot be escaped. *)
#[local] Instance small_net : Curl net := {
  cu_init := cu_init (Curl := demo_net); cu_setopt := cu_setopt (Curl := demo_net); cu_cleanup := cu_cleanup (Curl := demo_net);
  cu_slist_append := cu_slist_append (Curl := demo_net); cu_slist_free_all := cu_slist_free_all (Curl := demo_net);
  cu_escape n _ t := (if size_of t <? 4 then Some (0, t) else None, n);
  cu_free := cu_free (Curl := demo_net); cu_request := cu_request (Curl := demo_net); cu_response := cu_response (Curl := demo_net);
  cu_fopen := cu_fopen (Curl := demo_net); cu_fwrite := cu_fwrite (Curl := demo_net); cu_fclose := cu_fclose (Curl := demo_net);
}.

(** A first field that cannot be escaped: the others follow a separator. *)
Example form_starts_with_separator :
  fst <$> form_loop (CU := small_net) 0 true [(lit "aaaa", lit "1"); (lit "b", lit "2")] [] idle = Some (lit "&b=2").
Proof. by vm_compute. Qed.
